(* ===== verification/_CoqProject ===== *)
-Q . S2P
Prelude.v
Codec.v
Packet.v
Frame.v
Handshake.v
ServerHandshake.v
Result.v
Row.v
Statement.v
Command.v
Response.v
RoundTrip.v
Errors.v
Budget.v
Float.v
Value.v
IndexKey.v
Like.v
Arithmetic.v
Literal.v
Assign.v
Cast.v
Varint.v
Bloom.v
Sha256.v
RespToken.v
RespReader.v
RespStream.v
RespResume.v
RespArray.v
RedisError.v
RedisCommand.v
RedisCluster.v
RedisTopology.v
Work.v
IndexRecord.v
CatalogRecord.v
Session.v
