(* ===== verification/Prelude.v ===== *)
(** * Verification of TurboDB: wire protocols, the SQL engine's core, and storage codecs

    TurboDB (src/) is a set of C libraries around databases. This development
    models four of its layers function by function and proves them correct: the
    MySQL protocol, on its client side (src/mysql/wire) and on its server side
    (src/tidessql/server/mysql); the core of the SQL engine that answers behind
    that server, its scalars, ledger, names, session variables and persistent
    records (src/tidessql/src); the reply reader, command builder and cluster
    topology of the Redis client (src/redis); and the Bloom filter and the
    digests of the storage engine (src/tidesdb/src).

    ** The program and its parts

    A client connects, the two sides negotiate capabilities and TLS, the client
    logs in, and then sends commands whose answers are result packets and rows.
    Bytes travel in packets (a 3-byte length, a sequence number, a payload);
    consecutive packets form one logical message. On the server a decoded
    command becomes a SQL statement; a statement runs under a resource ledger,
    evaluates scalar expressions over values, converts values to the columns
    they are stored in, and finds rows through index keys whose byte order is
    the SQL order. The definitions of tables and indexes are stored as records
    of bytes, built in vectors that are charged to the ledger. The Redis client
    reads replies of the RESP protocol from a stream as they arrive, and sends a
    command to the node of a cluster that holds the slot of its key. The storage
    engine asks a serialized Bloom filter before it reads a table, and signs
    with HMAC over SHA-256.

    ** The files

    - this file: machine integers at their width ([u8] to [u64], [size_sub]),
      bounds-checked memory ([ld], [st], [ldn], [stn]), the outcome monad [M],
      its weakest precondition [wp] and the tactics that step through it,
      little-endian bytes, C strings;
    - Codec (src/mysql/wire/codec.c): fixed-width and length-encoded integers
      and byte strings, and the decoder and builder states the others thread;
    - Packet (packet.c): the incremental packet parser, fed any chunk of the
      stream;
    - Frame (server frame.c, wire.h): reassembly of a logical message in a
      bounded buffer, and its division into packets;
    - Handshake (client handshake.c) and ServerHandshake (server handshake.c):
      greeting, capability choice, TLS request, login, and the negotiation
      state machine;
    - Result (result.c, query.c), Row (row.c), Statement (statement.c): the
      client's decoders of answers, text rows, column definitions, binary rows
      and the builders of commands;
    - Command (server command.c) and Response (server response.c): the server's
      decoder of commands and parameters, its encoder of answers;
    - RoundTrip: the server's encoders against the client's decoders;
    - Errors (include/turbodb/types.h, error.h): status codes and diagnostics of
      the engine;
    - Budget (budget.c): the resource ledger of a session;
    - Float: IEEE-754 binary64 arithmetic on bit patterns, for the doubles of
      the engine;
    - Value, Like, Arithmetic, Literal, Assign, Cast: the functions of value.c:
      predicates, LIKE, arithmetic, numeric literals, column assignment, CAST;
    - IndexKey (index_key.c, wire.h): order-preserving keys;
    - Work (wire.h, schema.h, name.c, work.c): little-endian fields, identifiers,
      schemas, vectors and sorting under the ledger, and the way an operation
      releases what it owns when it fails ([transact], [settled]);
    - IndexRecord (index_record.c, index_internal.h, destruction in index.c) and
      CatalogRecord (the schema view, renaming, destruction and the codec of
      catalog.c): the persistent records of indexes and tables;
    - Session (session.c): session variables;
    - Varint (tidesdb compat.h), Bloom (bloom_filter.c), Sha256 (sha256.c,
      hmac_sha256.c): variable-length integers, the filter and its dense, sparse
      and legacy formats, the digests;
    - RespToken (redis parser/redis_resp_parser.re), RespReader, RespStream,
      RespResume, RespArray (redis_parser.c): the scanner of header lines, the
      resumable reply reader with its stack of frames and its memory charges,
      its invariant on any bytes, its equivalence with the grammar under any
      cutting of the stream, and the reader of array elements with the receive
      buffer;
    - RedisError (error classes of redis_parser.c), RedisCommand
      (redis_protocol.c), RedisCluster and RedisTopology (redis_cluster.c): the
      class of a server error, the encoding of commands, key slots, and the
      topology with the routing of commands.

    ** How code is modelled

    A C function is a function of the same name. An argument pointer is an
    [option] ([None] is NULL), an object is its bytes or a record, an integer is
    a [Z] with the wrap-around of its type written out. The result is [Ret],
    [Err] with the status the code returns, or [Fault] for an access outside an
    object or an overflow of a signed type: a theorem that excludes [Fault]
    shows that no input makes the code do either. A buffer has the size of the
    whole object, so writing past the capacity is distinguished from writing
    past the object. Macros and enumerators are definitions with the names of
    the source. The operations of the engine thread the ledger they charge;
    what they return is what they store to their output. Doubles are their 64
    bits; every comparison, conversion and operation on them is computed with
    integers, rounding to nearest even.

    Code that is not part of the sources is a parameter: the UTF-8 validation of
    the tstr library ([vstr_utf8_valid]), pow of the C library, the format of
    the long double type and its powl, the decimal point of the locale; the
    allocators of the Bloom filter and its log, the allocator of the Redis
    reader (class [memory]), the strings of the tstr library (class
    [tstr_library] with its laws), the copies of the cluster; the vectors (class
    [vec_library]) and the stable sort of the runtime, and the sizes in memory
    of the record and of the binder ([sizeof_record], [sizeof_binder]).
    Theorems that rely on a behaviour of a parameter name it as a hypothesis.

    ** What the theorems show

    - Protocol: everything the client sends reaches the server unchanged, and
      conversely: the handshake, text commands, prepared-statement parameters,
      text and binary rows, OK/ERR/EOF packets, column and statement metadata.
      A message cut into packets is reassembled byte for byte however the
      transport cuts the stream; feeding chunks one by one is feeding their
      concatenation; a refusal latches.
    - Safety: decoders of untrusted bytes are memory safe on every input, bound
      what they hand out and change their output only on success; credentials
      are admitted only after TLS and a matching login.
    - Ledger: every reachable ledger respects its limits; a reservation is
      charged on all counters or on none; a statement can be ended exactly when
      what it reserved is released, and the ended ledger holds the retained work
      alone.
    - Engine: predicates are three-valued logic on the order of values, integers
      exactly, a double and a number as doubles;
      LIKE ends within its step bound and decides the matching relation;
      integer arithmetic is exact or reports overflow or division by zero;
      arithmetic is type safe and doubles stay finite; literals are exact;
      assignment stores the number a value denotes, rounded half away from zero,
      or clips, cuts or refuses it; CAST wraps with exact warnings.
    - Index keys: comparing encoded keys byte by byte is comparing rows by the
      SQL order of the index; keys are decoded to the values they encode, and
      only canonical keys are accepted.
    - Records: the bytes that decode as a table or as an index are exactly the
      encodings of valid ones; encoding and decoding are inverse, also across a
      renaming; every failure returns the work bytes it took.
    - Names and session variables: the scanner and the resolution agree with
      reference parsers, and every variable is found by its name in any case; a
      sort charges exactly the levels of a merge sort.
    - Redis: any encoding of a reply, cut in any way, is read to exactly that
      reply; no bytes make the reader fault; commands are encoded exactly; the
      slot of a key is the CRC of its hash tag; the topology is accepted exactly
      when it is consistent and complete, and a command reaches the node of its
      slot.
    - Storage: a key that was added to a filter is found, in every format after
      a round trip too; the digests are those of FIPS 180-4 and RFC 2104.

    ** Fuel and bounds

    Loops over bytes are structural. The LIKE matcher gets
    [like_loop] fuel from the step bound (text + 1) * (pattern + 1); its theorem
    shows that the bound is never the reason it stops. The padding loop of
    Assign runs at most cut - ordinal times, as in the code. A variable-length
    integer has at most 5 or 10 rounds, one for each 7 bits; the digest has one
    round for each 64 bytes; the reply reader gets 2 * used + 2 turns, and each
    turn but the last consumes a byte or completes a bulk string; a capacity is
    doubled and a sorted width is halved at most 64 times; a decimal has at most
    20 digits; a name has at most 64 rounds, one more than it may have bytes.
    The theorems show that these bounds are never the reason a loop stops. Views are shorter
    than 2^63 bytes ([view_ok]), the largest object C allows, and texts assigned
    to integers shorter than 2^61, so that digit counts cannot wrap.

    ** What is not modelled

    The asynchronous sessions of both sides, sockets and TLS, connection pools
    and flows of the Redis client (services and libraries outside the sources);
    the SQL parser (generated at build time from its grammar); the binders,
    query planning and execution of the engine (they walk the trees of that
    parser); the catalog store, index maintenance and transactions (they run on
    the storage engine); the storage engine apart from its filter and digests
    (threads, atomics and files); functions that only free memory; the ORM, the
    tools, the desktop application and the build. A floating-point division or a
    call of pow is exact up to its parameter or its IEEE rounding only. *)

From Stdlib Require Export ZArith Lia.
From stdpp Require Export prelude list list_numbers option.

#[global] Open Scope Z_scope.
#[global] Set Default Goal Selector "!".

#[global] Arguments Z.mul : simpl never.
#[global] Arguments Z.add : simpl never.
#[global] Arguments Z.sub : simpl never.
#[global] Arguments Z.pow : simpl never.
#[global] Arguments Z.div : simpl never.
#[global] Arguments Z.modulo : simpl never.
#[global] Arguments Z.land : simpl never.
#[global] Arguments Z.lor : simpl never.
#[global] Arguments Z.shiftl : simpl never.
#[global] Arguments Z.shiftr : simpl never.
#[global] Arguments Z.of_nat : simpl never.
#[global] Arguments Z.to_nat : simpl never.

Declare Scope wire_scope.
Delimit Scope wire_scope with wire.
#[global] Open Scope wire_scope.

(** ** Machine integers

    A w-bit unsigned integer is a [Z] in [0, 2^w); a conversion to a narrower
    type wraps. [size_t] is 64 bits wide. *)

Definition u8 (z : Z) : Z := z mod 2 ^ 8.
Definition u16 (z : Z) : Z := z mod 2 ^ 16.
Definition u32 (z : Z) : Z := z mod 2 ^ 32.
Definition u64 (z : Z) : Z := z mod 2 ^ 64.
Definition SIZE_MAX : Z := 2 ^ 64 - 1.
Definition UINT32_MAX : Z := 2 ^ 32 - 1.
Definition UINT64_MAX : Z := 2 ^ 64 - 1.

(** Subtraction of two [size_t] values: it wraps when the guard before it is
    missing or wrong. *)
Definition size_sub (a b : Z) : Z := u64 (a - b).

Definition bytes_ok (l : list Z) : Prop := Forall (fun b => 0 <= b < 256) l.

Abbreviation bytes := (list Z) (only parsing).

Definition bytes_okb (l : list Z) : bool := forallb (fun b => (0 <=? b) && (b <? 256)) l.

(** A pointer that may be NULL. *)
Abbreviation ptr A := (option A) (only parsing).

(** A pointer that is not NULL. *)
Definition is_some {A} (o : ptr A) : bool := match o with Some _ => true | None => false end.

Notation "'len' l" := (Z.of_nat (length l)) (at level 10, l at level 9) : wire_scope.

(** ** Memory

    An object is the list of its bytes; an access outside it gives [None]. *)

Definition ld (d : bytes) (i : Z) : option Z :=
  if i <? 0 then None else d !! Z.to_nat i.

Definition st (d : bytes) (i : Z) (b : Z) : option bytes :=
  if (0 <=? i) && (i <? len d) then Some (<[Z.to_nat i := b]> d) else None.

(** The [n] bytes at [i], as memcpy reads them. *)
Definition ldn (d : bytes) (i n : Z) : option bytes :=
  if (0 <=? i) && (0 <=? n) && (i + n <=? len d)
  then Some (take (Z.to_nat n) (drop (Z.to_nat i) d)) else None.

(** [src] copied over the bytes of [d] at [i], as memcpy writes them. *)
Definition splice (d : bytes) (i : Z) (src : bytes) : bytes :=
  take (Z.to_nat i) d ++ src ++ drop (Z.to_nat i + length src) d.

Definition stn (d : bytes) (i : Z) (src : bytes) : option bytes :=
  if (0 <=? i) && (i + len src <=? len d) then Some (splice d i src) else None.

(** ** Results and state

    A C function ends with a value, with an error status, or in undefined
    behaviour ([Fault]: an access outside an object). What it wrote before an
    error return stays written, so the state is returned in every case. *)

Inductive outcome (E A : Type) : Type :=
| Ret (a : A)
| Err (e : E)
| Fault.
Arguments Ret {E A} a.
Arguments Err {E A} e.
Arguments Fault {E A}.

#[global] Instance outcome_eq_dec {E A} `{EqDecision E, EqDecision A} : EqDecision (outcome E A).
Proof. solve_decision. Defined.

Definition M (E S A : Type) : Type := S -> outcome E A * S.

#[global] Instance M_ret {E S} : MRet (M E S) := fun A a s => (Ret a, s).
#[global] Instance M_bind {E S} : MBind (M E S) := fun A B k m s =>
  match m s with
  | (Ret a, s') => k a s'
  | (Err e, s') => (Err e, s')
  | (Fault, s') => (Fault, s')
  end.

Section Actions.
Context {E S : Type}.

Definition fail (e : E) {A} : M E S A := fun s => (Err e, s).
(** [if (c) return e;] *)
Definition fail_if (c : bool) (e : E) : M E S unit :=
  fun s => (if c then Err e else Ret tt, s).
(** A memory access: [None] is undefined behaviour. *)
Definition access {A} (o : option A) : M E S A :=
  fun s => (match o with Some a => Ret a | None => Fault end, s).
Definition modify (f : S -> S) : M E S unit := fun s => (Ret tt, f s).
Definition gets {A} (f : S -> A) : M E S A := fun s => (Ret (f s), s).
Definition when (c : bool) (m : M E S unit) : M E S unit :=
  if c then m else mret tt.
(** A status that is passed on under another name. *)
Definition map_err {E' A} (f : E -> E') (m : M E S A) : M E' S A := fun s =>
  match m s with
  | (Ret a, s') => (Ret a, s')
  | (Err e, s') => (Err (f e), s')
  | (Fault, s') => (Fault, s')
  end.
End Actions.

(** Weakest precondition: no undefined behaviour, [Q] on success, [R] on error. *)
Definition wp {E S A} (m : M E S A) (Q : A -> S -> Prop) (R : E -> S -> Prop)
    (s : S) : Prop :=
  match m s with
  | (Ret a, s') => Q a s'
  | (Err e, s') => R e s'
  | (Fault, _) => False
  end.

Create HintDb wp discriminated.

Section WpRules.
Context {E S : Type}.

Lemma wp_ret {A} (a : A) (Q : A -> S -> Prop) (R : E -> S -> Prop) s :
  Q a s -> wp (mret a) Q R s.
Proof. done. Qed.

Lemma wp_bind {A B} (m : M E S A) (k : A -> M E S B) Q R s :
  wp m (fun a s' => wp (k a) Q R s') R s -> wp (m ≫= k) Q R s.
Proof. unfold wp, mbind, M_bind. by destruct (m s) as [[] ]. Qed.

Lemma wp_mono {A} (m : M E S A) (Q Q' : A -> S -> Prop) (R R' : E -> S -> Prop) s :
  wp m Q R s -> (forall a s', Q a s' -> Q' a s') ->
  (forall e s', R e s' -> R' e s') -> wp m Q' R' s.
Proof. unfold wp. intros H HQ HR. destruct (m s) as [[] ]; auto. Qed.

Lemma wp_fail {A} (e : E) (Q : A -> S -> Prop) (R : E -> S -> Prop) s :
  R e s -> wp (fail e) Q R s.
Proof. done. Qed.

Lemma wp_fail_if (c : bool) (e : E) (Q : unit -> S -> Prop) R s :
  (c = true -> R e s) -> (c = false -> Q tt s) -> wp (fail_if c e) Q R s.
Proof. unfold wp, fail_if. destruct c; auto. Qed.

Lemma wp_access {A} (o : option A) (Q : A -> S -> Prop) (R : E -> S -> Prop) s :
  is_Some o -> (forall a, o = Some a -> Q a s) -> wp (access o) Q R s.
Proof. intros [a ->] H. by apply H. Qed.

Lemma wp_modify (f : S -> S) (Q : unit -> S -> Prop) (R : E -> S -> Prop) s :
  Q tt (f s) -> wp (modify f) Q R s.
Proof. done. Qed.

Lemma wp_gets {A} (f : S -> A) (Q : A -> S -> Prop) (R : E -> S -> Prop) s :
  Q (f s) s -> wp (gets f) Q R s.
Proof. done. Qed.

Lemma wp_map_err {E' A} (f : E -> E') (m : M E S A) Q R s :
  wp m Q (fun e => R (f e)) s -> wp (map_err f m) Q R s.
Proof. unfold wp, map_err. by destruct (m s) as [[] ]. Qed.

Lemma wp_when (c : bool) (m : M E S unit) Q R s :
  (c = true -> wp m Q R s) -> (c = false -> Q tt s) -> wp (when c m) Q R s.
Proof. intros H1 H2. destruct c; [by apply H1 | by apply H2]. Qed.
End WpRules.

Lemma wp_Ret {E S A} (m : M E S A) Q R s a s' : wp m Q R s -> m s = (Ret a, s') -> Q a s'.
Proof. intros H E1. unfold wp in H. by rewrite E1 in H. Qed.

(** What a run that returned went through. *)
Lemma bind_Ret {E S A B} (m : M E S A) (k : A -> M E S B) s b s' :
  (m ≫= k) s = (Ret b, s') -> exists a s1, m s = (Ret a, s1) /\ k a s1 = (Ret b, s').
Proof. unfold mbind, M_bind. destruct (m s) as [[a|e|] s1]; [|done..]. eauto. Qed.

Lemma access_Ret {E S A} (o : option A) (s : S) a s' :
  access (E := E) o s = (Ret a, s') -> o = Some a /\ s' = s.
Proof. unfold access. destruct o; [|done]. by intros [= -> ->]. Qed.

#[export] Hint Resolve wp_ret wp_fail wp_modify wp_gets : wp.

(** One step of symbolic execution. *)
Ltac wp_step :=
  match goal with
  | |- wp (_ ≫= _) _ _ _ => apply wp_bind
  | |- wp (mret _) _ _ _ => apply wp_ret
  | |- wp (fail _) _ _ _ => apply wp_fail
  | |- wp (fail_if _ _) _ _ _ => apply wp_fail_if; intros
  | |- wp (modify _) _ _ _ => apply wp_modify
  | |- wp (gets _) _ _ _ => apply wp_gets
  | |- wp (map_err _ _) _ _ _ => apply wp_map_err
  | |- wp (when _ _) _ _ _ => apply wp_when; intros
  | |- wp (if ?c then _ else _) _ _ _ => destruct c eqn:?
  end.

(** Introduce an equation between constructors and substitute what it gives. *)
Ltac inj := let E := fresh "E" in intros E; injection E; clear E; intros; subst.

Ltac bsimp :=
  repeat match goal with
  | H : _ || _ = true |- _ => apply orb_true_iff in H
  | H : _ || _ = false |- _ => apply orb_false_iff in H; destruct H
  | H : _ && _ = true |- _ => apply andb_true_iff in H; destruct H
  | H : _ && _ = false |- _ => apply andb_false_iff in H
  | H : negb _ = true |- _ => apply negb_true_iff in H
  | H : negb _ = false |- _ => apply negb_false_iff in H
  | H : (_ =? _) = true |- _ => apply Z.eqb_eq in H
  | H : (_ =? _) = false |- _ => apply Z.eqb_neq in H
  | H : (_ <? _) = true |- _ => apply Z.ltb_lt in H
  | H : (_ <? _) = false |- _ => apply Z.ltb_ge in H
  | H : (_ <=? _) = true |- _ => apply Z.leb_le in H
  | H : (_ <=? _) = false |- _ => apply Z.leb_gt in H
  end.

(** [lia] on goals that still hold boolean tests and machine-integer wraps. *)
Ltac blia := bsimp; cbn [negb] in *; lia.

(** Destruct the value-carrying tests of the goal one after the other. *)
Ltac case_all :=
  repeat (first [ case_match | progress simplify_eq/= ]; bsimp).

(** ** Lemmas on memory *)

Lemma size_sub_small a b : 0 <= b <= a -> a < 2 ^ 64 -> size_sub a b = a - b.
Proof. intros. unfold size_sub, u64. rewrite Z.mod_small; lia. Qed.

Lemma u8_small z : 0 <= z < 2 ^ 8 -> u8 z = z.
Proof. apply Z.mod_small. Qed.
Lemma u16_small z : 0 <= z < 2 ^ 16 -> u16 z = z.
Proof. apply Z.mod_small. Qed.
Lemma u32_small z : 0 <= z < 2 ^ 32 -> u32 z = z.
Proof. apply Z.mod_small. Qed.
Lemma u64_small z : 0 <= z < 2 ^ 64 -> u64 z = z.
Proof. apply Z.mod_small. Qed.
Lemma u8_range z : 0 <= u8 z < 256.
Proof. by apply Z.mod_pos_bound. Qed.
Lemma u16_range z : 0 <= u16 z < 2 ^ 16.
Proof. by apply Z.mod_pos_bound. Qed.
Lemma u32_range z : 0 <= u32 z < 2 ^ 32.
Proof. by apply Z.mod_pos_bound. Qed.
Lemma u64_range z : 0 <= u64 z < 2 ^ 64.
Proof. by apply Z.mod_pos_bound. Qed.

Lemma bytes_okb_ok l : bytes_okb l = true -> bytes_ok l.
Proof.
  unfold bytes_okb. induction l as [|b l IH]; cbn; intros Hb; [apply Forall_nil_2|].
  bsimp. apply Forall_cons_2; [lia|by apply IH].
Qed.

Lemma ld_Some d i b : ld d i = Some b -> 0 <= i < len d.
Proof.
  unfold ld. case_match; [done|]. intros Hb%lookup_lt_Some. blia.
Qed.

Lemma ld_is_Some d i : 0 <= i < len d -> is_Some (ld d i).
Proof.
  intros. unfold ld. case_match; [blia|]. apply lookup_lt_is_Some. lia.
Qed.

Lemma ld_byte d i b : bytes_ok d -> ld d i = Some b -> 0 <= b < 256.
Proof.
  unfold ld. intros Hd. case_match; [done|]. intros Hb.
  by eapply (Forall_lookup_1 _ _ _ _ Hd) in Hb.
Qed.

Lemma st_Some d i b : 0 <= i < len d -> st d i b = Some (<[Z.to_nat i := b]> d).
Proof. intros. unfold st. case_match; [done|]. blia. Qed.

Lemma ldn_Some d i n :
  0 <= i -> 0 <= n -> i + n <= len d ->
  ldn d i n = Some (take (Z.to_nat n) (drop (Z.to_nat i) d)).
Proof. intros. unfold ldn. case_match; [done|]. blia. Qed.

Lemma ldn_length d i n bs : ldn d i n = Some bs -> len bs = n.
Proof.
  unfold ldn. case_match; [|done]. intros [= <-]. bsimp.
  rewrite length_take, length_drop. lia.
Qed.

Lemma ldn_bytes d i n bs : bytes_ok d -> ldn d i n = Some bs -> bytes_ok bs.
Proof.
  unfold ldn. case_match; [|done]. intros Hd [= <-].
  by apply Forall_take, Forall_drop.
Qed.

Lemma ld_app_l p q i : i < len p -> ld (p ++ q) i = ld p i.
Proof. intros. unfold ld. case_match; [done|]. apply lookup_app_l. blia. Qed.

Lemma ld_middle a x l : ld (a ++ x :: l) (len a) = Some x.
Proof. unfold ld. rewrite (proj2 (Z.ltb_ge _ _)) by lia. rewrite Nat2Z.id. by apply list_lookup_middle. Qed.

Lemma ldn_app_l p q i n : i + n <= len p -> ldn (p ++ q) i n = ldn p i n.
Proof.
  intros. unfold ldn. rewrite length_app.
  destruct (Z.leb_spec 0 i), (Z.leb_spec 0 n); cbn [andb]; [|done..].
  destruct (Z.leb_spec (i + n) (Z.of_nat (length p + length q))),
    (Z.leb_spec (i + n) (len p)); [|lia..].
  f_equal. rewrite drop_app_le by lia. apply take_app_le. rewrite length_drop. lia.
Qed.

Lemma length_splice d i src :
  0 <= i -> i + len src <= len d -> length (splice d i src) = length d.
Proof.
  intros. unfold splice. rewrite !length_app, length_take, length_drop. lia.
Qed.

Lemma stn_Some d i src :
  0 <= i -> i + len src <= len d -> stn d i src = Some (splice d i src).
Proof. intros. unfold stn. case_match; [done|]. blia. Qed.

Lemma splice_nil d i : splice d i [] = d.
Proof. unfold splice. cbn. rewrite Nat.add_0_r. apply take_drop. Qed.

Lemma splice_app d i a b :
  0 <= i -> i + len a + len b <= len d ->
  splice (splice d i a) (i + len a) b = splice d i (a ++ b).
Proof.
  intros. unfold splice.
  replace (Z.to_nat (i + len a)) with (Z.to_nat i + length a)%nat by lia.
  rewrite !app_assoc.
  rewrite (take_app_length' (take (Z.to_nat i) d ++ a)) by
    (rewrite length_app, length_take; lia).
  rewrite <- !app_assoc. do 3 f_equal.
  rewrite app_assoc, drop_app_ge by (rewrite length_app, length_take; lia).
  rewrite !length_app, length_take, drop_drop. f_equal. lia.
Qed.

Lemma st_splice d i b :
  0 <= i < len d -> st d i b = Some (splice d i [b]).
Proof.
  intros. rewrite st_Some by lia. f_equal. unfold splice. cbn.
  rewrite insert_take_drop by lia. repeat f_equal. lia.
Qed.

Lemma splice_bytes d i src : bytes_ok d -> bytes_ok src -> bytes_ok (splice d i src).
Proof.
  intros. unfold splice. by repeat apply Forall_app_2; [apply Forall_take| |apply Forall_drop].
Qed.

(** Bytes outside the written range keep their value. *)
Lemma splice_lookup_other d i src j :
  0 <= i -> i + len src <= len d -> (j < i \/ i + len src <= j) ->
  ld (splice d i src) j = ld d j.
Proof.
  intros Hi Hl Hj. unfold ld. case_match; [done|]. bsimp. unfold splice.
  destruct Hj.
  - rewrite lookup_app_l by (rewrite length_take; lia). apply lookup_take_lt. lia.
  - rewrite app_assoc, lookup_app_r by (rewrite length_app, length_take; lia).
    rewrite length_app, length_take, lookup_drop. f_equal. lia.
Qed.

Lemma splice_ldn d i src :
  0 <= i -> i + len src <= len d -> ldn (splice d i src) i (len src) = Some src.
Proof.
  intros. rewrite ldn_Some by (rewrite ?length_splice; lia). f_equal. unfold splice.
  rewrite drop_app_length' by (rewrite length_take; lia).
  by rewrite take_app_length' by lia.
Qed.

(** The bytes up to the end of what was written. *)
Lemma take_splice d i src :
  0 <= i -> i + len src <= len d ->
  take (Z.to_nat (i + len src)) (splice d i src) = take (Z.to_nat i) d ++ src.
Proof.
  intros. unfold splice. rewrite app_assoc.
  rewrite take_app_length'; [done|]. rewrite length_app, length_take. lia.
Qed.

Lemma ldn_all (d : bytes) : ldn d 0 (len d) = Some d.
Proof. rewrite ldn_Some by lia. by rewrite Nat2Z.id, drop_0, firstn_all. Qed.

Lemma splice_whole (d l : bytes) : len l = len d -> splice d 0 l = l.
Proof. intros E. unfold splice. rewrite take_0, drop_ge by lia. by rewrite app_nil_r. Qed.

(** Writing right after a prefix. *)
Lemma splice_after (a junk l : bytes) : len l <= len junk -> splice (a ++ junk) (len a) l = a ++ l ++ drop (length l) junk.
Proof.
  intros Hl. unfold splice. rewrite Nat2Z.id, take_app_length, drop_app_ge by lia. do 3 f_equal. lia.
Qed.

(** ** Suffixes: what a cursor has left to read *)

Definition suffix_at (d : bytes) (off : Z) (l : bytes) : Prop :=
  0 <= off /\ off <= len d /\ drop (Z.to_nat off) d = l.

Lemma suffix_at_0 d : suffix_at d 0 d.
Proof. split_and!; [lia..|]. apply drop_0. Qed.

Lemma suffix_at_end a l : suffix_at (a ++ l) (len a) l.
Proof.
  split_and!; [lia|rewrite length_app; lia|]. rewrite Nat2Z.id. apply drop_app_length.
Qed.

Lemma suffix_at_len d off l : suffix_at d off l -> len d = off + len l.
Proof. intros (? & ? & <-). rewrite length_drop. lia. Qed.

Lemma suffix_at_app d off a l :
  suffix_at d off (a ++ l) -> suffix_at d (off + len a) l.
Proof.
  intros H. pose proof (suffix_at_len _ _ _ H) as Hl. rewrite length_app in Hl.
  destruct H as (? & ? & H). split_and!; [lia..|].
  replace (Z.to_nat (off + len a)) with (Z.to_nat off + length a)%nat by lia.
  rewrite <- drop_drop, H. apply drop_app_length.
Qed.

Lemma suffix_at_cons d off b l : suffix_at d off (b :: l) -> suffix_at d (off + 1) l.
Proof. apply (suffix_at_app d off [b] l). Qed.

Lemma suffix_at_ldn d off a l :
  suffix_at d off (a ++ l) -> ldn d off (len a) = Some a.
Proof.
  intros H. pose proof (suffix_at_len _ _ _ H) as Hl. rewrite length_app in Hl.
  destruct H as (? & ? & H). rewrite ldn_Some, H by lia. f_equal.
  by rewrite take_app_length' by lia.
Qed.

Lemma suffix_at_ld d off b l : suffix_at d off (b :: l) -> ld d off = Some b.
Proof.
  intros (? & ? & H). unfold ld. case_match; [blia|].
  rewrite <- (Nat.add_0_r (Z.to_nat off)), <- lookup_drop, H. done.
Qed.

(** ** Little-endian integers *)

Fixpoint le_bytes (n : nat) (z : Z) : bytes :=
  match n with
  | O => []
  | S n => z mod 256 :: le_bytes n (z / 256)
  end.

Fixpoint le_val (l : bytes) : Z :=
  match l with
  | [] => 0
  | b :: l => b + 256 * le_val l
  end.

Lemma length_le_bytes n z : length (le_bytes n z) = n.
Proof. revert z. induction n; intros; cbn [le_bytes length]; auto. Qed.

Lemma le_bytes_ok n z : bytes_ok (le_bytes n z).
Proof.
  revert z. induction n; intros; cbn [le_bytes]; constructor; [|apply IHn].
  by apply Z.mod_pos_bound.
Qed.

Lemma le_val_bytes n z : le_val (le_bytes n z) = z mod 2 ^ (8 * Z.of_nat n).
Proof.
  revert z. induction n as [|n IH]; intros z; cbn [le_bytes le_val].
  { by rewrite Z.mod_1_r. }
  rewrite IH. replace (8 * Z.of_nat (S n)) with (8 + 8 * Z.of_nat n) by lia.
  rewrite Z.pow_add_r by lia. change (2 ^ 8) with 256.
  rewrite (Z.rem_mul_r z 256); [lia|lia|]. apply Z.pow_pos_nonneg; lia.
Qed.

Lemma le_val_range l : bytes_ok l -> 0 <= le_val l < 2 ^ (8 * len l).
Proof.
  induction 1 as [|b l Hb _ IH]; cbn [le_val length]; [done|].
  replace (8 * Z.of_nat (S (length l))) with (8 + 8 * len l) by lia.
  rewrite Z.pow_add_r by lia. change (2 ^ 8) with 256. lia.
Qed.

Lemma le_bytes_val l : bytes_ok l -> le_bytes (length l) (le_val l) = l.
Proof.
  induction 1 as [|b l Hb _ IH]; cbn [le_val le_bytes length]; [done|].
  rewrite (Z.mul_comm 256), Z.mod_add, Z.div_add by lia.
  rewrite Z.mod_small, Z.div_small, Z.add_0_l by lia.
  by rewrite IH.
Qed.

#[global] Arguments le_bytes : simpl never.

(** A shifted value above the bits of the accumulator is added to it. *)
Lemma lor_shiftl_add a b n :
  0 <= n -> 0 <= a < 2 ^ n -> Z.lor a (Z.shiftl b n) = a + b * 2 ^ n.
Proof.
  intros Hn Ha. rewrite <- Z.shiftl_mul_pow2 by lia.
  rewrite Z.add_nocarry_lxor.
  - rewrite Z.lxor_lor; [done|]. apply Z.bits_inj_0. intros i.
    rewrite Z.land_spec. destruct (Z.ltb_spec i n).
    + rewrite Z.shiftl_spec_low by lia. apply andb_false_r.
    + rewrite <- (Z.mod_small a (2 ^ n)), Z.mod_pow2_bits_high by lia. done.
  - apply Z.bits_inj_0. intros i.
    rewrite Z.land_spec. destruct (Z.ltb_spec i n).
    + rewrite Z.shiftl_spec_low by lia. apply andb_false_r.
    + rewrite <- (Z.mod_small a (2 ^ n)), Z.mod_pow2_bits_high by lia. done.
Qed.

(** ** NUL-terminated strings *)

(** The index of the first zero byte: memchr(l, 0, n), and strlen when the
    terminator is there. *)
Fixpoint find_nul (l : bytes) : option Z :=
  match l with
  | [] => None
  | b :: l =>
      if b =? 0 then Some 0
      else match find_nul l with Some n => Some (n + 1) | None => None end
  end.

(** The characters of a string: bytes other than the terminator. *)
Definition text_ok (l : bytes) : Prop := Forall (fun b => 0 < b < 256) l.

Lemma text_ok_bytes l : text_ok l -> bytes_ok l.
Proof. apply Forall_impl. lia. Qed.

Lemma find_nul_text a l : text_ok a -> find_nul (a ++ 0 :: l) = Some (len a).
Proof.
  induction a as [|b a IH]; intros Ha; [done|]. apply list.Forall_cons in Ha as [Hb Ha].
  cbn [app find_nul]. destruct (Z.eqb_spec b 0); [lia|]. rewrite IH by done. cbn [length]. f_equal. lia.
Qed.

Lemma find_nul_app_nul a l : is_Some (find_nul (a ++ 0 :: l)).
Proof.
  induction a as [|b a [n IH]]; cbn [app find_nul]; [by eexists|].
  destruct (b =? 0); [by eexists|]. rewrite IH. by eexists.
Qed.

Lemma find_nul_Some l n :
  bytes_ok l -> find_nul l = Some n ->
  exists a r, l = a ++ 0 :: r /\ len a = n /\ text_ok a.
Proof.
  revert n. induction l as [|b l IH]; intros n Hl; [done|]. apply list.Forall_cons in Hl as [Hb Hl].
  cbn [find_nul]. destruct (Z.eqb_spec b 0) as [->|Hb0].
  - intros [= <-]. exists [], l. split_and!; try done. apply Forall_nil_2.
  - destruct (find_nul l) as [m|]; [|done]. intros [= <-].
    destruct (IH m Hl eq_refl) as (a & r & -> & <- & Ha). exists (b :: a), r. split_and!; try done.
    + cbn [length]. lia.
    + apply Forall_cons_2; [lia|done].
Qed.

Lemma find_nul_None l : find_nul l = None -> bytes_ok l -> text_ok l.
Proof.
  induction l as [|b l IH]; intros Hn Hl; [apply Forall_nil_2|]. apply list.Forall_cons in Hl as [Hb Hl].
  cbn [find_nul] in Hn. destruct (Z.eqb_spec b 0); [done|].
  destruct (find_nul l); [done|]. apply Forall_cons_2; [lia|]. by apply IH.
Qed.

Definition text_okb (l : bytes) : bool := forallb (fun b => (0 <? b) && (b <? 256)) l.

Lemma text_okb_ok l : text_okb l = true -> text_ok l.
Proof.
  unfold text_okb. induction l as [|b l IH]; cbn; intros Hb; [apply Forall_nil_2|].
  bsimp. apply Forall_cons_2; [lia|by apply IH].
Qed.

(** ** Single bits *)

Lemma land_pow2 c k : 0 <= k -> Z.land c (2 ^ k) = if Z.testbit c k then 2 ^ k else 0.
Proof.
  intros Hk. apply Z.bits_inj'. intros n Hn. rewrite Z.land_spec, Z.pow2_bits_eqb by done.
  destruct (Z.eqb_spec k n) as [->|Hne].
  - rewrite andb_true_r. destruct (Z.testbit c n); [by rewrite Z.pow2_bits_true|by rewrite Z.bits_0].
  - rewrite andb_false_r. destruct (Z.testbit c k); [|by rewrite Z.bits_0].
    by rewrite Z.pow2_bits_false.
Qed.

(** [c] has all the bits of [m]. *)
Definition has_bits (c m : Z) : Prop := Z.land c m = m.

Lemma has_bits_lor c a b : has_bits c (Z.lor a b) <-> has_bits c a /\ has_bits c b.
Proof.
  unfold has_bits. rewrite Z.land_lor_distr_r. split.
  - intros H. split; apply Z.bits_inj'; intros n Hn; apply (f_equal (fun z => Z.testbit z n)) in H;
      rewrite !Z.lor_spec, !Z.land_spec in H; rewrite Z.land_spec;
      destruct (Z.testbit a n), (Z.testbit b n), (Z.testbit c n); done.
  - by intros [-> ->].
Qed.

Lemma has_bits_land c m : has_bits c (Z.land c m).
Proof. unfold has_bits. by rewrite Z.land_assoc, Z.land_diag. Qed.

Lemma has_bits_trans a b c : has_bits a b -> has_bits b c -> has_bits a c.
Proof. unfold has_bits. intros H1 H2. by rewrite <- H2, Z.land_assoc, H1. Qed.

(** A one-bit mask is there exactly when the test is not zero. *)
Lemma has_bit_test c k : 0 <= k -> (Z.land c (2 ^ k) =? 0) = false <-> has_bits c (2 ^ k).
Proof.
  intros Hk. unfold has_bits. rewrite land_pow2 by done. pose proof (Z.pow_pos_nonneg 2 k).
  destruct (Z.testbit c k); rewrite ?Z.eqb_neq, ?Z.eqb_eq; split; try done; lia.
Qed.

(** Bitwise operations stay within a width. *)
Lemma bits_range z n : 0 <= n -> 0 <= z -> (forall i, n <= i -> Z.testbit z i = false) -> 0 <= z < 2 ^ n.
Proof.
  intros Hn Hz Hb. split; [done|]. assert (z = z mod 2 ^ n) as ->; [|apply Z.mod_pos_bound, Z.pow_pos_nonneg; lia].
  apply Z.bits_inj'. intros i Hi. destruct (Z.ltb_spec i n).
  - by rewrite Z.mod_pow2_bits_low.
  - by rewrite Hb, Z.mod_pow2_bits_high by lia.
Qed.

Lemma testbit_high z n i : 0 <= z < 2 ^ n -> 0 <= n <= i -> Z.testbit z i = false.
Proof. intros Hz Hi. rewrite <- (Z.mod_small z (2 ^ n)) by done. apply Z.mod_pow2_bits_high. lia. Qed.

Lemma lxor_range a b n : 0 <= n -> 0 <= a < 2 ^ n -> 0 <= b < 2 ^ n -> 0 <= Z.lxor a b < 2 ^ n.
Proof.
  intros Hn Ha Hb. apply bits_range; [done|by apply Z.lxor_nonneg; split; intros; lia|].
  intros i Hi. rewrite Z.lxor_spec. by rewrite !(testbit_high _ n) by lia.
Qed.

Lemma lor_range a b n : 0 <= n -> 0 <= a < 2 ^ n -> 0 <= b < 2 ^ n -> 0 <= Z.lor a b < 2 ^ n.
Proof.
  intros Hn Ha Hb. apply bits_range; [done|apply Z.lor_nonneg; lia|].
  intros i Hi. rewrite Z.lor_spec. by rewrite !(testbit_high _ n) by lia.
Qed.

Lemma land_range a b n : 0 <= n -> 0 <= a < 2 ^ n -> 0 <= b -> 0 <= Z.land a b < 2 ^ n.
Proof.
  intros Hn Ha Hb. apply bits_range; [done|apply Z.land_nonneg; lia|].
  intros i Hi. rewrite Z.land_spec. by rewrite (testbit_high a n) by lia.
Qed.

Lemma shiftr_range a k n : 0 <= k -> 0 <= a < 2 ^ n -> 0 <= Z.shiftr a k < 2 ^ n.
Proof.
  intros Hk Ha. rewrite Z.shiftr_div_pow2 by done. pose proof (Z.pow_pos_nonneg 2 k ltac:(lia) Hk).
  split; [apply Z.div_pos; lia|]. pose proof (Z.div_le_upper_bound a (2 ^ k) a). nia.
Qed.

(** Evaluate the bit operations of the goal that have constant arguments. *)
Ltac constant_mask m :=
  lazymatch m with
  | Z0 => idtac
  | Zpos _ => idtac
  | Z.lor ?a ?b => constant_mask a; constant_mask b
  | Z.land ?a ?b => constant_mask a; constant_mask b
  | _ => is_const m
  end.

Ltac ground_bits :=
  repeat match goal with
  | |- context [Z.land ?a ?b] =>
      constant_mask a; constant_mask b;
      let v := eval vm_compute in (Z.land a b) in change (Z.land a b) with v
  | |- context [Z.lor ?a ?b] =>
      constant_mask a; constant_mask b;
      let v := eval vm_compute in (Z.lor a b) in change (Z.lor a b) with v
  end;
  rewrite ?Z.land_0_r, ?Z.land_0_l, ?Z.lor_0_r, ?Z.lor_0_l.

(** The bits of a union of masks, one mask at a time. *)
Ltac split_bits := repeat (rewrite Z.land_lor_distr_l || rewrite <- Z.land_assoc); ground_bits.
