(* ===== verification/Codec.v ===== *)
(** * The byte codec of the MySQL wire protocol (mysql/wire/codec.c)

    Little-endian integers of 1 to 8 bytes, length-encoded integers and
    length-encoded byte strings, read from and written to a bounded buffer
    through a cursor. The second half of the file lifts these functions to the
    two ways the rest of the library uses them: decoders that thread a cursor
    and a partly filled output structure ([dec]), and builders that thread an
    output buffer and a cursor ([enc]). *)

From S2P Require Import Prelude.

(** ** Data *)

(** MYSQL_WIRE_STATUS_OK is [Ret tt]; these are the statuses of an error return. *)
Inductive mysql_wire_status_t : Type :=
| MYSQL_WIRE_STATUS_NEED_MORE
| MYSQL_WIRE_STATUS_INVALID
| MYSQL_WIRE_STATUS_LIMIT
| MYSQL_WIRE_STATUS_SEQUENCE.

#[global] Instance mysql_wire_status_t_eq_dec : EqDecision mysql_wire_status_t.
Proof. solve_decision. Defined.

Abbreviation NEED_MORE := MYSQL_WIRE_STATUS_NEED_MORE (only parsing).
Abbreviation INVALID := MYSQL_WIRE_STATUS_INVALID (only parsing).
Abbreviation LIMIT := MYSQL_WIRE_STATUS_LIMIT (only parsing).
Abbreviation SEQUENCE := MYSQL_WIRE_STATUS_SEQUENCE (only parsing).

Abbreviation wire_result A := (outcome mysql_wire_status_t A) (only parsing).

(** A borrowed byte string: [wb_data] is the bytes the view spans. *)
Record mysql_wire_bytes_t : Type := mk_wire_bytes {
  wb_data : ptr bytes;
  wb_length : Z;
  wb_is_null : bool
}.

Definition wire_bytes_zero : mysql_wire_bytes_t := mk_wire_bytes None 0 false.

(** The view of a byte string. *)
Definition wire_bytes_of (l : bytes) : mysql_wire_bytes_t :=
  mk_wire_bytes (Some l) (len l) false.

Definition wire_bytes_null : mysql_wire_bytes_t := mk_wire_bytes None 0 true.

(** ** Fixed-width integers *)

(** [for (i = 0u; i < width; ++i) value |= (uint64_t)data[cursor + i] << (8u * i);] *)
Fixpoint read_le_loop (d : bytes) (cursor : Z) (n : nat) (i value : Z) : option Z :=
  match n with
  | O => Some value
  | S n =>
      match ld d (cursor + i) with
      | None => None
      | Some b => read_le_loop d cursor n (i + 1) (Z.lor value (Z.shiftl b (8 * i)))
      end
  end.

Definition mysql_wire_read_le (data : ptr bytes) (size : Z) (offset : ptr Z)
    (width : Z) (out : ptr Z) : wire_result unit * ptr Z * ptr Z :=
  match data, offset, out with
  | Some d, Some cursor, Some _ =>
      if (width =? 0) || (8 <? width) then (Err INVALID, offset, out)
      else if (size <? cursor) || (size_sub size cursor <? width)
      then (Err NEED_MORE, offset, out)
      else
        match read_le_loop d cursor (Z.to_nat width) 0 0 with
        | None => (Fault, offset, out)
        | Some value => (Ret tt, Some (cursor + width), Some value)
        end
  | _, _, _ => (Err INVALID, offset, out)
  end.

(** [for (i = 0u; i < width; ++i) data[cursor + i] = (uint8_t)(value >> (8u * i));] *)
Fixpoint write_le_loop (d : bytes) (cursor : Z) (n : nat) (i value : Z) : option bytes :=
  match n with
  | O => Some d
  | S n =>
      match st d (cursor + i) (u8 (Z.shiftr value (8 * i))) with
      | None => None
      | Some d' => write_le_loop d' cursor n (i + 1) value
      end
  end.

Definition mysql_wire_write_le (data : ptr bytes) (size : Z) (offset : ptr Z)
    (width value : Z) : wire_result unit * ptr bytes * ptr Z :=
  match data, offset with
  | Some d, Some cursor =>
      if (width =? 0) || (8 <? width) then (Err INVALID, data, offset)
      else if (size <? cursor) || (size_sub size cursor <? width)
      then (Err LIMIT, data, offset)
      else
        match write_le_loop d cursor (Z.to_nat width) 0 value with
        | None => (Fault, data, offset)
        | Some d' => (Ret tt, Some d', Some (cursor + width))
        end
  | _, _ => (Err INVALID, data, offset)
  end.

(** The common body of the three narrow readers: the 64-bit value read is
    converted to the type of [*out], which is left alone on an error. *)
Definition read_narrow (conv : Z -> Z) (width : Z) (data : ptr bytes) (size : Z)
    (offset out : ptr Z) : wire_result unit * ptr Z * ptr Z :=
  match out with
  | None => (Err INVALID, offset, out)
  | Some _ =>
      match mysql_wire_read_le data size offset width (Some 0) with
      | (Ret _, offset', Some value) => (Ret tt, offset', Some (conv value))
      | (r, offset', _) => (r, offset', out)
      end
  end.

Definition mysql_wire_read_u16_le := read_narrow u16 2.
Definition mysql_wire_read_u24_le := read_narrow u32 3.
Definition mysql_wire_read_u32_le := read_narrow u32 4.
Definition mysql_wire_read_u64_le (data : ptr bytes) (size : Z) (offset out : ptr Z) :=
  mysql_wire_read_le data size offset 8 out.

Definition mysql_wire_write_u16_le (data : ptr bytes) (size : Z) (offset : ptr Z) (value : Z) :=
  mysql_wire_write_le data size offset 2 value.
Definition mysql_wire_write_u24_le (data : ptr bytes) (size : Z) (offset : ptr Z) (value : Z)
    : wire_result unit * ptr bytes * ptr Z :=
  if 0x00ffffff <? value then (Err LIMIT, data, offset)
  else mysql_wire_write_le data size offset 3 value.
Definition mysql_wire_write_u32_le (data : ptr bytes) (size : Z) (offset : ptr Z) (value : Z) :=
  mysql_wire_write_le data size offset 4 value.
Definition mysql_wire_write_u64_le (data : ptr bytes) (size : Z) (offset : ptr Z) (value : Z) :=
  mysql_wire_write_le data size offset 8 value.

(** ** Length-encoded integers and byte strings *)

Definition mysql_wire_read_lenenc_uint (data : ptr bytes) (size : Z) (offset value : ptr Z)
    (is_null : ptr bool) : wire_result unit * ptr Z * ptr Z * ptr bool :=
  match data, offset, value, is_null with
  | Some d, Some cursor, Some _, Some _ =>
      if size <=? cursor then (Err NEED_MORE, offset, value, is_null)
      else
        match ld d cursor with
        | None => (Fault, offset, value, is_null)
        | Some first =>
            let cursor := Some (cursor + 1) in
            let wide r :=
              match r with
              | (Ret _, cursor', decoded) => (Ret tt, cursor', decoded, Some false)
              | (e, _, _) => (e, offset, value, is_null)
              end in
            if first <=? 0xfa then (Ret tt, cursor, Some first, Some false)
            else if first =? 0xfb then (Ret tt, cursor, Some 0, Some true)
            else if first =? 0xfc then wide (mysql_wire_read_u16_le data size cursor (Some 0))
            else if first =? 0xfd then wide (mysql_wire_read_u24_le data size cursor (Some 0))
            else if first =? 0xfe then wide (mysql_wire_read_u64_le data size cursor (Some 0))
            else (Err INVALID, offset, value, is_null)
        end
  | _, _, _, _ => (Err INVALID, offset, value, is_null)
  end.

Definition mysql_wire_read_lenenc_bytes (data : ptr bytes) (size : Z) (offset : ptr Z)
    (out : ptr mysql_wire_bytes_t) : wire_result unit * ptr Z * ptr mysql_wire_bytes_t :=
  match data, offset, out with
  | Some d, Some _, Some _ =>
      match mysql_wire_read_lenenc_uint data size offset (Some 0) (Some false) with
      | (Ret _, Some cursor, Some length, Some is_null) =>
          if is_null then (Ret tt, Some cursor, Some wire_bytes_null)
          else if (size <? cursor) || (size_sub size cursor <? length)
          then (Err NEED_MORE, offset, Some wire_bytes_zero)
          else
            match ldn d cursor length with
            | None => (Fault, offset, Some wire_bytes_zero)
            | Some view =>
                (Ret tt, Some (cursor + length), Some (mk_wire_bytes (Some view) length false))
            end
      | (Err e, _, _, _) => (Err e, offset, Some wire_bytes_zero)
      | (_, _, _, _) => (Fault, offset, Some wire_bytes_zero)
      end
  | _, _, _ => (Err INVALID, offset, out)
  end.

Definition mysql_wire_write_lenenc_uint (data : ptr bytes) (size : Z) (offset : ptr Z)
    (value : Z) : wire_result unit * ptr bytes * ptr Z :=
  match data, offset with
  | Some d, Some cursor =>
      let store_first b :=
        if size <=? cursor then (Err LIMIT, data)
        else match st d cursor b with
             | None => (Fault, data)
             | Some d' => (Ret (cursor + 1), Some d')
             end in
      let prefixed b write :=
        match store_first b with
        | (Ret cursor', data') =>
            match write data' size (Some cursor') with
            | (Ret _, data'', cursor'') => (Ret tt, data'', cursor'')
            | (Err _, data'', _) => (Err LIMIT, data'', offset)
            | (Fault, data'', _) => (Fault, data'', offset)
            end
        | (Err e, data') => (Err e, data', offset)
        | (Fault, data') => (Fault, data', offset)
        end in
      if value <=? 250 then
        match store_first (u8 value) with
        | (Ret cursor', data') => (Ret tt, data', Some cursor')
        | (Err e, data') => (Err e, data', offset)
        | (Fault, data') => (Fault, data', offset)
        end
      else if value <? Z.shiftl 1 16 then
        prefixed 0xfc (fun d s o => mysql_wire_write_u16_le d s o (u16 value))
      else if value <? Z.shiftl 1 24 then
        prefixed 0xfd (fun d s o => mysql_wire_write_u24_le d s o (u32 value))
      else prefixed 0xfe (fun d s o => mysql_wire_write_u64_le d s o value)
  | _, _ => (Err INVALID, data, offset)
  end.

Definition mysql_wire_write_lenenc_null (data : ptr bytes) (size : Z) (offset : ptr Z)
    : wire_result unit * ptr bytes * ptr Z :=
  match data, offset with
  | Some d, Some cursor =>
      if size <=? cursor then (Err LIMIT, data, offset)
      else match st d cursor 0xfb with
           | None => (Fault, data, offset)
           | Some d' => (Ret tt, Some d', Some (cursor + 1))
           end
  | _, _ => (Err INVALID, data, offset)
  end.

(** ** Decoders

    The state of a decoder: the local [offset] and the output structure that is
    being filled. The payload and its size are arguments. *)

Record dec (T : Type) : Type := Dec { d_off : Z; d_out : T }.
Arguments Dec {T} _ _.
Arguments d_off {T} _.
Arguments d_out {T} _.

Abbreviation D T A := (M mysql_wire_status_t (dec T) A) (only parsing).

Definition offset {E T} : M E (dec T) Z := gets d_off.
(** [offset += n] *)
Definition skip {E T} (n : Z) : M E (dec T) unit :=
  modify (fun s => Dec (d_off s + n) (d_out s)).
(** An assignment to the members of the output structure. *)
Definition out_set {E T} (f : T -> T) : M E (dec T) unit :=
  modify (fun s => Dec (d_off s) (f (d_out s))).
(** [p[offset++]] *)
Definition next_byte {E T} (p : bytes) : M E (dec T) Z :=
  off ← offset; b ← access (ld p off); skip 1;; mret b.

Section Readers.
Context {T : Type} (p : bytes) (size : Z).

(** Call of a reader on [&offset] and the address of a local. *)
Definition call_reader (f : ptr Z -> ptr Z -> wire_result unit * ptr Z * ptr Z) : D T Z := fun s =>
  match f (Some (d_off s)) (Some 0) with
  | (Ret _, Some off, Some v) => (Ret v, Dec off (d_out s))
  | (Err e, Some off, _) => (Err e, Dec off (d_out s))
  | _ => (Fault, s)
  end.

Definition rd_u16 : D T Z := call_reader (mysql_wire_read_u16_le (Some p) size).
Definition rd_u24 : D T Z := call_reader (mysql_wire_read_u24_le (Some p) size).
Definition rd_u32 : D T Z := call_reader (mysql_wire_read_u32_le (Some p) size).
Definition rd_u64 : D T Z := call_reader (mysql_wire_read_u64_le (Some p) size).

(** [mysql_wire_read_lenenc_uint] on locals: the value and the NULL marker. *)
Definition rd_lenenc_uint : D T (Z * bool) := fun s =>
  match mysql_wire_read_lenenc_uint (Some p) size (Some (d_off s)) (Some 0) (Some false) with
  | (Ret _, Some off, Some v, Some n) => (Ret (v, n), Dec off (d_out s))
  | (Err e, Some off, _, _) => (Err e, Dec off (d_out s))
  | _ => (Fault, s)
  end.

Definition rd_lenenc_bytes : D T mysql_wire_bytes_t := fun s =>
  match mysql_wire_read_lenenc_bytes (Some p) size (Some (d_off s)) (Some wire_bytes_zero) with
  | (Ret _, Some off, Some v) => (Ret v, Dec off (d_out s))
  | (Err e, Some off, _) => (Err e, Dec off (d_out s))
  | _ => (Fault, s)
  end.
End Readers.

(** Run a decoder from [off] on the output structure [o]. *)
Definition run_dec {E T} (off : Z) (o : T) (m : M E (dec T) unit) : outcome E unit * ptr T :=
  let '(r, s) := m (Dec off o) in (r, Some (d_out s)).

(** ** Builders

    The state of a builder: the output buffer and the local [offset]. *)

Record enc : Type := Enc { e_buf : bytes; e_off : Z }.

Abbreviation B A := (M mysql_wire_status_t enc A) (only parsing).

Section Writers.
Context (capacity : Z).

(** Call of a writer on the output buffer and [&offset]. *)
Definition call_writer (f : ptr bytes -> ptr Z -> wire_result unit * ptr bytes * ptr Z) : B unit := fun s =>
  match f (Some (e_buf s)) (Some (e_off s)) with
  | (Ret _, Some buf, Some off) => (Ret tt, Enc buf off)
  | (Err e, Some buf, Some off) => (Err e, Enc buf off)
  | _ => (Fault, s)
  end.

Definition wr_u16 (v : Z) : B unit := call_writer (fun d o => mysql_wire_write_u16_le d capacity o v).
Definition wr_u24 (v : Z) : B unit := call_writer (fun d o => mysql_wire_write_u24_le d capacity o v).
Definition wr_u32 (v : Z) : B unit := call_writer (fun d o => mysql_wire_write_u32_le d capacity o v).
Definition wr_u64 (v : Z) : B unit := call_writer (fun d o => mysql_wire_write_u64_le d capacity o v).
Definition wr_lenenc_uint (v : Z) : B unit :=
  call_writer (fun d o => mysql_wire_write_lenenc_uint d capacity o v).

(** [if (offset >= capacity) return LIMIT; out[offset++] = b;] *)
Definition wr_byte (b : Z) : B unit :=
  off ← gets e_off; fail_if (capacity <=? off) LIMIT;;
  buf ← gets e_buf; buf' ← access (st buf off b); modify (fun _ => Enc buf' (off + 1)).

(** [if (offset > capacity || capacity - offset < size) return LIMIT;
     memcpy(out + offset, data, size); offset += size;] *)
Definition wr_bytes (l : bytes) : B unit :=
  off ← gets e_off;
  fail_if ((capacity <? off) || (size_sub capacity off <? len l)) LIMIT;;
  buf ← gets e_buf; buf' ← access (stn buf off l); modify (fun _ => Enc buf' (off + len l)).

(** mysql_wire_write_bytes (handshake.c) and mysql_stmt_emit (statement.c) have
    the same body: [size] bytes of [data] are appended. *)
Definition append_checked (out : ptr bytes) (offset : ptr Z) (data : ptr bytes) (size : Z)
    : wire_result unit * ptr bytes * ptr Z :=
  match out, offset with
  | Some buf, Some off =>
      if match data with None => negb (size =? 0) | Some _ => false end
      then (Err INVALID, out, offset)
      else if (capacity <? off) || (size_sub capacity off <? size) then (Err LIMIT, out, offset)
      else if size =? 0 then (Ret tt, out, offset)
      else
        match ldn (default [] data) 0 size with
        | Some l =>
            match stn buf off l with
            | Some buf' => (Ret tt, Some buf', Some (off + size))
            | None => (Fault, out, offset)
            end
        | None => (Fault, out, offset)
        end
  | _, _ => (Err INVALID, out, offset)
  end.
End Writers.

(** Stores without a capacity check: [data[offset++] = b] and
    [memcpy(data + offset, l, n); offset += n;]. *)
Definition put_byte {E} (b : Z) : M E enc unit :=
  off ← gets e_off; buf ← gets e_buf; buf' ← access (st buf off b);
  modify (fun _ => Enc buf' (off + 1)).
Definition put_bytes {E} (l : bytes) : M E enc unit :=
  off ← gets e_off; buf ← gets e_buf; buf' ← access (stn buf off l);
  modify (fun _ => Enc buf' (off + len l)).

(** ** What the readers compute *)

(** A readable buffer: [size] bytes are there and hold byte values. *)
Record buf_ok (p : bytes) (size : Z) : Prop := {
  buf_size : 0 <= size <= len p;
  buf_max : len p < 2 ^ 63;
  buf_bytes : bytes_ok p
}.

(** The little-endian integer in the [n] bytes at [off]. *)
Definition le_at (p : bytes) (off : Z) (n : nat) : Z :=
  le_val (take n (drop (Z.to_nat off) p)).

Lemma le_at_range p off n :
  bytes_ok p -> 0 <= le_at p off n < 2 ^ (8 * Z.of_nat n).
Proof.
  intros Hp. unfold le_at.
  assert (bytes_ok (take n (drop (Z.to_nat off) p))) as Hb.
  { by apply Forall_take, Forall_drop. }
  apply le_val_range in Hb. split; [lia|].
  eapply Z.lt_le_trans; [apply Hb|]. apply Z.pow_le_mono_r; [lia|].
  rewrite length_take. lia.
Qed.

Lemma take_drop_ld (p : bytes) off n b :
  ld p off = Some b ->
  take (S n) (drop (Z.to_nat off) p) = b :: take n (drop (Z.to_nat (off + 1)) p).
Proof.
  intros Hb. pose proof (ld_Some _ _ _ Hb). unfold ld in Hb. case_match; [done|].
  rewrite (drop_S _ _ _ Hb). cbn. do 3 f_equal. lia.
Qed.

Lemma read_le_loop_spec p off n i acc :
  bytes_ok p -> 0 <= off -> 0 <= i -> 0 <= acc < 2 ^ (8 * i) ->
  off + i + Z.of_nat n <= len p ->
  read_le_loop p off n i acc = Some (acc + 2 ^ (8 * i) * le_at p (off + i) n).
Proof.
  intros Hp Hoff. revert i acc. induction n as [|n IH]; intros i acc Hi Hacc Hl; cbn [read_le_loop].
  { f_equal. unfold le_at. rewrite take_0. cbn [le_val]. ring. }
  destruct (ld_is_Some p (off + i)) as [b Hb]; [lia|]. rewrite Hb.
  pose proof (ld_byte _ _ _ Hp Hb). rewrite lor_shiftl_add by lia.
  assert (2 ^ (8 * (i + 1)) = 2 ^ (8 * i) * 256) as Hpow.
  { replace (8 * (i + 1)) with (8 * i + 8) by lia. rewrite Z.pow_add_r by lia. lia. }
  rewrite IH; [|lia| |lia].
  - f_equal. unfold le_at. rewrite (take_drop_ld _ _ _ _ Hb). cbn [le_val].
    rewrite Hpow. replace (off + (i + 1)) with (off + i + 1) by lia. ring.
  - rewrite Hpow. nia.
Qed.

Lemma read_le_eq p size off w out :
  buf_ok p size -> 0 <= off -> 1 <= w <= 8 ->
  mysql_wire_read_le (Some p) size (Some off) w (Some out) =
    if size <? off + w then (Err NEED_MORE, Some off, Some out)
    else (Ret tt, Some (off + w), Some (le_at p off (Z.to_nat w))).
Proof.
  intros [Hs Hm Hp] Hoff Hw. unfold mysql_wire_read_le.
  destruct ((w =? 0) || (8 <? w)) eqn:E1; [blia|].
  destruct (Z.ltb_spec size off); cbn [orb].
  { destruct (Z.ltb_spec size (off + w)); [done|lia]. }
  rewrite size_sub_small by lia.
  destruct (Z.ltb_spec (size - off) w), (Z.ltb_spec size (off + w)); [done|lia..|].
  rewrite (read_le_loop_spec p off (Z.to_nat w) 0 0) by (cbn; auto; lia).
  repeat f_equal. rewrite Z.mul_0_r, Z.pow_0_r, Z.add_0_r. lia.
Qed.

(** The three narrow readers lose nothing in the conversion. *)
Lemma read_narrow_eq conv bits p size off w out :
  (forall z, conv z = z mod 2 ^ bits) -> 8 * w <= bits ->
  buf_ok p size -> 0 <= off -> 1 <= w <= 8 ->
  read_narrow conv w (Some p) size (Some off) (Some out) =
    if size <? off + w then (Err NEED_MORE, Some off, Some out)
    else (Ret tt, Some (off + w), Some (le_at p off (Z.to_nat w))).
Proof.
  intros Hc Hb Hp Hoff Hw. unfold read_narrow. rewrite read_le_eq by done.
  destruct (size <? off + w); [done|]. repeat f_equal. rewrite Hc. apply Z.mod_small.
  destruct Hp as [_ _ Hp]. pose proof (le_at_range p off (Z.to_nat w) Hp) as Hr.
  split; [lia|]. eapply Z.lt_le_trans; [apply Hr|]. apply Z.pow_le_mono_r; lia.
Qed.

Section ReaderEquations.
Context {T : Type} (p : bytes) (size : Z) (Hp : buf_ok p size).

Lemma rd_fixed_eq (w : Z) f (s : dec T) :
  (forall off out, 0 <= off -> f (Some off) (Some out) =
    if size <? off + w then (Err NEED_MORE, Some off, Some out)
    else (Ret tt, Some (off + w), Some (le_at p off (Z.to_nat w)))) ->
  0 <= d_off s ->
  call_reader f s =
    if size <? d_off s + w then (Err NEED_MORE, s)
    else (Ret (le_at p (d_off s) (Z.to_nat w)), Dec (d_off s + w) (d_out s)).
Proof.
  intros Hf Hs. unfold call_reader. rewrite Hf by done. destruct (_ <? _); [|done].
  by destruct s.
Qed.

Lemma rd_u16_eq (s : dec T) : 0 <= d_off s ->
  rd_u16 p size s =
    if size <? d_off s + 2 then (Err NEED_MORE, s)
    else (Ret (le_at p (d_off s) 2), Dec (d_off s + 2) (d_out s)).
Proof.
  apply (rd_fixed_eq 2). intros. by apply (read_narrow_eq u16 16).
Qed.

Lemma rd_u24_eq (s : dec T) : 0 <= d_off s ->
  rd_u24 p size s =
    if size <? d_off s + 3 then (Err NEED_MORE, s)
    else (Ret (le_at p (d_off s) 3), Dec (d_off s + 3) (d_out s)).
Proof.
  apply (rd_fixed_eq 3). intros. by apply (read_narrow_eq u32 32).
Qed.

Lemma rd_u32_eq (s : dec T) : 0 <= d_off s ->
  rd_u32 p size s =
    if size <? d_off s + 4 then (Err NEED_MORE, s)
    else (Ret (le_at p (d_off s) 4), Dec (d_off s + 4) (d_out s)).
Proof.
  apply (rd_fixed_eq 4). intros. by apply (read_narrow_eq u32 32).
Qed.

Lemma rd_u64_eq (s : dec T) : 0 <= d_off s ->
  rd_u64 p size s =
    if size <? d_off s + 8 then (Err NEED_MORE, s)
    else (Ret (le_at p (d_off s) 8), Dec (d_off s + 8) (d_out s)).
Proof.
  apply (rd_fixed_eq 8). intros. by apply read_le_eq.
Qed.

End ReaderEquations.

(** ** Length-encoded values: the reference encoding *)

Definition lenenc_enc (v : Z) : bytes :=
  if v <=? 250 then [v]
  else if v <? 2 ^ 16 then 0xfc :: le_bytes 2 v
  else if v <? 2 ^ 24 then 0xfd :: le_bytes 3 v
  else 0xfe :: le_bytes 8 v.

Definition lenenc_bytes_enc (l : bytes) : bytes := lenenc_enc (len l) ++ l.

(** What a length-encoded string read from a buffer looks like. *)
Definition view_ok (v : mysql_wire_bytes_t) : Prop :=
  v = wire_bytes_null \/ exists l, v = wire_bytes_of l /\ bytes_ok l.

Lemma lenenc_enc_ok v : 0 <= v -> bytes_ok (lenenc_enc v).
Proof.
  intros. unfold lenenc_enc.
  case_all; (apply Forall_cons_2; [lia|]); [apply Forall_nil_2|apply le_bytes_ok..].
Qed.

Lemma lenenc_enc_length v : 1 <= len (lenenc_enc v) <= 9.
Proof. unfold lenenc_enc. case_all; cbn [length]; rewrite ?length_le_bytes; lia. Qed.

Section LenencReads.
Context {T : Type} (p : bytes) (size : Z) (Hp : buf_ok p size).
Implicit Types (o : T) (off : Z).

Lemma rd_lenenc_uint_eq (s : dec T) : 0 <= d_off s ->
  rd_lenenc_uint p size s =
    if size <=? d_off s then (Err NEED_MORE, s) else
    match ld p (d_off s) with
    | None => (Fault, s)
    | Some b =>
        let wide w :=
          if size <? d_off s + 1 + w then (Err NEED_MORE, s)
          else (Ret (le_at p (d_off s + 1) (Z.to_nat w), false), Dec (d_off s + 1 + w) (d_out s)) in
        if b <=? 0xfa then (Ret (b, false), Dec (d_off s + 1) (d_out s))
        else if b =? 0xfb then (Ret (0, true), Dec (d_off s + 1) (d_out s))
        else if b =? 0xfc then wide 2
        else if b =? 0xfd then wide 3
        else if b =? 0xfe then wide 8
        else (Err INVALID, s)
    end.
Proof.
  intros Hs. unfold rd_lenenc_uint, mysql_wire_read_lenenc_uint.
  destruct s as [off o]; cbn [d_off d_out] in *.
  destruct (size <=? off); [done|]. destruct (ld p off) as [b|]; [|done].
  unfold mysql_wire_read_u16_le, mysql_wire_read_u24_le, mysql_wire_read_u64_le.
  rewrite (read_narrow_eq u16 16), (read_narrow_eq u32 32), read_le_eq by (done || lia).
  cbn zeta.
  destruct (b <=? 0xfa); [done|]. destruct (b =? 0xfb); [done|].
  destruct (b =? 0xfc); [by destruct (size <? off + 1 + 2)|].
  destruct (b =? 0xfd); [by destruct (size <? off + 1 + 3)|].
  destruct (b =? 0xfe); [by destruct (size <? off + 1 + 8)|]. done.
Qed.

(** A failed read of a length-encoded integer leaves the cursor where it was. *)
Lemma wp_rd_lenenc_uint (Q : Z * bool -> dec T -> Prop) (R : mysql_wire_status_t -> dec T -> Prop) off o :
  0 <= off ->
  (forall v n off', off < off' <= size -> 0 <= v < 2 ^ 64 -> Q (v, n) (Dec off' o)) ->
  (forall e, e = NEED_MORE \/ e = INVALID -> R e (Dec off o)) ->
  wp (rd_lenenc_uint p size) Q R (Dec off o).
Proof.
  intros Hoff HQ HR. unfold wp. rewrite rd_lenenc_uint_eq by done. cbn [d_off d_out].
  destruct Hp as [Hs Hm Hb].
  destruct (Z.leb_spec size off); [by apply HR; left|].
  destruct (ld_is_Some p off) as [b Eb]; [lia|]. rewrite Eb.
  pose proof (ld_byte _ _ _ Hb Eb).
  assert (forall w, 0 <= w <= 8 -> 0 <= le_at p (off + 1) (Z.to_nat w) < 2 ^ 64) as Hr.
  { intros w Hw. pose proof (le_at_range p (off + 1) (Z.to_nat w) Hb) as Hr.
    split; [lia|]. eapply Z.lt_le_trans; [apply Hr|]. apply Z.pow_le_mono_r; lia. }
  cbn zeta. repeat case_match; simplify_eq; bsimp;
    try (apply HR; auto; fail); apply HQ; try lia; apply Hr; lia.
Qed.

Lemma rd_lenenc_bytes_eq (s : dec T) : 0 <= d_off s ->
  rd_lenenc_bytes p size s =
    match rd_lenenc_uint p size s with
    | (Ret (n, null), s') =>
        if null then (Ret wire_bytes_null, s')
        else if size <? d_off s' + n then (Err NEED_MORE, s)
        else match ldn p (d_off s') n with
             | None => (Fault, s)
             | Some view => (Ret (wire_bytes_of view), Dec (d_off s' + n) (d_out s))
             end
    | (Err e, _) => (Err e, s)
    | (Fault, _) => (Fault, s)
    end.
Proof.
  intros Hs. pose proof (wp_rd_lenenc_uint
    (fun vn s' => 0 <= d_off s' <= size /\ 0 <= vn.1) (fun _ s' => s' = s) (d_off s) (d_out s)) as Hwp.
  destruct s as [off o]; cbn [d_off d_out] in *.
  unfold wp in Hwp. revert Hwp. unfold rd_lenenc_bytes, mysql_wire_read_lenenc_bytes, rd_lenenc_uint.
  cbn [d_off d_out].
  destruct (mysql_wire_read_lenenc_uint _ _ _ _ _) as [[[r off'] v] n].
  intros Hwp. specialize (Hwp Hs ltac:(cbn; lia) ltac:(done)).
  destruct r as [[]|e|], off' as [off'|], v as [v|], n as [n|]; cbn in Hwp |- *; try done.
  destruct n; [done|]. destruct Hp as [Hsz Hm Hb], Hwp as [Ho Hv]. cbn in Ho, Hv.
  destruct (Z.ltb_spec size off'); [lia|]. cbn [orb]. rewrite size_sub_small by lia.
  destruct (Z.ltb_spec (size - off') v), (Z.ltb_spec size (off' + v)); [done|lia..|].
  destruct (ldn p off' v) as [view|] eqn:Ev; [|done].
  apply ldn_length in Ev. by rewrite <- Ev.
Qed.

Lemma wp_rd_lenenc_bytes (Q : mysql_wire_bytes_t -> dec T -> Prop)
    (R : mysql_wire_status_t -> dec T -> Prop) off o :
  0 <= off ->
  (forall v off', off < off' <= size -> view_ok v -> Q v (Dec off' o)) ->
  (forall e, e = NEED_MORE \/ e = INVALID -> R e (Dec off o)) ->
  wp (rd_lenenc_bytes p size) Q R (Dec off o).
Proof.
  intros Hoff HQ HR. unfold wp. rewrite rd_lenenc_bytes_eq by done.
  apply (wp_rd_lenenc_uint (fun vn s' => match
    (let '(n, null) := vn in if (null : bool) then (Ret wire_bytes_null, s')
        else if size <? d_off s' + n then (Err NEED_MORE, Dec off o)
        else match ldn p (d_off s') n with
             | None => (Fault, Dec off o)
             | Some view => (Ret (wire_bytes_of view), Dec (d_off s' + n) o)
             end) with (Ret a, s') => Q a s' | (Err e, s') => R e s' | (Fault, _) => False end)
    (fun e s' => R e (Dec off o)) off o Hoff) in HR as Hwp.
  - unfold wp in Hwp. destruct (rd_lenenc_uint p size (Dec off o)) as [[[n null]|e|] s']; done.
  - intros v n off' Ho Hv. cbn [d_off]. destruct n.
    { apply HQ; [done|by left]. }
    destruct (Z.ltb_spec size (off' + v)); [by apply HR; left|].
    destruct Hp as [Hs Hm Hb]. rewrite ldn_Some by lia. apply HQ; [lia|].
    right. eexists. split; [done|]. by apply Forall_take, Forall_drop.
Qed.

Lemma wp_rd_u16 (Q : Z -> dec T -> Prop) (R : mysql_wire_status_t -> dec T -> Prop) off o :
  0 <= off ->
  (off + 2 <= size -> Q (le_at p off 2) (Dec (off + 2) o)) ->
  (size < off + 2 -> R NEED_MORE (Dec off o)) ->
  wp (rd_u16 p size) Q R (Dec off o).
Proof.
  intros Ho HQ HR. unfold wp. rewrite rd_u16_eq by done. cbn [d_off d_out].
  destruct (Z.ltb_spec size (off + 2)); auto.
Qed.

Lemma wp_rd_u32 (Q : Z -> dec T -> Prop) (R : mysql_wire_status_t -> dec T -> Prop) off o :
  0 <= off ->
  (off + 4 <= size -> Q (le_at p off 4) (Dec (off + 4) o)) ->
  (size < off + 4 -> R NEED_MORE (Dec off o)) ->
  wp (rd_u32 p size) Q R (Dec off o).
Proof.
  intros Ho HQ HR. unfold wp. rewrite rd_u32_eq by done. cbn [d_off d_out].
  destruct (Z.ltb_spec size (off + 4)); auto.
Qed.

Lemma wp_rd_u64 (Q : Z -> dec T -> Prop) (R : mysql_wire_status_t -> dec T -> Prop) off o :
  0 <= off ->
  (off + 8 <= size -> Q (le_at p off 8) (Dec (off + 8) o)) ->
  (size < off + 8 -> R NEED_MORE (Dec off o)) ->
  wp (rd_u64 p size) Q R (Dec off o).
Proof.
  intros Ho HQ HR. unfold wp. rewrite rd_u64_eq by done. cbn [d_off d_out].
  destruct (Z.ltb_spec size (off + 8)); auto.
Qed.

End LenencReads.

Section WpDecoders.
Context {E T : Type} (p : bytes) (size : Z) (Hp : buf_ok p size).

Lemma wp_offset (Q : Z -> dec T -> Prop) (R : E -> dec T -> Prop) off o :
  Q off (Dec off o) -> wp offset Q R (Dec off o).
Proof. done. Qed.

Lemma wp_skip n (Q : unit -> dec T -> Prop) (R : E -> dec T -> Prop) off o :
  Q tt (Dec (off + n) o) -> wp (skip n) Q R (Dec off o).
Proof. done. Qed.

Lemma wp_out_set f (Q : unit -> dec T -> Prop) (R : E -> dec T -> Prop) off o :
  Q tt (Dec off (f o)) -> wp (out_set f) Q R (Dec off o).
Proof. done. Qed.

Lemma wp_next_byte (Q : Z -> dec T -> Prop) (R : E -> dec T -> Prop) off o :
  0 <= off < size -> (forall b, 0 <= b < 256 -> Q b (Dec (off + 1) o)) ->
  wp (next_byte p) Q R (Dec off o).
Proof.
  intros Hoff HQ. destruct Hp as [Hs _ Hb]. destruct (ld_is_Some p off) as [b Eb]; [lia|].
  unfold wp, next_byte, offset, gets, access, skip, modify, mbind, M_bind. cbn. rewrite Eb.
  apply HQ. by eapply ld_byte.
Qed.

Lemma wp_access_ldn n (Q : bytes -> dec T -> Prop) (R : E -> dec T -> Prop) off s :
  0 <= off -> 0 <= n -> off + n <= size ->
  (forall l, len l = n -> bytes_ok l -> Q l s) -> wp (access (ldn p off n)) Q R s.
Proof.
  intros Hoff Hn Hl HQ. destruct Hp as [Hs _ Hb]. apply wp_access.
  - rewrite ldn_Some by lia. eauto.
  - intros l El. apply HQ; [by eapply ldn_length|by eapply ldn_bytes].
Qed.
End WpDecoders.

(** Symbolic execution of a decoder: one straight-line command; a
    choice ([if], [when]) is left to the proof. *)
Ltac dec_step :=
  match goal with
  | |- wp offset _ _ (Dec _ _) => apply wp_offset
  | |- wp (skip _) _ _ (Dec _ _) => apply wp_skip
  | |- wp (out_set _) _ _ (Dec _ _) => apply wp_out_set
  | |- wp (gets d_out) _ _ (Dec _ _) => apply wp_gets; cbn [d_out]
  | |- wp (rd_u16 _ _) _ _ (Dec _ _) => apply wp_rd_u16; [done|lia|intros|intros]
  | |- wp (rd_u32 _ _) _ _ (Dec _ _) => apply wp_rd_u32; [done|lia|intros|intros]
  | |- wp (rd_u64 _ _) _ _ (Dec _ _) => apply wp_rd_u64; [done|lia|intros|intros]
  | |- wp (when _ _) _ _ _ => fail 1
  | |- wp (if _ then _ else _) _ _ _ => fail 1
  | _ => wp_step
  end.

(** ** Decoders against encodings

    [parses p m o l a o' l']: whenever the cursor stands before the bytes [l] of
    the payload [p], the decoder [m] returns [a], turns the output structure
    [o] into [o'] and leaves the cursor before [l']. *)

Definition parses {E T A} (p : bytes) (m : M E (dec T) A) (o : T) (l : bytes)
    (a : A) (o' : T) (l' : bytes) : Prop :=
  forall off, suffix_at p off l ->
  exists off', m (Dec off o) = (Ret a, Dec off' o') /\ suffix_at p off' l'.

Create HintDb parse discriminated.

Section Parses.
Context {E T : Type} (p : bytes).
Implicit Types (o : T) (l : bytes).

Lemma parses_bind {A C} (m : M E (dec T) A) (k : A -> M E (dec T) C) o l a o1 l1 c o2 l2 :
  parses p m o l a o1 l1 -> parses p (k a) o1 l1 c o2 l2 ->
  parses p (m ≫= k) o l c o2 l2.
Proof.
  intros H1 H2 off Hs. destruct (H1 off Hs) as (off1 & E1 & Hs1).
  destruct (H2 off1 Hs1) as (off2 & E2 & Hs2). exists off2. split; [|done].
  unfold mbind, M_bind. by rewrite E1.
Qed.

(** What is left to parse is no longer than the payload. *)
Lemma parses_len {A} (m : M E (dec T) A) o l a o' l' :
  (len l <= len p -> parses p m o l a o' l') -> parses p m o l a o' l'.
Proof.
  intros H off Hs. apply H; [|done]. apply suffix_at_len in Hs as Hl. destruct Hs as (? & _ & _). lia.
Qed.

Lemma parses_ret {A} (a : A) o l : parses p (mret a : M E (dec T) A) o l a o l.
Proof. intros off Hs. by exists off. Qed.

Lemma parses_fail_if c (e : E) o l : c = false -> parses p (fail_if c e) o l tt o l.
Proof. intros -> off Hs. by exists off. Qed.

Lemma parses_offset o l : parses p (offset : M E (dec T) Z) o l (len p - len l) o l.
Proof.
  intros off Hs. exists off. split; [|done]. pose proof (suffix_at_len _ _ _ Hs).
  unfold offset, gets. cbn. by replace (len p - len l) with off by lia.
Qed.

Lemma parses_out_set (f : T -> T) o l : parses p (out_set f : M E (dec T) unit) o l tt (f o) l.
Proof. intros off Hs. by exists off. Qed.

Lemma parses_skip n o a l : len a = n -> parses p (skip n : M E (dec T) unit) o (a ++ l) tt o l.
Proof.
  intros <- off Hs. exists (off + len a). split; [done|]. by apply suffix_at_app.
Qed.

Lemma parses_access_ld o l b :
  parses p (access (ld p (len p - len (b :: l))) : M E (dec T) Z) o (b :: l) b o (b :: l).
Proof.
  intros off Hs. exists off. split; [|done]. pose proof (suffix_at_len _ _ _ Hs).
  replace (len p - len (b :: l)) with off by lia. unfold access.
  by rewrite (suffix_at_ld _ _ _ _ Hs).
Qed.

(** A byte further on is looked at. *)
Lemma parses_access_ld_at o a b l i :
  i = len p - len (a ++ b :: l) + len a ->
  parses p (access (ld p i) : M E (dec T) Z) o (a ++ b :: l) b o (a ++ b :: l).
Proof.
  intros -> off Hs. exists off. split; [|done]. pose proof (suffix_at_len _ _ _ Hs) as Hl.
  replace (len p - len (a ++ b :: l)) with off by lia. unfold access.
  by rewrite (suffix_at_ld _ _ _ _ (suffix_at_app _ _ _ _ Hs)).
Qed.

Lemma parses_gets {A} (f : T -> A) o l :
  parses p (gets (fun s => f (d_out s)) : M E (dec T) A) o l (f o) o l.
Proof. intros off Hs. by exists off. Qed.

Lemma parses_access {A} (x : option A) a o l :
  x = Some a -> parses p (access x : M E (dec T) A) o l a o l.
Proof. intros -> off Hs. by exists off. Qed.

Lemma parses_next_byte o b l : parses p (next_byte p : M E (dec T) Z) o (b :: l) b o l.
Proof.
  unfold next_byte. eapply parses_bind; [apply parses_offset|].
  eapply parses_bind; [apply parses_access_ld|].
  eapply parses_bind; [by apply (parses_skip 1 o [b] l)|]. apply parses_ret.
Qed.

Lemma parses_access_ldn o a l n :
  len a = n ->
  parses p (access (ldn p (len p - len (a ++ l)) n) : M E (dec T) bytes) o (a ++ l) a o (a ++ l).
Proof.
  intros <- off Hs. exists off. split; [|done]. pose proof (suffix_at_len _ _ _ Hs).
  replace (len p - len (a ++ l)) with off by lia. unfold access.
  by rewrite (suffix_at_ldn _ _ _ _ Hs).
Qed.

Lemma parses_map_err {E' A} (f : E -> E') (m : M E (dec T) A) o l a o' l' :
  parses p m o l a o' l' -> parses p (map_err f m) o l a o' l'.
Proof.
  intros H off Hs. destruct (H off Hs) as (off' & Em & Hs'). exists off'. split; [|done].
  unfold map_err. by rewrite Em.
Qed.

Lemma parses_when c (m : M E (dec T) unit) o l o' l' :
  (c = true -> parses p m o l tt o' l') -> (c = false -> o = o' /\ l = l') ->
  parses p (when c m) o l tt o' l'.
Proof.
  intros H1 H2. unfold when. destruct c; [by apply H1|].
  destruct (H2 eq_refl) as [-> ->]. apply parses_ret.
Qed.
End Parses.

Section ParsesReaders.
Context {T : Type} (p : bytes) (Hp : buf_ok p (len p)).
Implicit Types (o : T) (l : bytes).

Lemma suffix_le_at off a l : suffix_at p off (a ++ l) -> le_at p off (length a) = le_val a.
Proof.
  intros (_ & _ & Hs). unfold le_at. by rewrite Hs, take_app_length.
Qed.

Lemma parses_fixed n (rd : D T Z) :
  (forall s, 0 <= d_off s -> rd s =
    if len p <? d_off s + Z.of_nat n then (Err NEED_MORE, s)
    else (Ret (le_at p (d_off s) n), Dec (d_off s + Z.of_nat n) (d_out s))) ->
  forall o v l, 0 <= v < 2 ^ (8 * Z.of_nat n) -> parses p rd o (le_bytes n v ++ l) v o l.
Proof.
  intros Hrd o v l Hv off Hs. pose proof (suffix_at_len _ _ _ Hs) as Hl.
  rewrite length_app, length_le_bytes in Hl. exists (off + Z.of_nat n). split.
  - rewrite Hrd by (cbn [d_off]; by destruct Hs). cbn [d_off d_out].
    destruct (Z.ltb_spec (len p) (off + Z.of_nat n)); [lia|].
    replace (le_at p off n) with v; [done|].
    rewrite <- (length_le_bytes n v) at 1. rewrite (suffix_le_at _ _ _ Hs), le_val_bytes.
    by rewrite Z.mod_small.
  - rewrite <- (length_le_bytes n v) at 1. by apply suffix_at_app.
Qed.

Lemma parses_u16 o v l : 0 <= v < 2 ^ 16 -> parses p (rd_u16 p (len p)) o (le_bytes 2 v ++ l) v o l.
Proof. apply (parses_fixed 2). intros. by apply rd_u16_eq. Qed.

Lemma parses_u24 o v l : 0 <= v < 2 ^ 24 -> parses p (rd_u24 p (len p)) o (le_bytes 3 v ++ l) v o l.
Proof. apply (parses_fixed 3). intros. by apply rd_u24_eq. Qed.

Lemma parses_u32 o v l : 0 <= v < 2 ^ 32 -> parses p (rd_u32 p (len p)) o (le_bytes 4 v ++ l) v o l.
Proof. apply (parses_fixed 4). intros. by apply rd_u32_eq. Qed.

Lemma parses_u64 o v l : 0 <= v < 2 ^ 64 -> parses p (rd_u64 p (len p)) o (le_bytes 8 v ++ l) v o l.
Proof. apply (parses_fixed 8). intros. by apply rd_u64_eq. Qed.

Lemma parses_lenenc_uint o v l :
  0 <= v < 2 ^ 64 -> parses p (rd_lenenc_uint p (len p)) o (lenenc_enc v ++ l) (v, false) o l.
Proof.
  intros Hv off Hs. exists (off + len (lenenc_enc v)). split; [|by apply suffix_at_app].
  pose proof (suffix_at_len _ _ _ Hs) as Hl. rewrite length_app in Hl.
  pose proof (lenenc_enc_length v). destruct Hs as [Hoff Hs]. rewrite rd_lenenc_uint_eq by done.
  cbn [d_off d_out]. destruct (Z.leb_spec (len p) off); [lia|].
  assert (suffix_at p off (lenenc_enc v ++ l)) as Hsuf by (split; done). clear Hs.
  unfold lenenc_enc in *. revert Hsuf Hl. cbn zeta.
  assert (forall b n, suffix_at p off ((b :: le_bytes n v) ++ l) ->
    v < 2 ^ (8 * Z.of_nat n) -> le_at p (off + 1) n = v) as Hat.
  { intros b n Hsuf Hn. apply suffix_at_cons in Hsuf.
    rewrite <- (length_le_bytes n v) at 1. rewrite (suffix_le_at _ _ _ Hsuf), le_val_bytes.
    rewrite Z.mod_small; lia. }
  destruct (Z.leb_spec v 250).
  { intros Hsuf _. rewrite (suffix_at_ld _ _ _ _ Hsuf).
    destruct (Z.leb_spec v 0xfa); [done|lia]. }
  destruct (Z.ltb_spec v (2 ^ 16)).
  { intros Hsuf Hl. rewrite (suffix_at_ld _ _ _ _ Hsuf). cbn [length] in *. rewrite !length_le_bytes in *.
    cbn. change (Z.to_nat 2) with 2%nat. rewrite (Hat 0xfc 2%nat) by (done || lia).
    destruct (Z.ltb_spec (len p) (off + 1 + 2)); [lia|]. do 2 f_equal. lia. }
  destruct (Z.ltb_spec v (2 ^ 24)).
  { intros Hsuf Hl. rewrite (suffix_at_ld _ _ _ _ Hsuf). cbn [length] in *. rewrite !length_le_bytes in *.
    cbn. change (Z.to_nat 3) with 3%nat. rewrite (Hat 0xfd 3%nat) by (done || lia).
    destruct (Z.ltb_spec (len p) (off + 1 + 3)); [lia|]. do 2 f_equal. lia. }
  intros Hsuf Hl. rewrite (suffix_at_ld _ _ _ _ Hsuf). cbn [length] in *. rewrite !length_le_bytes in *.
  cbn. change (Z.to_nat 8) with 8%nat. rewrite (Hat 0xfe 8%nat) by (done || lia).
  destruct (Z.ltb_spec (len p) (off + 1 + 8)); [lia|]. do 2 f_equal. lia.
Qed.

Lemma parses_lenenc_bytes o a l :
  parses p (rd_lenenc_bytes p (len p)) o (lenenc_bytes_enc a ++ l) (wire_bytes_of a) o l.
Proof.
  intros off Hs. pose proof (suffix_at_len _ _ _ Hs) as Hl.
  unfold lenenc_bytes_enc in *. rewrite !length_app in Hl. rewrite <- app_assoc in Hs.
  pose proof (buf_max _ _ Hp). pose proof (proj1 Hs).
  destruct (parses_lenenc_uint o (len a) (a ++ l) ltac:(lia) off Hs) as (off1 & E1 & Hs1).
  exists (off1 + len a). split; [|by apply suffix_at_app].
  rewrite rd_lenenc_bytes_eq by (done || (cbn [d_off]; by destruct Hs)).
  rewrite E1. cbn [d_off d_out]. rewrite (suffix_at_ldn _ _ _ _ Hs1).
  apply suffix_at_len in Hs1. rewrite length_app in Hs1.
  destruct (Z.ltb_spec (len p) (off1 + len a)); [lia|done].
Qed.

Lemma parses_lenenc_null o l :
  parses p (rd_lenenc_bytes p (len p)) o (0xfb :: l) wire_bytes_null o l.
Proof.
  intros off Hs. exists (off + 1). split; [|by apply suffix_at_cons in Hs].
  pose proof (suffix_at_len _ _ _ Hs) as Hl. cbn [length] in Hl.
  rewrite rd_lenenc_bytes_eq, rd_lenenc_uint_eq by (done || (cbn [d_off]; by destruct Hs)).
  cbn [d_off d_out]. destruct (Z.leb_spec (len p) off); [lia|].
  by rewrite (suffix_at_ld _ _ _ _ Hs).
Qed.
End ParsesReaders.

#[export] Hint Resolve parses_ret parses_offset parses_out_set parses_next_byte
  parses_u16 parses_u24 parses_u32 parses_u64 parses_lenenc_uint parses_lenenc_bytes
  parses_lenenc_null parses_fail_if : parse.

(** ** Builders against encodings

    [emits cap m l]: the builder [m], run on a buffer of capacity [cap], appends
    exactly the bytes [l] at the cursor when they fit, and otherwise stops with
    LIMIT and without leaving the buffer. *)

Definition enc_ok (cap : Z) (s : enc) : Prop :=
  0 <= e_off s <= cap /\ cap <= len (e_buf s) /\ len (e_buf s) < 2 ^ 63.

Definition emits (cap : Z) (m : B unit) (l : bytes) : Prop :=
  forall s, enc_ok cap s ->
  if e_off s + len l <=? cap
  then m s = (Ret tt, Enc (splice (e_buf s) (e_off s) l) (e_off s + len l))
  else exists s', m s = (Err LIMIT, s') /\ length (e_buf s') = length (e_buf s).

Create HintDb emit discriminated.

Section Emits.
Context (cap : Z).

Lemma emits_bind m1 m2 l1 l2 :
  emits cap m1 l1 -> emits cap m2 l2 -> emits cap (m1;; m2) (l1 ++ l2).
Proof.
  intros H1 H2 s Hs. specialize (H1 s Hs). pose proof Hs as (Ho & Hc & Hm).
  rewrite length_app. unfold mbind, M_bind.
  destruct (Z.leb_spec (e_off s + len l1) cap) as [Hl1|Hl1].
  - rewrite H1. specialize (H2 (Enc (splice (e_buf s) (e_off s) l1) (e_off s + len l1))).
    cbn [e_off e_buf] in H2. rewrite length_splice in H2 by lia.
    assert (enc_ok cap (Enc (splice (e_buf s) (e_off s) l1) (e_off s + len l1))) as Hs1.
    { unfold enc_ok. cbn [e_off e_buf]. rewrite length_splice by lia. lia. }
    specialize (H2 Hs1).
    destruct (Z.leb_spec (e_off s + len l1 + len l2) cap),
      (Z.leb_spec (e_off s + Z.of_nat (length l1 + length l2)) cap); try lia.
    + rewrite H2, splice_app by lia. do 2 f_equal. lia.
    + destruct H2 as (s' & -> & E). by exists s'.
  - destruct H1 as (s' & -> & E).
    destruct (Z.leb_spec (e_off s + Z.of_nat (length l1 + length l2)) cap); [lia|].
    by exists s'.
Qed.

Lemma emits_ret : emits cap (mret tt) [].
Proof.
  intros [b o] (Ho & Hc & Hm). cbn [e_off e_buf length] in *.
  rewrite splice_nil, Z.add_0_r. destruct (Z.leb_spec o cap); [done|lia].
Qed.

Lemma emits_when c m l : emits cap m l -> emits cap (when c m) (if c then l else []).
Proof. intros. destruct c; [done|apply emits_ret]. Qed.

Lemma write_le_loop_spec d cursor n i value :
  0 <= cursor -> 0 <= i -> 0 <= value -> cursor + i + Z.of_nat n <= len d ->
  write_le_loop d cursor n i value =
    Some (splice d (cursor + i) (le_bytes n (value / 2 ^ (8 * i)))).
Proof.
  intros Hc Hi Hv. revert i d Hi. induction n as [|n IH]; intros i d Hi Hl; cbn [write_le_loop].
  { f_equal. symmetry. apply splice_nil. }
  rewrite st_splice by lia. unfold u8. rewrite Z.shiftr_div_pow2 by lia.
  rewrite IH; [|lia|rewrite length_splice; cbn [length]; lia].
  f_equal. replace (cursor + (i + 1)) with (cursor + i + len [(value / 2 ^ (8 * i)) mod 2 ^ 8])
    by (cbn [length]; lia).
  rewrite splice_app by (rewrite ?length_le_bytes; cbn [length]; lia).
  f_equal. replace (8 * (i + 1)) with (8 * i + 8) by lia.
  rewrite Z.pow_add_r, <- Z.div_div by lia. done.
Qed.

Lemma write_le_eq buf off w v :
  enc_ok cap (Enc buf off) -> 1 <= w <= 8 -> 0 <= v ->
  mysql_wire_write_le (Some buf) cap (Some off) w v =
    if off + w <=? cap
    then (Ret tt, Some (splice buf off (le_bytes (Z.to_nat w) v)), Some (off + w))
    else (Err LIMIT, Some buf, Some off).
Proof.
  intros (Ho & Hc & Hm) Hw Hv. cbn [e_off e_buf] in *. unfold mysql_wire_write_le.
  destruct ((w =? 0) || (8 <? w)) eqn:Ew; [blia|].
  destruct (Z.ltb_spec cap off); [lia|]. cbn [orb]. rewrite size_sub_small by lia.
  destruct (Z.ltb_spec (cap - off) w), (Z.leb_spec (off + w) cap); [lia|done| |lia].
  rewrite write_le_loop_spec by lia. rewrite Z.mul_0_r, Z.pow_0_r, Z.div_1_r, Z.add_0_r. done.
Qed.

Lemma emits_fixed n v (f : ptr bytes -> ptr Z -> wire_result unit * ptr bytes * ptr Z) :
  0 <= v -> (1 <= n <= 8)%nat ->
  (forall d o, f d o = mysql_wire_write_le d cap o (Z.of_nat n) v) ->
  emits cap (call_writer f) (le_bytes n v).
Proof.
  intros Hv Hn Hf s Hs. unfold call_writer. rewrite Hf. destruct s as [buf off].
  cbn [e_off e_buf]. rewrite write_le_eq by (done || lia).
  rewrite length_le_bytes, Nat2Z.id. destruct (off + Z.of_nat n <=? cap); [done|].
  by exists (Enc buf off).
Qed.

Lemma emits_u16 v : 0 <= v -> emits cap (wr_u16 cap v) (le_bytes 2 v).
Proof. intros. by apply emits_fixed; [|lia|]. Qed.

Lemma emits_u24 v : 0 <= v <= 0xffffff -> emits cap (wr_u24 cap v) (le_bytes 3 v).
Proof.
  intros. apply emits_fixed; [lia..|]. intros. unfold mysql_wire_write_u24_le.
  destruct (Z.ltb_spec 0xffffff v); [lia|done].
Qed.

Lemma emits_u32 v : 0 <= v -> emits cap (wr_u32 cap v) (le_bytes 4 v).
Proof. intros. by apply emits_fixed; [|lia|]. Qed.

Lemma emits_u64 v : 0 <= v -> emits cap (wr_u64 cap v) (le_bytes 8 v).
Proof. intros. by apply emits_fixed; [|lia|]. Qed.

Lemma emits_byte b : emits cap (wr_byte cap b) [b].
Proof.
  intros [buf off] (Ho & Hc & Hm). cbn [e_off e_buf length] in *.
  change (Z.of_nat 1) with 1. unfold wr_byte, mbind, M_bind, gets, fail_if, access, modify. cbn [e_off e_buf].
  destruct (Z.leb_spec cap off), (Z.leb_spec (off + 1) cap); try lia.
  - eauto.
  - by rewrite st_splice by lia.
Qed.

Lemma emits_bytes l : emits cap (wr_bytes cap l) l.
Proof.
  intros [buf off] (Ho & Hc & Hm). cbn [e_off e_buf] in *.
  unfold wr_bytes, mbind, M_bind, gets, fail_if, access, modify. cbn [e_off e_buf].
  destruct (Z.ltb_spec cap off); [lia|]. cbn [orb]. rewrite size_sub_small by lia.
  destruct (Z.ltb_spec (cap - off) (len l)), (Z.leb_spec (off + len l) cap); try lia.
  - eauto.
  - by rewrite stn_Some by lia.
Qed.
End Emits.

(** ** The functions of codec.h against the reference encoding *)

Lemma store_first_eq cap buf off b :
  enc_ok cap (Enc buf off) -> off < cap ->
  st buf off b = Some (splice buf off [b]) /\
  enc_ok cap (Enc (splice buf off [b]) (off + 1)).
Proof.
  intros (Ho & Hc & Hm) Hlt. cbn [e_off e_buf] in *. split; [apply st_splice; lia|].
  unfold enc_ok. cbn [e_off e_buf]. rewrite length_splice by (cbn [length]; lia). lia.
Qed.

Lemma splice_cons buf off b l :
  0 <= off -> off + 1 + len l <= len buf ->
  splice (splice buf off [b]) (off + 1) l = splice buf off (b :: l).
Proof. intros. apply (splice_app buf off [b] l); cbn [length]; lia. Qed.

Lemma write_lenenc_uint_eq cap buf off v :
  enc_ok cap (Enc buf off) -> 0 <= v < 2 ^ 64 ->
  exists buf', length buf' = length buf /\
  mysql_wire_write_lenenc_uint (Some buf) cap (Some off) v =
    if off + len (lenenc_enc v) <=? cap
    then (Ret tt, Some (splice buf off (lenenc_enc v)), Some (off + len (lenenc_enc v)))
    else (Err LIMIT, Some buf', Some off).
Proof.
  intros Hs Hv. pose proof Hs as (Ho & Hc & Hm). cbn [e_off e_buf] in *.
  assert (forall b, length (splice buf off [b]) = length buf \/ cap <= off) as Hlen.
  { intros b. destruct (Z.leb_spec cap off); [auto|left].
    apply length_splice; cbn [length]; lia. }
  unfold mysql_wire_write_lenenc_uint, lenenc_enc, u16, u32, u8.
  change (Z.shiftl 1 16) with (2 ^ 16). change (Z.shiftl 1 24) with (2 ^ 24).
  destruct (Z.leb_spec cap off) as [Hfull|Hroom].
  { exists buf. split; [done|].
    destruct (Z.leb_spec (off + len (lenenc_enc v)) cap) as [Hle|_].
    { pose proof (lenenc_enc_length v). lia. }
    unfold lenenc_enc. case_all; cbn [length] in *; rewrite ?length_le_bytes in *;
      try lia; reflexivity. }
  destruct (Hlen 0) as [_|]; [|lia].
  assert (forall b, length (splice buf off [b]) = length buf) as Hl1.
  { intros b. destruct (Hlen b); [done|lia]. }
  assert (forall b w x, 1 <= w <= 8 -> 0 <= x ->
    mysql_wire_write_le (Some (splice buf off [b])) cap (Some (off + 1)) w x =
    if off + 1 + w <=? cap
    then (Ret tt, Some (splice buf off (b :: le_bytes (Z.to_nat w) x)), Some (off + 1 + w))
    else (Err LIMIT, Some (splice buf off [b]), Some (off + 1))) as Hw.
  { intros b w x Hw Hx. destruct (store_first_eq cap buf off b Hs Hroom) as [_ Hs1].
    rewrite (write_le_eq cap _ _ w x Hs1 Hw Hx).
    destruct (Z.leb_spec (off + 1 + w) cap); [|done].
    by rewrite splice_cons by (rewrite ?length_le_bytes; lia). }
  destruct (Z.leb_spec v 250).
  { exists buf. split; [done|]. rewrite Z.mod_small by lia.
    rewrite st_splice by lia. cbn [length]. change (Z.of_nat 1) with 1.
    destruct (Z.leb_spec (off + 1) cap); [done|lia]. }
  unfold mysql_wire_write_u16_le, mysql_wire_write_u24_le, mysql_wire_write_u64_le.
  destruct (Z.ltb_spec v (2 ^ 16)); [|destruct (Z.ltb_spec v (2 ^ 24))].
  - exists (splice buf off [0xfc]). split; [done|]. rewrite st_splice by lia.
    rewrite Z.mod_small by lia. rewrite Hw by lia. cbn [length]. rewrite length_le_bytes.
    replace (off + Z.of_nat 3) with (off + 1 + 2) by lia. by destruct (off + 1 + 2 <=? cap).
  - exists (splice buf off [0xfd]). split; [done|]. rewrite st_splice by lia.
    rewrite Z.mod_small by lia. destruct (Z.ltb_spec 0xffffff v); [lia|].
    rewrite Hw by lia. cbn [length]. rewrite length_le_bytes.
    replace (off + Z.of_nat 4) with (off + 1 + 3) by lia. by destruct (off + 1 + 3 <=? cap).
  - exists (splice buf off [0xfe]). split; [done|]. rewrite st_splice by lia.
    rewrite Hw by lia. cbn [length]. rewrite length_le_bytes.
    replace (off + Z.of_nat 9) with (off + 1 + 8) by lia. by destruct (off + 1 + 8 <=? cap).
Qed.

Lemma emits_lenenc_uint cap v : 0 <= v < 2 ^ 64 -> emits cap (wr_lenenc_uint cap v) (lenenc_enc v).
Proof.
  intros Hv [buf off] Hs. unfold wr_lenenc_uint, call_writer. cbn [e_off e_buf].
  destruct (write_lenenc_uint_eq cap buf off v Hs Hv) as (buf' & Hl & ->).
  destruct (off + len (lenenc_enc v) <=? cap); [done|]. by exists (Enc buf' off).
Qed.

Lemma emits_append_checked cap data l :
  ((exists r, data = Some (l ++ r)) \/ data = None /\ l = []) ->
  emits cap (call_writer (fun d o => append_checked cap d o data (len l))) l.
Proof.
  intros Hd [buf off] Hok. pose proof Hok as (Ho & Hc & Hm). cbn in Ho, Hc, Hm. cbn [e_off e_buf].
  unfold call_writer, append_checked. cbn [e_off e_buf].
  assert (match data with None => negb (len l =? 0) | Some _ => false end = false) as ->
    by (by destruct Hd as [[r ->]|[-> ->]]).
  destruct (Z.ltb_spec cap off); [lia|]. rewrite size_sub_small by lia. cbn [orb].
  destruct (Z.leb_spec (off + len l) cap), (Z.ltb_spec (cap - off) (len l)); try lia.
  - destruct (Z.eqb_spec (len l) 0) as [Hz|].
    { assert (l = []) as -> by (destruct l; [done|cbn [length] in Hz; lia]).
      rewrite splice_nil. change (len []) with 0. by rewrite Z.add_0_r. }
    destruct Hd as [[r ->]|[_ ->]]; [|done]. change (default [] (Some (l ++ r))) with (l ++ r).
    rewrite ldn_Some by (rewrite ?length_app; lia). rewrite drop_0, Nat2Z.id, take_app_length.
    by rewrite stn_Some by lia.
  - by exists (Enc buf off).
Qed.

(** ** Builders that have been sized before *)

(** [m] appends exactly [l] whenever there is room for it in the [cap] bytes. *)
Definition writes {E} (cap : Z) (m : M E enc unit) (l : bytes) : Prop :=
  forall buf off, 0 <= off -> off + len l <= cap -> cap <= len buf -> len buf < 2 ^ 63 ->
  m (Enc buf off) = (Ret tt, Enc (splice buf off l) (off + len l)).

Create HintDb writes discriminated.

Section Writes.
Context {E : Type} (cap : Z).

Lemma writes_bind (m1 m2 : M E enc unit) l1 l2 :
  writes cap m1 l1 -> writes cap m2 l2 -> writes cap (m1;; m2) (l1 ++ l2).
Proof.
  intros H1 H2 buf off Ho Hl Hb Hm. rewrite length_app in *. unfold mbind, M_bind.
  rewrite H1 by lia. rewrite H2; rewrite ?length_splice; try lia.
  rewrite splice_app by lia. by rewrite Nat2Z.inj_add, Z.add_assoc.
Qed.

Lemma writes_ret : writes cap (mret tt : M E enc unit) [].
Proof.
  intros buf off Ho Hl Hb Hm. rewrite splice_nil. change (len []) with 0. by rewrite Z.add_0_r.
Qed.

Lemma writes_put_byte b : writes cap (put_byte b : M E enc unit) [b].
Proof.
  intros buf off Ho Hl Hb Hm. cbn [length] in *. unfold put_byte, gets, access, modify, mbind, M_bind.
  cbn [e_off e_buf]. by rewrite st_splice by lia.
Qed.

Lemma writes_put_bytes l : writes cap (put_bytes l : M E enc unit) l.
Proof.
  intros buf off Ho Hl Hb Hm. unfold put_bytes, gets, access, modify, mbind, M_bind.
  cbn [e_off e_buf]. by rewrite stn_Some by lia.
Qed.

Lemma writes_when c (m : M E enc unit) l : writes cap m l -> writes cap (when c m) (if c then l else []).
Proof. destruct c; [done|]. intros. apply writes_ret. Qed.

Lemma writes_access {A} (o : option A) a (k : A -> M E enc unit) l :
  o = Some a -> writes cap (k a) l -> writes cap (access o ≫= k) l.
Proof. intros -> Hk buf off Ho Hl Hb Hm. by apply Hk. Qed.

Lemma writes_map_err {E'} (f : E -> E') (m : M E enc unit) l :
  writes cap m l -> writes cap (map_err f m) l.
Proof. intros Hm buf off Ho Hl Hb Hx. unfold map_err. by rewrite Hm. Qed.
End Writes.

(** A checked writer, where there is room. *)
Lemma writes_emits cap m l : emits cap m l -> writes cap m l.
Proof.
  intros Hm buf off Ho Hl Hb Hx.
  specialize (Hm (Enc buf off)). unfold enc_ok in Hm. cbn [e_off e_buf] in Hm.
  specialize (Hm ltac:(lia)). by destruct (Z.leb_spec (off + len l) cap); [|lia].
Qed.

#[export] Hint Resolve writes_ret writes_put_byte writes_put_bytes writes_map_err writes_emits : writes.

#[export] Hint Resolve emits_ret emits_u16 emits_u24 emits_u32 emits_u64 emits_byte
  emits_bytes emits_lenenc_uint : emit.

(** ** Properties *)

(** An integer of 1 to 8 bytes that mysql_wire_write_le stores at a cursor
    with room for it is read back by mysql_wire_read_le, modulo the width; both
    leave the cursor behind the field, and no byte outside the field changes. *)
Theorem write_le_read_le cap buf off w v :
  enc_ok cap (Enc buf off) -> bytes_ok buf -> 1 <= w <= 8 -> off + w <= cap -> 0 <= v ->
  exists buf',
    mysql_wire_write_le (Some buf) cap (Some off) w v = (Ret tt, Some buf', Some (off + w)) /\
    mysql_wire_read_le (Some buf') cap (Some off) w (Some 0) =
      (Ret tt, Some (off + w), Some (v mod 2 ^ (8 * w))) /\
    length buf' = length buf /\
    (forall j, j < off \/ off + w <= j -> ld buf' j = ld buf j).
Proof.
  intros Hs Hb Hw Hfit Hv. pose proof Hs as (Ho & Hc & Hm). cbn [e_off e_buf] in *.
  exists (splice buf off (le_bytes (Z.to_nat w) v)).
  rewrite (write_le_eq cap buf off w v Hs Hw Hv).
  destruct (Z.leb_spec (off + w) cap); [|lia].
  assert (length (splice buf off (le_bytes (Z.to_nat w) v)) = length buf) as Hl.
  { apply length_splice; rewrite ?length_le_bytes; lia. }
  split_and!; [done| |done|].
  - rewrite read_le_eq; [|split; rewrite ?Hl; try lia|lia..].
    + destruct (Z.ltb_spec cap (off + w)); [lia|]. do 2 f_equal.
      pose proof (splice_ldn buf off (le_bytes (Z.to_nat w) v) ltac:(lia)
        ltac:(rewrite length_le_bytes; lia)) as Hld.
      rewrite ldn_Some in Hld by (rewrite ?Hl, ?length_le_bytes; lia).
      injection Hld as Hld. rewrite length_le_bytes, Nat2Z.id in Hld.
      unfold le_at. rewrite Hld, le_val_bytes. do 3 f_equal. lia.
    + apply splice_bytes; [done|apply le_bytes_ok].
  - intros j Hj. apply splice_lookup_other; rewrite ?length_le_bytes; lia.
Qed.

(** mysql_wire_write_lenenc_uint writes the shortest length-encoded form of
    any 64-bit value, exactly when that form fits below the capacity, touching
    no other byte, and mysql_wire_read_lenenc_uint reads the value back, not
    NULL, from the bytes written so far; otherwise it returns LIMIT and the
    cursor does not move. *)
Theorem lenenc_uint_roundtrip cap buf off v :
  enc_ok cap (Enc buf off) -> bytes_ok buf -> 0 <= v < 2 ^ 64 ->
  exists buf' r off',
    mysql_wire_write_lenenc_uint (Some buf) cap (Some off) v = (r, Some buf', Some off') /\
    length buf' = length buf /\
    if off + len (lenenc_enc v) <=? cap
    then r = Ret tt /\ off' = off + len (lenenc_enc v) /\
      mysql_wire_read_lenenc_uint (Some (take (Z.to_nat off') buf')) off' (Some off) (Some 0) (Some true) =
        (Ret tt, Some off', Some v, Some false) /\
      (forall j, j < off \/ off' <= j -> ld buf' j = ld buf j)
    else r = Err LIMIT /\ off' = off.
Proof.
  intros Hs Hb Hv. pose proof Hs as (Ho & Hc & Hm). cbn [e_off e_buf] in *.
  destruct (write_lenenc_uint_eq cap buf off v Hs Hv) as (buf1 & Hl1 & Hw). rewrite Hw.
  pose proof (lenenc_enc_length v).
  destruct (Z.leb_spec (off + len (lenenc_enc v)) cap) as [Hfit|];
    [|by exists buf1, (Err LIMIT), off].
  eexists _, _, _. split; [done|]. rewrite length_splice by lia. split_and!; try done.
  - rewrite take_splice by lia. set (p := take (Z.to_nat off) buf ++ lenenc_enc v).
    assert (len p = off + len (lenenc_enc v)) as Hp.
    { unfold p. rewrite length_app, length_take. lia. }
    assert (buf_ok p (len p)) as Hbuf.
    { split; [lia..|]. apply Forall_app_2; [by apply Forall_take|]. apply lenenc_enc_ok; lia. }
    assert (suffix_at p off (lenenc_enc v ++ [])) as Hsuf.
    { rewrite app_nil_r. replace off with (len (take (Z.to_nat off) buf)).
      - apply suffix_at_end.
      - rewrite length_take. lia. }
    destruct (parses_lenenc_uint p Hbuf tt v [] Hv off Hsuf) as (off' & Hrd & Hend).
    apply suffix_at_len in Hend. cbn [length] in Hend. revert Hrd.
    rewrite <- Hp. unfold rd_lenenc_uint. cbn [d_off d_out].
    unfold mysql_wire_read_lenenc_uint. intros Hrd.
    repeat (case_match; simplify_eq; try done); repeat f_equal; lia.
  - intros j Hj. apply splice_lookup_other; lia.
Qed.

(** Whatever bytes arrive, mysql_wire_read_lenenc_bytes stays inside the
    [size] bytes it was given: on success the cursor advances and the view is
    NULL or the bytes of the buffer that end at the new cursor; on an error
    the cursor has not moved and the view is empty. *)
Theorem read_lenenc_bytes_safe p size off v0 :
  buf_ok p size -> 0 <= off ->
  match mysql_wire_read_lenenc_bytes (Some p) size (Some off) (Some v0) with
  | (Ret _, Some off', Some v) =>
      off < off' <= size /\
      (v = wire_bytes_null \/
       exists l, v = wire_bytes_of l /\ off < off' - len l /\ ldn p (off' - len l) (len l) = Some l)
  | (Err e, Some off', Some v) =>
      (e = NEED_MORE \/ e = INVALID) /\ off' = off /\ v = wire_bytes_zero
  | _ => False
  end.
Proof.
  intros Hp Ho. unfold mysql_wire_read_lenenc_bytes.
  pose proof (wp_rd_lenenc_uint p size Hp
    (fun vn s => off < d_off s <= size /\ 0 <= vn.1 < 2 ^ 64)
    (fun e s => (e = NEED_MORE \/ e = INVALID) /\ d_off s = off) off tt Ho
    ltac:(by cbn) ltac:(by cbn)) as Hwp.
  unfold wp, rd_lenenc_uint in Hwp. cbn [d_off d_out] in Hwp.
  destruct (mysql_wire_read_lenenc_uint _ _ _ _ _) as [[[r off'] v] n].
  destruct r as [[]|e|], off' as [off'|], v as [v|], n as [n|]; cbn in Hwp; try done;
    try (by destruct Hwp).
  destruct Hwp as [Ho' Hv]. destruct n; [by auto|]. destruct Hp as [Hs Hm Hb].
  destruct (Z.ltb_spec size off'); [lia|]. cbn [orb]. rewrite size_sub_small by lia.
  destruct (Z.ltb_spec (size - off') v); [by auto|].
  destruct (ldn p off' v) as [l|] eqn:El; [|by rewrite ldn_Some in El by lia].
  pose proof (ldn_length _ _ _ _ El) as Hlen. split; [lia|]. right. exists l.
  rewrite Hlen. replace (off' + v - v) with off' by lia. split_and!; [by rewrite <- Hlen|lia|done].
Qed.

Lemma le_at_app_l p q off n :
  0 <= off -> off + Z.of_nat n <= len p -> le_at (p ++ q) off n = le_at p off n.
Proof.
  intros. unfold le_at. rewrite drop_app_le by lia.
  by rewrite take_app_le by (rewrite length_drop; lia).
Qed.

Lemma rd_lenenc_uint_extend p q off (o : unit) :
  buf_ok (p ++ q) (len (p ++ q)) -> 0 <= off ->
  (rd_lenenc_uint p (len p) (Dec off o)).1 = Err NEED_MORE \/
  rd_lenenc_uint (p ++ q) (len (p ++ q)) (Dec off o) = rd_lenenc_uint p (len p) (Dec off o).
Proof.
  intros Hpq Ho. pose proof Hpq as [_ Hm Hb]. rewrite length_app in Hm.
  apply Forall_app in Hb as [Hbp _].
  rewrite !rd_lenenc_uint_eq; [|done..|by split; [lia..|]|done]. cbn [d_off d_out].
  destruct (Z.leb_spec (len p) off); [by left|].
  rewrite length_app, ld_app_l by done.
  destruct (Z.leb_spec (Z.of_nat (length p + length q)) off); [lia|].
  destruct (ld p off) as [b|]; [|by right]. cbn zeta.
  repeat (case_match; [by right|]).
  assert (forall w, 0 <= w ->
    (if len p <? off + 1 + w then (Err NEED_MORE, Dec off o)
     else (Ret (le_at p (off + 1) (Z.to_nat w), false), Dec (off + 1 + w) o)).1 = Err NEED_MORE \/
    (if Z.of_nat (length p + length q) <? off + 1 + w then (Err NEED_MORE, Dec off o)
     else (Ret (le_at (p ++ q) (off + 1) (Z.to_nat w), false), Dec (off + 1 + w) o)) =
    (if len p <? off + 1 + w then (Err NEED_MORE, Dec off o)
     else (Ret (le_at p (off + 1) (Z.to_nat w), false), Dec (off + 1 + w) o))) as Hwide.
  { intros w Hw. destruct (Z.ltb_spec (len p) (off + 1 + w)); [by left|right].
    destruct (Z.ltb_spec (Z.of_nat (length p + length q)) (off + 1 + w)); [lia|].
    by rewrite le_at_app_l by lia. }
  destruct (b =? 0xfc); [by apply Hwide|]. destruct (b =? 0xfd); [by apply Hwide|].
  destruct (b =? 0xfe); [by apply Hwide|]. by right.
Qed.

(** Incremental decoding: a length-encoded string read from the bytes that
    have arrived is final. Unless the answer is NEED_MORE, reading again after
    any further bytes have arrived gives the same status, cursor and view. *)
Theorem read_lenenc_bytes_stable p q off v0 :
  buf_ok (p ++ q) (len (p ++ q)) -> 0 <= off ->
  (mysql_wire_read_lenenc_bytes (Some p) (len p) (Some off) (Some v0)).1.1 <> Err NEED_MORE ->
  mysql_wire_read_lenenc_bytes (Some (p ++ q)) (len (p ++ q)) (Some off) (Some v0) =
  mysql_wire_read_lenenc_bytes (Some p) (len p) (Some off) (Some v0).
Proof.
  intros Hpq Ho Hmore. pose proof (rd_lenenc_uint_extend p q off tt Hpq Ho) as Hext.
  pose proof Hpq as [_ Hm Hb]. rewrite length_app in Hm. apply Forall_app in Hb as [Hbp _].
  pose proof (wp_rd_lenenc_uint p (len p) ltac:(by split; [lia..|])
    (fun vn s => off < d_off s <= len p /\ 0 <= vn.1 < 2 ^ 64) (fun _ s => d_off s = off)
    off tt Ho ltac:(by cbn) ltac:(by cbn)) as Hwp.
  revert Hmore Hext Hwp. unfold wp, rd_lenenc_uint, mysql_wire_read_lenenc_bytes. cbn [d_off d_out].
  destruct (mysql_wire_read_lenenc_uint (Some p) _ _ _ _) as [[[r off'] v] n].
  destruct (mysql_wire_read_lenenc_uint (Some (p ++ q)) _ _ _ _) as [[[r2 off2] v2] n2].
  destruct r as [[]|e|], off' as [off'|], v as [v|], n as [n|]; cbn; try done;
    intros Hmore Hext Hwp;
    (destruct Hext as [Hext|Hext]; [congruence|]);
    destruct r2 as [[]|e2|], off2 as [off2|], v2 as [v2|], n2 as [n2|]; simplify_eq; try done.
  destruct Hwp as [Ho' Hv].
  destruct n; [done|]. destruct (Z.ltb_spec (len p) off'); [lia|].
  destruct (Z.ltb_spec (len (p ++ q)) off'); [rewrite length_app in *; lia|]. cbn [orb] in *.
  rewrite length_app in *. rewrite !size_sub_small in * by lia.
  destruct (Z.ltb_spec (len p - off') v); [done|].
  destruct (Z.ltb_spec (Z.of_nat (length p + length q) - off') v); [lia|].
  by rewrite ldn_app_l by lia.
Qed.
