(* ===== verification/Packet.v ===== *)
(** * Packet framing (mysql/wire/packet.c)

    A packet is a 3-byte little-endian payload length, a sequence number and the
    payload. The stream parser is fed chunks of a byte stream of any size and
    reports pieces of payload as events that borrow the chunk. *)

From S2P Require Import Prelude Codec.

(** ** Data *)

Definition MYSQL_WIRE_PACKET_HEADER_SIZE : Z := 4.
Definition MYSQL_WIRE_PACKET_MAX_PAYLOAD : Z := 0x00ffffff.

Record mysql_wire_packet_event_t : Type := mk_event {
  ev_data : ptr bytes;
  ev_length : Z;
  ev_offset : Z;
  ev_packet_payload_length : Z;
  ev_sequence_id : Z;
  ev_packet_end : bool;
  ev_message_end : bool
}.

Definition event_zero : mysql_wire_packet_event_t := mk_event None 0 0 0 0 false false.

Record mysql_wire_packet_stream_t : Type := mk_stream {
  header : bytes;
  header_used : Z;
  packet_payload_length : Z;
  payload_seen : Z;
  max_payload : Z;
  sequence_id : Z;
  expected_sequence : Z;
  in_payload : bool
}.

(** memset(stream, 0, ...) followed by the two assignments of init and reset. *)
Definition stream_start (expected max : Z) : mysql_wire_packet_stream_t :=
  mk_stream (replicate 4 0) 0 0 0 max 0 expected false.

(** ** Operations *)

Definition mysql_wire_packet_header_decode (hdr : ptr bytes) (size expected max : Z)
    (payload_length sequence : ptr Z) : wire_result unit * ptr Z * ptr Z :=
  match hdr, payload_length, sequence with
  | Some h, Some _, Some _ =>
      if MYSQL_WIRE_PACKET_MAX_PAYLOAD <? max then (Err INVALID, payload_length, sequence)
      else if size <? MYSQL_WIRE_PACKET_HEADER_SIZE then (Err NEED_MORE, payload_length, sequence)
      else
        match ld h 0, ld h 1, ld h 2, ld h 3 with
        | Some h0, Some h1, Some h2, Some h3 =>
            let length := Z.lor (Z.lor h0 (Z.shiftl h1 8)) (Z.shiftl h2 16) in
            if max <? length then (Err LIMIT, payload_length, sequence)
            else if negb (h3 =? expected) then (Err SEQUENCE, payload_length, sequence)
            else (Ret tt, Some length, Some h3)
        | _, _, _, _ => (Fault, payload_length, sequence)
        end
  | _, _, _ => (Err INVALID, payload_length, sequence)
  end.

Definition mysql_wire_packet_stream_init (stream : ptr mysql_wire_packet_stream_t)
    (expected max : Z) : wire_result unit * ptr mysql_wire_packet_stream_t :=
  match stream with
  | None => (Err INVALID, stream)
  | Some _ =>
      if MYSQL_WIRE_PACKET_MAX_PAYLOAD <? max then (Err INVALID, stream)
      else (Ret tt, Some (stream_start expected max))
  end.

Definition mysql_wire_packet_stream_reset (stream : ptr mysql_wire_packet_stream_t)
    (expected : Z) : ptr mysql_wire_packet_stream_t :=
  match stream with
  | None => None
  | Some s => Some (stream_start expected (max_payload s))
  end.

(** [while (header_used < 4 && cursor < input_size)
       header[header_used++] = input[cursor++];]
    The loop runs at most four times, once per missing header byte. *)
Fixpoint fill_header (fuel : nat) (h : bytes) (used : Z) (input : bytes) (cursor size : Z)
    : option (bytes * Z * Z) :=
  if (used <? MYSQL_WIRE_PACKET_HEADER_SIZE) && (cursor <? size) then
    match fuel with
    | O => None
    | S fuel =>
        match ld input cursor with
        | None => None
        | Some b =>
            match st h used b with
            | None => None
            | Some h' => fill_header fuel h' (used + 1) input (cursor + 1) size
            end
        end
    end
  else Some (h, used, cursor).

(** The part of feed after the header is complete: it hands out what the chunk
    has of the payload. *)
Definition feed_payload (s : mysql_wire_packet_stream_t) (input : bytes) (size cursor : Z)
    : wire_result unit * mysql_wire_packet_stream_t * Z * mysql_wire_packet_event_t :=
  if cursor =? size then (Err NEED_MORE, s, cursor, event_zero)
  else
    let remaining := u32 (packet_payload_length s - payload_seen s) in
    let available := size_sub size cursor in
    let chunk := if remaining <? available then remaining else available in
    match ldn input cursor chunk with
    | None => (Fault, s, cursor, event_zero)
    | Some view =>
        let seen := u32 (payload_seen s + chunk) in
        let complete := seen =? packet_payload_length s in
        let event := mk_event (Some view) chunk (payload_seen s) (packet_payload_length s)
          (sequence_id s) complete
          (complete && (packet_payload_length s <? MYSQL_WIRE_PACKET_MAX_PAYLOAD)) in
        let s' :=
          if complete
          then mk_stream (header s) 0 0 0 (max_payload s) (sequence_id s)
                 (u8 (expected_sequence s + 1)) false
          else mk_stream (header s) (header_used s) (packet_payload_length s) seen (max_payload s)
                 (sequence_id s) (expected_sequence s) true in
        (Ret tt, s', cursor + chunk, event)
    end.

(** The body of feed once the pointers are checked: the new stream, the number
    of bytes consumed and the event. *)
Definition feed_body (s : mysql_wire_packet_stream_t) (input : bytes) (size : Z)
    : wire_result unit * mysql_wire_packet_stream_t * Z * mysql_wire_packet_event_t :=
  if in_payload s then feed_payload s input size 0
  else
    match fill_header 4 (header s) (header_used s) input 0 size with
    | None => (Fault, s, 0, event_zero)
    | Some (h, used, cursor) =>
        let s1 := mk_stream h used (packet_payload_length s) (payload_seen s) (max_payload s)
          (sequence_id s) (expected_sequence s) false in
        if used <? MYSQL_WIRE_PACKET_HEADER_SIZE then (Err NEED_MORE, s1, cursor, event_zero)
        else
          match mysql_wire_packet_header_decode (Some h) 4 (expected_sequence s) (max_payload s)
                  (Some (packet_payload_length s)) (Some (sequence_id s)) with
          | (Ret _, Some length, Some seq) =>
              if length =? 0 then
                (Ret tt,
                 mk_stream h 0 length 0 (max_payload s) seq (u8 (expected_sequence s + 1)) false,
                 cursor, mk_event None 0 0 0 seq true true)
              else
                feed_payload (mk_stream h used length 0 (max_payload s) seq (expected_sequence s) true)
                  input size cursor
          | (Err e, _, _) => (Err e, s1, cursor, event_zero)
          | _ => (Fault, s1, cursor, event_zero)
          end
    end.

Definition mysql_wire_packet_stream_feed (stream : ptr mysql_wire_packet_stream_t)
    (input : ptr bytes) (input_size : Z) (consumed : ptr Z) (event : ptr mysql_wire_packet_event_t)
    : wire_result unit * ptr mysql_wire_packet_stream_t * ptr Z * ptr mysql_wire_packet_event_t :=
  match stream, consumed, event with
  | Some s, Some _, Some _ =>
      match input with
      | None =>
          if negb (input_size =? 0) then (Err INVALID, stream, consumed, event)
          else let '(r, s', c, e) := feed_body s [] input_size in (r, Some s', Some c, Some e)
      | Some inp =>
          let '(r, s', c, e) := feed_body s inp input_size in (r, Some s', Some c, Some e)
      end
  | _, _, _ => (Err INVALID, stream, consumed, event)
  end.

(** ** Well-formed streams *)

(** The verdict on a complete header: the announced length and the sequence
    number, or the error. *)
Definition header_verdict (h : bytes) (expected max : Z) : wire_result (Z * Z) :=
  let length := le_at h 0 3 in
  let seq := le_at h 3 1 in
  if max <? length then Err LIMIT
  else if negb (seq =? expected) then Err SEQUENCE
  else Ret (length, seq).

Record stream_wf (s : mysql_wire_packet_stream_t) : Prop := {
  wf_header : length (header s) = 4%nat;
  wf_header_bytes : bytes_ok (header s);
  wf_used : 0 <= header_used s <= 4;
  wf_max : 0 <= max_payload s <= MYSQL_WIRE_PACKET_MAX_PAYLOAD;
  wf_expected : 0 <= expected_sequence s < 256;
  (** inside a payload at least one byte is missing *)
  wf_payload : in_payload s = true ->
    header_used s = 4 /\ 0 <= payload_seen s < packet_payload_length s /\
    packet_payload_length s <= max_payload s;
  (** a complete header that is still there was refused *)
  wf_refused : in_payload s = false -> header_used s = 4 ->
    exists e, header_verdict (header s) (expected_sequence s) (max_payload s) = Err e
}.

Lemma stream_start_wf expected max :
  0 <= expected < 256 -> 0 <= max <= MYSQL_WIRE_PACKET_MAX_PAYLOAD ->
  stream_wf (stream_start expected max).
Proof.
  intros. split; cbn; try done; try lia. by apply bytes_okb_ok.
Qed.

Lemma header_verdict_total h expected max : header_verdict h expected max <> Fault.
Proof. unfold header_verdict. by repeat case_match. Qed.

Lemma header_verdict_err h expected max e :
  header_verdict h expected max = Err e -> e = LIMIT \/ e = SEQUENCE.
Proof. unfold header_verdict. repeat case_match; intros [= <-]; auto. Qed.

Lemma header_decode_eq h expected max pl sq :
  length h = 4%nat -> bytes_ok h -> max <= MYSQL_WIRE_PACKET_MAX_PAYLOAD ->
  mysql_wire_packet_header_decode (Some h) 4 expected max (Some pl) (Some sq) =
    match header_verdict h expected max with
    | Ret (length, seq) => (Ret tt, Some length, Some seq)
    | Err e => (Err e, Some pl, Some sq)
    | Fault => (Fault, Some pl, Some sq)
    end.
Proof.
  intros Hl Hb Hm. unfold mysql_wire_packet_header_decode, header_verdict.
  destruct (Z.ltb_spec MYSQL_WIRE_PACKET_MAX_PAYLOAD max); [lia|].
  change (4 <? MYSQL_WIRE_PACKET_HEADER_SIZE) with false. cbn iota.
  destruct h as [|h0 [|h1 [|h2 [|h3 [|]]]]]; try done.
  unfold bytes_ok in Hb. rewrite !list.Forall_cons in Hb. destruct Hb as (H0 & H1 & H2 & H3 & _).
  change (ld [h0; h1; h2; h3] 0) with (Some h0). change (ld [h0; h1; h2; h3] 1) with (Some h1).
  change (ld [h0; h1; h2; h3] 2) with (Some h2). change (ld [h0; h1; h2; h3] 3) with (Some h3).
  change (le_at [h0; h1; h2; h3] 0 3) with (h0 + 256 * (h1 + 256 * (h2 + 256 * 0))).
  change (le_at [h0; h1; h2; h3] 3 1) with (h3 + 256 * 0).
  cbn beta iota zeta. rewrite (lor_shiftl_add h0 h1 8), (lor_shiftl_add _ h2 16) by lia.
  replace (h0 + h1 * 2 ^ 8 + h2 * 2 ^ 16) with (h0 + 256 * (h1 + 256 * (h2 + 256 * 0))) by lia.
  rewrite Z.mul_0_r, (Z.add_0_r h3).
  destruct (max <? _); [done|]. by destruct (negb (h3 =? expected)).
Qed.

Lemma fill_header_eq fuel h used input cursor :
  length h = 4%nat -> 0 <= used <= 4 -> 0 <= cursor -> 4 - used <= Z.of_nat fuel ->
  cursor <= len input ->
  let k := Z.min (4 - used) (len input - cursor) in
  fill_header fuel h used input cursor (len input) =
    Some (splice h used (take (Z.to_nat k) (drop (Z.to_nat cursor) input)), used + k, cursor + k).
Proof.
  cbn zeta. revert h used cursor. induction fuel as [|fuel IH]; intros h used cursor Hh Hu Hc Hf Hl;
    unfold MYSQL_WIRE_PACKET_HEADER_SIZE in *; cbn [fill_header];
    unfold MYSQL_WIRE_PACKET_HEADER_SIZE;
    destruct (Z.ltb_spec used 4), (Z.ltb_spec cursor (len input)); cbn [andb]; try lia;
    try (replace (Z.min (4 - used) (len input - cursor)) with 0 by lia;
         rewrite take_0, splice_nil; repeat f_equal; lia).
  destruct (ld_is_Some input cursor) as [b Eb]; [lia|]. rewrite Eb.
  rewrite st_splice by lia.
  assert (length (splice h used [b]) = 4%nat) as Hh'.
  { rewrite length_splice; cbn [length]; lia. }
  rewrite IH by (done || lia).
  replace (Z.min (4 - used) (len input - cursor))
    with (1 + Z.min (4 - (used + 1)) (len input - (cursor + 1))) by lia.
  set (k := Z.min (4 - (used + 1)) (len input - (cursor + 1))).
  assert (0 <= k) by lia.
  replace (Z.to_nat (1 + k)) with (S (Z.to_nat k)) by lia.
  rewrite (take_drop_ld _ _ _ _ Eb). rewrite splice_cons; [|lia|].
  - by rewrite !Z.add_assoc.
  - rewrite length_take, length_drop. lia.
Qed.

(** The header bytes a stream holds after taking those it misses from [input]. *)
Definition header_with (s : mysql_wire_packet_stream_t) (input : bytes) : bytes :=
  splice (header s) (header_used s) (take (Z.to_nat (4 - header_used s)) input).

(** What feed does, by cases on what is missing. *)
Lemma feed_body_eq s input :
  stream_wf s -> bytes_ok input ->
  feed_body s input (len input) =
    if in_payload s then feed_payload s input (len input) 0
    else
      let miss := 4 - header_used s in
      let h := header_with s input in
      if len input <? miss then
        (Err NEED_MORE,
         mk_stream h (header_used s + len input) (packet_payload_length s) (payload_seen s)
           (max_payload s) (sequence_id s) (expected_sequence s) false,
         len input, event_zero)
      else
        match header_verdict h (expected_sequence s) (max_payload s) with
        | Ret (length, seq) =>
            if length =? 0 then
              (Ret tt,
               mk_stream h 0 length 0 (max_payload s) seq (u8 (expected_sequence s + 1)) false,
               miss, mk_event None 0 0 0 seq true true)
            else
              feed_payload (mk_stream h 4 length 0 (max_payload s) seq (expected_sequence s) true)
                input (len input) miss
        | Err e =>
            (Err e,
             mk_stream h 4 (packet_payload_length s) (payload_seen s)
               (max_payload s) (sequence_id s) (expected_sequence s) false,
             miss, event_zero)
        | Fault => (Fault, s, miss, event_zero)
        end.
Proof.
  intros [Hh Hb Hu Hm He _ _] Hi. unfold feed_body. destruct (in_payload s); [done|].
  cbn zeta. rewrite (fill_header_eq 4) by (done || lia).
  rewrite drop_0, Z.sub_0_r, Z.add_0_l. unfold MYSQL_WIRE_PACKET_HEADER_SIZE.
  destruct (Z.ltb_spec (len input) (4 - header_used s)) as [Hlt|Hge].
  - rewrite Z.min_r by lia.
    destruct (Z.ltb_spec (header_used s + len input) 4); [|lia].
    unfold header_with. by rewrite !take_ge by lia.
  - rewrite Z.min_l by lia.
    destruct (Z.ltb_spec (header_used s + (4 - header_used s)) 4); [lia|].
    replace (header_used s + (4 - header_used s)) with 4 by lia.
    change (splice (header s) (header_used s) (take (Z.to_nat (4 - header_used s)) input))
      with (header_with s input).
    rewrite header_decode_eq; try lia.
    + destruct (header_verdict _ _ _) as [[]| |] eqn:Ev; [done..|].
      by apply header_verdict_total in Ev.
    + unfold header_with. rewrite length_splice; rewrite ?length_take; lia.
    + apply splice_bytes; [done|by apply Forall_take].
Qed.

(** ** The payload phase *)

(** [k] more payload bytes have been handed out. *)
Definition payload_step (s : mysql_wire_packet_stream_t) (k : Z) : mysql_wire_packet_stream_t :=
  if payload_seen s + k =? packet_payload_length s
  then mk_stream (header s) 0 0 0 (max_payload s) (sequence_id s)
         (u8 (expected_sequence s + 1)) false
  else mk_stream (header s) (header_used s) (packet_payload_length s) (payload_seen s + k)
         (max_payload s) (sequence_id s) (expected_sequence s) true.

Definition payload_event (s : mysql_wire_packet_stream_t) (view : bytes) : mysql_wire_packet_event_t :=
  let complete := payload_seen s + len view =? packet_payload_length s in
  mk_event (Some view) (len view) (payload_seen s) (packet_payload_length s) (sequence_id s)
    complete (complete && (packet_payload_length s <? MYSQL_WIRE_PACKET_MAX_PAYLOAD)).

(** A stream that is inside a payload, whatever its other members. *)
Definition in_body (s : mysql_wire_packet_stream_t) : Prop :=
  in_payload s = true /\ 0 <= payload_seen s < packet_payload_length s /\
  packet_payload_length s <= MYSQL_WIRE_PACKET_MAX_PAYLOAD.

Lemma stream_wf_in_body s : stream_wf s -> in_payload s = true -> in_body s.
Proof. intros [_ _ _ Hm _ Hp _] Hin. destruct (Hp Hin). split_and!; try done; lia. Qed.

Lemma feed_payload_eq s pre rest :
  in_body s -> len pre + len rest < 2 ^ 63 ->
  feed_payload s (pre ++ rest) (len (pre ++ rest)) (len pre) =
    match rest with
    | [] => (Err NEED_MORE, s, len pre, event_zero)
    | _ :: _ =>
        let k := Z.min (packet_payload_length s - payload_seen s) (len rest) in
        (Ret tt, payload_step s k, len pre + k, payload_event s (take (Z.to_nat k) rest))
    end.
Proof.
  intros (Hin & Hseen & Hmax) Hl. unfold MYSQL_WIRE_PACKET_MAX_PAYLOAD in Hmax.
  unfold feed_payload. rewrite length_app.
  destruct rest as [|b rest'].
  { destruct (Z.eqb_spec (len pre) (Z.of_nat (length pre + length (@nil Z)))); [done|cbn in *; lia]. }
  set (rest := b :: rest') in *. assert (0 < len rest) by (unfold rest; cbn [length]; lia).
  destruct (Z.eqb_spec (len pre) (Z.of_nat (length pre + length rest))); [lia|].
  rewrite size_sub_small by lia.
  replace (Z.of_nat (length pre + length rest) - len pre) with (len rest) by lia.
  rewrite (u32_small (packet_payload_length s - payload_seen s)) by lia.
  set (k := Z.min (packet_payload_length s - payload_seen s) (len rest)).
  replace (if packet_payload_length s - payload_seen s <? len rest
           then packet_payload_length s - payload_seen s else len rest) with k
    by (destruct (Z.ltb_spec (packet_payload_length s - payload_seen s) (len rest)); lia).
  assert (ldn (pre ++ rest) (len pre) k = Some (take (Z.to_nat k) rest)) as Hld.
  { rewrite ldn_Some by (rewrite ?length_app; lia). rewrite Nat2Z.id, drop_app_length. done. }
  rewrite Hld. assert (len (take (Z.to_nat k) rest) = k) as Hk by (rewrite length_take; lia).
  unfold payload_step, payload_event. rewrite Hk.
  by rewrite (u32_small (payload_seen s + k)) by lia.
Qed.

Lemma payload_step_wf s k :
  stream_wf s -> in_payload s = true -> 0 < k <= packet_payload_length s - payload_seen s ->
  stream_wf (payload_step s k).
Proof.
  intros [Hh Hb Hu Hm He Hp Hr] Hin Hk. destruct (Hp Hin) as (H1 & H2 & H3).
  unfold payload_step. destruct (Z.eqb_spec (payload_seen s + k) (packet_payload_length s));
    split; cbn; try done; try lia. apply u8_range.
Qed.

Lemma header_with_wf s input :
  stream_wf s -> bytes_ok input -> in_payload s = false ->
  length (header_with s input) = 4%nat /\ bytes_ok (header_with s input).
Proof.
  intros [Hh Hb Hu Hm He Hp Hr] Hi Hin. unfold header_with. split.
  - rewrite length_splice; rewrite ?length_take; lia.
  - apply splice_bytes; [done|by apply Forall_take].
Qed.

Lemma header_verdict_ok h expected max l q :
  bytes_ok h -> 0 <= max <= MYSQL_WIRE_PACKET_MAX_PAYLOAD ->
  header_verdict h expected max = Ret (l, q) -> 0 <= l <= max /\ q = expected.
Proof.
  unfold header_verdict. intros Hb Hm. repeat case_match; intros [= <- <-]. bsimp.
  pose proof (le_at_range h 0 3 Hb). lia.
Qed.

(** The stream that a complete, accepted header with a payload leads to. *)
Lemma header_done_wf s input l q :
  stream_wf s -> bytes_ok input -> in_payload s = false -> l <> 0 ->
  header_verdict (header_with s input) (expected_sequence s) (max_payload s) = Ret (l, q) ->
  stream_wf (mk_stream (header_with s input) 4 l 0 (max_payload s) q (expected_sequence s) true).
Proof.
  intros Hwf Hi Hin Hl Hv. destruct (header_with_wf s input Hwf Hi Hin) as [Hlen Hbytes].
  pose proof Hwf as [Hh Hb Hu Hm He Hp Hr].
  pose proof (header_verdict_ok _ _ _ _ _ Hbytes Hm Hv).
  split; cbn; try done; lia.
Qed.

(** ** The reference behaviour of feed *)

Abbreviation fed := (wire_result unit * mysql_wire_packet_stream_t * Z * mysql_wire_packet_event_t)%type
  (only parsing).

(** The payload part, [base] bytes into the chunk, with [rest] left. *)
Definition body_spec (s : mysql_wire_packet_stream_t) (base : Z) (rest : bytes) : fed :=
  match rest with
  | [] => (Err NEED_MORE, s, base, event_zero)
  | _ :: _ =>
      let k := Z.min (packet_payload_length s - payload_seen s) (len rest) in
      (Ret tt, payload_step s k, base + k, payload_event s (take (Z.to_nat k) rest))
  end.

Definition feed_spec (s : mysql_wire_packet_stream_t) (input : bytes) : fed :=
  if in_payload s then body_spec s 0 input
  else
    let miss := 4 - header_used s in
    let h := header_with s input in
    if len input <? miss then
      (Err NEED_MORE,
       mk_stream h (header_used s + len input) (packet_payload_length s) (payload_seen s)
         (max_payload s) (sequence_id s) (expected_sequence s) false,
       len input, event_zero)
    else
      match header_verdict h (expected_sequence s) (max_payload s) with
      | Ret (length, seq) =>
          if length =? 0 then
            (Ret tt,
             mk_stream h 0 length 0 (max_payload s) seq (u8 (expected_sequence s + 1)) false,
             miss, mk_event None 0 0 0 seq true true)
          else
            body_spec (mk_stream h 4 length 0 (max_payload s) seq (expected_sequence s) true)
              miss (drop (Z.to_nat miss) input)
      | Err e =>
          (Err e,
           mk_stream h 4 (packet_payload_length s) (payload_seen s)
             (max_payload s) (sequence_id s) (expected_sequence s) false,
           miss, event_zero)
      | Fault => (Fault, s, miss, event_zero)
      end.

Lemma feed_body_spec s input :
  stream_wf s -> bytes_ok input -> len input < 2 ^ 63 ->
  feed_body s input (len input) = feed_spec s input.
Proof.
  intros Hwf Hi Hl. rewrite feed_body_eq by done. unfold feed_spec.
  destruct (in_payload s) eqn:Hin.
  - apply (feed_payload_eq s [] input); [|cbn [length]; lia]. by apply stream_wf_in_body.
  - cbn zeta. destruct (Z.ltb_spec (len input) (4 - header_used s)) as [|Hge]; [done|].
    destruct (header_verdict _ _ _) as [[l q]| |] eqn:Ev; [|done..].
    destruct (Z.eqb_spec l 0) as [|Hl0]; [done|].
    pose proof (header_done_wf _ _ _ _ Hwf Hi Hin Hl0 Ev) as Hwf2.
    pose proof (wf_used _ Hwf).
    assert (len (take (Z.to_nat (4 - header_used s)) input) = 4 - header_used s) as Hpre
      by (rewrite length_take; lia).
    pose proof (feed_payload_eq _ (take (Z.to_nat (4 - header_used s)) input)
      (drop (Z.to_nat (4 - header_used s)) input) (stream_wf_in_body _ Hwf2 eq_refl)) as Heq.
    rewrite take_drop, Hpre, length_drop in Heq. rewrite Heq by lia.
    unfold body_spec. by rewrite length_drop.
Qed.

(** The public function on non-NULL arguments. *)
Lemma stream_feed_spec s input c0 e0 :
  stream_wf s -> bytes_ok input -> len input < 2 ^ 63 ->
  mysql_wire_packet_stream_feed (Some s) (Some input) (len input) (Some c0) (Some e0) =
    let '(r, s', c, e) := feed_spec s input in (r, Some s', Some c, Some e).
Proof. intros. cbn. by rewrite feed_body_spec. Qed.

Lemma body_spec_props s base rest :
  stream_wf s -> in_payload s = true -> 0 <= base ->
  let '(r, s', c, e) := body_spec s base rest in
  stream_wf s' /\
  ((r = Err NEED_MORE /\ rest = [] /\ c = base /\ s' = s /\ e = event_zero) \/
   (r = Ret tt /\ base < c <= base + len rest /\ ev_length e = c - base /\
    ev_data e = Some (take (Z.to_nat (c - base)) rest))).
Proof.
  intros Hwf Hin Hbase. unfold body_spec. destruct rest as [|b rest']; [split; [done|by left]|].
  pose proof (wf_payload _ Hwf Hin) as (_ & Hs & _).
  set (rest := b :: rest'). assert (0 < len rest) by (unfold rest; cbn [length]; lia).
  set (k := Z.min _ _). split; [apply payload_step_wf; try done; lia|]. right.
  replace (base + k - base) with k by lia. unfold payload_event. cbn [ev_length ev_data].
  split_and!; try done; rewrite ?length_take; lia.
Qed.

Lemma header_part_wf s input :
  stream_wf s -> bytes_ok input -> in_payload s = false -> len input < 4 - header_used s ->
  stream_wf (mk_stream (header_with s input) (header_used s + len input) (packet_payload_length s)
    (payload_seen s) (max_payload s) (sequence_id s) (expected_sequence s) false).
Proof.
  intros Hwf Hi Hin Hl. destruct (header_with_wf s input Hwf Hi Hin) as [Hlen Hbytes].
  destruct Hwf as [Hh Hb Hu Hm He Hp Hr]. split; cbn; try done; lia.
Qed.

Lemma header_refused_wf s input e :
  stream_wf s -> bytes_ok input -> in_payload s = false ->
  header_verdict (header_with s input) (expected_sequence s) (max_payload s) = Err e ->
  stream_wf (mk_stream (header_with s input) 4 (packet_payload_length s)
    (payload_seen s) (max_payload s) (sequence_id s) (expected_sequence s) false).
Proof.
  intros Hwf Hi Hin Hv. destruct (header_with_wf s input Hwf Hi Hin) as [Hlen Hbytes].
  destruct Hwf as [Hh Hb Hu Hm He Hp Hr]. split; cbn; try done; try lia. by exists e.
Qed.

Lemma header_empty_wf s input l q :
  stream_wf s -> bytes_ok input -> in_payload s = false ->
  stream_wf (mk_stream (header_with s input) 0 l 0 (max_payload s) q
    (u8 (expected_sequence s + 1)) false).
Proof.
  intros Hwf Hi Hin. destruct (header_with_wf s input Hwf Hi Hin) as [Hlen Hbytes].
  destruct Hwf as [Hh Hb Hu Hm He Hp Hr]. split; cbn; try done; try lia. apply u8_range.
Qed.

Lemma feed_spec_props s input :
  stream_wf s -> bytes_ok input ->
  let '(r, s', c, e) := feed_spec s input in
  r <> Fault /\ stream_wf s' /\ 0 <= c <= len input /\
  (r = Err NEED_MORE -> c = len input /\ e = event_zero) /\
  (r = Ret tt -> 0 < c /\ 0 <= ev_length e <= c /\
     (ev_length e = 0 /\ ev_message_end e = true \/
      ev_data e = ldn input (c - ev_length e) (ev_length e))).
Proof.
  intros Hwf Hi. unfold feed_spec. destruct (in_payload s) eqn:Hin.
  - pose proof (body_spec_props s 0 input Hwf Hin ltac:(lia)) as Hb. unfold body_spec in *.
    destruct input as [|b rest].
    { destruct Hb as [Hwf' _]. split_and!; try done; cbn [length]; lia. }
    destruct Hb as [Hwf' [(? & ? & _)|(_ & Hc & He & Hd)]]; [done|].
    split_and!; try done; try lia. intros _. split_and!; try lia. right.
    rewrite Hd, He, Z.sub_0_r, Z.sub_diag, ldn_Some by lia. by rewrite drop_0.
  - cbn zeta. pose proof (wf_used _ Hwf).
    destruct (Z.ltb_spec (len input) (4 - header_used s)) as [Hlt|Hge].
    { split_and!; try done; try lia. by apply header_part_wf. }
    destruct (header_verdict _ _ _) as [[l q]|e|] eqn:Ev.
    + assert (0 < 4 - header_used s) as Hmiss.
      { destruct (Z.eqb_spec (header_used s) 4) as [E4|]; [|lia].
        destruct (wf_refused _ Hwf Hin E4) as [e He]. exfalso.
        unfold header_with in Ev. rewrite E4 in Ev. change (Z.to_nat (4 - 4)) with 0%nat in Ev.
        rewrite take_0, splice_nil in Ev. congruence. }
      destruct (Z.eqb_spec l 0) as [->|Hl0].
      { split_and!; try done; try lia; [by apply header_empty_wf|].
        cbn. intros _. split_and!; try lia; by left. }
      pose proof (header_done_wf _ _ _ _ Hwf Hi Hin Hl0 Ev) as Hwf2.
      pose proof (body_spec_props _ (4 - header_used s) (drop (Z.to_nat (4 - header_used s)) input)
        Hwf2 eq_refl ltac:(lia)) as Hb.
      destruct (body_spec _ _ _) as [[[r s'] c] e]. rewrite length_drop in Hb.
      destruct Hb as [Hwf' [(-> & Hnil & -> & _ & ->)|(-> & Hc & He & Hd)]].
      * apply (f_equal length) in Hnil. rewrite length_drop in Hnil. cbn [length] in Hnil.
        split_and!; try done; try lia. intros _. split; [lia|done].
      * split_and!; try done; try lia. intros _. split_and!; try lia. right.
        rewrite Hd, He, ldn_Some by lia.
        replace (c - (c - (4 - header_used s))) with (4 - header_used s) by lia. done.
    + split_and!; try done; try lia; [by eapply header_refused_wf|].
      intros [= ->]. apply header_verdict_err in Ev. by destruct Ev.
    + by apply header_verdict_total in Ev.
Qed.

(** ** Splitting a chunk *)

(** Move the consumed count of a result by [n]. *)
Definition fed_shift (n : Z) (x : fed) : fed :=
  let '(r, s, c, e) := x in (r, s, n + c, e).

Lemma body_spec_nonempty s base rest :
  rest <> [] ->
  body_spec s base rest =
    (let k := Z.min (packet_payload_length s - payload_seen s) (len rest) in
     (Ret tt, payload_step s k, base + k, payload_event s (take (Z.to_nat k) rest))).
Proof. by destruct rest. Qed.

Lemma body_spec_shift s n base rest : body_spec s (n + base) rest = fed_shift n (body_spec s base rest).
Proof. destruct rest; cbn; [done|]. by rewrite Z.add_assoc. Qed.

Lemma header_with_app_ge s a b :
  4 - header_used s <= len a -> header_with s (a ++ b) = header_with s a.
Proof. intros. unfold header_with. by rewrite take_app_le by lia. Qed.

Lemma header_with_app_lt s a b x1 x2 x3 x4 x5 x6 :
  stream_wf s -> in_payload s = false -> len a < 4 - header_used s ->
  header_with s (a ++ b) =
  header_with (mk_stream (header_with s a) (header_used s + len a) x1 x2 x3 x4 x5 x6) b.
Proof.
  intros [Hh Hb Hu _ _ _ _] Hin Hl. unfold header_with. cbn [header header_used].
  rewrite (take_ge a) by lia. rewrite splice_app; [|lia|rewrite length_take; lia].
  f_equal. rewrite take_app_ge by lia. do 2 f_equal. lia.
Qed.

(** Feeding [a] and then [b], against feeding both at once. *)
Lemma feed_spec_need_more s a b s1 c e :
  stream_wf s -> bytes_ok a -> feed_spec s a = (Err NEED_MORE, s1, c, e) ->
  c = len a /\ feed_spec s (a ++ b) = fed_shift (len a) (feed_spec s1 b).
Proof.
  intros Hwf Ha Hf. pose proof (feed_spec_props s a Hwf Ha) as Hp. rewrite Hf in Hp.
  destruct Hp as (_ & _ & _ & Hn & _). destruct (Hn eq_refl) as [-> _]. split; [done|].
  revert Hf. unfold feed_spec at 1 2. pose proof (wf_used _ Hwf).
  destruct (in_payload s) eqn:Hin.
  { unfold body_spec at 1. destruct a; [|done]. inj. cbn [app length].
    unfold feed_spec. rewrite Hin. apply (body_spec_shift _ 0 0 b). }
  cbn zeta. rewrite length_app.
  destruct (Z.ltb_spec (len a) (4 - header_used s)) as [Hlt|Hge].
  { inj. unfold feed_spec. cbn [in_payload header_used max_payload expected_sequence
      packet_payload_length payload_seen sequence_id]. cbn zeta.
    rewrite <- (header_with_app_lt s a b) by done.
    destruct (Z.ltb_spec (len b) (4 - (header_used s + len a))),
      (Z.ltb_spec (Z.of_nat (length a + length b)) (4 - header_used s)); try lia.
    { cbn [fed_shift]. do 3 f_equal; [f_equal|]; lia. }
    destruct (header_verdict _ _ _) as [[l q]|e'|] eqn:Ev.
    - destruct (Z.eqb_spec l 0).
      { cbn [fed_shift]. do 2 f_equal. lia. }
      rewrite <- body_spec_shift. f_equal; [lia|].
      rewrite drop_app_ge by lia. f_equal. lia.
    - cbn [fed_shift]. do 2 f_equal. lia.
    - by apply header_verdict_total in Ev. }
  destruct (Z.ltb_spec (Z.of_nat (length a + length b)) (4 - header_used s)); [lia|].
  rewrite header_with_app_ge by done.
  destruct (header_verdict _ _ _) as [[l q]|e'|] eqn:Ev.
  - destruct (l =? 0); [done|]. unfold body_spec at 1.
    destruct (drop (Z.to_nat (4 - header_used s)) a) as [|? ?] eqn:Ed; [|done].
    inj. apply (f_equal length) in Ed. rewrite length_drop in Ed. cbn [length] in Ed.
    unfold feed_spec. cbn [in_payload]. rewrite <- body_spec_shift. f_equal; [lia|].
    rewrite drop_app_ge by lia. replace (Z.to_nat _ - length a)%nat with 0%nat by lia. done.
  - inj. apply header_verdict_err in Ev. by destruct Ev.
  - done.
Qed.

Lemma feed_spec_final s a b r s1 c e :
  stream_wf s -> feed_spec s a = (r, s1, c, e) ->
  r <> Err NEED_MORE -> (r = Ret tt -> ev_packet_end e = true) ->
  feed_spec s (a ++ b) = (r, s1, c, e).
Proof.
  intros Hwf Hf Hr He. revert Hf. unfold feed_spec. pose proof (wf_used _ Hwf).
  assert (forall s0 base rest, in_payload s0 = true -> body_spec s0 base rest = (r, s1, c, e) ->
    body_spec s0 base (rest ++ b) = (r, s1, c, e)) as Hbody.
  { intros s0 base rest Hin. unfold body_spec. destruct rest as [|x rest]; [congruence|].
    cbn [app]. rewrite app_comm_cons. set (l := x :: rest).
    inj. specialize (He eq_refl). unfold payload_event in He. cbn in He.
    apply Z.eqb_eq in He. rewrite length_take in He.
    assert (packet_payload_length s0 - payload_seen s0 <= len l) as Hle.
    { destruct (Z.le_gt_cases 0 (packet_payload_length s0 - payload_seen s0)); lia. }
    rewrite (Z.min_l _ (len l)) in * by done. rewrite length_app, Z.min_l by lia.
    by rewrite take_app_le by lia. }
  destruct (in_payload s) eqn:Hin; [by apply Hbody|].
  cbn zeta. rewrite length_app. destruct (Z.ltb_spec (len a) (4 - header_used s)); [congruence|].
  destruct (Z.ltb_spec (Z.of_nat (length a + length b)) (4 - header_used s)); [lia|].
  rewrite header_with_app_ge by done.
  destruct (header_verdict _ _ _) as [[l q]|e'|] eqn:Ev; [|done..].
  destruct (l =? 0); [done|]. rewrite drop_app_le by lia. by apply Hbody.
Qed.

(** A chunk that ends inside a payload: the next chunk continues the event. *)
Lemma feed_spec_continue s a b s1 c e :
  stream_wf s -> bytes_ok a -> b <> [] ->
  feed_spec s a = (Ret tt, s1, c, e) -> ev_packet_end e = false ->
  c = len a /\ in_payload s1 = true /\
  exists va vb e2 s2 k,
    ev_data e = Some va /\ feed_spec s1 b = (Ret tt, s2, k, e2) /\ ev_data e2 = Some vb /\
    ev_length e2 = len vb /\ ev_length e = len va /\
    ev_packet_payload_length e2 = ev_packet_payload_length e /\
    ev_offset e2 = ev_offset e + len va /\
    feed_spec s (a ++ b) =
      (Ret tt, s2, len a + k,
       mk_event (Some (va ++ vb)) (len va + len vb) (ev_offset e) (ev_packet_payload_length e)
         (ev_sequence_id e) (ev_packet_end e2) (ev_message_end e2)).
Proof.
  intros Hwf Ha Hb Hf He.
  assert (forall s0 base rest, stream_wf s0 -> in_payload s0 = true ->
    body_spec s0 base rest = (Ret tt, s1, c, e) ->
    c = base + len rest /\ in_payload s1 = true /\
    exists va vb e2 s2 k,
      ev_data e = Some va /\ feed_spec s1 b = (Ret tt, s2, k, e2) /\ ev_data e2 = Some vb /\
      ev_length e2 = len vb /\ ev_length e = len va /\
      ev_packet_payload_length e2 = ev_packet_payload_length e /\
      ev_offset e2 = ev_offset e + len va /\
      body_spec s0 base (rest ++ b) =
        (Ret tt, s2, base + len rest + k,
         mk_event (Some (va ++ vb)) (len va + len vb) (ev_offset e) (ev_packet_payload_length e)
           (ev_sequence_id e) (ev_packet_end e2) (ev_message_end e2))) as Hbody.
  { intros s0 base l Hwf0 Hin.
    assert (l = [] \/ l <> []) as [->|Hl] by (destruct l; auto); [done|].
    rewrite body_spec_nonempty by done. cbn zeta. inj.
    unfold payload_event in He. cbn in He. apply Z.eqb_neq in He. rewrite length_take in He.
    pose proof (wf_payload _ Hwf0 Hin) as (_ & Hseen & _).
    assert (len l < packet_payload_length s0 - payload_seen s0) as Hlt by lia.
    rewrite (Z.min_r _ (len l)) by lia. rewrite take_ge by lia.
    unfold payload_step. destruct (Z.eqb_spec (payload_seen s0 + len l) (packet_payload_length s0)); [lia|].
    split_and!; [done..|]. unfold feed_spec. cbn [in_payload].
    rewrite body_spec_nonempty by done. cbn [packet_payload_length payload_seen]. cbn zeta.
    set (k := Z.min (packet_payload_length s0 - (payload_seen s0 + len l)) (len b)).
    eexists _, _, _, _, _. split_and!; [done|done|done|done|done|done|done|].
    rewrite body_spec_nonempty by (by destruct l). cbn zeta. rewrite length_app.
    replace (Z.min (packet_payload_length s0 - payload_seen s0) (Z.of_nat (length l + length b)))
      with (len l + k) by lia.
    assert (0 <= k) by lia.
    rewrite take_app_ge by lia. replace (Z.to_nat (len l + k) - length l)%nat with (Z.to_nat k) by lia.
    unfold payload_step, payload_event. cbn [packet_payload_length payload_seen header header_used
      max_payload sequence_id expected_sequence ev_offset ev_packet_payload_length ev_sequence_id
      ev_packet_end ev_message_end].
    rewrite length_app. rewrite !length_take. rewrite Z.add_assoc.
    replace (Z.of_nat (length l + Z.to_nat k `min` length b)) with (len l + Z.of_nat (Z.to_nat k `min` length b)) by lia.
    by rewrite Z.add_0_l, !Z.add_assoc. }
  revert Hf. unfold feed_spec at 1 3. pose proof (wf_used _ Hwf).
  destruct (in_payload s) eqn:Hin.
  { intros Hf. destruct (Hbody s 0 a Hwf Hin Hf) as [-> Hrest]. done. }
  cbn zeta. rewrite length_app. destruct (Z.ltb_spec (len a) (4 - header_used s)); [done|].
  destruct (Z.ltb_spec (Z.of_nat (length a + length b)) (4 - header_used s)); [lia|].
  rewrite header_with_app_ge by done.
  destruct (header_verdict _ _ _) as [[l q]|e'|] eqn:Ev; [|done..].
  destruct (Z.eqb_spec l 0) as [|Hl0]; [inj; done|].
  rewrite drop_app_le by lia. intros Hf.
  pose proof (header_done_wf _ _ _ _ Hwf Ha Hin Hl0 Ev) as Hwf2.
  destruct (Hbody _ _ _ Hwf2 eq_refl Hf) as [Hc Hrest]. rewrite length_drop in *.
  replace (4 - header_used s + Z.of_nat (length a - Z.to_nat (4 - header_used s))) with (len a) in * by lia.
  done.
Qed.

(** A refused header keeps the stream in the refusing state. *)
Lemma feed_spec_refused s input s1 c e e0 :
  stream_wf s -> bytes_ok input -> feed_spec s input = (Err e, s1, c, e0) -> e <> NEED_MORE ->
  forall more, feed_spec s1 more = (Err e, s1, 0, event_zero).
Proof.
  intros Hwf Hi Hf He more. revert Hf. unfold feed_spec at 1. pose proof (wf_used _ Hwf).
  destruct (in_payload s) eqn:Hin.
  { unfold body_spec. destruct input; inj; done. }
  cbn zeta. destruct (Z.ltb_spec (len input) (4 - header_used s)); [inj; done|].
  destruct (header_verdict _ _ _) as [[l q]|e'|] eqn:Ev.
  - destruct (l =? 0); [done|]. unfold body_spec. destruct (drop _ _); inj; done.
  - inj. unfold feed_spec. cbn [in_payload header_used]. cbn zeta.
    change (4 - 4) with 0. destruct (Z.ltb_spec (len more) 0); [lia|].
    unfold header_with. cbn [header header_used max_payload expected_sequence].
    change (Z.to_nat (4 - 4)) with 0%nat. rewrite take_0, splice_nil.
    unfold header_with in Ev. by rewrite Ev.
  - done.
Qed.

(** ** Properties *)

(** One call of feed on the chunk [input], with the output cells at 0. *)
Definition feed (s : mysql_wire_packet_stream_t) (input : bytes) :=
  mysql_wire_packet_stream_feed (Some s) (Some input) (len input) (Some 0) (Some event_zero).

(** A stream that init accepted stays well formed under every feed of every
    byte string; the call never reads outside the chunk, never consumes more
    than it, asks for more input only after consuming all of it, and on success
    has consumed at least one byte and reports as event exactly the bytes of the
    chunk that end at the consumed position (or the end of an empty message). *)
Theorem packet_feed_invariant s input :
  stream_wf s -> bytes_ok input -> len input < 2 ^ 63 ->
  exists r s' c e,
    feed s input = (r, Some s', Some c, Some e) /\
    r <> Fault /\ stream_wf s' /\ 0 <= c <= len input /\
    (r = Err NEED_MORE -> c = len input /\ e = event_zero) /\
    (r = Ret tt -> 0 < c /\ 0 <= ev_length e <= c /\
       (ev_length e = 0 /\ ev_message_end e = true \/
        ev_data e = ldn input (c - ev_length e) (ev_length e))).
Proof.
  intros Hwf Hi Hl. unfold feed. rewrite stream_feed_spec by done.
  pose proof (feed_spec_props s input Hwf Hi) as Hp.
  destruct (feed_spec s input) as [[[r s'] c] e]. by eexists _, _, _, _.
Qed.

(** A packet the stream refuses (too long, or out of sequence) is refused for
    good: every later feed, whatever the chunk, gives the same error, consumes
    nothing, reports no event and leaves the stream as it is. *)
Theorem packet_feed_refused_sticky s input e s1 c ev more :
  stream_wf s -> bytes_ok input -> len input < 2 ^ 63 ->
  feed s input = (Err e, Some s1, Some c, Some ev) -> e <> NEED_MORE ->
  bytes_ok more -> len more < 2 ^ 63 ->
  feed s1 more = (Err e, Some s1, Some 0, Some event_zero).
Proof.
  intros Hwf Hi Hl Hf He Hm Hlm. unfold feed in *. rewrite stream_feed_spec in Hf by done.
  pose proof (feed_spec_props s input Hwf Hi) as Hp.
  destruct (feed_spec s input) as [[[r s'] c'] e'] eqn:Hs. revert Hf. inj.
  destruct Hp as (_ & Hwf1 & _). rewrite stream_feed_spec by done.
  by rewrite (feed_spec_refused _ _ _ _ _ _ Hwf Hi Hs He).
Qed.

(** C37. Where the transport cuts the byte stream does not matter. Take a chunk
    [a] and the bytes [b] after it. If feed wants more after [a], feeding [b]
    next does what feeding both at once does, with the consumed count moved by
    the length of [a]. If [a] completes a packet or is refused, the bytes after
    it change nothing. If [a] ends inside a payload, all of [a] was consumed and
    the event for [b] continues the one for [a]: both at once give one event
    with the two views joined, ending the packet and the message as the second
    one does. *)
Theorem packet_feed_split s a b r s1 c e :
  stream_wf s -> bytes_ok (a ++ b) -> len (a ++ b) < 2 ^ 63 ->
  feed s a = (r, Some s1, Some c, Some e) ->
  (r = Err NEED_MORE -> c = len a /\
     exists r2 s2 k e2, feed s1 b = (r2, Some s2, Some k, Some e2) /\
       feed s (a ++ b) = (r2, Some s2, Some (len a + k), Some e2)) /\
  (r <> Err NEED_MORE -> (r = Ret tt -> ev_packet_end e = true) ->
     feed s (a ++ b) = (r, Some s1, Some c, Some e)) /\
  (r = Ret tt -> ev_packet_end e = false -> b <> [] -> c = len a /\
     exists va vb e2 s2 k,
       ev_data e = Some va /\ feed s1 b = (Ret tt, Some s2, Some k, Some e2) /\
       ev_data e2 = Some vb /\ ev_offset e2 = ev_offset e + len va /\
       feed s (a ++ b) =
         (Ret tt, Some s2, Some (len a + k),
          Some (mk_event (Some (va ++ vb)) (len va + len vb) (ev_offset e)
            (ev_packet_payload_length e) (ev_sequence_id e) (ev_packet_end e2) (ev_message_end e2)))).
Proof.
  intros Hwf Hab Hl Hf. assert (bytes_ok a /\ bytes_ok b) as [Ha Hb] by (by apply Forall_app).
  unfold feed in *. rewrite length_app in Hl.
  rewrite (stream_feed_spec s (a ++ b)) by (rewrite ?length_app; done || lia).
  rewrite stream_feed_spec in Hf by (done || lia).
  pose proof (feed_spec_props s a Hwf Ha) as Hp.
  destruct (feed_spec s a) as [[[r' s'] c'] e'] eqn:Hs. revert Hf. inj.
  destruct Hp as (_ & Hwf1 & _). rewrite (stream_feed_spec s1 b) by (done || lia).
  split_and!.
  - intros ->. destruct (feed_spec_need_more s a b s1 c e Hwf Ha Hs) as [-> ->]. split; [done|].
    destruct (feed_spec s1 b) as [[[r2 s2] k] e2]. by eexists _, _, _, _.
  - intros Hr He. by rewrite (feed_spec_final s a b r s1 c e).
  - intros -> He Hne. destruct (feed_spec_continue s a b s1 c e Hwf Ha Hne Hs He)
      as (-> & _ & va & vb & e2 & s2 & k & H1 & H2 & H3 & _ & _ & _ & H4 & H5).
    split; [done|]. rewrite H2, H5. by eexists va, vb, e2, s2, k.
Qed.

Lemma packet_feed_split_witness :
  exists s1 e va vb e2 s2 k,
    feed (stream_start 0 1024) [3; 0; 0; 0; 97] = (Ret tt, Some s1, Some 5, Some e) /\
    ev_data e = Some va /\ feed s1 [98; 99] = (Ret tt, Some s2, Some k, Some e2) /\
    ev_data e2 = Some vb /\ ev_offset e2 = ev_offset e + len va /\
    feed (stream_start 0 1024) ([3; 0; 0; 0; 97] ++ [98; 99]) =
      (Ret tt, Some s2, Some (len [3; 0; 0; 0; 97] + k),
       Some (mk_event (Some (va ++ vb)) (len va + len vb) (ev_offset e)
         (ev_packet_payload_length e) (ev_sequence_id e) (ev_packet_end e2) (ev_message_end e2))).
Proof.
  edestruct (packet_feed_split (stream_start 0 1024) [3; 0; 0; 0; 97] [98; 99])
    as (_ & _ & Hc).
  - apply stream_start_wf; unfold MYSQL_WIRE_PACKET_MAX_PAYLOAD; lia.
  - by apply bytes_okb_ok.
  - cbn [length app]. lia.
  - vm_compute. reflexivity.
  - destruct (Hc eq_refl eq_refl ltac:(discriminate)) as (_ & va & vb & e2 & s2 & k & Hrest).
    do 2 eexists. exists va, vb, e2, s2, k. split; [vm_compute; reflexivity|exact Hrest].
Defined.
