(* ===== verification/Frame.v ===== *)
(** * Logical messages of the server (tidessql/server/mysql/frame.c, wire.h)

    The input collects the payloads of consecutive packets into one logical
    message in a buffer of fixed capacity; the encoder cuts a message into
    packets. *)

From S2P Require Import Prelude Codec Packet.

(** ** Data *)

(** The values of tdsql_mysql_status other than TDSQL_MYSQL_OK; the first four
    are those of mysql_wire_status_t. *)
Inductive tdsql_mysql_status : Type :=
| TDSQL_MYSQL_NEED_MORE
| TDSQL_MYSQL_INVALID
| TDSQL_MYSQL_LIMIT
| TDSQL_MYSQL_SEQUENCE
| TDSQL_MYSQL_UNSUPPORTED
| TDSQL_MYSQL_BUSY.

#[global] Instance tdsql_mysql_status_eq_dec : EqDecision tdsql_mysql_status.
Proof. solve_decision. Defined.

Definition of_wire (e : mysql_wire_status_t) : tdsql_mysql_status :=
  match e with
  | MYSQL_WIRE_STATUS_NEED_MORE => TDSQL_MYSQL_NEED_MORE
  | MYSQL_WIRE_STATUS_INVALID => TDSQL_MYSQL_INVALID
  | MYSQL_WIRE_STATUS_LIMIT => TDSQL_MYSQL_LIMIT
  | MYSQL_WIRE_STATUS_SEQUENCE => TDSQL_MYSQL_SEQUENCE
  end.

Abbreviation server_result A := (outcome tdsql_mysql_status A) (only parsing).

(** [failure] is None while the member holds TDSQL_MYSQL_OK. *)
Record tdsql_mysql_input : Type := mk_input {
  in_stream : mysql_wire_packet_stream_t;
  in_storage : ptr bytes;
  in_capacity : Z;
  in_used : Z;
  in_failure : option tdsql_mysql_status;
  in_ready : bool
}.

Record tdsql_mysql_output : Type := mk_output {
  out_data : ptr bytes;
  out_capacity : Z;
  out_size : Z
}.

(** ** Operations *)

Definition tdsql_mysql_input_init (out : ptr tdsql_mysql_input) (storage : ptr bytes)
    (capacity sequence : Z) : server_result unit * ptr tdsql_mysql_input :=
  match out, storage with
  | Some _, Some _ =>
      if capacity =? 0 then (Err TDSQL_MYSQL_INVALID, out)
      else
        match mysql_wire_packet_stream_init (Some (stream_start 0 0)) sequence
                MYSQL_WIRE_PACKET_MAX_PAYLOAD with
        | (Ret _, Some stream) =>
            (Ret tt, Some (mk_input stream storage capacity 0 None false))
        | (Err e, _) => (Err (of_wire e), out)
        | (_, _) => (Fault, out)
        end
  | _, _ => (Err TDSQL_MYSQL_INVALID, out)
  end.

Definition set_stream (i : tdsql_mysql_input) s :=
  mk_input s (in_storage i) (in_capacity i) (in_used i) (in_failure i) (in_ready i).
Definition set_failure (i : tdsql_mysql_input) f :=
  mk_input (in_stream i) (in_storage i) (in_capacity i) (in_used i) (Some f) (in_ready i).
Definition set_message (i : tdsql_mysql_input) storage used :=
  mk_input (in_stream i) storage (in_capacity i) used (in_failure i) (in_ready i).
Definition set_ready (i : tdsql_mysql_input) :=
  mk_input (in_stream i) (in_storage i) (in_capacity i) (in_used i) (in_failure i) true.

(** The announced bytes that are still to come, with those of this event. *)
Definition announced (event : mysql_wire_packet_event_t) (s : mysql_wire_packet_stream_t) : Z :=
  if negb (ev_packet_payload_length event =? 0)
  then u32 (ev_packet_payload_length event - ev_offset event)
  else if in_payload s then u32 (packet_payload_length s - payload_seen s)
  else 0.

(** What one turn of the loop decides: leave the function, or go on. *)
Inductive turn : Type :=
| Leave (r : server_result unit) (i : tdsql_mysql_input)
| Go (i : tdsql_mysql_input).

(** The body of the loop for an accepted status; [more] when it is NEED_MORE. *)
Definition accept_event (i : tdsql_mysql_input) (more : bool) (taken : Z)
    (event : mysql_wire_packet_event_t) : turn :=
  let room := size_sub (in_capacity i) (in_used i) in
  if (in_capacity i <? in_used i) || (room <? announced event (in_stream i))
     || (room <? ev_length event)
  then Leave (Err TDSQL_MYSQL_LIMIT) (set_failure i TDSQL_MYSQL_LIMIT)
  else
    let copied :=
      if ev_length event =? 0 then Some i
      else
        match in_storage i, ev_data event with
        | Some storage, Some data =>
            match ldn data 0 (ev_length event) with
            | Some view =>
                match stn storage (in_used i) view with
                | Some storage' =>
                    Some (set_message i (Some storage') (in_used i + ev_length event))
                | None => None
                end
            | None => None
            end
        | _, _ => None
        end in
    match copied with
    | None => Leave Fault i
    | Some i =>
        if ev_message_end event then Leave (Ret tt) (set_ready i)
        else if more then Leave (Err TDSQL_MYSQL_NEED_MORE) i
        else if taken =? 0
        then Leave (Err TDSQL_MYSQL_INVALID) (set_failure i TDSQL_MYSQL_INVALID)
        else Go i
    end.

(** The body of the loop after the stream was fed: [status], [taken] and
    [event] are what the stream reported, [i] has its new state. *)
Definition input_accept (i : tdsql_mysql_input) (status : wire_result unit) (taken : Z)
    (event : mysql_wire_packet_event_t) : turn :=
  match status with
  | Ret _ => accept_event i false taken event
  | Err MYSQL_WIRE_STATUS_NEED_MORE => accept_event i true taken event
  | Err e => Leave (Err (of_wire e)) (set_failure i (of_wire e))
  | Fault => Leave Fault i
  end.

(** The loop: the result, the input and the value of *consumed. Each turn that
    goes on takes at least one byte, so [size] turns are enough. *)
Fixpoint input_feed_loop (fuel : nat) (i : tdsql_mysql_input) (data : bytes) (size cursor : Z)
    : server_result unit * tdsql_mysql_input * Z :=
  if cursor <? size then
    match fuel with
    | O => (Fault, i, cursor)
    | S fuel =>
        match mysql_wire_packet_stream_feed (Some (in_stream i)) (Some (drop (Z.to_nat cursor) data))
                (size - cursor) (Some 0) (Some event_zero) with
        | (status, Some stream, Some taken, Some event) =>
            match input_accept (set_stream i stream) status taken event with
            | Leave r i' => (r, i', cursor + taken)
            | Go i' => input_feed_loop fuel i' data size (cursor + taken)
            end
        | _ => (Fault, i, cursor)
        end
    end
  else (Err TDSQL_MYSQL_NEED_MORE, i, cursor).

Definition tdsql_mysql_input_feed (input : ptr tdsql_mysql_input) (data : ptr bytes) (size : Z)
    (consumed : ptr Z) : server_result unit * ptr tdsql_mysql_input * ptr Z :=
  let consumed0 := match consumed with Some _ => Some 0 | None => None end in
  match input, consumed with
  | Some i, Some _ =>
      match in_storage i with
      | None => (Err TDSQL_MYSQL_INVALID, input, consumed0)
      | Some _ =>
          if in_capacity i =? 0 then (Err TDSQL_MYSQL_INVALID, input, consumed0)
          else if match data with None => negb (size =? 0) | Some _ => false end
          then (Err TDSQL_MYSQL_INVALID, input, consumed0)
          else
            match in_failure i with
            | Some f => (Err f, input, consumed0)
            | None =>
                if in_ready i then (Err TDSQL_MYSQL_BUSY, input, consumed0)
                else
                  let '(r, i', c) :=
                    input_feed_loop (Z.to_nat size) i (default [] data) size 0 in
                  (r, Some i', Some c)
            end
      end
  | _, _ => (Err TDSQL_MYSQL_INVALID, input, consumed0)
  end.

Definition tdsql_mysql_input_message (input : ptr tdsql_mysql_input) (out : ptr mysql_wire_bytes_t)
    : server_result unit * ptr mysql_wire_bytes_t :=
  match input, out with
  | Some i, Some _ =>
      match in_storage i with
      | None => (Err TDSQL_MYSQL_INVALID, out)
      | Some storage =>
          match in_failure i with
          | Some f => (Err f, out)
          | None =>
              if negb (in_ready i) then (Err TDSQL_MYSQL_NEED_MORE, out)
              else match ldn storage 0 (in_used i) with
                   | Some view => (Ret tt, Some (mk_wire_bytes (Some view) (in_used i) false))
                   | None => (Fault, out)
                   end
          end
      end
  | _, _ => (Err TDSQL_MYSQL_INVALID, out)
  end.

Definition tdsql_mysql_input_release (input : ptr tdsql_mysql_input) (sequence : Z)
    : server_result unit * ptr tdsql_mysql_input :=
  match input with
  | None => (Err TDSQL_MYSQL_INVALID, input)
  | Some i =>
      match in_storage i, in_failure i with
      | None, _ => (Err TDSQL_MYSQL_INVALID, input)
      | Some _, Some f => (Err f, input)
      | Some _, None =>
          if negb (in_ready i) then (Err TDSQL_MYSQL_BUSY, input)
          else
            match mysql_wire_packet_stream_reset (Some (in_stream i)) sequence with
            | Some stream =>
                (Ret tt, Some (mk_input stream (in_storage i) (in_capacity i) 0 None false))
            | None => (Fault, input)
            end
      end
  end.

(** One turn of the packet loop of frame_encode for each of the [n] packets:
    the buffer, position, offset and sequence, or the error of the writer. *)
Fixpoint frame_loop (n : nat) (payload : bytes) (size total : Z) (buf : bytes)
    (position offset sequence : Z) : server_result (bytes * Z) * bytes :=
  match n with
  | O => (Ret (buf, sequence), buf)
  | S n =>
      let remaining := size_sub size offset in
      let bytes := u32 (if MYSQL_WIRE_PACKET_MAX_PAYLOAD <? remaining
                        then MYSQL_WIRE_PACKET_MAX_PAYLOAD else remaining) in
      match mysql_wire_write_u24_le (Some buf) total (Some position) bytes with
      | (Ret _, Some buf, Some position) =>
          match st buf position sequence with
          | None => (Fault, buf)
          | Some buf =>
              let position := position + 1 in
              let sequence := u8 (sequence + 1) in
              if bytes =? 0
              then frame_loop n payload size total buf position offset sequence
              else
                match ldn payload offset bytes with
                | None => (Fault, buf)
                | Some part =>
                    match stn buf position part with
                    | None => (Fault, buf)
                    | Some buf =>
                        frame_loop n payload size total buf (position + bytes) (offset + bytes) sequence
                    end
                end
          end
      | (Err e, Some buf, _) => (Err (of_wire e), buf)
      | _ => (Fault, buf)
      end
  end.

Definition tdsql_mysql_frame_encode (payload : ptr bytes) (size sequence : Z)
    (out : ptr tdsql_mysql_output) (next : ptr Z)
    : server_result unit * ptr tdsql_mysql_output * ptr Z :=
  match out, next with
  | Some o, Some _ =>
      if match payload with None => negb (size =? 0) | Some _ => false end
      then (Err TDSQL_MYSQL_INVALID, out, next)
      else
        let packets := size / MYSQL_WIRE_PACKET_MAX_PAYLOAD + 1 in
        if size_sub SIZE_MAX size / MYSQL_WIRE_PACKET_HEADER_SIZE <? packets
        then (Err TDSQL_MYSQL_LIMIT, out, next)
        else
          let total := size + packets * MYSQL_WIRE_PACKET_HEADER_SIZE in
          if out_capacity o <? total then (Err TDSQL_MYSQL_LIMIT, out, next)
          else
            match out_data o with
            | Some buf =>
                match frame_loop (Z.to_nat packets) (default [] payload) size total buf 0 0 sequence with
                | (Ret (buf', sequence'), _) =>
                    (Ret tt, Some (mk_output (Some buf') (out_capacity o) total), Some sequence')
                | (Err e, buf') =>
                    (Err e, Some (mk_output (Some buf') (out_capacity o) (out_size o)), next)
                | (Fault, buf') => (Fault, out, next)
                end
            | None =>
                (Ret tt, Some (mk_output None (out_capacity o) total),
                 Some (u8 (sequence + u8 packets)))
            end
  | _, _ => (Err TDSQL_MYSQL_INVALID, out, next)
  end.

(** ** Well-formed inputs *)

Record input_wf (i : tdsql_mysql_input) : Prop := {
  iwf_stream : stream_wf (in_stream i);
  iwf_max : max_payload (in_stream i) = MYSQL_WIRE_PACKET_MAX_PAYLOAD;
  iwf_storage : exists storage, in_storage i = Some storage /\ in_capacity i <= len storage /\
    len storage < 2 ^ 63 /\ bytes_ok storage;
  iwf_capacity : 0 < in_capacity i;
  iwf_used : 0 <= in_used i <= in_capacity i;
  (** what the current packet still announces fits *)
  iwf_pending : in_failure i = None -> in_payload (in_stream i) = true ->
    packet_payload_length (in_stream i) - payload_seen (in_stream i) <= in_capacity i - in_used i
}.

(** An event that carries payload. *)
Record event_ok (e : mysql_wire_packet_event_t) (view : bytes) : Prop := {
  eok_data : ev_data e = Some view;
  eok_length : ev_length e = len view;
  eok_bounds : 0 <= ev_offset e;
  eok_view : 0 < len view <= ev_packet_payload_length e - ev_offset e;
  eok_max : ev_packet_payload_length e <= MYSQL_WIRE_PACKET_MAX_PAYLOAD
}.

Lemma payload_event_ok s view :
  in_body s -> 0 < len view <= packet_payload_length s - payload_seen s ->
  event_ok (payload_event s view) view.
Proof. intros (? & ? & ?) ?. split; cbn; try done; lia. Qed.

(** The two shapes of a successful feed. *)
Lemma feed_spec_ret s input s1 c e :
  stream_wf s -> bytes_ok input -> feed_spec s input = (Ret tt, s1, c, e) ->
  0 < c /\
  ((exists q, e = mk_event None 0 0 0 q true true /\ in_payload s1 = false) \/
   (exists s0 view, in_body s0 /\ 0 < len view <= packet_payload_length s0 - payload_seen s0 /\
      bytes_ok view /\ max_payload s0 = max_payload s /\
      s1 = payload_step s0 (len view) /\ e = payload_event s0 view)).
Proof.
  intros Hwf Hi Hf. pose proof (feed_spec_props s input Hwf Hi) as Hp. rewrite Hf in Hp.
  destruct Hp as (_ & _ & _ & _ & Hc). split; [by apply Hc|]. clear Hc. revert Hf.
  assert (forall s0 base rest, bytes_ok rest -> in_body s0 -> max_payload s0 = max_payload s ->
    body_spec s0 base rest = (Ret tt, s1, c, e) ->
    exists s0 view, in_body s0 /\ 0 < len view <= packet_payload_length s0 - payload_seen s0 /\
      bytes_ok view /\ max_payload s0 = max_payload s /\
      s1 = payload_step s0 (len view) /\ e = payload_event s0 view) as Hbody.
  { intros s0 base rest Hr Hb Hm. assert (rest = [] \/ rest <> []) as [->|Hne] by (destruct rest; auto);
      [done|]. rewrite body_spec_nonempty by done. cbn zeta. inj.
    assert (0 < len rest) by (destruct rest; cbn [length]; [done|lia]).
    set (k := Z.min _ _). destruct Hb as (? & ? & ?).
    assert (len (take (Z.to_nat k) rest) = k) as Hk by (rewrite length_take; lia).
    exists s0, (take (Z.to_nat k) rest). rewrite Hk.
    split_and!; try done; try lia. by apply Forall_take. }
  unfold feed_spec. destruct (in_payload s) eqn:Hin.
  { intros Hf. right. eapply Hbody; eauto using stream_wf_in_body. }
  cbn zeta. case_match; [done|]. destruct (header_verdict _ _ _) as [[l q]|?|] eqn:Ev; [|done..].
  destruct (Z.eqb_spec l 0) as [|Hl0]; [inj; left; eauto|].
  intros Hf. right. pose proof (header_done_wf _ _ _ _ Hwf Hi Hin Hl0 Ev) as Hwf2.
  eapply Hbody; [by apply Forall_drop|by apply stream_wf_in_body| |exact Hf]. done.
Qed.

(** ** One turn of the loop *)

(** Append [view] to the message. *)
Definition append_message (i : tdsql_mysql_input) (view : bytes) : tdsql_mysql_input :=
  set_message i (Some (splice (default [] (in_storage i)) (in_used i) view)) (in_used i + len view).

Definition over_limit (i : tdsql_mysql_input) (n : Z) : bool := in_capacity i - in_used i <? n.

Definition limit_turn (i : tdsql_mysql_input) : turn :=
  Leave (Err TDSQL_MYSQL_LIMIT) (set_failure i TDSQL_MYSQL_LIMIT).

(** The part of [input_wf] that a change of the stream keeps. *)
Definition input_mem (i : tdsql_mysql_input) : Prop :=
  (exists storage, in_storage i = Some storage /\ in_capacity i <= len storage /\
    len storage < 2 ^ 63 /\ bytes_ok storage) /\
  0 < in_capacity i /\ 0 <= in_used i <= in_capacity i.

Lemma input_wf_mem i : input_wf i -> input_mem i.
Proof. by intros []. Qed.

Lemma input_mem_stream i s : input_mem i -> input_mem (set_stream i s).
Proof. done. Qed.

Lemma input_mem_append i view :
  input_mem i -> bytes_ok view -> len view <= in_capacity i - in_used i ->
  input_mem (append_message i view).
Proof.
  intros ((storage & Hs & ? & ? & Hb) & ? & ?) Hv Hl.
  unfold input_mem, append_message. cbn. rewrite Hs. cbn. split; [|lia].
  exists (splice storage (in_used i) view). rewrite length_splice by lia.
  split_and!; try done. by apply splice_bytes.
Qed.

Lemma accept_view i taken e view :
  input_mem i -> event_ok e view -> 0 < taken ->
  accept_event i false taken e =
    if over_limit i (ev_packet_payload_length e - ev_offset e) then limit_turn i
    else if ev_message_end e then Leave (Ret tt) (set_ready (append_message i view))
    else Go (append_message i view).
Proof.
  intros ((storage & Hs & Hcap & Hmax & _) & Hpos & Hu) [Hd Hlen Hoff Hv Hm] Ht.
  unfold accept_event, announced, over_limit, limit_turn, append_message.
  unfold MYSQL_WIRE_PACKET_MAX_PAYLOAD in Hm.
  rewrite size_sub_small by lia. destruct (Z.ltb_spec (in_capacity i) (in_used i)); [lia|].
  cbn [orb]. destruct (Z.eqb_spec (ev_packet_payload_length e) 0); [lia|]. cbn [negb].
  rewrite u32_small by lia. rewrite Hlen, Hd, Hs.
  destruct (Z.ltb_spec (in_capacity i - in_used i) (ev_packet_payload_length e - ev_offset e)); [done|].
  cbn [orb]. destruct (Z.ltb_spec (in_capacity i - in_used i) (len view)); [lia|].
  destruct (Z.eqb_spec (len view) 0); [lia|].
  rewrite ldn_Some by lia. rewrite drop_0, take_ge by lia. rewrite stn_Some by lia.
  destruct (ev_message_end e); [done|]. destruct (Z.eqb_spec taken 0); [lia|done].
Qed.

Lemma accept_empty i more taken q :
  input_mem i -> in_payload (in_stream i) = false ->
  accept_event i more taken (mk_event None 0 0 0 q true true) = Leave (Ret tt) (set_ready i).
Proof.
  intros (_ & Hpos & Hu) Hin. unfold accept_event, announced. rewrite Hin. cbn.
  destruct (Z.ltb_spec (in_capacity i) (in_used i)); [lia|]. cbn.
  destruct (Z.ltb_spec (size_sub (in_capacity i) (in_used i)) 0) as [Hlt|]; [|done].
  pose proof (Z.mod_pos_bound (in_capacity i - in_used i) (2 ^ 64)). unfold size_sub, u64 in Hlt. lia.
Qed.

(** After a feed that asks for more. *)
Lemma accept_more i taken :
  input_mem i -> stream_wf (in_stream i) ->
  accept_event i true taken event_zero =
    if in_payload (in_stream i) &&
       over_limit i (packet_payload_length (in_stream i) - payload_seen (in_stream i))
    then limit_turn i else Leave (Err TDSQL_MYSQL_NEED_MORE) i.
Proof.
  intros ((storage & Hs & Hcap & Hmax & _) & Hpos & Hu) Hwf.
  unfold accept_event, announced, over_limit, limit_turn. cbn.
  rewrite size_sub_small by lia. destruct (Z.ltb_spec (in_capacity i) (in_used i)); [lia|].
  cbn [orb]. destruct (Z.ltb_spec (in_capacity i - in_used i) 0); [lia|]. rewrite orb_false_r.
  destruct (in_payload (in_stream i)) eqn:Hin; cbn [andb].
  - pose proof (stream_wf_in_body _ Hwf Hin) as (_ & ? & Hm). unfold MYSQL_WIRE_PACKET_MAX_PAYLOAD in Hm.
    rewrite u32_small by lia. done.
  - by destruct (Z.ltb_spec (in_capacity i - in_used i) 0); [lia|].
Qed.

(** ** The loop on the bytes that are left *)

Abbreviation fed_input := (server_result unit * tdsql_mysql_input * Z)%type (only parsing).

Definition input_shift (n : Z) (x : fed_input) : fed_input := let '(r, i, c) := x in (r, i, n + c).

Definition input_turn (i : tdsql_mysql_input) (rest : bytes) : turn * Z :=
  let '(status, s, taken, event) := feed_spec (in_stream i) rest in
  (input_accept (set_stream i s) status taken event, taken).

Fixpoint input_spec (fuel : nat) (i : tdsql_mysql_input) (rest : bytes) : fed_input :=
  match rest, fuel with
  | [], _ => (Err TDSQL_MYSQL_NEED_MORE, i, 0)
  | _, O => (Fault, i, 0)
  | _, S fuel =>
      match input_turn i rest with
      | (Leave r i', taken) => (r, i', taken)
      | (Go i', taken) => input_shift taken (input_spec fuel i' (drop (Z.to_nat taken) rest))
      end
  end.

Definition input_run (i : tdsql_mysql_input) (rest : bytes) : fed_input :=
  input_spec (length rest) i rest.

Lemma input_shift_shift a b x : input_shift a (input_shift b x) = input_shift (a + b) x.
Proof. destruct x as [[? ?] ?]. cbn. by rewrite Z.add_assoc. Qed.

Lemma input_shift_0 x : input_shift 0 x = x.
Proof. by destruct x as [[? ?] ?]. Qed.

Lemma payload_step_max s k : max_payload (payload_step s k) = max_payload s.
Proof. unfold payload_step. by case_match. Qed.

Lemma feed_spec_max s rest :
  let '(_, s1, _, _) := feed_spec s rest in max_payload s1 = max_payload s.
Proof.
  unfold feed_spec, body_spec. destruct (in_payload s).
  { destruct rest; [done|]. apply payload_step_max. }
  cbn zeta. destruct (_ <? _); [done|]. destruct (header_verdict _ _ _) as [[l q]|?|]; [|done..].
  destruct (l =? 0); [done|]. destruct (drop _ _); [done|]. by rewrite payload_step_max.
Qed.

Lemma input_wf_intro i :
  input_mem i -> stream_wf (in_stream i) ->
  max_payload (in_stream i) = MYSQL_WIRE_PACKET_MAX_PAYLOAD ->
  (in_failure i = None -> in_payload (in_stream i) = true ->
    packet_payload_length (in_stream i) - payload_seen (in_stream i) <= in_capacity i - in_used i) ->
  input_wf i.
Proof. intros (? & ? & ?) ? ? ?. by split. Qed.

(** What one turn keeps. *)
Definition turn_ok (i : tdsql_mysql_input) (rest : bytes) (t : turn) (taken : Z) : Prop :=
  match t with
  | Leave r i' =>
      r <> Fault /\ input_wf i' /\ 0 <= taken <= len rest /\
      (r = Ret tt -> in_ready i' = true /\ in_failure i' = None /\ 0 < taken) /\
      (r = Err TDSQL_MYSQL_NEED_MORE ->
         in_ready i' = in_ready i /\ in_failure i' = None /\ taken = len rest) /\
      (forall e, r = Err e -> e <> TDSQL_MYSQL_NEED_MORE -> in_failure i' = Some e)
  | Go i' =>
      input_wf i' /\ 0 < taken <= len rest /\ in_failure i' = None /\ in_ready i' = in_ready i
  end.

Lemma limit_turn_ok i rest taken :
  input_mem i -> stream_wf (in_stream i) ->
  max_payload (in_stream i) = MYSQL_WIRE_PACKET_MAX_PAYLOAD -> 0 <= taken <= len rest ->
  forall i0, turn_ok i0 rest (limit_turn i) taken.
Proof.
  intros. split_and!; try done; try lia.
  - by apply input_wf_intro.
  - by intros e [= <-] _.
Qed.

Lemma input_turn_wf i rest :
  input_wf i -> in_failure i = None -> bytes_ok rest ->
  let '(t, taken) := input_turn i rest in turn_ok i rest t taken.
Proof.
  intros Hwf Hf Hr. unfold input_turn. pose proof (iwf_stream _ Hwf) as Hs.
  pose proof (feed_spec_props (in_stream i) rest Hs Hr) as Hp.
  pose proof (feed_spec_max (in_stream i) rest) as Hmax.
  destruct (feed_spec (in_stream i) rest) as [[[r s1] c] e] eqn:Hfs.
  rewrite (iwf_max _ Hwf) in Hmax.
  destruct Hp as (Hnf & Hs1 & Hc & Hmore & _).
  pose proof (input_mem_stream _ s1 (input_wf_mem _ Hwf)) as Hmem.
  pose proof (fun Hpend => input_wf_intro _ Hmem Hs1 Hmax Hpend) as Hwf1.
  destruct r as [[]|e0|]; [| |done]; cbn [input_accept].
  - destruct (feed_spec_ret _ _ _ _ _ Hs Hr Hfs) as
      [Hc0 [(q & -> & Hin)|(s0 & view & Hb & Hv & Hvb & Hm0 & -> & ->)]].
    { rewrite accept_empty by done. split_and!; try done; try lia.
      apply input_wf_intro; cbn; try done. by rewrite Hin. }
    rewrite (accept_view _ _ _ _ Hmem (payload_event_ok _ _ Hb Hv) Hc0).
    unfold payload_event at 1 2. cbn [ev_packet_payload_length ev_offset].
    destruct (over_limit _ _) eqn:Ho; [by apply limit_turn_ok; try lia|].
    unfold over_limit in Ho. cbn in Ho. bsimp.
    assert (input_wf (append_message (set_stream i (payload_step s0 (len view))) view)) as Hwf2.
    { apply input_wf_intro; [apply input_mem_append; cbn; try done; lia|done|done|].
      cbn. intros _. unfold payload_step. case_match; cbn; [done|]. lia. }
    destruct (ev_message_end _).
    + split_and!; try done; try lia.
      apply input_wf_intro; [by apply input_wf_mem in Hwf2|done|done|].
      intros _ Hin. by apply (iwf_pending _ Hwf2).
    + split_and!; try done; lia.
  - destruct (decide (e0 = NEED_MORE)) as [->|Hne].
    + destruct (Hmore eq_refl) as [-> ->]. rewrite accept_more by done. cbn [in_stream set_stream].
      destruct (in_payload s1 && _) eqn:Ho; [by apply limit_turn_ok|].
      split_and!; try done; try lia.
      * apply Hwf1. cbn. intros _ Hin. rewrite Hin in Ho. cbn in Ho. unfold over_limit in Ho. cbn in Ho. blia.
      * by intros e [= <-].
    + replace (match e0 with NEED_MORE => _ | _ => _ end) with
        (Leave (Err (of_wire e0)) (set_failure (set_stream i s1) (of_wire e0))) by (by destruct e0).
      split_and!; try done; try lia.
      * by apply input_wf_intro.
      * by destruct e0.
      * by intros e' [= <-] _.
Qed.

Lemma input_spec_fuel f1 f2 i rest :
  input_wf i -> in_failure i = None -> bytes_ok rest ->
  (length rest <= f1)%nat -> (length rest <= f2)%nat -> input_spec f1 i rest = input_spec f2 i rest.
Proof.
  revert f2 i rest. induction f1 as [|f1 IH]; intros f2 i rest Hwf Hf Hr H1 H2.
  { destruct rest; [|cbn in H1; lia]. by destruct f2. }
  destruct rest as [|x rest]; [by destruct f2|]. destruct f2 as [|f2]; [cbn in H2; lia|].
  cbn [input_spec]. pose proof (input_turn_wf i (x :: rest) Hwf Hf Hr) as Ht.
  destruct (input_turn i (x :: rest)) as [[r i'|i'] taken]; [done|].
  destruct Ht as (Hwf' & Ht & Hf' & _). rewrite (IH f2); try done; rewrite ?length_drop; try lia.
  by apply Forall_drop.
Qed.

Lemma input_run_unfold i rest :
  input_wf i -> in_failure i = None -> bytes_ok rest -> rest <> [] ->
  input_run i rest =
    match input_turn i rest with
    | (Leave r i', taken) => (r, i', taken)
    | (Go i', taken) => input_shift taken (input_run i' (drop (Z.to_nat taken) rest))
    end.
Proof.
  intros Hwf Hf Hr Hne. unfold input_run at 1. destruct rest as [|x rest]; [done|].
  pose proof (input_turn_wf i (x :: rest) Hwf Hf Hr) as Ht. cbn [length input_spec].
  destruct (input_turn i (x :: rest)) as [[r i'|i'] taken]; [done|].
  destruct Ht as (Hwf' & Ht & Hf' & _). unfold input_run. f_equal.
  apply input_spec_fuel; try done; rewrite ?length_drop; cbn [length] in *; try lia.
  by apply Forall_drop.
Qed.

Lemma input_feed_loop_eq fuel i data cursor :
  input_wf i -> in_failure i = None -> bytes_ok data -> len data < 2 ^ 63 ->
  0 <= cursor <= len data ->
  input_feed_loop fuel i data (len data) cursor =
    input_shift cursor (input_spec fuel i (drop (Z.to_nat cursor) data)).
Proof.
  revert i cursor. induction fuel as [|fuel IH]; intros i cursor Hwf Hf Hd Hl Hc;
    cbn [input_feed_loop]; destruct (Z.ltb_spec cursor (len data)) as [Hlt|Hge].
  - destruct (drop _ _) eqn:Ed; [|cbn; by rewrite Z.add_0_r].
    apply (f_equal length) in Ed. rewrite length_drop in Ed. cbn in Ed. lia.
  - rewrite drop_ge by lia. cbn. by rewrite Z.add_0_r.
  - assert (bytes_ok (drop (Z.to_nat cursor) data)) as Hr by (by apply Forall_drop).
    assert (len (drop (Z.to_nat cursor) data) = len data - cursor) as Hlr
      by (rewrite length_drop; lia).
    rewrite <- Hlr, stream_feed_spec by (try done; try lia; apply Hwf).
    set (rest := drop (Z.to_nat cursor) data) in *.
    pose proof (input_turn_wf i rest Hwf Hf Hr) as Ht.
    assert (input_spec (S fuel) i rest = match input_turn i rest with
      | (Leave r i', taken) => (r, i', taken)
      | (Go i', taken) => input_shift taken (input_spec fuel i' (drop (Z.to_nat taken) rest))
      end) as -> by (destruct rest; [cbn in Hlr; lia|done]).
    unfold input_turn in *. destruct (feed_spec (in_stream i) rest) as [[[r s1] c] e].
    destruct (input_accept _ _ _ _) as [r' i'|i']; [done|].
    destruct Ht as (Hwf' & Ht & Hf' & _). rewrite IH by (done || lia).
    rewrite input_shift_shift. unfold rest. rewrite drop_drop. do 3 f_equal. lia.
  - rewrite drop_ge by lia. cbn. by rewrite Z.add_0_r.
Qed.

(** The invariant over the whole loop. *)
Lemma input_run_wf i rest :
  input_wf i -> in_failure i = None -> bytes_ok rest ->
  let '(r, i', c) := input_run i rest in turn_ok i rest (Leave r i') c.
Proof.
  intros Hwf Hf Hr. remember (length rest) as n eqn:Hn. revert i rest Hwf Hf Hr Hn.
  induction (lt_wf n) as [n _ IH]; intros i rest Hwf Hf Hr Hn.
  destruct (decide (rest = [])) as [->|Hne].
  { unfold input_run. cbn. split_and!; try done; try lia; by intros e [= <-]. }
  rewrite input_run_unfold by done. pose proof (input_turn_wf i rest Hwf Hf Hr) as Ht.
  destruct (input_turn i rest) as [[r i'|i'] taken]; [done|].
  destruct Ht as (Hwf' & Ht & Hf' & Hrd).
  assert (bytes_ok (drop (Z.to_nat taken) rest)) as Hr' by (by apply Forall_drop).
  pose proof (length_drop rest (Z.to_nat taken)) as Hl.
  assert (length (drop (Z.to_nat taken) rest) < n)%nat as Hlt by lia.
  specialize (IH _ Hlt _ _ Hwf' Hf' Hr' eq_refl).
  destruct (input_run i' _) as [[r2 i2] c2]. cbn [input_shift].
  destruct IH as (H1 & H2 & H3 & H4 & H5 & H6). split_and!; try done; try lia.
  - intros Hret. destruct (H4 Hret) as (? & ? & ?). split_and!; try done. lia.
  - intros Hmore. destruct (H5 Hmore) as (? & ? & ?). split_and!; try done; [congruence|lia].
Qed.

(** ** Splitting the input *)

Lemma append_append i s1 s2 va vb :
  input_mem i -> len va + len vb <= in_capacity i - in_used i ->
  append_message (set_stream (append_message (set_stream i s1) va) s2) vb =
  append_message (set_stream i s2) (va ++ vb).
Proof.
  intros ((storage & Hs & ? & ? & Hb) & ? & ?) Hl.
  unfold append_message. cbn. rewrite Hs. cbn. rewrite splice_app by lia.
  rewrite length_app. unfold set_message, set_stream. cbn. f_equal. lia.
Qed.

(** A turn on [a] that ends inside a payload, and the turn after it. *)
Lemma turn_continue i a b s1 c e va e2 vb s2 k :
  input_wf i -> bytes_ok va -> 0 < c -> 0 < k -> event_ok e va -> event_ok e2 vb ->
  feed_spec (in_stream i) a = (Ret tt, s1, c, e) -> ev_packet_end e = false ->
  ev_message_end e = false ->
  feed_spec s1 b = (Ret tt, s2, k, e2) ->
  ev_packet_payload_length e2 = ev_packet_payload_length e ->
  ev_offset e2 = ev_offset e + len va ->
  feed_spec (in_stream i) (a ++ b) =
    (Ret tt, s2, len a + k,
     mk_event (Some (va ++ vb)) (len va + len vb) (ev_offset e) (ev_packet_payload_length e)
       (ev_sequence_id e) (ev_packet_end e2) (ev_message_end e2)) ->
  match input_turn i a with
  | (Go i1, _) =>
      input_turn i (a ++ b) = (fst (input_turn i1 b), len a + snd (input_turn i1 b))
  | (Leave r _, _) =>
      r = Err TDSQL_MYSQL_LIMIT /\ exists i2 t2, input_turn i (a ++ b) = (Leave r i2, t2)
  end.
Proof.
  intros Hwf Hva Hc Hk He He2 Hfa Hend Hmsg Hfb Hppl Hoff Hfab.
  pose proof (input_mem_stream _ s1 (input_wf_mem _ Hwf)) as Hm1.
  pose proof (input_mem_stream _ s2 (input_wf_mem _ Hwf)) as Hm2.
  destruct (eok_view _ _ He), (eok_view _ _ He2).
  set (ev := mk_event _ _ _ _ _ _ _) in Hfab.
  assert (event_ok ev (va ++ vb)) as Hev.
  { destruct He, He2. split; cbn; rewrite ?length_app; try done; lia. }
  unfold input_turn. rewrite Hfa, Hfab. cbn [input_accept].
  rewrite (accept_view _ _ _ _ Hm1 He Hc), Hmsg, (accept_view _ (len a + k) _ _ Hm2 Hev) by lia.
  cbn [ev_packet_payload_length ev_offset ev_message_end ev].
  change (over_limit (set_stream i s1)) with (over_limit i).
  change (over_limit (set_stream i s2)) with (over_limit i).
  destruct (over_limit i _) eqn:Ho; [split; [done|]; by do 2 eexists|].
  unfold over_limit in Ho. bsimp.
  assert (input_mem (append_message (set_stream i s1) va)) as Hm3.
  { apply input_mem_append; [done..|]. cbn. lia. }
  apply (input_mem_stream _ s2) in Hm3.
  change (in_stream (append_message (set_stream i s1) va)) with s1. rewrite Hfb.
  cbn [fst snd input_accept]. f_equal. rewrite (accept_view _ k _ _ Hm3 He2 Hk).
  unfold over_limit. cbn [in_capacity in_used append_message set_message set_stream].
  destruct (Z.ltb_spec (in_capacity i - (in_used i + len va))
    (ev_packet_payload_length e2 - ev_offset e2)); [lia|].
  by rewrite append_append; [|apply input_wf_mem|lia].
Qed.

Lemma input_accept_taken i r t t' e :
  (r = Ret tt -> 0 < t /\ 0 < t') -> input_accept i r t e = input_accept i r t' e.
Proof.
  intros H. destruct r as [[]|e0|]; [|destruct e0; try done|done]; cbn [input_accept].
  - destruct (H eq_refl). unfold accept_event.
    destruct (Z.eqb_spec t 0), (Z.eqb_spec t' 0); [lia..|done].
Qed.

(** What the bytes [b] after [a] change in the first turn. *)
Definition turn_split_ok (i : tdsql_mysql_input) (a b : bytes) : Prop :=
  match input_turn i a with
  | (Leave (Err TDSQL_MYSQL_NEED_MORE) i1, t) =>
      t = len a /\ input_turn i (a ++ b) = (fst (input_turn i1 b), len a + snd (input_turn i1 b))
  | (Leave (Err e) _, _) => exists i2 t2, input_turn i (a ++ b) = (Leave (Err e) i2, t2)
  | (Leave _ _, _) => input_turn i (a ++ b) = input_turn i a
  | (Go i1, t) =>
      input_turn i (a ++ b) = (Go i1, t) \/
      t = len a /\ input_turn i (a ++ b) = (fst (input_turn i1 b), len a + snd (input_turn i1 b))
  end.

Lemma turn_split_more i a b s1 c e :
  input_wf i -> bytes_ok a -> bytes_ok b -> b <> [] ->
  feed_spec (in_stream i) a = (Err NEED_MORE, s1, c, e) -> turn_split_ok i a b.
Proof.
  intros Hwf Ha Hb Hne Hfs. pose proof (iwf_stream _ Hwf) as Hs.
  destruct (feed_spec_need_more _ _ b _ _ _ Hs Ha Hfs) as [-> Hab].
  pose proof (feed_spec_props _ a Hs Ha) as Hp. rewrite Hfs in Hp.
  destruct Hp as (_ & Hs1 & _ & Hev & _). destruct (Hev eq_refl) as [_ ->].
  pose proof (input_mem_stream _ s1 (input_wf_mem _ Hwf)) as Hm1.
  pose proof (feed_spec_props s1 b Hs1 Hb) as Hp2.
  unfold turn_split_ok, input_turn. rewrite Hfs, Hab. cbn [input_accept].
  rewrite accept_more by done. cbn [in_stream set_stream].
  destruct (in_payload s1 && _) eqn:Ho.
  - apply andb_true_iff in Ho as [Hin Ho]. cbn [limit_turn].
    destruct (feed_spec s1 b) as [[[r2 s2] k] e2] eqn:Hfb. cbn [fed_shift].
    unfold feed_spec in Hfb. rewrite Hin in Hfb. rewrite body_spec_nonempty in Hfb by done.
    revert Hfb. cbn zeta. inj. cbn [input_accept].
    set (n := Z.min _ _). pose proof (stream_wf_in_body _ Hs1 Hin) as Hbody.
    assert (0 < len b) by (destruct b; cbn [length]; [done|lia]).
    assert (len (take (Z.to_nat n) b) = n) as Hn by (rewrite length_take; lia).
    pose proof (input_mem_stream _ (payload_step s1 n) (input_wf_mem _ Hwf)) as Hm2.
    assert (0 < n <= packet_payload_length s1 - payload_seen s1) by (destruct Hbody; lia).
    rewrite (accept_view _ _ _ (take (Z.to_nat n) b) Hm2) by
      (try apply payload_event_ok; rewrite ?Hn; done || lia).
    unfold payload_event at 1 2. cbn [ev_packet_payload_length ev_offset].
    change (over_limit (set_stream i _)) with (over_limit i) in *. rewrite Ho. by do 2 eexists.
  - split; [done|]. cbn [in_stream set_stream]. destruct (feed_spec s1 b) as [[[r2 s2] k] e2]. cbn [fed_shift fst snd].
    f_equal. apply input_accept_taken. destruct Hp2 as (_ & _ & Hk & _ & Hpos).
    intros ->. destruct (Hpos eq_refl). lia.
Qed.

Lemma input_turn_split i a b :
  input_wf i -> in_failure i = None -> bytes_ok a -> bytes_ok b -> b <> [] -> turn_split_ok i a b.
Proof.
  intros Hwf Hf Ha Hb Hne. pose proof (iwf_stream _ Hwf) as Hs.
  destruct (feed_spec (in_stream i) a) as [[[r s1] c] e] eqn:Hfs.
  destruct (decide (r = Err NEED_MORE)) as [->|Hnm]; [by eapply turn_split_more|].
  destruct (decide (r = Ret tt /\ ev_packet_end e = false)) as [[-> He]|Hfin].
  - destruct (feed_spec_continue _ _ _ _ _ _ Hs Ha Hne Hfs He)
      as (-> & Hin & va & vb & e2 & s2 & k & Hda & Hfb & Hdb & Hlb & Hla & Hppl & Hoff & Hab).
    destruct (feed_spec_ret _ _ _ _ _ Hs Ha Hfs) as
      [Hc [(q & -> & _)|(s0 & v & Hb0 & Hv & Hvb & _ & -> & ->)]]; [done|].
    cbn in Hda. injection Hda as <-.
    pose proof (feed_spec_props _ a Hs Ha) as Hp. rewrite Hfs in Hp. destruct Hp as (_ & Hs1 & _).
    destruct (feed_spec_ret _ _ _ _ _ Hs1 Hb Hfb) as
      [Hk [(q & -> & _)|(s3 & v3 & Hb3 & Hv3 & Hvb3 & _ & -> & ->)]]; [done|].
    cbn in Hdb. injection Hdb as <-.
    assert (ev_message_end (payload_event s0 v) = false) as Hmsg.
    { unfold payload_event in *. cbn in *. by rewrite He. }
    pose proof (turn_continue i a b _ _ _ _ _ _ _ k Hwf Hvb Hc Hk (payload_event_ok _ _ Hb0 Hv)
      (payload_event_ok _ _ Hb3 Hv3) Hfs He Hmsg Hfb Hppl Hoff Hab) as Ht.
    unfold turn_split_ok. assert (snd (input_turn i a) = len a) as Htk.
    { unfold input_turn. by rewrite Hfs. }
    destruct (input_turn i a) as [[r i1|i1] t]; cbn in Htk.
    + destruct Ht as [-> (i2 & t2 & ->)]. by do 2 eexists.
    + right. done.
  - assert (feed_spec (in_stream i) (a ++ b) = (r, s1, c, e)) as Hab.
    { eapply feed_spec_final; try done. intros ->. destruct (ev_packet_end e); [done|]. by destruct Hfin. }
    assert (input_turn i (a ++ b) = input_turn i a) as Heq.
    { unfold input_turn. by rewrite Hab, Hfs. }
    unfold turn_split_ok. rewrite Heq. pose proof (input_turn_wf i a Hwf Hf Ha) as Ht.
    destruct (input_turn i a) as [[r' i1|i1] t] eqn:Hta; [|by left].
    destruct r' as [|e'|]; [done| |done].
    destruct (decide (e' = TDSQL_MYSQL_NEED_MORE)) as [->|]; [|destruct e'; try done; by do 2 eexists].
    exfalso. revert Hta. unfold input_turn. rewrite Hfs.
    destruct r as [[]|e0|]; [|destruct e0; done|done]. cbn [input_accept].
    unfold accept_event. repeat case_match; done.
Qed.

Lemma input_run_nil i : input_run i [] = (Err TDSQL_MYSQL_NEED_MORE, i, 0).
Proof. done. Qed.

(** What the bytes [b] after [a] change in a whole feed. *)
Definition run_split_ok (i : tdsql_mysql_input) (a b : bytes) (x : fed_input) : Prop :=
  match x with
  | (Err TDSQL_MYSQL_NEED_MORE, i1, _) =>
      input_run i (a ++ b) = input_shift (len a) (input_run i1 b)
  | (Err e, _, _) => exists i2 c2, input_run i (a ++ b) = (Err e, i2, c2)
  | (_, _, _) => input_run i (a ++ b) = x
  end.

Lemma run_split_shift i i1 a b t x :
  0 <= t <= len a ->
  input_run i (a ++ b) = input_shift t (input_run i1 (drop (Z.to_nat t) a ++ b)) ->
  run_split_ok i1 (drop (Z.to_nat t) a) b x -> run_split_ok i a b (input_shift t x).
Proof.
  intros Ht Hrun. destruct x as [[r i2] c]. cbn [input_shift]. unfold run_split_ok. rewrite Hrun.
  destruct r as [|e|]; [by intros ->| |by intros ->].
  destruct (decide (e = TDSQL_MYSQL_NEED_MORE)) as [->|Hne].
  - intros ->. rewrite input_shift_shift, length_drop. f_equal. lia.
  - destruct e; try done; intros (i3 & c3 & ->); by do 2 eexists.
Qed.

Lemma input_run_split i a b :
  input_wf i -> in_failure i = None -> bytes_ok a -> bytes_ok b ->
  run_split_ok i a b (input_run i a).
Proof.
  intros Hwf Hf Ha Hb. destruct (decide (b = [])) as [->|Hbne].
  { unfold run_split_ok. rewrite app_nil_r. pose proof (input_run_wf i a Hwf Hf Ha) as Hw.
    destruct (input_run i a) as [[[|e|] i1] c]; [done| |done].
    destruct e; try (by do 2 eexists). destruct Hw as (_ & _ & _ & _ & Hc & _).
    destruct (Hc eq_refl) as (_ & _ & ->). rewrite input_run_nil. cbn. by rewrite Z.add_0_r. }
  remember (length a) as n eqn:Hn. revert i a Hwf Hf Ha Hn.
  induction (lt_wf n) as [n _ IH]; intros i a Hwf Hf Ha Hn.
  destruct (decide (a = [])) as [->|Hane].
  { rewrite input_run_nil. cbn. by rewrite input_shift_0. }
  pose proof (input_turn_wf i a Hwf Hf Ha) as Ht.
  pose proof (input_turn_split i a b Hwf Hf Ha Hb Hbne) as Hsp. unfold turn_split_ok in Hsp.
  assert (bytes_ok (a ++ b)) as Hab by (by apply Forall_app).
  assert (a ++ b <> []) as Habne by (by destruct a).
  rewrite (input_run_unfold i a) by done. pose proof (input_run_unfold i (a ++ b) Hwf Hf Hab Habne) as Hrun.
  (* the turn on [a] and the one on [b] are one turn on both *)
  assert (forall i1, input_wf i1 -> in_failure i1 = None ->
    input_turn i (a ++ b) = (fst (input_turn i1 b), len a + snd (input_turn i1 b)) ->
    input_run i (a ++ b) = input_shift (len a) (input_run i1 b)) as Hmerge.
  { intros i1 Hw1 Hf1 Heq. rewrite Hrun, Heq, (input_run_unfold i1 b) by done.
    pose proof (input_turn_wf i1 b Hw1 Hf1 Hb) as Ht1.
    destruct (input_turn i1 b) as [[r i2|i2] k]; cbn [fst snd]; [done|].
    destruct Ht1 as (_ & Hk & _). rewrite input_shift_shift. do 2 f_equal.
    rewrite drop_app_ge by lia. f_equal. lia. }
  destruct (input_turn i a) as [[r i1|i1] t].
  - destruct Ht as (Hnf & Hw1 & _ & _ & Hmore & _). destruct r as [[]|e|]; [| |done].
    + unfold run_split_ok. by rewrite Hrun, Hsp.
    + unfold run_split_ok. destruct e;
        try (destruct Hsp as (i2 & t2 & Heq); rewrite Hrun, Heq; by do 2 eexists).
      destruct Hsp as [_ Heq]. destruct (Hmore eq_refl) as (_ & Hf1 & _). by apply Hmerge.
  - destruct Ht as (Hw1 & Ht & Hf1 & _). destruct Hsp as [Heq|[-> Heq]].
    + assert (bytes_ok (drop (Z.to_nat t) a)) as Hd by (by apply Forall_drop).
      eapply run_split_shift; [lia| |eapply IH; try done; rewrite ?length_drop; lia].
      rewrite Hrun, Heq. by rewrite drop_app_le by lia.
    + rewrite Nat2Z.id, drop_all, input_run_nil. cbn. by apply Hmerge.
Qed.

(** ** The packets of a message *)

(** [n] packets that carry [payload], the first with sequence number [seq]. *)
Fixpoint frames (n : nat) (payload : bytes) (seq : Z) : bytes :=
  match n with
  | O => []
  | S n =>
      let k := Z.to_nat (Z.min MYSQL_WIRE_PACKET_MAX_PAYLOAD (len payload)) in
      le_bytes 3 (Z.of_nat k) ++ [seq] ++ take k payload ++ frames n (drop k payload) (u8 (seq + 1))
  end.

(** Full packets followed by one that is shorter than the maximum. *)
Definition frame_count (payload : bytes) : Z := len payload / MYSQL_WIRE_PACKET_MAX_PAYLOAD + 1.

Definition frame_bytes (payload : bytes) (seq : Z) : bytes :=
  frames (Z.to_nat (frame_count payload)) payload seq.

Lemma frames_length n payload seq :
  len payload <= Z.of_nat n * MYSQL_WIRE_PACKET_MAX_PAYLOAD ->
  len (frames n payload seq) = len payload + 4 * Z.of_nat n.
Proof.
  unfold MYSQL_WIRE_PACKET_MAX_PAYLOAD. revert payload seq.
  induction n as [|n IH]; intros payload seq Hl; cbn [frames].
  { destruct payload; cbn [length] in *; lia. }
  unfold MYSQL_WIRE_PACKET_MAX_PAYLOAD.
  set (k := Z.to_nat (Z.min 0xffffff (len payload))).
  rewrite !length_app, length_le_bytes, length_take. cbn [length].
  specialize (IH (drop k payload) (u8 (seq + 1))). rewrite length_drop in IH. lia.
Qed.

Lemma frame_count_bounds payload :
  let n := frame_count payload in
  1 <= n /\ (n - 1) * MYSQL_WIRE_PACKET_MAX_PAYLOAD <= len payload < n * MYSQL_WIRE_PACKET_MAX_PAYLOAD.
Proof.
  cbn zeta. unfold frame_count, MYSQL_WIRE_PACKET_MAX_PAYLOAD.
  pose proof (Z.div_mod (len payload) 0xffffff ltac:(lia)).
  pose proof (Z.mod_pos_bound (len payload) 0xffffff ltac:(lia)).
  pose proof (Z.div_pos (len payload) 0xffffff ltac:(lia) ltac:(lia)). lia.
Qed.

Lemma frame_bytes_length payload seq :
  len (frame_bytes payload seq) = len payload + 4 * frame_count payload.
Proof.
  pose proof (frame_count_bounds payload) as Hn. cbn zeta in Hn.
  unfold frame_bytes. rewrite frames_length; lia.
Qed.

Lemma frames_bytes_ok n payload seq :
  bytes_ok payload -> 0 <= seq < 256 -> bytes_ok (frames n payload seq).
Proof.
  revert payload seq. induction n as [|n IH]; intros payload seq Hp Hs; cbn [frames].
  { apply Forall_nil_2. }
  unfold bytes_ok. rewrite !Forall_app. split_and!.
  - apply le_bytes_ok.
  - apply Forall_cons_2; [done|apply Forall_nil_2].
  - by apply Forall_take.
  - apply IH; [by apply Forall_drop|apply u8_range].
Qed.

(** ** The encoder writes these packets *)

Lemma u8_u8_add a b : u8 (u8 a + b) = u8 (a + b).
Proof. unfold u8. apply Zplus_mod_idemp_l. Qed.

Lemma frame_loop_eq n payload total buf pos off seq :
  len payload < 2 ^ 62 -> 0 <= pos -> 0 <= off <= len payload -> 0 <= seq < 256 ->
  len payload - off <= Z.of_nat n * MYSQL_WIRE_PACKET_MAX_PAYLOAD ->
  pos + (len payload - off) + 4 * Z.of_nat n <= total -> total <= len buf -> len buf < 2 ^ 63 ->
  frame_loop n payload (len payload) total buf pos off seq =
    let buf' := splice buf pos (frames n (drop (Z.to_nat off) payload) seq) in
    (Ret (buf', u8 (seq + Z.of_nat n)), buf').
Proof.
  unfold MYSQL_WIRE_PACKET_MAX_PAYLOAD.
  revert buf pos off seq. induction n as [|n IH]; intros buf pos off seq Hp Hpos Hoff Hs Hn Ht Hb Hm;
    cbn [frame_loop frames].
  { cbn zeta. rewrite splice_nil, Z.add_0_r. by rewrite u8_small by lia. }
  unfold MYSQL_WIRE_PACKET_MAX_PAYLOAD. cbn zeta. rewrite size_sub_small by lia.
  rewrite length_drop. replace (Z.of_nat (length payload - Z.to_nat off)) with (len payload - off) by lia.
  set (k := Z.min 0xffffff (len payload - off)).
  replace (u32 (if 0xffffff <? len payload - off then 0xffffff else len payload - off)) with k
    by (destruct (Z.ltb_spec 0xffffff (len payload - off)); rewrite u32_small; lia).
  unfold mysql_wire_write_u24_le. destruct (Z.ltb_spec 0xffffff k); [lia|].
  rewrite write_le_eq by (unfold enc_ok; cbn; lia). destruct (Z.leb_spec (pos + 3) total); [|lia].
  change (Z.to_nat 3) with 3%nat. rewrite st_splice
    by (rewrite length_splice; rewrite ?length_le_bytes; lia).
  replace (splice (splice buf pos (le_bytes 3 k)) (pos + 3) [seq])
    with (splice buf pos (le_bytes 3 k ++ [seq])).
  2: { rewrite <- splice_app by (rewrite ?length_le_bytes; cbn [length]; lia).
       by rewrite length_le_bytes. }
  set (hdr := le_bytes 3 k ++ [seq]).
  assert (len hdr = 4) as Hh by (unfold hdr; rewrite length_app, length_le_bytes; done).
  set (part := take (Z.to_nat k) (drop (Z.to_nat off) payload)).
  assert (len part = k) as Hpart by (unfold part; rewrite length_take, length_drop; lia).
  replace (pos + 3 + 1) with (pos + len hdr) by lia.
  rewrite ldn_Some by lia. fold part.
  rewrite stn_Some by (rewrite ?length_splice; lia). rewrite splice_app by lia.
  replace (if k =? 0 then _ else _) with (frame_loop n payload (len payload) total
    (splice buf pos (hdr ++ part)) (pos + len hdr + k) (off + k) (u8 (seq + 1))).
  2: { destruct (Z.eqb_spec k 0) as [Hk|]; [|done].
       assert (part = []) as -> by (destruct part; [done|cbn [length] in Hpart; lia]).
       by rewrite app_nil_r, Hk, !Z.add_0_r. }
  rewrite IH; try lia.
  - cbn zeta. rewrite u8_u8_add. replace (seq + 1 + Z.of_nat n) with (seq + Z.of_nat (S n)) by lia.
    replace (pos + len hdr + k) with (pos + len (hdr ++ part)) by (rewrite length_app; lia).
    rewrite splice_app; [|lia|].
    + unfold hdr. rewrite <- !app_assoc. rewrite drop_drop.
      rewrite Z2Nat.id by lia. replace (Z.to_nat (off + k)) with (Z.to_nat off + Z.to_nat k)%nat by lia.
      done.
    + rewrite length_app. rewrite (frames_length n)
        by (unfold MYSQL_WIRE_PACKET_MAX_PAYLOAD; rewrite length_drop; lia).
      rewrite length_drop. lia.
  - apply u8_range.
  - rewrite length_splice; rewrite ?length_app; lia.
  - rewrite length_splice; rewrite ?length_app; lia.
Qed.

(** What the encoder returns for a buffer, and when it only measures. *)
Definition encoded (o : tdsql_mysql_output) (payload : bytes) (seq : Z) : tdsql_mysql_output :=
  mk_output (match out_data o with
             | Some buf => Some (splice buf 0 (frame_bytes payload seq))
             | None => None
             end) (out_capacity o) (len (frame_bytes payload seq)).

(** A caller's output: the buffer, when there is one, holds the capacity. *)
Definition output_ok (o : tdsql_mysql_output) : Prop :=
  0 <= out_capacity o < 2 ^ 63 /\
  forall buf, out_data o = Some buf -> out_capacity o <= len buf < 2 ^ 63.

Lemma frame_encode_eq payload seq o nx :
  len payload < 2 ^ 62 -> 0 <= seq < 256 -> output_ok o ->
  tdsql_mysql_frame_encode (Some payload) (len payload) seq (Some o) (Some nx) =
    if out_capacity o <? len (frame_bytes payload seq)
    then (Err TDSQL_MYSQL_LIMIT, Some o, Some nx)
    else (Ret tt, Some (encoded o payload seq), Some (u8 (seq + frame_count payload))).
Proof.
  intros Hp Hs [Hcap Hbuf]. unfold tdsql_mysql_frame_encode. cbn [default].
  change (len payload / MYSQL_WIRE_PACKET_MAX_PAYLOAD + 1) with (frame_count payload).
  pose proof (frame_count_bounds payload) as (Hn1 & Hn2 & Hn3).
  rewrite frame_bytes_length. unfold MYSQL_WIRE_PACKET_HEADER_SIZE, MYSQL_WIRE_PACKET_MAX_PAYLOAD in *.
  rewrite size_sub_small by (unfold SIZE_MAX; lia).
  destruct (Z.ltb_spec ((SIZE_MAX - len payload) / 4) (frame_count payload)) as [Hlt|_].
  { pose proof (Z.div_le_mono (3 * 2 ^ 62 - 1) (SIZE_MAX - len payload) 4 ltac:(lia)
      ltac:(unfold SIZE_MAX; lia)) as Hd.
    change ((3 * 2 ^ 62 - 1) / 4) with (3458764513820540927) in Hd. lia. }
  rewrite (Z.mul_comm (frame_count payload) 4).
  destruct (Z.ltb_spec (out_capacity o) (len payload + 4 * frame_count payload)) as [|Hc]; [done|].
  unfold encoded. rewrite frame_bytes_length. destruct (out_data o) as [buf|].
  - destruct (Hbuf buf eq_refl).
    rewrite frame_loop_eq; unfold MYSQL_WIRE_PACKET_MAX_PAYLOAD; try lia.
    cbn zeta. change (Z.to_nat 0) with 0%nat. rewrite drop_0.
    rewrite Z2Nat.id by lia. done.
  - unfold u8. by rewrite Zplus_mod_idemp_r.
Qed.

(** ** Feeding the packets of a message *)

(** The stream is between two packets and expects [seq]. *)
Definition idle (s : mysql_wire_packet_stream_t) (seq : Z) : Prop :=
  in_payload s = false /\ header_used s = 0 /\ expected_sequence s = seq /\
  max_payload s = MYSQL_WIRE_PACKET_MAX_PAYLOAD.

Lemma header_verdict_encoded l seq max :
  0 <= l <= max -> max <= MYSQL_WIRE_PACKET_MAX_PAYLOAD -> 0 <= seq < 256 ->
  header_verdict (le_bytes 3 l ++ [seq]) seq max = Ret (l, seq).
Proof.
  intros Hl Hm Hs. unfold MYSQL_WIRE_PACKET_MAX_PAYLOAD in Hm. unfold header_verdict, le_at.
  change (Z.to_nat 0) with 0%nat. change (Z.to_nat 3) with 3%nat.
  rewrite drop_0, take_app_length' by (by rewrite length_le_bytes).
  rewrite drop_app_length' by (by rewrite length_le_bytes). cbn [take le_val].
  rewrite le_val_bytes. change (2 ^ (8 * Z.of_nat 3)) with 16777216. rewrite Z.mod_small by lia.
  rewrite Z.mul_0_r, Z.add_0_r. destruct (Z.ltb_spec max l); [lia|]. by rewrite Z.eqb_refl.
Qed.

Lemma feed_spec_packet s seq part rest :
  stream_wf s -> idle s seq -> len part <= MYSQL_WIRE_PACKET_MAX_PAYLOAD ->
  exists s', idle s' (u8 (seq + 1)) /\
  feed_spec s (le_bytes 3 (len part) ++ [seq] ++ part ++ rest) =
    (Ret tt, s', 4 + len part,
     if len part =? 0 then mk_event None 0 0 0 seq true true
     else mk_event (Some part) (len part) 0 (len part) seq true
            (len part <? MYSQL_WIRE_PACKET_MAX_PAYLOAD)).
Proof.
  intros Hwf (Hin & Hu & He & Hm) Hl. pose proof (wf_expected _ Hwf) as Hseq. rewrite He in Hseq.
  unfold feed_spec. rewrite Hin. cbn zeta. rewrite Hu. change (4 - 0) with 4.
  set (input := _ ++ _). assert (4 <= len input).
  { unfold input. rewrite !length_app, length_le_bytes. cbn [length]. lia. }
  destruct (Z.ltb_spec (len input) 4); [lia|].
  assert (header_with s input = le_bytes 3 (len part) ++ [seq]) as Hh.
  { unfold header_with. rewrite Hu. change (Z.to_nat (4 - 0)) with 4%nat. unfold input.
    rewrite app_assoc, take_app_length' by (rewrite length_app, length_le_bytes; done).
    unfold splice. change (Z.to_nat 0) with 0%nat. rewrite take_0. cbn [app].
    rewrite drop_ge; [by rewrite app_nil_r|].
    rewrite length_app, length_le_bytes. rewrite (wf_header _ Hwf). cbn [length]. lia. }
  assert (drop (Z.to_nat 4) input = part ++ rest) as Hd.
  { change (Z.to_nat 4) with 4%nat. unfold input.
    rewrite app_assoc, drop_app_length' by (rewrite length_app, length_le_bytes; done). done. }
  rewrite Hh, Hd, He, Hm. rewrite header_verdict_encoded by lia.
  destruct (Z.eqb_spec (len part) 0) as [Hz|Hnz].
  { rewrite Hz. eexists. split; [|reflexivity]. done. }
  rewrite body_spec_nonempty by (destruct part; done). cbn [packet_payload_length payload_seen]. cbn zeta.
  rewrite length_app, Z.sub_0_r.
  replace (Z.min (len part) (Z.of_nat (length part + length rest))) with (len part) by lia.
  rewrite Nat2Z.id, take_app_length. unfold payload_step, payload_event.
  cbn [packet_payload_length payload_seen max_payload sequence_id expected_sequence header].
  rewrite Z.add_0_l, Z.eqb_refl. cbn [andb]. eexists. split; [|reflexivity]. done.
Qed.

(** One turn on a whole packet that fits. *)
Lemma input_turn_packet i seq part rest :
  input_wf i -> idle (in_stream i) seq -> len part <= MYSQL_WIRE_PACKET_MAX_PAYLOAD ->
  len part <= in_capacity i - in_used i ->
  exists s', idle s' (u8 (seq + 1)) /\
  input_turn i (le_bytes 3 (len part) ++ [seq] ++ part ++ rest) =
    (let i' := append_message (set_stream i s') part in
     if len part <? MYSQL_WIRE_PACKET_MAX_PAYLOAD then Leave (Ret tt) (set_ready i') else Go i',
     4 + len part).
Proof.
  intros Hwf Hidle Hl Hroom.
  destruct (feed_spec_packet _ _ part rest (iwf_stream _ Hwf) Hidle Hl) as (s' & Hid & Hfs).
  exists s'. split; [done|]. unfold input_turn. rewrite Hfs. cbn [input_accept]. f_equal.
  pose proof (input_mem_stream _ s' (input_wf_mem _ Hwf)) as Hm.
  destruct (Z.eqb_spec (len part) 0) as [Hz|Hnz].
  - assert (part = []) as -> by (destruct part; [done|cbn [length] in Hz; lia]).
    rewrite accept_empty by (try done; apply Hid). cbn zeta.
    unfold append_message. rewrite splice_nil. change (len []) with 0. rewrite Z.add_0_r.
    destruct Hm as ((storage & Hs & _) & _). cbn in Hs. unfold set_message, set_ready. cbn.
    rewrite Hs. done.
  - rewrite (accept_view _ _ _ part Hm); [|split; cbn; try done; lia|lia].
    cbn [ev_packet_payload_length ev_offset ev_message_end]. unfold over_limit.
    cbn [in_capacity in_used set_stream]. rewrite Z.sub_0_r.
    by destruct (Z.ltb_spec (in_capacity i - in_used i) (len part)); [lia|].
Qed.

Lemma input_run_frames n i payload seq rest :
  input_wf i -> in_failure i = None -> idle (in_stream i) seq -> bytes_ok payload -> bytes_ok rest ->
  0 <= seq < 256 ->
  Z.of_nat n * MYSQL_WIRE_PACKET_MAX_PAYLOAD <= len payload <
    Z.of_nat (S n) * MYSQL_WIRE_PACKET_MAX_PAYLOAD ->
  len payload <= in_capacity i - in_used i ->
  exists s', input_run i (frames (S n) payload seq ++ rest) =
    (Ret tt, set_ready (append_message (set_stream i s') payload), len (frames (S n) payload seq)).
Proof.
  revert i payload seq. induction n as [|n IH]; intros i payload seq Hwf Hf Hid Hp Hr Hs Hn Hroom;
    unfold MYSQL_WIRE_PACKET_MAX_PAYLOAD in Hn.
  - assert (frames 1 payload seq = le_bytes 3 (len payload) ++ [seq] ++ payload) as ->.
    { cbn [frames]. unfold MYSQL_WIRE_PACKET_MAX_PAYLOAD. rewrite Z.min_r by lia.
      by rewrite Nat2Z.id, take_ge, app_nil_r by lia. }
    rewrite <- !app_assoc.
    destruct (input_turn_packet i seq payload rest Hwf Hid) as (s' & _ & Ht);
      [unfold MYSQL_WIRE_PACKET_MAX_PAYLOAD; lia|done|].
    exists s'. rewrite input_run_unfold, Ht; try done.
    + destruct (Z.ltb_spec (len payload) MYSQL_WIRE_PACKET_MAX_PAYLOAD);
        [|unfold MYSQL_WIRE_PACKET_MAX_PAYLOAD in *; lia].
      f_equal. rewrite !length_app, length_le_bytes. cbn [length]. lia.
    + unfold bytes_ok. rewrite !Forall_app. split_and!; try done; [apply le_bytes_ok|].
      apply Forall_cons_2; [done|apply Forall_nil_2].
  - remember (S n) as m eqn:Hm. pose proof (frames_bytes_ok (S m) payload seq Hp Hs) as Hfok.
    cbn [frames] in *. unfold MYSQL_WIRE_PACKET_MAX_PAYLOAD in *. rewrite Z.min_l in * by lia.
    set (k := Z.to_nat 0xffffff) in *. assert (Z.of_nat k = 0xffffff) as Hk by lia. clearbody k.
    set (part := take k payload) in *. set (payload' := drop k payload) in *.
    assert (len part = 0xffffff) as Hpart by (unfold part; rewrite length_take; lia).
    assert (part ++ payload' = payload) as Happ by apply take_drop.
    rewrite Hk, <- Hpart in *. rewrite <- !app_assoc.
    destruct (input_turn_packet i seq part (frames m payload' (u8 (seq + 1)) ++ rest) Hwf Hid)
      as (s1 & Hid1 & Ht); [unfold MYSQL_WIRE_PACKET_MAX_PAYLOAD; lia|lia|].
    set (input := le_bytes 3 (len part) ++ [seq] ++ part ++ frames m payload' (u8 (seq + 1)) ++ rest) in *.
    assert (bytes_ok input) as Hin.
    { replace input with ((le_bytes 3 (len part) ++ [seq] ++ part ++ frames m payload' (u8 (seq + 1))) ++ rest)
        by (unfold input; by rewrite <- !app_assoc). by apply Forall_app_2. }
    assert (4 + len part <= len input) as Hlin.
    { unfold input. rewrite !length_app, length_le_bytes. cbn [length]. lia. }
    rewrite input_run_unfold, Ht by (try done; intros ->; cbn [length] in Hlin; lia).
    destruct (Z.ltb_spec (len part) MYSQL_WIRE_PACKET_MAX_PAYLOAD);
      [unfold MYSQL_WIRE_PACKET_MAX_PAYLOAD in *; lia|].
    pose proof (input_turn_wf i input Hwf Hf Hin) as Hw. rewrite Ht in Hw.
    destruct (Z.ltb_spec (len part) MYSQL_WIRE_PACKET_MAX_PAYLOAD); [lia|].
    cbn zeta in Hw. destruct Hw as (Hwf1 & _ & Hf1 & _).
    assert (drop (Z.to_nat (4 + len part)) input = frames m payload' (u8 (seq + 1)) ++ rest) as ->.
    { unfold input. rewrite !app_assoc. rewrite <- (app_assoc _ _ rest).
      apply drop_app_length'. rewrite !length_app, length_le_bytes. cbn [length]. lia. }
    assert (len payload' = len payload - len part) as Hl'.
    { rewrite <- Happ, length_app. lia. }
    destruct (IH (append_message (set_stream i s1) part) payload' (u8 (seq + 1))) as (s2 & Hrun);
      try done; rewrite ?Hl'; cbn [in_capacity in_used append_message set_message set_stream];
      try apply u8_range; try (apply Forall_drop; done); try lia.
    exists s2. rewrite Hrun. cbn [input_shift]. f_equal.
    + rewrite append_append by (try (by apply input_wf_mem); lia). by rewrite Happ.
    + rewrite !length_app, length_le_bytes. cbn [length]. lia.
Qed.

(** ** Properties *)

Definition feed_input (i : tdsql_mysql_input) (data : bytes) :=
  tdsql_mysql_input_feed (Some i) (Some data) (len data) (Some 0).

(** Feed chunk after chunk while more is wanted: the final result, the input and
    the bytes that were not consumed. *)
Fixpoint feed_chunks (i : tdsql_mysql_input) (chunks : list bytes)
    : server_result unit * tdsql_mysql_input * bytes :=
  match chunks with
  | [] => (Err TDSQL_MYSQL_NEED_MORE, i, [])
  | chunk :: chunks =>
      match feed_input i chunk with
      | (Err TDSQL_MYSQL_NEED_MORE, Some i', _) => feed_chunks i' chunks
      | (r, Some i', Some c) => (r, i', drop (Z.to_nat c) chunk ++ concat chunks)
      | (r, _, _) => (r, i, [])
      end
  end.

Lemma feed_input_run i data :
  input_wf i -> in_failure i = None -> in_ready i = false -> bytes_ok data -> len data < 2 ^ 63 ->
  feed_input i data = let '(r, i', c) := input_run i data in (r, Some i', Some c).
Proof.
  intros Hwf Hf Hr Hd Hl. unfold feed_input, tdsql_mysql_input_feed.
  destruct (iwf_storage _ Hwf) as (storage & -> & _). pose proof (iwf_capacity _ Hwf).
  destruct (Z.eqb_spec (in_capacity i) 0); [lia|]. rewrite Hf, Hr. cbn [default].
  rewrite input_feed_loop_eq by (try done; lia). rewrite Nat2Z.id, drop_0, input_shift_0. done.
Qed.

Lemma input_init_eq storage capacity seq i0 :
  0 < capacity ->
  tdsql_mysql_input_init (Some i0) (Some storage) capacity seq =
    (Ret tt, Some (mk_input (stream_start seq MYSQL_WIRE_PACKET_MAX_PAYLOAD) (Some storage) capacity 0
       None false)).
Proof. intros. cbn. by destruct (Z.eqb_spec capacity 0); [lia|]. Qed.

Lemma input_init_wf storage capacity seq :
  0 < capacity <= len storage -> len storage < 2 ^ 63 -> bytes_ok storage -> 0 <= seq < 256 ->
  input_wf (mk_input (stream_start seq MYSQL_WIRE_PACKET_MAX_PAYLOAD) (Some storage) capacity 0 None false).
Proof.
  intros. split; cbn; try done; try lia.
  - apply stream_start_wf; unfold MYSQL_WIRE_PACKET_MAX_PAYLOAD; lia.
  - exists storage. split_and!; try done; lia.
Qed.

Lemma feed_chunks_run i chunks i' c :
  input_wf i -> in_failure i = None -> in_ready i = false ->
  bytes_ok (concat chunks) -> len (concat chunks) < 2 ^ 63 ->
  input_run i (concat chunks) = (Ret tt, i', c) ->
  feed_chunks i chunks = (Ret tt, i', drop (Z.to_nat c) (concat chunks)).
Proof.
  revert i c. induction chunks as [|a chunks IH]; intros i c Hwf Hf Hr Hb Hl Hrun; [done|].
  cbn [concat] in *. rewrite length_app in Hl. apply Forall_app in Hb as [Ha Hb].
  pose proof (input_run_split i a (concat chunks) Hwf Hf Ha Hb) as Hsp.
  pose proof (input_run_wf i a Hwf Hf Ha) as Hw. cbn [feed_chunks].
  rewrite feed_input_run by (done || lia). destruct (input_run i a) as [[r i1] c1].
  unfold run_split_ok in Hsp. destruct Hw as (Hnf & Hw1 & Hc & _ & Hmore & _).
  destruct r as [[]|e|]; [| |done].
  - rewrite Hsp in Hrun. injection Hrun as -> ->. by rewrite drop_app_le by lia.
  - destruct (decide (e = TDSQL_MYSQL_NEED_MORE)) as [->|Hne].
    + destruct (Hmore eq_refl) as (Hr1 & Hf1 & ->).
      pose proof (input_run_wf i1 (concat chunks) Hw1 Hf1 Hb) as Hw2. rewrite Hsp in Hrun.
      destruct (input_run i1 (concat chunks)) as [[r2 i2] c2] eqn:Hrun2.
      cbn in Hrun. injection Hrun as -> -> <-.
      rewrite (IH i1 c2) by (try done; try lia; congruence).
      destruct Hw2 as (_ & _ & Hc2 & _). rewrite drop_app_ge by lia. do 2 f_equal. lia.
    + destruct e; try done; destruct Hsp as (? & ? & Heq); by rewrite Heq in Hrun.
Qed.

(** Feeding any bytes to a well-formed input never touches memory outside
    the storage or the chunk, never collects more than the capacity, and keeps
    the input well formed. OK means that a message is ready and at least one
    byte was consumed, NEED_MORE that the whole chunk was consumed; any other
    status is recorded as the failure of the input, and from then on feed,
    message and release all answer with it and change nothing. *)
Theorem input_feed_invariant i data :
  input_wf i -> in_failure i = None -> in_ready i = false -> bytes_ok data -> len data < 2 ^ 63 ->
  exists r i' c, feed_input i data = (r, Some i', Some c) /\
    r <> Fault /\ input_wf i' /\ 0 <= c <= len data /\
    (r = Ret tt -> in_ready i' = true /\ in_failure i' = None /\ 0 < c) /\
    (r = Err TDSQL_MYSQL_NEED_MORE -> in_ready i' = false /\ in_failure i' = None /\ c = len data) /\
    (forall e, r = Err e -> e <> TDSQL_MYSQL_NEED_MORE ->
       forall more out seq,
         feed_input i' more = (Err e, Some i', Some 0) /\
         tdsql_mysql_input_message (Some i') (Some out) = (Err e, Some out) /\
         tdsql_mysql_input_release (Some i') seq = (Err e, Some i')).
Proof.
  intros Hwf Hf Hr Hd Hl. rewrite feed_input_run by done.
  pose proof (input_run_wf i data Hwf Hf Hd) as Hw.
  destruct (input_run i data) as [[r i'] c]. destruct Hw as (H1 & H2 & H3 & H4 & H5 & H6).
  exists r, i', c. rewrite Hr in H5. split_and!; try done; try lia.
  intros e He Hne more out seq. specialize (H6 e He Hne).
  destruct (iwf_storage _ H2) as (storage & Hs & _). pose proof (iwf_capacity _ H2).
  unfold feed_input, tdsql_mysql_input_feed, tdsql_mysql_input_message, tdsql_mysql_input_release.
  rewrite Hs, H6. destruct (Z.eqb_spec (in_capacity i') 0); [lia|done].
Qed.

(** The way the transport cuts the stream does not change the message. If
    feeding [a] wants more, feeding [b] after it leads to exactly the state,
    status and total consumption that feeding [a ++ b] at once leads to. If [a]
    completes a message, the bytes after it are left for the next one; if [a]
    is fatal, so is [a ++ b], with the same status. *)
Theorem input_feed_split i a b r i1 c :
  input_wf i -> in_failure i = None -> in_ready i = false ->
  bytes_ok (a ++ b) -> len (a ++ b) < 2 ^ 63 ->
  feed_input i a = (r, Some i1, Some c) ->
  match r with
  | Err TDSQL_MYSQL_NEED_MORE =>
      exists r2 i2 k, feed_input i1 b = (r2, Some i2, Some k) /\
        feed_input i (a ++ b) = (r2, Some i2, Some (len a + k))
  | Err e => exists i2 k, feed_input i (a ++ b) = (Err e, Some i2, Some k)
  | _ => feed_input i (a ++ b) = (r, Some i1, Some c)
  end.
Proof.
  intros Hwf Hf Hr Hab Hl. assert (bytes_ok a /\ bytes_ok b) as [Ha Hb] by (by apply Forall_app).
  pose proof Hl as Hl'. rewrite length_app in Hl'.
  rewrite (feed_input_run i a), (feed_input_run i (a ++ b)) by (done || lia).
  pose proof (input_run_split i a b Hwf Hf Ha Hb) as Hsp.
  pose proof (input_run_wf i a Hwf Hf Ha) as Hw.
  destruct (input_run i a) as [[r' i'] c'] eqn:Hrun. inj. unfold run_split_ok in Hsp.
  destruct Hw as (Hnf & Hw1 & _ & _ & Hmore & _).
  destruct r as [|e|]; [by rewrite Hsp| |by rewrite Hsp].
  destruct (decide (e = TDSQL_MYSQL_NEED_MORE)) as [->|Hne].
  - destruct (Hmore eq_refl) as (Hr1 & Hf1 & _). rewrite Hsp.
    rewrite feed_input_run by (try done; try lia; congruence).
    destruct (input_run i1 b) as [[r2 i2] k]. by eexists _, _, _.
  - destruct e; try done; destruct Hsp as (i2 & k & ->); by eexists _, _.
Qed.

(** C2. A message of any size that frame_encode wrote comes back whole. Cut its
    packets, with any bytes after them, into chunks in any way and feed the
    chunks to an input of enough capacity that expects the same sequence number:
    the result is OK, the message is the payload byte for byte, and what was
    not consumed is exactly what followed the packets. This covers messages over
    16 MiB, which take several packets, and those whose length is a multiple of
    the maximum, which end with an empty packet. *)
Theorem frame_roundtrip payload seq o nx o' nx' buf' storage capacity i0 i chunks extra :
  len payload < 2 ^ 62 -> bytes_ok payload -> 0 <= seq < 256 -> output_ok o ->
  tdsql_mysql_frame_encode (Some payload) (len payload) seq (Some o) (Some nx) =
    (Ret tt, Some o', Some nx') ->
  out_data o' = Some buf' ->
  len payload <= capacity <= len storage -> len storage < 2 ^ 63 -> bytes_ok storage ->
  tdsql_mysql_input_init (Some i0) (Some storage) capacity seq = (Ret tt, Some i) ->
  concat chunks = take (Z.to_nat (out_size o')) buf' ++ extra -> bytes_ok extra ->
  len (concat chunks) < 2 ^ 63 ->
  exists i', feed_chunks i chunks = (Ret tt, i', extra) /\
    tdsql_mysql_input_message (Some i') (Some wire_bytes_zero) = (Ret tt, Some (wire_bytes_of payload)).
Proof.
  intros Hp Hpb Hs Ho Henc Hbuf Hcap Hst Hstb Hinit Hcat Hex Hlen.
  rewrite frame_encode_eq in Henc by done. destruct (Z.ltb_spec (out_capacity o) (len (frame_bytes payload seq)))
    as [|Hfit]; [done|]. injection Henc as <- <-. cbn in Hbuf, Hcat.
  destruct (out_data o) as [buf|] eqn:Hod; [|done]. injection Hbuf as <-.
  destruct Ho as [_ Hob]. specialize (Hob _ Hod).
  pose proof (take_splice buf 0 (frame_bytes payload seq) ltac:(lia) ltac:(lia)) as Htk.
  rewrite Z.add_0_l in Htk. rewrite Htk in Hcat.
  change (Z.to_nat 0) with 0%nat in Hcat. rewrite take_0 in Hcat. cbn [app] in Hcat.
  assert (0 < capacity).
  { destruct (Z.eqb_spec capacity 0) as [->|]; [done|lia]. }
  rewrite input_init_eq in Hinit by done. injection Hinit as <-.
  set (i := mk_input _ _ _ _ _ _). assert (input_wf i) as Hwf by (apply input_init_wf; done || lia).
  pose proof (frame_count_bounds payload) as (Hn1 & Hn). unfold frame_bytes in *.
  replace (Z.to_nat (frame_count payload)) with (S (Z.to_nat (frame_count payload - 1))) in * by lia.
  set (n := Z.to_nat (frame_count payload - 1)) in *.
  destruct (input_run_frames n i payload seq extra) as (s' & Hrun); try done;
    try (cbn; unfold n, MYSQL_WIRE_PACKET_MAX_PAYLOAD in *; lia).
  assert (bytes_ok (concat chunks)) as Hcb.
  { rewrite Hcat. apply Forall_app_2; [|done]. by apply frames_bytes_ok. }
  rewrite <- Hcat in Hrun. eexists. split.
  - rewrite (feed_chunks_run _ _ _ _ Hwf eq_refl eq_refl Hcb Hlen Hrun). rewrite Hcat, Nat2Z.id, drop_app_length.
    reflexivity.
  - unfold tdsql_mysql_input_message. cbn. rewrite Z.add_0_l, splice_ldn by lia. done.
Qed.

Lemma frame_roundtrip_witness :
  exists o' nx' buf' i i',
    tdsql_mysql_frame_encode (Some [7; 8; 9]) 3 255 (Some (mk_output (Some (replicate 16 0)) 16 0)) (Some 0) =
      (Ret tt, Some o', Some nx') /\ out_data o' = Some buf' /\
    take 7 buf' = [3; 0; 0; 255; 7; 8; 9] /\
    feed_chunks i [[3]; [0; 0]; []; [255; 7; 8]; [9; 42; 43]; [44]] = (Ret tt, i', [42; 43; 44]) /\
    tdsql_mysql_input_message (Some i') (Some wire_bytes_zero) = (Ret tt, Some (wire_bytes_of [7; 8; 9])).
Proof.
  do 4 eexists.
  edestruct (frame_roundtrip [7; 8; 9] 255 (mk_output (Some (replicate 16 0)) 16 0) 0
    (mk_output (Some ([3; 0; 0; 255; 7; 8; 9] ++ replicate 9 0)) 16 7) 0
    ([3; 0; 0; 255; 7; 8; 9] ++ replicate 9 0) (replicate 3 0) 3
    (mk_input (stream_start 0 0) None 0 0 None false)
    (mk_input (stream_start 255 MYSQL_WIRE_PACKET_MAX_PAYLOAD) (Some (replicate 3 0)) 3 0 None false)
    [[3]; [0; 0]; []; [255; 7; 8]; [9; 42; 43]; [44]] [42; 43; 44]) as (i' & H1 & H2);
    try (cbn; lia); try (by apply bytes_okb_ok); try reflexivity.
  - unfold output_ok. cbn. split; [lia|]. intros buf [= <-]. cbn. lia.
  - exists i'. split_and!; [vm_compute; reflexivity|reflexivity|reflexivity|exact H1|exact H2].
Defined.

(** frame_encode on every branch. It refuses exactly when the packets do
    not fit in the capacity, and then changes neither the output nor the next
    sequence number. Otherwise it reports the size of the packets and the
    sequence number after the last one, and writes the packets at the start of
    the buffer when there is one. So measuring without a buffer and encoding
    report the same size and sequence. *)
Theorem frame_encode_exact payload seq o nx :
  len payload < 2 ^ 62 -> 0 <= seq < 256 -> output_ok o ->
  tdsql_mysql_frame_encode (Some payload) (len payload) seq (Some o) (Some nx) =
    if out_capacity o <? len payload + 4 * frame_count payload
    then (Err TDSQL_MYSQL_LIMIT, Some o, Some nx)
    else (Ret tt, Some (encoded o payload seq), Some (u8 (seq + frame_count payload))).
Proof. intros. rewrite frame_encode_eq by done. by rewrite frame_bytes_length. Qed.
