(* ===== verification/Handshake.v ===== *)
(** * The client side of the handshake (mysql/wire/handshake.c, handshake.h)

    Parsing of the server greeting and of an authentication switch, choice of
    the capabilities, and construction of the TLS request and of the handshake
    response. *)

From S2P Require Import Prelude Codec.

(** ** Constants and data *)

Definition MYSQL_WIRE_CLIENT_LONG_PASSWORD : Z := 0x00000001.
Definition MYSQL_WIRE_CLIENT_LONG_FLAG : Z := 0x00000004.
Definition MYSQL_WIRE_CLIENT_CONNECT_WITH_DB : Z := 0x00000008.
Definition MYSQL_WIRE_CLIENT_PROTOCOL_41 : Z := 0x00000200.
Definition MYSQL_WIRE_CLIENT_SSL : Z := 0x00000800.
Definition MYSQL_WIRE_CLIENT_TRANSACTIONS : Z := 0x00002000.
Definition MYSQL_WIRE_CLIENT_SECURE_CONNECTION : Z := 0x00008000.
Definition MYSQL_WIRE_CLIENT_MULTI_RESULTS : Z := 0x00020000.
Definition MYSQL_WIRE_CLIENT_PLUGIN_AUTH : Z := 0x00080000.
Definition MYSQL_WIRE_CLIENT_DEPRECATE_EOF : Z := 0x01000000.

Definition MYSQL_WIRE_AUTH_PLUGIN_NAME_CAPACITY : Z := 64.
Definition MYSQL_WIRE_SERVER_VERSION_CAPACITY : Z := 128.
Definition MYSQL_WIRE_AUTH_DATA_CAPACITY : Z := 32.

(** The character arrays are lists of exactly their capacity. *)
Record mysql_wire_greeting_t : Type := mk_greeting {
  g_protocol_version : Z;
  g_server_version : bytes;
  g_connection_id : Z;
  g_capabilities : Z;
  g_character_set : Z;
  g_status_flags : Z;
  g_auth_plugin_data : bytes;
  g_auth_plugin_data_length : Z;
  g_auth_plugin : bytes
}.

Record mysql_wire_auth_switch_t : Type := mk_auth_switch {
  sw_plugin : bytes;
  sw_data : bytes;
  sw_data_length : Z
}.

(** [n] zero bytes, as memset leaves them. *)
Definition zeros (n : Z) : bytes := replicate (Z.to_nat n) 0.

Definition greeting_zero : mysql_wire_greeting_t :=
  mk_greeting 0 (zeros MYSQL_WIRE_SERVER_VERSION_CAPACITY) 0 0 0 0
    (zeros MYSQL_WIRE_AUTH_DATA_CAPACITY) 0 (zeros MYSQL_WIRE_AUTH_PLUGIN_NAME_CAPACITY).

Definition auth_switch_zero : mysql_wire_auth_switch_t :=
  mk_auth_switch (zeros MYSQL_WIRE_AUTH_PLUGIN_NAME_CAPACITY) (zeros MYSQL_WIRE_AUTH_DATA_CAPACITY) 0.

(** Assignments to one member. *)
Definition g_set_protocol v g := mk_greeting v (g_server_version g) (g_connection_id g)
  (g_capabilities g) (g_character_set g) (g_status_flags g) (g_auth_plugin_data g)
  (g_auth_plugin_data_length g) (g_auth_plugin g).
Definition g_set_version v g := mk_greeting (g_protocol_version g) v (g_connection_id g)
  (g_capabilities g) (g_character_set g) (g_status_flags g) (g_auth_plugin_data g)
  (g_auth_plugin_data_length g) (g_auth_plugin g).
Definition g_set_connection v g := mk_greeting (g_protocol_version g) (g_server_version g) v
  (g_capabilities g) (g_character_set g) (g_status_flags g) (g_auth_plugin_data g)
  (g_auth_plugin_data_length g) (g_auth_plugin g).
Definition g_set_capabilities v g := mk_greeting (g_protocol_version g) (g_server_version g)
  (g_connection_id g) v (g_character_set g) (g_status_flags g) (g_auth_plugin_data g)
  (g_auth_plugin_data_length g) (g_auth_plugin g).
Definition g_set_character_set v g := mk_greeting (g_protocol_version g) (g_server_version g)
  (g_connection_id g) (g_capabilities g) v (g_status_flags g) (g_auth_plugin_data g)
  (g_auth_plugin_data_length g) (g_auth_plugin g).
Definition g_set_status v g := mk_greeting (g_protocol_version g) (g_server_version g)
  (g_connection_id g) (g_capabilities g) (g_character_set g) v (g_auth_plugin_data g)
  (g_auth_plugin_data_length g) (g_auth_plugin g).
Definition g_set_auth data length g := mk_greeting (g_protocol_version g) (g_server_version g)
  (g_connection_id g) (g_capabilities g) (g_character_set g) (g_status_flags g) data length
  (g_auth_plugin g).
Definition g_set_plugin v g := mk_greeting (g_protocol_version g) (g_server_version g)
  (g_connection_id g) (g_capabilities g) (g_character_set g) (g_status_flags g)
  (g_auth_plugin_data g) (g_auth_plugin_data_length g) v.

(** ** Strings *)

(** [while (cursor < size && data[cursor] != 0u) ++cursor;]
    The fuel is the number of bytes that are left. *)
Fixpoint scan_nul (fuel : nat) (d : bytes) (size cursor : Z) : option Z :=
  if cursor <? size then
    match ld d cursor with
    | None => None
    | Some b =>
        if b =? 0 then Some cursor
        else match fuel with
             | O => None
             | S fuel => scan_nul fuel d size (cursor + 1)
             end
    end
  else Some cursor.

Definition mysql_wire_read_cstring (data : ptr bytes) (size : Z) (offset : ptr Z) (out : ptr bytes)
    (out_capacity : Z) : wire_result unit * ptr Z * ptr bytes :=
  match data, offset, out with
  | Some d, Some start, Some o =>
      if out_capacity =? 0 then (Err INVALID, offset, out)
      else if size <=? start then (Err NEED_MORE, offset, out)
      else
        match scan_nul (Z.to_nat (size - start)) d size start with
        | None => (Fault, offset, out)
        | Some cursor =>
            if cursor =? size then (Err NEED_MORE, offset, out)
            else
              let length := size_sub cursor start in
              if out_capacity <? length + 1 then (Err LIMIT, offset, out)
              else
                match ldn d start length with
                | None => (Fault, offset, out)
                | Some text =>
                    match stn o 0 text with
                    | None => (Fault, offset, out)
                    | Some o =>
                        match st o length 0 with
                        | None => (Fault, offset, Some o)
                        | Some o => (Ret tt, Some (cursor + 1), Some o)
                        end
                    end
                end
        end
  | _, _, _ => (Err INVALID, offset, out)
  end.

(** The call with a character array of the output structure as [out]. *)
Definition rd_cstring {T} (p : bytes) (size : Z) (get : T -> bytes) (set : bytes -> T -> T)
    (capacity : Z) : D T unit := fun s =>
  match mysql_wire_read_cstring (Some p) size (Some (d_off s)) (Some (get (d_out s))) capacity with
  | (r, Some off, Some o) => (r, Dec off (set o (d_out s)))
  | (_, _, _) => (Fault, s)
  end.

Definition mysql_wire_write_bytes (out : ptr bytes) (capacity : Z) (offset : ptr Z)
    (data : ptr bytes) (size : Z) : wire_result unit * ptr bytes * ptr Z :=
  append_checked capacity out offset data size.

Definition wr_data (capacity : Z) (data : ptr bytes) (size : Z) : B unit :=
  call_writer (fun d o => mysql_wire_write_bytes d capacity o data size).

(** [value] points to an object that holds a terminated string. *)
Definition mysql_wire_write_cstring (capacity : Z) (value : ptr bytes) : B unit :=
  match value with
  | None => fail INVALID
  | Some s => length ← access (find_nul s); wr_data capacity (Some s) length;; wr_byte capacity 0
  end.

(** ** Greeting *)

(** The second part of the nonce. *)
Definition greeting_part2 (p : bytes) (size auth_length : Z) : D mysql_wire_greeting_t unit :=
  off ← offset;
  let wire := if 8 <? auth_length then size_sub auth_length 8 else 13 in
  let wire := if wire <? 13 then 13 else wire in
  let available := size_sub size off in
  let wire := if available <? wire then available else wire in
  last ← (if wire =? 0 then mret 1 else access (ld p (off + wire - 1)));
  let copy := if negb (wire =? 0) && (last =? 0) then wire - 1 else wire in
  g ← gets d_out;
  fail_if (size_sub MYSQL_WIRE_AUTH_DATA_CAPACITY (g_auth_plugin_data_length g) <? copy) LIMIT;;
  data ← (if copy =? 0 then mret (g_auth_plugin_data g)
          else part ← access (ldn p off copy);
               access (stn (g_auth_plugin_data g) (g_auth_plugin_data_length g) part));
  out_set (g_set_auth data (g_auth_plugin_data_length g + copy));;
  skip wire.

(** The members after the low half of the capabilities. *)
Definition greeting_extended (p : bytes) (size capability_low : Z) : D mysql_wire_greeting_t unit :=
  off ← offset;
  fail_if (size_sub size off <? 16) NEED_MORE;;
  charset ← next_byte p; out_set (g_set_character_set charset);;
  status ← rd_u16 p size; out_set (g_set_status status);;
  capability_high ← rd_u16 p size;
  let capabilities := Z.lor capability_low (u32 (Z.shiftl capability_high 16)) in
  out_set (g_set_capabilities capabilities);;
  auth_length ← next_byte p;
  skip 10;;
  off ← offset;
  when (negb (Z.land capabilities MYSQL_WIRE_CLIENT_SECURE_CONNECTION =? 0) && (off <? size))
    (greeting_part2 p size auth_length);;
  off ← offset;
  when (negb (Z.land capabilities MYSQL_WIRE_CLIENT_PLUGIN_AUTH =? 0) && (off <? size))
    (rd_cstring p size g_auth_plugin g_set_plugin MYSQL_WIRE_AUTH_PLUGIN_NAME_CAPACITY);;
  g ← gets d_out;
  when (20 <? g_auth_plugin_data_length g) (out_set (g_set_auth (g_auth_plugin_data g) 20)).

Definition greeting_body (p : bytes) (size : Z) : D mysql_wire_greeting_t unit :=
  fail_if (size <? 1) NEED_MORE;;
  version ← next_byte p; out_set (g_set_protocol version);;
  fail_if (negb (version =? 10)) INVALID;;
  rd_cstring p size g_server_version g_set_version MYSQL_WIRE_SERVER_VERSION_CAPACITY;;
  connection ← rd_u32 p size; out_set (g_set_connection connection);;
  off ← offset;
  fail_if (size_sub size off <? 9) NEED_MORE;;
  part1 ← access (ldn p off 8);
  g ← gets d_out;
  data ← access (stn (g_auth_plugin_data g) 0 part1);
  out_set (g_set_auth data 8);;
  skip 8;;
  filler ← next_byte p;
  fail_if (negb (filler =? 0)) INVALID;;
  capability_low ← rd_u16 p size;
  off ← offset;
  if off =? size then out_set (g_set_capabilities capability_low)
  else greeting_extended p size capability_low.

Definition mysql_wire_parse_greeting (payload : ptr bytes) (payload_size : Z)
    (out : ptr mysql_wire_greeting_t) : wire_result unit * ptr mysql_wire_greeting_t :=
  match payload, out with
  | Some p, Some _ => run_dec 0 greeting_zero (greeting_body p payload_size)
  | _, _ => (Err INVALID, out)
  end.

(** ** Capabilities *)

Definition client_required : Z :=
  Z.lor (Z.lor MYSQL_WIRE_CLIENT_PROTOCOL_41 MYSQL_WIRE_CLIENT_SECURE_CONNECTION)
    MYSQL_WIRE_CLIENT_PLUGIN_AUTH.

Definition mysql_wire_select_client_capabilities (greeting : ptr mysql_wire_greeting_t)
    (use_tls use_database : bool) (out : ptr Z) : wire_result unit * ptr Z :=
  match greeting, out with
  | Some g, Some _ =>
      let caps := g_capabilities g in
      if negb (Z.land caps client_required =? client_required) then (Err INVALID, Some 0)
      else if use_tls && (Z.land caps MYSQL_WIRE_CLIENT_SSL =? 0) then (Err INVALID, Some 0)
      else if use_database && (Z.land caps MYSQL_WIRE_CLIENT_CONNECT_WITH_DB =? 0)
      then (Err INVALID, Some 0)
      else
        let selected := Z.lor client_required
          (Z.land caps (Z.lor MYSQL_WIRE_CLIENT_LONG_PASSWORD MYSQL_WIRE_CLIENT_LONG_FLAG)) in
        let selected := if use_tls then Z.lor selected MYSQL_WIRE_CLIENT_SSL else selected in
        let selected := if use_database then Z.lor selected MYSQL_WIRE_CLIENT_CONNECT_WITH_DB
                        else selected in
        let selected := Z.lor selected
          (Z.land caps (Z.lor (Z.lor MYSQL_WIRE_CLIENT_TRANSACTIONS MYSQL_WIRE_CLIENT_MULTI_RESULTS)
             MYSQL_WIRE_CLIENT_DEPRECATE_EOF)) in
        (Ret tt, Some selected)
  | _, _ => (Err INVALID, out)
  end.

(** ** Requests *)

(** A builder on a caller's buffer: *out_size is set to 0 first and to the final
    offset on success. *)
Definition run_enc (m : B unit) (out : ptr bytes) (out_size : ptr Z)
    : wire_result unit * ptr bytes * ptr Z :=
  match out, out_size with
  | Some buf, Some _ =>
      match m (Enc buf 0) with
      | (Ret _, s) => (Ret tt, Some (e_buf s), Some (e_off s))
      | (Err e, s) => (Err e, Some (e_buf s), Some 0)
      | (Fault, s) => (Fault, Some (e_buf s), Some 0)
      end
  | _, _ => (Err INVALID, out, out_size)
  end.

(** The first 32 bytes of both requests. *)
Definition login_prefix (capabilities max_packet_size character_set out_capacity : Z) : B unit :=
  wr_u32 out_capacity capabilities;;
  wr_u32 out_capacity max_packet_size;;
  wr_byte out_capacity character_set;;
  wr_data out_capacity (Some (zeros 23)) 23.

Definition mysql_wire_build_ssl_request (capabilities max_packet_size character_set : Z)
    (out : ptr bytes) (out_capacity : Z) (out_size : ptr Z)
    : wire_result unit * ptr bytes * ptr Z :=
  match out, out_size with
  | Some _, Some _ =>
      if Z.land capabilities MYSQL_WIRE_CLIENT_SSL =? 0 then (Err INVALID, out, out_size)
      else
        match run_enc (login_prefix capabilities max_packet_size character_set out_capacity)
                out out_size with
        | (Ret _, out', Some offset) =>
            if offset =? 32 then (Ret tt, out', Some offset) else (Err INVALID, out', Some offset)
        | r => r
        end
  | _, _ => (Err INVALID, out, out_size)
  end.

Definition mysql_wire_build_handshake_response (capabilities max_packet_size character_set : Z)
    (username auth_response : ptr bytes) (auth_response_size : Z) (database auth_plugin : ptr bytes)
    (out : ptr bytes) (out_capacity : Z) (out_size : ptr Z)
    : wire_result unit * ptr bytes * ptr Z :=
  match username, auth_plugin, out, out_size with
  | Some _, Some _, Some _, Some _ =>
      if match auth_response with None => negb (auth_response_size =? 0) | Some _ => false end
         || (255 <? auth_response_size)
         || (Z.land capabilities MYSQL_WIRE_CLIENT_PROTOCOL_41 =? 0)
         || (Z.land capabilities MYSQL_WIRE_CLIENT_SECURE_CONNECTION =? 0)
         || (Z.land capabilities MYSQL_WIRE_CLIENT_PLUGIN_AUTH =? 0)
      then (Err INVALID, out, out_size)
      else
        let with_db := negb (Z.land capabilities MYSQL_WIRE_CLIENT_CONNECT_WITH_DB =? 0) in
        if with_db && match database with None => true | Some _ => false end
        then (Err INVALID, out, out_size)
        else
          run_enc
            (login_prefix capabilities max_packet_size character_set out_capacity;;
             mysql_wire_write_cstring out_capacity username;;
             wr_byte out_capacity (u8 auth_response_size);;
             wr_data out_capacity auth_response auth_response_size;;
             when with_db (mysql_wire_write_cstring out_capacity database);;
             mysql_wire_write_cstring out_capacity auth_plugin)
            out out_size
  | _, _, _, _ => (Err INVALID, out, out_size)
  end.

(** ** Authentication switch *)

Definition sw_set_plugin v s := mk_auth_switch v (sw_data s) (sw_data_length s).
Definition sw_set_data d l s := mk_auth_switch (sw_plugin s) d l.

Definition auth_switch_body (p : bytes) (size : Z) : D mysql_wire_auth_switch_t unit :=
  rd_cstring p size sw_plugin sw_set_plugin MYSQL_WIRE_AUTH_PLUGIN_NAME_CAPACITY;;
  off ← offset;
  let remaining := size_sub size off in
  last ← (if remaining =? 0 then mret 1 else access (ld p (size - 1)));
  let remaining := if negb (remaining =? 0) && (last =? 0) then remaining - 1 else remaining in
  fail_if (MYSQL_WIRE_AUTH_DATA_CAPACITY <? remaining) LIMIT;;
  s ← gets d_out;
  data ← (if remaining =? 0 then mret (sw_data s)
          else part ← access (ldn p off remaining); access (stn (sw_data s) 0 part));
  out_set (sw_set_data data remaining).

Definition mysql_wire_parse_auth_switch (payload : ptr bytes) (payload_size : Z)
    (out : ptr mysql_wire_auth_switch_t) : wire_result unit * ptr mysql_wire_auth_switch_t :=
  match payload, out with
  | Some p, Some _ =>
      if payload_size <? 2 then (Err INVALID, out)
      else
        match ld p 0 with
        | None => (Fault, out)
        | Some b =>
            if negb (b =? 0xfe) then (Err INVALID, out)
            else run_dec 1 auth_switch_zero (auth_switch_body p payload_size)
        end
  | _, _ => (Err INVALID, out)
  end.

(** ** Lemmas on strings *)

Lemma splice_0 d l : splice d 0 l = l ++ drop (length l) d.
Proof. unfold splice. change (Z.to_nat 0) with 0%nat. by rewrite take_0. Qed.

Lemma scan_nul_eq fuel d size cursor :
  0 <= cursor <= size -> size <= len d -> size - cursor <= Z.of_nat fuel ->
  scan_nul fuel d size cursor =
    Some (match find_nul (take (Z.to_nat (size - cursor)) (drop (Z.to_nat cursor) d)) with
          | Some n => cursor + n
          | None => size
          end).
Proof.
  revert cursor. induction fuel as [|fuel IH]; intros cursor Hc Hs Hf; cbn [scan_nul];
    destruct (Z.ltb_spec cursor size) as [Hlt|Hge]; try lia;
    try (replace (size - cursor) with 0 by lia; rewrite take_0; cbn [find_nul]; f_equal; lia).
  destruct (ld_is_Some d cursor) as [b Hb]; [lia|]. rewrite Hb.
  replace (Z.to_nat (size - cursor)) with (S (Z.to_nat (size - (cursor + 1)))) by lia.
  rewrite (take_drop_ld _ _ _ _ Hb). cbn [find_nul].
  destruct (b =? 0); [f_equal; lia|]. rewrite IH by lia. destruct (find_nul _); f_equal; lia.
Qed.

(** What a successful read of a string leaves in the array. *)
Definition cstring_in (arr text : bytes) : bytes := splice arr 0 (text ++ [0]).

Lemma length_cstring_in arr text : len text + 1 <= len arr -> length (cstring_in arr text) = length arr.
Proof.
  intros. unfold cstring_in. rewrite length_splice; rewrite ?length_app; cbn [length]; lia.
Qed.

Lemma find_nul_cstring_in arr text : text_ok text -> find_nul (cstring_in arr text) = Some (len text).
Proof.
  intros Ht. unfold cstring_in. rewrite splice_0, <- app_assoc. by apply find_nul_text.
Qed.

Lemma cstring_in_bytes arr text : bytes_ok arr -> text_ok text -> bytes_ok (cstring_in arr text).
Proof.
  intros Ha Ht. apply splice_bytes; [done|]. apply Forall_app_2; [by apply text_ok_bytes|].
  apply Forall_cons_2; [lia|apply Forall_nil_2].
Qed.

(** The reader, by what is in front of it. *)
Lemma read_cstring_eq p size off arr :
  buf_ok p size -> 0 <= off -> 0 < len arr ->
  mysql_wire_read_cstring (Some p) size (Some off) (Some arr) (len arr) =
    match find_nul (take (Z.to_nat (size - off)) (drop (Z.to_nat off) p)) with
    | None => (Err NEED_MORE, Some off, Some arr)
    | Some n =>
        if len arr <? n + 1 then (Err LIMIT, Some off, Some arr)
        else (Ret tt, Some (off + n + 1),
              Some (cstring_in arr (take (Z.to_nat n) (drop (Z.to_nat off) p))))
    end.
Proof.
  intros [Hs Hm Hb] Hoff Ha. unfold mysql_wire_read_cstring.
  destruct (Z.eqb_spec (len arr) 0) as [|_]; [lia|].
  destruct (Z.leb_spec size off) as [Hge|Hlt].
  { replace (Z.to_nat (size - off)) with 0%nat by lia. done. }
  rewrite scan_nul_eq by lia. set (l := take _ _).
  assert (bytes_ok l) as Hl by (by apply Forall_take, Forall_drop).
  assert (len l = size - off) as Hll by (unfold l; rewrite length_take, length_drop; lia).
  destruct (find_nul l) as [n|] eqn:Hn; [|by rewrite Z.eqb_refl].
  destruct (find_nul_Some _ _ Hl Hn) as (a & r & Har & Hla & _).
  pose proof (f_equal length Har) as Hlen. rewrite length_app in Hlen. cbn [length] in Hlen.
  destruct (Z.eqb_spec (off + n) size); [lia|]. rewrite size_sub_small by lia.
  replace (off + n - off) with n by lia. destruct (Z.ltb_spec (len arr) (n + 1)); [done|].
  rewrite ldn_Some by lia. set (text := take (Z.to_nat n) _).
  assert (len text = n) as Ht by (unfold text; rewrite length_take, length_drop; lia).
  rewrite stn_Some by lia. rewrite st_splice by (rewrite length_splice; lia).
  unfold cstring_in. rewrite <- splice_app by (cbn [length]; lia). rewrite Ht, Z.add_0_l. done.
Qed.

Section ReadCstring.
Context {T : Type} (p : bytes) (size : Z) (get : T -> bytes) (set : bytes -> T -> T).
Context (Hset : forall o, set (get o) o = o).

Lemma wp_rd_cstring (Q : unit -> dec T -> Prop) (R : mysql_wire_status_t -> dec T -> Prop) off o cap :
  buf_ok p size -> 0 <= off -> 0 < cap -> len (get o) = cap ->
  (forall text, off + len text + 1 <= size -> text_ok text -> len text + 1 <= cap ->
     Q tt (Dec (off + len text + 1) (set (cstring_in (get o) text) o))) ->
  (forall e, e = NEED_MORE \/ e = LIMIT -> R e (Dec off o)) ->
  wp (rd_cstring p size get set cap) Q R (Dec off o).
Proof.
  intros Hp Hoff Hcap Hlen HQ HR. unfold wp, rd_cstring. cbn [d_off d_out]. subst cap.
  rewrite read_cstring_eq by done. destruct Hp as [Hs Hm Hb]. set (l := take (Z.to_nat (size - off)) _).
  assert (bytes_ok l) as Hl by (by apply Forall_take, Forall_drop).
  destruct (find_nul l) as [n|] eqn:Hn; [|rewrite Hset; by apply HR; left].
  destruct (Z.ltb_spec (len (get o)) (n + 1)); [rewrite Hset; by apply HR; right|].
  destruct (find_nul_Some _ _ Hl Hn) as (a & r & Har & Hla & Ha).
  pose proof (f_equal length Har) as Hlen. unfold l in Hlen.
  rewrite length_take, length_drop, length_app in Hlen. cbn [length] in Hlen.
  assert (take (Z.to_nat n) (drop (Z.to_nat off) p) = a) as ->.
  { replace (Z.to_nat n) with (Z.to_nat n `min` Z.to_nat (size - off))%nat by lia.
    rewrite <- take_take. fold l. rewrite Har, <- Hla, Nat2Z.id. apply take_app_length. }
  rewrite <- Hla. apply HQ; try done; lia.
Qed.

Lemma parses_cstring o text l cap :
  buf_ok p (len p) -> text_ok text -> len (get o) = cap -> len text + 1 <= cap ->
  parses p (rd_cstring p (len p) get set cap) o (text ++ 0 :: l) tt
    (set (cstring_in (get o) text) o) l.
Proof.
  intros Hp Ht Hcap Hl off Hs. pose proof (suffix_at_len _ _ _ Hs) as Hlen.
  rewrite length_app in Hlen. cbn [length] in Hlen. pose proof Hs as (Hoff & _ & Hd).
  exists (off + len text + 1). split.
  - unfold rd_cstring. cbn [d_off d_out]. rewrite <- Hcap, read_cstring_eq by (done || lia).
    rewrite Hd, (take_ge (text ++ 0 :: l)) by (rewrite length_app; cbn [length]; lia).
    rewrite find_nul_text by done. destruct (Z.ltb_spec (len (get o)) (len text + 1)); [lia|].
    by rewrite Nat2Z.id, take_app_length.
  - apply (suffix_at_app p _ [0] l). apply (suffix_at_app p off text ([0] ++ l)). done.
Qed.
End ReadCstring.

(** ** The parsed greeting *)

(** The arrays keep their size and their terminators, and the length of the
    nonce stays within its array. *)
Record greeting_ok (g : mysql_wire_greeting_t) : Prop := {
  gok_version : len (g_server_version g) = MYSQL_WIRE_SERVER_VERSION_CAPACITY;
  gok_version_nul : is_Some (find_nul (g_server_version g));
  gok_plugin : len (g_auth_plugin g) = MYSQL_WIRE_AUTH_PLUGIN_NAME_CAPACITY;
  gok_plugin_nul : is_Some (find_nul (g_auth_plugin g));
  gok_data : len (g_auth_plugin_data g) = MYSQL_WIRE_AUTH_DATA_CAPACITY;
  gok_length : 0 <= g_auth_plugin_data_length g <= MYSQL_WIRE_AUTH_DATA_CAPACITY
}.

Lemma greeting_zero_ok : greeting_ok greeting_zero.
Proof. split; try done; cbn; eauto. Qed.

Section GreetingSafe.
Context (p : bytes) (size : Z) (Hp : buf_ok p size).

Lemma wp_greeting_part2 (Q : unit -> dec mysql_wire_greeting_t -> Prop) R auth_length off g :
  0 <= off <= size -> 0 <= auth_length < 256 -> greeting_ok g -> g_auth_plugin_data_length g = 8 ->
  (forall off' data n, off <= off' <= size -> 8 <= n <= 32 -> greeting_ok (g_set_auth data n g) ->
     Q tt (Dec off' (g_set_auth data n g))) ->
  R LIMIT (Dec off g) -> wp (greeting_part2 p size auth_length) Q R (Dec off g).
Proof.
  intros Hoff Ha Hg H8 HQ HR. pose proof Hp as [Hs Hm Hb]. destruct Hg as [G1 G2 G3 G4 G5 G6].
  unfold MYSQL_WIRE_AUTH_DATA_CAPACITY in *. unfold greeting_part2.
  do 3 dec_step. cbn zeta. rewrite (size_sub_small size off) by lia.
  replace (if 8 <? auth_length then size_sub auth_length 8 else 13)
    with (if 8 <? auth_length then auth_length - 8 else 13)
    by (destruct (Z.ltb_spec 8 auth_length); [rewrite size_sub_small; lia|done]).
  set (w0 := if 8 <? auth_length then _ else _).
  set (w1 := if w0 <? 13 then 13 else w0).
  assert (0 <= w1) by (unfold w1, w0; repeat case_match; blia).
  set (wire := if size - off <? w1 then size - off else w1).
  assert (0 <= wire <= size - off) as Hw by (unfold wire; case_match; blia).
  clearbody wire. clear w0 w1 H.
  apply wp_mono with (Q := fun _ s => s = Dec off g) (R := fun _ _ => False); [| |done].
  { destruct (Z.eqb_spec wire 0); [done|]. apply wp_access; [|done]. apply ld_is_Some. lia. }
  intros last s ->. set (copy := if _ && _ then wire - 1 else wire).
  assert (0 <= copy <= wire) as Hc.
  { unfold copy. destruct (Z.eqb_spec wire 0), (last =? 0); cbn [negb andb]; lia. }
  clearbody copy. do 4 dec_step; [done|]. unfold MYSQL_WIRE_AUTH_DATA_CAPACITY in *.
  rewrite !H8 in *. rewrite (size_sub_small 32 8) in * by lia. bsimp. dec_step.
  apply wp_mono with (Q := fun data s => s = Dec off g /\ len data = 32) (R := fun _ _ => False);
    [| |done].
  { destruct (Z.eqb_spec copy 0); [done|]. dec_step. apply (wp_access_ldn p size Hp); [lia..|].
    intros l Hl _. apply wp_access; [rewrite stn_Some by lia; eauto|].
    rewrite stn_Some by lia. intros d [= <-]. split; [done|]. rewrite length_splice; lia. }
  intros data s [-> Hd]. repeat dec_step. apply HQ; [lia..|].
  split; cbn; try done. unfold MYSQL_WIRE_AUTH_DATA_CAPACITY. lia.
Qed.

(** What holds of the output whatever the result, and of a parsed greeting. *)
Definition greeting_parsed (g : mysql_wire_greeting_t) : Prop :=
  greeting_ok g /\ g_protocol_version g = 10 /\ 8 <= g_auth_plugin_data_length g <= 20 /\
  0 <= g_capabilities g < 2 ^ 32.

Lemma wp_greeting_extended off g low :
  0 <= off <= size -> greeting_ok g -> g_auth_plugin_data_length g = 8 ->
  g_protocol_version g = 10 -> 0 <= low < 2 ^ 16 ->
  wp (greeting_extended p size low) (fun _ s => greeting_parsed (d_out s))
    (fun _ s => greeting_ok (d_out s)) (Dec off g).
Proof.
  intros Hoff Hg H8 H10 Hlow. pose proof Hp as [Hs Hm Hb]. unfold greeting_extended.
  repeat dec_step; [done|]. rewrite size_sub_small in * by lia. bsimp.
  apply (wp_next_byte p size Hp); [lia|]. intros cs _.
  repeat dec_step; try (destruct Hg; by split).
  pose proof (le_at_range p (off + 1 + 2) 2 Hb) as Hhi. set (hi := le_at p (off + 1 + 2) 2) in *.
  assert (0 <= Z.lor low (u32 (Z.shiftl hi 16)) < 2 ^ 32) as Hcaps.
  { rewrite u32_small; [rewrite lor_shiftl_add by lia; lia|]. rewrite Z.shiftl_mul_pow2 by lia. lia. }
  set (caps := Z.lor _ _) in *. clearbody caps.
  apply (wp_next_byte p size Hp); [lia|]. intros al Hal. repeat dec_step.
  set (g1 := g_set_capabilities _ _). assert (greeting_ok g1) as Hg1 by (destruct Hg; by split).
  set (Post := fun s : dec mysql_wire_greeting_t => 0 <= d_off s <= size /\ greeting_ok (d_out s) /\
    8 <= g_auth_plugin_data_length (d_out s) <= 32 /\ g_protocol_version (d_out s) = 10 /\
    g_capabilities (d_out s) = caps).
  apply wp_mono with (Q := fun _ s => Post s) (R := fun _ s => greeting_ok (d_out s)); [| |done].
  { destruct (negb _ && _); cbn [when]; [|apply wp_ret; unfold Post; cbn; split_and!; try done; lia].
    apply wp_greeting_part2; try done; try lia.
    intros off' data n Ho' Hn Hok. unfold Post. cbn. split_and!; try done; lia. }
  intros _ [off2 g2] (Ho2 & Hg2 & Hl2 & Hv2 & Hc2). cbn [d_off d_out] in *. repeat dec_step.
  apply wp_mono with (Q := fun _ s => Post s) (R := fun _ s => greeting_ok (d_out s)); [| |done].
  { destruct (negb _ && _); cbn [when]; [|by apply wp_ret].
    apply wp_rd_cstring; try done; try lia; [by intros []|apply Hg2|].
    intros text Ht Htok Htl. unfold Post. cbn. destruct Hg2 as [G1 G2 G3 G4 G5 G6].
    split_and!; try done; try lia. split; cbn; try done; [|rewrite find_nul_cstring_in; eauto].
    unfold MYSQL_WIRE_AUTH_PLUGIN_NAME_CAPACITY in *. rewrite length_cstring_in by lia. done. }
  intros _ [off3 g3] (Ho3 & Hg3 & Hl3 & Hv3 & Hc3). cbn [d_off d_out] in *.
  repeat dec_step. wp_step; repeat dec_step; bsimp; unfold greeting_parsed; cbn; rewrite ?Hc3.
  - destruct Hg3 as [G1 G2 G3 G4 G5 G6]. split_and!; try done; try lia.
  - split_and!; try done; lia.
Qed.

Lemma wp_greeting_body :
  wp (greeting_body p size) (fun _ s => greeting_parsed (d_out s))
    (fun _ s => greeting_ok (d_out s)) (Dec 0 greeting_zero).
Proof.
  pose proof greeting_zero_ok as H0. pose proof Hp as [Hs Hm Hb]. unfold greeting_body.
  repeat dec_step; [done|]. bsimp. apply (wp_next_byte p size Hp); [lia|]. intros v _.
  repeat dec_step; [done|]. bsimp. subst v.
  apply wp_rd_cstring; try done; try lia; [by intros []|].
  intros text Ht Htok Htl. set (g1 := g_set_version _ _).
  assert (greeting_ok g1) as Hg1.
  { destruct H0. split; cbn; try done; [|rewrite find_nul_cstring_in; eauto].
    unfold MYSQL_WIRE_SERVER_VERSION_CAPACITY in Htl.
    rewrite length_cstring_in; [done|]. change (len (zeros _)) with 128. lia. }
  repeat dec_step; try done; try (destruct Hg1; by split). rewrite size_sub_small in * by lia. bsimp.
  apply (wp_access_ldn p size Hp); [lia..|]. intros l Hl _. repeat dec_step.
  set (g1' := g_set_connection _ g1). assert (len (g_auth_plugin_data g1') = 32) as H32 by done.
  apply wp_access; [rewrite stn_Some by lia; eauto|]. rewrite stn_Some by lia. intros data [= <-].
  do 2 dec_step. set (g2 := g_set_auth _ _ _). assert (greeting_ok g2) as Hg2.
  { destruct Hg1. split; cbn; try done. rewrite length_splice; [done|lia|rewrite Hl; done]. }
  repeat dec_step. apply (wp_next_byte p size Hp); [lia|]. intros z _. repeat dec_step; try done.
  pose proof (le_at_range p (0 + 1 + len text + 1 + 4 + 8 + 1) 2 Hb) as Hlow.
  set (low := le_at p _ 2) in *. clearbody low. destruct (Z.eqb_spec
    (0 + 1 + len text + 1 + 4 + 8 + 1 + 2) size).
  - repeat dec_step. destruct Hg2. split_and!; try done; cbn; try lia.
  - apply wp_greeting_extended; try done; lia.
Qed.
End GreetingSafe.

(** ** What the requests contain *)

Definition login_prefix_bytes (capabilities max_packet_size character_set : Z) : bytes :=
  le_bytes 4 capabilities ++ le_bytes 4 max_packet_size ++ [character_set] ++ zeros 23.

Definition response_bytes (capabilities max_packet_size character_set : Z)
    (username auth_response : bytes) (database : option bytes) (auth_plugin : bytes) : bytes :=
  login_prefix_bytes capabilities max_packet_size character_set ++
  (username ++ [0]) ++ [len auth_response] ++ auth_response ++
  (match database with Some db => db ++ [0] | None => [] end) ++ (auth_plugin ++ [0]).

Lemma length_login_prefix_bytes c m cs : length (login_prefix_bytes c m cs) = 32%nat.
Proof. unfold login_prefix_bytes. rewrite !length_app, !length_le_bytes. done. Qed.

Lemma emits_login_prefix cap c m cs :
  0 <= c -> 0 <= m -> emits cap (login_prefix c m cs cap) (login_prefix_bytes c m cs).
Proof.
  intros Hc Hm. unfold login_prefix, login_prefix_bytes.
  apply emits_bind; [by apply emits_u32|]. apply emits_bind; [by apply emits_u32|].
  apply emits_bind; [apply emits_byte|]. apply (emits_append_checked cap (Some (zeros 23)) (zeros 23)).
  left. exists []. by rewrite app_nil_r.
Qed.

(** [value] points to the string [text]. *)
Definition points_to (value : ptr bytes) (text : bytes) : Prop :=
  text_ok text /\ exists r, value = Some (text ++ 0 :: r).

Lemma emits_cstring cap value text :
  points_to value text -> emits cap (mysql_wire_write_cstring cap value) (text ++ [0]).
Proof.
  intros [Ht [r ->]]. unfold mysql_wire_write_cstring. rewrite find_nul_text by done.
  change (emits cap (wr_data cap (Some (text ++ 0 :: r)) (len text);; wr_byte cap 0) (text ++ [0])).
  apply emits_bind; [|apply emits_byte]. apply emits_append_checked. eauto.
Qed.

Lemma run_enc_emits cap m l buf n :
  emits cap m l -> 0 <= cap <= len buf -> len buf < 2 ^ 63 ->
  exists buf', length buf' = length buf /\
  run_enc m (Some buf) (Some n) =
    if len l <=? cap then (Ret tt, Some (splice buf 0 l), Some (len l))
    else (Err LIMIT, Some buf', Some 0).
Proof.
  intros Hm Hc Hb. specialize (Hm (Enc buf 0)). cbn [e_buf e_off] in Hm. rewrite Z.add_0_l in Hm.
  specialize (Hm ltac:(unfold enc_ok; cbn; lia)). unfold run_enc.
  destruct (len l <=? cap).
  - rewrite Hm. by exists buf.
  - destruct Hm as ([buf' off'] & -> & Hl). by exists buf'.
Qed.

Lemma response_requires c :
  has_bits c client_required ->
  (Z.land c MYSQL_WIRE_CLIENT_PROTOCOL_41 =? 0) = false /\
  (Z.land c MYSQL_WIRE_CLIENT_SECURE_CONNECTION =? 0) = false /\
  (Z.land c MYSQL_WIRE_CLIENT_PLUGIN_AUTH =? 0) = false.
Proof.
  unfold client_required. rewrite !has_bits_lor. intros [[H1 H2] H3]. unfold has_bits in *.
  rewrite H1, H2, H3. done.
Qed.

Lemma ssl_request_eq c m cs buf cap n :
  0 <= c -> 0 <= m -> has_bits c MYSQL_WIRE_CLIENT_SSL -> 32 <= cap <= len buf -> len buf < 2 ^ 63 ->
  mysql_wire_build_ssl_request c m cs (Some buf) cap (Some n) =
    (Ret tt, Some (splice buf 0 (login_prefix_bytes c m cs)), Some 32).
Proof.
  intros Hc Hm Hssl Hcap Hb. unfold mysql_wire_build_ssl_request. unfold has_bits in Hssl.
  rewrite Hssl. change (MYSQL_WIRE_CLIENT_SSL =? 0) with false. cbn iota.
  destruct (run_enc_emits cap _ _ buf n (emits_login_prefix cap c m cs Hc Hm)) as (b & _ & ->); [lia..|].
  rewrite length_login_prefix_bytes. change (Z.of_nat 32) with 32.
  by destruct (Z.leb_spec 32 cap); [|lia].
Qed.

(** The database argument as the response uses it. *)
Definition database_arg (c : Z) (database : ptr bytes) (db : option bytes) : Prop :=
  if Z.land c MYSQL_WIRE_CLIENT_CONNECT_WITH_DB =? 0 then db = None
  else exists text, db = Some text /\ points_to database text.

Lemma handshake_response_eq c m cs user auth db plugin username auth_response database auth_plugin buf cap n :
  0 <= c -> 0 <= m -> has_bits c client_required ->
  points_to username user -> points_to auth_plugin plugin -> database_arg c database db ->
  (exists r, auth_response = Some (auth ++ r)) -> len auth <= 255 ->
  0 <= cap <= len buf -> len buf < 2 ^ 63 ->
  exists buf', length buf' = length buf /\
  mysql_wire_build_handshake_response c m cs username auth_response (len auth) database auth_plugin
      (Some buf) cap (Some n) =
    let l := response_bytes c m cs user auth db plugin in
    if len l <=? cap then (Ret tt, Some (splice buf 0 l), Some (len l))
    else (Err LIMIT, Some buf', Some 0).
Proof.
  intros Hc Hm Hreq Hu Hpl Hdb [r Har] Hau Hcap Hb. unfold mysql_wire_build_handshake_response.
  destruct Hu as [Hut [ur ->]], Hpl as [Hpt [pr ->]]. subst auth_response.
  destruct (response_requires c Hreq) as (-> & -> & ->).
  destruct (Z.ltb_spec 255 (len auth)); [lia|]. cbn [orb].
  set (with_db := negb (Z.land c MYSQL_WIRE_CLIENT_CONNECT_WITH_DB =? 0)).
  assert (emits cap (when with_db (mysql_wire_write_cstring cap database))
    (match db with Some t => t ++ [0] | None => [] end) /\
    with_db && match database with None => true | Some _ => false end = false) as [Hdbe ->].
  { unfold with_db, database_arg in *. destruct (Z.land c _ =? 0); cbn [negb].
    - subst db. split; [apply emits_ret|done].
    - destruct Hdb as (text & -> & Ht). split; [by apply emits_cstring|]. by destruct Ht as [_ [? ->]]. }
  apply run_enc_emits; [|lia|done]. unfold response_bytes.
  apply emits_bind; [by apply emits_login_prefix|].
  apply emits_bind; [apply emits_cstring; split; eauto|].
  apply emits_bind; [rewrite u8_small by lia; apply emits_byte|].
  apply emits_bind; [apply emits_append_checked; eauto|].
  apply emits_bind; [done|]. apply emits_cstring. split; eauto.
Qed.

(** ** Choice of capabilities *)

Lemma select_capabilities_spec g use_tls use_database out0 :
  exists r c, mysql_wire_select_client_capabilities (Some g) use_tls use_database (Some out0) =
      (r, Some c) /\
    (r = Ret tt ->
       has_bits (g_capabilities g) c /\ has_bits c client_required /\
       negb (Z.land c MYSQL_WIRE_CLIENT_SSL =? 0) = use_tls /\
       negb (Z.land c MYSQL_WIRE_CLIENT_CONNECT_WITH_DB =? 0) = use_database /\
       Z.land c 0x00010000 = 0) /\
    (r <> Ret tt -> r = Err INVALID /\ c = 0) /\
    (r = Ret tt <->
       has_bits (g_capabilities g) client_required /\
       (use_tls = true -> has_bits (g_capabilities g) MYSQL_WIRE_CLIENT_SSL) /\
       (use_database = true -> has_bits (g_capabilities g) MYSQL_WIRE_CLIENT_CONNECT_WITH_DB)).
Proof.
  set (caps := g_capabilities g).
  pose proof (has_bit_test caps 11 ltac:(lia)) as Hssl. change (2 ^ 11) with MYSQL_WIRE_CLIENT_SSL in Hssl.
  pose proof (has_bit_test caps 3 ltac:(lia)) as Hdb.
  change (2 ^ 3) with MYSQL_WIRE_CLIENT_CONNECT_WITH_DB in Hdb.
  cbn [mysql_wire_select_client_capabilities]. fold caps. cbn zeta.
  destruct (Z.eqb_spec (Z.land caps client_required) client_required) as [Hreq|Hreq]; cbn [negb].
  2: { eexists _, _. split_and!; try done. split; [done|]. by intros [? _]. }
  destruct (use_tls && (Z.land caps MYSQL_WIRE_CLIENT_SSL =? 0)) eqn:Et.
  { apply andb_true_iff in Et as [-> Et]. eexists _, _. split_and!; try done. split; [done|].
    intros (_ & Ht & _). apply Hssl in Ht; [|done]. congruence. }
  destruct (use_database && (Z.land caps MYSQL_WIRE_CLIENT_CONNECT_WITH_DB =? 0)) eqn:Ed.
  { apply andb_true_iff in Ed as [-> Ed]. eexists _, _. split_and!; try done. split; [done|].
    intros (_ & _ & Hd). apply Hdb in Hd; [|done]. congruence. }
  assert (use_tls = true -> has_bits caps MYSQL_WIRE_CLIENT_SSL) as Htls.
  { intros ->. by apply Hssl. }
  assert (use_database = true -> has_bits caps MYSQL_WIRE_CLIENT_CONNECT_WITH_DB) as Hwdb.
  { intros ->. by apply Hdb. }
  clear Hssl Hdb Et Ed. eexists _, _. split; [reflexivity|]. split_and!; [|done|].
  - intros _. split_and!.
    + destruct use_tls, use_database; rewrite !has_bits_lor; split_and!; try apply has_bits_land;
        first [exact Hreq | by apply Htls | by apply Hwdb | by apply has_bits_lor in Hreq as [? ?]].
    + unfold has_bits. destruct use_tls, use_database; split_bits; done.
    + destruct use_tls, use_database; split_bits; done.
    + destruct use_tls, use_database; split_bits; done.
    + destruct use_tls, use_database; split_bits; done.
  - split; [|done]. intros _. by split_and!.
Qed.

(** ** Properties *)

(** The greeting parser is safe on every byte string: it reads only the
    payload and writes only inside the fixed arrays of the result. Whatever the
    outcome, the version and plugin arrays keep their size and a terminator;
    and an accepted greeting has protocol 10, a nonce length from 8 to 20 and
    32-bit capabilities. *)
Theorem parse_greeting_safe p size out0 :
  buf_ok p size ->
  exists r g, mysql_wire_parse_greeting (Some p) size (Some out0) = (r, Some g) /\
    r <> Fault /\ greeting_ok g /\ (r = Ret tt -> greeting_parsed g).
Proof.
  intros Hp. pose proof (wp_greeting_body p size Hp) as Hwp. unfold wp in Hwp.
  cbn. unfold run_dec. destruct (greeting_body p size _) as [[[]|e|] [off g]]; [| |done].
  - exists (Ret tt), g. split_and!; try done. by apply Hwp.
  - exists (Err e), g. by split_and!.
Qed.

(** The client asks only for what the server offers. When the choice
    succeeds, every selected capability was advertised; protocol 4.1, secure
    connection and plugin authentication are selected; TLS is selected exactly
    when the caller asked for it and a database exactly when one is used; and
    multiple statements are never enabled. When the server lacks one of these,
    the choice fails and reports no capabilities. *)
Theorem select_capabilities_sound g use_tls use_database out0 :
  exists r c, mysql_wire_select_client_capabilities (Some g) use_tls use_database (Some out0) =
      (r, Some c) /\
    (r = Ret tt ->
       has_bits (g_capabilities g) c /\ has_bits c client_required /\
       negb (Z.land c MYSQL_WIRE_CLIENT_SSL =? 0) = use_tls /\
       negb (Z.land c MYSQL_WIRE_CLIENT_CONNECT_WITH_DB =? 0) = use_database /\
       Z.land c 0x00010000 = 0) /\
    (r <> Ret tt -> r = Err INVALID /\ c = 0) /\
    (r = Ret tt <->
       has_bits (g_capabilities g) client_required /\
       (use_tls = true -> has_bits (g_capabilities g) MYSQL_WIRE_CLIENT_SSL) /\
       (use_database = true -> has_bits (g_capabilities g) MYSQL_WIRE_CLIENT_CONNECT_WITH_DB)).
Proof. apply select_capabilities_spec. Qed.

(** An authentication switch request for a plugin whose name fits and a
    challenge of at most 32 bytes parses to exactly that name and challenge,
    without the terminator the server puts after the challenge. *)
Theorem parse_auth_switch_exact plugin data out0 :
  text_ok plugin -> len plugin < MYSQL_WIRE_AUTH_PLUGIN_NAME_CAPACITY ->
  bytes_ok data -> len data <= MYSQL_WIRE_AUTH_DATA_CAPACITY ->
  let payload := 0xfe :: plugin ++ 0 :: data ++ [0] in
  mysql_wire_parse_auth_switch (Some payload) (len payload) (Some out0) =
    (Ret tt, Some (mk_auth_switch (cstring_in (zeros 64) plugin) (splice (zeros 32) 0 data) (len data))).
Proof.
  intros Hp Hpl Hd Hdl payload. unfold MYSQL_WIRE_AUTH_PLUGIN_NAME_CAPACITY, MYSQL_WIRE_AUTH_DATA_CAPACITY in *.
  assert (len payload = 1 + len plugin + 1 + len data + 1) as Hlen.
  { unfold payload. cbn [length]. rewrite length_app. cbn [length]. rewrite length_app. cbn [length]. lia. }
  assert (bytes_ok payload) as Hb.
  { apply Forall_cons_2; [lia|]. apply Forall_app_2; [by apply text_ok_bytes|].
    apply Forall_cons_2; [lia|]. apply Forall_app_2; [done|]. apply Forall_cons_2; [lia|apply Forall_nil_2]. }
  assert (buf_ok payload (len payload)) as Hbuf by (split; try done; lia).
  cbn [mysql_wire_parse_auth_switch]. destruct (Z.ltb_spec (len payload) 2); [lia|].
  change (ld payload 0) with (Some 0xfe). change (negb (0xfe =? 0xfe)) with false. cbn iota.
  assert (suffix_at payload 1 (plugin ++ 0 :: data ++ [0])) as Hs1
    by apply (suffix_at_cons payload 0 0xfe), suffix_at_0.
  destruct (parses_cstring payload sw_plugin sw_set_plugin auth_switch_zero plugin (data ++ [0])
    MYSQL_WIRE_AUTH_PLUGIN_NAME_CAPACITY
    Hbuf Hp eq_refl ltac:(unfold MYSQL_WIRE_AUTH_PLUGIN_NAME_CAPACITY; lia) 1 Hs1) as (off & Heq & Hs).
  unfold run_dec, auth_switch_body, mbind, M_bind. rewrite Heq.
  pose proof (suffix_at_len _ _ _ Hs) as Hoff. rewrite length_app in Hoff. cbn [length] in Hoff.
  unfold offset, gets. cbn [d_off d_out]. rewrite size_sub_small by lia.
  replace (len payload - off) with (len data + 1) by lia.
  destruct (Z.eqb_spec (len data + 1) 0); [lia|]. cbn [negb andb].
  assert (ld payload (len payload - 1) = Some 0) as Hlast.
  { pose proof (suffix_at_app _ _ _ _ Hs) as Hz. apply suffix_at_ld in Hz.
    by replace (len payload - 1) with (off + len data) by lia. }
  unfold access. rewrite Hlast. cbn iota beta. change (0 =? 0) with true. cbn iota.
  replace (len data + 1 - 1) with (len data) by lia. unfold fail_if, MYSQL_WIRE_AUTH_DATA_CAPACITY.
  destruct (Z.ltb_spec 32 (len data)); [lia|].
  destruct (Z.eqb_spec (len data) 0) as [Hz|Hnz].
  - assert (data = []) as -> by (destruct data; [done|cbn [length] in Hz; lia]). done.
  - rewrite (suffix_at_ldn _ _ _ _ Hs). rewrite stn_Some by (try lia; change (len (sw_data _)) with 32; lia).
    done.
Qed.
