(* ===== verification/ServerHandshake.v ===== *)
(** * The server side of the handshake (tidessql/server/mysql/handshake.c, handshake.h)

    Encoding of the greeting, decoding of the TLS request and of the login, and
    the negotiation state machine that admits credentials only over TLS. *)

From S2P Require Import Prelude Codec Packet Frame Handshake.

(** ** Constants and data *)

(** "caching_sha2_password" *)
Definition TDSQL_MYSQL_AUTH_PLUGIN : bytes :=
  [99; 97; 99; 104; 105; 110; 103; 95; 115; 104; 97; 50; 95; 112; 97; 115; 115; 119; 111; 114; 100].

Definition TDSQL_MYSQL_SSL_BYTES : Z := 32.
Definition TDSQL_MYSQL_NONCE_BYTES : Z := 20.
Definition TDSQL_MYSQL_AUTH_BYTES : Z := 32.
Definition TDSQL_MYSQL_USERNAME_BYTES : Z := 128.
Definition TDSQL_MYSQL_DATABASE_BYTES : Z := 128.
Definition TDSQL_MYSQL_UTF8MB4_GENERAL_CI : Z := 45.
Definition TDSQL_MYSQL_BINARY_CHARSET : Z := 63.
Definition TDSQL_MYSQL_UTF8MB4_0900_AI_CI : Z := 255.
Definition TDSQL_MYSQL_SERVER_AUTOCOMMIT : Z := 0x0002.
Definition HANDSHAKE_PROTOCOL : Z := 10.
Definition HANDSHAKE_NONCE_FIRST : Z := 8.
Definition HANDSHAKE_RESERVED : Z := 10.
Definition HANDSHAKE_FIXED : Z := 1 + 4 + 8 + 1 + 2 + 1 + 2 + 2 + 1 + 10 + 13.

Record tdsql_mysql_login_header : Type := mk_login_header {
  lh_capabilities : Z;
  lh_max_packet_size : Z;
  lh_character_set : Z
}.

#[global] Instance login_header_eq_dec : EqDecision tdsql_mysql_login_header.
Proof. solve_decision. Defined.

Definition login_header_zero : tdsql_mysql_login_header := mk_login_header 0 0 0.

Record tdsql_mysql_login : Type := mk_login {
  login_header : tdsql_mysql_login_header;
  login_username : mysql_wire_bytes_t;
  login_database : mysql_wire_bytes_t;
  login_auth_response : mysql_wire_bytes_t;
  login_plugin : mysql_wire_bytes_t
}.

Definition login_zero : tdsql_mysql_login :=
  mk_login login_header_zero wire_bytes_zero wire_bytes_zero wire_bytes_zero wire_bytes_zero.

(** The phases of a negotiation; a zeroed one has not been initialised. *)
Inductive tdsql_mysql_phase : Type :=
| PHASE_ZERO
| TDSQL_MYSQL_WAIT_SSL
| TDSQL_MYSQL_WAIT_TLS
| TDSQL_MYSQL_WAIT_LOGIN
| TDSQL_MYSQL_WAIT_CREDENTIALS
| TDSQL_MYSQL_HANDSHAKE_FAILED.

#[global] Instance phase_eq_dec : EqDecision tdsql_mysql_phase.
Proof. solve_decision. Defined.

Record tdsql_mysql_negotiation : Type := mk_negotiation {
  n_header : tdsql_mysql_login_header;
  n_advertised : Z;
  n_phase : tdsql_mysql_phase
}.

(** ** Flags and strings *)

Definition handshake_required : Z :=
  Z.lor (Z.lor (Z.lor MYSQL_WIRE_CLIENT_PROTOCOL_41 MYSQL_WIRE_CLIENT_SSL)
    MYSQL_WIRE_CLIENT_SECURE_CONNECTION) MYSQL_WIRE_CLIENT_PLUGIN_AUTH.

Definition handshake_character_set (character_set : Z) : bool :=
  (character_set =? TDSQL_MYSQL_BINARY_CHARSET) ||
  (character_set =? TDSQL_MYSQL_UTF8MB4_GENERAL_CI) ||
  (character_set =? TDSQL_MYSQL_UTF8MB4_0900_AI_CI).

Definition tdsql_mysql_server_capabilities (database : bool) : Z :=
  Z.lor (Z.lor (Z.lor (Z.lor (Z.lor handshake_required MYSQL_WIRE_CLIENT_LONG_PASSWORD)
    MYSQL_WIRE_CLIENT_LONG_FLAG) MYSQL_WIRE_CLIENT_TRANSACTIONS) MYSQL_WIRE_CLIENT_DEPRECATE_EOF)
    (if database then MYSQL_WIRE_CLIENT_CONNECT_WITH_DB else 0).

(** [a & ~b] is [Z.ldiff a b]. *)
Definition handshake_flags (advertised client : Z) : server_result unit :=
  if negb (Z.land advertised handshake_required =? handshake_required)
  then Err TDSQL_MYSQL_INVALID
  else if negb (Z.ldiff advertised (tdsql_mysql_server_capabilities true) =? 0)
  then Err TDSQL_MYSQL_UNSUPPORTED
  else if negb (Z.land client handshake_required =? handshake_required)
  then Err TDSQL_MYSQL_UNSUPPORTED
  else if negb (Z.ldiff client advertised =? 0) then Err TDSQL_MYSQL_UNSUPPORTED
  else Ret tt.

(** The length of a string in an array of [capacity] bytes. *)
Definition handshake_string (value : bytes) (capacity : Z) : server_result Z :=
  match ldn value 0 capacity with
  | None => Fault
  | Some l => match find_nul l with Some n => Ret n | None => Err TDSQL_MYSQL_LIMIT end
  end.

(** ** Greeting *)

(** The stores into the local array [encoded], whose size is [capacity]. Its
    bytes are not initialised by the code; the model starts from zeros, and only
    bytes that were stored are copied out. *)
Definition greeting_stores (g : mysql_wire_greeting_t) (version plugin capacity : Z)
    : M tdsql_mysql_status enc unit :=
  put_byte HANDSHAKE_PROTOCOL;;
  text ← access (ldn (g_server_version g) 0 (version + 1)); put_bytes text;;
  map_err of_wire (wr_u32 capacity (g_connection_id g));;
  part1 ← access (ldn (g_auth_plugin_data g) 0 HANDSHAKE_NONCE_FIRST); put_bytes part1;;
  put_byte 0;;
  map_err of_wire (wr_u16 capacity (u16 (g_capabilities g)));;
  put_byte (g_character_set g);;
  map_err of_wire (wr_u16 capacity (g_status_flags g));;
  map_err of_wire (wr_u16 capacity (u16 (Z.shiftr (g_capabilities g) 16)));;
  put_byte (TDSQL_MYSQL_NONCE_BYTES + 1);;
  put_bytes (zeros HANDSHAKE_RESERVED);;
  part2 ← access (ldn (g_auth_plugin_data g) HANDSHAKE_NONCE_FIRST
                    (TDSQL_MYSQL_NONCE_BYTES - HANDSHAKE_NONCE_FIRST)); put_bytes part2;;
  put_byte 0;;
  name ← access (ldn (g_auth_plugin g) 0 (plugin + 1)); put_bytes name.

Definition greeting_encoded_size : Z :=
  HANDSHAKE_FIXED + MYSQL_WIRE_SERVER_VERSION_CAPACITY + MYSQL_WIRE_AUTH_PLUGIN_NAME_CAPACITY.

(** The checks before the size is known: the lengths of the two strings. *)
Definition greeting_lengths (g : mysql_wire_greeting_t) : server_result (Z * Z) :=
  match handshake_flags (g_capabilities g) (g_capabilities g) with
  | Ret _ =>
      match handshake_string (g_server_version g) MYSQL_WIRE_SERVER_VERSION_CAPACITY with
      | Ret version =>
          match handshake_string (g_auth_plugin g) MYSQL_WIRE_AUTH_PLUGIN_NAME_CAPACITY with
          | Ret plugin =>
              if version =? 0 then Err TDSQL_MYSQL_INVALID
              else if negb (plugin =? len TDSQL_MYSQL_AUTH_PLUGIN) then Err TDSQL_MYSQL_UNSUPPORTED
              else
                match ldn (g_auth_plugin g) 0 plugin with
                | None => Fault
                | Some name =>
                    if negb (bool_decide (name = TDSQL_MYSQL_AUTH_PLUGIN))
                    then Err TDSQL_MYSQL_UNSUPPORTED else Ret (version, plugin)
                end
          | Err e => Err e
          | Fault => Fault
          end
      | Err e => Err e
      | Fault => Fault
      end
  | Err e => Err e
  | Fault => Fault
  end.

Definition tdsql_mysql_greeting_encode (greeting : ptr mysql_wire_greeting_t)
    (out : ptr tdsql_mysql_output) : server_result unit * ptr tdsql_mysql_output :=
  match greeting, out with
  | Some g, Some o =>
      if negb (g_protocol_version g =? HANDSHAKE_PROTOCOL) || (g_connection_id g =? 0)
         || negb (g_auth_plugin_data_length g =? TDSQL_MYSQL_NONCE_BYTES)
         || negb (g_character_set g =? TDSQL_MYSQL_BINARY_CHARSET)
         || negb (g_status_flags g =? TDSQL_MYSQL_SERVER_AUTOCOMMIT)
      then (Err TDSQL_MYSQL_INVALID, out)
      else
        match greeting_lengths g with
        | Ret (version, plugin) =>
            let size := HANDSHAKE_FIXED + version + 1 + plugin + 1 in
            if out_capacity o <? size then (Err TDSQL_MYSQL_LIMIT, out)
            else
              match out_data o with
              | None => (Ret tt, Some (mk_output None (out_capacity o) size))
              | Some data =>
                  match greeting_stores g version plugin greeting_encoded_size
                          (Enc (zeros greeting_encoded_size) 0) with
                  | (Ret _, s) =>
                      match ldn (e_buf s) 0 (e_off s) with
                      | None => (Fault, out)
                      | Some l =>
                          match stn data 0 l with
                          | None => (Fault, out)
                          | Some data' => (Ret tt, Some (mk_output (Some data') (out_capacity o) (e_off s)))
                          end
                      end
                  | (Err e, _) => (Err e, out)
                  | (Fault, _) => (Fault, out)
                  end
              end
        | Err e => (Err e, out)
        | Fault => (Fault, out)
        end
  | _, _ => (Err TDSQL_MYSQL_INVALID, out)
  end.

(** ** Decoding of the client's messages *)

Abbreviation L T A := (M tdsql_mysql_status (dec T) A) (only parsing).

Definition lift {E S A} (r : outcome E A) : M E S A := fun s => (r, s).

(** The common header, read into a local that is the output of this decoder. *)
Definition handshake_header_body (d : bytes) (size advertised : Z) : L tdsql_mysql_login_header unit :=
  fail_if (size <? TDSQL_MYSQL_SSL_BYTES) TDSQL_MYSQL_INVALID;;
  capabilities ← map_err of_wire (rd_u32 d size);
  max_packet_size ← map_err of_wire (rd_u32 d size);
  lift (handshake_flags advertised capabilities);;
  character_set ← next_byte d;
  fail_if (max_packet_size =? 0) TDSQL_MYSQL_INVALID;;
  fail_if (negb (handshake_character_set character_set)) TDSQL_MYSQL_UNSUPPORTED;;
  filler ← access (ldn d 9 23);
  fail_if (negb (bool_decide (filler = zeros 23))) TDSQL_MYSQL_INVALID;;
  out_set (fun _ => mk_login_header capabilities max_packet_size character_set).

Definition handshake_header (data : ptr bytes) (size advertised : Z)
    (out : ptr tdsql_mysql_login_header) : server_result unit * ptr tdsql_mysql_login_header :=
  match data, out with
  | Some d, Some o =>
      match handshake_header_body d size advertised (Dec 0 login_header_zero) with
      | (Ret _, s) => (Ret tt, Some (d_out s))
      | (Err e, _) => (Err e, out)
      | (Fault, _) => (Fault, out)
      end
  | _, _ => (Err TDSQL_MYSQL_INVALID, out)
  end.

Definition tdsql_mysql_ssl_decode (data : ptr bytes) (size advertised : Z)
    (out : ptr tdsql_mysql_login_header) : server_result unit * ptr tdsql_mysql_login_header :=
  if negb (size =? TDSQL_MYSQL_SSL_BYTES) then (Err TDSQL_MYSQL_INVALID, out)
  else handshake_header data size advertised out.

(** A view of the string at the offset, without its terminator. *)
Definition handshake_cstring {T} (d : bytes) (size limit : Z) : L T mysql_wire_bytes_t :=
  off ← offset;
  fail_if (size <=? off) TDSQL_MYSQL_INVALID;;
  rest ← access (ldn d off (size_sub size off));
  match find_nul rest with
  | None => fail TDSQL_MYSQL_INVALID
  | Some length =>
      fail_if (limit <? length) TDSQL_MYSQL_LIMIT;;
      view ← access (ldn d off length);
      skip (length + 1);;
      mret (mk_wire_bytes (Some view) length false)
  end.

(** The members after the header; [header] has been decoded. *)
Definition login_body (d : bytes) (size : Z) (header : tdsql_mysql_login_header)
    : L tdsql_mysql_login unit :=
  username ← handshake_cstring d size TDSQL_MYSQL_USERNAME_BYTES;
  off ← offset;
  fail_if ((wb_length username =? 0) || (size <=? off)) TDSQL_MYSQL_INVALID;;
  bytes ← next_byte d;
  fail_if (negb (bytes =? 0) && negb (bytes =? TDSQL_MYSQL_AUTH_BYTES)) TDSQL_MYSQL_INVALID;;
  off ← offset;
  fail_if (size_sub size off <? bytes) TDSQL_MYSQL_INVALID;;
  auth ← access (ldn d off bytes);
  skip bytes;;
  database ←
    (if Z.land (lh_capabilities header) MYSQL_WIRE_CLIENT_CONNECT_WITH_DB =? 0
     then mret wire_bytes_zero
     else database ← handshake_cstring d size TDSQL_MYSQL_DATABASE_BYTES;
          fail_if (wb_length database =? 0) TDSQL_MYSQL_INVALID;;
          mret database);
  plugin ← handshake_cstring d size (MYSQL_WIRE_AUTH_PLUGIN_NAME_CAPACITY - 1);
  fail_if (negb (wb_length plugin =? len TDSQL_MYSQL_AUTH_PLUGIN)
           || negb (bool_decide (wb_data plugin = Some TDSQL_MYSQL_AUTH_PLUGIN)))
    TDSQL_MYSQL_UNSUPPORTED;;
  off ← offset;
  fail_if (negb (off =? size)) TDSQL_MYSQL_INVALID;;
  out_set (fun _ => mk_login header username database (mk_wire_bytes (Some auth) bytes false) plugin).

Definition tdsql_mysql_login_decode (data : ptr bytes) (size advertised : Z)
    (out : ptr tdsql_mysql_login) : server_result unit * ptr tdsql_mysql_login :=
  match out with
  | None => (Err TDSQL_MYSQL_INVALID, out)
  | Some _ =>
      match handshake_header data size advertised (Some login_header_zero), data with
      | (Ret _, Some header), Some d =>
          match login_body d size header (Dec TDSQL_MYSQL_SSL_BYTES login_zero) with
          | (Ret _, s) => (Ret tt, Some (d_out s))
          | (Err e, _) => (Err e, out)
          | (Fault, _) => (Fault, out)
          end
      | (Err e, _), _ => (Err e, out)
      | _, _ => (Fault, out)
      end
  end.

(** ** Negotiation *)

Definition tdsql_mysql_negotiation_init (out : ptr tdsql_mysql_negotiation) (advertised : Z)
    : server_result unit * ptr tdsql_mysql_negotiation :=
  match out with
  | None => (Err TDSQL_MYSQL_INVALID, out)
  | Some n =>
      if negb (bool_decide (n_phase n = PHASE_ZERO)) then (Err TDSQL_MYSQL_INVALID, out)
      else
        match handshake_flags advertised advertised with
        | Ret _ => (Ret tt, Some (mk_negotiation login_header_zero advertised TDSQL_MYSQL_WAIT_SSL))
        | r => (r, out)
        end
  end.

Definition set_phase (n : tdsql_mysql_negotiation) phase :=
  mk_negotiation (n_header n) (n_advertised n) phase.

(** ssl_decode writes into n->header; login_decode into a local. *)
Definition tdsql_mysql_negotiation_accept (negotiation : ptr tdsql_mysql_negotiation) (data : ptr bytes)
    (size sequence : Z) (tls : bool) (out : ptr tdsql_mysql_login)
    : server_result unit * ptr tdsql_mysql_negotiation * ptr tdsql_mysql_login :=
  match negotiation with
  | None => (Err TDSQL_MYSQL_INVALID, negotiation, out)
  | Some n =>
      let failed r n := (r, Some (set_phase n TDSQL_MYSQL_HANDSHAKE_FAILED), out) in
      match n_phase n, tls with
      | PHASE_ZERO, _ | TDSQL_MYSQL_HANDSHAKE_FAILED, _ => (Err TDSQL_MYSQL_INVALID, negotiation, out)
      | TDSQL_MYSQL_WAIT_SSL, false =>
          if negb (sequence =? 1) then failed (Err TDSQL_MYSQL_SEQUENCE) n
          else
            match tdsql_mysql_ssl_decode data size (n_advertised n) (Some (n_header n)) with
            | (Ret _, Some header) =>
                (Ret tt, Some (mk_negotiation header (n_advertised n) TDSQL_MYSQL_WAIT_TLS), out)
            | (r, Some header) => failed r (mk_negotiation header (n_advertised n) (n_phase n))
            | (_, None) => failed Fault n
            end
      | TDSQL_MYSQL_WAIT_LOGIN, true =>
          if negb (sequence =? 2) then failed (Err TDSQL_MYSQL_SEQUENCE) n
          else
            match out with
            | None => failed (Err TDSQL_MYSQL_INVALID) n
            | Some _ =>
                match tdsql_mysql_login_decode data size (n_advertised n) (Some login_zero) with
                | (Ret _, Some login) =>
                    if negb (lh_capabilities (login_header login) =? lh_capabilities (n_header n))
                       || negb (lh_max_packet_size (login_header login) =? lh_max_packet_size (n_header n))
                       || negb (lh_character_set (login_header login) =? lh_character_set (n_header n))
                    then failed (Err TDSQL_MYSQL_INVALID) n
                    else (Ret tt, Some (set_phase n TDSQL_MYSQL_WAIT_CREDENTIALS), Some login)
                | (Ret _, None) => failed Fault n
                | (r, _) => failed r n
                end
            end
      | _, _ => failed (Err TDSQL_MYSQL_INVALID) n
      end
  end.

Definition tdsql_mysql_negotiation_tls_ready (negotiation : ptr tdsql_mysql_negotiation)
    : server_result unit * ptr tdsql_mysql_negotiation :=
  match negotiation with
  | None => (Err TDSQL_MYSQL_INVALID, negotiation)
  | Some n =>
      match n_phase n with
      | PHASE_ZERO => (Err TDSQL_MYSQL_INVALID, negotiation)
      | TDSQL_MYSQL_WAIT_TLS => (Ret tt, Some (set_phase n TDSQL_MYSQL_WAIT_LOGIN))
      | _ => (Err TDSQL_MYSQL_INVALID, Some (set_phase n TDSQL_MYSQL_HANDSHAKE_FAILED))
      end
  end.

(** ** Lemmas on the decoders *)

Lemma wp_lift {E S A} (r : outcome E A) (Q : A -> S -> Prop) (R : E -> S -> Prop) s :
  r <> Fault -> (forall a, r = Ret a -> Q a s) -> (forall e, r = Err e -> R e s) -> wp (lift r) Q R s.
Proof. intros Hf HQ HR. unfold wp, lift. destruct r; auto. Qed.

Lemma handshake_flags_total a c : handshake_flags a c <> Fault.
Proof. unfold handshake_flags. by repeat case_match. Qed.

(** [c] has no bit outside [m]. *)
Definition only_bits (c m : Z) : Prop := Z.ldiff c m = 0.

Lemma only_bits_has c m : only_bits c m <-> has_bits m c.
Proof.
  unfold only_bits, has_bits. split; intros H; apply Z.bits_inj'; intros n Hn;
    apply (f_equal (fun z => Z.testbit z n)) in H.
  - rewrite Z.ldiff_spec, Z.bits_0 in H. rewrite Z.land_spec.
    destruct (Z.testbit c n), (Z.testbit m n); done.
  - rewrite Z.land_spec in H. rewrite Z.ldiff_spec, Z.bits_0.
    destruct (Z.testbit c n), (Z.testbit m n); done.
Qed.

Lemma handshake_flags_ok a c :
  handshake_flags a c = Ret tt <->
  has_bits a handshake_required /\ has_bits (tdsql_mysql_server_capabilities true) a /\
  has_bits c handshake_required /\ has_bits a c.
Proof.
  rewrite <- (only_bits_has a), <- (only_bits_has c). unfold handshake_flags, has_bits, only_bits.
  generalize (tdsql_mysql_server_capabilities true) handshake_required. intros caps req.
  destruct (Z.eqb_spec (Z.land a req) req); cbn [negb]; [|split; [done|by intros (? & ? & ? & ?)]].
  destruct (Z.eqb_spec (Z.ldiff a caps) 0); cbn [negb]; [|split; [done|by intros (? & ? & ? & ?)]].
  destruct (Z.eqb_spec (Z.land c req) req); cbn [negb]; [|split; [done|by intros (? & ? & ? & ?)]].
  destruct (Z.eqb_spec (Z.ldiff c a) 0); cbn [negb]; [by split_and!|split; [done|by intros (? & ? & ? & ?)]].
Qed.

(** What the server knows of an accepted header. *)
Record header_ok (advertised : Z) (h : tdsql_mysql_login_header) : Prop := {
  hok_required : has_bits (lh_capabilities h) handshake_required;
  hok_advertised : has_bits advertised (lh_capabilities h);
  hok_max : 0 < lh_max_packet_size h < 2 ^ 32;
  hok_charset : handshake_character_set (lh_character_set h) = true
}.

Section Decoding.
Context (d : bytes) (size advertised : Z) (Hd : buf_ok d size).

Lemma wp_handshake_header_body :
  wp (handshake_header_body d size advertised) (fun _ s => header_ok advertised (d_out s))
    (fun _ _ => True) (Dec 0 login_header_zero).
Proof.
  pose proof Hd as [Hs Hm Hb]. unfold handshake_header_body.
  repeat dec_step; try done. unfold TDSQL_MYSQL_SSL_BYTES in *. bsimp.
  apply wp_lift; [apply handshake_flags_total| |done]. intros [] Hfl.
  apply handshake_flags_ok in Hfl as (_ & _ & Hreq & Hadv).
  dec_step. apply (wp_next_byte d size Hd); [lia|]. intros cs _. repeat dec_step; [done..|].
  apply (wp_access_ldn d size Hd); [lia..|]. intros filler _ _. repeat dec_step; [done|].
  pose proof (le_at_range d (0 + 4) 4 Hb). bsimp. split; cbn; try done. lia.
Qed.

Lemma wp_handshake_cstring {T} (Q : mysql_wire_bytes_t -> dec T -> Prop) (R : tdsql_mysql_status -> dec T -> Prop)
    limit off o :
  0 <= off ->
  (forall text, text_ok text -> len text <= limit -> off + len text + 1 <= size ->
     Q (wire_bytes_of text) (Dec (off + len text + 1) o)) ->
  (forall e, R e (Dec off o)) ->
  wp (handshake_cstring d size limit) Q R (Dec off o).
Proof.
  intros Ho HQ HR. pose proof Hd as [Hs Hm Hb]. unfold handshake_cstring.
  repeat dec_step; [apply HR|]. bsimp. rewrite size_sub_small by lia.
  rewrite ldn_Some by lia. set (rest := take _ _).
  assert (bytes_ok rest) as Hr by (by apply Forall_take, Forall_drop).
  apply wp_access; [eauto|]. intros l [= <-].
  destruct (find_nul rest) as [n|] eqn:Hn; [|apply wp_fail, HR].
  destruct (find_nul_Some _ _ Hr Hn) as (a & r & Har & Hla & Hat).
  assert (ldn d off n = Some a) as Hld.
  { pose proof (f_equal length Har) as Hl. unfold rest in Hl.
    rewrite length_take, length_drop, length_app in Hl. cbn [length] in Hl.
    rewrite ldn_Some by lia. f_equal.
    replace (Z.to_nat n) with (Z.to_nat n `min` Z.to_nat (size - off))%nat by lia.
    rewrite <- take_take. fold rest. rewrite Har, <- Hla, Nat2Z.id. apply take_app_length. }
  assert (off + n + 1 <= size).
  { pose proof (f_equal length Har) as Hl. unfold rest in Hl.
    rewrite length_take, length_drop, length_app in Hl. cbn [length] in Hl. lia. }
  repeat dec_step; [apply HR|]. rewrite Hld. apply wp_access; [eauto|]. intros view [= <-].
  repeat dec_step. bsimp. subst n. rewrite Z.add_assoc. by apply HQ.
Qed.

Lemma handshake_header_total o :
  exists r h, handshake_header (Some d) size advertised (Some o) = (r, Some h) /\ r <> Fault /\
    (r = Ret tt -> header_ok advertised h) /\ (r <> Ret tt -> h = o).
Proof.
  pose proof wp_handshake_header_body as Hwp. unfold wp in Hwp. unfold handshake_header.
  destruct (handshake_header_body d size advertised _) as [[[]|e|] s]; [| |done]; by eexists _, _.
Qed.
End Decoding.

(** What the server knows of an accepted login. *)
Record login_ok (advertised : Z) (l : tdsql_mysql_login) : Prop := {
  lok_header : header_ok advertised (login_header l);
  lok_username : exists user, login_username l = wire_bytes_of user /\ text_ok user /\
    1 <= len user <= TDSQL_MYSQL_USERNAME_BYTES;
  lok_auth : exists auth, login_auth_response l = wire_bytes_of auth /\
    (len auth = 0 \/ len auth = TDSQL_MYSQL_AUTH_BYTES);
  lok_database :
    if Z.land (lh_capabilities (login_header l)) MYSQL_WIRE_CLIENT_CONNECT_WITH_DB =? 0
    then login_database l = wire_bytes_zero
    else exists db, login_database l = wire_bytes_of db /\ text_ok db /\
      1 <= len db <= TDSQL_MYSQL_DATABASE_BYTES;
  lok_plugin : login_plugin l = wire_bytes_of TDSQL_MYSQL_AUTH_PLUGIN
}.

Lemma wp_login_body d size advertised h :
  buf_ok d size -> header_ok advertised h ->
  wp (login_body d size h) (fun _ s => login_ok advertised (d_out s)) (fun _ _ => True)
    (Dec TDSQL_MYSQL_SSL_BYTES login_zero).
Proof.
  intros Hd Hh. pose proof Hd as [Hs Hm Hb]. unfold login_body, TDSQL_MYSQL_SSL_BYTES. dec_step.
  apply wp_handshake_cstring; [done|lia| |done]. intros user Hu Hul Huo.
  repeat dec_step; [done|]. bsimp. apply (wp_next_byte d size Hd); [cbn in *; lia|].
  intros n Hn. repeat dec_step; [done..|]. rewrite size_sub_small in * by (cbn in *; lia). bsimp.
  apply (wp_access_ldn d size Hd); [lia..|]. intros auth Hau _. repeat dec_step.
  set (has_db := Z.land (lh_capabilities h) _ =? 0).
  apply wp_mono with (R := fun _ _ => True)
    (Q := fun db s => 0 <= d_off s <= size /\
       if has_db then db = wire_bytes_zero
       else exists t, db = wire_bytes_of t /\ text_ok t /\ 1 <= len t <= TDSQL_MYSQL_DATABASE_BYTES);
    [| |done].
  { destruct has_db; [apply wp_ret; split; [cbn; lia|done]|]. dec_step. apply wp_handshake_cstring; [done|lia| |done].
    intros t Ht Htl Hto. repeat dec_step; [done|]. bsimp. cbn in *. split; [lia|].
    exists t. split_and!; try done. lia. }
  intros db [off2 o2] [Ho2 Hdb]. cbn [d_off] in Ho2. dec_step.
  apply wp_handshake_cstring; [done|lia| |done]. intros plugin _ _ Hpo.
  repeat dec_step; [done..|]. bsimp. split; cbn [d_out login_header login_username login_database
    login_auth_response login_plugin]; try done.
  - exists user. split_and!; try done; cbn in *; lia.
  - exists auth. split; [unfold wire_bytes_of; by rewrite Hau|]. unfold TDSQL_MYSQL_AUTH_BYTES in *.
    repeat match goal with H : _ \/ _ |- _ => destruct H end; bsimp; lia.
  - match goal with H : bool_decide _ = true |- _ => apply bool_decide_eq_true in H; cbn in H;
      injection H as -> end. done.
Qed.

Lemma login_decode_total d size advertised o :
  buf_ok d size ->
  exists r l, tdsql_mysql_login_decode (Some d) size advertised (Some o) = (r, Some l) /\ r <> Fault /\
    (r = Ret tt -> login_ok advertised l) /\ (r <> Ret tt -> l = o).
Proof.
  intros Hd. unfold tdsql_mysql_login_decode.
  destruct (handshake_header_total d size advertised Hd login_header_zero) as (r & h & -> & Hr & Hh & _).
  destruct r as [[]|e|]; [| |done].
  - pose proof (wp_login_body d size advertised h Hd (Hh eq_refl)) as Hwp. unfold wp in Hwp.
    destruct (login_body d size h _) as [[[]|e|] s]; [| |done]; by eexists _, _.
  - by eexists _, _.
Qed.

Lemma ssl_decode_total d size advertised o :
  buf_ok d size ->
  exists r h, tdsql_mysql_ssl_decode (Some d) size advertised (Some o) = (r, Some h) /\ r <> Fault /\
    (r = Ret tt -> size = 32 /\ header_ok advertised h) /\ (r <> Ret tt -> h = o).
Proof.
  intros Hd. unfold tdsql_mysql_ssl_decode, TDSQL_MYSQL_SSL_BYTES.
  destruct (Z.eqb_spec size 32); cbn [negb]; [|by eexists _, _].
  destruct (handshake_header_total d size advertised Hd o) as (r & h & -> & Hr & Hh & Ho).
  eexists _, _. split_and!; try done. intros Hret. split; [done|by apply Hh].
Qed.

(** ** The decoders on what the client builds *)


Section Accepting.
Context (c m cs advertised : Z).
Context (Hc : 0 <= c < 2 ^ 32) (Hm : 0 < m < 2 ^ 32).
Context (Hcs : handshake_character_set cs = true).
Context (Hflags : handshake_flags advertised c = Ret tt).







Lemma plugin_text : text_ok TDSQL_MYSQL_AUTH_PLUGIN.
Proof. by apply text_okb_ok. Qed.




End Accepting.

(** ** The greeting on the wire *)

Definition greeting_bytes (ver nonce : bytes) (connection caps charset status : Z) : bytes :=
  [HANDSHAKE_PROTOCOL] ++ (ver ++ [0]) ++ le_bytes 4 connection ++ take 8 nonce ++ [0] ++
  le_bytes 2 (u16 caps) ++ [charset] ++ le_bytes 2 status ++ le_bytes 2 (u16 (Z.shiftr caps 16)) ++
  [21] ++ zeros 10 ++ drop 8 nonce ++ [0] ++ (TDSQL_MYSQL_AUTH_PLUGIN ++ [0]).

(** A greeting that the server may send: its strings and its nonce. *)
Record server_greeting (g : mysql_wire_greeting_t) (ver nonce : bytes) : Prop := {
  sg_protocol : g_protocol_version g = HANDSHAKE_PROTOCOL;
  sg_version : text_ok ver /\ 1 <= len ver < MYSQL_WIRE_SERVER_VERSION_CAPACITY /\
    exists r, g_server_version g = ver ++ 0 :: r /\
      len (g_server_version g) = MYSQL_WIRE_SERVER_VERSION_CAPACITY;
  sg_connection : 0 < g_connection_id g < 2 ^ 32;
  sg_capabilities : 0 <= g_capabilities g < 2 ^ 32 /\
    handshake_flags (g_capabilities g) (g_capabilities g) = Ret tt;
  sg_character_set : g_character_set g = TDSQL_MYSQL_BINARY_CHARSET;
  sg_status : g_status_flags g = TDSQL_MYSQL_SERVER_AUTOCOMMIT;
  sg_nonce : bytes_ok nonce /\ len nonce = TDSQL_MYSQL_NONCE_BYTES /\
    exists r, g_auth_plugin_data g = nonce ++ r;
  sg_nonce_length : g_auth_plugin_data_length g = TDSQL_MYSQL_NONCE_BYTES;
  sg_plugin : exists r, g_auth_plugin g = TDSQL_MYSQL_AUTH_PLUGIN ++ 0 :: r /\
    len (g_auth_plugin g) = MYSQL_WIRE_AUTH_PLUGIN_NAME_CAPACITY
}.

Definition greeting_wire (g : mysql_wire_greeting_t) (ver nonce : bytes) : bytes :=
  greeting_bytes ver nonce (g_connection_id g) (g_capabilities g) (g_character_set g) (g_status_flags g).

Lemma ldn_prefix a r n : n = len a -> ldn (a ++ r) 0 n = Some a.
Proof.
  intros ->. rewrite ldn_Some by (rewrite ?length_app; lia).
  by rewrite drop_0, Nat2Z.id, take_app_length.
Qed.

Lemma ldn_middle a b r i n : i = len a -> n = len b -> ldn (a ++ b ++ r) i n = Some b.
Proof.
  intros -> ->. rewrite ldn_Some by (rewrite ?length_app; lia).
  by rewrite !Nat2Z.id, drop_app_length, take_app_length.
Qed.

Section GreetingWire.
Context (g : mysql_wire_greeting_t) (ver nonce : bytes) (Hg : server_greeting g ver nonce).

Lemma length_greeting_wire : len (greeting_wire g ver nonce) = HANDSHAKE_FIXED + len ver + 1 + 21 + 1.
Proof.
  destruct Hg as [_ _ _ _ _ _ (_ & Hn & _) _ _]. unfold TDSQL_MYSQL_NONCE_BYTES in Hn.
  unfold greeting_wire, greeting_bytes. rewrite !length_app, !length_le_bytes, length_take, length_drop.
  cbn [length TDSQL_MYSQL_AUTH_PLUGIN]. change (length (zeros 10)) with 10%nat. unfold HANDSHAKE_FIXED. lia.
Qed.

Lemma greeting_lengths_ok : greeting_lengths g = Ret (len ver, 21).
Proof.
  destruct Hg as [_ (Hv & Hvl & r & Hver & Hvlen) _ [_ Hfl] _ _ _ _ (r2 & Hpl & Hpllen)].
  unfold greeting_lengths, handshake_string. rewrite Hfl, <- Hvlen, <- Hpllen.
  rewrite !ldn_Some by lia. rewrite !drop_0, !take_ge by lia.
  rewrite Hver, find_nul_text by done. rewrite Hpl, find_nul_text by apply plugin_text.
  destruct (Z.eqb_spec (len ver) 0); [lia|]. change (len TDSQL_MYSQL_AUTH_PLUGIN) with 21.
  rewrite Z.eqb_refl. cbn [negb]. rewrite ldn_prefix by done.
  by rewrite bool_decide_eq_true_2.
Qed.

Lemma writes_greeting :
  writes greeting_encoded_size (greeting_stores g (len ver) 21 greeting_encoded_size)
    (greeting_wire g ver nonce).
Proof.
  destruct Hg as [_ (Hv & Hvl & r & Hver & Hvlen) Hcn [Hc Hfl] Hcs Hst (Hnb & Hnl & r3 & Hn) _ (r2 & Hpl & Hpllen)].
  unfold TDSQL_MYSQL_NONCE_BYTES in Hnl.
  assert (g_auth_plugin_data g = take 8 nonce ++ drop 8 nonce ++ r3) as Hn'
    by (by rewrite app_assoc, take_drop).
  assert (ldn (g_auth_plugin_data g) 0 HANDSHAKE_NONCE_FIRST = Some (take 8 nonce)) as Hp1.
  { rewrite Hn'. apply ldn_prefix. rewrite length_take. unfold HANDSHAKE_NONCE_FIRST. lia. }
  assert (ldn (g_auth_plugin_data g) HANDSHAKE_NONCE_FIRST (TDSQL_MYSQL_NONCE_BYTES - HANDSHAKE_NONCE_FIRST)
    = Some (drop 8 nonce)) as Hp2.
  { rewrite Hn'. apply ldn_middle; rewrite ?length_take, ?length_drop;
      unfold HANDSHAKE_NONCE_FIRST, TDSQL_MYSQL_NONCE_BYTES; lia. }
  unfold greeting_stores, greeting_wire, greeting_bytes.
  apply writes_bind; [apply writes_put_byte|].
  eapply writes_access; [rewrite Hver; change (ver ++ 0 :: r) with (ver ++ [0] ++ r);
    rewrite app_assoc; apply ldn_prefix; rewrite length_app; cbn [length]; lia|].
  apply writes_bind; [apply writes_put_bytes|].
  apply writes_bind; [apply writes_map_err, writes_emits, emits_u32; lia|].
  eapply writes_access; [exact Hp1|].
  apply writes_bind; [apply writes_put_bytes|].
  apply writes_bind; [apply writes_put_byte|].
  apply writes_bind; [apply writes_map_err, writes_emits, emits_u16, u16_range|].
  apply writes_bind; [apply writes_put_byte|].
  apply writes_bind; [apply writes_map_err, writes_emits, emits_u16; rewrite Hst;
    unfold TDSQL_MYSQL_SERVER_AUTOCOMMIT; lia|].
  apply writes_bind; [apply writes_map_err, writes_emits, emits_u16, u16_range|].
  apply writes_bind; [apply writes_put_byte|].
  apply writes_bind; [apply writes_put_bytes|].
  eapply writes_access; [exact Hp2|].
  apply writes_bind; [apply writes_put_bytes|].
  apply writes_bind; [apply writes_put_byte|].
  eapply writes_access; [|apply writes_put_bytes].
  rewrite Hpl. change (TDSQL_MYSQL_AUTH_PLUGIN ++ 0 :: r2) with ((TDSQL_MYSQL_AUTH_PLUGIN ++ [0]) ++ r2).
  by apply ldn_prefix.
Qed.

Lemma greeting_encode_eq o :
  output_ok o ->
  tdsql_mysql_greeting_encode (Some g) (Some o) =
    let l := greeting_wire g ver nonce in
    if out_capacity o <? len l then (Err TDSQL_MYSQL_LIMIT, Some o)
    else (Ret tt, Some (mk_output (match out_data o with
                                   | Some data => Some (splice data 0 l)
                                   | None => None
                                   end) (out_capacity o) (len l))).
Proof.
  intros [Hcap Hbuf]. pose proof length_greeting_wire as Hlen. pose proof greeting_lengths_ok as Hgl.
  pose proof writes_greeting as Hw.
  destruct Hg as [Hp (Hv & Hvl & _) Hcn _ Hcs Hst _ Hnl _]. unfold tdsql_mysql_greeting_encode.
  rewrite Hp, Hcs, Hst, Hnl, !Z.eqb_refl, Hgl. destruct (Z.eqb_spec (g_connection_id g) 0); [lia|].
  cbn [negb orb]. cbn zeta. rewrite Hlen.
  destruct (Z.ltb_spec (out_capacity o) (HANDSHAKE_FIXED + len ver + 1 + 21 + 1)); [done|].
  destruct (out_data o) as [data|]; [|done]. specialize (Hbuf data eq_refl).
  unfold MYSQL_WIRE_SERVER_VERSION_CAPACITY in Hvl.
  rewrite Hw; [|lia|rewrite Hlen; unfold greeting_encoded_size, HANDSHAKE_FIXED,
    MYSQL_WIRE_SERVER_VERSION_CAPACITY, MYSQL_WIRE_AUTH_PLUGIN_NAME_CAPACITY; lia|done|done].
  cbn [e_buf e_off]. rewrite splice_0, Z.add_0_l, ldn_prefix by done. rewrite stn_Some by lia.
  by rewrite Hlen.
Qed.
End GreetingWire.

(** ** The client reads the greeting back *)

Lemma split_caps c : 0 <= c < 2 ^ 32 -> Z.lor (u16 c) (u32 (Z.shiftl (u16 (Z.shiftr c 16)) 16)) = c.
Proof.
  intros Hc. rewrite Z.shiftr_div_pow2 by lia.
  assert (0 <= c / 2 ^ 16 < 2 ^ 16) as Hd by (split; [apply Z.div_pos; lia|apply Z.div_lt_upper_bound; lia]).
  rewrite (u16_small (c / 2 ^ 16)) by done. pose proof (u16_range c).
  rewrite u32_small by (rewrite Z.shiftl_mul_pow2 by lia; lia).
  rewrite lor_shiftl_add by lia. unfold u16. pose proof (Z.div_mod c (2 ^ 16)). lia.
Qed.

Lemma size_rest (p l : bytes) : len l <= len p -> len p < 2 ^ 63 -> size_sub (len p) (len p - len l) = len l.
Proof. intros. rewrite size_sub_small; lia. Qed.

Lemma parses_greeting_part2 p o n2 l :
  buf_ok p (len p) -> len n2 = 12 -> g_auth_plugin_data_length o = 8 -> len (g_auth_plugin_data o) = 32 ->
  parses p (greeting_part2 p (len p) 21) o (n2 ++ 0 :: l) tt
    (g_set_auth (splice (g_auth_plugin_data o) 8 n2) 20 o) l.
Proof.
  intros Hp Hn H8 H32. pose proof (buf_max _ _ Hp). unfold greeting_part2.
  apply parses_len. intros Hl. rewrite length_app in Hl. cbn [length] in Hl.
  eapply parses_bind; [apply parses_offset|].
  change (8 <? 21) with true. cbn iota. change (size_sub 21 8) with 13. change (13 <? 13) with false. cbn iota zeta.
  rewrite size_rest by (rewrite ?length_app; cbn [length]; lia).
  destruct (Z.ltb_spec (len (n2 ++ 0 :: l)) 13) as [Hlt|_].
  { rewrite length_app in Hlt. cbn [length] in Hlt. lia. }
  change (13 =? 0) with false. cbn iota.
  eapply parses_bind; [apply parses_access_ld_at; lia|].
  change (negb false && (0 =? 0)) with true. cbn iota. change (13 - 1) with 12.
  eapply parses_bind; [apply (parses_gets p (fun g => g))|]. rewrite H8.
  eapply parses_bind; [by apply parses_fail_if|].
  eapply parses_bind.
  { change (12 =? 0) with false. cbn iota.
    eapply parses_bind; [by apply parses_access_ldn|]. apply parses_access. apply stn_Some; lia. }
  eapply parses_bind; [apply parses_out_set|]. change (8 + 12) with 20.
  change (n2 ++ 0 :: l) with (n2 ++ [0] ++ l). rewrite app_assoc.
  apply parses_skip. rewrite length_app. cbn [length]. lia.
Qed.

(** The greeting as the client stores it: the arrays are zero after the
    strings and the nonce. *)
Definition client_view (g : mysql_wire_greeting_t) (ver nonce : bytes) : mysql_wire_greeting_t :=
  mk_greeting HANDSHAKE_PROTOCOL (cstring_in (zeros MYSQL_WIRE_SERVER_VERSION_CAPACITY) ver)
    (g_connection_id g) (g_capabilities g) (g_character_set g) (g_status_flags g)
    (splice (zeros MYSQL_WIRE_AUTH_DATA_CAPACITY) 0 nonce) TDSQL_MYSQL_NONCE_BYTES
    (cstring_in (zeros MYSQL_WIRE_AUTH_PLUGIN_NAME_CAPACITY) TDSQL_MYSQL_AUTH_PLUGIN).

Section GreetingParse.
Context (g : mysql_wire_greeting_t) (ver nonce : bytes) (Hg : server_greeting g ver nonce).

Lemma greeting_wire_ok : buf_ok (greeting_wire g ver nonce) (len (greeting_wire g ver nonce)).
Proof.
  pose proof (length_greeting_wire g ver nonce Hg) as Hl.
  destruct Hg as [_ (Hv & Hvl & _) _ _ Hcs _ (Hn & _) _ _].
  unfold HANDSHAKE_FIXED, MYSQL_WIRE_SERVER_VERSION_CAPACITY in *. split; [lia..|].
  unfold greeting_wire, greeting_bytes, bytes_ok. rewrite !Forall_app. split_and!;
    try apply le_bytes_ok; try (by apply bytes_okb_ok).
  - by apply text_ok_bytes.
  - by apply Forall_take.
  - rewrite Hcs. by apply bytes_okb_ok.
  - by apply Forall_drop.
Qed.

Lemma parses_greeting_extended p o l8 :
  buf_ok p (len p) -> g_auth_plugin_data_length o = 8 -> len (g_auth_plugin_data o) = 32 ->
  len (g_auth_plugin o) = MYSQL_WIRE_AUTH_PLUGIN_NAME_CAPACITY -> len l8 = 12 ->
  let caps := g_capabilities g in
  parses p (greeting_extended p (len p) (u16 caps)) o
    ([g_character_set g] ++ le_bytes 2 (g_status_flags g) ++ le_bytes 2 (u16 (Z.shiftr caps 16)) ++
     [21] ++ zeros 10 ++ l8 ++ [0] ++ (TDSQL_MYSQL_AUTH_PLUGIN ++ [0]))
    tt
    (mk_greeting (g_protocol_version o) (g_server_version o) (g_connection_id o) caps
       (g_character_set g) (g_status_flags g) (splice (g_auth_plugin_data o) 8 l8) 20
       (cstring_in (g_auth_plugin o) TDSQL_MYSQL_AUTH_PLUGIN)) [].
Proof.
  intros Hp H8 H32 H64 Hl8 caps. pose proof (buf_max _ _ Hp).
  destruct Hg as [_ _ _ [Hc Hfl] Hcs Hst _ _ _]. fold caps in Hc, Hfl.
  apply handshake_flags_ok in Hfl as (Hreq & _). unfold handshake_required in Hreq.
  rewrite !has_bits_lor in Hreq. destruct Hreq as [[[_ _] Hsec] Hplug].
  unfold greeting_extended. apply parses_len. intros Hl.
  eapply parses_bind; [apply parses_offset|].
  eapply parses_bind.
  { apply parses_fail_if. rewrite size_rest by done. apply Z.ltb_ge.
    rewrite !length_app, !length_le_bytes. cbn [length]. change (length (zeros 10)) with 10%nat. lia. }
  cbn [app]. eapply parses_bind; [apply parses_next_byte|].
  eapply parses_bind; [apply parses_out_set|].
  eapply parses_bind; [apply parses_u16; [done|rewrite Hst; done]|].
  eapply parses_bind; [apply parses_out_set|].
  eapply parses_bind; [apply parses_u16; [done|apply u16_range]|].
  rewrite split_caps by done.
  eapply parses_bind; [apply parses_out_set|].
  eapply parses_bind; [apply parses_next_byte|].
  eapply parses_bind; [by apply parses_skip|].
  apply parses_len. clear Hl. intros Hl. rewrite length_app in Hl. cbn [length] in Hl.
  eapply parses_bind; [apply parses_offset|].
  rewrite Hsec. change (MYSQL_WIRE_CLIENT_SECURE_CONNECTION =? 0) with false. cbn [negb andb].
  destruct (Z.ltb_spec (len p - len (l8 ++ 0 :: TDSQL_MYSQL_AUTH_PLUGIN ++ [0])) (len p)) as [_|Hge];
    [|rewrite length_app in Hge; cbn [length] in Hge; lia].
  eapply parses_bind; [by apply parses_greeting_part2|].
  eapply parses_bind; [apply parses_offset|].
  rewrite Hplug. change (MYSQL_WIRE_CLIENT_PLUGIN_AUTH =? 0) with false. cbn [negb andb].
  destruct (Z.ltb_spec (len p - len (TDSQL_MYSQL_AUTH_PLUGIN ++ [0])) (len p)) as [_|Hge];
    [|cbn in Hge; lia].
  eapply parses_bind; [apply (parses_cstring p); try done; apply plugin_text|].
  eapply parses_bind; [apply (parses_gets p (fun g => g))|]. apply parses_ret.
Qed.
Lemma parses_greeting_body p :
  buf_ok p (len p) ->
  parses p (greeting_body p (len p)) greeting_zero (greeting_wire g ver nonce) tt (client_view g ver nonce) [].
Proof.
  intros Hp. pose proof (buf_max _ _ Hp) as Hmax.
  pose proof Hg as [_ (Hv & Hvl & _) Hcn [Hc _] _ _ (Hnb & Hnl & _) _ _].
  unfold TDSQL_MYSQL_NONCE_BYTES, MYSQL_WIRE_SERVER_VERSION_CAPACITY in *.
  unfold greeting_body. apply parses_len. intros Hl. pose proof (length_greeting_wire g ver nonce Hg) as Hlen.
  unfold greeting_wire, greeting_bytes in *.
  eapply parses_bind.
  { apply parses_fail_if. unfold HANDSHAKE_FIXED in Hlen. apply Z.ltb_ge. lia. }
  eapply parses_bind; [apply parses_next_byte|].
  eapply parses_bind; [apply parses_out_set|].
  eapply parses_bind; [by apply parses_fail_if|].
  rewrite <- (app_assoc ver). cbn [app].
  eapply parses_bind; [apply (parses_cstring p); try done;
    unfold MYSQL_WIRE_SERVER_VERSION_CAPACITY; lia|].
  eapply parses_bind; [apply parses_u32; [done|lia]|].
  eapply parses_bind; [apply parses_out_set|].
  apply parses_len. clear Hl. intros Hl.
  eapply parses_bind; [apply parses_offset|].
  eapply parses_bind.
  { apply parses_fail_if. rewrite size_rest by done. apply Z.ltb_ge.
    rewrite length_app, length_take. cbn [length]. lia. }
  assert (len (take 8 nonce) = 8) as H8 by (rewrite length_take; lia).
  eapply parses_bind; [by apply parses_access_ldn|].
  eapply parses_bind; [apply (parses_gets p (fun g => g))|].
  eapply parses_bind; [apply parses_access; apply stn_Some; [lia|rewrite H8; done]|].
  eapply parses_bind; [apply parses_out_set|].
  eapply parses_bind; [by apply parses_skip|].
  eapply parses_bind; [apply parses_next_byte|].
  eapply parses_bind; [by apply parses_fail_if|].
  eapply parses_bind; [apply parses_u16; [done|apply u16_range]|].
  apply parses_len. clear Hl. intros Hl.
  eapply parses_bind; [apply parses_offset|].
  destruct (Z.eqb_spec (len p - len (g_character_set g :: le_bytes 2 (g_status_flags g) ++
    le_bytes 2 (u16 (g_capabilities g ≫ 16)) ++ 21 :: zeros 10 ++ drop 8 nonce ++
    0 :: TDSQL_MYSQL_AUTH_PLUGIN ++ [0])) (len p)) as [He|_].
  { cbn [length] in He. lia. }
  set (o1 := g_set_auth _ _ _).
  replace (client_view g ver nonce) with
    (mk_greeting (g_protocol_version o1) (g_server_version o1) (g_connection_id o1) (g_capabilities g)
       (g_character_set g) (g_status_flags g) (splice (g_auth_plugin_data o1) 8 (drop 8 nonce)) 20
       (cstring_in (g_auth_plugin o1) TDSQL_MYSQL_AUTH_PLUGIN)).
  - apply parses_greeting_extended; try done.
    + unfold o1. cbn [g_set_auth g_auth_plugin_data]. rewrite length_splice by (rewrite ?H8; done). done.
    + rewrite length_drop. lia.
  - unfold client_view, o1. cbn. f_equal. replace 8 with (0 + len (take 8 nonce)) at 1 by lia.
    rewrite splice_app; [by rewrite take_drop|lia|]. rewrite H8, length_drop. change (len (zeros _)) with 32. lia.
Qed.

Lemma parse_greeting_wire o :
  let wire := greeting_wire g ver nonce in
  mysql_wire_parse_greeting (Some wire) (len wire) (Some o) = (Ret tt, Some (client_view g ver nonce)).
Proof.
  intros wire. destruct (parses_greeting_body wire greeting_wire_ok 0 (suffix_at_0 wire)) as (off & Heq & _).
  unfold mysql_wire_parse_greeting, run_dec. by rewrite Heq.
Qed.
End GreetingParse.

(** ** Runs of the negotiation *)

(** What the owner of a connection reports to the negotiation. *)
Inductive nego_event : Type :=
| EvMessage (data : ptr bytes) (size sequence : Z) (tls : bool)
| EvTlsReady.

(** The negotiation and the login it fills. *)
Definition nego_step (s : tdsql_mysql_negotiation * tdsql_mysql_login) (e : nego_event)
    : tdsql_mysql_negotiation * tdsql_mysql_login :=
  let '(n, l) := s in
  match e with
  | EvMessage data size sequence tls =>
      match tdsql_mysql_negotiation_accept (Some n) data size sequence tls (Some l) with
      | (_, Some n', Some l') => (n', l')
      | _ => (n, l)
      end
  | EvTlsReady =>
      match tdsql_mysql_negotiation_tls_ready (Some n) with
      | (_, Some n') => (n', l)
      | _ => (n, l)
      end
  end.

Definition nego_run (s : tdsql_mysql_negotiation * tdsql_mysql_login) (events : list nego_event) :=
  foldl nego_step s events.

(** The first message is a TLS request with header [h]. *)
Definition ssl_first (advertised : Z) (h : tdsql_mysql_login_header) (e : nego_event) : Prop :=
  exists d size h0, e = EvMessage d size 1 false /\
    tdsql_mysql_ssl_decode d size advertised (Some h0) = (Ret tt, Some h).

(** A login [l] that came over TLS. *)
Definition login_second (advertised : Z) (l : tdsql_mysql_login) (e : nego_event) : Prop :=
  exists d size, e = EvMessage d size 2 true /\
    tdsql_mysql_login_decode d size advertised (Some login_zero) = (Ret tt, Some l).

(** The only way to a login: a TLS request, the TLS event, and over TLS a login
    that repeats the header of the request. *)
Definition admitted (advertised : Z) (events : list nego_event) (l : tdsql_mysql_login) : Prop :=
  exists e1 e3 rest, events = [e1; EvTlsReady; e3] ++ rest /\
    ssl_first advertised (login_header l) e1 /\ login_second advertised l e3.

(** What each phase says about the events so far. *)
Definition nego_history (advertised : Z) (l0 : tdsql_mysql_login) (events : list nego_event)
    (n : tdsql_mysql_negotiation) (l : tdsql_mysql_login) : Prop :=
  n_advertised n = advertised /\
  match n_phase n with
  | PHASE_ZERO => False
  | TDSQL_MYSQL_WAIT_SSL => events = [] /\ l = l0
  | TDSQL_MYSQL_WAIT_TLS => l = l0 /\ exists e1, events = [e1] /\ ssl_first advertised (n_header n) e1
  | TDSQL_MYSQL_WAIT_LOGIN =>
      l = l0 /\ exists e1, events = [e1; EvTlsReady] /\ ssl_first advertised (n_header n) e1
  | TDSQL_MYSQL_WAIT_CREDENTIALS => length events = 3%nat /\ admitted advertised events l
  | TDSQL_MYSQL_HANDSHAKE_FAILED => l = l0 \/ admitted advertised events l
  end.

Lemma admitted_app advertised events l more : admitted advertised events l -> admitted advertised (events ++ more) l.
Proof.
  intros (e1 & e3 & rest & -> & H1 & H3). exists e1, e3, (rest ++ more). by rewrite <- app_assoc.
Qed.

Lemma login_header_eq h1 h2 :
  lh_capabilities h1 = lh_capabilities h2 -> lh_max_packet_size h1 = lh_max_packet_size h2 ->
  lh_character_set h1 = lh_character_set h2 -> h1 = h2.
Proof. destruct h1, h2. cbn. congruence. Qed.

(** An event that ends in failure. *)
Lemma history_failed advertised l0 events n l e h :
  nego_history advertised l0 events n l ->
  nego_history advertised l0 (events ++ [e]) (mk_negotiation h (n_advertised n) TDSQL_MYSQL_HANDSHAKE_FAILED) l.
Proof.
  intros [Ha Hh]. split; [done|]. cbn. destruct (n_phase n); [done|left; apply Hh..| |].
  - right. apply admitted_app. by destruct Hh.
  - destruct Hh; [by left|]. right. by apply admitted_app.
Qed.

Lemma nego_step_history advertised l0 events n l e :
  nego_history advertised l0 events n l ->
  let '(n', l') := nego_step (n, l) e in nego_history advertised l0 (events ++ [e]) n' l'.
Proof.
  intros Hist. pose proof (fun h => history_failed advertised l0 events n l e h Hist) as Hfail.
  pose proof Hist as [Ha Hh]. destruct e as [d size seq tls|]; cbn [nego_step].
  - unfold tdsql_mysql_negotiation_accept. destruct (n_phase n) eqn:Hph; try done;
      destruct tls; try (apply Hfail); try (destruct Hist; by split).
    + destruct (Z.eqb_spec seq 1) as [->|]; cbn [negb]; [|apply Hfail].
      destruct (tdsql_mysql_ssl_decode d size (n_advertised n) (Some (n_header n)))
        as [[[]|err|] [h|]] eqn:Hs; try apply Hfail.
      destruct Hh as [-> ->]. split; [done|]. cbn. split; [done|]. eexists. split; [done|].
      rewrite <- Ha. by exists d, size, (n_header n).
    + destruct (Z.eqb_spec seq 2) as [->|]; cbn [negb]; [|apply Hfail].
      destruct (tdsql_mysql_login_decode d size (n_advertised n) (Some login_zero))
        as [[[]|err|] [lg|]] eqn:Hs; try apply Hfail.
      destruct (negb _ || negb _ || negb _) eqn:Hb; [apply Hfail|]. bsimp.
      destruct Hh as [-> (e1 & -> & Hssl)]. split; [done|]. cbn. split; [done|].
      exists e1, (EvMessage d size 2 true), []. split_and!; [done| |].
      * by rewrite (login_header_eq (login_header lg) (n_header n)).
      * rewrite <- Ha. by exists d, size.
    + split; [done|]. rewrite Hph. destruct Hh; [by left|]. right. by apply admitted_app.
    + split; [done|]. rewrite Hph. destruct Hh; [by left|]. right. by apply admitted_app.
  - unfold tdsql_mysql_negotiation_tls_ready. destruct (n_phase n) eqn:Hph; try done; try apply Hfail.
    destruct Hh as [-> (e1 & -> & Hssl)]. split; [done|]. cbn. split; [done|]. by exists e1.
Qed.

Lemma nego_run_history advertised l0 n0 events :
  n_advertised n0 = advertised -> n_phase n0 = TDSQL_MYSQL_WAIT_SSL ->
  let '(n, l) := nego_run (n0, l0) events in nego_history advertised l0 events n l.
Proof.
  intros Ha Hp. induction events as [|e events IH] using rev_ind.
  - cbn. split; [done|]. by rewrite Hp.
  - unfold nego_run in *. rewrite foldl_snoc. destruct (foldl nego_step (n0, l0) events) as [n l].
    by apply nego_step_history.
Qed.

(** ** A client against the server *)



(** ** Properties *)

(** C11. Credentials are admitted only over TLS and only in order. Take any
    sequence of messages and TLS events after a successful init. If the
    negotiation reaches WAIT_CREDENTIALS, the events were exactly a TLS request
    in plaintext with sequence 1, the TLS event, and a login over TLS with
    sequence 2 that decodes to the reported login and repeats the header of the
    request; and the login cell changes in no other way. A failed negotiation
    stays failed, whatever follows. *)
Theorem negotiation_admits_only_tls advertised n0 l0 n1 events n l :
  tdsql_mysql_negotiation_init (Some n0) advertised = (Ret tt, Some n1) ->
  nego_run (n1, l0) events = (n, l) ->
  (n_phase n = TDSQL_MYSQL_WAIT_CREDENTIALS -> length events = 3%nat /\ admitted advertised events l) /\
  (l = l0 \/ admitted advertised events l) /\
  (n_phase n = TDSQL_MYSQL_HANDSHAKE_FAILED -> forall more, nego_run (n, l) more = (n, l)).
Proof.
  intros Hinit Hrun. unfold tdsql_mysql_negotiation_init in Hinit.
  destruct (bool_decide _); [|done]. cbn [negb] in Hinit.
  destruct (handshake_flags advertised advertised); try done. injection Hinit as <-.
  pose proof (nego_run_history advertised l0 (mk_negotiation login_header_zero advertised TDSQL_MYSQL_WAIT_SSL)
    events eq_refl eq_refl) as H. rewrite Hrun in H. destruct H as [_ H]. split_and!.
  - intros Hp. by rewrite Hp in H.
  - destruct (n_phase n); [done|left; apply H..|right; apply H|done].
  - intros Hp more. clear H Hrun. induction more as [|e more IH]; [done|].
    unfold nego_run in *. cbn [foldl]. replace (nego_step (n, l) e) with (n, l); [done|].
    destruct e; cbn [nego_step]; unfold tdsql_mysql_negotiation_accept, tdsql_mysql_negotiation_tls_ready;
      rewrite Hp; [done|]. unfold set_phase. rewrite <- Hp. by destruct n.
Qed.

Lemma negotiation_admits_only_tls_witness :
  exists n l,
    nego_run (mk_negotiation login_header_zero (tdsql_mysql_server_capabilities false) TDSQL_MYSQL_WAIT_SSL,
              login_zero) [EvTlsReady; EvTlsReady] = (n, l) /\
    (l = login_zero \/ admitted (tdsql_mysql_server_capabilities false) [EvTlsReady; EvTlsReady] l) /\
    (n_phase n = TDSQL_MYSQL_HANDSHAKE_FAILED -> forall more, nego_run (n, l) more = (n, l)).
Proof.
  edestruct (negotiation_admits_only_tls (tdsql_mysql_server_capabilities false)
    (mk_negotiation login_header_zero 0 PHASE_ZERO) login_zero
    (mk_negotiation login_header_zero (tdsql_mysql_server_capabilities false) TDSQL_MYSQL_WAIT_SSL)
    [EvTlsReady; EvTlsReady]) as (_ & H2 & H3); [vm_compute; reflexivity|reflexivity|].
  do 2 eexists. split; [reflexivity|]. split; [exact H2|exact H3].
Defined.

(** Every byte string is safe to decode as a login: the decoder never reads
    outside it. A login it accepts has a user name of 1 to 128 characters, an
    authentication response of 0 or 32 bytes, a database name exactly when the
    client asked for one, the fixed plugin, a positive packet size and only
    capabilities that the server advertised; a rejected message leaves the
    output as it was. *)
Theorem login_decode_safe d size advertised o :
  buf_ok d size ->
  exists r l, tdsql_mysql_login_decode (Some d) size advertised (Some o) = (r, Some l) /\
    r <> Fault /\ (r = Ret tt -> login_ok advertised l) /\ (r <> Ret tt -> l = o).
Proof. apply login_decode_total. Qed.

(** What the server greets with is what the client reads. For every greeting
    the server may send, the encoder writes a payload that the client parses to
    the same connection id, capabilities, character set, status, version string,
    plugin and 20-byte nonce. *)
Theorem greeting_roundtrip g ver nonce o buf out0 :
  server_greeting g ver nonce -> output_ok o -> out_data o = Some buf ->
  HANDSHAKE_FIXED + len ver + 1 + 21 + 1 <= out_capacity o ->
  exists o' buf', tdsql_mysql_greeting_encode (Some g) (Some o) = (Ret tt, Some o') /\
    out_data o' = Some buf' /\
    let payload := take (Z.to_nat (out_size o')) buf' in
    mysql_wire_parse_greeting (Some payload) (len payload) (Some out0) =
      (Ret tt, Some (client_view g ver nonce)).
Proof.
  intros Hg Ho Hb Hc. pose proof (length_greeting_wire g ver nonce Hg) as Hl.
  rewrite (greeting_encode_eq g ver nonce Hg o Ho). cbn zeta.
  destruct (Z.ltb_spec (out_capacity o) (len (greeting_wire g ver nonce))); [lia|]. rewrite Hb.
  do 2 eexists. split_and!; [done..|]. cbn [out_size].
  destruct Ho as [_ Hob]. specialize (Hob _ Hb). rewrite splice_0, Nat2Z.id, take_app_length.
  by apply parse_greeting_wire.
Qed.





(** A TLS request with the character set utf8mb4_general_ci is accepted, not only
    one with the binary character set. *)
Lemma ssl_decode_accepts_utf8mb4 :
  let capabilities := tdsql_mysql_server_capabilities false in
  let request := le_bytes 4 capabilities ++ le_bytes 4 4096 ++ TDSQL_MYSQL_UTF8MB4_GENERAL_CI :: zeros 23 in
  tdsql_mysql_ssl_decode (Some request) 32 capabilities (Some login_header_zero) =
    (Ret tt, Some (mk_login_header capabilities 4096 TDSQL_MYSQL_UTF8MB4_GENERAL_CI)).
Proof. vm_compute. reflexivity. Qed.
