(* ===== verification/Result.v ===== *)
(** * Result packets and plain commands (mysql/wire/result.c, result.h, query.c, query.h)

    Decoding of OK, ERR and EOF packets and of text rows on the client, and
    construction of the QUIT and QUERY commands. *)

From S2P Require Import Prelude Codec Handshake.

(** ** Data *)

Definition MYSQL_WIRE_CLIENT_SESSION_TRACK : Z := 0x00800000.
Definition MYSQL_WIRE_SERVER_SESSION_STATE_CHANGED : Z := 0x4000.

Record mysql_wire_ok_packet_t : Type := mk_ok {
  ok_header : Z;
  ok_affected_rows : Z;
  ok_last_insert_id : Z;
  ok_status_flags : Z;
  ok_warnings : Z;
  ok_info : mysql_wire_bytes_t;
  ok_session_state : mysql_wire_bytes_t
}.

(** [err_sql_state] is the array of six characters. *)
Record mysql_wire_err_packet_t : Type := mk_err {
  err_code : Z;
  err_has_sql_state : bool;
  err_sql_state : bytes;
  err_message : mysql_wire_bytes_t
}.

Record mysql_wire_eof_packet_t : Type := mk_eof {
  eof_warnings : Z;
  eof_status_flags : Z
}.

Definition ok_zero : mysql_wire_ok_packet_t := mk_ok 0 0 0 0 0 wire_bytes_zero wire_bytes_zero.
Definition err_zero : mysql_wire_err_packet_t := mk_err 0 false (zeros 6) wire_bytes_zero.
Definition eof_zero : mysql_wire_eof_packet_t := mk_eof 0 0.

(** Assignments to one member. *)
Definition ok_set_header v o := mk_ok v (ok_affected_rows o) (ok_last_insert_id o) (ok_status_flags o)
  (ok_warnings o) (ok_info o) (ok_session_state o).
Definition ok_set_affected v o := mk_ok (ok_header o) v (ok_last_insert_id o) (ok_status_flags o)
  (ok_warnings o) (ok_info o) (ok_session_state o).
Definition ok_set_last v o := mk_ok (ok_header o) (ok_affected_rows o) v (ok_status_flags o)
  (ok_warnings o) (ok_info o) (ok_session_state o).
Definition ok_set_status v o := mk_ok (ok_header o) (ok_affected_rows o) (ok_last_insert_id o) v
  (ok_warnings o) (ok_info o) (ok_session_state o).
Definition ok_set_warnings v o := mk_ok (ok_header o) (ok_affected_rows o) (ok_last_insert_id o)
  (ok_status_flags o) v (ok_info o) (ok_session_state o).
Definition ok_set_info v o := mk_ok (ok_header o) (ok_affected_rows o) (ok_last_insert_id o)
  (ok_status_flags o) (ok_warnings o) v (ok_session_state o).
Definition ok_set_session v o := mk_ok (ok_header o) (ok_affected_rows o) (ok_last_insert_id o)
  (ok_status_flags o) (ok_warnings o) (ok_info o) v.

(** ** Decoders *)

(** A packet is complete: a missing byte is an error. *)
Definition mysql_wire_complete_packet_status (e : mysql_wire_status_t) : mysql_wire_status_t :=
  match e with MYSQL_WIRE_STATUS_NEED_MORE => INVALID | _ => e end.

Definition complete {T A} (m : D T A) : D T A := map_err mysql_wire_complete_packet_status m.

(** A length-encoded integer that must not be NULL, stored by [set]. *)
Definition ok_number {T} (p : bytes) (size : Z) (set : Z -> T -> T) : D T unit :=
  v ← complete (rd_lenenc_uint p size);
  out_set (set (fst v));;
  fail_if (snd v) INVALID.

Definition ok_text {T} (p : bytes) (size : Z) (set : mysql_wire_bytes_t -> T -> T) : D T unit :=
  v ← complete (rd_lenenc_bytes p size);
  out_set (set v);;
  fail_if (wb_is_null v) INVALID.

(** The rest of the payload as a view. *)
Definition rest_view {E T} (p : bytes) (size : Z) : M E (dec T) mysql_wire_bytes_t :=
  off ← offset;
  view ← access (ldn p off (size_sub size off));
  mret (mk_wire_bytes (Some view) (size_sub size off) false).

Definition ok_body (p : bytes) (size capabilities : Z) : D mysql_wire_ok_packet_t unit :=
  header ← access (ld p 0);
  out_set (ok_set_header header);;
  fail_if (negb (header =? 0) &&
           (negb (header =? 0xfe) || (Z.land capabilities MYSQL_WIRE_CLIENT_DEPRECATE_EOF =? 0)
            || (size <? 7))) INVALID;;
  ok_number p size ok_set_affected;;
  ok_number p size ok_set_last;;
  when (negb (Z.land capabilities MYSQL_WIRE_CLIENT_PROTOCOL_41 =? 0))
    (status ← complete (rd_u16 p size); out_set (ok_set_status status);;
     warnings ← complete (rd_u16 p size); out_set (ok_set_warnings warnings));;
  if negb (Z.land capabilities MYSQL_WIRE_CLIENT_SESSION_TRACK =? 0) then
    ok_text p size ok_set_info;;
    o ← gets d_out;
    when (negb (Z.land (ok_status_flags o) MYSQL_WIRE_SERVER_SESSION_STATE_CHANGED =? 0))
      (ok_text p size ok_set_session);;
    off ← offset;
    fail_if (negb (off =? size)) INVALID
  else
    info ← rest_view p size; out_set (ok_set_info info).

Definition mysql_wire_decode_ok_packet (payload : ptr bytes) (payload_size capabilities : Z)
    (out : ptr mysql_wire_ok_packet_t) : wire_result unit * ptr mysql_wire_ok_packet_t :=
  match payload, out with
  | Some p, Some _ =>
      if payload_size =? 0 then (Err INVALID, out)
      else run_dec 1 ok_zero (ok_body p payload_size capabilities)
  | _, _ => (Err INVALID, out)
  end.

Definition err_body (p : bytes) (size capabilities : Z) : D mysql_wire_err_packet_t unit :=
  code ← complete (rd_u16 p size);
  out_set (fun o => mk_err code (err_has_sql_state o) (err_sql_state o) (err_message o));;
  when (negb (Z.land capabilities MYSQL_WIRE_CLIENT_PROTOCOL_41 =? 0))
    (off ← offset;
     fail_if (size_sub size off <? 6) INVALID;;
     marker ← access (ld p off);
     fail_if (negb (marker =? 35)) INVALID;;
     skip 1;;
     off ← offset;
     state ← access (ldn p off 5);
     o ← gets d_out;
     arr ← access (stn (err_sql_state o) 0 state);
     arr ← access (st arr 5 0);
     out_set (fun o => mk_err (err_code o) true arr (err_message o));;
     skip 5);;
  message ← rest_view p size;
  out_set (fun o => mk_err (err_code o) (err_has_sql_state o) (err_sql_state o) message).

Definition mysql_wire_decode_err_packet (payload : ptr bytes) (payload_size capabilities : Z)
    (out : ptr mysql_wire_err_packet_t) : wire_result unit * ptr mysql_wire_err_packet_t :=
  match payload, out with
  | Some p, Some _ =>
      if payload_size <? 3 then (Err INVALID, out)
      else
        match ld p 0 with
        | None => (Fault, out)
        | Some b =>
            if negb (b =? 0xff) then (Err INVALID, out)
            else run_dec 1 err_zero (err_body p payload_size capabilities)
        end
  | _, _ => (Err INVALID, out)
  end.

Definition eof_body (p : bytes) (size capabilities : Z) : D mysql_wire_eof_packet_t unit :=
  if Z.land capabilities MYSQL_WIRE_CLIENT_PROTOCOL_41 =? 0
  then fail_if (negb (size =? 1)) INVALID
  else
    fail_if (negb (size =? 5)) INVALID;;
    warnings ← complete (rd_u16 p size);
    out_set (fun o => mk_eof warnings (eof_status_flags o));;
    status ← complete (rd_u16 p size);
    out_set (fun o => mk_eof (eof_warnings o) status);;
    off ← offset;
    fail_if (negb (off =? size)) INVALID.

Definition mysql_wire_decode_eof_packet (payload : ptr bytes) (payload_size capabilities : Z)
    (out : ptr mysql_wire_eof_packet_t) : wire_result unit * ptr mysql_wire_eof_packet_t :=
  match payload, out with
  | Some p, Some _ =>
      if payload_size =? 0 then (Err INVALID, out)
      else
        match ld p 0 with
        | None => (Fault, out)
        | Some b =>
            if negb (b =? 0xfe) || (9 <=? payload_size) then (Err INVALID, out)
            else run_dec 1 eof_zero (eof_body p payload_size capabilities)
        end
  | _, _ => (Err INVALID, out)
  end.

(** ** Text rows *)

(** The first [n] elements of an array set to zero by memset. *)
Definition clear_array {A} (z : A) (l : list A) (n : Z) : option (list A) :=
  if (0 <=? n) && (n <=? len l) then Some (replicate (Z.to_nat n) z ++ drop (Z.to_nat n) l) else None.

Definition set_at {A} (l : list A) (i : Z) (a : A) : option (list A) :=
  if (0 <=? i) && (i <? len l) then Some (<[Z.to_nat i := a]> l) else None.

(** The loop over the columns that are left, from [index]; the state holds the
    array of columns. *)
Fixpoint text_columns (n : nat) (index : Z) (p : bytes) (size : Z) : D (list mysql_wire_bytes_t) unit :=
  match n with
  | O => mret tt
  | S n =>
      v ← complete (rd_lenenc_bytes p size);
      cols ← gets d_out;
      cols ← access (set_at cols index v);
      out_set (fun _ => cols);;
      text_columns n (index + 1) p size
  end.

Definition mysql_wire_decode_text_row (payload : ptr bytes) (payload_size column_count : Z)
    (out_columns : ptr (list mysql_wire_bytes_t)) (out_capacity : Z)
    : wire_result unit * ptr (list mysql_wire_bytes_t) :=
  match payload, out_columns with
  | Some p, Some cols =>
      if column_count =? 0 then (Err INVALID, out_columns)
      else if out_capacity <? column_count then (Err LIMIT, out_columns)
      else
        match clear_array wire_bytes_zero cols column_count with
        | None => (Fault, out_columns)
        | Some cols0 =>
            match text_columns (Z.to_nat column_count) 0 p payload_size (Dec 0 cols0) with
            | (Ret _, s) =>
                if negb (d_off s =? payload_size)
                then (Err INVALID, clear_array wire_bytes_zero (d_out s) column_count)
                else (Ret tt, Some (d_out s))
            | (Err e, s) => (Err e, clear_array wire_bytes_zero (d_out s) column_count)
            | (Fault, s) => (Fault, Some (d_out s))
            end
        end
  | _, _ => (Err INVALID, out_columns)
  end.

(** ** Commands *)

Definition MYSQL_COM_QUIT : Z := 0x01.
Definition MYSQL_COM_QUERY : Z := 0x03.

Definition mysql_wire_build_quit (out : ptr bytes) (out_capacity : Z) (out_size : ptr Z)
    : wire_result unit * ptr bytes * ptr Z :=
  let out_size0 := match out_size with Some _ => Some 0 | None => None end in
  match out, out_size with
  | Some buf, Some _ =>
      if out_capacity <? 1 then (Err LIMIT, out, out_size0)
      else match st buf 0 MYSQL_COM_QUIT with
           | None => (Fault, out, out_size0)
           | Some buf => (Ret tt, Some buf, Some 1)
           end
  | _, _ => (Err INVALID, out, out_size0)
  end.

Definition mysql_wire_build_query (sql : ptr bytes) (sql_size : Z) (out : ptr bytes) (out_capacity : Z)
    (out_size : ptr Z) : wire_result unit * ptr bytes * ptr Z :=
  let out_size0 := match out_size with Some _ => Some 0 | None => None end in
  match sql, out, out_size with
  | Some s, Some buf, Some _ =>
      if sql_size =? 0 then (Err INVALID, out, out_size0)
      else if (SIZE_MAX - 1 <? sql_size) || (out_capacity <? sql_size + 1)
      then (Err LIMIT, out, out_size0)
      else
        match st buf 0 MYSQL_COM_QUERY, ldn s 0 sql_size with
        | Some buf, Some text =>
            match stn buf 1 text with
            | Some buf => (Ret tt, Some buf, Some (sql_size + 1))
            | None => (Fault, out, out_size0)
            end
        | _, _ => (Fault, out, out_size0)
        end
  | _, _, _ => (Err INVALID, out, out_size0)
  end.

(** ** Safety of the decoders *)

Section ResultSafe.
Context (p : bytes) (size : Z) (Hp : buf_ok p size).

Lemma wp_complete {T A} (m : D T A) (Q : A -> dec T -> Prop) (R : mysql_wire_status_t -> dec T -> Prop) s :
  wp m Q (fun e s' => R (mysql_wire_complete_packet_status e) s') s -> wp (complete m) Q R s.
Proof. apply wp_map_err. Qed.

Lemma wp_ok_number {T} set (Q : unit -> dec T -> Prop) (R : mysql_wire_status_t -> dec T -> Prop) off (o : T) :
  0 <= off ->
  (forall v off', off < off' <= size -> 0 <= v < 2 ^ 64 -> Q tt (Dec off' (set v o))) ->
  (forall o off', R INVALID (Dec off' o)) -> wp (ok_number p size set) Q R (Dec off o).
Proof.
  intros Ho HQ HR. unfold ok_number. dec_step. apply wp_complete.
  apply wp_rd_lenenc_uint; [done|done| |].
  - intros v n off' Ho' Hv. repeat dec_step; [apply HR|]. by apply HQ.
  - intros e [-> | ->]; apply HR.
Qed.

Lemma wp_ok_text {T} set (Q : unit -> dec T -> Prop) (R : mysql_wire_status_t -> dec T -> Prop) off (o : T) :
  0 <= off ->
  (forall v off', off < off' <= size -> view_ok v -> wb_is_null v = false -> Q tt (Dec off' (set v o))) ->
  (forall o off', R INVALID (Dec off' o)) -> wp (ok_text p size set) Q R (Dec off o).
Proof.
  intros Ho HQ HR. unfold ok_text. dec_step. apply wp_complete.
  apply wp_rd_lenenc_bytes; [done|done| |].
  - intros v off' Ho' Hv. repeat dec_step; [apply HR|]. by apply HQ.
  - intros e [-> | ->]; apply HR.
Qed.

Lemma wp_rest_view {E T} (Q : mysql_wire_bytes_t -> dec T -> Prop) (R : E -> dec T -> Prop) off (o : T) :
  0 <= off <= size ->
  (forall l, len l = size - off -> bytes_ok l -> Q (wire_bytes_of l) (Dec off o)) ->
  wp (rest_view p size) Q R (Dec off o).
Proof.
  intros Ho HQ. pose proof Hp as [Hs Hm Hb]. unfold rest_view. repeat dec_step.
  rewrite size_sub_small by lia. apply (wp_access_ldn p size Hp); [lia..|]. intros l Hl Hlb.
  repeat dec_step. rewrite <- Hl. by apply HQ.
Qed.

Lemma wp_complete_u16 {T} (Q : Z -> dec T -> Prop) (R : mysql_wire_status_t -> dec T -> Prop) off (o : T) :
  0 <= off ->
  (forall v, 0 <= v < 2 ^ 16 -> off + 2 <= size -> Q v (Dec (off + 2) o)) ->
  R INVALID (Dec off o) -> wp (complete (rd_u16 p size)) Q R (Dec off o).
Proof.
  intros Ho HQ HR. apply wp_complete, wp_rd_u16; [done|done| |done].
  intros Hl. apply HQ; [|done]. apply (le_at_range p off 2). apply Hp.
Qed.

Lemma wp_ok_body capabilities :
  0 < size ->
  wp (ok_body p size capabilities) (fun _ s => view_ok (ok_info (d_out s)))
    (fun e _ => e = INVALID) (Dec 1 ok_zero).
Proof.
  intros Hpos. pose proof Hp as [Hs Hm Hb]. unfold ok_body. dec_step.
  apply wp_access; [apply ld_is_Some; lia|]. intros h _. repeat dec_step; [done|].
  apply wp_ok_number; [lia| |done]. intros aff off1 Ho1 _. repeat dec_step.
  apply wp_ok_number; [lia| |done]. intros last off2 Ho2 _. repeat dec_step.
  apply wp_mono with (R := fun e _ => e = INVALID) (Q := fun _ s => 0 <= d_off s <= size); [| |done].
  { wp_step; [|cbn; lia]. repeat dec_step. apply wp_complete_u16; [lia| |done]. intros st _ Hst.
    repeat dec_step. apply wp_complete_u16; [lia| |done]. intros wn _ Hwn. repeat dec_step. cbn. lia. }
  intros _ [off3 o3] Ho3. cbn [d_off] in Ho3. wp_step.
  - dec_step. apply wp_ok_text; [lia| |done]. intros v off4 Ho4 Hv _. repeat dec_step.
    set (o4 := ok_set_info v o3).
    apply wp_mono with (R := fun e _ => e = INVALID) (Q := fun _ s => 0 <= d_off s <= size /\ view_ok (ok_info (d_out s)));
      [| |done].
    { wp_step; [|cbn; by split; [lia|]]. apply wp_ok_text; [lia| |done]. intros w off5 Ho5 Hw _. cbn. by split; [lia|]. }
    intros _ [off5 o5] [Ho5 Hv5]. repeat dec_step; done.
  - dec_step. apply wp_rest_view; [lia|]. intros l Hl Hlb. repeat dec_step. cbn. right. eauto.
Qed.

Lemma wp_err_body capabilities :
  3 <= size ->
  wp (err_body p size capabilities)
    (fun _ s => view_ok (err_message (d_out s)) /\ len (err_sql_state (d_out s)) = 6 /\
       is_Some (find_nul (err_sql_state (d_out s))))
    (fun e _ => e = INVALID) (Dec 1 err_zero).
Proof.
  intros Hpos. pose proof Hp as [Hs Hm Hb]. unfold err_body. dec_step.
  apply wp_complete_u16; [lia| |done]. intros code _ _. repeat dec_step.
  apply wp_mono with (R := fun e _ => e = INVALID)
    (Q := fun _ s => 0 <= d_off s <= size /\ len (err_sql_state (d_out s)) = 6 /\
       is_Some (find_nul (err_sql_state (d_out s)))); [| |done].
  { wp_step; [|cbn; split_and!; [lia..|done|by eexists]]. repeat dec_step; [done|].
    rewrite size_sub_small in * by lia. bsimp.
    apply wp_access; [apply ld_is_Some; lia|]. intros b _. repeat dec_step; [done|].
    apply (wp_access_ldn p size Hp); [lia..|]. intros l Hl Hlb. repeat dec_step.
    cbn [err_sql_state err_zero]. assert (length (zeros 6) = 6%nat) as Hz by done.
    apply wp_access; [rewrite stn_Some by lia; eauto|]. rewrite stn_Some by lia. intros arr [= <-].
    assert (length (splice (zeros 6) 0 l) = 6%nat) as H6 by (rewrite length_splice; lia).
    dec_step. rewrite st_splice by lia. apply wp_access; [eauto|]. intros arr2 [= <-]. repeat dec_step.
    cbn [d_off d_out err_sql_state]. split_and!; [lia..| |].
    - rewrite length_splice by (cbn [length]; lia). lia.
    - replace 5 with (0 + len l) by lia. rewrite splice_app by (cbn [length]; lia).
      rewrite splice_0, <- app_assoc. apply find_nul_app_nul. }
  intros _ [off o] (Ho & H6 & Hn). cbn [d_off d_out] in *. dec_step.
  apply wp_rest_view; [lia|]. intros l Hl Hlb. repeat dec_step. cbn. split_and!; try done. right. eauto.
Qed.

Lemma wp_eof_body capabilities :
  wp (eof_body p size capabilities) (fun _ _ => True) (fun e _ => e = INVALID) (Dec 1 eof_zero).
Proof.
  unfold eof_body. wp_step; repeat dec_step; try done.
  apply wp_complete_u16; [lia| |done]. intros w _ _. repeat dec_step.
  apply wp_complete_u16; [lia| |done]. intros st _ _. repeat dec_step; done.
Qed.
End ResultSafe.

(** ** Text rows: safety and what they decode to *)

Lemma set_at_Some {A} (l : list A) i a : 0 <= i < len l -> set_at l i a = Some (<[Z.to_nat i := a]> l).
Proof. intros. unfold set_at. case_match; [done|]. blia. Qed.

Lemma clear_array_Some {A} (z : A) l n :
  0 <= n <= len l -> clear_array z l n = Some (replicate (Z.to_nat n) z ++ drop (Z.to_nat n) l).
Proof. intros. unfold clear_array. case_match; [done|]. blia. Qed.

(** The loop changes only the elements from [index] on, [n] of them. *)
Lemma wp_text_columns p size n : forall index off cols tail,
  buf_ok p size -> 0 <= index -> 0 <= off <= size -> Z.of_nat n = len cols - index - len tail ->
  (exists pre, cols = pre ++ tail) ->
  wp (text_columns n index p size)
    (fun _ s => 0 <= d_off s <= size /\ length (d_out s) = length cols /\ exists pre, d_out s = pre ++ tail)
    (fun e s => e = INVALID /\ length (d_out s) = length cols /\ exists pre, d_out s = pre ++ tail)
    (Dec off cols).
Proof.
  induction n as [|n IH]; intros index off cols tail Hp Hi Ho Hn Hpre; cbn [text_columns].
  { apply wp_ret. cbn; split_and!; [lia..|done|done]. }
  dec_step. apply wp_complete, wp_rd_lenenc_bytes; [done|lia| |intros e [-> | ->]; by split_and!].
  intros v off' Ho' _. repeat dec_step. apply wp_access; [rewrite set_at_Some by lia; eauto|].
  rewrite set_at_Some by lia. intros cols' [= <-]. repeat dec_step.
  destruct Hpre as [pre ->]. rewrite length_app in Hn.
  assert (exists pre', <[Z.to_nat index := v]> (pre ++ tail) = pre' ++ tail) as Hpre'.
  { rewrite insert_app_l by lia. eauto. }
  eapply wp_mono; [apply (IH (index + 1) off' _ tail); try done; rewrite ?length_insert, ?length_app; lia|..].
  - intros _ [o c]. by rewrite length_insert.
  - intros e [o c]. by rewrite length_insert.
Qed.

(** A field of a text row: NULL or a byte string. *)
Definition field_enc (f : option bytes) : bytes :=
  match f with None => [0xfb] | Some l => lenenc_bytes_enc l end.
Definition field_view (f : option bytes) : mysql_wire_bytes_t :=
  match f with None => wire_bytes_null | Some l => wire_bytes_of l end.
Definition row_enc (fs : list (option bytes)) : bytes := concat (map field_enc fs).

Definition put_at {A} (l : list A) (i : Z) (vs : list A) : list A :=
  take (Z.to_nat i) l ++ vs ++ drop (Z.to_nat i + length vs) l.

Lemma put_at_cons {A} (l : list A) i v vs :
  0 <= i -> i + 1 + len vs <= len l ->
  put_at (<[Z.to_nat i := v]> l) (i + 1) vs = put_at l i (v :: vs).
Proof.
  intros Hi Hl. unfold put_at. replace (Z.to_nat (i + 1)) with (S (Z.to_nat i)) by lia.
  rewrite (take_S_r _ _ v), take_insert_ge by (try apply list_lookup_insert_eq; lia). rewrite drop_insert_lt by lia.
  rewrite <- app_assoc. cbn [app length]. do 4 f_equal. lia.
Qed.

Lemma parses_text_columns p fs : forall index cols l,
  buf_ok p (len p) -> 0 <= index -> index + len fs <= len cols ->
  parses p (text_columns (length fs) index p (len p)) cols (row_enc fs ++ l) tt
    (put_at cols index (map field_view fs)) l.
Proof.
  induction fs as [|f fs IH]; intros index cols l Hp Hi Hl.
  { cbn. unfold put_at. cbn. rewrite Nat.add_0_r, take_drop. apply parses_ret. }
  cbn [length text_columns map row_enc concat] in *. rewrite <- app_assoc.
  assert (forall l', parses p (complete (rd_lenenc_bytes p (len p))) cols (field_enc f ++ l') (field_view f) cols l')
    as Hf.
  { intros l'. apply parses_map_err. destruct f; [apply parses_lenenc_bytes|apply parses_lenenc_null]; done. }
  eapply parses_bind; [apply Hf|].
  eapply parses_bind; [apply (parses_gets p (fun c => c))|].
  eapply parses_bind; [apply parses_access; apply set_at_Some; lia|].
  eapply parses_bind; [apply parses_out_set|]. rewrite <- put_at_cons by (rewrite ?length_map; lia).
  apply IH; rewrite ?length_insert; done || lia.
Qed.

(** ** Properties *)

(** Decoding an OK, ERR or EOF packet is memory safe on every payload. The
    payload is a complete packet, so the only error is INVALID and never a
    request for more input; and the texts of an accepted packet are views of
    valid bytes, the SQL state of an accepted ERR packet is terminated. *)
Theorem result_packets_safe p size capabilities ok0 err0 eof0 :
  buf_ok p size ->
  (exists r o, mysql_wire_decode_ok_packet (Some p) size capabilities (Some ok0) = (r, Some o) /\
     (r = Ret tt /\ view_ok (ok_info o) \/ r = Err INVALID)) /\
  (exists r o, mysql_wire_decode_err_packet (Some p) size capabilities (Some err0) = (r, Some o) /\
     (r = Ret tt /\ view_ok (err_message o) /\ is_Some (find_nul (err_sql_state o)) \/ r = Err INVALID)) /\
  (exists r o, mysql_wire_decode_eof_packet (Some p) size capabilities (Some eof0) = (r, Some o) /\
     (r = Ret tt \/ r = Err INVALID)).
Proof.
  intros Hp. pose proof Hp as [Hs _ _]. split_and!.
  - unfold mysql_wire_decode_ok_packet. destruct (Z.eqb_spec size 0); [by eauto|].
    pose proof (wp_ok_body p size Hp capabilities ltac:(lia)) as Hwp. unfold wp in Hwp. unfold run_dec.
    destruct (ok_body _ _ _ _) as [[[]|e|] s]; [eauto 7|subst e; eauto|done].
  - unfold mysql_wire_decode_err_packet. destruct (Z.ltb_spec size 3); [by eauto|].
    destruct (ld_is_Some p 0) as [b ->]; [lia|]. destruct (negb (b =? 0xff)); [by eauto|].
    pose proof (wp_err_body p size Hp capabilities ltac:(lia)) as Hwp. unfold wp in Hwp. unfold run_dec.
    destruct (err_body _ _ _ _) as [[[]|e|] s]; [destruct Hwp as (? & _ & ?); eauto 8|subst e; eauto|done].
  - unfold mysql_wire_decode_eof_packet. destruct (Z.eqb_spec size 0); [by eauto|].
    destruct (ld_is_Some p 0) as [b ->]; [lia|]. destruct (negb (b =? 0xfe) || _); [by eauto|].
    pose proof (wp_eof_body p size Hp capabilities) as Hwp. unfold wp in Hwp. unfold run_dec.
    destruct (eof_body _ _ _ _) as [[[]|e|] s]; [eauto|subst e; eauto|done].
Qed.

(** A text row is decoded all or nothing. Whatever the payload, with room
    for the columns the call is memory safe, its only error is INVALID, columns
    past the requested ones are never touched, and after an error every
    requested column is cleared, so no view of a half-decoded row is left. *)
Theorem text_row_all_or_nothing p size count cols capacity :
  buf_ok p size -> 0 < count <= capacity -> capacity <= len cols ->
  exists r cols', mysql_wire_decode_text_row (Some p) size count (Some cols) capacity = (r, Some cols') /\
    length cols' = length cols /\ drop (Z.to_nat count) cols' = drop (Z.to_nat count) cols /\
    (r = Ret tt \/ r = Err INVALID /\ take (Z.to_nat count) cols' = replicate (Z.to_nat count) wire_bytes_zero).
Proof.
  intros Hp Hc Hl. unfold mysql_wire_decode_text_row. destruct (Z.eqb_spec count 0) as [|_]; [lia|].
  destruct (Z.ltb_spec capacity count); [lia|]. rewrite clear_array_Some by lia.
  set (n := Z.to_nat count). set (tail := drop n cols).
  assert (length tail = length cols - n)%nat as Htl by (unfold tail; apply length_drop).
  set (cols0 := replicate n wire_bytes_zero ++ tail).
  assert (length cols0 = length cols) as Hl0.
  { unfold cols0. rewrite length_app, length_replicate. lia. }
  pose proof (wp_text_columns p size n 0 0 cols0 tail Hp) as Hwp. unfold wp in Hwp.
  destruct Hp as [Hs _ _]. specialize (Hwp ltac:(lia) ltac:(lia) ltac:(lia) ltac:(by eexists)).
  assert (forall s : dec (list mysql_wire_bytes_t), length (d_out s) = length cols0 ->
    (exists pre, d_out s = pre ++ tail) -> drop n (d_out s) = tail /\
    exists cols', clear_array wire_bytes_zero (d_out s) count = Some cols' /\ length cols' = length cols /\
      drop n cols' = tail /\ take n cols' = replicate n wire_bytes_zero) as Hclear.
  { intros [off c] Hlen [pre Hpre]. cbn [d_out] in *. subst c. rewrite length_app in Hlen.
    assert (length pre = n) by lia. split; [by apply drop_app_length'|].
    rewrite clear_array_Some by (rewrite length_app; lia). eexists. split; [done|].
    fold n. rewrite drop_app_length' by done.
    rewrite length_app, length_replicate, drop_app_length', take_app_length' by (by rewrite length_replicate).
    split_and!; try done. lia. }
  destruct (text_columns n 0 p size (Dec 0 cols0)) as [[[]|e|] s]; [| |done].
  - destruct Hwp as (_ & Hlen & Hpre). destruct (Hclear s Hlen Hpre) as (Hd & cols' & -> & H1 & H2 & H3).
    destruct (negb (d_off s =? size)).
    + exists (Err INVALID), cols'. split_and!; try done. by right.
    + exists (Ret tt), (d_out s). split_and!; try done; [lia|]. by left.
  - destruct Hwp as (-> & Hlen & Hpre). destruct (Hclear s Hlen Hpre) as (_ & cols' & -> & H1 & H2 & H3).
    exists (Err INVALID), cols'. split_and!; try done. by right.
Qed.
