(* ===== verification/Row.v ===== *)
(** * Column definitions and binary rows (mysql/wire/row.c, row.h)

    A value of type double is its 64-bit pattern. The kind and the union of a
    decoded value are one inductive type. *)

From S2P Require Import Prelude Codec Handshake Result.

(** ** Data *)

Definition MYSQL_COLUMN_FLAG_UNSIGNED : Z := 0x0020.

Definition MYSQL_FIELD_TYPE_DECIMAL : Z := 0x00.
Definition MYSQL_FIELD_TYPE_TINY : Z := 0x01.
Definition MYSQL_FIELD_TYPE_SHORT : Z := 0x02.
Definition MYSQL_FIELD_TYPE_LONG : Z := 0x03.
Definition MYSQL_FIELD_TYPE_FLOAT : Z := 0x04.
Definition MYSQL_FIELD_TYPE_DOUBLE : Z := 0x05.
Definition MYSQL_FIELD_TYPE_NULL : Z := 0x06.
Definition MYSQL_FIELD_TYPE_TIMESTAMP : Z := 0x07.
Definition MYSQL_FIELD_TYPE_LONGLONG : Z := 0x08.
Definition MYSQL_FIELD_TYPE_INT24 : Z := 0x09.
Definition MYSQL_FIELD_TYPE_DATE : Z := 0x0a.
Definition MYSQL_FIELD_TYPE_TIME : Z := 0x0b.
Definition MYSQL_FIELD_TYPE_DATETIME : Z := 0x0c.
Definition MYSQL_FIELD_TYPE_YEAR : Z := 0x0d.
Definition MYSQL_FIELD_TYPE_VARCHAR : Z := 0x0f.
Definition MYSQL_FIELD_TYPE_BIT : Z := 0x10.
Definition MYSQL_FIELD_TYPE_JSON : Z := 0xf5.
Definition MYSQL_FIELD_TYPE_NEWDECIMAL : Z := 0xf6.
Definition MYSQL_FIELD_TYPE_ENUM : Z := 0xf7.
Definition MYSQL_FIELD_TYPE_SET : Z := 0xf8.
Definition MYSQL_FIELD_TYPE_TINY_BLOB : Z := 0xf9.
Definition MYSQL_FIELD_TYPE_MEDIUM_BLOB : Z := 0xfa.
Definition MYSQL_FIELD_TYPE_LONG_BLOB : Z := 0xfb.
Definition MYSQL_FIELD_TYPE_BLOB : Z := 0xfc.
Definition MYSQL_FIELD_TYPE_VAR_STRING : Z := 0xfd.
Definition MYSQL_FIELD_TYPE_STRING : Z := 0xfe.
Definition MYSQL_FIELD_TYPE_GEOMETRY : Z := 0xff.

Record mysql_column_definition_t : Type := mk_column {
  col_catalog : mysql_wire_bytes_t;
  col_schema : mysql_wire_bytes_t;
  col_table : mysql_wire_bytes_t;
  col_org_table : mysql_wire_bytes_t;
  col_name : mysql_wire_bytes_t;
  col_org_name : mysql_wire_bytes_t;
  col_character_set : Z;
  col_column_length : Z;
  col_type : Z;
  col_flags : Z;
  col_decimals : Z
}.

Record mysql_binary_datetime_t : Type := mk_datetime {
  dt_year : Z; dt_month : Z; dt_day : Z; dt_hour : Z; dt_minute : Z; dt_second : Z;
  dt_microsecond : Z; dt_wire_length : Z
}.

Record mysql_binary_time_t : Type := mk_time {
  tm_negative : bool; tm_days : Z; tm_hour : Z; tm_minute : Z; tm_second : Z;
  tm_microsecond : Z; tm_wire_length : Z
}.

Inductive mysql_binary_data : Type :=
| MYSQL_BINARY_VALUE_NULL
| MYSQL_BINARY_VALUE_SINT64 (z : Z)
| MYSQL_BINARY_VALUE_UINT64 (z : Z)
| MYSQL_BINARY_VALUE_DOUBLE (bits : Z)
| MYSQL_BINARY_VALUE_BYTES (v : mysql_wire_bytes_t)
| MYSQL_BINARY_VALUE_DATETIME (v : mysql_binary_datetime_t)
| MYSQL_BINARY_VALUE_TIME (v : mysql_binary_time_t).

Record mysql_binary_value_t : Type := mk_binary_value {
  bv_data : mysql_binary_data;
  bv_mysql_type : Z
}.

Definition column_zero : mysql_column_definition_t :=
  mk_column wire_bytes_zero wire_bytes_zero wire_bytes_zero wire_bytes_zero wire_bytes_zero wire_bytes_zero
    0 0 0 0 0.

(** Assignments to one member. *)
Definition col_set_catalog v c := mk_column v (col_schema c) (col_table c) (col_org_table c) (col_name c)
  (col_org_name c) (col_character_set c) (col_column_length c) (col_type c) (col_flags c) (col_decimals c).
Definition col_set_schema v c := mk_column (col_catalog c) v (col_table c) (col_org_table c) (col_name c)
  (col_org_name c) (col_character_set c) (col_column_length c) (col_type c) (col_flags c) (col_decimals c).
Definition col_set_table v c := mk_column (col_catalog c) (col_schema c) v (col_org_table c) (col_name c)
  (col_org_name c) (col_character_set c) (col_column_length c) (col_type c) (col_flags c) (col_decimals c).
Definition col_set_org_table v c := mk_column (col_catalog c) (col_schema c) (col_table c) v (col_name c)
  (col_org_name c) (col_character_set c) (col_column_length c) (col_type c) (col_flags c) (col_decimals c).
Definition col_set_name v c := mk_column (col_catalog c) (col_schema c) (col_table c) (col_org_table c) v
  (col_org_name c) (col_character_set c) (col_column_length c) (col_type c) (col_flags c) (col_decimals c).
Definition col_set_org_name v c := mk_column (col_catalog c) (col_schema c) (col_table c) (col_org_table c)
  (col_name c) v (col_character_set c) (col_column_length c) (col_type c) (col_flags c) (col_decimals c).
Definition col_set_charset v c := mk_column (col_catalog c) (col_schema c) (col_table c) (col_org_table c)
  (col_name c) (col_org_name c) v (col_column_length c) (col_type c) (col_flags c) (col_decimals c).
Definition col_set_length v c := mk_column (col_catalog c) (col_schema c) (col_table c) (col_org_table c)
  (col_name c) (col_org_name c) (col_character_set c) v (col_type c) (col_flags c) (col_decimals c).
Definition col_set_type v c := mk_column (col_catalog c) (col_schema c) (col_table c) (col_org_table c)
  (col_name c) (col_org_name c) (col_character_set c) (col_column_length c) v (col_flags c) (col_decimals c).
Definition col_set_flags v c := mk_column (col_catalog c) (col_schema c) (col_table c) (col_org_table c)
  (col_name c) (col_org_name c) (col_character_set c) (col_column_length c) (col_type c) v (col_decimals c).
Definition col_set_decimals v c := mk_column (col_catalog c) (col_schema c) (col_table c) (col_org_table c)
  (col_name c) (col_org_name c) (col_character_set c) (col_column_length c) (col_type c) (col_flags c) v.

(** ** Column definitions *)

(** The view is stored by [set] before the NULL marker is looked at. *)
Definition mysql_row_read_required_bytes {T} (p : bytes) (size : Z)
    (set : mysql_wire_bytes_t -> T -> T) : D T unit :=
  v ← rd_lenenc_bytes p size;
  out_set (set v);;
  fail_if (wb_is_null v) INVALID.

(** [if (offset >= payload_size) return NEED_MORE; x = payload[offset++];] *)
Definition checked_byte {T} (p : bytes) (size : Z) : D T Z :=
  off ← offset; fail_if (size <=? off) NEED_MORE;; next_byte p.

(** [if (offset > payload_size || payload_size - offset < n) return NEED_MORE;] *)
Definition need_bytes {T} (size n : Z) : D T unit :=
  off ← offset; fail_if ((size <? off) || (size_sub size off <? n)) NEED_MORE.

Definition column_definition_body (p : bytes) (size : Z) : D mysql_column_definition_t unit :=
  mysql_row_read_required_bytes p size col_set_catalog;;
  mysql_row_read_required_bytes p size col_set_schema;;
  mysql_row_read_required_bytes p size col_set_table;;
  mysql_row_read_required_bytes p size col_set_org_table;;
  mysql_row_read_required_bytes p size col_set_name;;
  mysql_row_read_required_bytes p size col_set_org_name;;
  fixed_length ← rd_lenenc_uint p size;
  fail_if (snd fixed_length || negb (fst fixed_length =? 0x0c)) INVALID;;
  charset ← rd_u16 p size; out_set (col_set_charset charset);;
  length ← rd_u32 p size; out_set (col_set_length length);;
  type ← checked_byte p size; out_set (col_set_type type);;
  flags ← rd_u16 p size; out_set (col_set_flags flags);;
  decimals ← checked_byte p size; out_set (col_set_decimals decimals);;
  need_bytes size 2;;
  off ← offset;
  b0 ← access (ld p off);
  b1 ← (if negb (b0 =? 0) then mret 0 else access (ld p (off + 1)));
  fail_if (negb (b0 =? 0) || negb (b1 =? 0)) INVALID;;
  skip 2;;
  off ← offset;
  fail_if (negb (off =? size)) INVALID.

Definition mysql_wire_decode_column_definition41 (payload : ptr bytes) (payload_size : Z)
    (out : ptr mysql_column_definition_t) : wire_result unit * ptr mysql_column_definition_t :=
  match payload, out with
  | Some p, Some _ => run_dec 0 column_zero (column_definition_body p payload_size)
  | _, _ => (Err INVALID, out)
  end.

(** ** Values *)

Definition INT64_MAX : Z := 2 ^ 63 - 1.

(** [~raw] on 64 bits. *)
Definition not64 (raw : Z) : Z := u64 (Z.lnot raw).

Definition mysql_row_sign_extend (raw bits : Z) : Z :=
  if bits =? 64 then
    if raw <=? INT64_MAX then raw
    else if raw =? Z.shiftl 1 63 then - 2 ^ 63
    else - (u64 (not64 raw + 1))
  else
    let sign := Z.shiftl 1 (bits - 1) in
    let mask := Z.shiftl 1 bits - 1 in
    let raw := Z.land raw mask in
    if Z.land raw sign =? 0 then raw
    else - (Z.land (not64 raw) mask + 1).

Definition mysql_row_decode_integer {T} (p : bytes) (size : Z) (column : mysql_column_definition_t)
    (width : Z) : D T mysql_binary_data :=
  raw ← (if width =? 1 then checked_byte p size
         else if width =? 2 then rd_u16 p size
         else if width =? 4 then rd_u32 p size
         else if width =? 8 then rd_u64 p size
         else fail INVALID);
  mret (if negb (Z.land (col_flags column) MYSQL_COLUMN_FLAG_UNSIGNED =? 0)
        then MYSQL_BINARY_VALUE_UINT64 raw
        else MYSQL_BINARY_VALUE_SINT64 (mysql_row_sign_extend raw (width * 8))).

(** The conversion of a binary32 pattern to the binary64 pattern of the same
    number; a NaN becomes quiet. *)
Definition float_to_double (raw : Z) : Z :=
  let sign := Z.shiftl (Z.shiftr raw 31) 63 in
  let exponent := Z.land (Z.shiftr raw 23) 0xff in
  let fraction := Z.land raw 0x7fffff in
  if exponent =? 0xff then
    Z.lor sign (Z.lor (Z.shiftl 0x7ff 52)
      (if fraction =? 0 then 0 else Z.lor (Z.shiftl 1 51) (Z.shiftl fraction 29)))
  else if exponent =? 0 then
    if fraction =? 0 then sign
    else
      let top := Z.log2 fraction in
      Z.lor sign (Z.lor (Z.shiftl (top + 874) 52) (Z.shiftl (fraction - Z.shiftl 1 top) (52 - top)))
  else Z.lor sign (Z.lor (Z.shiftl (exponent + 896) 52) (Z.shiftl fraction 29)).

Definition mysql_row_decode_float {T} (p : bytes) (size : Z) : D T mysql_binary_data :=
  raw ← rd_u32 p size; mret (MYSQL_BINARY_VALUE_DOUBLE (float_to_double raw)).

Definition mysql_row_decode_double {T} (p : bytes) (size : Z) : D T mysql_binary_data :=
  raw ← rd_u64 p size; mret (MYSQL_BINARY_VALUE_DOUBLE raw).

Definition mysql_row_decode_bytes {T} (p : bytes) (size : Z) : D T mysql_binary_data :=
  v ← rd_lenenc_bytes p size;
  fail_if (wb_is_null v) INVALID;;
  mret (MYSQL_BINARY_VALUE_BYTES v).

Definition mysql_row_valid_datetime (v : mysql_binary_datetime_t) (date_only : bool) : bool :=
  if (12 <? dt_month v) || (31 <? dt_day v) || (999999 <? dt_microsecond v) then false
  else if date_only
  then (dt_hour v =? 0) && (dt_minute v =? 0) && (dt_second v =? 0) && (dt_microsecond v =? 0)
  else (dt_hour v <=? 23) && (dt_minute v <=? 59) && (dt_second v <=? 59).

Definition mysql_row_decode_datetime {T} (p : bytes) (size : Z) (date_only : bool)
    : D T mysql_binary_data :=
  length ← checked_byte p size;
  if length =? 0 then mret (MYSQL_BINARY_VALUE_DATETIME (mk_datetime 0 0 0 0 0 0 0 length))
  else
    fail_if (if date_only then negb (length =? 4)
             else negb (length =? 4) && negb (length =? 7) && negb (length =? 11)) INVALID;;
    year ← rd_u16 p size;
    need_bytes size 2;;
    month ← next_byte p; day ← next_byte p;
    clock ← (if 7 <=? length then
               need_bytes size 3;;
               hour ← next_byte p; minute ← next_byte p; second ← next_byte p;
               mret (hour, minute, second)
             else mret (0, 0, 0));
    microsecond ← (if length =? 11 then rd_u32 p size else mret 0);
    let '(hour, minute, second) := clock in
    let value := mk_datetime year month day hour minute second microsecond length in
    fail_if (negb (mysql_row_valid_datetime value date_only)) INVALID;;
    mret (MYSQL_BINARY_VALUE_DATETIME value).

Definition mysql_row_decode_time {T} (p : bytes) (size : Z) : D T mysql_binary_data :=
  length ← checked_byte p size;
  if length =? 0 then mret (MYSQL_BINARY_VALUE_TIME (mk_time false 0 0 0 0 0 length))
  else
    fail_if (negb (length =? 8) && negb (length =? 12)) INVALID;;
    off ← offset;
    fail_if (size <=? off) NEED_MORE;;
    sign ← access (ld p off);
    fail_if (1 <? sign) INVALID;;
    skip 1;;
    days ← rd_u32 p size;
    need_bytes size 3;;
    hour ← next_byte p; minute ← next_byte p; second ← next_byte p;
    microsecond ← (if length =? 12 then rd_u32 p size else mret 0);
    fail_if ((23 <? hour) || (59 <? minute) || (59 <? second) || (999999 <? microsecond)) INVALID;;
    mret (MYSQL_BINARY_VALUE_TIME
            (mk_time (negb (sign =? 0)) days hour minute second microsecond length)).

Definition is_bytes_type (type : Z) : bool :=
  existsb (Z.eqb type)
    [MYSQL_FIELD_TYPE_DECIMAL; MYSQL_FIELD_TYPE_VARCHAR; MYSQL_FIELD_TYPE_BIT; MYSQL_FIELD_TYPE_JSON;
     MYSQL_FIELD_TYPE_NEWDECIMAL; MYSQL_FIELD_TYPE_ENUM; MYSQL_FIELD_TYPE_SET; MYSQL_FIELD_TYPE_TINY_BLOB;
     MYSQL_FIELD_TYPE_MEDIUM_BLOB; MYSQL_FIELD_TYPE_LONG_BLOB; MYSQL_FIELD_TYPE_BLOB;
     MYSQL_FIELD_TYPE_VAR_STRING; MYSQL_FIELD_TYPE_STRING; MYSQL_FIELD_TYPE_GEOMETRY].

Definition mysql_row_decode_value {T} (p : bytes) (size : Z) (column : mysql_column_definition_t)
    : D T mysql_binary_data :=
  let type := col_type column in
  if type =? MYSQL_FIELD_TYPE_NULL then mret MYSQL_BINARY_VALUE_NULL
  else if type =? MYSQL_FIELD_TYPE_TINY then mysql_row_decode_integer p size column 1
  else if (type =? MYSQL_FIELD_TYPE_SHORT) || (type =? MYSQL_FIELD_TYPE_YEAR)
  then mysql_row_decode_integer p size column 2
  else if (type =? MYSQL_FIELD_TYPE_LONG) || (type =? MYSQL_FIELD_TYPE_INT24)
  then mysql_row_decode_integer p size column 4
  else if type =? MYSQL_FIELD_TYPE_LONGLONG then mysql_row_decode_integer p size column 8
  else if type =? MYSQL_FIELD_TYPE_FLOAT then mysql_row_decode_float p size
  else if type =? MYSQL_FIELD_TYPE_DOUBLE then mysql_row_decode_double p size
  else if type =? MYSQL_FIELD_TYPE_DATE then mysql_row_decode_datetime p size true
  else if (type =? MYSQL_FIELD_TYPE_DATETIME) || (type =? MYSQL_FIELD_TYPE_TIMESTAMP)
  then mysql_row_decode_datetime p size false
  else if type =? MYSQL_FIELD_TYPE_TIME then mysql_row_decode_time p size
  else if is_bytes_type type then mysql_row_decode_bytes p size
  else fail INVALID.

(** ** Rows *)

(** The loop over the columns that are left, from column [i]; the state holds
    the array of values, the NULL bitmap starts at byte 1 of the payload. *)
Fixpoint binary_columns (p : bytes) (size i : Z) (columns : list mysql_column_definition_t)
    : D (list mysql_binary_value_t) unit :=
  match columns with
  | [] => mret tt
  | column :: columns =>
      let bit := i + 2 in
      bitmap ← access (ld p (1 + bit / 8));
      let store data :=
        values ← gets d_out;
        values ← access (set_at values i (mk_binary_value data (col_type column)));
        out_set (fun _ => values) in
      store MYSQL_BINARY_VALUE_NULL;;
      (if negb (Z.land bitmap (u8 (Z.shiftl 1 (bit mod 8))) =? 0) then mret tt
       else data ← mysql_row_decode_value p size column; store data);;
      binary_columns p size (i + 1) columns
  end.

Definition mysql_wire_decode_binary_row (payload : ptr bytes) (payload_size : Z)
    (columns : ptr (list mysql_column_definition_t)) (column_count : Z)
    (values : ptr (list mysql_binary_value_t)) (value_capacity : Z)
    : wire_result unit * ptr (list mysql_binary_value_t) :=
  match payload with
  | None => (Err INVALID, values)
  | Some p =>
      if match columns, values with
         | Some _, Some _ => false
         | _, _ => negb (column_count =? 0)
         end then (Err INVALID, values)
      else if value_capacity <? column_count then (Err LIMIT, values)
      else if SIZE_MAX - 9 <? column_count then (Err LIMIT, values)
      else if payload_size <? 1 then (Err NEED_MORE, values)
      else
        match ld p 0 with
        | None => (Fault, values)
        | Some b =>
            if negb (b =? 0) then (Err INVALID, values)
            else
              let null_bitmap_size := (column_count + 9) / 8 in
              if size_sub payload_size 1 <? null_bitmap_size then (Err NEED_MORE, values)
              else if len (default [] columns) <? column_count then (Fault, values)
              else
                let body :=
                  binary_columns p payload_size 0 (take (Z.to_nat column_count) (default [] columns));;
                  off ← offset;
                  fail_if (negb (off =? payload_size)) INVALID in
                let '(r, s) := body (Dec (1 + null_bitmap_size) (default [] values)) in
                (r, match values with Some _ => Some (d_out s) | None => None end)
        end
  end.

(** ** Two's complement *)

Lemma not64_sub raw : 0 <= raw < 2 ^ 64 -> not64 raw = 2 ^ 64 - 1 - raw.
Proof.
  intros. unfold not64, u64. unfold Z.lnot. rewrite <- (Z.mod_add _ 1) by lia.
  rewrite Z.mod_small; lia.
Qed.

(** The sign bit of an integer of [bits] bits. *)
Lemma land_sign raw bits :
  1 <= bits -> 0 <= raw < 2 ^ bits ->
  (Z.land raw (2 ^ (bits - 1)) =? 0) = (raw <? 2 ^ (bits - 1)).
Proof.
  intros Hb Hr. rewrite land_pow2 by lia. rewrite Z.testbit_eqb by lia.
  pose proof (Z.pow_pos_nonneg 2 (bits - 1) ltac:(lia) ltac:(lia)) as Hpos.
  assert (2 ^ bits = 2 * 2 ^ (bits - 1)) as Hp.
  { rewrite <- Z.pow_succ_r by lia. f_equal. lia. }
  destruct (Z.ltb_spec raw (2 ^ (bits - 1))).
  - rewrite Z.div_small by lia. done.
  - assert (raw / 2 ^ (bits - 1) = 1) as ->.
    { symmetry. apply (Z.div_unique _ _ _ (raw - 2 ^ (bits - 1))); lia. }
    change (1 mod 2 =? 1) with true. cbn iota. apply Z.eqb_neq. lia.
Qed.

Lemma sign_extend_eq raw bits :
  1 <= bits <= 64 -> 0 <= raw < 2 ^ bits ->
  mysql_row_sign_extend raw bits = if raw <? 2 ^ (bits - 1) then raw else raw - 2 ^ bits.
Proof.
  intros Hb Hr. unfold mysql_row_sign_extend, INT64_MAX. destruct (Z.eqb_spec bits 64) as [->|Hne].
  - change (64 - 1) with 63. change (Z.shiftl 1 63) with (2 ^ 63).
    destruct (Z.leb_spec raw (2 ^ 63 - 1)), (Z.ltb_spec raw (2 ^ 63)); [done|lia..|].
    destruct (Z.eqb_spec raw (2 ^ 63)) as [->|]; [done|].
    rewrite not64_sub by done. rewrite u64_small; lia.
  - assert (2 ^ bits <= 2 ^ 63) by (apply Z.pow_le_mono_r; lia).
    rewrite !Z.shiftl_1_l. change (2 ^ bits - 1) with (Z.pred (2 ^ bits)).
    rewrite <- (Z.ones_equiv bits), !Z.land_ones, (Z.mod_small raw) by lia.
    rewrite land_sign by lia. destruct (Z.ltb_spec raw (2 ^ (bits - 1))); [done|].
    rewrite not64_sub by lia.
    assert (2 ^ 64 = 2 ^ (64 - bits) * 2 ^ bits) as ->.
    { rewrite <- Z.pow_add_r by lia. f_equal. lia. }
    replace (2 ^ (64 - bits) * 2 ^ bits - 1 - raw)
      with (2 ^ bits - 1 - raw + (2 ^ (64 - bits) - 1) * 2 ^ bits) by ring.
    rewrite Z.mod_add, Z.mod_small by lia. lia.
Qed.

Lemma sign_extend_mod z bits :
  1 <= bits <= 64 -> - 2 ^ (bits - 1) <= z < 2 ^ (bits - 1) ->
  mysql_row_sign_extend (z mod 2 ^ bits) bits = z.
Proof.
  intros Hb Hz. rewrite sign_extend_eq by (try apply Z.mod_pos_bound; lia).
  assert (2 ^ bits = 2 * 2 ^ (bits - 1)) as Hp.
  { rewrite <- Z.pow_succ_r by lia. f_equal. lia. }
  destruct (Z.le_gt_cases 0 z).
  - rewrite Z.mod_small by lia. destruct (Z.ltb_spec z (2 ^ (bits - 1))); lia.
  - assert (z mod 2 ^ bits = z + 2 ^ bits) as ->.
    { rewrite <- (Z.mod_add z 1), Z.mod_small by lia. lia. }
    destruct (Z.ltb_spec (z + 2 ^ bits) (2 ^ (bits - 1))); lia.
Qed.

Lemma sign_extend_range raw bits :
  1 <= bits <= 64 -> 0 <= raw < 2 ^ bits ->
  - 2 ^ (bits - 1) <= mysql_row_sign_extend raw bits < 2 ^ (bits - 1).
Proof.
  intros Hb Hr. rewrite sign_extend_eq by done.
  assert (2 ^ bits = 2 * 2 ^ (bits - 1)) by (rewrite <- Z.pow_succ_r by lia; f_equal; lia).
  destruct (Z.ltb_spec raw (2 ^ (bits - 1))); lia.
Qed.

(** ** The values a column can hold, and their bytes *)

Definition is_unsigned (c : mysql_column_definition_t) : bool :=
  negb (Z.land (col_flags c) MYSQL_COLUMN_FLAG_UNSIGNED =? 0).

Definition int_width (type : Z) : option nat :=
  if type =? MYSQL_FIELD_TYPE_TINY then Some 1%nat
  else if (type =? MYSQL_FIELD_TYPE_SHORT) || (type =? MYSQL_FIELD_TYPE_YEAR) then Some 2%nat
  else if (type =? MYSQL_FIELD_TYPE_LONG) || (type =? MYSQL_FIELD_TYPE_INT24) then Some 4%nat
  else if type =? MYSQL_FIELD_TYPE_LONGLONG then Some 8%nat
  else None.

(** Whether the type has a date, and if so whether it has no clock. *)
Definition date_type (type : Z) : option bool :=
  if type =? MYSQL_FIELD_TYPE_DATE then Some true
  else if (type =? MYSQL_FIELD_TYPE_DATETIME) || (type =? MYSQL_FIELD_TYPE_TIMESTAMP) then Some false
  else None.

Definition datetime_bytes (v : mysql_binary_datetime_t) : bytes :=
  dt_wire_length v ::
  (if dt_wire_length v =? 0 then [] else
   le_bytes 2 (dt_year v) ++ [dt_month v; dt_day v] ++
   (if 7 <=? dt_wire_length v then [dt_hour v; dt_minute v; dt_second v] else []) ++
   (if dt_wire_length v =? 11 then le_bytes 4 (dt_microsecond v) else [])).

Definition time_bytes (v : mysql_binary_time_t) : bytes :=
  tm_wire_length v ::
  (if tm_wire_length v =? 0 then [] else
   (if tm_negative v then 1 else 0) :: le_bytes 4 (tm_days v) ++
   [tm_hour v; tm_minute v; tm_second v] ++
   (if tm_wire_length v =? 12 then le_bytes 4 (tm_microsecond v) else [])).

(** A calendar value the protocol can carry: the fields the length leaves out
    are zero, the others are in range. *)
Record datetime_ok (date_only : bool) (v : mysql_binary_datetime_t) : Prop := {
  dt_len : dt_wire_length v ∈ (if date_only then [0; 4] else [0; 4; 7; 11]);
  dt_date : 0 <= dt_year v < 2 ^ 16 /\ 0 <= dt_month v <= 12 /\ 0 <= dt_day v <= 31;
  dt_clock : 0 <= dt_hour v <= 23 /\ 0 <= dt_minute v <= 59 /\ 0 <= dt_second v <= 59 /\
    0 <= dt_microsecond v <= 999999;
  dt_absent_date : dt_wire_length v = 0 -> dt_year v = 0 /\ dt_month v = 0 /\ dt_day v = 0;
  dt_absent_clock : dt_wire_length v < 7 -> dt_hour v = 0 /\ dt_minute v = 0 /\ dt_second v = 0;
  dt_absent_micro : dt_wire_length v < 11 -> dt_microsecond v = 0
}.

Record time_ok (v : mysql_binary_time_t) : Prop := {
  tm_len : tm_wire_length v ∈ [0; 8; 12];
  tm_fields : 0 <= tm_days v < 2 ^ 32 /\ 0 <= tm_hour v <= 23 /\ 0 <= tm_minute v <= 59 /\
    0 <= tm_second v <= 59 /\ 0 <= tm_microsecond v <= 999999;
  tm_absent : tm_wire_length v = 0 ->
    tm_negative v = false /\ tm_days v = 0 /\ tm_hour v = 0 /\ tm_minute v = 0 /\ tm_second v = 0;
  tm_absent_micro : tm_wire_length v < 12 -> tm_microsecond v = 0
}.

(** [value_enc c d l]: [l] is the binary encoding of the value [d] of a column
    declared by [c]. *)
Inductive value_enc (c : mysql_column_definition_t) : mysql_binary_data -> bytes -> Prop :=
| enc_null : col_type c = MYSQL_FIELD_TYPE_NULL -> value_enc c MYSQL_BINARY_VALUE_NULL []
| enc_uint w z : int_width (col_type c) = Some w -> is_unsigned c = true ->
    0 <= z < 2 ^ (8 * Z.of_nat w) -> value_enc c (MYSQL_BINARY_VALUE_UINT64 z) (le_bytes w z)
| enc_sint w z : int_width (col_type c) = Some w -> is_unsigned c = false ->
    - 2 ^ (8 * Z.of_nat w - 1) <= z < 2 ^ (8 * Z.of_nat w - 1) ->
    value_enc c (MYSQL_BINARY_VALUE_SINT64 z) (le_bytes w z)
| enc_float raw : col_type c = MYSQL_FIELD_TYPE_FLOAT -> 0 <= raw < 2 ^ 32 ->
    value_enc c (MYSQL_BINARY_VALUE_DOUBLE (float_to_double raw)) (le_bytes 4 raw)
| enc_double bits : col_type c = MYSQL_FIELD_TYPE_DOUBLE -> 0 <= bits < 2 ^ 64 ->
    value_enc c (MYSQL_BINARY_VALUE_DOUBLE bits) (le_bytes 8 bits)
| enc_text l : is_bytes_type (col_type c) = true -> bytes_ok l ->
    value_enc c (MYSQL_BINARY_VALUE_BYTES (wire_bytes_of l)) (lenenc_bytes_enc l)
| enc_datetime date_only v : date_type (col_type c) = Some date_only -> datetime_ok date_only v ->
    value_enc c (MYSQL_BINARY_VALUE_DATETIME v) (datetime_bytes v)
| enc_time v : col_type c = MYSQL_FIELD_TYPE_TIME -> time_ok v ->
    value_enc c (MYSQL_BINARY_VALUE_TIME v) (time_bytes v).

Lemma le_bytes_mod n z : le_bytes n (z mod 2 ^ (8 * Z.of_nat n)) = le_bytes n z.
Proof.
  rewrite <- le_val_bytes. rewrite <- (length_le_bytes n z) at 1. apply le_bytes_val, le_bytes_ok.
Qed.

(** ** Decoding what was encoded *)

Section RowParses.
Context (p : bytes) (Hp : buf_ok p (len p)).

Lemma parses_checked_byte {T} (o : T) b l : parses p (checked_byte p (len p)) o (b :: l) b o l.
Proof.
  apply parses_len. intros Hl. unfold checked_byte. eapply parses_bind; [apply parses_offset|].
  eapply parses_bind; [apply parses_fail_if|apply parses_next_byte].
  cbn [length] in *. apply Z.leb_gt. lia.
Qed.

Lemma parses_need_bytes {T} (o : T) n l : 0 <= n <= len l -> parses p (need_bytes (len p) n) o l tt o l.
Proof.
  intros Hn. apply parses_len. intros Hl. pose proof Hp as [_ Hm _].
  unfold need_bytes. eapply parses_bind; [apply parses_offset|].
  apply parses_fail_if. rewrite size_sub_small by lia. apply orb_false_iff. split; apply Z.ltb_ge; lia.
Qed.

Lemma parses_rd_u8 {T} (o : T) v l : 0 <= v < 256 -> parses p (checked_byte p (len p)) o (le_bytes 1 v ++ l) v o l.
Proof.
  intros Hv. change (le_bytes 1 v ++ l) with (v mod 256 :: l). rewrite Z.mod_small by lia.
  apply parses_checked_byte.
Qed.

Lemma parses_integer {T} (o : T) c w z l d :
  int_width (col_type c) = Some w ->
  (is_unsigned c = true /\ 0 <= z < 2 ^ (8 * Z.of_nat w) /\ d = MYSQL_BINARY_VALUE_UINT64 z \/
   is_unsigned c = false /\ - 2 ^ (8 * Z.of_nat w - 1) <= z < 2 ^ (8 * Z.of_nat w - 1) /\
     d = MYSQL_BINARY_VALUE_SINT64 z) ->
  parses p (mysql_row_decode_integer p (len p) c (Z.of_nat w)) o (le_bytes w z ++ l) d o l.
Proof.
  intros Hw Hz. rewrite <- le_bytes_mod. set (raw := z mod 2 ^ (8 * Z.of_nat w)).
  assert (0 <= raw < 2 ^ (8 * Z.of_nat w)) as Hraw by (apply Z.mod_pos_bound; lia).
  assert (1 <= Z.of_nat w <= 8) as Hwr.
  { unfold int_width in Hw. repeat case_match; simplify_eq; lia. }
  unfold mysql_row_decode_integer. eapply parses_bind with (a := raw).
  - unfold int_width in Hw.
    repeat case_match; try discriminate; simplify_eq; try done.
    all: first [by apply parses_rd_u8|by apply parses_u16|by apply parses_u32|by apply parses_u64].
  - fold (is_unsigned c). destruct Hz as [(-> & Hz & ->)|(-> & Hz & ->)].
    + subst raw. rewrite Z.mod_small by done. apply parses_ret.
    + subst raw. rewrite (Z.mul_comm (Z.of_nat w) 8), sign_extend_mod by lia. apply parses_ret.
Qed.

Lemma dt_len_cases date_only v :
  datetime_ok date_only v ->
  dt_wire_length v = 0 \/ dt_wire_length v = 4 \/
  date_only = false /\ (dt_wire_length v = 7 \/ dt_wire_length v = 11).
Proof.
  intros [Hlen _ _ _ _ _]. destruct date_only;
    repeat (apply elem_of_cons in Hlen as [->|Hlen]; [tauto|]); by apply not_elem_of_nil in Hlen.
Qed.

Lemma parses_datetime {T} (o : T) date_only v l :
  datetime_ok date_only v ->
  parses p (mysql_row_decode_datetime p (len p) date_only) o (datetime_bytes v ++ l)
    (MYSQL_BINARY_VALUE_DATETIME v) o l.
Proof.
  intros Hv. pose proof (dt_len_cases _ _ Hv) as Hlen.
  destruct v as [y mo d h mi se us wl]. destruct Hv as [_ Hdate Hclock Ha Hb Hc].
  cbn [dt_wire_length dt_year dt_month dt_day dt_hour dt_minute dt_second dt_microsecond] in *.
  unfold mysql_row_decode_datetime, datetime_bytes.
  cbn [dt_wire_length dt_year dt_month dt_day dt_hour dt_minute dt_second dt_microsecond app].
  eapply parses_bind; [apply parses_checked_byte|]. destruct (Z.eqb_spec wl 0) as [->|Hwl].
  { specialize (Ha eq_refl). destruct Ha as (-> & -> & ->).
    destruct Hb as (-> & -> & ->); [lia|]. rewrite Hc by lia. apply parses_ret. }
  eapply parses_bind; [apply parses_fail_if|].
  { by destruct Hlen as [->|[->|[-> [->| ->]]]]; [|destruct date_only|..]. }
  rewrite <- !app_assoc. eapply parses_bind; [apply parses_u16; [done|lia]|].
  eapply parses_bind; [apply parses_need_bytes; cbn [app length]; lia|]. cbn [app].
  eapply parses_bind; [apply parses_next_byte|]. eapply parses_bind; [apply parses_next_byte|].
  eapply parses_bind with (a := (h, mi, se)).
  { destruct (Z.leb_spec 7 wl).
    - eapply parses_bind; [apply parses_need_bytes; cbn [app length]; lia|]. cbn [app].
      do 3 (eapply parses_bind; [apply parses_next_byte|]). apply parses_ret.
    - destruct Hb as (-> & -> & ->); [lia|]. apply parses_ret. }
  eapply parses_bind with (a := us).
  { destruct (Z.eqb_spec wl 11).
    - apply parses_u32; [done|lia].
    - rewrite Hc by lia. apply parses_ret. }
  eapply parses_bind; [apply parses_fail_if|apply parses_ret].
  apply negb_false_iff. unfold mysql_row_valid_datetime.
  cbn [dt_month dt_day dt_microsecond dt_hour dt_minute dt_second].
  case_match eqn:E; [bsimp; lia|]. clear E. destruct date_only.
  - assert (wl = 4) as -> by (destruct Hlen as [?|[?|[? _]]]; done).
    destruct Hb as (-> & -> & ->); [lia|]. by rewrite Hc by lia.
  - rewrite !andb_true_iff, !Z.leb_le. lia.
Qed.

Lemma parses_time {T} (o : T) v l :
  time_ok v ->
  parses p (mysql_row_decode_time p (len p)) o (time_bytes v ++ l) (MYSQL_BINARY_VALUE_TIME v) o l.
Proof.
  intros Hv. destruct v as [ng d h mi se us wl]. destruct Hv as [Hlen Hf Ha Hc].
  cbn [tm_wire_length tm_negative tm_days tm_hour tm_minute tm_second tm_microsecond] in *.
  unfold mysql_row_decode_time, time_bytes.
  cbn [tm_wire_length tm_negative tm_days tm_hour tm_minute tm_second tm_microsecond app].
  eapply parses_bind; [apply parses_checked_byte|]. destruct (Z.eqb_spec wl 0) as [->|Hwl].
  { destruct Ha as (-> & -> & -> & -> & ->); [done|]. rewrite Hc by lia. apply parses_ret. }
  assert (wl = 8 \/ wl = 12) as Hwl2.
  { repeat (apply elem_of_cons in Hlen as [->|Hlen]; [tauto|]); by apply not_elem_of_nil in Hlen. }
  eapply parses_bind; [apply parses_fail_if; by destruct Hwl2 as [-> | ->]|]. cbn [app].
  rewrite <- !app_assoc. set (sign := if ng then 1 else 0).
  apply parses_len. intros Hl. cbn [length] in Hl.
  eapply parses_bind; [apply parses_offset|].
  eapply parses_bind; [apply parses_fail_if; cbn [length]; apply Z.leb_gt; lia|].
  eapply parses_bind; [apply parses_access_ld|].
  eapply parses_bind; [apply parses_fail_if; by destruct ng|].
  eapply parses_bind; [by apply (parses_skip p 1 o [sign])|].
  eapply parses_bind; [apply parses_u32; [done|lia]|].
  eapply parses_bind; [apply parses_need_bytes; cbn [app length]; lia|]. cbn [app].
  do 3 (eapply parses_bind; [apply parses_next_byte|]).
  eapply parses_bind with (a := us).
  { destruct (Z.eqb_spec wl 12).
    - apply parses_u32; [done|lia].
    - rewrite Hc by lia. apply parses_ret. }
  eapply parses_bind; [apply parses_fail_if; rewrite !orb_false_iff, !Z.ltb_ge; lia|].
  subst sign. destruct ng; apply parses_ret.
Qed.

(** The type test that holds decides every test on the type. *)
Ltac type_cases H :=
  repeat match type of H with
  | (if ?b then _ else _) = _ =>
      let E := fresh "E" in
      destruct b eqn:E;
      [ rewrite ?orb_true_iff, ?Z.eqb_eq in E; injection H as <-;
        repeat (destruct E as [E|E]; [by rewrite E|]); by rewrite E | ]
  end; discriminate H.

Lemma decode_value_int {T} (s : dec T) size c w :
  int_width (col_type c) = Some w ->
  mysql_row_decode_value p size c s = mysql_row_decode_integer p size c (Z.of_nat w) s.
Proof.
  intros Hw. unfold mysql_row_decode_value, int_width in *. type_cases Hw.
Qed.

Lemma decode_value_bytes {T} (s : dec T) size c :
  is_bytes_type (col_type c) = true ->
  mysql_row_decode_value p size c s = mysql_row_decode_bytes p size s.
Proof.
  unfold mysql_row_decode_value, is_bytes_type. intros (t & Ht & <-%Z.eqb_eq)%existsb_exists.
  cbn [In] in Ht. by repeat destruct Ht as [<-|Ht].
Qed.

Lemma decode_value_date {T} (s : dec T) size c date_only :
  date_type (col_type c) = Some date_only ->
  mysql_row_decode_value p size c s = mysql_row_decode_datetime p size date_only s.
Proof.
  intros Ht. unfold mysql_row_decode_value, date_type in *. type_cases Ht.
Qed.

Lemma parses_ext {E T A} (m m' : M E (dec T) A) o l a o' l' :
  (forall s, m s = m' s) -> parses p m' o l a o' l' -> parses p m o l a o' l'.
Proof. intros He Hm off. rewrite He. apply Hm. Qed.

Lemma parses_value {T} (o : T) c d enc l :
  value_enc c d enc -> parses p (mysql_row_decode_value p (len p) c) o (enc ++ l) d o l.
Proof.
  intros [Ht|w z Hw Hu Hz|w z Hw Hu Hz|raw Ht Hr|bits Ht Hr|a Ht Ha|d0 v Ht Hv|v Ht Hv].
  - unfold mysql_row_decode_value. rewrite Ht. apply parses_ret.
  - eapply parses_ext; [intros s; by apply decode_value_int|]. apply parses_integer; tauto.
  - eapply parses_ext; [intros s; by apply decode_value_int|]. apply parses_integer; tauto.
  - unfold mysql_row_decode_value. rewrite Ht. eapply parses_bind; [by apply parses_u32|apply parses_ret].
  - unfold mysql_row_decode_value. rewrite Ht. eapply parses_bind; [by apply parses_u64|apply parses_ret].
  - eapply parses_ext; [intros s; by apply decode_value_bytes|].
    eapply parses_bind; [by apply parses_lenenc_bytes|].
    eapply parses_bind; [by apply parses_fail_if|apply parses_ret].
  - eapply parses_ext; [intros s; by apply decode_value_date|]. by apply parses_datetime.
  - unfold mysql_row_decode_value. rewrite Ht. by apply parses_time.
Qed.
End RowParses.

(** ** Safety: a decoded value is one the column can hold *)

Definition truncated (e : mysql_wire_status_t) : Prop := e = NEED_MORE \/ e = INVALID.

Lemma truncated_need_more : truncated NEED_MORE.
Proof. by left. Qed.
Lemma truncated_invalid : truncated INVALID.
Proof. by right. Qed.
#[export] Hint Resolve truncated_need_more truncated_invalid : wp.

Section RowSafe.
Context (p : bytes) (size : Z) (Hp : buf_ok p size) {T : Type}.
Implicit Types (o : T) (off : Z).

Lemma wp_checked_byte (Q : Z -> dec T -> Prop) (R : mysql_wire_status_t -> dec T -> Prop) off o :
  0 <= off ->
  (forall b, 0 <= b < 256 -> off + 1 <= size -> Q b (Dec (off + 1) o)) ->
  R NEED_MORE (Dec off o) -> wp (checked_byte p size) Q R (Dec off o).
Proof.
  intros Ho HQ HR. unfold checked_byte. repeat dec_step; [done|].
  bsimp. apply (wp_next_byte p size Hp); [lia|]. intros b Hb. apply HQ; [done|lia].
Qed.

Lemma wp_need_bytes n (Q : unit -> dec T -> Prop) (R : mysql_wire_status_t -> dec T -> Prop) off o :
  0 <= off ->
  (off + n <= size -> Q tt (Dec off o)) -> R NEED_MORE (Dec off o) -> wp (need_bytes size n) Q R (Dec off o).
Proof.
  intros Ho HQ HR. pose proof Hp as [Hs Hm _]. unfold need_bytes. repeat dec_step; [done|].
  bsimp. rewrite size_sub_small in * by lia. apply HQ. lia.
Qed.

Lemma wp_next_byte' (Q : Z -> dec T -> Prop) (R : mysql_wire_status_t -> dec T -> Prop) off o :
  0 <= off < size -> (forall b, 0 <= b < 256 -> Q b (Dec (off + 1) o)) -> wp (next_byte p) Q R (Dec off o).
Proof. apply (wp_next_byte p size Hp). Qed.

(** The result of a value decoder started at [off]. *)
Definition value_post c off (d : mysql_binary_data) (s : dec T) : Prop :=
  off <= d_off s <= size /\ exists l, value_enc c d l.

Lemma wp_integer c w off o :
  int_width (col_type c) = Some w -> 0 <= off ->
  wp (mysql_row_decode_integer p size c (Z.of_nat w))
    (fun d s => value_post c off d s /\ d_out s = o) (fun e s => truncated e /\ d_out s = o) (Dec off o).
Proof.
  intros Hw Ho. unfold mysql_row_decode_integer. pose proof Hp as [_ _ Hb].
  assert (1 <= Z.of_nat w <= 8) as Hwr.
  { unfold int_width in Hw. repeat case_match; simplify_eq; lia. }
  assert (forall raw off', 0 <= raw < 2 ^ (8 * Z.of_nat w) -> off <= off' <= size ->
    wp (mret (if negb (Z.land (col_flags c) MYSQL_COLUMN_FLAG_UNSIGNED =? 0)
        then MYSQL_BINARY_VALUE_UINT64 raw
        else MYSQL_BINARY_VALUE_SINT64 (mysql_row_sign_extend raw (Z.of_nat w * 8))))
      (fun d s => value_post c off d s /\ d_out s = o)
      (fun e s => truncated e /\ d_out s = o) (Dec off' o)) as Hret.
  { intros raw off' Hraw Ho'. apply wp_ret. split; [|done]. split; [done|]. fold (is_unsigned c).
    rewrite (Z.mul_comm (Z.of_nat w) 8).
    destruct (is_unsigned c) eqn:Hu; eexists.
    - by eapply enc_uint.
    - eapply enc_sint; [done..|]. apply sign_extend_range; lia. }
  assert (forall n, n = w -> 0 <= le_at p off n < 2 ^ (8 * Z.of_nat w)) as Hle.
  { intros n ->. by apply le_at_range. }
  unfold int_width in Hw. repeat case_match; simplify_eq; try done; apply wp_bind.
  all: first
    [ apply wp_checked_byte; [done|intros; apply Hret; [done|lia]|by split; [left|]]
    | apply wp_rd_u16; [done..|intros; apply Hret; [by apply Hle|lia]|by split; [left|]]
    | apply wp_rd_u32; [done..|intros; apply Hret; [by apply Hle|lia]|by split; [left|]]
    | apply wp_rd_u64; [done..|intros; apply Hret; [by apply Hle|lia]|by split; [left|]] ].
Qed.

Lemma wp_datetime c date_only off o :
  date_type (col_type c) = Some date_only -> 0 <= off ->
  wp (mysql_row_decode_datetime p size date_only)
    (fun d s => value_post c off d s /\ d_out s = o) (fun e s => truncated e /\ d_out s = o) (Dec off o).
Proof.
  intros Ht Ho. unfold mysql_row_decode_datetime. pose proof Hp as [_ _ Hb]. dec_step.
  apply wp_checked_byte; [done| |by split; [left|]]. intros wl Hwl Hl. wp_step; bsimp.
  { wp_step. split; [|done]. split; [cbn; lia|]. eexists. eapply enc_datetime; [done|]. subst wl.
    split; cbn; try lia. destruct date_only; apply elem_of_cons; by left. }
  dec_step. apply wp_fail_if; [by split; [right|]|intros Hlen].
  assert (wl = 4 \/ date_only = false /\ (wl = 7 \/ wl = 11)) as Hcase.
  { destruct date_only; rewrite ?andb_false_iff, ?negb_false_iff, ?Z.eqb_eq in Hlen; tauto. }
  clear Hlen. dec_step. apply wp_rd_u16; [done|lia| |by split; [left|]]. intros Hy.
  pose proof (le_at_range p (off + 1) 2 Hb) as Hyear.
  dec_step. apply wp_need_bytes; [lia| |by split; [left|]]. intros Hmd.
  dec_step. apply wp_next_byte'; [lia|]. intros month Hmonth.
  dec_step. apply wp_next_byte'; [lia|]. intros day Hday. dec_step.
  apply wp_mono with (R := fun e s => truncated e /\ d_out s = o)
    (Q := fun '(h, m, sec) s => off <= d_off s <= size /\ d_out s = o /\
       0 <= h < 256 /\ 0 <= m < 256 /\ 0 <= sec < 256 /\ (wl < 7 -> h = 0 /\ m = 0 /\ sec = 0)); [| |done].
  { wp_step; bsimp; [|wp_step; cbn; split_and!; done || lia].
    dec_step. apply wp_need_bytes; [lia| |by split; [left|]]. intros Hc3.
    dec_step. apply wp_next_byte'; [lia|]. intros h Hh.
    dec_step. apply wp_next_byte'; [lia|]. intros m Hm'.
    dec_step. apply wp_next_byte'; [lia|]. intros sec Hsec. wp_step. cbn. split_and!; done || lia. }
  intros [[h m] sec] [off2 o2] (Ho2 & Heq & Hh & Hm' & Hsec & Hclock).
  cbn [d_off d_out] in *. subst o2. dec_step.
  apply wp_mono with (R := fun e s => truncated e /\ d_out s = o)
    (Q := fun us s => off <= d_off s <= size /\ d_out s = o /\ 0 <= us /\ (wl < 11 -> us = 0)); [| |done].
  { wp_step; bsimp; [|wp_step; cbn; split_and!; done || lia].
    apply wp_rd_u32; [done|lia| |by split; [left|]]. intros.
    pose proof (le_at_range p off2 4 Hb). cbn. split_and!; done || lia. }
  intros us [off3 o3] (Ho3 & Heq & Hus & Hus0). cbn [d_off d_out] in *. subst o3. dec_step.
  apply wp_fail_if; [by split; [right|]|]. intros Hvalid%negb_false_iff. dec_step. split; [|done].
  split; [done|]. eexists. eapply enc_datetime; [done|].
  unfold mysql_row_valid_datetime in Hvalid. cbn [dt_month dt_day dt_microsecond dt_hour dt_minute dt_second] in Hvalid.
  split; cbn.
  { apply list_elem_of_In. destruct Hcase as [->|[-> [->| ->]]]; [destruct date_only|..]; cbn; tauto. }
  all: destruct date_only; repeat case_match; bsimp; done || lia.
Qed.

Lemma wp_time c off o :
  col_type c = MYSQL_FIELD_TYPE_TIME -> 0 <= off ->
  wp (mysql_row_decode_time p size)
    (fun d s => value_post c off d s /\ d_out s = o) (fun e s => truncated e /\ d_out s = o) (Dec off o).
Proof.
  intros Ht Ho. unfold mysql_row_decode_time. pose proof Hp as [_ _ Hb]. dec_step.
  apply wp_checked_byte; [done| |by split; [left|]]. intros wl Hwl Hl. wp_step; bsimp.
  { wp_step. split; [|done]. split; [cbn; lia|]. eexists. eapply enc_time; [done|]. subst wl.
    split; cbn; try lia. apply elem_of_cons; by left. }
  dec_step. apply wp_fail_if; [by split; [right|]|intros Hlen].
  assert (wl = 8 \/ wl = 12) as Hcase.
  { rewrite ?andb_false_iff, ?negb_false_iff, ?Z.eqb_eq in Hlen; tauto. }
  clear Hlen. dec_step. dec_step. dec_step. apply wp_fail_if; [by split; [left|]|intros Hsz%Z.leb_gt].
  dec_step. apply wp_access; [apply ld_is_Some; destruct Hp; lia|]. intros sign Hsign.
  dec_step. apply wp_fail_if; [by split; [right|]|intros Hs1]. dec_step. dec_step.
  dec_step. apply wp_rd_u32; [done|lia| |by split; [left|]]. intros Hd.
  pose proof (le_at_range p (off + 1 + 1) 4 Hb) as Hdays.
  dec_step. apply wp_need_bytes; [lia| |by split; [left|]]. intros Hc3.
  dec_step. apply wp_next_byte'; [lia|]. intros h Hh.
  dec_step. apply wp_next_byte'; [lia|]. intros m Hm'.
  dec_step. apply wp_next_byte'; [lia|]. intros sec Hsec. dec_step.
  apply wp_mono with (R := fun e s => truncated e /\ d_out s = o)
    (Q := fun us s => off <= d_off s <= size /\ d_out s = o /\ 0 <= us /\ (wl < 12 -> us = 0)); [| |done].
  { wp_step; bsimp; [|wp_step; cbn; split_and!; done || lia].
    apply wp_rd_u32; [done|lia| |by split; [left|]]. intros.
    match goal with |- context [le_at p ?x 4] => pose proof (le_at_range p x 4 Hb) end.
    cbn. split_and!; done || lia. }
  intros us [off3 o3] (Ho3 & Heq & Hus & Hus0). cbn [d_off d_out] in *. subst o3. dec_step.
  apply wp_fail_if; [by split; [right|]|]. intros Hvalid. bsimp. dec_step. split; [|done].
  split; [done|]. eexists. eapply enc_time; [done|]. split; cbn; try (by lia).
  apply list_elem_of_In. cbn. lia.
Qed.

Lemma wp_decode_value c off o :
  0 <= off <= size ->
  wp (mysql_row_decode_value p size c)
    (fun d s => value_post c off d s /\ d_out s = o) (fun e s => truncated e /\ d_out s = o) (Dec off o).
Proof.
  intros Ho.
  assert (forall m, (forall s, mysql_row_decode_value p size c s = m s) ->
    wp m (fun d s => value_post c off d s /\ d_out s = o) (fun e s => truncated e /\ d_out s = o) (Dec off o) ->
    wp (mysql_row_decode_value p size c)
    (fun d s => value_post c off d s /\ d_out s = o) (fun e s => truncated e /\ d_out s = o) (Dec off o)) as Hext.
  { intros m Hm. unfold wp. by rewrite Hm. }
  destruct (int_width (col_type c)) as [w|] eqn:Hw.
  { eapply Hext; [intros s; by apply decode_value_int|]. apply wp_integer; [done|lia]. }
  destruct (date_type (col_type c)) as [d|] eqn:Hd.
  { eapply Hext; [intros s; by apply decode_value_date|]. apply wp_datetime; [done|lia]. }
  destruct (is_bytes_type (col_type c)) eqn:Hby.
  { apply (Hext (mysql_row_decode_bytes p size)); [intros s; by apply decode_value_bytes|]. unfold mysql_row_decode_bytes. dec_step.
    apply wp_rd_lenenc_bytes; [done|lia| |by intros e He].
    intros v off' Ho' Hv. dec_step. apply wp_fail_if; [by split; [right|]|intros Hn]. dec_step.
    split; [|done]. split; [cbn; lia|]. destruct Hv as [->|(l & -> & Hl)]; [done|].
    eexists. by apply enc_text. }
  unfold mysql_row_decode_value, int_width, date_type in *. rewrite Hby.
  repeat case_match; try done; bsimp; try (by wp_step; split; [right|]).
  - wp_step. split; [|done]. split; [cbn; lia|]. eexists. by apply enc_null.
  - unfold mysql_row_decode_float. dec_step. apply wp_rd_u32; [done|lia| |by split; [left|]]. intros.
    dec_step. split; [|done]. split; [cbn; lia|]. eexists. apply enc_float; [done|].
    apply (le_at_range p off 4). apply Hp.
  - unfold mysql_row_decode_double. dec_step. apply wp_rd_u64; [done|lia| |by split; [left|]]. intros.
    dec_step. split; [|done]. split; [cbn; lia|]. eexists. apply enc_double; [done|].
    apply (le_at_range p off 8). apply Hp.
  - apply wp_time; [done|lia].
Qed.
End RowSafe.

(** ** NULL bitmaps *)

(** The byte whose bit [j] is [f j]. *)
Definition byte_of_bits (f : Z -> bool) : Z :=
  foldr (fun j b => Z.lor (if f j then 2 ^ j else 0) b) 0 (seqZ 0 8).

(** Bit [k + shift] of the bitmap is set for the NULLs of a list. *)
Definition null_at (nulls : list bool) (k : Z) : bool :=
  if k <? 0 then false else default false (nulls !! Z.to_nat k).

Definition bitmap_size (shift : Z) (nulls : list bool) : Z := (len nulls + shift + 7) / 8.

Definition bitmap (shift : Z) (nulls : list bool) : bytes :=
  map (fun k => byte_of_bits (fun j => null_at nulls (8 * k + j - shift)))
    (seqZ 0 (bitmap_size shift nulls)).

Lemma byte_of_bits_test f j : 0 <= j < 8 -> Z.testbit (byte_of_bits f) j = f j.
Proof.
  intros Hj. unfold byte_of_bits. change (seqZ 0 8) with [0; 1; 2; 3; 4; 5; 6; 7]. cbn [foldr].
  rewrite !Z.lor_spec, Z.bits_0, orb_false_r.
  assert (forall k, 0 <= k -> Z.testbit (if f k then 2 ^ k else 0) j = f k && (k =? j)) as Hk.
  { intros k Hk. destruct (f k); [by rewrite Z.pow2_bits_eqb|by rewrite Z.bits_0]. }
  rewrite !Hk by lia.
  assert (j = 0 \/ j = 1 \/ j = 2 \/ j = 3 \/ j = 4 \/ j = 5 \/ j = 6 \/ j = 7) as Hcase by lia.
  repeat destruct Hcase as [-> | Hcase]; [..|subst j]; cbn;
    rewrite ?andb_true_r, ?andb_false_r, ?orb_false_r; done.
Qed.

Lemma byte_of_bits_range f : 0 <= byte_of_bits f < 256.
Proof.
  unfold byte_of_bits. change (seqZ 0 8) with [0; 1; 2; 3; 4; 5; 6; 7]. cbn [foldr].
  destruct (f 0), (f 1), (f 2), (f 3), (f 4), (f 5), (f 6), (f 7); vm_compute; split; congruence.
Qed.

Lemma byte_of_bits_ext f g : (forall j, 0 <= j < 8 -> f j = g j) -> byte_of_bits f = byte_of_bits g.
Proof.
  intros H. unfold byte_of_bits. change (seqZ 0 8) with [0; 1; 2; 3; 4; 5; 6; 7]. cbn [foldr].
  by rewrite !H by lia.
Qed.

Lemma bitmap_length shift nulls : 0 <= shift -> len (bitmap shift nulls) = bitmap_size shift nulls.
Proof.
  intros. unfold bitmap. rewrite length_map, length_seqZ. rewrite Z2Nat.id; [done|].
  apply Z.div_pos; lia.
Qed.

Lemma bitmap_bytes shift nulls : bytes_ok (bitmap shift nulls).
Proof. apply List.Forall_forall. intros b (k & <- & _)%in_map_iff. apply byte_of_bits_range. Qed.

Lemma bitmap_lookup shift nulls k :
  0 <= k < bitmap_size shift nulls ->
  bitmap shift nulls !! Z.to_nat k = Some (byte_of_bits (fun j => null_at nulls (8 * k + j - shift))).
Proof.
  intros Hk. unfold bitmap. rewrite list_lookup_fmap, lookup_seqZ_lt by lia. cbn.
  by rewrite Z2Nat.id, Z.add_0_l by lia.
Qed.

(** The test on one bit of a byte, as the code writes it. *)
Lemma bit_test b k :
  0 <= k < 8 -> negb (Z.land b (u8 (Z.shiftl 1 k)) =? 0) = Z.testbit b k.
Proof.
  intros Hk. rewrite Z.shiftl_1_l, u8_small.
  - rewrite land_pow2 by lia. pose proof (Z.pow_pos_nonneg 2 k ltac:(lia) ltac:(lia)).
    destruct (Z.testbit b k); [|done]. apply negb_true_iff, Z.eqb_neq. lia.
  - split; [apply Z.pow_nonneg; lia|]. apply Z.pow_lt_mono_r; lia.
Qed.

(** Bit [k + shift] of a payload that starts with [pre] and the bitmap. *)
Lemma bitmap_bit pre shift nulls l k :
  0 <= shift -> 0 <= k < len nulls ->
  exists b, ld (pre ++ bitmap shift nulls ++ l) (len pre + (k + shift) / 8) = Some b /\
    negb (Z.land b (u8 (Z.shiftl 1 ((k + shift) mod 8))) =? 0) = default false (nulls !! Z.to_nat k).
Proof.
  intros Hs Hk.
  pose proof (Z.div_mod (k + shift) 8 ltac:(lia)) as Hdm. pose proof (Z.mod_pos_bound (k + shift) 8 ltac:(lia)).
  assert (0 <= (k + shift) / 8 < bitmap_size shift nulls) as Hr.
  { unfold bitmap_size. split; [apply Z.div_pos; lia|]. apply Z.div_lt_upper_bound; [lia|].
    pose proof (Z.div_mod (len nulls + shift + 7) 8 ltac:(lia)).
    pose proof (Z.mod_pos_bound (len nulls + shift + 7) 8 ltac:(lia)). lia. }
  eexists. split.
  - unfold ld. case_match; [blia|]. rewrite lookup_app_r by lia. rewrite lookup_app_l.
    + replace (Z.to_nat (len pre + (k + shift) / 8) - length pre)%nat with (Z.to_nat ((k + shift) / 8)) by lia.
      by apply bitmap_lookup.
    + pose proof (bitmap_length shift nulls Hs). lia.
  - rewrite bit_test by done. rewrite byte_of_bits_test by done. unfold null_at.
    replace (8 * ((k + shift) / 8) + (k + shift) mod 8 - shift) with k by lia.
    case_match; [blia|done].
Qed.

(** ** The loop over the columns *)

Lemma set_at_middle {A} (pre : list A) v0 v tail i :
  i = len pre -> set_at (pre ++ v0 :: tail) i v = Some (pre ++ v :: tail).
Proof.
  intros ->. rewrite set_at_Some by (rewrite length_app; cbn [length]; lia).
  rewrite Nat2Z.id. by rewrite insert_app_r_alt, Nat.sub_diag by lia.
Qed.

(** Bit of column [i] in the bitmap of a row packet. *)
Definition null_bit (p : bytes) (i : Z) : bool :=
  negb (Z.land (default 0 (ld p (1 + (i + 2) / 8))) (u8 (Z.shiftl 1 ((i + 2) mod 8))) =? 0).

Definition row_value (p : bytes) (i : Z) (c : mysql_column_definition_t) (v : mysql_binary_value_t) : Prop :=
  bv_mysql_type v = col_type c /\
  if null_bit p i then bv_data v = MYSQL_BINARY_VALUE_NULL else exists l, value_enc c (bv_data v) l.

(** The values of the columns from [i] on. *)
Fixpoint row_values (p : bytes) (i : Z) (cs : list mysql_column_definition_t)
    (vs : list mysql_binary_value_t) : Prop :=
  match cs, vs with
  | [], [] => True
  | c :: cs, v :: vs => row_value p i c v /\ row_values p (i + 1) cs vs
  | _, _ => False
  end.

Lemma row_values_length p cs : forall i vs, row_values p i cs vs -> length vs = length cs.
Proof.
  induction cs as [|c cs IH]; intros i [|v vs]; cbn; try done. intros [_ H]. f_equal. by eapply IH.
Qed.

Lemma wp_binary_columns p size cs : forall i off pre old tail,
  buf_ok p size -> 0 <= off <= size -> i = len pre -> length old = length cs ->
  1 + (i + len cs + 9) / 8 <= size ->
  wp (binary_columns p size i cs)
    (fun _ s => 0 <= d_off s <= size /\ exists new, d_out s = pre ++ new ++ tail /\ row_values p i cs new)
    (fun e s => truncated e /\ exists new, d_out s = pre ++ new ++ tail /\ length new = length cs)
    (Dec off (pre ++ old ++ tail)).
Proof.
  induction cs as [|c cs IH]; intros i off pre old tail Hp Ho Hi Hold Hbm; cbn [binary_columns].
  { destruct old; [|done]. apply wp_ret. cbn. split; [done|]. by exists []. }
  destruct old as [|v0 old]; [done|]. injection Hold as Hold. cbn [length] in Hbm.
  assert (0 <= 1 + (i + 2) / 8 < size) as Hbit.
  { pose proof (Z.div_pos (i + 2) 8 ltac:(lia) ltac:(lia)). split; [lia|].
    pose proof (Z.div_le_mono (i + 2 + 8) (i + Z.of_nat (S (length cs)) + 9) 8 ltac:(lia) ltac:(lia)).
    rewrite <- (Z.mul_1_l 8), Z.div_add in H0 at 1 by lia. lia. }
  dec_step. apply wp_access; [apply ld_is_Some; destruct Hp; lia|]. intros b Hb.
  repeat dec_step. cbn [app]. rewrite set_at_middle by done. apply wp_access; [eauto|]. intros ? [= <-].
  repeat dec_step.
  assert (forall v (off' : Z), 0 <= off' <= size -> row_value p i c v ->
    wp (binary_columns p size (i + 1) cs)
      (fun _ s => 0 <= d_off s <= size /\ exists new, d_out s = pre ++ new ++ tail /\ row_values p i (c :: cs) new)
      (fun e s => truncated e /\ exists new, d_out s = pre ++ new ++ tail /\ length new = S (length cs))
      (Dec off' (pre ++ v :: old ++ tail))) as Hnext.
  { intros v off' Ho' Hv. change (v :: old ++ tail) with ([v] ++ old ++ tail). rewrite app_assoc.
    eapply wp_mono; [apply (IH (i + 1) off' (pre ++ [v]) old tail)|..]; try done.
    - rewrite length_app. cbn [length]. lia.
    - replace (i + 1 + len cs) with (i + Z.of_nat (S (length cs))) by lia. done.
    - intros _ s (H1 & new & -> & H2). split; [done|]. exists (v :: new). by rewrite <- app_assoc.
    - intros e s (H1 & new & -> & H2). split; [done|]. exists (v :: new). rewrite <- app_assoc. cbn. auto. }
  assert (null_bit p i = negb (Z.land b (u8 (Z.shiftl 1 ((i + 2) mod 8))) =? 0)) as Hnb.
  { unfold null_bit. by rewrite Hb. }
  wp_step.
  - wp_step. apply Hnext; [done|]. split; [done|]. by rewrite Hnb.
  - dec_step. eapply wp_mono; [by apply wp_decode_value|..].
    + intros d [off' o'] [(Ho' & l & Hl) Heq]. cbn [d_off d_out] in *. subst o'. repeat dec_step.
      rewrite set_at_middle by done. apply wp_access; [eauto|]. intros ? [= <-]. repeat dec_step.
      apply Hnext; [lia|]. split; [done|]. rewrite Hnb. eauto.
    + intros e [off' o'] [He Heq]. cbn [d_out] in *. subst o'. split; [done|].
      eexists (_ :: old). by split; [|cbn; rewrite Hold].
Qed.

(** ** A row as the protocol writes it *)

(** A cell: NULL, or a value with its encoding. *)
Definition cell := option (mysql_binary_data * bytes).
Definition cell_ok (c : mysql_column_definition_t) (x : cell) : Prop :=
  match x with None => True | Some (d, l) => value_enc c d l end.
Definition cell_null (x : cell) : bool := match x with None => true | Some _ => false end.
Definition cell_bytes (x : cell) : bytes := match x with None => [] | Some (_, l) => l end.
Definition cell_value (c : mysql_column_definition_t) (x : cell) : mysql_binary_value_t :=
  mk_binary_value (match x with None => MYSQL_BINARY_VALUE_NULL | Some (d, _) => d end) (col_type c).

Definition binary_row_enc (xs : list cell) : bytes :=
  [0] ++ bitmap 2 (map cell_null xs) ++ concat (map cell_bytes xs).

Lemma parses_binary_columns p cs : forall ys i vs rest,
  buf_ok p (len p) -> Forall2 cell_ok cs ys -> 0 <= i -> i + len ys <= len vs ->
  (forall k x, ys !! k = Some x -> exists b, ld p (1 + (i + Z.of_nat k + 2) / 8) = Some b /\
     negb (Z.land b (u8 (Z.shiftl 1 ((i + Z.of_nat k + 2) mod 8))) =? 0) = cell_null x) ->
  parses p (binary_columns p (len p) i cs) vs (concat (map cell_bytes ys) ++ rest) tt
    (put_at vs i (zip_with cell_value cs ys)) rest.
Proof.
  induction cs as [|c cs IH]; intros ys i vs rest Hp Hys Hi Hl Hbits.
  { apply Forall2_nil_inv_l in Hys as ->. cbn. unfold put_at. cbn. rewrite Nat.add_0_r, take_drop. apply parses_ret. }
  apply Forall2_cons_inv_l in Hys as (y & ys' & Hy & Hys & ->). cbn [binary_columns length map concat zip_with] in *.
  destruct (Hbits 0%nat y eq_refl) as (b & Hb & Hnull). rewrite Z.add_0_r in Hb, Hnull.
  eapply parses_bind; [by apply parses_access|].
  eapply parses_bind.
  { eapply parses_bind; [apply (parses_gets p (fun c => c))|].
    eapply parses_bind; [apply parses_access; apply set_at_Some; lia|]. apply parses_out_set. }
  rewrite Hnull, <- app_assoc.
  apply Forall2_length in Hys as Hlen.
  eapply parses_bind with (o1 := <[Z.to_nat i := cell_value c y]> vs) (l1 := concat (map cell_bytes ys') ++ rest).
  - destruct y as [[d l]|]; cbn [cell_null cell_bytes]; [|apply parses_ret].
    eapply parses_bind; [by apply parses_value|].
    eapply parses_bind; [apply (parses_gets p (fun c => c))|].
    eapply parses_bind; [apply parses_access; apply set_at_Some; rewrite length_insert; lia|].
    rewrite list_insert_insert_eq.
    apply (parses_out_set p (fun _ => <[Z.to_nat i := cell_value c (Some (d, l))]> vs)).
  - rewrite <- put_at_cons by (rewrite ?length_zip_with; lia). apply IH; rewrite ?length_insert; try done; try lia.
    intros k x Hk. destruct (Hbits (S k) x Hk) as (b' & Hb' & Hn').
    replace (i + Z.of_nat (S k) + 2) with (i + 1 + Z.of_nat k + 2) in * by lia. eauto.
Qed.

Lemma value_enc_bytes c d l : value_enc c d l -> bytes_ok l.
Proof.
  intros [| | | | |a _ Ha|d0 v Ht Hv|v Ht Hv]; try apply le_bytes_ok.
  - apply Forall_nil_2.
  - apply Forall_app_2; [apply lenenc_enc_ok; lia|done].
  - pose proof (dt_len_cases _ _ Hv) as Hl. destruct Hv as [_ Hd Hc _ _ _]. unfold datetime_bytes.
    apply Forall_cons_2; [lia|]. case_match; [apply Forall_nil_2|].
    repeat apply Forall_app_2; try apply le_bytes_ok; repeat case_match; try apply le_bytes_ok;
      repeat first [apply Forall_nil_2|apply Forall_cons_2; [lia|]].
  - destruct Hv as [Hl Hf _ _]. unfold time_bytes.
    apply Forall_cons_2.
    { repeat (apply elem_of_cons in Hl as [->|Hl]; [lia|]); by apply not_elem_of_nil in Hl. }
    case_match; [apply Forall_nil_2|]. apply Forall_cons_2; [by case_match|].
    repeat apply Forall_app_2; try apply le_bytes_ok; repeat case_match; try apply le_bytes_ok;
      repeat first [apply Forall_nil_2|apply Forall_cons_2; [lia|]].
Qed.

Lemma binary_row_enc_bytes cs xs : Forall2 cell_ok cs xs -> bytes_ok (binary_row_enc xs).
Proof.
  intros Hx. unfold binary_row_enc. apply Forall_app_2; [by apply Forall_cons_2; [lia|apply Forall_nil_2]|].
  apply Forall_app_2; [apply bitmap_bytes|].
  induction Hx as [|c x cs xs Hx _ IH]; cbn; [apply Forall_nil_2|]. apply Forall_app_2; [|done].
  destruct x as [[d l]|]; [by eapply value_enc_bytes|apply Forall_nil_2].
Qed.

Lemma decode_binary_row_enc cs xs vs capacity :
  Forall2 cell_ok cs xs -> len cs <= capacity -> len xs <= len vs -> len vs < 2 ^ 63 ->
  len (binary_row_enc xs) < 2 ^ 63 ->
  mysql_wire_decode_binary_row (Some (binary_row_enc xs)) (len (binary_row_enc xs)) (Some cs) (len cs)
    (Some vs) capacity = (Ret tt, Some (put_at vs 0 (zip_with cell_value cs xs))).
Proof.
  intros Hx Hcap Hvs Hvmax Hmax. pose proof (Forall2_length Hx) as Hlen.
  set (p := binary_row_enc xs) in *.
  assert (buf_ok p (len p)) as Hp by (split; [lia|done|by eapply binary_row_enc_bytes]).
  assert (len (bitmap 2 (map cell_null xs)) = (len cs + 9) / 8) as Hbm.
  { rewrite bitmap_length by lia. unfold bitmap_size. rewrite length_map. f_equal. lia. }
  assert (len p = 1 + (len cs + 9) / 8 + len (concat (map cell_bytes xs))) as Hpl.
  { unfold p, binary_row_enc. rewrite !length_app. cbn [length]. lia. }
  unfold mysql_wire_decode_binary_row.
  destruct (Z.ltb_spec capacity (len cs)); [lia|]. unfold SIZE_MAX.
  destruct (Z.ltb_spec (2 ^ 64 - 1 - 9) (len cs)); [lia|].
  destruct (Z.ltb_spec (len p) 1); [lia|]. change (ld p 0) with (Some 0). cbn iota. change (negb (0 =? 0)) with false.
  cbn iota. rewrite size_sub_small by lia. destruct (Z.ltb_spec (len p - 1) ((len cs + 9) / 8)); [lia|].
  change (default [] (Some cs)) with cs. change (default [] (Some vs)) with vs.
  rewrite Z.ltb_irrefl, Nat2Z.id, firstn_all.
  assert (parses p (binary_columns p (len p) 0 cs;; off ← offset; fail_if (negb (off =? len p)) INVALID) vs
    (concat (map cell_bytes xs) ++ []) tt (put_at vs 0 (zip_with cell_value cs xs)) []) as Hparse.
  { eapply parses_bind; [apply parses_binary_columns; try done|].
    - intros k x Hk. pose proof (lookup_lt_Some _ _ _ Hk) as Hkl.
      destruct (bitmap_bit [0] 2 (map cell_null xs) (concat (map cell_bytes xs)) (Z.of_nat k))
        as (b & Hb & Hn); [lia|rewrite length_map; lia|].
      exists b. rewrite Z.add_0_l. split; [done|]. rewrite Hn, Nat2Z.id, list_lookup_fmap, Hk. done.
    - eapply parses_bind; [apply parses_offset|]. apply parses_fail_if.
      cbn [length]. rewrite Z.sub_0_r, Z.eqb_refl. done. }
  destruct (Hparse (1 + (len cs + 9) / 8)) as (off' & Heq & _).
  { rewrite app_nil_r. rewrite <- Hbm. change 1 with (len [0]). unfold p, binary_row_enc. rewrite app_assoc.
    rewrite <- Nat2Z.inj_add, <- length_app. apply suffix_at_end. }
  rewrite Heq. done.
Qed.

(** ** Column definitions as the protocol writes them *)

(** A definition of plain texts. *)
Definition column_of (catalog schema table org_table name org_name : bytes) (charset length type flags decimals : Z)
    : mysql_column_definition_t :=
  mk_column (wire_bytes_of catalog) (wire_bytes_of schema) (wire_bytes_of table) (wire_bytes_of org_table)
    (wire_bytes_of name) (wire_bytes_of org_name) charset length type flags decimals.

Definition column_fixed_enc (charset length type flags decimals : Z) : bytes :=
  [0x0c] ++ le_bytes 2 charset ++ le_bytes 4 length ++ [type] ++ le_bytes 2 flags ++ [decimals; 0; 0].

Lemma decode_column_enc texts catalog schema table org_table name org_name charset length type flags decimals out :
  texts = [catalog; schema; table; org_table; name; org_name] ->
  let p := concat (map lenenc_bytes_enc texts) ++ column_fixed_enc charset length type flags decimals in
  bytes_ok p -> len p < 2 ^ 63 ->
  0 <= charset < 2 ^ 16 -> 0 <= length < 2 ^ 32 -> 0 <= flags < 2 ^ 16 ->
  mysql_wire_decode_column_definition41 (Some p) (len p) (Some out) =
    (Ret tt, Some (column_of catalog schema table org_table name org_name charset length type flags decimals)).
Proof.
  intros Ht p Hb Hm Hc Hl Hf. assert (buf_ok p (len p)) as Hp by (split; [lia|done|done]).
  assert (forall {T} (o : T) set a l,
    parses p (mysql_row_read_required_bytes p (len p) set) o (lenenc_bytes_enc a ++ l) tt (set (wire_bytes_of a) o) l)
    as Htext.
  { intros. eapply parses_bind; [by apply parses_lenenc_bytes|].
    eapply parses_bind; [apply parses_out_set|]. by apply parses_fail_if. }
  assert (parses p (column_definition_body p (len p)) column_zero p tt
    (column_of catalog schema table org_table name org_name charset length type flags decimals) []) as Hparse.
  { assert (p = concat (map lenenc_bytes_enc texts) ++ column_fixed_enc charset length type flags decimals)
      as Hpe by done.
    clearbody p. subst texts. cbn [map concat] in Hpe. rewrite app_nil_r, <- !app_assoc in Hpe.
    rewrite Hpe at 4. unfold column_definition_body.
    do 6 (eapply parses_bind; [apply Htext|]). unfold column_fixed_enc. cbn [app].
    eapply parses_bind; [by apply (parses_lenenc_uint p Hp _ 0x0c)|].
    eapply parses_bind; [by apply parses_fail_if|].
    eapply parses_bind; [by apply parses_u16|]. eapply parses_bind; [apply parses_out_set|].
    eapply parses_bind; [by apply parses_u32|]. eapply parses_bind; [apply parses_out_set|]. cbn [app].
    eapply parses_bind; [by apply parses_checked_byte|]. eapply parses_bind; [apply parses_out_set|].
    eapply parses_bind; [by apply parses_u16|]. eapply parses_bind; [apply parses_out_set|]. cbn [app].
    eapply parses_bind; [by apply parses_checked_byte|]. eapply parses_bind; [apply parses_out_set|].
    eapply parses_bind; [by apply parses_need_bytes|].
    eapply parses_bind; [apply parses_offset|].
    eapply parses_bind; [apply parses_access_ld|]. change (negb (0 =? 0)) with false. cbn iota.
    eapply parses_bind; [apply (parses_access_ld_at p _ [0] 0 []); cbn [app]; change (len [0]) with 1; lia|].
    eapply parses_bind; [by apply parses_fail_if|].
    eapply parses_bind; [by apply (parses_skip p 2 _ [0; 0] [])|].
    eapply parses_bind; [apply parses_offset|]. apply parses_fail_if.
    rewrite Z.sub_0_r, Z.eqb_refl. done. }
  unfold mysql_wire_decode_column_definition41, run_dec.
  destruct (Hparse 0 (suffix_at_0 p)) as (off' & -> & _). done.
Qed.

(** ** Properties *)

(** Decoding a binary row is memory safe on every payload. The only errors
    are NEED_MORE and INVALID; elements past the columns are never touched; and
    when it succeeds, every value carries its column's type, is NULL exactly
    where the bitmap says so, and is otherwise of the kind and in the range the
    column's type prescribes (integer widths and signedness, calendar fields,
    no view with a NULL marker). *)
Theorem binary_row_safe p size cs vs capacity :
  buf_ok p size -> len cs <= capacity -> len cs <= len vs -> len vs < 2 ^ 63 ->
  exists r vs', mysql_wire_decode_binary_row (Some p) size (Some cs) (len cs) (Some vs) capacity = (r, Some vs') /\
    length vs' = length vs /\ drop (length cs) vs' = drop (length cs) vs /\
    (r = Ret tt /\ row_values p 0 cs (take (length cs) vs') \/ r = Err NEED_MORE \/ r = Err INVALID).
Proof.
  intros Hp Hcap Hvs Hmax. pose proof Hp as [Hs Hm _]. unfold mysql_wire_decode_binary_row, SIZE_MAX.
  destruct (Z.ltb_spec capacity (len cs)); [lia|]. destruct (Z.ltb_spec (2 ^ 64 - 1 - 9) (len cs)); [lia|].
  destruct (Z.ltb_spec size 1); [by eauto 10|]. destruct (ld_is_Some p 0) as [b ->]; [lia|].
  destruct (negb (b =? 0)); [by eauto 10|]. rewrite size_sub_small by lia.
  destruct (Z.ltb_spec (size - 1) ((len cs + 9) / 8)); [by eauto 10|].
  change (default [] (Some cs)) with cs. change (default [] (Some vs)) with vs.
  rewrite Z.ltb_irrefl, Nat2Z.id, firstn_all.
  pose proof (wp_binary_columns p size cs 0 (1 + (len cs + 9) / 8) [] (take (length cs) vs) (drop (length cs) vs) Hp)
    as Hwp.
  pose proof (Z.div_pos (len cs + 9) 8 ltac:(lia) ltac:(lia)). cbn [app] in Hwp. rewrite take_drop, Z.add_0_l in Hwp.
  specialize (Hwp ltac:(lia) eq_refl ltac:(rewrite length_take; lia) ltac:(lia)).
  assert (forall new, length new = length cs ->
    length (new ++ drop (length cs) vs) = length vs /\
    drop (length cs) (new ++ drop (length cs) vs) = drop (length cs) vs /\
    take (length cs) (new ++ drop (length cs) vs) = new) as Hsplit.
  { intros new Hn. rewrite length_app, length_drop, drop_app_length', take_app_length' by done. split_and!; [lia|done..]. }
  unfold mbind, M_bind, offset, gets, fail_if. unfold wp in Hwp.
  destruct (binary_columns p size 0 cs _) as [[[]|e|] s]; [| |done].
  - destruct Hwp as (Ho & new & Hout & Hrow). destruct (Hsplit new (row_values_length _ _ _ _ Hrow)) as (H5 & H6 & H7).
    destruct (negb (d_off s =? size)); do 2 eexists; rewrite Hout, ?H5, ?H6, ?H7; by eauto 10.
  - destruct Hwp as ([-> | ->] & new & Hout & Hlen); destruct (Hsplit new Hlen) as (H5 & H6 & _);
      do 2 eexists; rewrite Hout, ?H5, ?H6; by eauto 10.
Qed.

(** Binary rows round-trip. For every list of columns and every cell value
    each column can hold (integers of each width and signedness down to their
    extremes, FLOAT and DOUBLE patterns, byte strings, DATE, DATETIME and TIME
    of every length, and NULLs at any position), decoding the protocol encoding
    of the row succeeds and returns exactly those values with their types. *)
Theorem binary_row_roundtrip cs xs vs capacity :
  Forall2 cell_ok cs xs -> len cs <= capacity -> len xs <= len vs -> len vs < 2 ^ 63 ->
  len (binary_row_enc xs) < 2 ^ 63 ->
  mysql_wire_decode_binary_row (Some (binary_row_enc xs)) (len (binary_row_enc xs)) (Some cs) (len cs)
    (Some vs) capacity = (Ret tt, Some (put_at vs 0 (zip_with cell_value cs xs))).
Proof. apply decode_binary_row_enc. Qed.
