(* ===== verification/Statement.v ===== *)
(** * Prepared statements, client side (mysql/wire/statement.c, statement.h)

    The builders of COM_STMT_PREPARE, COM_STMT_EXECUTE, COM_STMT_CLOSE and
    COM_STMT_RESET and the decoder of the answer to PREPARE. A double is its
    64-bit pattern. *)

From S2P Require Import Prelude Codec Handshake Result Row.

(** ** Data *)

Definition MYSQL_COM_STMT_PREPARE : Z := 0x16.
Definition MYSQL_COM_STMT_EXECUTE : Z := 0x17.
Definition MYSQL_COM_STMT_CLOSE : Z := 0x19.
Definition MYSQL_COM_STMT_RESET : Z := 0x1a.

Definition MYSQL_TYPE_TINY : Z := 0x01.
Definition MYSQL_TYPE_DOUBLE : Z := 0x05.
Definition MYSQL_TYPE_NULL : Z := 0x06.
Definition MYSQL_TYPE_LONGLONG : Z := 0x08.
Definition MYSQL_TYPE_BLOB : Z := 0xfc.
Definition MYSQL_TYPE_VAR_STRING : Z := 0xfd.
Definition MYSQL_TYPE_UNSIGNED_FLAG : Z := 0x80.

Record mysql_stmt_bytes_t : Type := mk_stmt_bytes { sb_data : ptr bytes; sb_size : Z }.

(** The kind and the union of a parameter; the last constructor is a kind
    outside the enumeration. *)
Inductive mysql_stmt_value_t : Type :=
| MYSQL_STMT_VALUE_NULL
| MYSQL_STMT_VALUE_SINT64 (z : Z)
| MYSQL_STMT_VALUE_UINT64 (z : Z)
| MYSQL_STMT_VALUE_DOUBLE (bits : Z)
| MYSQL_STMT_VALUE_BOOL (b : Z)
| MYSQL_STMT_VALUE_TEXT (v : mysql_stmt_bytes_t)
| MYSQL_STMT_VALUE_BLOB (v : mysql_stmt_bytes_t)
| MYSQL_STMT_VALUE_unknown (kind : Z).

Record mysql_stmt_prepare_ok_t : Type := mk_prepare_ok {
  po_statement_id : Z;
  po_column_count : Z;
  po_parameter_count : Z;
  po_warning_count : Z
}.

Definition prepare_ok_zero : mysql_stmt_prepare_ok_t := mk_prepare_ok 0 0 0 0.

(** ** Emission *)

Definition mysql_stmt_emit (out : ptr bytes) (capacity : Z) (offset : ptr Z) (data : ptr bytes) (size : Z)
    : wire_result unit * ptr bytes * ptr Z :=
  append_checked capacity out offset data size.

Definition emit_data (capacity : Z) (data : ptr bytes) (size : Z) : B unit :=
  call_writer (fun out offset => mysql_stmt_emit out capacity offset data size).

Definition mysql_stmt_emit_byte (capacity : Z) (value : Z) : B unit :=
  emit_data capacity (Some [value]) 1.

Definition mysql_stmt_emit_lenenc_bytes (capacity : Z) (data : ptr bytes) (size : Z) : B unit :=
  wr_lenenc_uint capacity size;; emit_data capacity data size.

(** [data == NULL && size != 0] *)
Definition missing (v : mysql_stmt_bytes_t) : bool :=
  match sb_data v with None => negb (sb_size v =? 0) | Some _ => false end.

Definition mysql_stmt_value_type (value : ptr mysql_stmt_value_t) (type flags : ptr Z)
    : wire_result unit * ptr Z * ptr Z :=
  match value, type, flags with
  | Some v, Some _, Some _ =>
      match v with
      | MYSQL_STMT_VALUE_NULL => (Ret tt, Some MYSQL_TYPE_NULL, Some 0)
      | MYSQL_STMT_VALUE_SINT64 _ => (Ret tt, Some MYSQL_TYPE_LONGLONG, Some 0)
      | MYSQL_STMT_VALUE_UINT64 _ => (Ret tt, Some MYSQL_TYPE_LONGLONG, Some MYSQL_TYPE_UNSIGNED_FLAG)
      | MYSQL_STMT_VALUE_DOUBLE _ => (Ret tt, Some MYSQL_TYPE_DOUBLE, Some 0)
      | MYSQL_STMT_VALUE_BOOL b =>
          if 1 <? b then (Err INVALID, type, Some 0) else (Ret tt, Some MYSQL_TYPE_TINY, Some 0)
      | MYSQL_STMT_VALUE_TEXT s =>
          if missing s then (Err INVALID, type, Some 0) else (Ret tt, Some MYSQL_TYPE_VAR_STRING, Some 0)
      | MYSQL_STMT_VALUE_BLOB s =>
          if missing s then (Err INVALID, type, Some 0) else (Ret tt, Some MYSQL_TYPE_BLOB, Some 0)
      | MYSQL_STMT_VALUE_unknown _ => (Err INVALID, type, Some 0)
      end
  | _, _, _ => (Err INVALID, type, flags)
  end.

Definition mysql_stmt_emit_value (capacity : Z) (value : ptr mysql_stmt_value_t) : B unit :=
  match value with
  | None => fail INVALID
  | Some v =>
      match v with
      | MYSQL_STMT_VALUE_NULL => mret tt
      | MYSQL_STMT_VALUE_SINT64 z => wr_u64 capacity (u64 z)
      | MYSQL_STMT_VALUE_UINT64 z => wr_u64 capacity z
      | MYSQL_STMT_VALUE_DOUBLE bits => wr_u64 capacity bits
      | MYSQL_STMT_VALUE_BOOL b => mysql_stmt_emit_byte capacity b
      | MYSQL_STMT_VALUE_TEXT s | MYSQL_STMT_VALUE_BLOB s =>
          mysql_stmt_emit_lenenc_bytes capacity (sb_data s) (sb_size s)
      | MYSQL_STMT_VALUE_unknown _ => fail INVALID
      end
  end.

(** ** Commands *)

Definition mysql_wire_build_stmt_prepare (sql : ptr bytes) (sql_size : Z) (out : ptr bytes) (out_capacity : Z)
    (out_size : ptr Z) : wire_result unit * ptr bytes * ptr Z :=
  match sql, out, out_size with
  | Some _, Some _, Some _ =>
      if sql_size =? 0 then (Err INVALID, out, out_size)
      else run_enc (mysql_stmt_emit_byte out_capacity MYSQL_COM_STMT_PREPARE;;
                    emit_data out_capacity sql sql_size) out out_size
  | _, _, _ => (Err INVALID, out, out_size)
  end.

Definition prepare_ok_body (p : bytes) (size : Z) : D mysql_stmt_prepare_ok_t unit :=
  fail_if (size <? 12) NEED_MORE;;
  b0 ← access (ld p 0);
  fail_if (negb (b0 =? 0)) INVALID;;
  id ← rd_u32 p size;
  out_set (fun o => mk_prepare_ok id (po_column_count o) (po_parameter_count o) (po_warning_count o));;
  columns ← rd_u16 p size;
  out_set (fun o => mk_prepare_ok (po_statement_id o) columns (po_parameter_count o) (po_warning_count o));;
  parameters ← rd_u16 p size;
  out_set (fun o => mk_prepare_ok (po_statement_id o) (po_column_count o) parameters (po_warning_count o));;
  reserved ← next_byte p;
  fail_if (negb (reserved =? 0)) INVALID;;
  warnings ← rd_u16 p size;
  out_set (fun o => mk_prepare_ok (po_statement_id o) (po_column_count o) (po_parameter_count o) warnings);;
  off ← offset;
  fail_if (negb (off =? size)) INVALID.

Definition mysql_wire_decode_stmt_prepare_ok (payload : ptr bytes) (payload_size : Z)
    (out : ptr mysql_stmt_prepare_ok_t) : wire_result unit * ptr mysql_stmt_prepare_ok_t :=
  match payload, out with
  | Some p, Some _ => run_dec 1 prepare_ok_zero (prepare_ok_body p payload_size)
  | _, _ => (Err INVALID, out)
  end.

Definition mysql_wire_build_stmt_close (statement_id : Z) (out : ptr bytes) (out_capacity : Z)
    (out_size : ptr Z) : wire_result unit * ptr bytes * ptr Z :=
  run_enc (mysql_stmt_emit_byte out_capacity MYSQL_COM_STMT_CLOSE;; wr_u32 out_capacity statement_id)
    out out_size.

Definition mysql_wire_build_stmt_reset (statement_id : Z) (out : ptr bytes) (out_capacity : Z)
    (out_size : ptr Z) : wire_result unit * ptr bytes * ptr Z :=
  if statement_id =? 0 then (Err INVALID, out, out_size)
  else run_enc (mysql_stmt_emit_byte out_capacity MYSQL_COM_STMT_RESET;; wr_u32 out_capacity statement_id)
         out out_size.

(** ** COM_STMT_EXECUTE *)

(** [values[i]] *)
Definition value_at (values : list mysql_stmt_value_t) (i : Z) : option mysql_stmt_value_t :=
  if i <? 0 then None else values !! Z.to_nat i.

(** [out[index] |= mask] *)
Definition or_byte {E} (index mask : Z) : M E enc unit :=
  buf ← gets e_buf; b ← access (ld buf index); buf' ← access (st buf index (Z.lor b mask));
  modify (fun s => Enc buf' (e_off s)).

(** [mysql_stmt_value_type] on locals. *)
Definition value_type_of (v : mysql_stmt_value_t) : B (Z * Z) := fun s =>
  match mysql_stmt_value_type (Some v) (Some 0) (Some 0) with
  | (Ret _, Some type, Some flags) => (Ret (type, flags), s)
  | (Err e, _, _) => (Err e, s)
  | _ => (Fault, s)
  end.

(** The two loops over the [n] parameters from [i] on. *)
Fixpoint execute_types (capacity bitmap_offset : Z) (values : list mysql_stmt_value_t) (n : nat) (i : Z) : B unit :=
  match n with
  | O => mret tt
  | S n =>
      v ← access (value_at values i);
      tf ← value_type_of v;
      mysql_stmt_emit_byte capacity (fst tf);;
      mysql_stmt_emit_byte capacity (snd tf);;
      when (match v with MYSQL_STMT_VALUE_NULL => true | _ => false end)
        (or_byte (bitmap_offset + i / 8) (u8 (Z.shiftl 1 (i mod 8))));;
      execute_types capacity bitmap_offset values n (i + 1)
  end.

Fixpoint execute_values (capacity : Z) (values : list mysql_stmt_value_t) (n : nat) (i : Z) : B unit :=
  match n with
  | O => mret tt
  | S n =>
      v ← access (value_at values i);
      mysql_stmt_emit_value capacity (Some v);;
      execute_values capacity values n (i + 1)
  end.

Definition execute_body (statement_id : Z) (values : list mysql_stmt_value_t) (value_count capacity : Z) : B unit :=
  fail_if (0xffff <? value_count) LIMIT;;
  let null_bitmap_size := (value_count + 7) / 8 in
  mysql_stmt_emit_byte capacity MYSQL_COM_STMT_EXECUTE;;
  wr_u32 capacity statement_id;;
  mysql_stmt_emit_byte capacity 0;;
  wr_u32 capacity 1;;
  null_bitmap_offset ← gets e_off;
  when (negb (null_bitmap_size =? 0)) (wr_bytes capacity (zeros null_bitmap_size));;
  when (negb (value_count =? 0))
    (mysql_stmt_emit_byte capacity 1;;
     execute_types capacity null_bitmap_offset values (Z.to_nat value_count) 0;;
     execute_values capacity values (Z.to_nat value_count) 0).

Definition mysql_wire_build_stmt_execute (statement_id : Z) (values : ptr (list mysql_stmt_value_t))
    (value_count : Z) (out : ptr bytes) (out_capacity : Z) (out_size : ptr Z)
    : wire_result unit * ptr bytes * ptr Z :=
  if match values with None => negb (value_count =? 0) | Some _ => false end
  then (Err INVALID, out, out_size)
  else run_enc (execute_body statement_id (default [] values) value_count out_capacity) out out_size.

(** ** The bytes of the commands *)

(** The bytes a parameter's data pointer spans. *)
Definition stmt_bytes (v : mysql_stmt_bytes_t) : bytes := take (Z.to_nat (sb_size v)) (default [] (sb_data v)).

Definition stmt_bytes_ok (v : mysql_stmt_bytes_t) : Prop :=
  0 <= sb_size v <= len (default [] (sb_data v)) /\ sb_size v < 2 ^ 63 /\ bytes_ok (default [] (sb_data v)).

(** A parameter the builder accepts. *)
Definition stmt_value_ok (v : mysql_stmt_value_t) : Prop :=
  match v with
  | MYSQL_STMT_VALUE_NULL => True
  | MYSQL_STMT_VALUE_SINT64 z => - 2 ^ 63 <= z < 2 ^ 63
  | MYSQL_STMT_VALUE_UINT64 z => 0 <= z < 2 ^ 64
  | MYSQL_STMT_VALUE_DOUBLE bits => 0 <= bits < 2 ^ 64
  | MYSQL_STMT_VALUE_BOOL b => 0 <= b <= 1
  | MYSQL_STMT_VALUE_TEXT s | MYSQL_STMT_VALUE_BLOB s => stmt_bytes_ok s
  | MYSQL_STMT_VALUE_unknown _ => False
  end.

Definition stmt_null (v : mysql_stmt_value_t) : bool :=
  match v with MYSQL_STMT_VALUE_NULL => true | _ => false end.

Definition stmt_type (v : mysql_stmt_value_t) : Z * Z :=
  match v with
  | MYSQL_STMT_VALUE_SINT64 _ => (MYSQL_TYPE_LONGLONG, 0)
  | MYSQL_STMT_VALUE_UINT64 _ => (MYSQL_TYPE_LONGLONG, MYSQL_TYPE_UNSIGNED_FLAG)
  | MYSQL_STMT_VALUE_DOUBLE _ => (MYSQL_TYPE_DOUBLE, 0)
  | MYSQL_STMT_VALUE_BOOL _ => (MYSQL_TYPE_TINY, 0)
  | MYSQL_STMT_VALUE_TEXT _ => (MYSQL_TYPE_VAR_STRING, 0)
  | MYSQL_STMT_VALUE_BLOB _ => (MYSQL_TYPE_BLOB, 0)
  | _ => (MYSQL_TYPE_NULL, 0)
  end.

Definition stmt_type_enc (v : mysql_stmt_value_t) : bytes := [fst (stmt_type v); snd (stmt_type v)].

Definition stmt_value_enc (v : mysql_stmt_value_t) : bytes :=
  match v with
  | MYSQL_STMT_VALUE_SINT64 z | MYSQL_STMT_VALUE_UINT64 z | MYSQL_STMT_VALUE_DOUBLE z => le_bytes 8 z
  | MYSQL_STMT_VALUE_BOOL b => [b]
  | MYSQL_STMT_VALUE_TEXT s | MYSQL_STMT_VALUE_BLOB s => lenenc_bytes_enc (stmt_bytes s)
  | _ => []
  end.

Definition execute_header (id : Z) : bytes :=
  [MYSQL_COM_STMT_EXECUTE] ++ le_bytes 4 id ++ [0] ++ le_bytes 4 1.

Definition execute_enc (id : Z) (vs : list mysql_stmt_value_t) : bytes :=
  execute_header id ++
  match vs with
  | [] => []
  | _ => bitmap 0 (map stmt_null vs) ++ [1] ++ concat (map stmt_type_enc vs) ++ concat (map stmt_value_enc vs)
  end.

(** ** Builders that patch what they wrote

    [steps cap m l l']: on a buffer whose first bytes are [l], the builder [m]
    leaves [l'] there, or fails with LIMIT when [l'] is too long. *)

Definition wrote (buf l : bytes) : enc := Enc (splice buf 0 l) (len l).

Definition steps (cap : Z) (m : B unit) (l l' : bytes) : Prop :=
  len l <= len l' /\
  forall buf, cap <= len buf -> len buf < 2 ^ 63 -> len l <= cap ->
  if len l' <=? cap then m (wrote buf l) = (Ret tt, wrote buf l')
  else exists s', m (wrote buf l) = (Err LIMIT, s') /\ length (e_buf s') = length buf.

Section Steps.
Context (cap : Z).

Lemma steps_emits m l a : emits cap m a -> steps cap m l (l ++ a).
Proof.
  intros Hm. split; [rewrite length_app; lia|]. intros buf Hc Hb Hl.
  specialize (Hm (wrote buf l)). unfold wrote, enc_ok in *. cbn [e_off e_buf] in Hm.
  assert (length (splice buf 0 l) = length buf) as Hlen by (apply length_splice; lia).
  specialize (Hm ltac:(lia)). rewrite length_app, Nat2Z.inj_add.
  destruct (Z.leb_spec (len l + len a) cap).
  - rewrite Hm. f_equal. f_equal. rewrite <- (splice_app buf 0 l a) by lia. by rewrite Z.add_0_l.
  - destruct Hm as (s' & -> & Hs'). exists s'. split; [done|]. lia.
Qed.

Lemma steps_bind m1 m2 l l1 l2 : steps cap m1 l l1 -> steps cap m2 l1 l2 -> steps cap (m1;; m2) l l2.
Proof.
  intros [Hl1 H1] [Hl2 H2]. split; [lia|]. intros buf Hc Hb Hl. specialize (H1 buf Hc Hb Hl).
  unfold mbind, M_bind. destruct (Z.leb_spec (len l1) cap).
  - rewrite H1. by apply H2.
  - destruct H1 as (s' & -> & Hs'). destruct (Z.leb_spec (len l2) cap); [lia|]. eauto.
Qed.

Lemma steps_ret l : steps cap (mret tt) l l.
Proof.
  split; [lia|]. intros buf Hc Hb Hl. destruct (Z.leb_spec (len l) cap); [done|lia].
Qed.

Lemma steps_ext m m' l l' : (forall s, m' s = m s) -> steps cap m l l' -> steps cap m' l l'.
Proof. intros He [Hl Hm]. split; [done|]. intros buf. rewrite He. apply Hm. Qed.

Lemma steps_gets_off (k : Z -> B unit) l l' : steps cap (k (len l)) l l' -> steps cap (gets e_off ≫= k) l l'.
Proof. by intros [Hl Hm]. Qed.

Lemma steps_access {A} (x : option A) a (k : A -> B unit) l l' :
  x = Some a -> steps cap (k a) l l' -> steps cap (access x ≫= k) l l'.
Proof. by intros ->. Qed.

Lemma steps_or_byte index mask l b :
  ld l index = Some b -> steps cap (or_byte index mask) l (<[Z.to_nat index := Z.lor b mask]> l).
Proof.
  intros Hb. pose proof (ld_Some _ _ _ Hb) as Hi. split; [by rewrite length_insert|].
  intros buf Hc Hbuf Hl. rewrite length_insert. destruct (Z.leb_spec (len l) cap); [|lia].
  unfold or_byte, mbind, M_bind, gets, access, modify, wrote. cbn [e_buf e_off].
  rewrite splice_0, ld_app_l, Hb by lia. rewrite st_Some by (rewrite length_app; lia).
  rewrite splice_0, insert_app_l, !length_insert by lia. done.
Qed.
End Steps.

Lemma run_enc_steps cap m l buf n :
  steps cap m [] l -> 0 <= cap <= len buf -> len buf < 2 ^ 63 ->
  exists buf', length buf' = length buf /\
  run_enc m (Some buf) (Some n) =
    if len l <=? cap then (Ret tt, Some (splice buf 0 l), Some (len l))
    else (Err LIMIT, Some buf', Some 0).
Proof.
  intros [_ Hm] Hc Hb. specialize (Hm buf ltac:(lia) Hb ltac:(cbn; lia)). unfold run_enc.
  assert (wrote buf [] = Enc buf 0) as Hw by (unfold wrote; by rewrite splice_nil). rewrite Hw in Hm.
  destruct (len l <=? cap).
  - exists buf. rewrite Hm. done.
  - destruct Hm as (s' & -> & Hs'). by exists (e_buf s').
Qed.

(** ** Parameters *)

Lemma emits_emit_data cap v :
  stmt_bytes_ok v -> emits cap (emit_data cap (sb_data v) (sb_size v)) (stmt_bytes v).
Proof.
  intros (Hs & _ & _). unfold emit_data, mysql_stmt_emit.
  assert (sb_size v = len (stmt_bytes v)) as Hlen by (unfold stmt_bytes; rewrite length_take; lia).
  rewrite Hlen. apply emits_append_checked. unfold stmt_bytes. destruct (sb_data v) as [d|].
  - left. exists (drop (Z.to_nat (sb_size v)) d). cbn. by rewrite take_drop.
  - right. split; [done|]. cbn. apply take_nil.
Qed.

Lemma emits_emit_byte cap b : emits cap (mysql_stmt_emit_byte cap b) [b].
Proof. apply (emits_append_checked cap (Some [b]) [b]). left. by exists []. Qed.

Lemma missing_ok v : stmt_bytes_ok v -> missing v = false.
Proof.
  intros (Hs & _). unfold missing. destruct (sb_data v); [done|]. cbn in Hs. apply negb_false_iff, Z.eqb_eq. lia.
Qed.

Lemma value_type_ok v s : stmt_value_ok v -> value_type_of v s = (Ret (stmt_type v), s).
Proof.
  unfold value_type_of, mysql_stmt_value_type. destruct v as [| | | |b|t|t|]; cbn [stmt_value_ok]; intros Hv; try done.
  - by destruct (Z.ltb_spec 1 b); [lia|].
  - by rewrite missing_ok.
  - by rewrite missing_ok.
Qed.

Lemma emits_value cap v : stmt_value_ok v -> emits cap (mysql_stmt_emit_value cap (Some v)) (stmt_value_enc v).
Proof.
  assert (forall t, stmt_bytes_ok t ->
    emits cap (mysql_stmt_emit_lenenc_bytes cap (sb_data t) (sb_size t)) (lenenc_bytes_enc (stmt_bytes t))) as Hb.
  { intros t Ht. apply emits_bind; [|by apply emits_emit_data]. pose proof Ht as (Hs & Hm & _).
    assert (len (stmt_bytes t) = sb_size t) as -> by (unfold stmt_bytes; rewrite length_take; lia).
    apply emits_lenenc_uint. lia. }
  destruct v as [|z|z|z|b|t|t|]; cbn [stmt_value_ok mysql_stmt_emit_value stmt_value_enc]; intros Hv.
  - apply emits_ret.
  - rewrite <- (le_bytes_mod 8 z). apply emits_u64. apply u64_range.
  - apply emits_u64. lia.
  - apply emits_u64. lia.
  - apply emits_emit_byte.
  - by apply Hb.
  - by apply Hb.
  - done.
Qed.

Lemma value_at_lookup vs done v rest : vs = done ++ v :: rest -> value_at vs (len done) = Some v.
Proof.
  intros ->. unfold value_at. destruct (Z.ltb_spec (len done) 0); [lia|]. by rewrite Nat2Z.id, list_lookup_middle.
Qed.

Lemma emits_execute_values cap vs rest : forall done,
  vs = done ++ rest -> Forall stmt_value_ok rest ->
  emits cap (execute_values cap vs (length rest) (len done)) (concat (map stmt_value_enc rest)).
Proof.
  induction rest as [|v rest IH]; intros done Hvs Hok; cbn [length execute_values map concat]; [apply emits_ret|].
  apply list.Forall_cons in Hok as [Hv Hok]. rewrite (value_at_lookup _ _ _ _ Hvs).
  apply (emits_bind cap); [by apply emits_value|].
  replace (len done + 1) with (len (done ++ [v])) by (rewrite length_app; cbn [length]; lia).
  apply IH; [|done]. by rewrite <- app_assoc.
Qed.

(** ** The NULL bitmap as it is filled in *)

(** The bitmap after the first [n] values were looked at. *)
Definition partial_bitmap (shift : Z) (nulls : list bool) (n : nat) : bytes :=
  bitmap shift (take n nulls ++ replicate (length nulls - n) false).

Lemma partial_bitmap_0 shift nulls : partial_bitmap shift nulls 0 = zeros (bitmap_size shift nulls).
Proof.
  unfold partial_bitmap. rewrite take_0, Nat.sub_0_r. cbn [app]. unfold bitmap, zeros, bitmap_size.
  rewrite length_replicate. set (n := (_ + _ + 7) / 8). apply list_eq_same_length with (n := Z.to_nat n).
  - by rewrite length_replicate.
  - by rewrite length_map, length_seqZ.
  - intros i x y Hi Hx Hy. apply lookup_replicate in Hy as [-> _].
    rewrite list_lookup_fmap in Hx. apply fmap_Some in Hx as (k & Hk & ->).
    transitivity (byte_of_bits (fun _ => false)); [|done]. apply byte_of_bits_ext. intros j Hj. unfold null_at.
    case_match; [done|]. destruct (replicate _ false !! _) as [b|] eqn:E; [|done].
    by apply lookup_replicate in E as [-> _].
Qed.

Lemma partial_bitmap_all shift nulls : partial_bitmap shift nulls (length nulls) = bitmap shift nulls.
Proof. unfold partial_bitmap. by rewrite firstn_all, Nat.sub_diag, app_nil_r. Qed.

Lemma length_partial shift nulls n :
  0 <= shift -> (n <= length nulls)%nat -> len (partial_bitmap shift nulls n) = bitmap_size shift nulls.
Proof.
  intros Hs Hn. unfold partial_bitmap. rewrite bitmap_length by lia. unfold bitmap_size.
  rewrite length_app, length_take, length_replicate. do 3 f_equal. lia.
Qed.

Lemma partial_bitmap_false shift nulls n :
  nulls !! n = Some false -> partial_bitmap shift nulls (S n) = partial_bitmap shift nulls n.
Proof.
  intros Hn. pose proof (lookup_lt_Some _ _ _ Hn). unfold partial_bitmap. f_equal.
  rewrite (take_S_r _ _ _ Hn), <- app_assoc. f_equal.
  by replace (length nulls - n)%nat with (S (length nulls - S n)) by lia.
Qed.

Lemma byte_of_bits_set f k :
  0 <= k < 8 -> byte_of_bits (fun j => f j || (j =? k)) = Z.lor (byte_of_bits f) (2 ^ k).
Proof.
  intros Hk. unfold byte_of_bits. change (seqZ 0 8) with [0; 1; 2; 3; 4; 5; 6; 7]. cbn [foldr].
  assert (k = 0 \/ k = 1 \/ k = 2 \/ k = 3 \/ k = 4 \/ k = 5 \/ k = 6 \/ k = 7) as Hcase by lia.
  repeat destruct Hcase as [-> | Hcase]; [..|subst k];
    destruct (f 0), (f 1), (f 2), (f 3), (f 4), (f 5), (f 6), (f 7); reflexivity.
Qed.

(** Setting the bit of the value in the bitmap accounts for one more NULL. *)
Lemma partial_bitmap_true shift nulls n :
  0 <= shift -> nulls !! n = Some true ->
  let k := Z.of_nat n + shift in
  exists b, partial_bitmap shift nulls n !! Z.to_nat (k / 8) = Some b /\
    partial_bitmap shift nulls (S n) =
      <[Z.to_nat (k / 8) := Z.lor b (u8 (Z.shiftl 1 (k mod 8)))]> (partial_bitmap shift nulls n).
Proof.
  intros Hs Hn k. pose proof (lookup_lt_Some _ _ _ Hn) as Hlt.
  pose proof (Z.div_mod k 8 ltac:(lia)) as Hdm. pose proof (Z.mod_pos_bound k 8 ltac:(lia)) as Hmod.
  set (old := take n nulls ++ replicate (length nulls - n) false).
  set (new := take (S n) nulls ++ replicate (length nulls - S n) false).
  assert (length old = length nulls) as Hlo.
  { unfold old. rewrite length_app, length_take, length_replicate. lia. }
  assert (new = <[n := true]> old) as Hnew.
  { unfold old, new. rewrite (take_S_r _ _ _ Hn), <- app_assoc.
    rewrite insert_app_r_alt by (rewrite length_take; lia).
    rewrite length_take_le, Nat.sub_diag by lia. f_equal.
    by replace (length nulls - n)%nat with (S (length nulls - S n)) by lia. }
  assert (bitmap_size shift new = bitmap_size shift old) as Hsz.
  { unfold bitmap_size. by rewrite Hnew, length_insert. }
  assert (0 <= k / 8 < bitmap_size shift old) as Hr.
  { unfold bitmap_size. rewrite Hlo. split; [apply Z.div_pos; lia|]. apply Z.div_lt_upper_bound; [lia|].
    pose proof (Z.div_mod (len nulls + shift + 7) 8 ltac:(lia)).
    pose proof (Z.mod_pos_bound (len nulls + shift + 7) 8 ltac:(lia)). lia. }
  eexists. split; [by apply bitmap_lookup|]. unfold partial_bitmap. fold old new.
  assert (Z.shiftl 1 (k mod 8) < 256) as Hbit.
  { rewrite Z.shiftl_1_l. apply (Z.pow_lt_mono_r 2 (k mod 8) 8); lia. }
  rewrite u8_small by (split; [apply Z.shiftl_nonneg; lia|done]). rewrite Z.shiftl_1_l.
  assert (forall z, null_at new z = null_at old z || (z =? Z.of_nat n)) as Hnull.
  { intros z. unfold null_at. rewrite Hnew. destruct (Z.ltb_spec z 0).
    - symmetry. apply Z.eqb_neq. lia.
    - destruct (Z.eqb_spec z (Z.of_nat n)) as [->|Hne].
      + rewrite Nat2Z.id, list_lookup_insert_eq by lia. by rewrite orb_true_r.
      + rewrite list_lookup_insert_ne by lia. by rewrite orb_false_r. }
  apply list_eq_same_length with (n := Z.to_nat (bitmap_size shift old)).
  - rewrite length_insert. pose proof (bitmap_length shift old Hs). lia.
  - pose proof (bitmap_length shift new Hs). lia.
  - intros i x y Hi Hx Hy. rewrite <- (Nat2Z.id i) in Hx, Hy. rewrite bitmap_lookup in Hx by lia.
    injection Hx as <-. destruct (decide (Z.of_nat i = k / 8)) as [Hik|Hik].
    + rewrite Hik in *. rewrite list_lookup_insert_eq in Hy by (pose proof (bitmap_length shift old Hs); lia).
      injection Hy as <-. rewrite <- byte_of_bits_set by lia. apply byte_of_bits_ext. intros j Hj.
      rewrite Hnull. f_equal. destruct (Z.eqb_spec j (k mod 8)); [apply Z.eqb_eq; lia|apply Z.eqb_neq; lia].
    + rewrite list_lookup_insert_ne in Hy by lia. rewrite bitmap_lookup in Hy by lia. injection Hy as <-.
      apply byte_of_bits_ext. intros j Hj. rewrite Hnull.
      destruct (Z.eqb_spec (8 * Z.of_nat i + j - shift) (Z.of_nat n)); [|by rewrite orb_false_r].
      exfalso. apply Hik. apply (Z.div_unique k 8 (Z.of_nat i) j); lia.
Qed.

(** ** COM_STMT_EXECUTE: what is built *)

Lemma steps_execute_types cap h vs rest : forall done,
  len h = 10 -> vs = done ++ rest -> Forall stmt_value_ok rest ->
  let written d := h ++ partial_bitmap 0 (map stmt_null vs) (length d) ++ [1] ++ concat (map stmt_type_enc d) in
  steps cap (execute_types cap 10 vs (length rest) (len done)) (written done) (written vs).
Proof.
  induction rest as [|v rest IH]; intros done Hh Hvs Hok written; cbn [length execute_types].
  { rewrite app_nil_r in Hvs. subst vs. apply steps_ret. }
  apply list.Forall_cons in Hok as [Hv Hok]. rewrite (value_at_lookup _ _ _ _ Hvs).
  assert (map stmt_null vs !! length done = Some (stmt_null v)) as Hn.
  { rewrite list_lookup_fmap, Hvs, list_lookup_middle by done. done. }
  pose proof (lookup_lt_Some _ _ _ Hn) as Hlt.
  apply (steps_access cap (Some v) v); [done|].
  apply (steps_ext cap (mysql_stmt_emit_byte cap (fst (stmt_type v));;
    mysql_stmt_emit_byte cap (snd (stmt_type v));;
    when (stmt_null v) (or_byte (10 + len done / 8) (u8 (Z.shiftl 1 (len done mod 8))));;
    execute_types cap 10 vs (length rest) (len done + 1))).
  { intros s. unfold mbind at 1, M_bind at 1. by rewrite value_type_ok. }
  set (bm := partial_bitmap 0 (map stmt_null vs) (length done)).
  set (types := concat (map stmt_type_enc (done ++ [v]))).
  eapply steps_bind; [apply steps_emits, emits_emit_byte|].
  eapply steps_bind; [apply steps_emits, emits_emit_byte|].
  apply steps_bind with (l1 := written (done ++ [v])).
  - assert ((written done ++ [fst (stmt_type v)]) ++ [snd (stmt_type v)] = h ++ bm ++ [1] ++ types) as ->.
    { unfold written, types. rewrite map_app, concat_app, <- !app_assoc. done. }
    assert (written (done ++ [v]) =
      h ++ partial_bitmap 0 (map stmt_null vs) (S (length done)) ++ [1] ++ types) as ->.
    { unfold written, types. rewrite length_app. cbn [length]. by rewrite Nat.add_1_r. }
    destruct (stmt_null v); cbn [when].
    + apply (partial_bitmap_true 0) in Hn as (b & Hb & ->); [|done]. rewrite Z.add_0_r in *. fold bm in Hb |- *.
      pose proof (lookup_lt_Some _ _ _ Hb) as Hbl. pose proof (Z.div_pos (len done) 8 ltac:(lia) ltac:(lia)).
      replace (h ++ <[Z.to_nat (len done / 8) := Z.lor b (u8 (Z.shiftl 1 (len done mod 8)))]> bm ++ [1] ++ types)
        with (<[Z.to_nat (10 + len done / 8) := Z.lor b (u8 (Z.shiftl 1 (len done mod 8)))]> (h ++ bm ++ [1] ++ types)).
      * apply steps_or_byte. unfold ld. destruct (Z.ltb_spec (10 + len done / 8) 0); [lia|].
        rewrite lookup_app_r by lia. replace (Z.to_nat (10 + len done / 8) - length h)%nat
          with (Z.to_nat (len done / 8)) by lia. by rewrite lookup_app_l.
      * rewrite insert_app_r_alt by lia. replace (Z.to_nat (10 + len done / 8) - length h)%nat
          with (Z.to_nat (len done / 8)) by lia. by rewrite insert_app_l.
    + rewrite partial_bitmap_false by done. apply steps_ret.
  - replace (len done + 1) with (len (done ++ [v])) by (rewrite length_app; cbn [length]; lia).
    apply IH; [done| |done]. by rewrite <- app_assoc.
Qed.

Lemma steps_execute_body cap id vs :
  0 <= id < 2 ^ 32 -> Forall stmt_value_ok vs -> len vs <= 0xffff ->
  steps cap (execute_body id vs (len vs) cap) [] (execute_enc id vs).
Proof.
  intros Hid Hok Hcount. unfold execute_body, execute_enc.
  assert (len (execute_header id) = 10) as Hh.
  { unfold execute_header. rewrite !length_app, !length_le_bytes. done. }
  apply (steps_ext cap (
    (mysql_stmt_emit_byte cap MYSQL_COM_STMT_EXECUTE;; wr_u32 cap id;; mysql_stmt_emit_byte cap 0;; wr_u32 cap 1);;
    off ← gets e_off;
    when (negb ((len vs + 7) / 8 =? 0)) (wr_bytes cap (zeros ((len vs + 7) / 8)));;
    when (negb (len vs =? 0))
      (mysql_stmt_emit_byte cap 1;; execute_types cap off vs (Z.to_nat (len vs)) 0;;
       execute_values cap vs (Z.to_nat (len vs)) 0))).
  { intros s. destruct (Z.ltb_spec 0xffff (len vs)); [lia|]. cbn [fail_if]. unfold mbind, M_bind, fail_if.
    by repeat case_match. }
  apply steps_bind with (l1 := execute_header id).
  { change (execute_header id) with ([] ++ execute_header id). apply steps_emits.
    apply emits_bind; [apply emits_emit_byte|]. apply emits_bind; [apply emits_u32; lia|].
    apply emits_bind; [apply emits_emit_byte|apply emits_u32; lia]. }
  apply steps_gets_off. rewrite Hh, Nat2Z.id.
  destruct vs as [|v vs']; [apply (steps_ext cap (mret tt : B unit)); [done|]; rewrite app_nil_r; apply steps_ret|].
  set (vs := v :: vs') in *. assert (len vs <> 0) as Hne by (cbn; lia).
  assert (bitmap_size 0 (map stmt_null vs) = (len vs + 7) / 8) as Hbs.
  { unfold bitmap_size. by rewrite length_map, Z.add_0_r. }
  assert (((len vs + 7) / 8 =? 0) = false) as ->.
  { apply Z.eqb_neq. pose proof (Z.div_le_lower_bound (len vs + 7) 8 1 ltac:(lia)). lia. }
  destruct (Z.eqb_spec (len vs) 0) as [|_]; [lia|]. cbn [negb when].
  eapply steps_bind; [apply steps_emits, emits_bytes|].
  eapply steps_bind; [apply steps_emits, emits_emit_byte|].
  rewrite <- Hbs, <- (partial_bitmap_0 0 (map stmt_null vs)), <- app_assoc.
  pose proof (steps_execute_types cap (execute_header id) vs vs [] Hh eq_refl Hok) as Ht.
  cbn [map concat length app] in Ht. change (len []) with 0 in Ht.
  eapply steps_bind; [exact Ht|]. rewrite <- (length_map stmt_null vs) at 2. rewrite partial_bitmap_all.
  assert (forall a b c d : bytes, a ++ b ++ [1] ++ c ++ d = (a ++ b ++ 1 :: c) ++ d) as ->.
  { intros. by rewrite <- !app_assoc. }
  apply steps_emits. by apply (emits_execute_values cap vs vs []).
Qed.

Lemma build_execute_eq id vs buf cap n :
  0 <= id < 2 ^ 32 -> Forall stmt_value_ok vs -> len vs <= 0xffff -> 0 <= cap <= len buf -> len buf < 2 ^ 63 ->
  exists buf', length buf' = length buf /\
  mysql_wire_build_stmt_execute id (Some vs) (len vs) (Some buf) cap (Some n) =
    if len (execute_enc id vs) <=? cap
    then (Ret tt, Some (splice buf 0 (execute_enc id vs)), Some (len (execute_enc id vs)))
    else (Err LIMIT, Some buf', Some 0).
Proof.
  intros Hid Hok Hcount Hc Hb. unfold mysql_wire_build_stmt_execute. change (default [] (Some vs)) with vs.
  cbn iota. apply run_enc_steps; [|done..]. by apply steps_execute_body.
Qed.

Lemma build_prepare_eq sql rest buf cap n :
  sql <> [] -> 0 <= cap <= len buf -> len buf < 2 ^ 63 ->
  exists buf', length buf' = length buf /\
  mysql_wire_build_stmt_prepare (Some (sql ++ rest)) (len sql) (Some buf) cap (Some n) =
    let l := MYSQL_COM_STMT_PREPARE :: sql in
    if len l <=? cap then (Ret tt, Some (splice buf 0 l), Some (len l)) else (Err LIMIT, Some buf', Some 0).
Proof.
  intros Hne Hc Hb. unfold mysql_wire_build_stmt_prepare.
  destruct (Z.eqb_spec (len sql) 0) as [|_]; [destruct sql; done|].
  apply (run_enc_emits cap _ ([MYSQL_COM_STMT_PREPARE] ++ sql)); [|done..].
  apply emits_bind; [apply emits_emit_byte|]. apply emits_append_checked. left. by exists rest.
Qed.

Lemma build_close_eq id buf cap n :
  0 <= id < 2 ^ 32 -> 0 <= cap <= len buf -> len buf < 2 ^ 63 ->
  exists buf', length buf' = length buf /\
  mysql_wire_build_stmt_close id (Some buf) cap (Some n) =
    let l := MYSQL_COM_STMT_CLOSE :: le_bytes 4 id in
    if len l <=? cap then (Ret tt, Some (splice buf 0 l), Some (len l)) else (Err LIMIT, Some buf', Some 0).
Proof.
  intros Hid Hc Hb. apply (run_enc_emits cap _ ([MYSQL_COM_STMT_CLOSE] ++ le_bytes 4 id)); [|done..].
  apply emits_bind; [apply emits_emit_byte|]. apply emits_u32. lia.
Qed.

Lemma build_reset_eq id buf cap n :
  0 < id < 2 ^ 32 -> 0 <= cap <= len buf -> len buf < 2 ^ 63 ->
  exists buf', length buf' = length buf /\
  mysql_wire_build_stmt_reset id (Some buf) cap (Some n) =
    let l := MYSQL_COM_STMT_RESET :: le_bytes 4 id in
    if len l <=? cap then (Ret tt, Some (splice buf 0 l), Some (len l)) else (Err LIMIT, Some buf', Some 0).
Proof.
  intros Hid Hc Hb. unfold mysql_wire_build_stmt_reset. destruct (Z.eqb_spec id 0) as [|_]; [lia|].
  apply (run_enc_emits cap _ ([MYSQL_COM_STMT_RESET] ++ le_bytes 4 id)); [|done..].
  apply emits_bind; [apply emits_emit_byte|]. apply emits_u32. lia.
Qed.

(** ** The answer to PREPARE *)

Definition prepare_ok_enc (o : mysql_stmt_prepare_ok_t) : bytes :=
  [0] ++ le_bytes 4 (po_statement_id o) ++ le_bytes 2 (po_column_count o) ++ le_bytes 2 (po_parameter_count o) ++
  [0] ++ le_bytes 2 (po_warning_count o).

Definition prepare_ok_ok (o : mysql_stmt_prepare_ok_t) : Prop :=
  0 <= po_statement_id o < 2 ^ 32 /\ 0 <= po_column_count o < 2 ^ 16 /\
  0 <= po_parameter_count o < 2 ^ 16 /\ 0 <= po_warning_count o < 2 ^ 16.

Lemma prepare_ok_enc_bytes o : bytes_ok (prepare_ok_enc o).
Proof.
  unfold prepare_ok_enc. repeat apply Forall_app_2; try apply le_bytes_ok; by apply bytes_okb_ok.
Qed.

Lemma decode_prepare_ok_enc o out :
  prepare_ok_ok o ->
  mysql_wire_decode_stmt_prepare_ok (Some (prepare_ok_enc o)) (len (prepare_ok_enc o)) (Some out) = (Ret tt, Some o).
Proof.
  intros (Hid & Hcc & Hpc & Hwc). pose proof (prepare_ok_enc_bytes o) as Hb.
  assert (len (prepare_ok_enc o) = 12) as Hlen.
  { unfold prepare_ok_enc. rewrite !length_app, !length_le_bytes. done. }
  assert (drop 1 (prepare_ok_enc o) = le_bytes 4 (po_statement_id o) ++ le_bytes 2 (po_column_count o) ++
    le_bytes 2 (po_parameter_count o) ++ [0] ++ le_bytes 2 (po_warning_count o) ++ []) as Hdrop.
  { by rewrite app_nil_r. }
  assert (ld (prepare_ok_enc o) 0 = Some 0) as H0 by done.
  revert Hb Hlen Hdrop H0. generalize (prepare_ok_enc o). intros p Hb Hlen Hdrop H0.
  assert (buf_ok p (len p)) as Hp by (split; [lia|lia|done]).
  assert (parses p (prepare_ok_body p (len p)) prepare_ok_zero (drop 1 p) tt o []) as Hparse.
  { rewrite Hdrop. unfold prepare_ok_body. eapply parses_bind; [apply parses_fail_if; by rewrite Hlen|].
    eapply parses_bind; [by apply parses_access|]. eapply parses_bind; [by apply parses_fail_if|].
    eapply parses_bind; [by apply parses_u32|]. eapply parses_bind; [apply parses_out_set|].
    eapply parses_bind; [by apply parses_u16|]. eapply parses_bind; [apply parses_out_set|].
    eapply parses_bind; [by apply parses_u16|]. eapply parses_bind; [apply parses_out_set|]. cbn [app].
    eapply parses_bind; [apply parses_next_byte|]. eapply parses_bind; [by apply parses_fail_if|].
    eapply parses_bind; [by apply parses_u16|].
    eapply parses_bind with (o1 := o); [intros off Hs; exists off; split; [by destruct o|exact Hs]|].
    eapply parses_bind; [apply parses_offset|]. apply parses_fail_if.
    change (len []) with 0. by rewrite Z.sub_0_r, Z.eqb_refl. }
  unfold mysql_wire_decode_stmt_prepare_ok, run_dec.
  destruct (Hparse 1) as (off' & -> & _); [|done]. split_and!; [lia..|done].
Qed.

(** ** Properties *)

(** COM_STMT_EXECUTE is built exactly. For parameters the protocol can
    carry, the builder either leaves in the buffer the ten-byte header, the
    NULL bitmap with exactly the bits of the NULL parameters, the new-types
    marker, every type word and every value in order, and reports their exact
    length, or it does not fit, reports LIMIT and a size of zero. It never
    writes outside the buffer and the bytes after the command keep their
    value. *)
Theorem stmt_execute_exact id vs buf cap n :
  0 <= id < 2 ^ 32 -> Forall stmt_value_ok vs -> len vs <= 0xffff -> 0 <= cap <= len buf -> len buf < 2 ^ 63 ->
  exists buf', length buf' = length buf /\
  mysql_wire_build_stmt_execute id (Some vs) (len vs) (Some buf) cap (Some n) =
    if len (execute_enc id vs) <=? cap
    then (Ret tt, Some (splice buf 0 (execute_enc id vs)), Some (len (execute_enc id vs)))
    else (Err LIMIT, Some buf', Some 0).
Proof. apply build_execute_eq. Qed.
