(* ===== verification/Command.v ===== *)
(** * Commands, server side (tidessql/server/mysql/command.c, include/turbodb/types.h)

    The server's decoder of a complete command and of the parameters of
    COM_STMT_EXECUTE. A double is its 64-bit pattern. *)

From S2P Require Import Prelude Codec Packet Frame Handshake Result Row Statement ServerHandshake.

(** ** Values *)

Record vstr : Type := mk_vstr { vs_data : ptr bytes; vs_len : Z }.
Record turbodb_blob_t : Type := mk_blob { blob_data : ptr bytes; blob_size : Z }.

(** The kind and the union of a value; the last constructor is a kind outside
    the enumeration. *)
Inductive turbodb_value_data_t : Type :=
| TURBODB_VALUE_NULL
| TURBODB_VALUE_INT64 (z : Z)
| TURBODB_VALUE_UINT64 (z : Z)
| TURBODB_VALUE_DOUBLE (bits : Z)
| TURBODB_VALUE_BOOLEAN (b : Z)
| TURBODB_VALUE_TEXT (v : vstr)
| TURBODB_VALUE_BLOB (v : turbodb_blob_t)
| TURBODB_VALUE_unknown (kind : Z).

Record turbodb_value_t : Type := mk_value {
  tv_data : turbodb_value_data_t;
  tv_reserved : Z
}.

Definition turbodb_null : turbodb_value_t := mk_value TURBODB_VALUE_NULL 0.
Definition turbodb_i64 (input : Z) : turbodb_value_t := mk_value (TURBODB_VALUE_INT64 input) 0.
Definition turbodb_u64 (input : Z) : turbodb_value_t := mk_value (TURBODB_VALUE_UINT64 input) 0.
Definition turbodb_f64 (input : Z) : turbodb_value_t := mk_value (TURBODB_VALUE_DOUBLE input) 0.
Definition turbodb_bool (input : Z) : turbodb_value_t :=
  mk_value (TURBODB_VALUE_BOOLEAN (if negb (input =? 0) then 1 else 0)) 0.
Definition turbodb_text_v (input : vstr) : turbodb_value_t := mk_value (TURBODB_VALUE_TEXT input) 0.
Definition turbodb_blob_v (input : turbodb_blob_t) : turbodb_value_t := mk_value (TURBODB_VALUE_BLOB input) 0.
Definition turbodb_blob (data : ptr bytes) (size : Z) : turbodb_value_t := turbodb_blob_v (mk_blob data size).

(** ** Commands *)

Definition TDSQL_MYSQL_QUIT : Z := 0x01.
Definition TDSQL_MYSQL_QUERY : Z := 0x03.
Definition TDSQL_MYSQL_PING : Z := 0x0e.
Definition TDSQL_MYSQL_EXECUTE_HEADER : Z := 10.
Definition TDSQL_MYSQL_STATEMENT_COMMAND : Z := 5.

Record tdsql_mysql_command : Type := mk_command {
  cmd_kind : Z;
  cmd_statement_id : Z;
  cmd_sql : mysql_wire_bytes_t;
  cmd_payload : mysql_wire_bytes_t
}.

Definition command_zero : tdsql_mysql_command := mk_command 0 0 wire_bytes_zero wire_bytes_zero.
Definition cmd_set_id (id : Z) (c : tdsql_mysql_command) : tdsql_mysql_command :=
  mk_command (cmd_kind c) id (cmd_sql c) (cmd_payload c).
Definition cmd_set_sql (sql : mysql_wire_bytes_t) (c : tdsql_mysql_command) : tdsql_mysql_command :=
  mk_command (cmd_kind c) (cmd_statement_id c) sql (cmd_payload c).

(** The function [complete] of command.c. *)
Definition complete_status (e : mysql_wire_status_t) : tdsql_mysql_status :=
  match e with MYSQL_WIRE_STATUS_NEED_MORE => TDSQL_MYSQL_INVALID | e => of_wire e end.

Definition completed {S A} (m : M mysql_wire_status_t S A) : M tdsql_mysql_status S A := map_err complete_status m.

(** The switch of tdsql_mysql_command_decode, on the local command. *)
Definition command_switch (d : bytes) (size : Z) : L tdsql_mysql_command unit :=
  kind ← gets (fun s => cmd_kind (d_out s));
  if (kind =? TDSQL_MYSQL_QUERY) || (kind =? MYSQL_COM_STMT_PREPARE) then
    fail_if (size =? 1) TDSQL_MYSQL_INVALID;;
    text ← access (ldn d 1 (size_sub size 1));
    fail_if (match find_nul text with Some _ => true | None => false end) TDSQL_MYSQL_INVALID;;
    out_set (cmd_set_sql (mk_wire_bytes (Some text) (size_sub size 1) false))
  else if (kind =? TDSQL_MYSQL_PING) || (kind =? TDSQL_MYSQL_QUIT) then
    fail_if (negb (size =? 1)) TDSQL_MYSQL_INVALID
  else if (kind =? MYSQL_COM_STMT_EXECUTE) || (kind =? MYSQL_COM_STMT_CLOSE) || (kind =? MYSQL_COM_STMT_RESET) then
    fail_if (size <? (if kind =? MYSQL_COM_STMT_EXECUTE then TDSQL_MYSQL_EXECUTE_HEADER
                      else TDSQL_MYSQL_STATEMENT_COMMAND)) TDSQL_MYSQL_INVALID;;
    id ← map_err (fun _ => TDSQL_MYSQL_INVALID) (rd_u32 d size);
    out_set (cmd_set_id id);;
    fail_if (id =? 0) TDSQL_MYSQL_INVALID;;
    if kind =? MYSQL_COM_STMT_EXECUTE then
      flags ← next_byte d;
      fail_if (negb (flags =? 0)) TDSQL_MYSQL_UNSUPPORTED;;
      iterations ← map_err (fun _ => TDSQL_MYSQL_INVALID) (rd_u32 d size);
      fail_if (negb (iterations =? 1)) TDSQL_MYSQL_INVALID
    else fail_if (negb (size =? TDSQL_MYSQL_STATEMENT_COMMAND)) TDSQL_MYSQL_INVALID
  else fail TDSQL_MYSQL_UNSUPPORTED.

Definition tdsql_mysql_command_decode (data : ptr bytes) (size max_bytes : Z) (out : ptr tdsql_mysql_command)
    : server_result unit * ptr tdsql_mysql_command :=
  match data, out with
  | Some d, Some _ =>
      if (size =? 0) || (max_bytes =? 0) then (Err TDSQL_MYSQL_INVALID, out)
      else if max_bytes <? size then (Err TDSQL_MYSQL_LIMIT, out)
      else
        match ld d 0, ldn d 0 size with
        | Some kind, Some payload =>
            let command := mk_command kind 0 wire_bytes_zero (mk_wire_bytes (Some payload) size false) in
            match command_switch d size (Dec 1 command) with
            | (Ret _, s) => (Ret tt, Some (d_out s))
            | (Err e, _) => (Err e, out)
            | (Fault, _) => (Fault, out)
            end
        | _, _ => (Fault, out)
        end
  | _, _ => (Err TDSQL_MYSQL_INVALID, out)
  end.

(** ** Parameters of COM_STMT_EXECUTE *)

Definition TDSQL_MYSQL_BYTE_BITS : Z := 8.
Definition TDSQL_MYSQL_TYPE_BYTES : Z := 2.

Definition one_of (z : Z) (l : list Z) : bool := existsb (Z.eqb z) l.

Definition parameter_type (type : Z) : server_result unit :=
  let flags := u8 (Z.shiftr type TDSQL_MYSQL_BYTE_BITS) in
  let kind := u8 type in
  if negb (flags =? 0) && negb (flags =? MYSQL_TYPE_UNSIGNED_FLAG) then Err TDSQL_MYSQL_INVALID
  else if one_of kind [MYSQL_TYPE_LONGLONG; MYSQL_FIELD_TYPE_LONG; MYSQL_FIELD_TYPE_INT24;
                       MYSQL_FIELD_TYPE_SHORT; MYSQL_TYPE_TINY] then Ret tt
  else if one_of kind [MYSQL_TYPE_DOUBLE; MYSQL_FIELD_TYPE_FLOAT; MYSQL_TYPE_NULL; MYSQL_TYPE_VAR_STRING;
                       MYSQL_FIELD_TYPE_STRING; MYSQL_FIELD_TYPE_VARCHAR; MYSQL_TYPE_BLOB;
                       MYSQL_FIELD_TYPE_TINY_BLOB; MYSQL_FIELD_TYPE_MEDIUM_BLOB; MYSQL_FIELD_TYPE_LONG_BLOB]
  then if negb (flags =? 0) then Err TDSQL_MYSQL_INVALID else Ret tt
  else Err TDSQL_MYSQL_UNSUPPORTED.

(** memcpy of an unsigned integer of [bits] bits into a signed one. *)
Definition as_signed (bits raw : Z) : Z := if raw <? 2 ^ (bits - 1) then raw else raw - 2 ^ bits.

(** isfinite on the pattern of a double and of a float. *)
Definition isfinite (bits : Z) : bool := negb (Z.land (Z.shiftr bits 52) 0x7ff =? 0x7ff).
Definition isfinite_float (raw : Z) : bool := negb (Z.land (Z.shiftr raw 23) 0xff =? 0xff).

(** The retained byte count and the array of values the two passes share. *)
Record execute_state : Type := mk_execute_state { es_retained : Z; es_values : ptr (list turbodb_value_t) }.

Definition es_add (n : Z) (s : execute_state) : execute_state :=
  mk_execute_state (es_retained s + n) (es_values s).

Definition parameter_value (d : bytes) (size type max_bytes : Z) : L execute_state turbodb_value_t :=
  let kind := u8 type in
  let unsigned_value := negb (Z.shiftr type TDSQL_MYSQL_BYTE_BITS =? 0) in
  if kind =? MYSQL_TYPE_NULL then mret turbodb_null
  else if kind =? MYSQL_TYPE_LONGLONG then
    word ← completed (rd_u64 d size);
    mret (if unsigned_value then turbodb_u64 word else turbodb_i64 (as_signed 64 word))
  else if (kind =? MYSQL_FIELD_TYPE_LONG) || (kind =? MYSQL_FIELD_TYPE_INT24) then
    small ← completed (rd_u32 d size);
    mret (if unsigned_value then turbodb_u64 small else turbodb_i64 (as_signed 32 small))
  else if kind =? MYSQL_FIELD_TYPE_SHORT then
    short_word ← completed (rd_u16 d size);
    mret (if unsigned_value then turbodb_u64 short_word else turbodb_i64 (as_signed 16 short_word))
  else if kind =? MYSQL_TYPE_TINY then
    off ← offset;
    fail_if (size <=? off) TDSQL_MYSQL_INVALID;;
    byte ← next_byte d;
    mret (if (byte <=? 1) && negb unsigned_value then turbodb_bool byte
          else if unsigned_value then turbodb_u64 byte else turbodb_i64 (as_signed 8 byte))
  else if kind =? MYSQL_TYPE_DOUBLE then
    word ← completed (rd_u64 d size);
    fail_if (negb (isfinite word)) TDSQL_MYSQL_INVALID;;
    mret (turbodb_f64 word)
  else if kind =? MYSQL_FIELD_TYPE_FLOAT then
    small ← completed (rd_u32 d size);
    fail_if (negb (isfinite_float small)) TDSQL_MYSQL_INVALID;;
    mret (turbodb_f64 (float_to_double small))
  else
    v ← completed (rd_lenenc_bytes d size);
    fail_if (wb_is_null v) TDSQL_MYSQL_INVALID;;
    retained ← gets (fun s => es_retained (d_out s));
    fail_if ((max_bytes <? retained) || (size_sub max_bytes retained <? wb_length v)) TDSQL_MYSQL_LIMIT;;
    out_set (es_add (wb_length v));;
    mret (if (kind =? MYSQL_TYPE_VAR_STRING) || (kind =? MYSQL_FIELD_TYPE_STRING) || (kind =? MYSQL_FIELD_TYPE_VARCHAR)
          then turbodb_text_v (mk_vstr (wb_data v) (wb_length v))
          else turbodb_blob (wb_data v) (wb_length v)).

Record execute_layout : Type := mk_layout {
  lay_bitmap : Z; lay_types : Z; lay_values : Z; lay_new_types : bool
}.

Definition layout_zero : execute_layout := mk_layout 0 0 0 false.

(** The layout is written before the check on the room for the types; it is
    only used after success. *)
Definition execute_layout_open (d : bytes) (size count : Z) (valid : bool) : server_result execute_layout :=
  let offset := TDSQL_MYSQL_EXECUTE_HEADER in
  if count =? 0 then (if size =? offset then Ret layout_zero else Err TDSQL_MYSQL_INVALID)
  else
    let bitmap := (count + TDSQL_MYSQL_BYTE_BITS - 1) / TDSQL_MYSQL_BYTE_BITS in
    if (size <? offset) || (size_sub size offset <=? bitmap) then Err TDSQL_MYSQL_INVALID
    else
      let spare :=
        if negb (count mod TDSQL_MYSQL_BYTE_BITS =? 0)
        then match ld d (offset + bitmap - 1) with
             | Some b => Some (negb (Z.shiftr b (count mod TDSQL_MYSQL_BYTE_BITS) =? 0))
             | None => None
             end
        else Some false in
      match spare, ld d (offset + bitmap) with
      | Some true, _ => Err TDSQL_MYSQL_INVALID
      | Some false, Some new_types =>
          let offset := offset + bitmap + 1 in
          if 1 <? new_types then Err TDSQL_MYSQL_INVALID
          else if (new_types =? 0) && negb valid then Err TDSQL_MYSQL_INVALID
          else if negb (new_types =? 0) && (size_sub size offset / TDSQL_MYSQL_TYPE_BYTES <? count)
          then Err TDSQL_MYSQL_INVALID
          else Ret (mk_layout TDSQL_MYSQL_EXECUTE_HEADER offset
                      (if negb (new_types =? 0) then offset + count * TDSQL_MYSQL_TYPE_BYTES else offset)
                      (negb (new_types =? 0)))
      | _, _ => Fault
      end.

Definition execute_type (d : bytes) (layout : execute_layout) (types : list Z) (index : Z) : option Z :=
  if negb (lay_new_types layout) then ld types index
  else
    let at_ := lay_types layout + index * TDSQL_MYSQL_TYPE_BYTES in
    match ld d at_, ld d (at_ + 1) with
    | Some b0, Some b1 => Some (u16 (Z.lor b0 (Z.shiftl b1 TDSQL_MYSQL_BYTE_BITS)))
    | _, _ => None
    end.

(** The loop of execute_values over the [n] parameters from [i] on. *)
Fixpoint execute_value_loop (d : bytes) (size : Z) (layout : execute_layout) (types : list Z) (max_bytes : Z)
    (n : nat) (i : Z) : L execute_state unit :=
  match n with
  | O => mret tt
  | S n =>
      type ← access (execute_type d layout types i);
      lift (parameter_type type);;
      bits ← access (ld d (lay_bitmap layout + i / TDSQL_MYSQL_BYTE_BITS));
      value ← (if Z.land bits (u8 (Z.shiftl 1 (i mod TDSQL_MYSQL_BYTE_BITS))) =? 0
               then parameter_value d size type max_bytes else mret turbodb_null);
      s ← gets d_out;
      match es_values s with
      | None => mret tt
      | Some values =>
          values ← access (set_at values i value);
          out_set (fun s => mk_execute_state (es_retained s) (Some values))
      end;;
      execute_value_loop d size layout types max_bytes n (i + 1)
  end.

Definition execute_values_decode (d : bytes) (size count : Z) (types : list Z) (layout : execute_layout)
    (values : ptr (list turbodb_value_t)) (max_bytes : Z) : server_result unit * ptr (list turbodb_value_t) :=
  let '(r, s) :=
    (execute_value_loop d size layout types max_bytes (Z.to_nat count) 0;;
     off ← offset;
     fail_if (negb (off =? size)) TDSQL_MYSQL_INVALID) (Dec (lay_values layout) (mk_execute_state 0 values)) in
  (r, es_values (d_out s)).

(** The copy of the announced types into the statement's cache. *)
Fixpoint cache_types (d : bytes) (layout : execute_layout) (n : nat) (i : Z) (types : list Z) : option (list Z) :=
  match n with
  | O => Some types
  | S n =>
      match execute_type d layout types i with
      | Some type =>
          match set_at types i type with
          | Some types => cache_types d layout n (i + 1) types
          | None => None
          end
      | None => None
      end
  end.

Definition tdsql_mysql_execute_decode (command : ptr tdsql_mysql_command) (count : Z) (types : ptr (list Z))
    (type_capacity : Z) (valid : ptr bool) (values : ptr (list turbodb_value_t)) (value_capacity max_bytes : Z)
    : server_result unit * ptr (list Z) * ptr bool * ptr (list turbodb_value_t) :=
  let give r := (r, types, valid, values) in
  match command, valid with
  | Some c, Some is_valid =>
      if (max_bytes =? 0) ||
         match types, values with Some _, Some _ => false | _, _ => negb (count =? 0) end
      then give (Err TDSQL_MYSQL_INVALID)
      else if (0xffff <? count) || (type_capacity <? count) || (value_capacity <? count)
      then give (Err TDSQL_MYSQL_LIMIT)
      else
        let size := wb_length (cmd_payload c) in
        match tdsql_mysql_command_decode (wb_data (cmd_payload c)) size size (Some command_zero) with
        | (Ret _, Some verified) =>
            if negb (cmd_kind verified =? MYSQL_COM_STMT_EXECUTE) ||
               negb (cmd_statement_id verified =? cmd_statement_id c)
            then give (Err TDSQL_MYSQL_INVALID)
            else
              let d := default [] (wb_data (cmd_payload c)) in
              match execute_layout_open d size count is_valid with
              | Ret layout =>
                  if count =? 0 then give (Ret tt)
                  else
                    let ts := default [] types in
                    match execute_values_decode d size count ts layout None max_bytes with
                    | (Ret _, _) =>
                        match execute_values_decode d size count ts layout values max_bytes with
                        | (Ret _, values) =>
                            match (if lay_new_types layout then cache_types d layout (Z.to_nat count) 0 ts
                                   else Some ts) with
                            | Some ts => (Ret tt, Some ts, Some true, values)
                            | None => (Fault, types, valid, values)
                            end
                        | (r, values) => (r, types, valid, values)
                        end
                    | (r, _) => give r
                    end
              | Err e => give (Err e)
              | Fault => give Fault
              end
        | (Err e, _) => give (Err e)
        | (_, _) => give Fault
        end
  | _, _ => give (Err TDSQL_MYSQL_INVALID)
  end.

(** ** Safety of the command decoder *)

(** What a decoded command looks like. *)
Definition command_ok (p : bytes) (size : Z) (c : tdsql_mysql_command) : Prop :=
  cmd_payload c = mk_wire_bytes (ldn p 0 size) size false /\ ld p 0 = Some (cmd_kind c) /\
  match cmd_kind c with
  | 0x03 | 0x16 => exists sql, sql <> [] /\ text_ok sql /\ cmd_sql c = wire_bytes_of sql /\ len sql = size - 1
  | 0x01 | 0x0e => size = 1 /\ cmd_sql c = wire_bytes_zero
  | 0x17 => 10 <= size /\ 0 < cmd_statement_id c < 2 ^ 32 /\ cmd_statement_id c = le_at p 1 4
  | 0x19 | 0x1a => size = 5 /\ 0 < cmd_statement_id c < 2 ^ 32 /\ cmd_statement_id c = le_at p 1 4
  | _ => False
  end.

Lemma wp_command_switch p size kind payload :
  buf_ok p size -> 1 <= size -> ld p 0 = Some kind -> ldn p 0 size = Some payload ->
  wp (command_switch p size) (fun _ s => command_ok p size (d_out s))
    (fun e _ => e = TDSQL_MYSQL_INVALID \/ e = TDSQL_MYSQL_UNSUPPORTED)
    (Dec 1 (mk_command kind 0 wire_bytes_zero (mk_wire_bytes (Some payload) size false))).
Proof.
  intros Hp Hs Hk Hpl. pose proof Hp as [Hsz Hm Hb]. unfold command_switch. dec_step. apply wp_gets. cbn [d_out cmd_kind].
  pose proof (le_at_range p 1 4 Hb) as Hle.
  destruct ((kind =? TDSQL_MYSQL_QUERY) || (kind =? MYSQL_COM_STMT_PREPARE)) eqn:E1.
  { repeat dec_step; [by left|]. bsimp. rewrite size_sub_small by lia.
    apply (wp_access_ldn p size Hp); [lia..|]. intros sql Hl Hok. dec_step.
    apply wp_fail_if; [by left|]. intros Hn. dec_step.
    assert (text_ok sql) as Ht by (apply find_nul_None; [by destruct (find_nul sql)|done]).
    assert (exists sql', sql' <> [] /\ text_ok sql' /\
      mk_wire_bytes (Some sql) (size - 1) false = wire_bytes_of sql' /\ len sql' = size - 1) as Hex.
    { exists sql. split_and!; try done; [intros ->; cbn in Hl; lia|]. unfold wire_bytes_of. by rewrite Hl. }
    split; [cbn; by rewrite Hpl|]. split; [done|]. cbn [cmd_kind cmd_set_sql cmd_sql].
    destruct E1 as [->%Z.eqb_eq | ->%Z.eqb_eq]; exact Hex. }
  destruct ((kind =? TDSQL_MYSQL_PING) || (kind =? TDSQL_MYSQL_QUIT)) eqn:E2.
  { repeat dec_step; [by left|]. bsimp. split; [cbn; by rewrite Hpl|]. split; [done|]. cbn [cmd_kind cmd_sql].
    destruct E2 as [->%Z.eqb_eq | ->%Z.eqb_eq]; done. }
  destruct ((kind =? MYSQL_COM_STMT_EXECUTE) || _ || _) eqn:E3; [|dec_step; by right].
  dec_step. apply wp_fail_if; [by left|]. intros Hmin. dec_step. apply wp_map_err.
  apply wp_rd_u32; [done|lia| |by left]. intros Hl. repeat dec_step; [by left|]. bsimp.
  destruct (Z.eqb_spec kind MYSQL_COM_STMT_EXECUTE) as [->|Hne].
  - unfold TDSQL_MYSQL_EXECUTE_HEADER in Hmin.
    dec_step. apply (wp_next_byte p size Hp); [lia|]. intros flags _. dec_step. apply wp_fail_if; [by right|]. intros _.
    dec_step. apply wp_map_err. apply wp_rd_u32; [done|lia| |by left]. intros Hl2.
    apply wp_fail_if; [by left|]. intros _. split; [cbn; by rewrite Hpl|]. split; [done|]. cbn. lia.
  - apply wp_fail_if; [by left|]. intros Hsize. bsimp. split; [cbn; by rewrite Hpl|]. split; [done|].
    cbn [cmd_kind cmd_statement_id cmd_set_id]. destruct E3 as [E3|E3]; cbn [orb] in E3; apply Z.eqb_eq in E3;
      subst kind; cbn; unfold TDSQL_MYSQL_STATEMENT_COMMAND in *; lia.
Qed.

Lemma command_decode_total p size max_bytes c0 :
  buf_ok p size ->
  exists r c, tdsql_mysql_command_decode (Some p) size max_bytes (Some c0) = (r, Some c) /\
    (r = Ret tt /\ 1 <= size <= max_bytes /\ command_ok p size c \/
     (r = Err TDSQL_MYSQL_INVALID \/ r = Err TDSQL_MYSQL_LIMIT \/ r = Err TDSQL_MYSQL_UNSUPPORTED) /\ c = c0).
Proof.
  intros Hp. pose proof Hp as [Hs _ _]. unfold tdsql_mysql_command_decode.
  destruct ((size =? 0) || (max_bytes =? 0)) eqn:E1; [eauto 10|]. bsimp.
  destruct (Z.ltb_spec max_bytes size); [eauto 10|].
  destruct (ld_is_Some p 0) as [kind Hk]; [lia|]. rewrite Hk.
  destruct (ldn p 0 size) as [payload|] eqn:Hpl; [|rewrite ldn_Some in Hpl by lia; done].
  pose proof (wp_command_switch p size kind payload Hp ltac:(lia) Hk Hpl) as Hwp. unfold wp in Hwp.
  destruct (command_switch p size _) as [[[]|e|] s]; [..|done].
  - exists (Ret tt), (d_out s). split; [done|]. left. split_and!; [done|lia|lia|done].
  - destruct Hwp as [-> | ->]; eauto 10.
Qed.

(** ** Safety of the parameter decoder *)

(** A decoded parameter. *)
Definition parameter_ok (v : turbodb_value_t) : Prop :=
  tv_reserved v = 0 /\
  match tv_data v with
  | TURBODB_VALUE_NULL => True
  | TURBODB_VALUE_INT64 z => - 2 ^ 63 <= z < 2 ^ 63
  | TURBODB_VALUE_UINT64 z => 0 <= z < 2 ^ 64
  | TURBODB_VALUE_DOUBLE bits => isfinite bits = true \/ exists raw, isfinite_float raw = true /\ bits = float_to_double raw
  | TURBODB_VALUE_BOOLEAN b => b = 0 \/ b = 1
  | TURBODB_VALUE_TEXT t => exists l, bytes_ok l /\ t = mk_vstr (Some l) (len l)
  | TURBODB_VALUE_BLOB t => exists l, bytes_ok l /\ t = mk_blob (Some l) (len l)
  | TURBODB_VALUE_unknown _ => False
  end.

Definition refused (e : tdsql_mysql_status) : Prop :=
  e = TDSQL_MYSQL_INVALID \/ e = TDSQL_MYSQL_LIMIT \/ e = TDSQL_MYSQL_UNSUPPORTED.

Lemma as_signed_range bits raw :
  1 <= bits <= 64 -> 0 <= raw < 2 ^ bits -> - 2 ^ 63 <= as_signed bits raw < 2 ^ 63.
Proof.
  intros Hb Hr. unfold as_signed. assert (2 ^ bits = 2 * 2 ^ (bits - 1)) by (rewrite <- Z.pow_succ_r by lia; f_equal; lia).
  assert (2 ^ (bits - 1) <= 2 ^ 63) by (apply Z.pow_le_mono_r; lia).
  destruct (Z.ltb_spec raw (2 ^ (bits - 1))); lia.
Qed.

Section ParameterSafe.
Context (p : bytes) (size max_bytes : Z) (Hp : buf_ok p size) (Hmax : 0 <= max_bytes < 2 ^ 64).

Lemma wp_parameter_value type off r vs :
  0 <= off <= size -> 0 <= r <= max_bytes ->
  wp (parameter_value p size type max_bytes)
    (fun v s => parameter_ok v /\ off <= d_off s <= size /\
       exists r', d_out s = mk_execute_state r' vs /\ r <= r' <= max_bytes)
    (fun e s => refused e /\ es_values (d_out s) = vs) (Dec off (mk_execute_state r vs)).
Proof.
  intros Ho Hr. pose proof Hp as [_ Hm Hb]. unfold parameter_value.
  assert (forall n, 0 <= le_at p off n < 2 ^ (8 * Z.of_nat n)) as Hle by (intros; by apply le_at_range).
  assert (forall v off', parameter_ok v -> off <= off' <= size ->
    parameter_ok v /\ off <= off' <= size /\
      exists r', mk_execute_state r vs = mk_execute_state r' vs /\ r <= r' <= max_bytes) as Hdone.
  { intros. split_and!; try done; try lia. exists r. split; [done|lia]. }
  assert (forall s, es_values (d_out s) = vs -> refused TDSQL_MYSQL_INVALID /\ es_values (d_out s) = vs) as Hinv.
  { intros. split; [by left|done]. }
  repeat match goal with |- wp (if ?b then _ else _) _ _ _ => destruct b eqn:? end.
  - apply wp_ret, Hdone; [done|cbn; lia].
  - dec_step. apply wp_map_err, wp_rd_u64; [done|lia| |by intros; apply Hinv]. intros. apply wp_ret, Hdone; [|cbn; lia].
    case_match; (split; [done|]); cbn; [apply (Hle 8%nat)|apply as_signed_range; [lia|apply (Hle 8%nat)]].
  - dec_step. apply wp_map_err, wp_rd_u32; [done|lia| |by intros; apply Hinv]. intros. apply wp_ret, Hdone; [|cbn; lia].
    pose proof (Hle 4%nat) as H4. change (2 ^ (8 * Z.of_nat 4)) with (2 ^ 32) in H4.
    case_match; (split; [done|]); cbn; [lia|apply as_signed_range; [lia|apply (Hle 4%nat)]].
  - dec_step. apply wp_map_err, wp_rd_u16; [done|lia| |by intros; apply Hinv]. intros. apply wp_ret, Hdone; [|cbn; lia].
    pose proof (Hle 2%nat) as H2. change (2 ^ (8 * Z.of_nat 2)) with (2 ^ 16) in H2.
    case_match; (split; [done|]); cbn; [lia|apply as_signed_range; [lia|apply (Hle 2%nat)]].
  - repeat dec_step; [by apply Hinv|]. bsimp. apply (wp_next_byte p size Hp); [lia|]. intros b Hbb.
    apply wp_ret, Hdone; [|cbn; lia]. repeat case_match; (split; [done|]); cbn; bsimp; try lia.
    + case_match; lia.
    + apply as_signed_range; lia.
  - dec_step. apply wp_map_err, wp_rd_u64; [done|lia| |by intros; apply Hinv]. intros. dec_step.
    apply wp_fail_if; [by intros; apply Hinv|]. intros Hf%negb_false_iff. apply wp_ret, Hdone; [|cbn; lia].
    split; [done|]. by left.
  - dec_step. apply wp_map_err, wp_rd_u32; [done|lia| |by intros; apply Hinv]. intros. dec_step.
    apply wp_fail_if; [by intros; apply Hinv|]. intros Hf%negb_false_iff. apply wp_ret, Hdone; [|cbn; lia].
    split; [done|]. cbn. eauto.
  - dec_step. apply wp_map_err, wp_rd_lenenc_bytes; [done|lia| |intros e [-> | ->]; by apply Hinv].
    intros v off' Ho' Hv. dec_step. apply wp_fail_if; [by intros; apply Hinv|]. intros Hn.
    destruct Hv as [->|(l & -> & Hl)]; [done|]. dec_step. apply wp_gets. cbn [d_out es_retained wb_length wire_bytes_of].
    dec_step. apply wp_fail_if; [by split; [right; left|]|]. intros Hlim. bsimp. rewrite size_sub_small in * by lia.
    repeat dec_step. split.
    + split; [by destruct (_ || _)|]. destruct (_ || _); cbn; eauto.
    + split; [cbn; lia|]. cbn. eexists. split; [done|]. cbn. lia.
Qed.
End ParameterSafe.

(** ** The two passes agree

    The first pass runs without an array of values, the second with one. Apart
    from the array they do the same. *)

Definition with_values (vs : ptr (list turbodb_value_t)) (s : dec execute_state) : dec execute_state :=
  Dec (d_off s) (mk_execute_state (es_retained (d_out s)) vs).

Definition blind {A} (m : L execute_state A) : Prop :=
  forall vs s, m (with_values vs s) = let '(r, s') := m s in (r, with_values vs s').

Section Blind.
Implicit Types (d : bytes) (size : Z).

Lemma blind_bind {A C} (m : L execute_state A) (k : A -> L execute_state C) :
  blind m -> (forall a, blind (k a)) -> blind (m ≫= k).
Proof.
  intros Hm Hk vs s. unfold mbind, M_bind. rewrite Hm. destruct (m s) as [[a|e|] s']; [|done..]. apply Hk.
Qed.

Lemma blind_ret {A} (a : A) : blind (mret a).
Proof. done. Qed.

Lemma blind_fail_if c e : blind (fail_if c e).
Proof. done. Qed.

Lemma blind_offset : blind offset.
Proof. done. Qed.

Lemma blind_next_byte d : blind (next_byte d).
Proof.
  apply blind_bind; [apply blind_offset|]. intros off. apply blind_bind; [by intros vs s|]. intros b.
  by apply blind_bind.
Qed.

Lemma blind_call_reader f : blind (completed (call_reader f)).
Proof. intros vs s. unfold completed, map_err, call_reader. cbn [d_off with_values]. repeat case_match; by simplify_eq. Qed.

Lemma blind_lenenc_bytes d size : blind (completed (rd_lenenc_bytes d size)).
Proof. intros vs s. unfold completed, map_err, rd_lenenc_bytes. cbn [d_off with_values]. repeat case_match; by simplify_eq. Qed.

Lemma blind_parameter_value d size type max_bytes : blind (parameter_value d size type max_bytes).
Proof.
  unfold parameter_value.
  repeat match goal with |- blind (if ?b then _ else _) => destruct b end.
  all: repeat first
    [ apply blind_ret | apply blind_fail_if | apply blind_call_reader | apply blind_lenenc_bytes
    | apply blind_offset | apply blind_next_byte | by intros vs s
    | apply blind_bind; [|intros ?] ].
Qed.
End Blind.

Section LoopSafe.
Context (p : bytes) (size max_bytes count : Z) (types : list Z) (layout : execute_layout).
Context (Hp : buf_ok p size) (Hmax : 0 <= max_bytes < 2 ^ 64) (Hcount : 0 <= count).

(** A layout the checks of execute_layout_open let through. *)
Definition layout_ok : Prop :=
  0 <= lay_bitmap layout /\ lay_bitmap layout + (count + 7) / 8 <= size /\
  0 <= lay_values layout <= size /\
  if lay_new_types layout then 0 <= lay_types layout /\ lay_types layout + count * 2 <= size
  else count <= len types.

Context (Hlay : layout_ok).

Lemma execute_type_Some i : 0 <= i < count -> is_Some (execute_type p layout types i).
Proof.
  intros Hi. destruct Hlay as (_ & _ & _ & Hl). destruct Hp as [Hs _ _]. unfold execute_type, TDSQL_MYSQL_TYPE_BYTES.
  destruct (lay_new_types layout); cbn [negb].
  - destruct (ld_is_Some p (lay_types layout + i * 2)) as [b0 ->]; [lia|].
    destruct (ld_is_Some p (lay_types layout + i * 2 + 1)) as [b1 ->]; [lia|]. by eexists.
  - apply ld_is_Some. lia.
Qed.

Lemma bitmap_byte_Some i : 0 <= i < count -> is_Some (ld p (lay_bitmap layout + i / 8)).
Proof.
  intros Hi. destruct Hlay as (Hb & Hb2 & _). destruct Hp as [Hs _ _]. apply ld_is_Some.
  pose proof (Z.div_pos i 8 ltac:(lia) ltac:(lia)).
  assert (i / 8 < (count + 7) / 8); [|lia]. apply Z.div_lt_upper_bound; [lia|].
  pose proof (Z.div_mod (count + 7) 8 ltac:(lia)). pose proof (Z.mod_pos_bound (count + 7) 8 ltac:(lia)). lia.
Qed.

Lemma parameter_type_total type : parameter_type type <> Fault.
Proof. unfold parameter_type. by repeat case_match. Qed.

(** The values from [i] on are parameters; those before and past the end stay. *)
Lemma wp_value_loop n : forall i off r pre old tail,
  i = len pre -> length old = n -> i + Z.of_nat n = count -> 0 <= off <= size -> 0 <= r <= max_bytes ->
  wp (execute_value_loop p size layout types max_bytes n i)
    (fun _ s => 0 <= d_off s <= size /\ 0 <= es_retained (d_out s) <= max_bytes /\
       exists new, es_values (d_out s) = Some (pre ++ new ++ tail) /\ length new = n /\ Forall parameter_ok new)
    (fun e s => refused e) (Dec off (mk_execute_state r (Some (pre ++ old ++ tail)))).
Proof.
  induction n as [|n IH]; intros i off r pre old tail Hi Hold Hn Ho Hr; cbn [execute_value_loop].
  { destruct old; [|done]. apply wp_ret. cbn. split_and!; try lia. exists []. by split_and!. }
  destruct old as [|v0 old]; [done|]. injection Hold as Hold.
  dec_step. apply wp_access; [apply execute_type_Some; lia|]. intros type _. dec_step.
  apply wp_lift; [apply parameter_type_total| |].
  2: { unfold parameter_type, refused. intros e. repeat case_match; first [discriminate|intros [= <-]; tauto]. }
  intros _ _. dec_step. apply wp_access; [apply bitmap_byte_Some; lia|]. intros b _. dec_step.
  apply wp_mono with (R := fun e _ => refused e)
    (Q := fun v s => parameter_ok v /\ 0 <= d_off s <= size /\
       exists r', d_out s = mk_execute_state r' (Some (pre ++ v0 :: old ++ tail)) /\ 0 <= r' <= max_bytes); [| |done].
  { wp_step; [|apply wp_ret; split_and!; [done..|cbn; lia|cbn; lia|cbn; eauto]].
    eapply wp_mono; [by apply wp_parameter_value|..].
    - intros v s (H1 & H2 & r' & H3 & H4). split_and!; try done; try lia. exists r'. split; [done|lia].
    - by intros e s [He _]. }
  intros v [off' o'] (Hv & Ho' & r' & Heq & Hr'). cbn [d_off d_out] in *. subst o'. dec_step. apply wp_gets.
  cbn [d_out es_values]. dec_step. dec_step. cbn [app]. rewrite set_at_middle by done.
  apply wp_access; [eauto|]. intros ? [= <-]. repeat dec_step. cbn [es_retained].
  change (v :: old ++ tail) with ([v] ++ old ++ tail). rewrite app_assoc.
  eapply wp_mono; [apply (IH (i + 1) off' r' (pre ++ [v]) old tail)|..]; try done; try lia.
  - rewrite length_app. cbn [length]. lia.
  - intros _ s (H1 & H2 & new & H3 & H4 & H5). split_and!; try done; try lia. exists (v :: new).
    rewrite H3, <- app_assoc. split_and!; try done; [cbn; lia|]. by apply Forall_cons_2.
Qed.

End LoopSafe.

(** [m] returns the same with an array of [n] values as without one. *)
Definition agrees {A} (n : Z) (m : L execute_state A) : Prop :=
  forall s vs, es_values (d_out s) = None -> n <= len vs ->
  exists vs', length vs' = length vs /\ es_values (d_out (m s).2) = None /\
    m (with_values (Some vs) s) = ((m s).1, with_values (Some vs') (m s).2).

Lemma agrees_bind {A C} n (m : L execute_state A) (k : A -> L execute_state C) :
  agrees n m -> (forall a, agrees n (k a)) -> agrees n (m ≫= k).
Proof.
  intros Hm Hk s vs Hs Hl. destruct (Hm s vs Hs Hl) as (vs1 & Hl1 & Hs1 & Heq). unfold mbind, M_bind. rewrite Heq.
  destruct (m s) as [[a|e|] s1]; cbn [fst snd] in *; [|by exists vs1..].
  destruct (Hk a s1 vs1 Hs1 ltac:(lia)) as (vs2 & Hl2 & Hs2 & Heq2). exists vs2. split_and!; [lia|done..].
Qed.

Lemma agrees_blind {A} n (m : L execute_state A) : blind m -> agrees n m.
Proof.
  intros Hm s vs Hs Hl. exists vs. pose proof (Hm None s) as Hnone.
  assert (with_values None s = s) as Hw.
  { destruct s as [off [r v]]. unfold with_values. cbn in *. by subst v. }
  rewrite Hw in Hnone. split; [done|]. rewrite Hm. destruct (m s) as [r s1]. injection Hnone as Hs1. split; [|done].
  cbn [snd]. rewrite Hs1. done.
Qed.

Lemma agrees_value_loop d size layout types max_bytes n : forall i N,
  0 <= i -> i + Z.of_nat n <= N -> agrees N (execute_value_loop d size layout types max_bytes n i).
Proof.
  induction n as [|n IH]; intros i N Hi Hn; cbn [execute_value_loop]; [by apply agrees_blind|].
  apply agrees_bind; [by apply agrees_blind|]. intros type. apply agrees_bind; [by apply agrees_blind|]. intros _.
  apply agrees_bind; [by apply agrees_blind|]. intros b. apply agrees_bind.
  { apply agrees_blind. case_match; [apply blind_parameter_value|done]. }
  intros v.
  assert (agrees N (s ← gets d_out;
    match es_values s with
    | None => mret tt
    | Some values =>
        values ← access (set_at values i v);
        out_set (fun s => mk_execute_state (es_retained s) (Some values))
    end;;
    execute_value_loop d size layout types max_bytes n (i + 1))) as Hstore; [|exact Hstore].
  intros s vs Hs Hl.
  destruct (IH (i + 1) N ltac:(lia) ltac:(lia) s (<[Z.to_nat i := v]> vs) Hs) as (vs' & Hl' & Hs' & Heq).
  { rewrite length_insert. lia. }
  exists vs'. rewrite length_insert in Hl'. split; [done|].
  unfold mbind, M_bind, gets, access. cbn [with_values d_out es_values]. rewrite Hs, set_at_Some by lia.
  unfold out_set, modify. cbn [d_out es_retained d_off]. split; [exact Hs'|exact Heq].
Qed.

(** ** The layout *)

Lemma layout_open_ok p size count valid types :
  buf_ok p size -> 0 < count -> count <= 0xffff -> count <= len types ->
  match execute_layout_open p size count valid with
  | Ret layout => layout_ok size count types layout
  | Err e => refused e
  | Fault => False
  end.
Proof.
  intros Hp Hc Hc2 Ht. pose proof Hp as [Hs Hm Hb].
  unfold execute_layout_open, TDSQL_MYSQL_EXECUTE_HEADER, TDSQL_MYSQL_BYTE_BITS, TDSQL_MYSQL_TYPE_BYTES.
  destruct (Z.eqb_spec count 0) as [|_]; [lia|]. replace (count + 8 - 1) with (count + 7) by lia.
  assert (1 <= (count + 7) / 8) as Hbm by (apply Z.div_le_lower_bound; lia).
  assert (refused TDSQL_MYSQL_INVALID) as Hinv by (by left).
  destruct (Z.ltb_spec size 10); [done|]. cbn [orb]. rewrite (size_sub_small size 10) by lia.
  destruct (Z.leb_spec (size - 10) ((count + 7) / 8)); [done|].
  destruct (ld_is_Some p (10 + (count + 7) / 8 - 1)) as [b1 ->]; [lia|].
  destruct (ld_is_Some p (10 + (count + 7) / 8)) as [nt ->]; [lia|].
  destruct (if negb (count mod 8 =? 0) then _ else _) as [[]|] eqn:Hsp; [done| |by destruct (negb (count mod 8 =? 0))].
  destruct (1 <? nt); [done|]. destruct ((nt =? 0) && negb valid); [done|].
  rewrite size_sub_small by lia.
  destruct (negb (nt =? 0)) eqn:Hnt; cbn [andb]; [|split_and!; cbn; lia].
  destruct (Z.ltb_spec ((size - (10 + (count + 7) / 8 + 1)) / 2) count); [done|].
  pose proof (Z.mul_div_le (size - (10 + (count + 7) / 8 + 1)) 2 ltac:(lia)). split_and!; cbn; lia.
Qed.

Lemma cache_types_Some p size count layout n : forall i types,
  buf_ok p size -> layout_ok size count types layout -> lay_new_types layout = true ->
  0 <= i -> i + Z.of_nat n = count -> count <= len types ->
  exists types', cache_types p layout n i types = Some types' /\ length types' = length types /\
    drop (Z.to_nat count) types' = drop (Z.to_nat count) types.
Proof.
  induction n as [|n IH]; intros i types Hp Hlay Hnew Hi Hn Hl; cbn [cache_types]; [by exists types|].
  destruct (execute_type_Some p size count types layout Hp Hlay i) as [type ->]; [lia|].
  rewrite set_at_Some by lia.
  destruct (IH (i + 1) (<[Z.to_nat i := type]> types)) as (types' & -> & Hl' & Hd'); try done; try lia.
  - unfold layout_ok in *. by rewrite Hnew in *.
  - rewrite length_insert. lia.
  - exists types'. rewrite length_insert in Hl'. split_and!; try done. rewrite Hd', drop_insert_lt by lia. done.
Qed.

(** The passes: without values, and with an array of at least [count]. *)
Lemma execute_passes p size count types layout max_bytes values :
  buf_ok p size -> 0 <= max_bytes < 2 ^ 64 -> 0 <= count -> layout_ok size count types layout -> count <= len values ->
  exists r vs', execute_values_decode p size count types layout None max_bytes = (r, None) /\
    execute_values_decode p size count types layout (Some values) max_bytes = (r, Some vs') /\
    (r = Ret tt /\ length vs' = length values /\ drop (Z.to_nat count) vs' = drop (Z.to_nat count) values /\
       Forall parameter_ok (take (Z.to_nat count) vs') \/ exists e, r = Err e /\ refused e).
Proof.
  intros Hp Hmax Hc Hlay Hl. unfold execute_values_decode. set (n := Z.to_nat count).
  pose proof (wp_value_loop p size max_bytes count types layout Hp Hmax Hlay n 0 (lay_values layout) 0 []
    (take n values) (drop n values)) as Hwp. cbn [app] in Hwp. rewrite take_drop in Hwp.
  pose proof Hlay as (_ & _ & Hv & _).
  specialize (Hwp eq_refl ltac:(rewrite length_take; lia) ltac:(lia) ltac:(lia) ltac:(lia)). unfold wp in Hwp.
  destruct (agrees_value_loop p size layout types max_bytes n 0 (len values) ltac:(lia) ltac:(lia)
    (Dec (lay_values layout) (mk_execute_state 0 None)) values eq_refl ltac:(lia)) as (vs' & Hl' & Hnone & Heq).
  change (with_values (Some values) (Dec (lay_values layout) (mk_execute_state 0 None)))
    with (Dec (lay_values layout) (mk_execute_state 0 (Some values))) in Heq.
  rewrite Heq in Hwp. unfold mbind, M_bind, offset, gets, fail_if. rewrite Heq.
  destruct (execute_value_loop p size layout types max_bytes n 0 _) as [[[]|e|] s]; cbn [fst snd] in *.
  - destruct Hwp as (_ & _ & new & Hnew & Hlen & Hok). cbn [es_values d_out with_values] in Hnew.
    injection Hnew as Hnew. cbn [d_off with_values]. exists (if negb (d_off s =? size) then Err TDSQL_MYSQL_INVALID else Ret tt), vs'.
    rewrite Hnone. split; [done|]. split; [done|]. destruct (negb (d_off s =? size)).
    + right. eexists. split; [done|by left].
    + left. rewrite Hnew. rewrite length_app, length_drop, drop_app_length', take_app_length' by done.
      split_and!; try done. lia.
  - exists (Err e), vs'. rewrite Hnone. split_and!; try done. right. eauto.
  - done.
Qed.

(** ** Properties *)

(** Decoding the parameters of COM_STMT_EXECUTE is memory safe and all or
    nothing. For every payload and every parameter count that the caller's
    arrays have room for, either the call is refused and the types cache, its
    valid flag and the values are exactly what they were, or it succeeds; then
    every parameter is a well-formed value (finite doubles, boolean 0 or 1,
    views of payload bytes), and array elements past the count are untouched. *)
Theorem execute_decode_all_or_nothing p kind id sql count types tcap valid values vcap max_bytes :
  buf_ok p (len p) -> 0 <= max_bytes < 2 ^ 64 -> 0 <= count -> tcap <= len types -> vcap <= len values ->
  exists r types' valid' values',
    tdsql_mysql_execute_decode (Some (mk_command kind id sql (wire_bytes_of p))) count (Some types) tcap (Some valid)
      (Some values) vcap max_bytes = (r, Some types', Some valid', Some values') /\
    ((exists e, r = Err e /\ refused e) /\ types' = types /\ valid' = valid /\ values' = values \/
     r = Ret tt /\ length types' = length types /\ length values' = length values /\
       drop (Z.to_nat count) types' = drop (Z.to_nat count) types /\
       drop (Z.to_nat count) values' = drop (Z.to_nat count) values /\
       Forall parameter_ok (take (Z.to_nat count) values')).
Proof.
  intros Hp Hmax Hc Ht Hv. unfold tdsql_mysql_execute_decode, refused. rewrite orb_false_r.
  destruct (max_bytes =? 0); [eauto 15|].
  destruct ((0xffff <? count) || (tcap <? count) || (vcap <? count)) eqn:E; [eauto 15|]. bsimp.
  cbn [cmd_payload wb_data wb_length wire_bytes_of].
  destruct (command_decode_total p (len p) (len p) command_zero Hp) as (r & c & -> & Hr).
  destruct Hr as [(-> & Hs & Hcmd)|[Hr ->]]; [|destruct Hr as [->|[->| ->]]; eauto 15].
  destruct (negb _ || negb _); [eauto 15|]. change (default [] (Some p)) with p. change (default [] (Some types)) with types.
  destruct (Z.eqb_spec count 0) as [->|Hne].
  { unfold execute_layout_open. rewrite Z.eqb_refl. destruct (len p =? _); [|eauto 15].
    do 4 eexists. split; [done|]. right. by split_and!. }
  pose proof (layout_open_ok p (len p) count valid types Hp ltac:(lia) ltac:(lia) ltac:(lia)) as Hlay.
  destruct (execute_layout_open p (len p) count valid) as [layout|e|]; [|by eauto 15|done].
  destruct (execute_passes p (len p) count types layout max_bytes values Hp Hmax Hc Hlay ltac:(lia))
    as (r & vs' & -> & -> & Hr). destruct Hr as [(-> & Hl & Hd & Hok)|(e & -> & He)]; [|by eauto 15].
  destruct (lay_new_types layout) eqn:Hnew; [|by eauto 20].
  destruct (cache_types_Some p (len p) count layout (Z.to_nat count) 0 types Hp Hlay Hnew) as (ts & -> & Hts & Hdt);
    [lia..|]. by eauto 20.
Qed.

(** ** From the client's builder to the server's decoder *)

(** The value the server sees for a parameter of the client. *)
Definition server_value (v : mysql_stmt_value_t) : turbodb_value_t :=
  match v with
  | MYSQL_STMT_VALUE_SINT64 z => turbodb_i64 z
  | MYSQL_STMT_VALUE_UINT64 z => turbodb_u64 z
  | MYSQL_STMT_VALUE_DOUBLE bits => turbodb_f64 bits
  | MYSQL_STMT_VALUE_BOOL b => turbodb_bool b
  | MYSQL_STMT_VALUE_TEXT s => turbodb_text_v (mk_vstr (Some (stmt_bytes s)) (len (stmt_bytes s)))
  | MYSQL_STMT_VALUE_BLOB s => turbodb_blob (Some (stmt_bytes s)) (len (stmt_bytes s))
  | _ => turbodb_null
  end.

(** The server takes finite doubles only. *)
Definition stmt_finite (v : mysql_stmt_value_t) : Prop :=
  match v with MYSQL_STMT_VALUE_DOUBLE bits => isfinite bits = true | _ => True end.

(** The bytes a parameter adds to the retained count. *)
Definition stmt_retained (v : mysql_stmt_value_t) : Z :=
  match v with
  | MYSQL_STMT_VALUE_TEXT s | MYSQL_STMT_VALUE_BLOB s => len (stmt_bytes s)
  | _ => 0
  end.

Definition retained_sum (vs : list mysql_stmt_value_t) : Z := foldr (fun v n => stmt_retained v + n) 0 vs.

Definition type_word (v : mysql_stmt_value_t) : Z := fst (stmt_type v) + 256 * snd (stmt_type v).

Lemma parameter_type_word v : parameter_type (type_word v) = Ret tt.
Proof. by destruct v. Qed.

Lemma as_signed_u64 z : - 2 ^ 63 <= z < 2 ^ 63 -> as_signed 64 (z mod 2 ^ 64) = z.
Proof.
  intros Hz. unfold as_signed. change (64 - 1) with 63. destruct (Z.le_gt_cases 0 z).
  - rewrite Z.mod_small by lia. destruct (Z.ltb_spec z (2 ^ 63)); lia.
  - assert (z mod 2 ^ 64 = z + 2 ^ 64) as -> by (rewrite <- (Z.mod_add z 1), Z.mod_small by lia; lia).
    destruct (Z.ltb_spec (z + 2 ^ 64) (2 ^ 63)); lia.
Qed.

Lemma retained_nonneg vs : 0 <= retained_sum vs.
Proof.
  induction vs as [|v vs IH]; [done|]. change (0 <= stmt_retained v + retained_sum vs).
  destruct v; cbn [stmt_retained]; lia.
Qed.

Section ExecuteParses.
Context (p : bytes) (max_bytes : Z) (Hp : buf_ok p (len p)) (Hmax : 0 <= max_bytes < 2 ^ 64).

Lemma parses_parameter v r vs l :
  stmt_value_ok v -> stmt_finite v -> stmt_null v = false -> 0 <= r -> r + stmt_retained v <= max_bytes ->
  parses p (parameter_value p (len p) (type_word v) max_bytes) (mk_execute_state r vs) (stmt_value_enc v ++ l)
    (server_value v) (mk_execute_state (r + stmt_retained v) vs) l.
Proof.
  intros Hv Hf Hn Hr Hsum.
  assert (forall (t : mysql_stmt_bytes_t) (k : mysql_wire_bytes_t -> turbodb_value_t),
    r + len (stmt_bytes t) <= max_bytes ->
    parses p (v ← completed (rd_lenenc_bytes p (len p));
      fail_if (wb_is_null v) TDSQL_MYSQL_INVALID;;
      retained ← gets (fun s => es_retained (d_out s));
      fail_if ((max_bytes <? retained) || (size_sub max_bytes retained <? wb_length v)) TDSQL_MYSQL_LIMIT;;
      out_set (es_add (wb_length v));; mret (k v)) (mk_execute_state r vs) (lenenc_bytes_enc (stmt_bytes t) ++ l)
      (k (wire_bytes_of (stmt_bytes t))) (mk_execute_state (r + len (stmt_bytes t)) vs) l) as Htext.
  { intros t k Ht. eapply parses_bind; [by apply parses_map_err, parses_lenenc_bytes|].
    eapply parses_bind; [by apply parses_fail_if|]. eapply parses_bind; [apply (parses_gets p es_retained)|].
    eapply parses_bind; [apply parses_fail_if|].
    { cbn [es_retained wb_length wire_bytes_of]. rewrite size_sub_small by lia.
      apply orb_false_iff. split; apply Z.ltb_ge; lia. }
    eapply parses_bind; [apply (parses_out_set p (es_add (len (stmt_bytes t))))|]. apply parses_ret. }
  destruct v as [|z|z|z|b|t|t|]; cbn [stmt_value_ok stmt_finite stmt_retained stmt_value_enc server_value] in *; try done.
  - rewrite Z.add_0_r, <- (le_bytes_mod 8 z). change (8 * Z.of_nat 8) with 64.
    eapply parses_bind; [apply parses_map_err, parses_u64; [done|by apply Z.mod_pos_bound]|].
    cbn iota. rewrite as_signed_u64 by done. apply parses_ret.
  - rewrite Z.add_0_r. eapply parses_bind; [by apply parses_map_err, parses_u64|]. apply parses_ret.
  - rewrite Z.add_0_r. eapply parses_bind; [by apply parses_map_err, parses_u64|].
    eapply parses_bind; [apply parses_fail_if; by rewrite Hf|]. apply parses_ret.
  - rewrite Z.add_0_r. cbn [app]. apply parses_len. intros Hl. cbn [length] in Hl.
    eapply parses_bind; [apply parses_offset|].
    eapply parses_bind; [apply parses_fail_if; cbn [length]; apply Z.leb_gt; lia|].
    eapply parses_bind; [apply parses_next_byte|]. cbn iota.
    assert ((b <=? 1) && negb (negb (Z.shiftr (type_word (MYSQL_STMT_VALUE_BOOL b)) TDSQL_MYSQL_BYTE_BITS =? 0)) = true)
      as -> by (apply andb_true_iff; split; [apply Z.leb_le; lia|done]).
    apply parses_ret.
  - apply (Htext t (fun v => turbodb_text_v (mk_vstr (wb_data v) (wb_length v)))). lia.
  - apply (Htext t (fun v => turbodb_blob (wb_data v) (wb_length v))). lia.
Qed.

Lemma parses_value_loop layout types rest : forall i r values,
  Forall stmt_value_ok rest -> Forall stmt_finite rest -> 0 <= i -> i + len rest <= len values ->
  0 <= r -> r + retained_sum rest <= max_bytes ->
  (forall k v, rest !! k = Some v ->
     execute_type p layout types (i + Z.of_nat k) = Some (type_word v) /\
     exists b, ld p (lay_bitmap layout + (i + Z.of_nat k) / 8) = Some b /\
       negb (Z.land b (u8 (Z.shiftl 1 ((i + Z.of_nat k) mod 8))) =? 0) = stmt_null v) ->
  parses p (execute_value_loop p (len p) layout types max_bytes (length rest) i) (mk_execute_state r (Some values))
    (concat (map stmt_value_enc rest)) tt
    (mk_execute_state (r + retained_sum rest) (Some (put_at values i (map server_value rest)))) [].
Proof.
  induction rest as [|v rest IH]; intros i r values Hok Hfin Hi Hl Hr Hsum Hk.
  { cbn. unfold put_at. cbn. rewrite Nat.add_0_r, take_drop, Z.add_0_r. apply parses_ret. }
  apply list.Forall_cons in Hok as [Hv Hok]. apply list.Forall_cons in Hfin as [Hf Hfin].
  cbn [length execute_value_loop map concat retained_sum foldr] in *. fold (retained_sum rest) in *.
  pose proof (retained_nonneg rest) as Hrest.
  destruct (Hk 0%nat v eq_refl) as (Ht & b & Hb & Hnull). rewrite Z.add_0_r in Ht, Hb, Hnull.
  assert (0 <= stmt_retained v) as Hrv by (destruct v; cbn; lia).
  eapply parses_bind; [by apply parses_access|].
  eapply parses_bind; [by rewrite parameter_type_word; apply parses_ret|].
  eapply parses_bind; [by apply parses_access|].
  eapply parses_bind with (a := server_value v) (o1 := mk_execute_state (r + stmt_retained v) (Some values))
    (l1 := concat (map stmt_value_enc rest)).
  { destruct (stmt_null v) eqn:Hnv.
    - apply negb_true_iff in Hnull. unfold TDSQL_MYSQL_BYTE_BITS. rewrite Hnull.
      destruct v; try done. cbn. rewrite Z.add_0_r. apply parses_ret.
    - apply negb_false_iff in Hnull. unfold TDSQL_MYSQL_BYTE_BITS. rewrite Hnull. apply parses_parameter; try done. lia. }
  eapply parses_bind; [apply (parses_gets p (fun s => s))|]. cbn [es_values].
  eapply parses_bind with (o1 := mk_execute_state (r + stmt_retained v) (Some (<[Z.to_nat i := server_value v]> values)))
    (l1 := concat (map stmt_value_enc rest)).
  { eapply parses_bind; [apply parses_access; apply set_at_Some; lia|].
    apply (parses_out_set p (fun s => mk_execute_state (es_retained s) (Some (<[Z.to_nat i := server_value v]> values)))). }
  rewrite Z.add_assoc, <- put_at_cons by (rewrite ?length_map; lia).
  apply IH; rewrite ?length_insert; try done; try lia.
  intros k w Hw. destruct (Hk (S k) w Hw) as (H1 & H2).
  replace (i + Z.of_nat (S k)) with (i + 1 + Z.of_nat k) in * by lia. done.
Qed.
End ExecuteParses.

(** ** The command as the server reads it *)

Lemma ld_app_r a b j : 0 <= j -> ld (a ++ b) (len a + j) = ld b j.
Proof.
  intros Hj. unfold ld. destruct (Z.ltb_spec (len a + j) 0), (Z.ltb_spec j 0); try lia.
  rewrite lookup_app_r by lia. f_equal. lia.
Qed.

Lemma type_bytes_at vs k v l :
  vs !! k = Some v ->
  ld (concat (map stmt_type_enc vs) ++ l) (Z.of_nat k * 2) = Some (fst (stmt_type v)) /\
  ld (concat (map stmt_type_enc vs) ++ l) (Z.of_nat k * 2 + 1) = Some (snd (stmt_type v)).
Proof.
  revert k. induction vs as [|w vs IH]; intros [|k]; cbn [lookup list_lookup map concat]; intros Hk; [done..| |].
  - injection Hk as ->. done.
  - destruct (IH k Hk) as [H1 H2]. rewrite <- app_assoc. split.
    + replace (Z.of_nat (S k) * 2) with (len (stmt_type_enc w) + Z.of_nat k * 2) by (cbn [stmt_type_enc length]; lia).
      rewrite ld_app_r by lia. done.
    + replace (Z.of_nat (S k) * 2 + 1) with (len (stmt_type_enc w) + (Z.of_nat k * 2 + 1))
        by (cbn [stmt_type_enc length]; lia).
      rewrite ld_app_r by lia. done.
Qed.

Lemma length_types vs : len (concat (map stmt_type_enc vs)) = 2 * len vs.
Proof. induction vs; cbn [map concat length stmt_type_enc app]; [done|]. lia. Qed.

Lemma stmt_enc_bytes vs :
  Forall stmt_value_ok vs -> bytes_ok (concat (map stmt_type_enc vs)) /\ bytes_ok (concat (map stmt_value_enc vs)).
Proof.
  assert (forall t, stmt_bytes_ok t -> bytes_ok (lenenc_bytes_enc (stmt_bytes t))) as Ht.
  { intros t (_ & _ & Hb). apply Forall_app_2; [apply lenenc_enc_ok; lia|]. by apply Forall_take. }
  induction 1 as [|v vs Hv _ [IH1 IH2]]; cbn [map concat]; [split; apply Forall_nil_2|]. split.
  - apply Forall_app_2; [|done]. destruct v; by apply bytes_okb_ok.
  - apply Forall_app_2; [|done]. destruct v; cbn [stmt_value_enc stmt_value_ok] in *; try apply le_bytes_ok;
      try by apply Ht; try apply Forall_nil_2.
    all: try apply Forall_nil_2. apply Forall_cons_2; [lia|apply Forall_nil_2].
Qed.

Lemma execute_enc_bytes id vs : Forall stmt_value_ok vs -> bytes_ok (execute_enc id vs).
Proof.
  intros Hv. destruct (stmt_enc_bytes vs Hv) as [H1 H2]. unfold execute_enc, execute_header.
  assert (forall b, 0 <= b < 256 -> bytes_ok [b]) as Hs by (intros; apply Forall_cons_2; [done|apply Forall_nil_2]).
  apply Forall_app_2.
  - repeat apply Forall_app_2; try apply le_bytes_ok; by apply bytes_okb_ok.
  - destruct vs; [apply Forall_nil_2|]. apply Forall_app_2; [apply bitmap_bytes|].
    apply Forall_app_2; [by apply Hs|]. by apply Forall_app_2.
Qed.

Lemma execute_command_decode id vs c0 max :
  0 < id < 2 ^ 32 -> Forall stmt_value_ok vs -> len (execute_enc id vs) < 2 ^ 63 -> len (execute_enc id vs) <= max ->
  tdsql_mysql_command_decode (Some (execute_enc id vs)) (len (execute_enc id vs)) max (Some c0) =
    (Ret tt, Some (mk_command MYSQL_COM_STMT_EXECUTE id wire_bytes_zero (wire_bytes_of (execute_enc id vs)))).
Proof.
  intros Hid Hv Hm Hmax. pose proof (execute_enc_bytes id vs Hv) as Hb.
  assert (exists l, execute_enc id vs = [MYSQL_COM_STMT_EXECUTE] ++ le_bytes 4 id ++ 0 :: le_bytes 4 1 ++ l) as [l Hl].
  { unfold execute_enc, execute_header. eexists. rewrite <- !app_assoc. done. }
  revert Hl Hb Hm Hmax. generalize (execute_enc id vs). intros p Hl Hb Hm Hmax.
  assert (10 <= len p) as Hlen.
  { rewrite Hl, !length_app. cbn [length]. rewrite !length_app, !length_le_bytes. lia. }
  assert (buf_ok p (len p)) as Hp by (split; [lia|done..]).
  unfold tdsql_mysql_command_decode. destruct (Z.eqb_spec (len p) 0); [lia|].
  destruct (Z.eqb_spec max 0); [lia|]. cbn [orb]. destruct (Z.ltb_spec max (len p)); [lia|].
  assert (ld p 0 = Some MYSQL_COM_STMT_EXECUTE) as -> by (rewrite Hl; done).
  rewrite ldn_Some, drop_0, Nat2Z.id, firstn_all by lia.
  set (c := mk_command _ 0 _ _).
  assert (parses p (command_switch p (len p)) c (le_bytes 4 id ++ 0 :: le_bytes 4 1 ++ l) tt (cmd_set_id id c) l) as Hparse.
  { unfold command_switch. eapply parses_bind; [apply (parses_gets p cmd_kind)|]. cbn [cmd_kind c].
    change ((MYSQL_COM_STMT_EXECUTE =? TDSQL_MYSQL_QUERY) || _) with false.
    change ((MYSQL_COM_STMT_EXECUTE =? TDSQL_MYSQL_PING) || _) with false.
    change ((MYSQL_COM_STMT_EXECUTE =? MYSQL_COM_STMT_EXECUTE) || _ || _) with true.
    change (MYSQL_COM_STMT_EXECUTE =? MYSQL_COM_STMT_EXECUTE) with true. cbn iota.
    eapply parses_bind; [apply parses_fail_if, Z.ltb_ge; unfold TDSQL_MYSQL_EXECUTE_HEADER; lia|].
    eapply parses_bind; [apply parses_map_err, parses_u32; [done|lia]|].
    eapply parses_bind; [apply parses_out_set|].
    eapply parses_bind; [apply parses_fail_if, Z.eqb_neq; lia|].
    eapply parses_bind; [apply parses_next_byte|]. eapply parses_bind; [by apply parses_fail_if|].
    eapply parses_bind; [by apply parses_map_err, parses_u32|]. by apply parses_fail_if. }
  destruct (Hparse 1) as (off' & -> & _); [|done].
  split_and!; [lia..|]. rewrite Hl. done.
Qed.

(** The spare bits of the last bitmap byte are zero. *)
Lemma byte_of_bits_shiftr f k : 0 <= k -> (forall j, k <= j -> f j = false) -> Z.shiftr (byte_of_bits f) k = 0.
Proof.
  intros Hk Hf. apply Z.bits_inj_0. intros n. destruct (Z.lt_ge_cases n 0); [by apply Z.testbit_neg_r|].
  rewrite Z.shiftr_spec by done. destruct (Z.lt_ge_cases (n + k) 8).
  - rewrite byte_of_bits_test by lia. apply Hf. lia.
  - pose proof (byte_of_bits_range f) as Hr.
    rewrite <- (Z.mod_small (byte_of_bits f) (2 ^ 8)) by exact Hr. apply Z.mod_pow2_bits_high. lia.
Qed.

Lemma execute_layout_enc id vs valid :
  vs <> [] -> len (execute_enc id vs) < 2 ^ 63 ->
  let bm := bitmap_size 0 (map stmt_null vs) in
  execute_layout_open (execute_enc id vs) (len (execute_enc id vs)) (len vs) valid =
    Ret (mk_layout 10 (10 + bm + 1) (10 + bm + 1 + len vs * 2) true).
Proof.
  intros Hne Hm bm. set (p := execute_enc id vs) in *.
  assert (0 < len vs) as Hpos by (destruct vs; [done|cbn; lia]).
  assert (bm = (len vs + 7) / 8) as Hbm by (unfold bm, bitmap_size; rewrite length_map; f_equal; lia).
  assert (1 <= bm) as Hbm1 by (rewrite Hbm; apply Z.div_le_lower_bound; lia).
  pose proof (bitmap_length 0 (map stmt_null vs) ltac:(lia)) as Hbl. fold bm in Hbl.
  assert (p = (execute_header id ++ bitmap 0 (map stmt_null vs)) ++
    1 :: concat (map stmt_type_enc vs) ++ concat (map stmt_value_enc vs)) as Hpe.
  { unfold p, execute_enc. destruct vs; [done|]. by rewrite <- app_assoc. }
  assert (len (execute_header id) = 10) as Hh.
  { unfold execute_header. rewrite !length_app, !length_le_bytes. done. }
  assert (len (execute_header id ++ bitmap 0 (map stmt_null vs)) = 10 + bm) as Hpre by (rewrite length_app; lia).
  assert (11 + bm + 2 * len vs <= len p) as Hlen.
  { rewrite Hpe, length_app, Nat2Z.inj_add, Hpre. cbn [length]. rewrite length_app. pose proof (length_types vs). lia. }
  unfold execute_layout_open, TDSQL_MYSQL_EXECUTE_HEADER, TDSQL_MYSQL_BYTE_BITS, TDSQL_MYSQL_TYPE_BYTES.
  destruct (Z.eqb_spec (len vs) 0); [lia|]. replace (len vs + 8 - 1) with (len vs + 7) by lia. rewrite <- Hbm.
  destruct (Z.ltb_spec (len p) 10); [lia|]. cbn [orb]. rewrite (size_sub_small (len p) 10) by lia.
  destruct (Z.leb_spec (len p - 10) bm); [lia|].
  assert (ld p (10 + bm) = Some 1) as ->.
  { rewrite Hpe, <- Hpre, <- (Z.add_0_r (len _)), ld_app_r by lia. done. }
  assert ((if negb (len vs mod 8 =? 0)
    then match ld p (10 + bm - 1) with
         | Some b => Some (negb (Z.shiftr b (len vs mod 8) =? 0))
         | None => None
         end
    else Some false) = Some false) as ->.
  { destruct (Z.eqb_spec (len vs mod 8) 0) as [|Hmod]; [done|]. cbn [negb].
    pose proof (Z.mod_pos_bound (len vs) 8 ltac:(lia)). pose proof (Z.div_mod (len vs) 8 ltac:(lia)) as Hdm.
    assert (bm - 1 = len vs / 8) as Hlast.
    { rewrite Hbm. enough ((len vs + 7) / 8 = len vs / 8 + 1) by lia.
      symmetry. apply (Z.div_unique _ _ _ (len vs mod 8 - 1)); lia. }
    assert (ld p (10 + bm - 1) = Some (byte_of_bits (fun j => null_at (map stmt_null vs) (8 * (bm - 1) + j - 0)))) as ->.
    { rewrite Hpe, <- app_assoc. replace (10 + bm - 1) with (len (execute_header id) + (bm - 1)) by lia.
      rewrite ld_app_r, ld_app_l by lia. unfold ld. destruct (Z.ltb_spec (bm - 1) 0); [lia|].
      apply bitmap_lookup. fold bm. lia. }
    rewrite byte_of_bits_shiftr; [done|lia|]. intros j Hj. unfold null_at. case_match; [done|].
    rewrite lookup_ge_None_2; [done|]. rewrite length_map. lia. }
  change (1 <? 1) with false. change ((1 =? 0) && negb valid) with false. change (negb (1 =? 0)) with true.
  cbn [andb]. rewrite size_sub_small by lia.
  destruct (Z.ltb_spec ((len p - (10 + bm + 1)) / 2) (len vs)) as [Hlt|]; [|done].
  pose proof (Z.div_le_lower_bound (len p - (10 + bm + 1)) 2 (len vs) ltac:(lia) ltac:(lia)). lia.
Qed.

Lemma execute_values_enc id vs types values max_bytes :
  vs <> [] -> Forall stmt_value_ok vs -> Forall stmt_finite vs -> len (execute_enc id vs) < 2 ^ 63 ->
  len vs <= len values -> retained_sum vs <= max_bytes < 2 ^ 64 ->
  let p := execute_enc id vs in
  let bm := bitmap_size 0 (map stmt_null vs) in
  let layout := mk_layout 10 (10 + bm + 1) (10 + bm + 1 + len vs * 2) true in
  execute_values_decode p (len p) (len vs) types layout (Some values) max_bytes =
    (Ret tt, Some (put_at values 0 (map server_value vs))) /\
  (forall k v, vs !! k = Some v -> execute_type p layout types (Z.of_nat k) = Some (type_word v)) /\
  10 + bm <= len p.
Proof.
  intros Hne Hok Hfin Hm Hl Hmax p bm layout. pose proof (retained_nonneg vs) as Hr0.
  pose proof (bitmap_length 0 (map stmt_null vs) ltac:(lia)) as Hbl. fold bm in Hbl.
  set (pre := execute_header id ++ bitmap 0 (map stmt_null vs) ++ [1]).
  assert (p = pre ++ concat (map stmt_type_enc vs) ++ concat (map stmt_value_enc vs)) as Hpe.
  { unfold p, pre, execute_enc. destruct vs; [done|]. by rewrite <- !app_assoc. }
  assert (len (execute_header id) = 10) as Hh.
  { unfold execute_header. rewrite !length_app, !length_le_bytes. done. }
  assert (len pre = 10 + bm + 1) as Hpre by (unfold pre; rewrite !length_app; cbn [length]; lia).
  pose proof (length_types vs) as Htl.
  assert (buf_ok p (len p)) as Hp by (split; [lia|done|by apply execute_enc_bytes]).
  assert (forall k v, vs !! k = Some v -> execute_type p layout types (Z.of_nat k) = Some (type_word v)) as Htype.
  { intros k v Hk. destruct (type_bytes_at vs k v (concat (map stmt_value_enc vs)) Hk) as [H1 H2].
    unfold execute_type, TDSQL_MYSQL_TYPE_BYTES. cbn [lay_new_types lay_types layout negb]. rewrite Hpe, <- Hpre.
    rewrite <- Z.add_assoc, !ld_app_r, H1, H2 by lia. by destruct v. }
  split; [|split; [done|]].
  2: { rewrite Hpe, length_app. lia. }
  assert (parses p (execute_value_loop p (len p) layout types max_bytes (length vs) 0;;
      off ← offset; fail_if (negb (off =? len p)) TDSQL_MYSQL_INVALID) (mk_execute_state 0 (Some values))
    (concat (map stmt_value_enc vs)) tt
    (mk_execute_state (0 + retained_sum vs) (Some (put_at values 0 (map server_value vs)))) []) as Hparse.
  { eapply parses_bind.
    - apply parses_value_loop; try done; try lia. intros k v Hk. rewrite Z.add_0_l. split; [by apply Htype|].
      destruct (bitmap_bit (execute_header id) 0 (map stmt_null vs)
        ([1] ++ concat (map stmt_type_enc vs) ++ concat (map stmt_value_enc vs)) (Z.of_nat k)) as (b & Hb & Hn); [lia| |].
      { rewrite length_map. apply lookup_lt_Some in Hk. lia. }
      exists b. rewrite Z.add_0_r, Hh in Hb. rewrite Z.add_0_r in Hn. cbn [lay_bitmap layout].
      replace p with (execute_header id ++ bitmap 0 (map stmt_null vs) ++
        [1] ++ concat (map stmt_type_enc vs) ++ concat (map stmt_value_enc vs))
        by (rewrite Hpe; unfold pre; by rewrite <- !app_assoc).
      split; [done|]. by rewrite Hn, Nat2Z.id, list_lookup_fmap, Hk.
    - eapply parses_bind; [apply parses_offset|]. apply parses_fail_if.
      change (len []) with 0. by rewrite Z.sub_0_r, Z.eqb_refl. }
  unfold execute_values_decode. rewrite Nat2Z.id. cbn [lay_values layout].
  destruct (Hparse (10 + bm + 1 + len vs * 2)) as (off' & -> & _); [|done].
  replace (10 + bm + 1 + len vs * 2) with (len (pre ++ concat (map stmt_type_enc vs))) by (rewrite length_app; lia).
  rewrite Hpe, app_assoc. apply suffix_at_end.
Qed.

Lemma execute_decode_enc id vs types tcap valid values vcap max_bytes :
  0 < id < 2 ^ 32 -> Forall stmt_value_ok vs -> Forall stmt_finite vs -> len (execute_enc id vs) < 2 ^ 63 ->
  len vs <= 0xffff -> len vs <= tcap -> tcap <= len types -> len vs <= vcap -> vcap <= len values ->
  retained_sum vs <= max_bytes -> 0 < max_bytes < 2 ^ 64 ->
  exists types' valid',
    tdsql_mysql_execute_decode
      (Some (mk_command MYSQL_COM_STMT_EXECUTE id wire_bytes_zero (wire_bytes_of (execute_enc id vs))))
      (len vs) (Some types) tcap (Some valid) (Some values) vcap max_bytes =
    (Ret tt, Some types', Some valid', Some (put_at values 0 (map server_value vs))).
Proof.
  intros Hid Hok Hfin Hm Hc Ht Htc Hv Hvc Hr Hmax. unfold tdsql_mysql_execute_decode. rewrite orb_false_r.
  destruct (Z.eqb_spec max_bytes 0); [lia|].
  destruct (Z.ltb_spec 0xffff (len vs)); [lia|]. destruct (Z.ltb_spec tcap (len vs)); [lia|].
  destruct (Z.ltb_spec vcap (len vs)); [lia|]. cbn [orb cmd_payload wb_data wb_length wire_bytes_of cmd_statement_id].
  rewrite execute_command_decode by done. cbn [cmd_kind cmd_statement_id].
  rewrite !Z.eqb_refl. cbn [negb orb]. change (default [] (Some types)) with types.
  change (default [] (Some (execute_enc id vs))) with (execute_enc id vs).
  destruct (decide (vs = [])) as [->|Hne].
  { cbn [length]. unfold execute_layout_open. change (Z.of_nat 0 =? 0) with true. cbn iota.
    assert ((len (execute_enc id []) =? TDSQL_MYSQL_EXECUTE_HEADER) = true) as ->.
    { unfold execute_enc, execute_header. rewrite !length_app, !length_le_bytes. done. }
    exists types, valid. unfold put_at. cbn [map length app]. change (Z.to_nat 0) with 0%nat.
    rewrite take_0, drop_0. done. }
  rewrite execute_layout_enc by done. destruct (Z.eqb_spec (len vs) 0); [destruct vs; done|].
  set (layout := mk_layout _ _ _ _). set (p := execute_enc id vs) in *.
  assert (buf_ok p (len p)) as Hp by (split; [lia|done|by apply execute_enc_bytes]).
  assert (execute_layout_open p (len p) (len vs) valid = Ret layout) as Hopen by (by apply execute_layout_enc).
  pose proof (layout_open_ok p (len p) (len vs) valid types Hp ltac:(lia) ltac:(lia) ltac:(lia)) as Hlay.
  rewrite Hopen in Hlay.
  destruct (execute_values_enc id vs types values max_bytes) as (Hpass & _ & _); try done; try lia.
  destruct (execute_passes p (len p) (len vs) types layout max_bytes values Hp ltac:(lia) ltac:(lia) Hlay ltac:(lia))
    as (r & vs' & Hn & Hs & _).
  fold p in Hpass. fold layout in Hpass. rewrite Hpass in Hs. injection Hs as <- <-. rewrite Hn, Hpass.
  cbn [lay_new_types layout].
  destruct (cache_types_Some p (len p) (len vs) layout (Z.to_nat (len vs)) 0 types Hp Hlay eq_refl) as (ts & -> & _ & _);
    [lia..|]. eauto.
Qed.

(** C38. Parameters survive the wire. Whatever the values a client binds
    (signed and unsigned 64-bit integers, finite doubles, booleans, texts and
    blobs of any length within the limits, NULLs anywhere), the COM_STMT_EXECUTE
    packet its builder writes is accepted by the server's command decoder with
    the same statement id, and the server's parameter decoder stores exactly
    these values in order, touching nothing else in the array, whether or not
    it had cached types before. *)
Theorem execute_end_to_end id vs buf cap n0 c0 types tcap valid values vcap max_packet max_bytes :
  0 < id < 2 ^ 32 -> Forall stmt_value_ok vs -> Forall stmt_finite vs -> len vs <= 0xffff ->
  len (execute_enc id vs) <= cap -> cap <= len buf -> len buf < 2 ^ 63 -> len (execute_enc id vs) <= max_packet ->
  len vs <= tcap -> tcap <= len types -> len vs <= vcap -> vcap <= len values ->
  retained_sum vs <= max_bytes -> 0 < max_bytes < 2 ^ 64 ->
  exists buf' n command types' valid',
    mysql_wire_build_stmt_execute id (Some vs) (len vs) (Some buf) cap (Some n0) = (Ret tt, Some buf', Some n) /\
    tdsql_mysql_command_decode (Some (take (Z.to_nat n) buf')) n max_packet (Some c0) = (Ret tt, Some command) /\
    cmd_kind command = MYSQL_COM_STMT_EXECUTE /\ cmd_statement_id command = id /\
    tdsql_mysql_execute_decode (Some command) (len vs) (Some types) tcap (Some valid) (Some values) vcap max_bytes =
      (Ret tt, Some types', Some valid', Some (put_at values 0 (map server_value vs))).
Proof.
  intros Hid Hok Hfin Hc Hcap Hbuf Hm Hmp Ht Htc Hv Hvc Hr Hmax.
  destruct (build_execute_eq id vs buf cap n0) as (buf0 & _ & Hbuild); try done; try lia.
  destruct (Z.leb_spec (len (execute_enc id vs)) cap); [|lia].
  destruct (execute_decode_enc id vs types tcap valid values vcap max_bytes) as (ts & vd & Hdec); try done; try lia.
  do 5 eexists. split; [exact Hbuild|]. rewrite Nat2Z.id, splice_0, take_app_length.
  rewrite execute_command_decode by (done || lia). by split_and!.
Qed.

Lemma execute_end_to_end_witness :
  let vs := [MYSQL_STMT_VALUE_SINT64 (-5); MYSQL_STMT_VALUE_NULL;
             MYSQL_STMT_VALUE_TEXT (mk_stmt_bytes (Some [104; 105; 0]) 2)] in
  let values := replicate 4 turbodb_null in
  exists buf' n command types' valid',
    mysql_wire_build_stmt_execute 7 (Some vs) (len vs) (Some (zeros 64)) 64 (Some 0) = (Ret tt, Some buf', Some n) /\
    tdsql_mysql_command_decode (Some (take (Z.to_nat n) buf')) n 64 (Some command_zero) = (Ret tt, Some command) /\
    cmd_kind command = MYSQL_COM_STMT_EXECUTE /\ cmd_statement_id command = 7 /\
    tdsql_mysql_execute_decode (Some command) (len vs) (Some (zeros 4)) 4 (Some false) (Some values) 4 100 =
      (Ret tt, Some types', Some valid', Some (put_at values 0 (map server_value vs))).
Proof.
  intros vs values. apply (execute_end_to_end 7 vs (zeros 64) 64 0 command_zero (zeros 4) 4 false values 4 64 100).
  - lia.
  - repeat apply Forall_cons_2; [by cbn|exact I|split_and!; [by vm_compute..|by apply bytes_okb_ok]|apply Forall_nil_2].
  - repeat apply Forall_cons_2; [exact I..|apply Forall_nil_2].
  - by vm_compute.
  - by vm_compute.
  - by vm_compute.
  - by vm_compute.
  - by vm_compute.
  - by vm_compute.
  - by vm_compute.
  - by vm_compute.
  - by vm_compute.
  - by vm_compute.
  - lia.
Defined.

(** Decoding a command is memory safe on every payload, and exact about
    what it lets through: the command is refused with INVALID, LIMIT or
    UNSUPPORTED and the caller's structure is untouched, or it is one of the
    seven supported commands in its exact shape: query and prepare with a
    non-empty text without NUL bytes, ping and quit of one byte, close and reset
    of five bytes and execute of at least ten with a statement id that is not
    zero; its views span the payload and nothing else. *)
Theorem command_decode_safe p size max_bytes c0 :
  buf_ok p size ->
  exists r c, tdsql_mysql_command_decode (Some p) size max_bytes (Some c0) = (r, Some c) /\
    (r = Ret tt /\ 1 <= size <= max_bytes /\ command_ok p size c \/
     (r = Err TDSQL_MYSQL_INVALID \/ r = Err TDSQL_MYSQL_LIMIT \/ r = Err TDSQL_MYSQL_UNSUPPORTED) /\ c = c0).
Proof. apply command_decode_total. Qed.

(** ** Text commands and statement ids, end to end *)

Lemma find_nul_ok l : text_ok l -> find_nul l = None.
Proof.
  induction 1 as [|b l Hb _ IH]; [done|]. cbn [find_nul]. destruct (Z.eqb_spec b 0); [lia|]. by rewrite IH.
Qed.

Lemma text_command_decode kind sql max c0 :
  kind = TDSQL_MYSQL_QUERY \/ kind = MYSQL_COM_STMT_PREPARE ->
  sql <> [] -> text_ok sql -> 1 + len sql <= max -> len sql < 2 ^ 63 - 1 ->
  tdsql_mysql_command_decode (Some (kind :: sql)) (1 + len sql) max (Some c0) =
    (Ret tt, Some (mk_command kind 0 (wire_bytes_of sql) (wire_bytes_of (kind :: sql)))).
Proof.
  intros Hk Hne Ht Hmax Hl. assert (0 < len sql) as Hpos by (destruct sql; [done|cbn; lia]).
  unfold tdsql_mysql_command_decode. destruct (Z.eqb_spec (1 + len sql) 0); [lia|].
  destruct (Z.eqb_spec max 0); [lia|]. cbn [orb]. destruct (Z.ltb_spec max (1 + len sql)); [lia|].
  assert (ldn (kind :: sql) 0 (1 + len sql) = Some (kind :: sql)) as ->.
  { rewrite ldn_Some, drop_0, firstn_all2 by (cbn [length]; lia). done. }
  change (ld (kind :: sql) 0) with (Some kind). unfold command_switch, mbind, M_bind, gets. cbn [d_out cmd_kind].
  assert ((kind =? TDSQL_MYSQL_QUERY) || (kind =? MYSQL_COM_STMT_PREPARE) = true) as ->.
  { apply orb_true_iff. rewrite !Z.eqb_eq. done. }
  unfold fail_if, access. destruct (Z.eqb_spec (1 + len sql) 1); [lia|].
  rewrite size_sub_small by lia. replace (1 + len sql - 1) with (len sql) by lia.
  assert (ldn (kind :: sql) 1 (len sql) = Some sql) as ->.
  { rewrite ldn_Some by (cbn [length]; lia). change (drop (Z.to_nat 1) (kind :: sql)) with sql.
    by rewrite Nat2Z.id, firstn_all. }
  rewrite find_nul_ok by done. unfold out_set, modify, cmd_set_sql, wire_bytes_of. cbn [d_out cmd_kind cmd_statement_id cmd_payload].
  cbn [length]. by replace (Z.of_nat (S (length sql))) with (1 + len sql) by lia.
Qed.

Lemma build_query_eq sql rest buf cap n :
  sql <> [] -> 1 + len sql <= cap -> cap <= len buf -> len buf < 2 ^ 63 ->
  mysql_wire_build_query (Some (sql ++ rest)) (len sql) (Some buf) cap (Some n) =
    (Ret tt, Some (splice buf 0 (MYSQL_COM_QUERY :: sql)), Some (1 + len sql)).
Proof.
  intros Hne Hc Hb Hm. assert (0 < len sql) as Hpos by (destruct sql; [done|cbn; lia]).
  unfold mysql_wire_build_query, SIZE_MAX. destruct (Z.eqb_spec (len sql) 0); [lia|].
  destruct (Z.ltb_spec (2 ^ 64 - 1 - 1) (len sql)); [lia|]. cbn [orb].
  destruct (Z.ltb_spec cap (len sql + 1)); [lia|]. rewrite st_splice, ldn_prefix by (done || lia).
  rewrite stn_Some by (rewrite ?length_splice; cbn [length]; lia).
  change 1 with (0 + len [MYSQL_COM_QUERY]). rewrite splice_app by (cbn [length]; lia).
  by rewrite (Z.add_comm (len sql)).
Qed.

(** SQL text survives the wire. A non-empty statement without NUL bytes that
    a client sends with COM_QUERY or COM_STMT_PREPARE reaches the server
    unchanged, under the command the client chose, whenever it fits the client's
    buffer and the server's packet limit. *)
Theorem text_commands_end_to_end sql rest buf cap n0 c0 max :
  sql <> [] -> text_ok sql -> 1 + len sql <= cap -> cap <= len buf -> len buf < 2 ^ 63 -> 1 + len sql <= max ->
  exists q p,
    mysql_wire_build_query (Some (sql ++ rest)) (len sql) (Some buf) cap (Some n0) =
      (Ret tt, Some q, Some (1 + len sql)) /\
    mysql_wire_build_stmt_prepare (Some (sql ++ rest)) (len sql) (Some buf) cap (Some n0) =
      (Ret tt, Some p, Some (1 + len sql)) /\
    tdsql_mysql_command_decode (Some (take (Z.to_nat (1 + len sql)) q)) (1 + len sql) max (Some c0) =
      (Ret tt, Some (mk_command TDSQL_MYSQL_QUERY 0 (wire_bytes_of sql) (wire_bytes_of (TDSQL_MYSQL_QUERY :: sql)))) /\
    tdsql_mysql_command_decode (Some (take (Z.to_nat (1 + len sql)) p)) (1 + len sql) max (Some c0) =
      (Ret tt, Some (mk_command MYSQL_COM_STMT_PREPARE 0 (wire_bytes_of sql)
                       (wire_bytes_of (MYSQL_COM_STMT_PREPARE :: sql)))).
Proof.
  intros Hne Ht Hc Hb Hm Hmax.
  destruct (build_prepare_eq sql rest buf cap n0 Hne) as (b0 & _ & Hprep); [lia|done|].
  assert (len (MYSQL_COM_STMT_PREPARE :: sql) = 1 + len sql) as Hlp by (cbn [length]; lia).
  cbv zeta in Hprep. rewrite Hlp in Hprep. destruct (Z.leb_spec (1 + len sql) cap); [|lia].
  assert (forall k, take (Z.to_nat (1 + len sql)) (splice buf 0 (k :: sql)) = k :: sql) as Htake.
  { intros k. rewrite splice_0. apply take_app_length'. cbn [length]. lia. }
  do 2 eexists. split; [by apply build_query_eq|]. split; [exact Hprep|].
  rewrite !Htake. split; apply text_command_decode; try done; try lia; auto.
Qed.
