(* ===== verification/Response.v ===== *)
(** * Responses, server side (tidessql/server/mysql/response.c)

    The server's encoders of OK, ERR and EOF packets, of the answer to PREPARE,
    of column counts, column definitions and text and binary rows. An encoder
    runs twice over the same response: the first run only measures. A double is
    its 64-bit pattern. *)

From S2P Require Import Prelude Codec Packet Frame Handshake Result Row Statement ServerHandshake Command.

(** ** The writer *)

Definition TDSQL_MYSQL_SERVER_IN_TRANS : Z := 0x0001.
Definition TDSQL_MYSQL_SERVER_AUTOCOMMIT : Z := 0x0002.
Definition TDSQL_MYSQL_SERVER_IN_TRANS_READONLY : Z := 0x2000.
Definition TDSQL_MYSQL_ERRMSG_MAX : Z := 512.
Definition RESPONSE_NUMBER_BYTES : Z := 64.
Definition RESPONSE_SQLSTATE_BYTES : Z := 5.
Definition RESPONSE_COLUMN_FIXED : Z := 12.
Definition RESPONSE_BINARY_OFFSET : Z := 2.
Definition RESPONSE_EOF_MARKER : Z := 0xfe.
Definition RESPONSE_ERR_MARKER : Z := 0xff.
Definition RESPONSE_NULL_MARKER : Z := 0xfb.

(** [w_status] is None while the member holds TDSQL_MYSQL_OK. *)
Record writer : Type := mk_writer {
  w_data : ptr bytes;
  w_size : Z;
  w_capacity : Z;
  w_status : option tdsql_mysql_status
}.

Definition set_status (e : option tdsql_mysql_status) (w : writer) : writer :=
  mk_writer (w_data w) (w_size w) (w_capacity w) e.
Definition w_fail (e : tdsql_mysql_status) (w : writer) : writer := set_status (Some e) w.

Definition status_of {A} (r : server_result A) : option tdsql_mysql_status :=
  match r with Err e => Some e | _ => None end.

(** A step of the writer; None is undefined behaviour. *)
Abbreviation W := (writer -> option writer) (only parsing).

Definition emit (data : ptr bytes) (size : Z) : W := fun w =>
  match w_status w with
  | Some _ => Some w
  | None =>
      if match data with None => negb (size =? 0) | Some _ => false end || (w_capacity w <? w_size w)
      then Some (w_fail TDSQL_MYSQL_INVALID w)
      else if size_sub (w_capacity w) (w_size w) <? size then Some (w_fail TDSQL_MYSQL_LIMIT w)
      else
        match w_data w with
        | Some buf =>
            if size =? 0 then Some (mk_writer (w_data w) (w_size w + size) (w_capacity w) None)
            else
              match ldn (default [] data) 0 size with
              | Some l =>
                  match stn buf (w_size w) l with
                  | Some buf => Some (mk_writer (Some buf) (w_size w + size) (w_capacity w) None)
                  | None => None
                  end
              | None => None
              end
        | None => Some (mk_writer None (w_size w + size) (w_capacity w) None)
        end
  end.

(** The local buffer of [integer] after the switch on the width. *)
Definition integer_bytes (value width : Z) : wire_result bytes :=
  let filled r :=
    match r with
    | (Ret _, Some b, _) => Ret b
    | (Err e, _, _) => Err e
    | _ => Fault
    end in
  if width =? 1 then match st (zeros 8) 0 (u8 value) with Some b => Ret b | None => Fault end
  else if width =? 2 then filled (mysql_wire_write_u16_le (Some (zeros 8)) 8 (Some 0) (u16 value))
  else if width =? 4 then filled (mysql_wire_write_u32_le (Some (zeros 8)) 8 (Some 0) (u32 value))
  else if width =? 8 then filled (mysql_wire_write_u64_le (Some (zeros 8)) 8 (Some 0) value)
  else Err INVALID.

(** [if (w->status == OK) w->status = status; return;] *)
Definition first_error (e : mysql_wire_status_t) (w : writer) : writer :=
  match w_status w with None => w_fail (of_wire e) w | Some _ => w end.

Definition integer (value width : Z) : W := fun w =>
  match integer_bytes value width with
  | Ret b => emit (Some b) width w
  | Err e => Some (first_error e w)
  | Fault => None
  end.

(** The local buffer holds nothing that is emitted before it is written. *)
Definition lenenc (value : Z) : W := fun w =>
  match mysql_wire_write_lenenc_uint (Some (zeros 9)) 9 (Some 0) value with
  | (Ret _, Some b, Some size) => emit (Some b) size w
  | (Err e, _, _) => Some (first_error e w)
  | _ => None
  end.

Definition absent (v : mysql_wire_bytes_t) : bool :=
  wb_is_null v || match wb_data v with None => negb (wb_length v =? 0) | Some _ => false end.

Definition write_bytes (value : mysql_wire_bytes_t) : W := fun w =>
  if absent value then Some (w_fail TDSQL_MYSQL_INVALID w)
  else w ← lenenc (wb_length value) w; emit (wb_data value) (wb_length value) w.

Definition status_flags (flags : Z) : server_result unit :=
  let supported := Z.lor TDSQL_MYSQL_SERVER_IN_TRANS
    (Z.lor TDSQL_MYSQL_SERVER_AUTOCOMMIT TDSQL_MYSQL_SERVER_IN_TRANS_READONLY) in
  if negb (Z.land flags (u16 (Z.lnot supported)) =? 0) then Err TDSQL_MYSQL_UNSUPPORTED
  else if negb (Z.land flags TDSQL_MYSQL_SERVER_IN_TRANS_READONLY =? 0) &&
          (Z.land flags TDSQL_MYSQL_SERVER_IN_TRANS =? 0)
  then Err TDSQL_MYSQL_INVALID
  else Ret tt.

(** ** OK packets and column definitions *)

Definition ok_write (packet : ptr mysql_wire_ok_packet_t) (deprecated : bool) : W := fun w =>
  match packet with
  | None => Some (w_fail TDSQL_MYSQL_INVALID w)
  | Some p =>
      if negb (ok_header p =? 0) && negb (ok_header p =? RESPONSE_EOF_MARKER)
      then Some (w_fail TDSQL_MYSQL_INVALID w)
      else if ((ok_header p =? RESPONSE_EOF_MARKER) && negb deprecated) || negb (wb_length (ok_session_state p) =? 0)
      then Some (w_fail TDSQL_MYSQL_UNSUPPORTED w)
      else
        let w := set_status (status_of (status_flags (ok_status_flags p))) w in
        w ← integer (ok_header p) 1 w;
        w ← lenenc (ok_affected_rows p) w;
        w ← lenenc (ok_last_insert_id p) w;
        w ← integer (ok_status_flags p) 2 w;
        w ← integer (ok_warnings p) 2 w;
        if absent (ok_info p) then Some (w_fail TDSQL_MYSQL_INVALID w)
        else emit (wb_data (ok_info p)) (wb_length (ok_info p)) w
  end.

Definition column_write (column : ptr mysql_column_definition_t) : W := fun w =>
  match column with
  | None => Some (w_fail TDSQL_MYSQL_INVALID w)
  | Some c =>
      if one_of (col_type c) [MYSQL_TYPE_TINY; MYSQL_TYPE_DOUBLE; MYSQL_TYPE_NULL; MYSQL_TYPE_LONGLONG;
                              MYSQL_TYPE_BLOB; MYSQL_TYPE_VAR_STRING]
      then
        w ← write_bytes (col_catalog c) w;
        w ← write_bytes (col_schema c) w;
        w ← write_bytes (col_table c) w;
        w ← write_bytes (col_org_table c) w;
        w ← write_bytes (col_name c) w;
        w ← write_bytes (col_org_name c) w;
        w ← integer RESPONSE_COLUMN_FIXED 1 w;
        w ← integer (col_character_set c) 2 w;
        w ← integer (col_column_length c) 4 w;
        w ← integer (col_type c) 1 w;
        w ← integer (col_flags c) 2 w;
        w ← integer (col_decimals c) 1 w;
        integer 0 2 w
      else Some (w_fail TDSQL_MYSQL_UNSUPPORTED w)
  end.

(** ** Numbers as text *)

(** The decimal digits of [n], at most [fuel] of them, before [acc]. *)
Fixpoint digits (fuel : nat) (n : Z) (acc : bytes) : bytes :=
  match fuel with
  | O => acc
  | S fuel =>
      let acc := 48 + n mod 10 :: acc in
      if n <? 10 then acc else digits fuel (n / 10) acc
  end.

(** snprintf with PRIu64 and PRId64: 20 digits are enough for 64 bits. *)
Definition print_u64 (n : Z) : bytes := digits 20 n [].
Definition print_i64 (z : Z) : bytes := if z <? 0 then 45 :: print_u64 (- z) else print_u64 z.

Fixpoint strip_zeros (rev_digits : bytes) : bytes :=
  match rev_digits with 48 :: l => strip_zeros l | l => l end.

Definition fraction (ds : bytes) : bytes :=
  match reverse (strip_zeros (reverse ds)) with [] => [] | l => 46 :: l end.

(** snprintf of a double with %.17g, the decimal point being a dot: 17
    significant digits rounded to nearest even, trailing zeros removed. The
    scale 10^400 makes every finite double at least 10^76. *)
Definition print_g17 (bits : Z) : bytes :=
  let sign := if Z.testbit bits 63 then [45] else [] in
  let e := Z.land (Z.shiftr bits 52) 0x7ff in
  let f := Z.land bits (2 ^ 52 - 1) in
  if e =? 0x7ff then sign ++ (if f =? 0 then [105; 110; 102] else [110; 97; 110])
  else
    let '(m, ex) := if e =? 0 then (f, - 1074) else (f + 2 ^ 52, e - 1075) in
    if m =? 0 then sign ++ [48]
    else
      let '(num, den) := if 0 <=? ex then (m * 2 ^ ex, 1) else (m, 2 ^ (- ex)) in
      let x := len (digits 800 (num * 10 ^ 400 / den) []) - 401 in
      let '(n, d) := if x <=? 16 then (num * 10 ^ (16 - x), den) else (num, den * 10 ^ (x - 16)) in
      let q := n / d in
      let r := n mod d in
      let q := if (d <? 2 * r) || ((2 * r =? d) && Z.odd q) then q + 1 else q in
      let '(q, x) := if q =? 10 ^ 17 then (10 ^ 16, x + 1) else (q, x) in
      let ds := digits 17 q [] in
      sign ++
      (if (x <? -4) || (17 <=? x) then
         take 1 ds ++ fraction (drop 1 ds) ++ [101; if x <? 0 then 45 else 43] ++
         (if Z.abs x <? 10 then [48] else []) ++ digits 3 (Z.abs x) []
       else if 0 <=? x then take (Z.to_nat (x + 1)) ds ++ fraction (drop (Z.to_nat (x + 1)) ds)
       else [48] ++ fraction (replicate (Z.to_nat (- x - 1)) 48 ++ ds)).

(** ** Rows *)

Definition value_check (value : turbodb_value_t) : server_result unit :=
  if negb (tv_reserved value =? 0) then Err TDSQL_MYSQL_INVALID
  else
    match tv_data value with
    | TURBODB_VALUE_NULL | TURBODB_VALUE_INT64 _ | TURBODB_VALUE_UINT64 _ => Ret tt
    | TURBODB_VALUE_DOUBLE bits => if isfinite bits then Ret tt else Err TDSQL_MYSQL_INVALID
    | TURBODB_VALUE_BOOLEAN b => if b <=? 1 then Ret tt else Err TDSQL_MYSQL_INVALID
    | TURBODB_VALUE_TEXT t =>
        if match vs_data t with Some _ => true | None => vs_len t =? 0 end then Ret tt else Err TDSQL_MYSQL_INVALID
    | TURBODB_VALUE_BLOB t =>
        if match blob_data t with Some _ => true | None => blob_size t =? 0 end then Ret tt else Err TDSQL_MYSQL_INVALID
    | TURBODB_VALUE_unknown _ => Err TDSQL_MYSQL_UNSUPPORTED
    end.

Section Locale.
(** localeconv()->decimal_point *)
Context (decimal_point : bytes).

(** The result holds a view of the number buffer or of the value itself. *)
Definition text_value (value : turbodb_value_t) : server_result mysql_wire_bytes_t :=
  let printed text :=
    if RESPONSE_NUMBER_BYTES <=? len text then Err TDSQL_MYSQL_LIMIT
    else Ret (mk_wire_bytes (Some text) (len text) false) in
  match tv_data value with
  | TURBODB_VALUE_TEXT t => Ret (mk_wire_bytes (vs_data t) (vs_len t) false)
  | TURBODB_VALUE_BLOB t => Ret (mk_wire_bytes (blob_data t) (blob_size t) false)
  | TURBODB_VALUE_INT64 z => printed (print_i64 z)
  | TURBODB_VALUE_UINT64 z => printed (print_u64 z)
  | TURBODB_VALUE_BOOLEAN b => printed [if negb (b =? 0) then 49 else 48]
  | TURBODB_VALUE_DOUBLE bits =>
      if bool_decide (decimal_point = [46]) then printed (print_g17 bits) else Err TDSQL_MYSQL_UNSUPPORTED
  | _ => Err TDSQL_MYSQL_INVALID
  end.

(** [integer(w,0,1)], [n] times. *)
Fixpoint zero_bytes (n : nat) : W := fun w =>
  match n with
  | O => Some w
  | S n => w ← integer 0 1 w; zero_bytes n w
  end.

(** [w->data[index] |= mask] where there is data. *)
Definition or_data (index mask : Z) : W := fun w =>
  match w_data w with
  | None => Some w
  | Some d =>
      b ← ld d index;
      d ← st d index (Z.lor b mask);
      Some (mk_writer (Some d) (w_size w) (w_capacity w) (w_status w))
  end.

Definition value_write (value : turbodb_value_t) (i bitmap_offset : Z) (binary : bool) : W := fun w =>
  match tv_data value with
  | TURBODB_VALUE_NULL =>
      if negb binary then integer RESPONSE_NULL_MARKER 1 w
      else or_data (bitmap_offset + (i + RESPONSE_BINARY_OFFSET) / TDSQL_MYSQL_BYTE_BITS)
             (u8 (Z.shiftl 1 ((i + RESPONSE_BINARY_OFFSET) mod TDSQL_MYSQL_BYTE_BITS))) w
  | data =>
      if negb binary then
        match text_value value with
        | Ret text => write_bytes text (set_status None w)
        | Err e => Some (w_fail e w)
        | Fault => None
        end
      else
        match data with
        | TURBODB_VALUE_INT64 z => integer (u64 z) 8 w
        | TURBODB_VALUE_UINT64 z => integer z 8 w
        | TURBODB_VALUE_DOUBLE bits => integer bits 8 w
        | TURBODB_VALUE_BOOLEAN b => integer b 1 w
        | TURBODB_VALUE_TEXT t => write_bytes (mk_wire_bytes (vs_data t) (vs_len t) false) w
        | TURBODB_VALUE_BLOB t => write_bytes (mk_wire_bytes (blob_data t) (blob_size t) false) w
        | _ => Some (w_fail TDSQL_MYSQL_UNSUPPORTED w)
        end
  end.

(** The loop over the [n] values from [i] on. *)
Fixpoint row_values_write (values : list turbodb_value_t) (bitmap_offset : Z) (binary : bool) (n : nat) (i : Z)
    : W := fun w =>
  match n with
  | O => Some w
  | S n =>
      match w_status w with
      | Some _ => Some w
      | None =>
          value ← (if i <? 0 then None else values !! Z.to_nat i);
          match value_check value with
          | Ret _ =>
              w ← value_write value i bitmap_offset binary (set_status None w);
              row_values_write values bitmap_offset binary n (i + 1) w
          | Err e => Some (w_fail e w)
          | Fault => None
          end
      end
  end.

Definition row_write (values : ptr (list turbodb_value_t)) (count : Z) (binary : bool) : W := fun w =>
  match values with
  | None => Some (w_fail TDSQL_MYSQL_INVALID w)
  | Some vs =>
      if count =? 0 then Some (w_fail TDSQL_MYSQL_INVALID w)
      else if 0xffff <? count then Some (w_fail TDSQL_MYSQL_LIMIT w)
      else
        let bitmap := (count + TDSQL_MYSQL_BYTE_BITS - 1 + RESPONSE_BINARY_OFFSET) / TDSQL_MYSQL_BYTE_BITS in
        if binary then
          w ← integer 0 1 w;
          let bitmap_offset := w_size w in
          w ← zero_bytes (Z.to_nat bitmap) w;
          row_values_write vs bitmap_offset binary (Z.to_nat count) 0 w
        else row_values_write vs 0 binary (Z.to_nat count) 0 w
  end.

(** ** Responses *)

Inductive response : Type :=
| RESPONSE_OK (ok : ptr mysql_wire_ok_packet_t) (flag : bool)
| RESPONSE_ERR (code : Z) (sqlstate : ptr bytes) (message : mysql_wire_bytes_t)
| RESPONSE_EOF (eof : ptr mysql_wire_eof_packet_t)
| RESPONSE_PREPARE (prepare : ptr mysql_stmt_prepare_ok_t)
| RESPONSE_COLUMN (column : ptr mysql_column_definition_t)
| RESPONSE_COUNT (count : Z)
| RESPONSE_ROW (values : ptr (list turbodb_value_t)) (count : Z) (flag : bool).

Definition sqlstate_char (c : Z) : bool := ((65 <=? c) && (c <=? 90)) || ((48 <=? c) && (c <=? 57)).

(** The loop over the characters of the SQL state, from [i] on: false at the
    first one that is no capital letter or digit. *)
Fixpoint sqlstate_scan (state : bytes) (n : nat) (i : Z) : option bool :=
  match n with
  | O => Some true
  | S n =>
      match ld state i with
      | None => None
      | Some c => if sqlstate_char c then sqlstate_scan state n (i + 1) else Some false
      end
  end.

Definition response_write (r : response) : W := fun w =>
  match r with
  | RESPONSE_OK ok flag => ok_write ok flag w
  | RESPONSE_ERR code sqlstate message =>
      match sqlstate with
      | None => Some (w_fail TDSQL_MYSQL_INVALID w)
      | Some state =>
          if (code =? 0) || absent message then Some (w_fail TDSQL_MYSQL_INVALID w)
          else if TDSQL_MYSQL_ERRMSG_MAX <? wb_length message then Some (w_fail TDSQL_MYSQL_LIMIT w)
          else
            match sqlstate_scan state (Z.to_nat RESPONSE_SQLSTATE_BYTES) 0 with
            | None => None
            | Some false => Some (w_fail TDSQL_MYSQL_INVALID w)
            | Some true =>
                w ← integer RESPONSE_ERR_MARKER 1 w;
                w ← integer code 2 w;
                w ← integer 35 1 w;
                w ← emit sqlstate RESPONSE_SQLSTATE_BYTES w;
                emit (wb_data message) (wb_length message) w
            end
      end
  | RESPONSE_EOF eof =>
      match eof with
      | None => Some (w_fail TDSQL_MYSQL_INVALID w)
      | Some p =>
          let w := set_status (status_of (status_flags (eof_status_flags p))) w in
          w ← integer RESPONSE_EOF_MARKER 1 w;
          w ← integer (eof_warnings p) 2 w;
          integer (eof_status_flags p) 2 w
      end
  | RESPONSE_PREPARE prepare =>
      match prepare with
      | None => Some (w_fail TDSQL_MYSQL_INVALID w)
      | Some p =>
          if po_statement_id p =? 0 then Some (w_fail TDSQL_MYSQL_INVALID w)
          else
            w ← integer 0 1 w;
            w ← integer (po_statement_id p) 4 w;
            w ← integer (po_column_count p) 2 w;
            w ← integer (po_parameter_count p) 2 w;
            w ← integer 0 1 w;
            integer (po_warning_count p) 2 w
      end
  | RESPONSE_COLUMN column => column_write column w
  | RESPONSE_COUNT count =>
      if count =? 0 then Some (w_fail TDSQL_MYSQL_INVALID w)
      else if 0xffff <? count then Some (w_fail TDSQL_MYSQL_LIMIT w)
      else lenenc count w
  | RESPONSE_ROW values count flag => row_write values count flag w
  end.

Definition response_encode (r : response) (out : ptr tdsql_mysql_output)
    : server_result unit * ptr tdsql_mysql_output :=
  match out with
  | None => (Err TDSQL_MYSQL_INVALID, out)
  | Some o =>
      match response_write r (mk_writer None 0 (out_capacity o) None) with
      | None => (Fault, out)
      | Some measure =>
          match w_status measure with
          | Some e => (Err e, out)
          | None =>
              match out_data o with
              | None => (Ret tt, Some (mk_output (out_data o) (out_capacity o) (w_size measure)))
              | Some buf =>
                  match response_write r (mk_writer (Some buf) 0 (out_capacity o) None) with
                  | None => (Fault, out)
                  | Some output =>
                      match w_status output with
                      | Some e => (Err e, Some (mk_output (w_data output) (out_capacity o) (out_size o)))
                      | None => (Ret tt, Some (mk_output (w_data output) (out_capacity o) (w_size measure)))
                      end
                  end
              end
          end
      end
  end.

Definition tdsql_mysql_ok_encode (value : ptr mysql_wire_ok_packet_t) (deprecated : bool)
    (out : ptr tdsql_mysql_output) := response_encode (RESPONSE_OK value deprecated) out.
Definition tdsql_mysql_err_encode (code : Z) (sqlstate : ptr bytes) (message : mysql_wire_bytes_t)
    (out : ptr tdsql_mysql_output) := response_encode (RESPONSE_ERR code sqlstate message) out.
Definition tdsql_mysql_eof_encode (value : ptr mysql_wire_eof_packet_t) (out : ptr tdsql_mysql_output) :=
  response_encode (RESPONSE_EOF value) out.
Definition tdsql_mysql_prepare_encode (value : ptr mysql_stmt_prepare_ok_t) (out : ptr tdsql_mysql_output) :=
  response_encode (RESPONSE_PREPARE value) out.
Definition tdsql_mysql_column_encode (value : ptr mysql_column_definition_t) (out : ptr tdsql_mysql_output) :=
  response_encode (RESPONSE_COLUMN value) out.
Definition tdsql_mysql_count_encode (value : Z) (out : ptr tdsql_mysql_output) :=
  response_encode (RESPONSE_COUNT value) out.
Definition tdsql_mysql_row_encode (values : ptr (list turbodb_value_t)) (count : Z) (binary : bool)
    (out : ptr tdsql_mysql_output) := response_encode (RESPONSE_ROW values count binary) out.
End Locale.

(** ** The two runs agree

    [shadow w] is the writer of the measuring run. A good step never leaves the
    buffer and treats both writers alike. *)

Definition shadow (w : writer) : writer := mk_writer None (w_size w) (w_capacity w) (w_status w).

Definition writer_ok (w : writer) : Prop :=
  0 <= w_size w <= w_capacity w /\ w_capacity w < 2 ^ 63 /\
  match w_data w with Some d => w_capacity w <= len d /\ len d < 2 ^ 63 | None => True end.

(** [w'] comes after [w]: same buffer, and no bytes are taken back. *)
Definition follows (w w' : writer) : Prop :=
  w_capacity w' = w_capacity w /\ w_size w <= w_size w' /\
  match w_data w, w_data w' with
  | Some d, Some d' => length d' = length d
  | None, None => True
  | _, _ => False
  end.

Definition wgood_at (m : W) (w : writer) : Prop :=
  exists w', m w = Some w' /\ writer_ok w' /\ follows w w' /\ m (shadow w) = Some (shadow w').

Definition wgood (m : W) : Prop := forall w, writer_ok w -> wgood_at m w.

Create HintDb wgood discriminated.

Lemma follows_refl w : follows w w.
Proof. split_and!; try done; try lia. by destruct (w_data w). Qed.

Lemma follows_trans w1 w2 w3 : follows w1 w2 -> follows w2 w3 -> follows w1 w3.
Proof.
  intros (H1 & H2 & H3) (H4 & H5 & H6). split_and!; try congruence; try lia.
  destruct (w_data w1), (w_data w2), (w_data w3); try done. congruence.
Qed.

Lemma wgood_bind m (k : W) w :
  wgood_at m w -> (forall w', m w = Some w' -> writer_ok w' -> follows w w' -> wgood_at k w') ->
  wgood_at (fun w => w ← m w; k w) w.
Proof.
  intros (w1 & Hm & Hok & Hf & Hs) Hk. destruct (Hk w1 Hm Hok Hf) as (w2 & Hm2 & Hok2 & Hf2 & Hs2).
  exists w2. rewrite Hm, Hs. split_and!; try done. by eapply follows_trans.
Qed.

Lemma wgood_seq m (k : W) w : wgood_at m w -> wgood k -> wgood_at (fun w => w ← m w; k w) w.
Proof. intros Hm Hk. apply wgood_bind; auto. Qed.

Lemma set_status_ok e w : writer_ok w -> writer_ok (set_status e w).
Proof. done. Qed.

Lemma wgood_set (f : option tdsql_mysql_status -> option tdsql_mysql_status) w :
  writer_ok w -> wgood_at (fun w => Some (set_status (f (w_status w)) w)) w.
Proof.
  intros Hw. eexists. split; [done|]. split; [done|]. split; [|done]. apply (follows_refl w).
Qed.

Lemma wgood_fail e : wgood (fun w => Some (w_fail e w)).
Proof. intros w Hw. by apply (wgood_set (fun _ => Some e)). Qed.

(** What can be read through a pointer. *)
Definition readable (data : ptr bytes) (size : Z) : Prop :=
  0 <= size < 2 ^ 63 /\ match data with Some d => size <= len d | None => True end.

Lemma wgood_emit data size : readable data size -> wgood (emit data size).
Proof.
  intros [Hsz Hd] w Hw. pose proof Hw as (Hs & Hc & Hb). unfold wgood_at, emit. cbn [shadow w_status w_capacity w_size w_data].
  destruct (w_status w) eqn:Hst.
  { exists w. split; [done|]. split; [done|]. split; [apply follows_refl|]. unfold shadow. by rewrite Hst. }
  destruct (_ || (w_capacity w <? w_size w)) eqn:E1; [by apply (wgood_fail _ w)|].
  rewrite size_sub_small by lia. destruct (Z.ltb_spec (w_capacity w - w_size w) size); [by apply (wgood_fail _ w)|].
  assert (forall d, follows w (mk_writer d (w_size w + size) (w_capacity w) None) <->
    match w_data w, d with Some d, Some d' => length d' = length d | None, None => True | _, _ => False end) as Hf.
  { intros d. unfold follows. cbn. split; [tauto|]. intros. split_and!; try done. lia. }
  destruct (w_data w) as [buf|] eqn:Hbuf.
  - destruct (Z.eqb_spec size 0).
    + eexists. split; [done|]. split; [|split; [by apply Hf|done]]. split_and!; cbn; try done; try lia; try apply Hb.
    + bsimp. destruct data as [d|]; [|bsimp; lia]. change (default [] (Some d)) with d.
      rewrite ldn_Some by lia. rewrite drop_0.
      assert (len (take (Z.to_nat size) d) = size) as Hl by (rewrite length_take; lia).
      rewrite stn_Some by lia. eexists. split; [done|].
      assert (length (splice buf (w_size w) (take (Z.to_nat size) d)) = length buf) as Hlen by (apply length_splice; lia).
      split; [|split; [by apply Hf|done]]. split_and!; cbn; try done; try lia; rewrite Hlen; lia.
  - eexists. split; [done|]. split; [|split; [by apply Hf|done]]. split_and!; cbn; try done; lia.
Qed.

Lemma wgood_first_error e w : writer_ok w -> wgood_at (fun w => Some (first_error e w)) w.
Proof.
  intros Hw. pose proof (wgood_set (fun s => match s with None => Some (of_wire e) | s => s end) w Hw) as H.
  unfold wgood_at, first_error, w_fail, set_status, shadow in *. cbn [w_status] in *. by destruct w as [? ? ? []].
Qed.

Lemma integer_bytes_eq value width n :
  0 <= value -> width = Z.of_nat n -> (n = 1 \/ n = 2 \/ n = 4 \/ n = 8)%nat ->
  exists r, integer_bytes value width = Ret (le_bytes n value ++ r) /\ len r = 8 - width.
Proof.
  intros Hv -> Hw. assert (enc_ok 8 (Enc (zeros 8) 0)) as Hok by done.
  assert (forall w k, 1 <= w <= 8 -> 0 <= k ->
    mysql_wire_write_le (Some (zeros 8)) 8 (Some 0) w k =
      (Ret tt, Some (splice (zeros 8) 0 (le_bytes (Z.to_nat w) k)), Some w)) as Hle.
  { intros w k Hw' Hk. rewrite (write_le_eq 8 _ _ _ _ Hok) by done. destruct (Z.leb_spec (0 + w) 8); [done|lia]. }
  destruct Hw as [->|[->|[->| ->]]];
    [change (Z.of_nat 1) with 1|change (Z.of_nat 2) with 2|change (Z.of_nat 4) with 4|change (Z.of_nat 8) with 8];
    unfold integer_bytes, mysql_wire_write_u16_le, mysql_wire_write_u32_le, mysql_wire_write_u64_le; cbn [Z.eqb Pos.eqb].
  - eexists. split; [done|]. done.
  - rewrite Hle by (try apply u16_range; lia). rewrite splice_0. eexists. split.
    + do 2 f_equal. apply (le_bytes_mod 2).
    + by rewrite length_drop, length_le_bytes.
  - rewrite Hle by (try apply u32_range; lia). rewrite splice_0. eexists. split.
    + do 2 f_equal. apply (le_bytes_mod 4).
    + by rewrite length_drop, length_le_bytes.
  - rewrite Hle by lia. rewrite splice_0. eexists. split; [done|]. by rewrite length_drop, length_le_bytes.
Qed.

Lemma wgood_integer value width :
  0 <= value -> width = 1 \/ width = 2 \/ width = 4 \/ width = 8 -> wgood (integer value width).
Proof.
  intros Hv Hw w Hok. destruct (integer_bytes_eq value width (Z.to_nat width)) as (r & Hb & Hr); [lia..|].
  unfold wgood_at, integer. rewrite Hb. apply wgood_emit; [|done].
  split; [lia|]. rewrite length_app, length_le_bytes. lia.
Qed.

Lemma lenenc_eq value w :
  0 <= value < 2 ^ 64 -> exists r, lenenc value w = emit (Some (lenenc_enc value ++ r)) (len (lenenc_enc value)) w.
Proof.
  intros Hv. unfold lenenc. destruct (write_lenenc_uint_eq 9 (zeros 9) 0 value) as (b & _ & ->); [done..|].
  pose proof (lenenc_enc_length value). rewrite Z.add_0_l. destruct (Z.leb_spec (len (lenenc_enc value)) 9); [|lia].
  rewrite splice_0. by eexists.
Qed.

Lemma wgood_lenenc value : 0 <= value < 2 ^ 64 -> wgood (lenenc value).
Proof.
  intros Hv w Hw. destruct (lenenc_eq value w Hv) as (r & Hr).
  destruct (lenenc_eq value (shadow w) Hv) as (r' & Hr').
  pose proof (lenenc_enc_length value).
  assert (readable (Some (lenenc_enc value ++ r)) (len (lenenc_enc value))) as Hrd.
  { split; [lia|]. rewrite length_app. lia. }
  destruct (wgood_emit _ _ Hrd w Hw) as (w' & H1 & H2 & H3 & H4).
  exists w'. rewrite Hr, Hr'. by split_and!.
Qed.

Definition view_in (v : mysql_wire_bytes_t) : Prop := readable (wb_data v) (wb_length v).

Lemma wgood_write_bytes v : view_in v -> wgood (write_bytes v).
Proof.
  intros Hv w Hw. pose proof Hv as [Hs _]. unfold write_bytes. destruct (absent v); [by apply wgood_fail|].
  apply wgood_seq; [apply wgood_lenenc; [lia|done]|by apply wgood_emit].
Qed.

Lemma wgood_after_status m e w : wgood m -> writer_ok w -> wgood_at (fun w => m (set_status e w)) w.
Proof.
  intros Hm Hw. destruct (Hm (set_status e w) Hw) as (w' & H1 & H2 & H3 & H4). by exists w'.
Qed.

(** Steps in sequence. *)
Ltac wgood_steps :=
  repeat first
    [ done
    | apply wgood_fail
    | apply wgood_integer; (lia || done)
    | apply wgood_lenenc; (lia || done)
    | apply wgood_write_bytes
    | apply wgood_emit
    | apply wgood_seq
    | match goal with |- wgood (fun w => _) => let w := fresh "w" in let H := fresh "Hw" in intros w H end
    | match goal with |- wgood_at (fun w => if ?b then _ else _) _ => destruct b end
    | match goal with |- wgood_at (fun w => integer _ _ (set_status ?e w)) _ =>
        apply (wgood_after_status (integer _ _)) end ].

Definition ok_in (p : mysql_wire_ok_packet_t) : Prop :=
  0 <= ok_header p /\ 0 <= ok_affected_rows p < 2 ^ 64 /\ 0 <= ok_last_insert_id p < 2 ^ 64 /\
  0 <= ok_status_flags p /\ 0 <= ok_warnings p /\ view_in (ok_info p).

Lemma wgood_ok_write p deprecated : ok_in p -> wgood (ok_write (Some p) deprecated).
Proof. intros (? & ? & ? & ? & ? & Hi) w Hw. unfold ok_write. wgood_steps. Qed.

Definition column_in (c : mysql_column_definition_t) : Prop :=
  view_in (col_catalog c) /\ view_in (col_schema c) /\ view_in (col_table c) /\ view_in (col_org_table c) /\
  view_in (col_name c) /\ view_in (col_org_name c) /\
  0 <= col_character_set c /\ 0 <= col_column_length c /\ 0 <= col_type c /\ 0 <= col_flags c /\ 0 <= col_decimals c.

Lemma wgood_column_write c : column_in c -> wgood (column_write (Some c)).
Proof. intros (? & ? & ? & ? & ? & ? & ? & ? & ? & ? & ?) w Hw. unfold column_write. wgood_steps. Qed.

Lemma wgood_zero_bytes n : wgood (zero_bytes n).
Proof.
  induction n as [|n IH]; intros w Hw; cbn [zero_bytes].
  - exists w. split; [done|]. split; [done|]. split; [apply follows_refl|done].
  - apply wgood_seq; [|done]. by apply wgood_integer; [lia|lia|].
Qed.

(** ** Text of numbers: it fits the buffer *)

Lemma digits_length fuel n acc : (length (digits fuel n acc) <= fuel + length acc)%nat.
Proof.
  revert n acc. induction fuel as [|fuel IH]; intros n acc; cbn [digits]; [lia|].
  case_match; [cbn [length]; lia|]. specialize (IH (n / 10) (48 + n mod 10 :: acc)). cbn [length] in IH. lia.
Qed.

Lemma digits_bytes fuel n acc : bytes_ok acc -> bytes_ok (digits fuel n acc).
Proof.
  revert n acc. induction fuel as [|fuel IH]; intros n acc Ha; cbn [digits]; [done|].
  pose proof (Z.mod_pos_bound n 10). assert (bytes_ok (48 + n mod 10 :: acc)) by (apply Forall_cons_2; [lia|done]).
  case_match; auto.
Qed.

(** ** Rows: safety *)

Lemma wgood_or_data index mask w : writer_ok w -> 0 <= index < w_size w -> wgood_at (or_data index mask) w.
Proof.
  intros Hw Hi. pose proof Hw as (Hs & Hc & Hb). unfold wgood_at, or_data. cbn [shadow w_data].
  destruct (w_data w) as [d|] eqn:Hd.
  - destruct (ld_is_Some d index) as [b Hb']; [lia|]. rewrite Hb'. cbn [mbind option_bind].
    rewrite st_Some by lia. cbn [mbind option_bind]. eexists. split; [done|].
    split; [|split; [|done]]; split_and!; cbn; rewrite ?Hd, ?length_insert; try done; lia.
  - exists w. split; [done|]. split; [done|]. split; [apply follows_refl|done].
Qed.

Definition value_in (v : turbodb_value_t) : Prop :=
  match tv_data v with
  | TURBODB_VALUE_UINT64 z | TURBODB_VALUE_DOUBLE z | TURBODB_VALUE_BOOLEAN z => 0 <= z
  | TURBODB_VALUE_TEXT t => readable (vs_data t) (vs_len t)
  | TURBODB_VALUE_BLOB t => readable (blob_data t) (blob_size t)
  | _ => True
  end.

Section LocaleSafe.
Context (decimal_point : bytes).

Lemma text_value_total v :
  value_in v ->
  match text_value decimal_point v with Ret text => view_in text | Err _ => True | Fault => False end.
Proof.
  unfold value_in, text_value.
  assert (forall text : bytes, match (if RESPONSE_NUMBER_BYTES <=? len text then Err TDSQL_MYSQL_LIMIT
    else Ret (mk_wire_bytes (Some text) (len text) false)) with
    | Ret text => view_in text | Err _ => True | Fault => False end) as Hp.
  { intros text. unfold RESPONSE_NUMBER_BYTES. destruct (Z.leb_spec 64 (len text)); [done|].
    split; cbn [wb_length wb_data]; lia. }
  intros Hv. destruct (tv_data v); try done; try apply Hp.
  destruct (bool_decide _); [apply Hp|done].
Qed.

Lemma wgood_value_write v i bitmap_offset (binary : bool) w :
  writer_ok w -> value_in v -> 0 <= i -> 0 <= bitmap_offset ->
  (binary = true -> bitmap_offset + (i + 2) / 8 < w_size w) ->
  wgood_at (value_write decimal_point v i bitmap_offset binary) w.
Proof.
  intros Hw Hv Hi Hb Hbit. pose proof (text_value_total v Hv) as Ht. unfold value_write.
  assert (forall m, wgood m ->
    wgood_at (fun w => if negb binary
      then match text_value decimal_point v with
           | Ret text => write_bytes text (set_status None w)
           | Err e => Some (w_fail e w)
           | Fault => None
           end
      else m w) w) as Hcase.
  { intros m Hm. destruct binary; cbn [negb]; [by apply Hm|].
    destruct (text_value decimal_point v) as [text|e|]; [|by apply wgood_fail|done].
    apply (wgood_after_status (write_bytes text)); [by apply wgood_write_bytes|done]. }
  unfold value_in in Hv. destruct (tv_data v) as [|z|z|z|z|t|t|k]; try apply Hcase.
  - destruct binary; cbn [negb]; [|by apply wgood_integer; [|lia|]].
    pose proof (Z.div_pos (i + 2) 8 ltac:(lia) ltac:(lia)). apply wgood_or_data; [done|].
    unfold RESPONSE_BINARY_OFFSET, TDSQL_MYSQL_BYTE_BITS. specialize (Hbit eq_refl). lia.
  - apply wgood_integer; [apply u64_range|lia].
  - apply wgood_integer; [done|lia].
  - apply wgood_integer; [done|lia].
  - apply wgood_integer; [done|lia].
  - by apply wgood_write_bytes.
  - by apply wgood_write_bytes.
  - apply wgood_fail.
Qed.

Lemma wgood_row_values values bitmap_offset (binary : bool) n : forall i w,
  writer_ok w -> Forall value_in values -> 0 <= i -> i + Z.of_nat n <= len values -> 0 <= bitmap_offset ->
  (binary = true -> w_status w = None -> bitmap_offset + (i + Z.of_nat n + 9) / 8 <= w_size w) ->
  wgood_at (row_values_write decimal_point values bitmap_offset binary n i) w.
Proof.
  induction n as [|n IH]; intros i w Hw Hv Hi Hn Hb Hbit; unfold wgood_at; cbn [row_values_write].
  { exists w. split; [done|]. split; [done|]. split; [apply follows_refl|done]. }
  change (w_status (shadow w)) with (w_status w). destruct (w_status w) eqn:Hst.
  { exists w. split; [done|]. split; [done|]. split; [apply follows_refl|done]. }
  destruct (Z.ltb_spec i 0); [lia|]. destruct (lookup_lt_is_Some_2 values (Z.to_nat i)) as [v Hl]; [lia|].
  rewrite Hl. cbn [mbind option_bind]. destruct (value_check v) as [[]|e|] eqn:Hcheck.
  - apply (wgood_bind (fun w => value_write decimal_point v i bitmap_offset binary (set_status None w))
      (row_values_write decimal_point values bitmap_offset binary n (i + 1)) w).
    + assert (set_status None w = w) as Hset by (destruct w; cbn in *; by subst).
      assert (forall m, wgood_at m w -> wgood_at (fun w => m (set_status None w)) w) as Hwrap.
      { intros m (w' & H1 & H2 & H3 & H4). exists w'.
        assert (set_status None (shadow w) = shadow w) as Hset' by (destruct w; cbn in *; by subst).
        rewrite Hset, Hset'. done. }
      apply Hwrap. apply wgood_value_write; try done; [by eapply Forall_lookup_1|].
      intros Hbin. specialize (Hbit Hbin eq_refl).
      assert ((i + 2) / 8 < (i + Z.of_nat (S n) + 9) / 8); [|lia].
      apply (Z.lt_le_trans _ ((i + 2 + 1 * 8) / 8)); [rewrite Z.div_add by lia; lia|]. apply Z.div_le_mono; lia.
    + intros w' Hw' Hok (Hcap & Hsz & _). apply IH; try done; try lia. intros Hbin Hst'.
      specialize (Hbit Hbin eq_refl). replace (i + 1 + Z.of_nat n) with (i + Z.of_nat (S n)) by lia. lia.
  - apply (wgood_fail e w Hw).
  - unfold value_check in Hcheck. repeat case_match; done.
Qed.
End LocaleSafe.

Lemma integer_zero_size w w' : integer 0 1 w = Some w' -> w_status w' = None -> w_size w' = w_size w + 1.
Proof.
  unfold integer. change (integer_bytes 0 1) with (Ret (E := mysql_wire_status_t) (zeros 8)). unfold emit.
  destruct (w_status w) eqn:Hst; [intros [= <-]; congruence|].
  destruct (_ || _); [intros [= <-]; done|]. destruct (size_sub _ _ <? 1); [intros [= <-]; done|].
  destruct (w_data w); [|by intros [= <-]]. change (1 =? 0) with false. cbn iota.
  destruct (ldn _ _ _); [|done]. destruct (stn _ _ _); [|done]. by intros [= <-].
Qed.

Lemma zero_bytes_size n : forall w w', zero_bytes n w = Some w' -> w_status w' = None -> w_size w' = w_size w + Z.of_nat n.
Proof.
  induction n as [|n IH]; intros w w'; cbn [zero_bytes]; [intros [= <-] _; lia|].
  destruct (integer 0 1 w) as [w1|] eqn:H1; [|done]. cbn [mbind option_bind]. intros Hz Hst.
  pose proof (IH w1 w' Hz Hst). destruct (w_status w1) eqn:Hs1.
  - exfalso. clear IH H. revert w1 Hs1 Hz H1. induction n as [|n IH]; intros w1 Hs1 Hz H1; cbn [zero_bytes] in Hz.
    { injection Hz as ->. congruence. }
    assert (integer 0 1 w1 = Some w1) as Hi.
    { unfold integer. change (integer_bytes 0 1) with (Ret (E := mysql_wire_status_t) (zeros 8)). unfold emit. by rewrite Hs1. }
    rewrite Hi in Hz. by apply (IH w1).
  - pose proof (integer_zero_size w w1 H1 Hs1). lia.
Qed.

Definition response_in (r : response) : Prop :=
  match r with
  | RESPONSE_OK (Some p) _ => ok_in p
  | RESPONSE_ERR code (Some state) message => 0 <= code /\ 5 <= len state < 2 ^ 63 /\ view_in message
  | RESPONSE_EOF (Some p) => 0 <= eof_warnings p /\ 0 <= eof_status_flags p
  | RESPONSE_PREPARE (Some p) =>
      0 <= po_statement_id p /\ 0 <= po_column_count p /\ 0 <= po_parameter_count p /\ 0 <= po_warning_count p
  | RESPONSE_COLUMN (Some c) => column_in c
  | RESPONSE_COUNT count => 0 <= count
  | RESPONSE_ROW (Some vs) count _ => 0 <= count <= len vs /\ Forall value_in vs
  | _ => True
  end.

Section ResponseSafe.
Context (decimal_point : bytes).

Lemma wgood_row_write vs count (binary : bool) :
  0 <= count <= len vs -> Forall value_in vs -> wgood (row_write decimal_point (Some vs) count binary).
Proof.
  intros Hc Hv w Hw. unfold row_write. destruct (Z.eqb_spec count 0); [by apply wgood_fail|].
  destruct (0xffff <? count); [by apply wgood_fail|]. unfold TDSQL_MYSQL_BYTE_BITS, RESPONSE_BINARY_OFFSET.
  replace (count + 8 - 1 + 2) with (count + 9) by lia.
  pose proof (Z.div_pos (count + 9) 8 ltac:(lia) ltac:(lia)). destruct binary.
  - apply wgood_bind; [by apply wgood_integer; [|lia|]|]. intros w1 H1 Hok1 _.
    destruct (wgood_zero_bytes (Z.to_nat ((count + 9) / 8)) w1 Hok1) as (w2 & H2 & Hok2 & Hf2 & Hs2).
    destruct (wgood_row_values decimal_point vs (w_size w1) true (Z.to_nat count) 0 w2) as (w3 & H3 & Hok3 & Hf3 & Hs3);
      try done; try lia.
    { apply Hok1. }
    { intros _ Hst. rewrite (zero_bytes_size _ _ _ H2 Hst). replace (0 + Z.of_nat (Z.to_nat count) + 9) with (count + 9) by lia. lia. }
    exists w3. rewrite H2, Hs2. cbn [mbind option_bind]. split_and!; try done. by eapply follows_trans.
  - by apply wgood_row_values; try lia.
Qed.

Lemma sqlstate_scan_Some state n i : 0 <= i -> i + Z.of_nat n <= len state -> is_Some (sqlstate_scan state n i).
Proof.
  revert i. induction n as [|n IH]; intros i Hi Hl; cbn [sqlstate_scan]; [by eexists|].
  destruct (ld_is_Some state i) as [c ->]; [lia|]. case_match; [|by eexists]. apply IH; lia.
Qed.

Lemma wgood_response r : response_in r -> wgood (response_write decimal_point r).
Proof.
  destruct r as [[p|] flag|code [state|] message|[p|]|[p|]|[c|]|count|[vs|] count flag]; cbn [response_in];
    intros Hr w Hw; unfold response_write; try (by apply wgood_fail).
  - by apply wgood_ok_write.
  - destruct Hr as (H1 & H2 & H3). destruct (_ || _); [by apply wgood_fail|]. destruct (_ <? _); [by apply wgood_fail|].
    destruct (sqlstate_scan_Some state (Z.to_nat RESPONSE_SQLSTATE_BYTES) 0) as [[] ->];
      [lia|unfold RESPONSE_SQLSTATE_BYTES; lia| |by apply wgood_fail].
    assert (readable (Some state) RESPONSE_SQLSTATE_BYTES) by (split; [done|unfold RESPONSE_SQLSTATE_BYTES; lia]).
    wgood_steps.
  - destruct Hr as (H1 & H2). wgood_steps.
  - destruct Hr as (H1 & H2 & H3 & H4). wgood_steps.
  - by apply wgood_column_write.
  - destruct (count =? 0); [by apply wgood_fail|]. destruct (Z.ltb_spec 0xffff count); [by apply wgood_fail|].
    apply wgood_lenenc; [lia|done].
  - destruct Hr as [H1 H2]. by apply wgood_row_write.
Qed.
End ResponseSafe.

(** ** Properties *)

Definition output_in (o : tdsql_mysql_output) : Prop :=
  0 <= out_capacity o < 2 ^ 63 /\
  match out_data o with Some d => out_capacity o <= len d /\ len d < 2 ^ 63 | None => True end.

(** Every response encoder is memory safe and all or nothing: whatever the
    response (OK, ERR, EOF, PREPARE, column, count, text or binary row, valid or
    not) and whatever the capacity, either it fails and the output structure and
    every byte of the caller's buffer are what they were, or it succeeds with a
    size within the capacity and the buffer keeps its length. The second run
    cannot fail after the first one succeeded. *)
Theorem response_encode_all_or_nothing decimal_point r o :
  response_in r -> output_in o ->
  exists result o', response_encode decimal_point r (Some o) = (result, Some o') /\
    ((exists e, result = Err e) /\ o' = o \/
     result = Ret tt /\ out_capacity o' = out_capacity o /\ 0 <= out_size o' <= out_capacity o /\
       match out_data o, out_data o' with
       | Some d, Some d' => length d' = length d
       | None, None => True
       | _, _ => False
       end).
Proof.
  intros Hr [Hc Hd]. pose proof (wgood_response decimal_point r Hr) as Hgood. unfold response_encode.
  set (w := mk_writer (out_data o) 0 (out_capacity o) None).
  assert (writer_ok w) as Hw by (split_and!; cbn; try lia; done).
  destruct (Hgood w Hw) as (w' & H1 & Hok & (Hcap & Hsz & Hlen) & H2).
  change (mk_writer None 0 (out_capacity o) None) with (shadow w). rewrite H2. cbn [shadow w_status w_size].
  destruct (w_status w') as [e|] eqn:Hst; [eauto 10|].
  assert (0 <= w_size w' <= out_capacity o) as Hsize.
  { destruct Hok as (Hs & _). cbn in Hcap. by rewrite Hcap in Hs. }
  unfold w in H1, Hlen. cbn [w_data] in Hlen. destruct (out_data o) as [d|].
  - rewrite H1, Hst. do 2 eexists. split; [done|]. right. cbn. split_and!; try done; try lia.
  - do 2 eexists. split; [done|]. right. cbn. split_and!; try done; lia.
Qed.

(** ** What a response consists of

    [wstep m l l']: from a writer that has written exactly [l], with or without
    a buffer, [m] continues to [l'], or runs into the capacity. A sticky step
    does nothing after an error. *)

Definition wr (d : ptr bytes) (cap : Z) (l : bytes) : writer :=
  mk_writer (match d with Some b => Some (splice b 0 l) | None => None end) (len l) cap None.

Definition base_ok (d : ptr bytes) (cap : Z) : Prop :=
  0 <= cap < 2 ^ 63 /\ match d with Some b => cap <= len b /\ len b < 2 ^ 63 | None => True end.

Definition sticky (m : W) : Prop := forall w, w_status w <> None -> m w = Some w.

Definition wstep (m : W) (l l' : bytes) : Prop :=
  len l <= len l' /\
  forall d cap, base_ok d cap -> len l <= cap ->
  if len l' <=? cap then m (wr d cap l) = Some (wr d cap l')
  else exists w', m (wr d cap l) = Some w' /\ w_status w' = Some TDSQL_MYSQL_LIMIT.

Create HintDb wstep discriminated.

Lemma sticky_emit data size : sticky (emit data size).
Proof. intros w Hw. unfold emit. by destruct (w_status w). Qed.

Lemma sticky_integer value n : 0 <= value -> (n = 1 \/ n = 2 \/ n = 4 \/ n = 8)%nat -> sticky (integer value (Z.of_nat n)).
Proof.
  intros Hv Hn w Hw. unfold integer. destruct (integer_bytes_eq value (Z.of_nat n) n) as (r & -> & _); [done..|].
  by apply sticky_emit.
Qed.

Lemma sticky_lenenc value : 0 <= value < 2 ^ 64 -> sticky (lenenc value).
Proof. intros Hv w Hw. destruct (lenenc_eq value w Hv) as (r & ->). by apply sticky_emit. Qed.

Lemma sticky_bind m (k : W) : sticky m -> sticky k -> sticky (fun w => w ← m w; k w).
Proof. intros Hm Hk w Hw. rewrite Hm by done. by apply Hk. Qed.

Lemma wstep_bind m (k : W) l l1 l2 :
  wstep m l l1 -> wstep k l1 l2 -> sticky k -> wstep (fun w => w ← m w; k w) l l2.
Proof.
  intros [Hl1 H1] [Hl2 H2] Hk. split; [lia|]. intros d cap Hb Hl. specialize (H1 d cap Hb Hl).
  destruct (Z.leb_spec (len l1) cap).
  - rewrite H1. by apply H2.
  - destruct H1 as (w' & -> & Hw'). destruct (Z.leb_spec (len l2) cap); [lia|]. exists w'. split; [|done].
    apply Hk. by rewrite Hw'.
Qed.

Lemma wstep_emit data a l :
  (exists r, data = Some (a ++ r)) \/ data = None /\ a = [] -> len a < 2 ^ 63 ->
  wstep (emit data (len a)) l (l ++ a).
Proof.
  intros Hd Ha. split; [rewrite length_app; lia|]. intros d cap [Hcap Hbuf] Hl. unfold emit. cbn [wr w_status w_capacity w_size].
  assert (match data with None => negb (len a =? 0) | Some _ => false end = false) as ->.
  { by destruct Hd as [[r ->]|[-> ->]]. }
  destruct (Z.ltb_spec cap (len l)); [lia|]. cbn [orb]. rewrite size_sub_small by lia.
  rewrite length_app, Nat2Z.inj_add. destruct (Z.ltb_spec (cap - len l) (len a)), (Z.leb_spec (len l + len a) cap); try lia.
  { eexists. by split. }
  cbn [wr w_data]. unfold wr. rewrite length_app, Nat2Z.inj_add. destruct d as [b|]; [|done].
  destruct (Z.eqb_spec (len a) 0) as [Ha0|Ha0].
  { destruct a; [|done]. rewrite app_nil_r. done. }
  destruct Hd as [[r ->]|[-> ->]]; [|done]. change (default [] (Some (a ++ r))) with (a ++ r).
  rewrite ldn_prefix by done. destruct Hbuf as [Hb1 Hb2].
  rewrite stn_Some by (rewrite ?length_splice; lia). rewrite <- (splice_app b 0 l a) by lia. by rewrite Z.add_0_l.
Qed.

Lemma wstep_integer value n l :
  0 <= value -> (n = 1 \/ n = 2 \/ n = 4 \/ n = 8)%nat -> wstep (integer value (Z.of_nat n)) l (l ++ le_bytes n value).
Proof.
  intros Hv Hn. destruct (integer_bytes_eq value (Z.of_nat n) n) as (r & Hb & _); [done..|].
  pose proof (wstep_emit (Some (le_bytes n value ++ r)) (le_bytes n value) l) as He.
  rewrite length_le_bytes in He. destruct He as [H1 H2]; [by left; exists r|lia|]. split; [done|].
  intros d cap Hok Hl. unfold integer. rewrite Hb. by apply H2.
Qed.

Lemma wstep_lenenc value l : 0 <= value < 2 ^ 64 -> wstep (lenenc value) l (l ++ lenenc_enc value).
Proof.
  intros Hv. pose proof (lenenc_enc_length value). split; [rewrite length_app; lia|]. intros d cap Hok Hl.
  destruct (lenenc_eq value (wr d cap l) Hv) as (r & ->).
  destruct (wstep_emit (Some (lenenc_enc value ++ r)) (lenenc_enc value) l) as [_ H2]; [by left; exists r|lia|].
  by apply H2.
Qed.

(** A view of the bytes [a]. *)
Definition views (v : mysql_wire_bytes_t) (a : bytes) : Prop :=
  wb_is_null v = false /\ wb_length v = len a /\ len a < 2 ^ 63 /\
  ((exists r, wb_data v = Some (a ++ r)) \/ wb_data v = None /\ a = []).

Lemma views_present v a : views v a -> absent v = false.
Proof.
  intros (Hn & Hl & _ & Hd). unfold absent. rewrite Hn, Hl. by destruct Hd as [[r ->]|[-> ->]].
Qed.

Lemma wstep_write_bytes v a l : views v a -> wstep (write_bytes v) l (l ++ lenenc_bytes_enc a).
Proof.
  intros Hv. pose proof (views_present v a Hv) as Hp. destruct Hv as (_ & Hl & Hm & Hd).
  assert (wstep (fun w => w ← lenenc (wb_length v) w; emit (wb_data v) (wb_length v) w) l (l ++ lenenc_bytes_enc a)) as H.
  { unfold lenenc_bytes_enc. rewrite app_assoc, Hl.
    eapply wstep_bind; [apply wstep_lenenc; lia|by apply wstep_emit|apply sticky_emit]. }
  destruct H as [H1 H2]. split; [done|]. intros d cap Hb Hc. unfold write_bytes. rewrite Hp. by apply H2.
Qed.

Lemma sticky_write_bytes v a : views v a -> sticky (write_bytes v).
Proof.
  intros Hv w Hw. unfold write_bytes. rewrite (views_present v a Hv). destruct Hv as (_ & -> & Hm & _).
  apply (sticky_bind (lenenc (len a)) (emit (wb_data v) (len a))); [apply sticky_lenenc; lia|apply sticky_emit|done].
Qed.

Lemma wstep_ext m m' l l' : (forall w, m' w = m w) -> wstep m l l' -> wstep m' l l'.
Proof. intros He [H1 H2]. split; [done|]. intros d cap. rewrite He. apply H2. Qed.

(** The encoder on a response whose bytes are known. *)
Lemma response_encode_eq decimal_point r enc o :
  wstep (response_write decimal_point r) [] enc -> output_in o ->
  response_encode decimal_point r (Some o) =
    if len enc <=? out_capacity o
    then (Ret tt, Some (mk_output (match out_data o with Some d => Some (splice d 0 enc) | None => None end)
                          (out_capacity o) (len enc)))
    else (Err TDSQL_MYSQL_LIMIT, Some o).
Proof.
  intros [_ Hw] [Hc Hd]. unfold response_encode.
  assert (mk_writer None 0 (out_capacity o) None = wr None (out_capacity o) []) as -> by done.
  pose proof (Hw None (out_capacity o) ltac:(done) ltac:(cbn; lia)) as Hm.
  destruct (Z.leb_spec (len enc) (out_capacity o)).
  - rewrite Hm. cbn [wr w_status w_size]. destruct (out_data o) as [b|] eqn:Hb; [|done].
    assert (mk_writer (Some b) 0 (out_capacity o) None = wr (Some b) (out_capacity o) []) as ->.
    { unfold wr. by rewrite splice_nil. }
    pose proof (Hw (Some b) (out_capacity o) ltac:(done) ltac:(cbn; lia)) as Hm2.
    destruct (Z.leb_spec (len enc) (out_capacity o)); [|lia]. by rewrite Hm2.
  - destruct Hm as (w' & -> & ->). done.
Qed.

Lemma wstep_byte v l : 0 <= v < 256 -> wstep (integer v 1) l (l ++ [v]).
Proof.
  intros Hv. pose proof (wstep_integer v 1 l ltac:(lia) ltac:(lia)) as H.
  change (le_bytes 1 v) with [v mod 256] in H. by rewrite Z.mod_small in H by lia.
Qed.

Lemma wstep_int2 v l : 0 <= v -> wstep (integer v 2) l (l ++ le_bytes 2 v).
Proof. intros. by apply (wstep_integer v 2); [|lia]. Qed.
Lemma wstep_int4 v l : 0 <= v -> wstep (integer v 4) l (l ++ le_bytes 4 v).
Proof. intros. by apply (wstep_integer v 4); [|lia]. Qed.
Lemma wstep_int8 v l : 0 <= v -> wstep (integer v 8) l (l ++ le_bytes 8 v).
Proof. intros. by apply (wstep_integer v 8); [|lia]. Qed.
Lemma sticky_int1 v : 0 <= v -> sticky (integer v 1).
Proof. intros. by apply (sticky_integer v 1); [|lia]. Qed.
Lemma sticky_int2 v : 0 <= v -> sticky (integer v 2).
Proof. intros. by apply (sticky_integer v 2); [|lia]. Qed.
Lemma sticky_int4 v : 0 <= v -> sticky (integer v 4).
Proof. intros. by apply (sticky_integer v 4); [|lia]. Qed.
Lemma sticky_int8 v : 0 <= v -> sticky (integer v 8).
Proof. intros. by apply (sticky_integer v 8); [|lia]. Qed.

Ltac sticky_steps :=
  repeat first
    [ apply sticky_emit
    | apply sticky_int1; lia | apply sticky_int2; lia | apply sticky_int4; lia | apply sticky_int8; lia
    | apply sticky_lenenc; lia
    | eapply sticky_write_bytes; eassumption
    | apply sticky_bind ].

Lemma wstep_emit_view v a l : views v a -> wstep (emit (wb_data v) (wb_length v)) l (l ++ a).
Proof. intros (_ & -> & Hm & Hd). by apply wstep_emit. Qed.

Lemma wstep_set_status m l l' : wstep m l l' -> wstep (fun w => m (set_status None w)) l l'.
Proof. by intros [H1 H2]. Qed.

Ltac wstep_prim :=
  first
    [ apply wstep_byte; lia | apply wstep_int2; lia | apply wstep_int4; lia | apply wstep_int8; lia
    | apply wstep_lenenc; lia | apply wstep_write_bytes; eassumption | apply wstep_emit_view; eassumption
    | apply (wstep_set_status (integer _ _)); apply wstep_byte; lia ].

(** A sequence of steps towards a left-nested concatenation. *)
Ltac wstep_go :=
  lazymatch goal with
  | |- wstep (fun w => _ ≫= _) _ _ => eapply wstep_bind; [wstep_prim| |by sticky_steps]; wstep_go
  | |- _ => wstep_prim
  end.

Definition ok_enc (p : mysql_wire_ok_packet_t) (info : bytes) : bytes :=
  [ok_header p] ++ lenenc_enc (ok_affected_rows p) ++ lenenc_enc (ok_last_insert_id p) ++
  le_bytes 2 (ok_status_flags p) ++ le_bytes 2 (ok_warnings p) ++ info.

Definition eof_enc (p : mysql_wire_eof_packet_t) : bytes :=
  [0xfe] ++ le_bytes 2 (eof_warnings p) ++ le_bytes 2 (eof_status_flags p).

Definition err_enc (code : Z) (state message : bytes) : bytes :=
  [0xff] ++ le_bytes 2 code ++ [35] ++ state ++ message.

Lemma status_flags_ok f : 0 <= f < 2 ^ 16 -> has_bits 0x2003 f ->
  (Z.land f 0x2000 <> 0 -> Z.land f 1 <> 0) -> status_flags f = Ret tt.
Proof.
  intros Hf Hs Hr. unfold status_flags.
  assert (u16 (Z.lnot (Z.lor TDSQL_MYSQL_SERVER_IN_TRANS
    (Z.lor TDSQL_MYSQL_SERVER_AUTOCOMMIT TDSQL_MYSQL_SERVER_IN_TRANS_READONLY))) = 0xdffc) as -> by done.
  assert (Z.land f 0xdffc = 0) as ->.
  { unfold has_bits in Hs. rewrite <- Hs, (Z.land_comm 0x2003), <- Z.land_assoc. change (Z.land 0x2003 0xdffc) with 0.
    apply Z.land_0_r. }
  change (negb (0 =? 0)) with false. cbn iota.
  unfold TDSQL_MYSQL_SERVER_IN_TRANS_READONLY, TDSQL_MYSQL_SERVER_IN_TRANS.
  destruct (Z.eqb_spec (Z.land f 0x2000) 0), (Z.eqb_spec (Z.land f 1) 0); try done. tauto.
Qed.

(** Flags the server can report: in a transaction, autocommit, read-only. *)
Definition flags_ok (f : Z) : Prop :=
  0 <= f < 2 ^ 16 /\ has_bits 0x2003 f /\ (Z.land f 0x2000 <> 0 -> Z.land f 1 <> 0).

Section Exact.
Context (decimal_point : bytes).

Definition ok_sendable (p : mysql_wire_ok_packet_t) (deprecated : bool) (info : bytes) : Prop :=
  (ok_header p = 0 \/ ok_header p = 0xfe /\ deprecated = true) /\
  0 <= ok_affected_rows p < 2 ^ 64 /\ 0 <= ok_last_insert_id p < 2 ^ 64 /\ flags_ok (ok_status_flags p) /\
  0 <= ok_warnings p < 2 ^ 16 /\ views (ok_info p) info /\ wb_length (ok_session_state p) = 0.

Lemma set_status_wr d cap l : set_status None (wr d cap l) = wr d cap l.
Proof. done. Qed.

Lemma wstep_ok p deprecated info :
  ok_sendable p deprecated info -> wstep (response_write decimal_point (RESPONSE_OK (Some p) deprecated)) [] (ok_enc p info).
Proof.
  intros (Hh & Ha & Hl & (Hf & Hf2 & Hf3) & Hw & Hi & Hs).
  assert (0 <= ok_header p < 256) as Hhr by (destruct Hh as [->|[-> _]]; lia).
  apply (wstep_ext (fun w => w ← integer (ok_header p) 1 (set_status None w);
    w ← lenenc (ok_affected_rows p) w; w ← lenenc (ok_last_insert_id p) w;
    w ← integer (ok_status_flags p) 2 w; w ← integer (ok_warnings p) 2 w;
    emit (wb_data (ok_info p)) (wb_length (ok_info p)) w)).
  { intros w. unfold response_write, ok_write. rewrite Hs, status_flags_ok by done. unfold RESPONSE_EOF_MARKER.
    assert (negb (ok_header p =? 0) && negb (ok_header p =? 0xfe) = false) as -> by (by destruct Hh as [->|[-> _]]).
    assert ((ok_header p =? 0xfe) && negb deprecated || negb (0 =? 0) = false) as -> by (by destruct Hh as [->|[-> ->]]).
    rewrite (views_present _ _ Hi). done. }
  unfold ok_enc. rewrite <- (app_nil_l [ok_header p]), !app_assoc. wstep_go.
Qed.

Lemma wstep_eof p :
  flags_ok (eof_status_flags p) -> 0 <= eof_warnings p < 2 ^ 16 ->
  wstep (response_write decimal_point (RESPONSE_EOF (Some p))) [] (eof_enc p).
Proof.
  intros (Hf & Hf2 & Hf3) Hw.
  apply (wstep_ext (fun w => w ← integer 0xfe 1 (set_status None w); w ← integer (eof_warnings p) 2 w;
    integer (eof_status_flags p) 2 w)).
  { intros w. unfold response_write. by rewrite status_flags_ok. }
  unfold eof_enc. rewrite <- (app_nil_l [0xfe]), !app_assoc. wstep_go.
Qed.

Lemma wstep_prepare p :
  prepare_ok_ok p -> po_statement_id p <> 0 ->
  wstep (response_write decimal_point (RESPONSE_PREPARE (Some p))) [] (prepare_ok_enc p).
Proof.
  intros (H1 & H2 & H3 & H4) Hid. unfold response_write. destruct (Z.eqb_spec (po_statement_id p) 0); [done|].
  unfold prepare_ok_enc. rewrite <- (app_nil_l [0]) at 1. rewrite !app_assoc. wstep_go.
Qed.

Lemma sqlstate_scan_true state rest n : forall i,
  0 <= i -> i + Z.of_nat n = len state -> Forall (fun c => sqlstate_char c = true) state ->
  sqlstate_scan (state ++ rest) n i = Some true.
Proof.
  induction n as [|n IH]; intros i Hi Hl Hs; cbn [sqlstate_scan]; [done|].
  rewrite ld_app_l by lia. destruct (ld_is_Some state i) as [c Hc]; [lia|]. rewrite Hc.
  assert (sqlstate_char c = true) as ->.
  { unfold ld in Hc. case_match; [done|]. by eapply (Forall_lookup_1 _ _ _ _ Hs) in Hc. }
  apply IH; [lia..|done].
Qed.

Lemma wstep_err code state rest message text :
  0 < code < 2 ^ 16 -> len state = 5 -> Forall (fun c => sqlstate_char c = true) state ->
  views message text -> len text <= 512 ->
  wstep (response_write decimal_point (RESPONSE_ERR code (Some (state ++ rest)) message)) [] (err_enc code state text).
Proof.
  intros Hc Hl Hs Hm Ht. unfold response_write. destruct (Z.eqb_spec code 0); [lia|].
  rewrite (views_present _ _ Hm). cbn [orb]. pose proof Hm as (_ & Hlen & _ & _). rewrite Hlen.
  unfold TDSQL_MYSQL_ERRMSG_MAX. destruct (Z.ltb_spec 512 (len text)); [lia|]. rewrite <- Hlen.
  rewrite (sqlstate_scan_true state rest) by (done || (unfold RESPONSE_SQLSTATE_BYTES; lia)).
  assert (forall l, wstep (emit (Some (state ++ rest)) RESPONSE_SQLSTATE_BYTES) l (l ++ state)) as Hstate.
  { intros l. replace RESPONSE_SQLSTATE_BYTES with (len state) by (by rewrite Hl). apply wstep_emit; [|lia].
    left. by exists rest. }
  unfold err_enc. rewrite <- (app_nil_l [0xff]), !app_assoc. unfold RESPONSE_ERR_MARKER.
  do 3 (eapply wstep_bind; [wstep_prim| |by sticky_steps]).
  eapply wstep_bind; [apply Hstate| |by sticky_steps]. wstep_prim.
Qed.

(** A column definition with these six texts. *)
Definition column_views (c : mysql_column_definition_t) (texts : list bytes) : Prop :=
  match texts with
  | [catalog; schema; table; org_table; name; org_name] =>
      views (col_catalog c) catalog /\ views (col_schema c) schema /\ views (col_table c) table /\
      views (col_org_table c) org_table /\ views (col_name c) name /\ views (col_org_name c) org_name
  | _ => False
  end.

Definition column_sendable (c : mysql_column_definition_t) : Prop :=
  one_of (col_type c) [MYSQL_TYPE_TINY; MYSQL_TYPE_DOUBLE; MYSQL_TYPE_NULL; MYSQL_TYPE_LONGLONG;
                       MYSQL_TYPE_BLOB; MYSQL_TYPE_VAR_STRING] = true /\
  0 <= col_character_set c < 2 ^ 16 /\ 0 <= col_column_length c < 2 ^ 32 /\ 0 <= col_flags c < 2 ^ 16 /\
  0 <= col_decimals c < 256.

Definition column_enc (c : mysql_column_definition_t) (texts : list bytes) : bytes :=
  concat (map lenenc_bytes_enc texts) ++
  column_fixed_enc (col_character_set c) (col_column_length c) (col_type c) (col_flags c) (col_decimals c).

Lemma one_of_In z l : one_of z l = true -> In z l.
Proof. unfold one_of. by intros (x & Hx & ->%Z.eqb_eq)%existsb_exists. Qed.

Lemma wstep_column c texts :
  column_views c texts -> column_sendable c ->
  wstep (response_write decimal_point (RESPONSE_COLUMN (Some c))) [] (column_enc c texts).
Proof.
  intros Hv (Ht & Hc & Hl & Hf & Hd).
  destruct texts as [|t1 [|t2 [|t3 [|t4 [|t5 [|t6 [|]]]]]]]; try done. destruct Hv as (V1 & V2 & V3 & V4 & V5 & V6).
  assert (0 <= col_type c < 256) as Htr.
  { apply one_of_In in Ht. cbn [In] in Ht. by repeat destruct Ht as [<-|Ht]. }
  unfold response_write, column_write. rewrite Ht. unfold column_enc, column_fixed_enc, RESPONSE_COLUMN_FIXED.
  cbn [map concat]. rewrite app_nil_r. rewrite <- (app_nil_l (lenenc_bytes_enc t1)).
  change [col_decimals c; 0; 0] with ([col_decimals c] ++ le_bytes 2 0). rewrite !app_assoc. wstep_go.
Qed.
End Exact.
