(* ===== verification/RoundTrip.v ===== *)
(** * From the server's encoders to the client's decoders

    The response encoders of the server (tidessql/server/mysql/response.c) against
    the decoders of the client (mysql/wire/result.c, row.c, statement.c): what the
    server sends is what the client reads. *)

From S2P Require Import Prelude Codec Packet Frame Handshake Result Row Statement ServerHandshake Command Response.

(** ** Packets *)

Section PacketParses.
Context (p : bytes) (Hp : buf_ok p (len p)).

Lemma parses_rest_view {E T} (o : T) l :
  parses p (rest_view p (len p) : M E (dec T) mysql_wire_bytes_t) o l (wire_bytes_of l) o l.
Proof.
  pose proof (buf_max _ _ Hp). apply parses_len. intros Hl. unfold rest_view.
  eapply parses_bind; [apply parses_offset|]. rewrite size_rest by done.
  pose proof (parses_access_ldn (E := E) p o l [] (len l) eq_refl) as Ha. rewrite app_nil_r in Ha.
  eapply parses_bind; [exact Ha|apply parses_ret].
Qed.

Lemma parses_ok_number {T} set (o : T) v l :
  0 <= v < 2 ^ 64 -> parses p (ok_number p (len p) set) o (lenenc_enc v ++ l) tt (set v o) l.
Proof.
  intros Hv. unfold ok_number. eapply parses_bind; [by apply parses_map_err, parses_lenenc_uint|].
  eapply parses_bind; [apply parses_out_set|]. by apply parses_fail_if.
Qed.

Lemma parses_complete_u16 {T} (o : T) v l :
  0 <= v < 2 ^ 16 -> parses p (complete (rd_u16 p (len p))) o (le_bytes 2 v ++ l) v o l.
Proof. intros. by apply parses_map_err, parses_u16. Qed.

(** An assignment whose result is given. *)
Lemma parses_assign {E T} (f : T -> T) o o' l :
  f o = o' -> parses p (out_set f : M E (dec T) unit) o l tt o' l.
Proof. intros <-. apply parses_out_set. Qed.
End PacketParses.

Lemma run_dec_parses {T} (p : bytes) off o0 (m : D T unit) l o l' :
  parses p m o0 l tt o l' -> suffix_at p off l -> run_dec off o0 m = (Ret tt, Some o).
Proof. intros Hm Hs. unfold run_dec. by destruct (Hm off Hs) as (off' & -> & _). Qed.

Definition capable (capabilities : Z) : Prop :=
  Z.land capabilities MYSQL_WIRE_CLIENT_PROTOCOL_41 <> 0 /\ Z.land capabilities MYSQL_WIRE_CLIENT_SESSION_TRACK = 0.

(** The packet with its info as a view of exactly the bytes sent. *)
Definition ok_received (p : mysql_wire_ok_packet_t) (info : bytes) : mysql_wire_ok_packet_t :=
  mk_ok (ok_header p) (ok_affected_rows p) (ok_last_insert_id p) (ok_status_flags p) (ok_warnings p)
    (wire_bytes_of info) wire_bytes_zero.

Lemma decode_ok_enc p deprecated info capabilities out :
  ok_sendable p deprecated info -> bytes_ok info -> len (ok_enc p info) < 2 ^ 63 -> capable capabilities ->
  (deprecated = true -> Z.land capabilities MYSQL_WIRE_CLIENT_DEPRECATE_EOF <> 0) ->
  mysql_wire_decode_ok_packet (Some (ok_enc p info)) (len (ok_enc p info)) capabilities (Some out) =
    (Ret tt, Some (ok_received p info)).
Proof.
  intros (Hh & Ha & Hl & (Hf & _ & _) & Hw & _ & _) Hi Hm [H41 Htrack] Hdep.
  assert (bytes_ok (ok_enc p info)) as Hb.
  { unfold ok_enc. repeat apply Forall_app_2; try apply le_bytes_ok; try apply lenenc_enc_ok; try done; try lia.
    apply Forall_cons_2; [destruct Hh as [->|[-> _]]; lia|apply Forall_nil_2]. }
  assert (7 <= len (ok_enc p info)) as Hlen.
  { unfold ok_enc. rewrite !length_app, !length_le_bytes. change (length [ok_header p]) with 1%nat.
    pose proof (lenenc_enc_length (ok_affected_rows p)). pose proof (lenenc_enc_length (ok_last_insert_id p)). lia. }
  assert (drop 1 (ok_enc p info) = lenenc_enc (ok_affected_rows p) ++ lenenc_enc (ok_last_insert_id p) ++
    le_bytes 2 (ok_status_flags p) ++ le_bytes 2 (ok_warnings p) ++ info) as Hdrop by done.
  assert (ld (ok_enc p info) 0 = Some (ok_header p)) as H0 by done.
  revert Hm Hb Hlen Hdrop H0. generalize (ok_enc p info). intros q Hm Hb Hlen Hdrop H0.
  assert (buf_ok q (len q)) as Hq by (split; [lia|done..]).
  unfold mysql_wire_decode_ok_packet. destruct (Z.eqb_spec (len q) 0); [lia|].
  eapply run_dec_parses with (p := q) (l := drop 1 q); [|split_and!; [lia|lia|done]]. rewrite Hdrop. unfold ok_body.
  eapply parses_bind; [by apply parses_access|]. eapply parses_bind; [apply parses_out_set|].
  eapply parses_bind; [apply parses_fail_if|].
  { destruct Hh as [->|[-> Hd]]; [done|]. specialize (Hdep Hd). apply Z.eqb_neq in Hdep. rewrite Hdep.
    change (negb (0xfe =? 0)) with true. change (negb (0xfe =? 0xfe)) with false. cbn [andb orb]. apply Z.ltb_ge. lia. }
  eapply parses_bind; [by apply parses_ok_number|]. eapply parses_bind; [by apply parses_ok_number|].
  apply Z.eqb_neq in H41. rewrite H41, Htrack. cbn [negb when].
  eapply parses_bind.
  { eapply parses_bind; [by apply parses_complete_u16|]. eapply parses_bind; [apply parses_out_set|].
    eapply parses_bind; [by apply parses_complete_u16|]. apply parses_out_set. }
  change (negb (0 =? 0)) with false. cbn iota.
  eapply parses_bind; [by apply parses_rest_view|]. apply parses_assign. done.
Qed.

Definition err_received (code : Z) (state text : bytes) : mysql_wire_err_packet_t :=
  mk_err code true (state ++ [0]) (wire_bytes_of text).

Lemma decode_err_enc code state text capabilities out :
  0 < code < 2 ^ 16 -> len state = 5 -> bytes_ok state -> bytes_ok text -> len text <= 512 -> capable capabilities ->
  mysql_wire_decode_err_packet (Some (err_enc code state text)) (len (err_enc code state text)) capabilities (Some out) =
    (Ret tt, Some (err_received code state text)).
Proof.
  intros Hc Hs Hsb Htb Ht [H41 _].
  assert (len (err_enc code state text) = 9 + len text) as Hlen.
  { unfold err_enc. rewrite !length_app, !length_le_bytes. cbn [length]. lia. }
  assert (bytes_ok (err_enc code state text)) as Hb.
  { unfold err_enc. apply Forall_app_2; [by apply bytes_okb_ok|]. apply Forall_app_2; [apply le_bytes_ok|].
    apply Forall_app_2; [by apply bytes_okb_ok|]. by apply Forall_app_2. }
  assert (drop 1 (err_enc code state text) = le_bytes 2 code ++ 35 :: state ++ text) as Hdrop by done.
  assert (ld (err_enc code state text) 0 = Some 0xff) as H0 by done.
  revert Hlen Hb Hdrop H0. generalize (err_enc code state text). intros q Hlen Hb Hdrop H0.
  assert (buf_ok q (len q)) as Hq by (split; [lia|lia|done]).
  unfold mysql_wire_decode_err_packet. destruct (Z.ltb_spec (len q) 3); [lia|]. rewrite H0.
  change (negb (0xff =? 0xff)) with false. cbn iota.
  eapply run_dec_parses with (p := q) (l := drop 1 q); [|split_and!; [lia|lia|done]]. rewrite Hdrop. unfold err_body.
  eapply parses_bind; [apply parses_complete_u16; [done|lia]|]. eapply parses_bind; [apply parses_out_set|].
  apply Z.eqb_neq in H41. rewrite H41. cbn [negb when].
  assert (len (35 :: state ++ text) = 6 + len text) as Hrest by (cbn [length]; rewrite length_app; lia).
  eapply parses_bind with (l1 := text) (o1 := mk_err code true (state ++ [0]) wire_bytes_zero).
  { eapply parses_bind; [apply parses_offset|]. rewrite size_rest by lia.
    eapply parses_bind; [apply parses_fail_if, Z.ltb_ge; lia|].
    eapply parses_bind; [apply parses_access_ld|]. eapply parses_bind; [by apply parses_fail_if|].
    eapply parses_bind; [by apply (parses_skip q 1 _ [35])|]. eapply parses_bind; [apply parses_offset|].
    eapply parses_bind; [by apply parses_access_ldn|]. eapply parses_bind; [apply (parses_gets q (fun o => o))|].
    cbn [err_sql_state err_zero]. assert (length (zeros 6) = 6%nat) as Hz by done.
    eapply parses_bind; [apply parses_access, stn_Some; lia|].
    assert (st (splice (zeros 6) 0 state) 5 0 = Some (state ++ [0])) as Hst.
    { rewrite st_splice by (rewrite length_splice; lia). f_equal. replace 5 with (0 + len state) by lia.
      rewrite splice_app by (cbn [length]; lia). rewrite splice_0, length_app. cbn [length].
      replace (length state + 1)%nat with 6%nat by lia. by rewrite app_nil_r. }
    eapply parses_bind; [by apply parses_access|].
    eapply parses_bind; [by apply parses_assign|]. by apply parses_skip. }
  eapply parses_bind; [by apply parses_rest_view|]. by apply parses_assign.
Qed.

Lemma decode_eof_enc p capabilities out :
  0 <= eof_warnings p < 2 ^ 16 -> 0 <= eof_status_flags p < 2 ^ 16 -> capable capabilities ->
  mysql_wire_decode_eof_packet (Some (eof_enc p)) (len (eof_enc p)) capabilities (Some out) = (Ret tt, Some p).
Proof.
  intros Hw Hf [H41 _]. assert (len (eof_enc p) = 5) as Hlen by (unfold eof_enc; by rewrite !length_app, !length_le_bytes).
  assert (bytes_ok (eof_enc p)) as Hb.
  { unfold eof_enc. repeat apply Forall_app_2; try apply le_bytes_ok. by apply bytes_okb_ok. }
  assert (drop 1 (eof_enc p) = le_bytes 2 (eof_warnings p) ++ le_bytes 2 (eof_status_flags p) ++ []) as Hdrop.
  { by rewrite app_nil_r. }
  assert (ld (eof_enc p) 0 = Some 0xfe) as H0 by done.
  revert Hlen Hb Hdrop H0. generalize (eof_enc p). intros q Hlen Hb Hdrop H0.
  assert (buf_ok q (len q)) as Hq by (split; [lia|lia|done]).
  unfold mysql_wire_decode_eof_packet. destruct (Z.eqb_spec (len q) 0); [lia|]. rewrite H0.
  assert (negb (0xfe =? 0xfe) || (9 <=? len q) = false) as -> by (apply orb_false_iff; split; [done|apply Z.leb_gt; lia]).
  eapply run_dec_parses with (p := q) (l := drop 1 q); [|split_and!; [lia|lia|done]]. rewrite Hdrop. unfold eof_body.
  apply Z.eqb_neq in H41. rewrite H41. eapply parses_bind; [apply parses_fail_if; by rewrite Hlen|].
  eapply parses_bind; [by apply parses_complete_u16|]. eapply parses_bind; [apply parses_out_set|].
  eapply parses_bind; [by apply parses_complete_u16|].
  eapply parses_bind with (o1 := p); [by apply parses_assign; destruct p|].
  eapply parses_bind; [apply parses_offset|]. apply parses_fail_if.
  change (len []) with 0. by rewrite Z.sub_0_r, Z.eqb_refl.
Qed.

(** ** Rows as the server writes them *)

Lemma wstep_refl l : wstep (fun w => Some w) l l.
Proof. split; [lia|]. intros d cap Hb Hl. destruct (Z.leb_spec (len l) cap); [done|lia]. Qed.

Lemma sticky_row_values dp values bo (binary : bool) n i : sticky (row_values_write dp values bo binary n i).
Proof. intros w Hw. destruct n; cbn [row_values_write]; [done|]. by destruct (w_status w). Qed.

Lemma sticky_zero_bytes n : sticky (zero_bytes n).
Proof.
  induction n as [|n IH]; intros w Hw; cbn [zero_bytes]; [done|].
  apply (sticky_bind (integer 0 1) (zero_bytes n)); [by apply sticky_int1|done|done].
Qed.

Lemma wstep_zero_bytes n : forall l, wstep (zero_bytes n) l (l ++ replicate n 0).
Proof.
  induction n as [|n IH]; intros l; cbn [zero_bytes replicate].
  - rewrite app_nil_r. apply wstep_refl.
  - eapply wstep_bind; [apply wstep_byte; lia| |apply sticky_zero_bytes].
    change (0 :: replicate n 0) with ([0] ++ replicate n 0). rewrite app_assoc. apply IH.
Qed.

Lemma wstep_or_data index mask l b :
  ld l index = Some b -> wstep (or_data index mask) l (<[Z.to_nat index := Z.lor b mask]> l).
Proof.
  intros Hb. pose proof (ld_Some _ _ _ Hb) as Hi. split; [by rewrite length_insert|].
  intros d cap [Hcap Hbuf] Hl. rewrite length_insert. destruct (Z.leb_spec (len l) cap); [|lia].
  unfold or_data, wr. cbn [w_data w_size w_capacity w_status]. rewrite length_insert. destruct d as [buf|]; [|done].
  rewrite !splice_0, ld_app_l, Hb by lia. cbn [mbind option_bind].
  rewrite st_Some by (rewrite length_app; lia). cbn [mbind option_bind].
  rewrite insert_app_l, length_insert by lia. done.
Qed.

(** One iteration of the loop on a value that passes the check. *)
Lemma wstep_row_cons dp vs bo (binary : bool) n i v l l1 l2 :
  0 <= i -> vs !! Z.to_nat i = Some v -> value_check v = Ret tt ->
  wstep (value_write dp v i bo binary) l l1 ->
  wstep (row_values_write dp vs bo binary n (i + 1)) l1 l2 ->
  wstep (row_values_write dp vs bo binary (S n) i) l l2.
Proof.
  intros Hi Hv Hc H1 H2.
  pose proof (wstep_bind _ _ _ _ _ H1 H2 (sticky_row_values dp vs bo binary n (i + 1))) as [H3 H4]. split; [done|].
  intros d cap Hb Hl. cbn [row_values_write]. cbn [wr w_status].
  destruct (Z.ltb_spec i 0); [lia|]. rewrite Hv. cbn [mbind option_bind]. rewrite Hc.
  rewrite set_status_wr. by apply H4.
Qed.

(** *** Text rows *)

(** What a value looks like in a text row. *)
Inductive text_field (dp : bytes) : turbodb_value_t -> option bytes -> Prop :=
| tf_null : text_field dp turbodb_null None
| tf_int z : - 2 ^ 63 <= z < 2 ^ 63 -> text_field dp (turbodb_i64 z) (Some (print_i64 z))
| tf_uint z : 0 <= z < 2 ^ 64 -> text_field dp (turbodb_u64 z) (Some (print_u64 z))
| tf_bool b : b = 0 \/ b = 1 -> text_field dp (turbodb_bool b) (Some (print_u64 b))
| tf_double bits : isfinite bits = true -> dp = [46] -> len (print_g17 bits) < 64 ->
    text_field dp (turbodb_f64 bits) (Some (print_g17 bits))
| tf_text data n a : views (mk_wire_bytes data n false) a ->
    text_field dp (turbodb_text_v (mk_vstr data n)) (Some a)
| tf_blob data n a : views (mk_wire_bytes data n false) a ->
    text_field dp (turbodb_blob data n) (Some a).

Lemma print_u64_length n : len (print_u64 n) <= 20.
Proof. pose proof (digits_length 20 n []). unfold print_u64. cbn [length] in *. lia. Qed.

Lemma print_i64_length z : len (print_i64 z) <= 21.
Proof.
  unfold print_i64. pose proof (print_u64_length (- z)). pose proof (print_u64_length z).
  case_match; cbn [length]; lia.
Qed.

Lemma views_check data n a :
  views (mk_wire_bytes data n false) a -> (match data with Some _ => true | None => n =? 0 end) = true.
Proof. intros (_ & Hl & _ & Hd). cbn in Hl, Hd. destruct Hd as [[r ->]|[-> ->]]; [done|]. by rewrite Hl. Qed.

Lemma text_field_check dp v f : text_field dp v f -> value_check v = Ret tt.
Proof.
  intros [|z|z|b [-> | ->]|bits Hf|data n a Ha|data n a Ha]; try done; unfold value_check; cbn.
  - by rewrite Hf.
  - by rewrite (views_check _ _ _ Ha).
  - by rewrite (views_check _ _ _ Ha).
Qed.

Lemma wstep_text_field dp v f i l :
  text_field dp v f -> wstep (value_write dp v i 0 false) l (l ++ field_enc f).
Proof.
  assert (forall data n a, views (mk_wire_bytes data n false) a ->
    wstep (fun w => write_bytes (mk_wire_bytes data n false) (set_status None w)) l (l ++ lenenc_bytes_enc a)) as Hv.
  { intros data n a Ha. apply wstep_set_status. by apply wstep_write_bytes. }
  assert (forall text, len text < 64 ->
    wstep (fun w => match (if RESPONSE_NUMBER_BYTES <=? len text then Err TDSQL_MYSQL_LIMIT
      else Ret (mk_wire_bytes (Some text) (len text) false)) with
      | Ret text => write_bytes text (set_status None w)
      | Err e => Some (w_fail e w)
      | Fault => None
      end) l (l ++ lenenc_bytes_enc text)) as Hp.
  { intros text Ht. unfold RESPONSE_NUMBER_BYTES. destruct (Z.leb_spec 64 (len text)); [lia|]. apply Hv.
    split_and!; cbn; try done; try lia. left. exists []. by rewrite app_nil_r. }
  intros [|z|z|b Hb|bits _ Hdp Hl|data n a Ha|data n a Ha].
  - by apply wstep_byte.
  - apply Hp. pose proof (print_i64_length z). lia.
  - apply Hp. pose proof (print_u64_length z). lia.
  - destruct Hb as [-> | ->]; by apply Hp.
  - unfold value_write, text_value. cbn [tv_data turbodb_f64 negb]. rewrite bool_decide_true by done. by apply Hp.
  - by apply Hv.
  - by apply Hv.
Qed.

Lemma wstep_text_row dp vs rest fs : forall done l,
  vs = done ++ rest -> Forall2 (text_field dp) rest fs ->
  wstep (row_values_write dp vs 0 false (length rest) (len done)) l (l ++ row_enc fs).
Proof.
  revert fs. induction rest as [|v rest IH]; intros fs done l Hvs Hf.
  { apply Forall2_nil_inv_l in Hf as ->. cbn. rewrite app_nil_r. apply wstep_refl. }
  apply Forall2_cons_inv_l in Hf as (f & fs' & Hv & Hfs & ->). cbn [length].
  eapply wstep_row_cons; [lia| |by eapply text_field_check|by apply wstep_text_field|].
  - by rewrite Nat2Z.id, Hvs, list_lookup_middle.
  - unfold row_enc. cbn [map concat]. rewrite app_assoc.
    replace (len done + 1) with (len (done ++ [v])) by (rewrite length_app; cbn [length]; lia).
    apply IH; [|done]. by rewrite <- app_assoc.
Qed.

Lemma row_enc_bytes fs :
  Forall (fun f => match f with None => True | Some a => bytes_ok a end) fs -> bytes_ok (row_enc fs).
Proof.
  induction 1 as [|f fs Hf _ IH]; [apply Forall_nil_2|]. unfold row_enc. cbn [map concat].
  apply Forall_app_2; [|exact IH]. destruct f as [a|]; [|by apply bytes_okb_ok].
  apply Forall_app_2; [apply lenenc_enc_ok; lia|done].
Qed.

Lemma decode_text_row_enc fs cols capacity :
  fs <> [] -> Forall (fun f => match f with None => True | Some a => bytes_ok a end) fs ->
  len (row_enc fs) < 2 ^ 63 -> len fs <= capacity -> capacity <= len cols ->
  mysql_wire_decode_text_row (Some (row_enc fs)) (len (row_enc fs)) (len fs) (Some cols) capacity =
    (Ret tt, Some (map field_view fs ++ drop (length fs) cols)).
Proof.
  intros Hne Hok Hm Hc Hcap. pose proof (row_enc_bytes fs Hok) as Hb.
  assert (buf_ok (row_enc fs) (len (row_enc fs))) as Hp by (split; [lia|done..]).
  unfold mysql_wire_decode_text_row. destruct (Z.eqb_spec (len fs) 0); [destruct fs; done|].
  destruct (Z.ltb_spec capacity (len fs)); [lia|]. rewrite clear_array_Some by lia. rewrite Nat2Z.id.
  set (cols0 := replicate (length fs) wire_bytes_zero ++ drop (length fs) cols).
  assert (length cols0 = length cols) as Hl0.
  { unfold cols0. rewrite length_app, length_replicate, length_drop. lia. }
  pose proof (parses_text_columns (row_enc fs) fs 0 cols0 [] Hp ltac:(lia) ltac:(lia)) as Hparse.
  rewrite app_nil_r in Hparse. destruct (Hparse 0 (suffix_at_0 _)) as (off' & -> & Hend).
  apply suffix_at_len in Hend. cbn [length] in Hend. cbn [d_off d_out].
  destruct (Z.eqb_spec off' (len (row_enc fs))); [|lia]. cbn [negb]. do 2 f_equal. unfold put_at, cols0.
  change (Z.to_nat 0) with 0%nat. rewrite take_0, length_map. cbn [app]. f_equal.
  rewrite Nat.add_0_l. apply drop_app_length'. by rewrite length_replicate.
Qed.

(** *** Binary rows *)

(** What a value looks like in a binary row, for a column declared to hold it. *)
Inductive binary_cell (c : mysql_column_definition_t) : turbodb_value_t -> cell -> Prop :=
| bc_null : binary_cell c turbodb_null None
| bc_int z : col_type c = MYSQL_FIELD_TYPE_LONGLONG -> is_unsigned c = false -> - 2 ^ 63 <= z < 2 ^ 63 ->
    binary_cell c (turbodb_i64 z) (Some (MYSQL_BINARY_VALUE_SINT64 z, le_bytes 8 z))
| bc_uint z : col_type c = MYSQL_FIELD_TYPE_LONGLONG -> is_unsigned c = true -> 0 <= z < 2 ^ 64 ->
    binary_cell c (turbodb_u64 z) (Some (MYSQL_BINARY_VALUE_UINT64 z, le_bytes 8 z))
| bc_double bits : col_type c = MYSQL_FIELD_TYPE_DOUBLE -> 0 <= bits < 2 ^ 64 -> isfinite bits = true ->
    binary_cell c (turbodb_f64 bits) (Some (MYSQL_BINARY_VALUE_DOUBLE bits, le_bytes 8 bits))
| bc_bool b : col_type c = MYSQL_FIELD_TYPE_TINY -> b = 0 \/ b = 1 ->
    binary_cell c (turbodb_bool b)
      (Some (if is_unsigned c then MYSQL_BINARY_VALUE_UINT64 b else MYSQL_BINARY_VALUE_SINT64 b, le_bytes 1 b))
| bc_text data n a : is_bytes_type (col_type c) = true -> bytes_ok a -> views (mk_wire_bytes data n false) a ->
    binary_cell c (turbodb_text_v (mk_vstr data n))
      (Some (MYSQL_BINARY_VALUE_BYTES (wire_bytes_of a), lenenc_bytes_enc a))
| bc_blob data n a : is_bytes_type (col_type c) = true -> bytes_ok a -> views (mk_wire_bytes data n false) a ->
    binary_cell c (turbodb_blob data n)
      (Some (MYSQL_BINARY_VALUE_BYTES (wire_bytes_of a), lenenc_bytes_enc a)).

Lemma binary_cell_ok c v x : binary_cell c v x -> cell_ok c x.
Proof.
  intros [|z Ht Hu Hz|z Ht Hu Hz|bits Ht Hb Hf|b Ht Hb|data n a Ht Ha Hv|data n a Ht Ha Hv]; cbn [cell_ok].
  - exact I.
  - apply (enc_sint c 8); [by rewrite Ht|done|done].
  - apply (enc_uint c 8); [by rewrite Ht|done|done].
  - by apply enc_double.
  - destruct (is_unsigned c) eqn:Hu; [apply (enc_uint c 1)|apply (enc_sint c 1)]; try (by rewrite Ht); try done;
      by destruct Hb as [-> | ->].
  - by apply enc_text.
  - by apply enc_text.
Qed.

Lemma binary_cell_check c v x : binary_cell c v x -> value_check v = Ret tt.
Proof.
  intros [|z Ht Hu Hz|z Ht Hu Hz|bits Ht Hb Hf|b Ht [-> | ->]|data n a Ht Ha Hv|data n a Ht Ha Hv]; try done;
    unfold value_check; cbn.
  - by rewrite Hf.
  - by rewrite (views_check _ _ _ Hv).
  - by rewrite (views_check _ _ _ Hv).
Qed.

(** The writer's state after the values [d] of the row [xs]. *)
Definition row_so_far (xs d : list cell) : bytes :=
  [0] ++ partial_bitmap 2 (map cell_null xs) (length d) ++ concat (map cell_bytes d).

Lemma wstep_binary_cell dp c v x xs d rest :
  binary_cell c v x -> xs = d ++ x :: rest ->
  wstep (value_write dp v (len d) 1 true) (row_so_far xs d) (row_so_far xs (d ++ [x])).
Proof.
  intros Hc Hxs.
  assert (map cell_null xs !! length d = Some (cell_null x)) as Hn.
  { rewrite list_lookup_fmap, Hxs, list_lookup_middle by done. done. }
  pose proof (lookup_lt_Some _ _ _ Hn) as Hlt.
  assert (row_so_far xs (d ++ [x]) =
    [0] ++ partial_bitmap 2 (map cell_null xs) (S (length d)) ++ concat (map cell_bytes d) ++ cell_bytes x) as Hnext.
  { unfold row_so_far. rewrite length_app, map_app, concat_app. cbn [length map concat]. by rewrite Nat.add_1_r, app_nil_r. }
  assert (cell_null x = false -> row_so_far xs (d ++ [x]) = row_so_far xs d ++ cell_bytes x) as Happ.
  { intros Hx. rewrite Hx in Hn. rewrite Hnext, partial_bitmap_false by done. unfold row_so_far. by rewrite <- !app_assoc. }
  destruct Hc as [|z Ht Hu Hz|z Ht Hu Hz|bits Ht Hb Hf|b Ht Hb|data n a Ht Ha Hv|data n a Ht Ha Hv].
  2-7: rewrite (Happ eq_refl); cbn [cell_bytes].
  - rewrite Hnext. cbn [cell_bytes]. rewrite app_nil_r. apply (partial_bitmap_true 2) in Hn as (b & Hb & ->); [|lia].
    set (bm := partial_bitmap 2 (map cell_null xs) (length d)) in *. set (k := (len d + 2) / 8) in *.
    pose proof (Z.div_pos (len d + 2) 8 ltac:(lia) ltac:(lia)) as Hk. fold k in Hk.
    pose proof (lookup_lt_Some _ _ _ Hb) as Hbl.
    set (mask := u8 (Z.shiftl 1 ((len d + 2) mod 8))).
    assert (ld (row_so_far xs d) (1 + k) = Some b) as Hld.
    { unfold row_so_far. fold bm. change 1 with (len [0]). rewrite ld_app_r, ld_app_l by lia. unfold ld.
      destruct (Z.ltb_spec k 0); [lia|done]. }
    pose proof (wstep_or_data (1 + k) mask (row_so_far xs d) b Hld) as Hor.
    replace ([0] ++ <[Z.to_nat k := Z.lor b mask]> bm ++ concat (map cell_bytes d))
      with (<[Z.to_nat (1 + k) := Z.lor b mask]> (row_so_far xs d)); [exact Hor|].
    unfold row_so_far. fold bm. replace (Z.to_nat (1 + k)) with (S (Z.to_nat k)) by lia. cbn [app].
    change (<[S (Z.to_nat k) := Z.lor b mask]> (0 :: bm ++ concat (map cell_bytes d)))
      with (0 :: <[Z.to_nat k := Z.lor b mask]> (bm ++ concat (map cell_bytes d))).
    by rewrite insert_app_l.
  - rewrite <- (le_bytes_mod 8 z). apply wstep_int8. apply u64_range.
  - apply wstep_int8. lia.
  - apply wstep_int8. lia.
  - destruct Hb as [-> | ->]; by apply wstep_byte.
  - by apply wstep_write_bytes.
  - by apply wstep_write_bytes.
Qed.

Lemma wstep_binary_values dp vs xs rest : forall cs d ds ys,
  vs = ds ++ rest -> length ds = length d -> xs = d ++ ys -> Forall3 binary_cell cs rest ys ->
  wstep (row_values_write dp vs 1 true (length rest) (len d)) (row_so_far xs d) (row_so_far xs xs).
Proof.
  induction rest as [|v rest IH]; intros cs d ds ys Hvs Hl Hxs Hc.
  { inversion Hc; subst ys. rewrite app_nil_r in Hxs. subst xs. apply wstep_refl. }
  apply Forall3_cons_inv_m in Hc as (c & cs' & x & ys' & -> & -> & Hv & Hc). cbn [length].
  eapply wstep_row_cons; [lia| |by eapply binary_cell_check|by eapply wstep_binary_cell|].
  - by rewrite Nat2Z.id, Hvs, <- Hl, list_lookup_middle.
  - replace (len d + 1) with (len (d ++ [x])) by (rewrite length_app; cbn [length]; lia).
    apply (IH cs' (d ++ [x]) (ds ++ [v]) ys'); [by rewrite <- app_assoc| |by rewrite <- app_assoc|done].
    rewrite !length_app. cbn [length]. lia.
Qed.

Lemma wstep_binary_row dp cs vs xs :
  vs <> [] -> len vs <= 0xffff -> Forall3 binary_cell cs vs xs ->
  wstep (response_write dp (RESPONSE_ROW (Some vs) (len vs) true)) [] (binary_row_enc xs).
Proof.
  intros Hne Hc Hx. pose proof (Forall3_length_lm _ _ _ _ Hx) as Hl1. pose proof (Forall3_length_lr _ _ _ _ Hx) as Hl2.
  assert (length xs = length vs) as Hlen by lia.
  unfold response_write, row_write. destruct (Z.eqb_spec (len vs) 0); [destruct vs; done|].
  destruct (Z.ltb_spec 0xffff (len vs)); [lia|].
  unfold TDSQL_MYSQL_BYTE_BITS, RESPONSE_BINARY_OFFSET. replace (len vs + 8 - 1 + 2) with (len vs + 9) by lia.
  set (bm := Z.to_nat ((len vs + 9) / 8)).
  assert (zeros (bitmap_size 2 (map cell_null xs)) = replicate bm 0) as Hz.
  { unfold bitmap_size, zeros, bm. rewrite length_map, Hlen. do 3 f_equal. lia. }
  assert (binary_row_enc xs = row_so_far xs xs) as Henc.
  { unfold binary_row_enc, row_so_far. replace (length xs) with (length (map cell_null xs)) by apply length_map.
    by rewrite partial_bitmap_all. }
  assert (row_so_far xs [] = [0] ++ replicate bm 0) as Hstart.
  { unfold row_so_far. cbn [length map concat]. by rewrite partial_bitmap_0, Hz, app_nil_r. }
  assert (wstep (fun w => w ← zero_bytes bm w; row_values_write dp vs 1 true (length vs) 0 w) [0] (binary_row_enc xs)) as Hk.
  { eapply wstep_bind; [apply wstep_zero_bytes| |apply sticky_row_values]. rewrite <- Hstart, Henc.
    by apply (wstep_binary_values dp vs xs vs cs [] [] xs). }
  eapply wstep_bind with (l1 := [0]).
  - apply (wstep_byte 0 []). lia.
  - rewrite Nat2Z.id. exact Hk.
  - intros w Hw. rewrite (sticky_zero_bytes _ w Hw). cbn [mbind option_bind]. by apply sticky_row_values.
Qed.

Lemma wstep_text_row_response dp vs fs :
  vs <> [] -> len vs <= 0xffff -> Forall2 (text_field dp) vs fs ->
  wstep (response_write dp (RESPONSE_ROW (Some vs) (len vs) false)) [] (row_enc fs).
Proof.
  intros Hne Hc Hf. unfold response_write, row_write. destruct (Z.eqb_spec (len vs) 0); [destruct vs; done|].
  destruct (Z.ltb_spec 0xffff (len vs)); [lia|]. rewrite Nat2Z.id. by apply (wstep_text_row dp vs vs fs [] []).
Qed.

(** ** Properties *)

(** The output structure after a message was written. *)
Definition sent (o : tdsql_mysql_output) (message : bytes) : tdsql_mysql_output :=
  mk_output (match out_data o with Some d => Some (splice d 0 message) | None => None end) (out_capacity o) (len message).

(** C39. Rows survive the binary protocol. Whatever row of integers, finite
    doubles, booleans, texts, blobs and NULLs the server encodes for columns
    declared with the matching types, the bytes it writes are decoded by the
    client into exactly those values, each with its column's type; a row that
    does not fit the output leaves the output unchanged. *)
Theorem binary_row_end_to_end dp cs vs xs o values capacity :
  vs <> [] -> len vs <= 0xffff -> Forall3 binary_cell cs vs xs -> output_in o ->
  len cs <= capacity -> len xs <= len values -> len values < 2 ^ 63 ->
  tdsql_mysql_row_encode dp (Some vs) (len vs) true (Some o) =
    (if len (binary_row_enc xs) <=? out_capacity o then (Ret tt, Some (sent o (binary_row_enc xs)))
     else (Err TDSQL_MYSQL_LIMIT, Some o)) /\
  (len (binary_row_enc xs) <= out_capacity o ->
   mysql_wire_decode_binary_row (Some (binary_row_enc xs)) (len (binary_row_enc xs)) (Some cs) (len cs)
     (Some values) capacity = (Ret tt, Some (put_at values 0 (zip_with cell_value cs xs)))).
Proof.
  intros Hne Hc Hx Ho Hcap Hv Hvm. split.
  - unfold tdsql_mysql_row_encode. apply response_encode_eq; [by eapply wstep_binary_row|done].
  - intros Hfit. destruct Ho as [Hoc _]. apply decode_binary_row_enc; try done; try lia.
    clear -Hx. induction Hx; [apply Forall2_nil_2|]. apply Forall2_cons_2; [by eapply binary_cell_ok|done].
Qed.

Lemma binary_row_end_to_end_witness :
  let c := col_set_type MYSQL_FIELD_TYPE_LONGLONG column_zero in
  let t := col_set_type MYSQL_FIELD_TYPE_VAR_STRING column_zero in
  let vs := [turbodb_i64 (-3); turbodb_null; turbodb_text_v (mk_vstr (Some [104; 105]) 2)] in
  let xs := [Some (MYSQL_BINARY_VALUE_SINT64 (-3), le_bytes 8 (-3)); None;
             Some (MYSQL_BINARY_VALUE_BYTES (wire_bytes_of [104; 105]), lenenc_bytes_enc [104; 105])] in
  let o := mk_output (Some (zeros 40)) 40 0 in
  let values := replicate 3 (mk_binary_value MYSQL_BINARY_VALUE_NULL 0) in
  tdsql_mysql_row_encode [46] (Some vs) (len vs) true (Some o) =
    (if len (binary_row_enc xs) <=? out_capacity o then (Ret tt, Some (sent o (binary_row_enc xs)))
     else (Err TDSQL_MYSQL_LIMIT, Some o)) /\
  (len (binary_row_enc xs) <= out_capacity o ->
   mysql_wire_decode_binary_row (Some (binary_row_enc xs)) (len (binary_row_enc xs)) (Some [c; c; t]) (len [c; c; t])
     (Some values) 3 = (Ret tt, Some (put_at values 0 (zip_with cell_value [c; c; t] xs)))).
Proof.
  intros c t vs xs o values. apply (binary_row_end_to_end [46] [c; c; t] vs xs o values 3).
  - done.
  - by vm_compute.
  - repeat apply Forall3_cons; [by apply bc_int; [| |vm_compute]|apply bc_null| |apply Forall3_nil].
    apply bc_text; [done|by apply bytes_okb_ok|]. split_and!; [done..|]. left. by exists [].
  - split; [by vm_compute|by vm_compute].
  - by vm_compute.
  - by vm_compute.
  - by vm_compute.
Defined.

(** Rows survive the text protocol. The client reads from the server's text
    row one column per value: NULL for NULL, the decimal text of an integer or
    boolean, the 17-digit text of a double, and the very bytes of a text or
    blob; a row that does not fit leaves the output unchanged. *)
Theorem text_row_end_to_end dp vs fs o cols capacity :
  vs <> [] -> len vs <= 0xffff -> Forall2 (text_field dp) vs fs -> output_in o ->
  Forall (fun f => match f with None => True | Some a => bytes_ok a end) fs ->
  len fs <= capacity -> capacity <= len cols ->
  tdsql_mysql_row_encode dp (Some vs) (len vs) false (Some o) =
    (if len (row_enc fs) <=? out_capacity o then (Ret tt, Some (sent o (row_enc fs)))
     else (Err TDSQL_MYSQL_LIMIT, Some o)) /\
  (len (row_enc fs) <= out_capacity o ->
   mysql_wire_decode_text_row (Some (row_enc fs)) (len (row_enc fs)) (len fs) (Some cols) capacity =
     (Ret tt, Some (map field_view fs ++ drop (length fs) cols))).
Proof.
  intros Hne Hc Hf Ho Hb Hcap Hcols. split.
  - unfold tdsql_mysql_row_encode. apply response_encode_eq; [by apply wstep_text_row_response|done].
  - intros Hfit. destruct Ho as [Hoc _]. apply decode_text_row_enc; try done; try lia.
    intros ->. by apply Forall2_nil_inv_r in Hf.
Qed.

(** Status packets survive the wire. An OK packet (also one that stands for
    EOF), an ERR packet with a five-character SQL state and an EOF packet that
    the server encodes are decoded by a protocol-4.1 client into the same
    counters, flags, warnings, code, state and text; what does not fit the
    output is refused and leaves it unchanged. *)
Theorem status_packets_end_to_end dp capabilities o p deprecated info code state rest message text eof ok0 err0 eof0 :
  output_in o -> capable capabilities ->
  ok_sendable p deprecated info -> bytes_ok info ->
  (deprecated = true -> Z.land capabilities MYSQL_WIRE_CLIENT_DEPRECATE_EOF <> 0) ->
  0 < code < 2 ^ 16 -> len state = 5 -> Forall (fun c => sqlstate_char c = true) state ->
  views message text -> bytes_ok text -> len text <= 512 ->
  flags_ok (eof_status_flags eof) -> 0 <= eof_warnings eof < 2 ^ 16 ->
  let delivered enc result := result =
    (if len enc <=? out_capacity o then (Ret tt, Some (sent o enc)) else (Err TDSQL_MYSQL_LIMIT, Some o)) in
  delivered (ok_enc p info) (tdsql_mysql_ok_encode dp (Some p) deprecated (Some o)) /\
  delivered (err_enc code state text) (tdsql_mysql_err_encode dp code (Some (state ++ rest)) message (Some o)) /\
  delivered (eof_enc eof) (tdsql_mysql_eof_encode dp (Some eof) (Some o)) /\
  (len (ok_enc p info) <= out_capacity o ->
   mysql_wire_decode_ok_packet (Some (ok_enc p info)) (len (ok_enc p info)) capabilities (Some ok0) =
     (Ret tt, Some (ok_received p info))) /\
  mysql_wire_decode_err_packet (Some (err_enc code state text)) (len (err_enc code state text)) capabilities
    (Some err0) = (Ret tt, Some (err_received code state text)) /\
  mysql_wire_decode_eof_packet (Some (eof_enc eof)) (len (eof_enc eof)) capabilities (Some eof0) = (Ret tt, Some eof).
Proof.
  intros Ho Hcap Hok Hi Hdep Hc Hs Hchars Hm Htb Ht Hf Hw delivered. pose proof Ho as [Hoc _].
  assert (bytes_ok state) as Hsb.
  { eapply Forall_impl; [|exact Hchars]. intros c Hcc. cbn in Hcc. unfold sqlstate_char in Hcc.
    apply orb_true_iff in Hcc as [Hcc|Hcc]; bsimp; lia. }
  split_and!.
  - apply response_encode_eq; [by apply wstep_ok|done].
  - apply response_encode_eq; [by apply wstep_err|done].
  - apply response_encode_eq; [by apply wstep_eof|done].
  - intros Hfit. eapply decode_ok_enc; try done. lia.
  - by apply decode_err_enc.
  - apply decode_eof_enc; [done| |done]. apply Hf.
Qed.

Lemma views_of a : len a < 2 ^ 63 -> views (wire_bytes_of a) a.
Proof. intros Ha. split_and!; try done. left. exists []. by rewrite app_nil_r. Qed.

Lemma column_enc_bytes c texts :
  Forall bytes_ok texts -> column_sendable c -> bytes_ok (column_enc c texts).
Proof.
  intros Ht (Hty & Hc & Hl & Hf & Hd). unfold column_enc, column_fixed_enc.
  assert (0 <= col_type c < 256) as Htr.
  { apply one_of_In in Hty. cbn [In] in Hty. by repeat destruct Hty as [<-|Hty]. }
  apply Forall_app_2.
  - induction Ht as [|a l Ha _ IH]; cbn [map concat]; [apply Forall_nil_2|]. apply Forall_app_2; [|exact IH].
    apply Forall_app_2; [apply lenenc_enc_ok; lia|done].
  - apply Forall_app_2; [by apply bytes_okb_ok|]. repeat apply Forall_app_2; try apply le_bytes_ok.
    + apply Forall_cons_2; [done|apply Forall_nil_2].
    + apply Forall_cons_2; [done|]. by apply bytes_okb_ok.
Qed.

(** C40. Statement and column metadata survive the wire: the identifier and the
    counts of a prepared statement, and the six names, character set, length,
    type, flags and decimals of a column definition that the server encodes are
    the ones the client decodes. *)
Theorem metadata_end_to_end dp o prepared c catalog schema table org_table name org_name prepared0 c0 :
  let texts := [catalog; schema; table; org_table; name; org_name] in
  output_in o -> prepare_ok_ok prepared -> po_statement_id prepared <> 0 ->
  column_views c texts -> column_sendable c -> Forall bytes_ok texts ->
  let delivered enc result := result =
    (if len enc <=? out_capacity o then (Ret tt, Some (sent o enc)) else (Err TDSQL_MYSQL_LIMIT, Some o)) in
  delivered (prepare_ok_enc prepared) (tdsql_mysql_prepare_encode dp (Some prepared) (Some o)) /\
  delivered (column_enc c texts) (tdsql_mysql_column_encode dp (Some c) (Some o)) /\
  mysql_wire_decode_stmt_prepare_ok (Some (prepare_ok_enc prepared)) (len (prepare_ok_enc prepared))
    (Some prepared0) = (Ret tt, Some prepared) /\
  (len (column_enc c texts) <= out_capacity o ->
   mysql_wire_decode_column_definition41 (Some (column_enc c texts)) (len (column_enc c texts)) (Some c0) =
     (Ret tt, Some (column_of catalog schema table org_table name org_name (col_character_set c)
                      (col_column_length c) (col_type c) (col_flags c) (col_decimals c)))).
Proof.
  intros texts Ho Hp Hid Hv Hs Hb delivered. split_and!.
  - apply response_encode_eq; [by apply wstep_prepare|done].
  - apply response_encode_eq; [by apply wstep_column|done].
  - by apply decode_prepare_ok_enc.
  - intros Hfit. destruct Ho as [Hoc _]. pose proof (column_enc_bytes c texts Hb Hs). destruct Hs as (_ & Hc & Hl & Hf & _).
    by apply (decode_column_enc texts); [|done|unfold column_enc in *; lia|..].
Qed.

Lemma metadata_end_to_end_witness :
  let texts := [[100; 101; 102]; []; [116]; [116]; [97]; [97]] in
  let c := column_of [100; 101; 102] [] [116] [116] [97] [97] 45 4 MYSQL_FIELD_TYPE_LONGLONG 0 0 in
  let o := mk_output (Some (zeros 64)) 64 0 in
  let prepared := mk_prepare_ok 1 1 2 0 in
  let delivered enc result := result =
    (if len enc <=? out_capacity o then (Ret tt, Some (sent o enc)) else (Err TDSQL_MYSQL_LIMIT, Some o)) in
  delivered (prepare_ok_enc prepared) (tdsql_mysql_prepare_encode [46] (Some prepared) (Some o)) /\
  delivered (column_enc c texts) (tdsql_mysql_column_encode [46] (Some c) (Some o)) /\
  mysql_wire_decode_stmt_prepare_ok (Some (prepare_ok_enc prepared)) (len (prepare_ok_enc prepared))
    (Some prepare_ok_zero) = (Ret tt, Some prepared) /\
  (len (column_enc c texts) <= out_capacity o ->
   mysql_wire_decode_column_definition41 (Some (column_enc c texts)) (len (column_enc c texts)) (Some column_zero) =
     (Ret tt, Some (column_of [100; 101; 102] [] [116] [116] [97] [97] (col_character_set c)
                      (col_column_length c) (col_type c) (col_flags c) (col_decimals c)))).
Proof.
  intros texts c o prepared.
  apply (metadata_end_to_end [46] o prepared c [100; 101; 102] [] [116] [116] [97] [97] prepare_ok_zero column_zero).
  - split; [by vm_compute|by vm_compute].
  - by vm_compute.
  - done.
  - split_and!; by apply views_of.
  - by vm_compute.
  - repeat (apply Forall_cons_2; [by apply bytes_okb_ok|]). apply Forall_nil_2.
Defined.

(** ** Numbers *)

(** The number a string of digits denotes. *)
Definition decimal_value (l : bytes) : Z := fold_left (fun n c => 10 * n + (c - 48)) l 0.

Lemma digits_value fuel : forall n acc,
  0 <= n < 10 ^ Z.of_nat fuel -> (0 < fuel)%nat ->
  fold_left (fun n c => 10 * n + (c - 48)) (digits fuel n acc) 0 = fold_left (fun n c => 10 * n + (c - 48)) acc n.
Proof.
  induction fuel as [|fuel IH]; intros n acc Hn Hf; [lia|]. cbn [digits].
  pose proof (Z.div_mod n 10 ltac:(lia)) as Hdm. pose proof (Z.mod_pos_bound n 10 ltac:(lia)).
  destruct (Z.ltb_spec n 10).
  - cbn [fold_left]. f_equal. rewrite Z.mod_small by lia. lia.
  - destruct fuel as [|fuel]; [change (10 ^ Z.of_nat 1) with 10 in Hn; lia|].
    rewrite IH; [cbn [fold_left]; f_equal; lia| |lia]. split; [apply Z.div_pos; lia|].
    apply Z.div_lt_upper_bound; [lia|]. rewrite <- Z.pow_succ_r by lia.
    replace (Z.succ (Z.of_nat (S fuel))) with (Z.of_nat (S (S fuel))) by lia. apply Hn.
Qed.

Lemma digits_are_digits fuel : forall n acc,
  Forall (fun c => 48 <= c <= 57) acc -> Forall (fun c => 48 <= c <= 57) (digits fuel n acc).
Proof.
  induction fuel as [|fuel IH]; intros n acc Ha; cbn [digits]; [done|].
  pose proof (Z.mod_pos_bound n 10 ltac:(lia)).
  assert (Forall (fun c => 48 <= c <= 57) (48 + n mod 10 :: acc)) by (apply Forall_cons_2; [lia|done]).
  case_match; auto.
Qed.

(** The text of an integer in a text row is its decimal representation:
    digits only, after a minus sign for a negative number, denoting exactly the
    value over the whole 64-bit signed and unsigned ranges (INT64_MIN
    included), in at most 21 characters, so it never hits the number buffer's
    limit. *)
Theorem integer_text_exact z :
  - 2 ^ 63 <= z < 2 ^ 64 ->
  exists sign ds, print_i64 z = sign ++ ds /\ Forall (fun c => 48 <= c <= 57) ds /\
    (0 <= z /\ sign = [] /\ decimal_value ds = z \/ z < 0 /\ sign = [45] /\ decimal_value ds = - z) /\
    text_value [46] (turbodb_i64 z) = Ret (wire_bytes_of (print_i64 z)).
Proof.
  intros Hz.
  assert (text_value [46] (turbodb_i64 z) = Ret (wire_bytes_of (print_i64 z))) as Ht.
  { unfold text_value. cbn [tv_data turbodb_i64]. pose proof (print_i64_length z). unfold RESPONSE_NUMBER_BYTES.
    destruct (Z.leb_spec 64 (len (print_i64 z))); [lia|done]. }
  assert (forall n, 0 <= n < 2 ^ 64 -> decimal_value (print_u64 n) = n) as Hval.
  { intros n Hn. unfold decimal_value, print_u64. rewrite digits_value; [done| |lia].
    change (10 ^ Z.of_nat 20) with 100000000000000000000. lia. }
  assert (forall n, Forall (fun c => 48 <= c <= 57) (print_u64 n)) as Hd.
  { intros n. apply digits_are_digits, Forall_nil_2. }
  rewrite Ht. unfold print_i64. destruct (Z.ltb_spec z 0).
  - exists [45], (print_u64 (- z)). split_and!; [done|apply Hd| |done]. right. split_and!; [lia|done|apply Hval; lia].
  - exists [], (print_u64 z). split_and!; [done|apply Hd| |done]. left. split_and!; [lia|done|apply Hval; lia].
Qed.
