(* ===== verification/Errors.v ===== *)
(** * Status codes and diagnostics of the SQL engine
    (include/turbodb/types.h, tidessql/src/error.h)

    An operation of the engine returns a status and, when it fails, writes the
    status and a message to an error object the caller may have left out. An
    operation is modelled by its failure (a status with its message);
    [report] is the write to the caller's object. *)

From stdpp Require Export strings.
From S2P Require Import Prelude.
#[global] Open Scope Z_scope.

(** The failures; TURBODB_STATUS_OK is a normal return. *)
Inductive turbodb_status_t : Type :=
| TURBODB_STATUS_INVALID_ARGUMENT
| TURBODB_STATUS_ABI_MISMATCH
| TURBODB_STATUS_OUT_OF_MEMORY
| TURBODB_STATUS_CONNECTION_ERROR
| TURBODB_STATUS_SQL_ERROR
| TURBODB_STATUS_TYPE_ERROR
| TURBODB_STATUS_OUT_OF_RANGE
| TURBODB_STATUS_LIMIT_EXCEEDED
| TURBODB_STATUS_INVALID_STATE
| TURBODB_STATUS_NULL_VALUE
| TURBODB_STATUS_INTERNAL_ERROR
| TURBODB_STATUS_BUSY
| TURBODB_STATUS_UNSUPPORTED
| TURBODB_STATUS_DATASTORE_ERROR
| TURBODB_STATUS_CONSTRAINT
| TURBODB_STATUS_COMMIT_UNKNOWN
| TURBODB_STATUS_CLEANUP_FAILED.

#[global] Instance turbodb_status_eq_dec : EqDecision turbodb_status_t.
Proof. solve_decision. Defined.

Definition TURBODB_ERROR_MESSAGE_CAPACITY : nat := 512.

(** The status field of a fresh object is OK, which is [None]. *)
Record turbodb_error_t : Type := mk_error {
  er_struct_size : Z;
  er_status : option turbodb_status_t;
  er_message : string
}.

(** sizeof(turbodb_error_t): two 32-bit fields and the message. *)
Definition sizeof_error : Z := 4 + 4 + Z.of_nat TURBODB_ERROR_MESSAGE_CAPACITY.

Definition turbodb_error_init (error : ptr turbodb_error_t) : ptr turbodb_error_t :=
  match error with
  | None => None
  | Some _ => Some (mk_error sizeof_error None EmptyString)
  end.

(** snprintf with the capacity of the message keeps at most one byte less. *)
Definition tdsql_error_set (error : ptr turbodb_error_t) (status : option turbodb_status_t)
    (message : string) : ptr turbodb_error_t :=
  match error with
  | None => None
  | Some e =>
      if er_struct_size e <? sizeof_error then Some e
      else Some (mk_error (er_struct_size e) status
        match status with
        | None => EmptyString
        | Some _ => String.substring 0 (TURBODB_ERROR_MESSAGE_CAPACITY - 1) message
        end)
  end.

Record turbodb_failure : Type := mk_failure {
  f_status : turbodb_status_t;
  f_reason : string
}.

#[global] Instance turbodb_failure_eq_dec : EqDecision turbodb_failure.
Proof. solve_decision. Defined.

Definition report {A} (error : ptr turbodb_error_t) (r : outcome turbodb_failure A) : ptr turbodb_error_t :=
  match r with
  | Err f => tdsql_error_set error (Some (f_status f)) (f_reason f)
  | _ => error
  end.

(** [return xxx_error(error, status, reason);] *)
Definition raise {S A} (status : turbodb_status_t) (reason : string) : M turbodb_failure S A :=
  fail (mk_failure status reason).
Definition raise_if {S} (c : bool) (status : turbodb_status_t) (reason : string) : M turbodb_failure S unit :=
  fail_if c (mk_failure status reason).

Lemma wp_raise_if {S} (c : bool) status reason (Q : unit -> S -> Prop) (R : turbodb_failure -> S -> Prop) s :
  (c = true -> R (mk_failure status reason) s) -> (c = false -> Q tt s) ->
  wp (raise_if c status reason) Q R s.
Proof. apply wp_fail_if. Qed.

Lemma wp_raise {S A} status reason (Q : A -> S -> Prop) (R : turbodb_failure -> S -> Prop) s :
  R (mk_failure status reason) s -> wp (raise status reason) Q R s.
Proof. done. Qed.

Lemma raise_if_Ret {S} (c : bool) status reason (s : S) u s' :
  raise_if c status reason s = (Ret u, s') -> c = false /\ s' = s.
Proof. unfold raise_if, fail_if. destruct c; [done|]. by intros [= _ ->]. Qed.

Ltac tdb_step :=
  match goal with
  | |- wp (raise_if _ _ _) _ _ _ => apply wp_raise_if; intros
  | |- wp (raise _ _) _ _ _ => apply wp_raise
  | _ => wp_step
  end.
