(* ===== verification/Budget.v ===== *)
(** * The resource ledger of a SQL session (tidessql/src/budget.c, budget.h)

    Counters for the resources of the statement in progress, their peaks and
    the cumulative reads and writes of the transaction. The state of an
    operation is the object its [budget] argument points to, [None] when the
    pointer is NULL. *)

From S2P Require Import Prelude Errors.

(** ** Data *)

(** The resources index the arrays of the ledger. *)
Definition ORM_SQL_BUDGET_WORK_BYTES : nat := 0.
Definition ORM_SQL_BUDGET_MATERIALIZED_ROWS : nat := 1.
Definition ORM_SQL_BUDGET_GROUPS : nat := 2.
Definition ORM_SQL_BUDGET_AST_NODES : nat := 3.
Definition ORM_SQL_BUDGET_PLAN_NODES : nat := 4.
Definition ORM_SQL_BUDGET_JOIN_PAIRS : nat := 5.
Definition ORM_SQL_BUDGET_EXECUTION_STEPS : nat := 6.
Definition ORM_SQL_BUDGET_WRITE_ROWS : nat := 7.
Definition ORM_SQL_BUDGET_WRITE_BYTES : nat := 8.
Definition ORM_SQL_BUDGET_READ_ROWS : nat := 9.
Definition ORM_SQL_BUDGET_READ_BYTES : nat := 10.
Definition ORM_SQL_BUDGET_RESOURCE_COUNT : nat := 11.

(** An array with one counter per resource. *)
Definition orm_sql_budget_amount : Type := list Z.

Definition amount_at (v : orm_sql_budget_amount) (i : nat) : Z := nth i v 0.

(** [for (i = 0; i < ORM_SQL_BUDGET_RESOURCE_COUNT; ++i) v[i] = f(i);] *)
Definition each (f : nat -> Z) : orm_sql_budget_amount :=
  map f (seq 0 ORM_SQL_BUDGET_RESOURCE_COUNT).

Definition amount_zero : orm_sql_budget_amount := each (fun _ => 0).

(** [orm_sql_budget_amount a = {0}; a.value[r] = n;] *)
Definition amount_of (r : nat) (n : Z) : orm_sql_budget_amount := <[r := n]> amount_zero.

Record orm_sql_transaction_budget_amount : Type := mk_transaction_amount {
  read_rows : Z;
  read_bytes : Z;
  write_bytes : Z
}.

Definition transaction_zero : orm_sql_transaction_budget_amount := mk_transaction_amount 0 0 0.

Record orm_sql_budget_limits : Type := mk_limits {
  statement : orm_sql_budget_amount;
  transaction : orm_sql_transaction_budget_amount
}.

Record orm_tidesdb_sql_budget : Type := mk_budget {
  limits : orm_sql_budget_limits;
  used : orm_sql_budget_amount;
  peak : orm_sql_budget_amount;
  transaction_used : orm_sql_transaction_budget_amount;
  retained_work_bytes : Z;
  statement_active : bool
}.

(** ** Operations *)

Definition B : Type -> Type := M turbodb_failure (ptr orm_tidesdb_sql_budget).

Definition resource_names : list string := [
  "work bytes"; "materialized rows"; "groups"; "AST nodes"; "plan nodes";
  "join pairs"; "execution steps"; "write rows"; "write bytes"; "read rows";
  "read bytes"]%string.

Definition budget_required : string := "TidesDB SQL budget is required".

Definition limit_error (scope resource : string) : turbodb_failure :=
  mk_failure TURBODB_STATUS_LIMIT_EXCEEDED
    ("TidesDB SQL reserve exceeds " +:+ scope +:+ " " +:+ resource +:+ " budget").

Definition releasable (resource : nat) : bool :=
  (resource =? ORM_SQL_BUDGET_WORK_BYTES)%nat ||
  (resource =? ORM_SQL_BUDGET_MATERIALIZED_ROWS)%nat ||
  (resource =? ORM_SQL_BUDGET_GROUPS)%nat.

(** The ledger behind a pointer that must not be NULL. *)
Definition ledger : B orm_tidesdb_sql_budget := fun s =>
  match s with
  | Some b => (Ret b, s)
  | None => (Err (mk_failure TURBODB_STATUS_INVALID_ARGUMENT budget_required), s)
  end.

Definition publish (b : orm_tidesdb_sql_budget) : B unit := modify (fun _ => Some b).

Definition require_active : B orm_tidesdb_sql_budget :=
  budget ← ledger;
  raise_if (negb (statement_active budget)) TURBODB_STATUS_INVALID_STATE
    "TidesDB SQL budget requires an active statement";;
  mret budget.

(** The state is the output object. *)
Definition orm_tidesdb_sql_budget_init (lim : ptr orm_sql_budget_limits) : B unit :=
  out ← gets id;
  match out, lim with
  | Some _, Some l =>
      raise_if (existsb (fun i => amount_at (statement l) i =? 0) (seq 0 ORM_SQL_BUDGET_RESOURCE_COUNT))
        TURBODB_STATUS_INVALID_ARGUMENT "TidesDB SQL statement budgets must be positive";;
      raise_if ((SIZE_MAX <? amount_at (statement l) ORM_SQL_BUDGET_WORK_BYTES) ||
          (read_rows (transaction l) <? amount_at (statement l) ORM_SQL_BUDGET_READ_ROWS) ||
          (read_bytes (transaction l) <? amount_at (statement l) ORM_SQL_BUDGET_READ_BYTES) ||
          (write_bytes (transaction l) <? amount_at (statement l) ORM_SQL_BUDGET_WRITE_BYTES))
        TURBODB_STATUS_INVALID_ARGUMENT "TidesDB SQL budget limits are inconsistent";;
      publish (mk_budget l amount_zero amount_zero transaction_zero 0 false)
  | _, _ => raise TURBODB_STATUS_INVALID_ARGUMENT "TidesDB SQL budget init requires output and limits"
  end.

Definition orm_tidesdb_sql_budget_begin : B unit :=
  b ← ledger;
  raise_if (statement_active b) TURBODB_STATUS_BUSY "TidesDB SQL budget already has an active statement";;
  let base := amount_of ORM_SQL_BUDGET_WORK_BYTES (retained_work_bytes b) in
  publish (mk_budget (limits b) base base (transaction_used b) (retained_work_bytes b) true).

Definition orm_tidesdb_sql_budget_end : B unit :=
  b ← require_active;
  raise_if (existsb (fun i =>
      let retained := if (i =? ORM_SQL_BUDGET_WORK_BYTES)%nat then retained_work_bytes b else 0 in
      releasable i && negb (amount_at (used b) i =? retained)) (seq 0 ORM_SQL_BUDGET_RESOURCE_COUNT))
    TURBODB_STATUS_BUSY "TidesDB SQL statement still owns budgeted resources";;
  publish (mk_budget (limits b) (used b) (peak b) (transaction_used b) (retained_work_bytes b) false).

(** The first resource whose limit the charge would pass. *)
Definition over_limit (b : orm_tidesdb_sql_budget) (charge : orm_sql_budget_amount) : option nat :=
  List.find (fun i => size_sub (amount_at (statement (limits b)) i) (amount_at (used b) i) <? amount_at charge i)
    (seq 0 ORM_SQL_BUDGET_RESOURCE_COUNT).

Definition orm_tidesdb_sql_budget_reserve (amount : ptr orm_sql_budget_amount) : B unit :=
  b ← require_active;
  match amount with
  | None => raise TURBODB_STATUS_INVALID_ARGUMENT "TidesDB SQL reserve requires an amount"
  | Some charge =>
      match over_limit b charge with
      | Some i => fail (limit_error "statement" (nth i resource_names EmptyString))
      | None => mret tt
      end;;
      let tx := mk_transaction_amount (amount_at charge ORM_SQL_BUDGET_READ_ROWS)
        (amount_at charge ORM_SQL_BUDGET_READ_BYTES) (amount_at charge ORM_SQL_BUDGET_WRITE_BYTES) in
      let cap := transaction (limits b) in
      let spent := transaction_used b in
      fail_if (size_sub (read_rows cap) (read_rows spent) <? read_rows tx) (limit_error "transaction" "read rows");;
      fail_if (size_sub (read_bytes cap) (read_bytes spent) <? read_bytes tx) (limit_error "transaction" "read bytes");;
      fail_if (size_sub (write_bytes cap) (write_bytes spent) <? write_bytes tx) (limit_error "transaction" "write bytes");;
      let used' := each (fun i => u64 (amount_at (used b) i + amount_at charge i)) in
      publish (mk_budget (limits b) used'
        (each (fun i => if amount_at (peak b) i <? amount_at used' i then amount_at used' i else amount_at (peak b) i))
        (mk_transaction_amount (u64 (read_rows spent + read_rows tx)) (u64 (read_bytes spent + read_bytes tx))
          (u64 (write_bytes spent + write_bytes tx)))
        (retained_work_bytes b) (statement_active b))
  end.

(** [wants] says that the pointer [reserved] is not NULL; the result is the
    value stored there. *)
Definition orm_tidesdb_sql_budget_reserve_capacity (capacity element_bytes overhead_bytes : Z) (wants : bool) : B Z :=
  require_active;;
  raise_if (negb wants || (element_bytes =? 0)) TURBODB_STATUS_INVALID_ARGUMENT
    "TidesDB SQL capacity reserve requires output and element size";;
  raise_if (size_sub SIZE_MAX overhead_bytes / element_bytes <? capacity) TURBODB_STATUS_LIMIT_EXCEEDED
    "TidesDB SQL capacity byte calculation overflows size_t";;
  let bytes := u64 (u64 (capacity * element_bytes) + overhead_bytes) in
  orm_tidesdb_sql_budget_reserve (Some (amount_of ORM_SQL_BUDGET_WORK_BYTES bytes));;
  mret bytes.

Definition set_used (resource : nat) (v : Z) (b : orm_tidesdb_sql_budget) : orm_tidesdb_sql_budget :=
  mk_budget (limits b) (<[resource := v]> (used b)) (peak b) (transaction_used b) (retained_work_bytes b)
    (statement_active b).
Definition set_retained (v : Z) (b : orm_tidesdb_sql_budget) : orm_tidesdb_sql_budget :=
  mk_budget (limits b) (used b) (peak b) (transaction_used b) v (statement_active b).

Definition orm_tidesdb_sql_budget_release (resource : nat) (amount : Z) : B unit :=
  b ← require_active;
  raise_if (negb (releasable resource) || (amount_at (used b) resource <? amount) ||
      ((resource =? ORM_SQL_BUDGET_WORK_BYTES)%nat &&
       (size_sub (amount_at (used b) resource) amount <? retained_work_bytes b)))
    TURBODB_STATUS_INVALID_ARGUMENT "TidesDB SQL release requires owned live resources";;
  publish (set_used resource (size_sub (amount_at (used b) resource) amount) b).

Definition orm_tidesdb_sql_budget_reserve_retained_capacity (capacity element_bytes overhead_bytes : Z)
    (wants : bool) : B Z :=
  raise_if (negb wants) TURBODB_STATUS_INVALID_ARGUMENT "TidesDB SQL retained reserve requires output";;
  bytes ← orm_tidesdb_sql_budget_reserve_capacity capacity element_bytes overhead_bytes true;
  b ← ledger;
  publish (set_retained (u64 (retained_work_bytes b + bytes)) b);;
  mret bytes.

Definition orm_tidesdb_sql_budget_release_retained (amount : Z) : B unit :=
  b ← ledger;
  raise_if ((retained_work_bytes b <? amount) || (amount_at (used b) ORM_SQL_BUDGET_WORK_BYTES <? amount))
    TURBODB_STATUS_INVALID_ARGUMENT "TidesDB SQL release requires owned retained work";;
  publish (set_used ORM_SQL_BUDGET_WORK_BYTES (size_sub (amount_at (used b) ORM_SQL_BUDGET_WORK_BYTES) amount)
    (set_retained (size_sub (retained_work_bytes b) amount) b)).

Definition orm_tidesdb_sql_budget_reset_transaction : B unit :=
  b ← ledger;
  raise_if (statement_active b || negb (retained_work_bytes b =? 0)) TURBODB_STATUS_BUSY
    "TidesDB SQL transaction budget still has an active statement or retained owner";;
  publish (mk_budget (limits b) (used b) (peak b) transaction_zero (retained_work_bytes b) (statement_active b)).

(** ** Arrays *)

Lemma amount_at_each f i :
  amount_at (each f) i = if (i <? ORM_SQL_BUDGET_RESOURCE_COUNT)%nat then f i else 0.
Proof. do 11 (destruct i as [|i]; [done|]). by destruct i. Qed.

Lemma amount_at_each_lt f i : (i < ORM_SQL_BUDGET_RESOURCE_COUNT)%nat -> amount_at (each f) i = f i.
Proof. intros H%Nat.ltb_lt. by rewrite amount_at_each, H. Qed.

Lemma length_each f : length (each f) = ORM_SQL_BUDGET_RESOURCE_COUNT.
Proof. done. Qed.

Lemma amount_at_insert v r n i :
  (r < length v)%nat -> amount_at (<[r := n]> v) i = if (i =? r)%nat then n else amount_at v i.
Proof.
  intros Hr. unfold amount_at. rewrite !nth_lookup, list_lookup_insert.
  repeat case_decide; destruct (Nat.eqb_spec i r); try done; lia.
Qed.

#[global] Arguments each : simpl never.
#[global] Arguments amount_at : simpl never.

(** ** The invariant *)

Abbreviation COUNT := ORM_SQL_BUDGET_RESOURCE_COUNT.

(** A struct of unsigned 64-bit counters. *)
Definition amount_ok (v : orm_sql_budget_amount) : Prop :=
  length v = COUNT /\ forall i, 0 <= amount_at v i < 2 ^ 64.

Definition transaction_ok (t : orm_sql_transaction_budget_amount) : Prop :=
  0 <= read_rows t < 2 ^ 64 /\ 0 <= read_bytes t < 2 ^ 64 /\ 0 <= write_bytes t < 2 ^ 64.

Definition limits_words (l : orm_sql_budget_limits) : Prop :=
  amount_ok (statement l) /\ transaction_ok (transaction l).

Definition transaction_le (a b : orm_sql_transaction_budget_amount) : Prop :=
  read_rows a <= read_rows b /\ read_bytes a <= read_bytes b /\ write_bytes a <= write_bytes b.

(** What a statement holds of a releasable resource between statements. *)
Definition resting (b : orm_tidesdb_sql_budget) (r : nat) : Z :=
  if (r =? ORM_SQL_BUDGET_WORK_BYTES)%nat then retained_work_bytes b else 0.

Record ledger_ok (b : orm_tidesdb_sql_budget) : Prop := {
  ok_limits : limits_words (limits b);
  ok_used_size : length (used b) = COUNT;
  ok_used : forall i, 0 <= amount_at (used b) i <= amount_at (peak b) i;
  ok_peak : forall i, amount_at (peak b) i <= amount_at (statement (limits b)) i;
  ok_transaction : transaction_ok (transaction_used b);
  ok_transaction_le : transaction_le (transaction_used b) (transaction (limits b));
  ok_retained : 0 <= retained_work_bytes b <= amount_at (used b) ORM_SQL_BUDGET_WORK_BYTES;
  ok_resting : statement_active b = false -> forall r, releasable r = true -> amount_at (used b) r = resting b r
}.

Lemma work_lt : (ORM_SQL_BUDGET_WORK_BYTES < COUNT)%nat.
Proof. unfold COUNT, ORM_SQL_BUDGET_WORK_BYTES. lia. Qed.

Lemma amount_zero_at i : amount_at amount_zero i = 0.
Proof. unfold amount_zero. rewrite amount_at_each. by case_match. Qed.

Lemma amount_of_at r n i : (r < COUNT)%nat -> amount_at (amount_of r n) i = if (i =? r)%nat then n else 0.
Proof.
  intros. unfold amount_of. rewrite amount_at_insert by done. by rewrite amount_zero_at.
Qed.

Lemma amount_of_ok r n : (r < COUNT)%nat -> 0 <= n < 2 ^ 64 -> amount_ok (amount_of r n).
Proof.
  intros. split; [exact (length_insert amount_zero r n)|].
  intros i. rewrite amount_of_at by done. case_match; lia.
Qed.

Lemma releasable_lt r : releasable r = true -> (r < COUNT)%nat.
Proof.
  unfold releasable. destruct r as [|[|[|r]]]; [..|done]; unfold COUNT; lia.
Qed.

Lemma ledger_used_range b i : ledger_ok b -> 0 <= amount_at (used b) i < 2 ^ 64.
Proof.
  intros [[[? Hl] ?] ? Hu Hp ? ? ? ?]. specialize (Hl i). specialize (Hu i). specialize (Hp i). lia.
Qed.

(** ** Reserving *)

(** The charge stays within every limit, in exact arithmetic. *)
Definition fits (b : orm_tidesdb_sql_budget) (c : orm_sql_budget_amount) : Prop :=
  (forall i, (i < COUNT)%nat -> amount_at (used b) i + amount_at c i <= amount_at (statement (limits b)) i) /\
  read_rows (transaction_used b) + amount_at c ORM_SQL_BUDGET_READ_ROWS <= read_rows (transaction (limits b)) /\
  read_bytes (transaction_used b) + amount_at c ORM_SQL_BUDGET_READ_BYTES <= read_bytes (transaction (limits b)) /\
  write_bytes (transaction_used b) + amount_at c ORM_SQL_BUDGET_WRITE_BYTES <= write_bytes (transaction (limits b)).

(** [b'] is [b] with the charge added everywhere. *)
Record charged (b : orm_tidesdb_sql_budget) (c : orm_sql_budget_amount) (b' : orm_tidesdb_sql_budget) : Prop := {
  ch_limits : limits b' = limits b;
  ch_used : forall i, (i < COUNT)%nat -> amount_at (used b') i = amount_at (used b) i + amount_at c i;
  ch_peak : forall i, (i < COUNT)%nat -> amount_at (peak b') i = Z.max (amount_at (peak b) i) (amount_at (used b') i);
  ch_read_rows : read_rows (transaction_used b') = read_rows (transaction_used b) + amount_at c ORM_SQL_BUDGET_READ_ROWS;
  ch_read_bytes : read_bytes (transaction_used b') = read_bytes (transaction_used b) + amount_at c ORM_SQL_BUDGET_READ_BYTES;
  ch_write_bytes : write_bytes (transaction_used b') = write_bytes (transaction_used b) + amount_at c ORM_SQL_BUDGET_WRITE_BYTES;
  ch_retained : retained_work_bytes b' = retained_work_bytes b;
  ch_active : statement_active b' = statement_active b
}.

Lemma over_limit_Some b c i :
  ledger_ok b -> over_limit b c = Some i ->
  (i < COUNT)%nat /\ amount_at (statement (limits b)) i < amount_at (used b) i + amount_at c i.
Proof.
  intros Hb [Hi Hc]%find_some. apply in_seq in Hi.
  pose proof (ledger_used_range b i Hb). pose proof (ok_used b Hb i). pose proof (ok_peak b Hb i).
  pose proof (proj2 (proj1 (ok_limits b Hb)) i).
  rewrite size_sub_small in Hc by lia. split; [lia|blia].
Qed.

Lemma over_limit_None b c :
  ledger_ok b -> over_limit b c = None ->
  forall i, (i < COUNT)%nat -> amount_at (used b) i + amount_at c i <= amount_at (statement (limits b)) i.
Proof.
  intros Hb Hn i Hi.
  assert (In i (seq 0 COUNT)) as Hin by (apply in_seq; lia).
  pose proof (find_none _ _ Hn i Hin) as Hc. cbn beta in Hc.
  pose proof (ledger_used_range b i Hb). pose proof (ok_used b Hb i). pose proof (ok_peak b Hb i).
  pose proof (proj2 (proj1 (ok_limits b Hb)) i).
  rewrite size_sub_small in Hc by lia. blia.
Qed.

(** The ledger after an admitted charge. *)
Definition charge_ledger (b : orm_tidesdb_sql_budget) (c : orm_sql_budget_amount) : orm_tidesdb_sql_budget :=
  let used' := each (fun i => u64 (amount_at (used b) i + amount_at c i)) in
  mk_budget (limits b) used'
    (each (fun i => if amount_at (peak b) i <? amount_at used' i then amount_at used' i else amount_at (peak b) i))
    (mk_transaction_amount
      (u64 (read_rows (transaction_used b) + amount_at c ORM_SQL_BUDGET_READ_ROWS))
      (u64 (read_bytes (transaction_used b) + amount_at c ORM_SQL_BUDGET_READ_BYTES))
      (u64 (write_bytes (transaction_used b) + amount_at c ORM_SQL_BUDGET_WRITE_BYTES)))
    (retained_work_bytes b) (statement_active b).

Lemma charge_ledger_charged b c :
  ledger_ok b -> amount_ok c -> fits b c -> charged b c (charge_ledger b c).
Proof.
  intros Hb [_ Hc] (Hf & Hr & Hrb & Hw).
  destruct (ok_transaction b Hb) as (? & ? & ?). destruct (proj2 (ok_limits b Hb)) as (? & ? & ?).
  assert (forall i, (i < COUNT)%nat ->
    amount_at (used (charge_ledger b c)) i = amount_at (used b) i + amount_at c i) as Hu.
  { intros i Hi. cbn. rewrite amount_at_each_lt by done. apply u64_small.
    pose proof (ledger_used_range b i Hb). specialize (Hc i). specialize (Hf i Hi).
    pose proof (proj2 (proj1 (ok_limits b Hb)) i). lia. }
  split; try done.
  - intros i Hi. rewrite (Hu i Hi). specialize (Hu i Hi). cbn in *. rewrite !amount_at_each_lt in * by done.
    rewrite !Hu.
    destruct (Z.ltb_spec (amount_at (peak b) i) (amount_at (used b) i + amount_at c i)); lia.
  - cbn. apply u64_small. specialize (Hc ORM_SQL_BUDGET_READ_ROWS). lia.
  - cbn. apply u64_small. specialize (Hc ORM_SQL_BUDGET_READ_BYTES). lia.
  - cbn. apply u64_small. specialize (Hc ORM_SQL_BUDGET_WRITE_BYTES). lia.
Qed.

Lemma amount_at_beyond v i : length v = COUNT -> (COUNT <= i)%nat -> amount_at v i = 0.
Proof. intros Hv Hi. unfold amount_at. apply nth_overflow. lia. Qed.

Lemma charged_ok b c b' :
  ledger_ok b -> amount_ok c -> fits b c -> charged b c b' -> statement_active b = true ->
  length (used b') = COUNT -> length (peak b') = COUNT -> ledger_ok b'.
Proof.
  intros Hb [Hcl Hc] (Hf & Hr & Hrb & Hw) [El Hu Hp ? ? ? Hret Hact] Ha Hlu Hlp.
  pose proof (fun i => proj2 (proj1 (ok_limits b Hb)) i) as Hlim.
  destruct (ok_transaction b Hb) as (? & ? & ?). destruct (proj2 (ok_limits b Hb)) as (? & ? & ?).
  pose proof (Hc ORM_SQL_BUDGET_READ_ROWS). pose proof (Hc ORM_SQL_BUDGET_READ_BYTES).
  pose proof (Hc ORM_SQL_BUDGET_WRITE_BYTES).
  split; rewrite ?El; try done.
  - apply Hb.
  - intros i. destruct (decide (i < COUNT)%nat) as [Hi|Hi].
    + rewrite Hp, Hu by done. pose proof (ok_used b Hb i). specialize (Hc i). lia.
    + rewrite !amount_at_beyond by (done || lia). lia.
  - intros i. destruct (decide (i < COUNT)%nat) as [Hi|Hi].
    + rewrite Hp, Hu by done. specialize (Hf i Hi). pose proof (ok_peak b Hb i). lia.
    + rewrite amount_at_beyond by (done || lia). apply Hlim.
  - unfold transaction_ok. lia.
  - unfold transaction_le. lia.
  - rewrite Hret, Hu by apply work_lt. pose proof (ok_retained b Hb).
    specialize (Hc ORM_SQL_BUDGET_WORK_BYTES). lia.
  - congruence.
Qed.

Lemma require_active_ok b (Q : orm_tidesdb_sql_budget -> ptr orm_tidesdb_sql_budget -> Prop) R :
  statement_active b = true -> Q b (Some b) -> wp require_active Q R (Some b).
Proof. intros Ha HQ. unfold require_active, wp, mbind, M_bind, ledger, raise_if, fail_if. by rewrite Ha. Qed.

Lemma require_active_idle b (Q : orm_tidesdb_sql_budget -> ptr orm_tidesdb_sql_budget -> Prop)
    (R : turbodb_failure -> ptr orm_tidesdb_sql_budget -> Prop) :
  statement_active b = false -> (forall f, R f (Some b)) -> wp require_active Q R (Some b).
Proof. intros Ha HR. unfold require_active, wp, mbind, M_bind, ledger, raise_if, fail_if. rewrite Ha. apply HR. Qed.

Lemma reserve_wp b c :
  ledger_ok b -> statement_active b = true -> amount_ok c ->
  wp (orm_tidesdb_sql_budget_reserve (Some c))
    (fun _ s => fits b c /\ s = Some (charge_ledger b c))
    (fun f s => ~ fits b c /\ s = Some b /\ f_status f = TURBODB_STATUS_LIMIT_EXCEEDED) (Some b).
Proof.
  intros Hb Ha Hc. unfold orm_tidesdb_sql_budget_reserve. apply wp_bind, require_active_ok; [done|].
  destruct (ok_transaction b Hb) as (? & ? & ?). destruct (ok_transaction_le b Hb) as (? & ? & ?).
  destruct (proj2 (ok_limits b Hb)) as (? & ? & ?).
  apply wp_bind. destruct (over_limit b c) as [i|] eqn:Ho.
  { apply wp_fail. apply over_limit_Some in Ho as [Hi Ho]; [|done].
    split_and!; [|done..]. intros [Hf _]. specialize (Hf i Hi). lia. }
  apply wp_ret. pose proof (over_limit_None b c Hb Ho) as Hf. cbv zeta. cbn [read_rows read_bytes write_bytes].
  rewrite !size_sub_small by lia.
  repeat (tdb_step; bsimp; try (split_and!; [intros (? & ? & ? & ?); lia|done..])).
  split; [|done]. split_and!; [done|lia..].
Qed.

Lemma reserve_ok b c :
  ledger_ok b -> statement_active b = true -> amount_ok c ->
  wp (orm_tidesdb_sql_budget_reserve (Some c))
    (fun _ s => exists b', s = Some b' /\ charged b c b' /\ ledger_ok b') (fun _ s => s = Some b) (Some b).
Proof.
  intros Hb Ha Hc. eapply wp_mono; [by apply reserve_wp| |by intros ? ? (? & -> & ?)].
  intros _ s [Hf ->]. pose proof (charge_ledger_charged b c Hb Hc Hf).
  eexists. split_and!; [done..|]. by eapply charged_ok.
Qed.

Lemma wp_publish b (Q : unit -> ptr orm_tidesdb_sql_budget -> Prop) R s :
  Q tt (Some b) -> wp (publish b) Q R s.
Proof. done. Qed.

Ltac budget_step :=
  match goal with
  | |- wp (publish _) _ _ _ => apply wp_publish
  | _ => tdb_step
  end.

(** ** Sequences of operations *)

Definition word (z : Z) : Prop := 0 <= z < 2 ^ 64.

Inductive budget_op : Type :=
| Op_begin
| Op_end
| Op_reserve (amount : orm_sql_budget_amount)
| Op_reserve_capacity (capacity element_bytes overhead_bytes : Z)
| Op_release (resource : nat) (amount : Z)
| Op_reserve_retained (capacity element_bytes overhead_bytes : Z)
| Op_release_retained (amount : Z)
| Op_reset_transaction.

Definition perform (op : budget_op) : B unit :=
  match op with
  | Op_begin => orm_tidesdb_sql_budget_begin
  | Op_end => orm_tidesdb_sql_budget_end
  | Op_reserve amount => orm_tidesdb_sql_budget_reserve (Some amount)
  | Op_reserve_capacity c e o => orm_tidesdb_sql_budget_reserve_capacity c e o true;; mret tt
  | Op_release r n => orm_tidesdb_sql_budget_release r n
  | Op_reserve_retained c e o => orm_tidesdb_sql_budget_reserve_retained_capacity c e o true;; mret tt
  | Op_release_retained n => orm_tidesdb_sql_budget_release_retained n
  | Op_reset_transaction => orm_tidesdb_sql_budget_reset_transaction
  end.

(** The arguments have the width of their C types. *)
Definition op_ok (op : budget_op) : Prop :=
  match op with
  | Op_reserve amount => amount_ok amount
  | Op_reserve_capacity c e o | Op_reserve_retained c e o => word c /\ word e /\ word o
  | Op_release _ n | Op_release_retained n => word n
  | _ => True
  end.

(** What an operation adds to the counter of resource [i] when it succeeds,
    and what it adds to the retained bytes. *)
Definition op_used (op : budget_op) (i : nat) : Z :=
  match op with
  | Op_reserve amount => amount_at amount i
  | Op_reserve_capacity c e o | Op_reserve_retained c e o =>
      if (i =? ORM_SQL_BUDGET_WORK_BYTES)%nat then c * e + o else 0
  | Op_release r n => if (i =? r)%nat then - n else 0
  | Op_release_retained n => if (i =? ORM_SQL_BUDGET_WORK_BYTES)%nat then - n else 0
  | _ => 0
  end.

Definition op_retained (op : budget_op) : Z :=
  match op with
  | Op_reserve_retained c e o => c * e + o
  | Op_release_retained n => - n
  | _ => 0
  end.

(** The operations between the begin and the end of a statement. *)
Definition inner (op : budget_op) : bool :=
  match op with Op_begin | Op_end => false | _ => true end.

Record moved (op : budget_op) (b b' : orm_tidesdb_sql_budget) : Prop := {
  mv_ok : ledger_ok b';
  mv_limits : limits b' = limits b;
  mv_active : statement_active b' = statement_active b;
  mv_used : forall i, (i < COUNT)%nat -> amount_at (used b') i = amount_at (used b) i + op_used op i;
  mv_retained : retained_work_bytes b' = retained_work_bytes b + op_retained op
}.

(** The operation either moves the counters by its effect or changes nothing. *)
Definition sound (op : budget_op) : Prop :=
  forall b, ledger_ok b ->
  wp (perform op) (fun _ s => exists b', s = Some b' /\ moved op b b') (fun _ s => s = Some b) (Some b).

Lemma reserve_sound c : amount_ok c -> sound (Op_reserve c).
Proof.
  intros Hc b Hb. cbn [perform]. destruct (statement_active b) eqn:Ha.
  - eapply wp_mono; [by apply reserve_ok| |done].
    intros _ s (b' & -> & Hch & Hok). exists b'. split; [done|]. destruct Hch.
    split; [done..|]. cbn. lia.
  - unfold orm_tidesdb_sql_budget_reserve. by apply wp_bind, require_active_idle.
Qed.

Lemma capacity_exact c e o :
  word c -> word e -> word o -> (e =? 0) = false -> (size_sub SIZE_MAX o / e <? c) = false ->
  u64 (u64 (c * e) + o) = c * e + o /\ word (c * e + o).
Proof.
  unfold word. intros Hc He Ho He0 Hcap. bsimp. unfold SIZE_MAX in *.
  rewrite size_sub_small in Hcap by lia.
  assert (c * e <= 2 ^ 64 - 1 - o).
  { transitivity ((2 ^ 64 - 1 - o) / e * e); [nia|]. rewrite Z.mul_comm. apply Z.mul_div_le. lia. }
  assert (0 <= c * e) by nia. rewrite (u64_small (c * e)), u64_small by lia. lia.
Qed.

Lemma reserve_capacity_wp b c e o :
  ledger_ok b -> word c -> word e -> word o ->
  wp (orm_tidesdb_sql_budget_reserve_capacity c e o true)
    (fun n s => n = c * e + o /\ word n /\ statement_active b = true /\
      exists b', s = Some b' /\ charged b (amount_of ORM_SQL_BUDGET_WORK_BYTES n) b' /\ ledger_ok b')
    (fun _ s => s = Some b) (Some b).
Proof.
  intros Hb Hc He Ho. unfold orm_tidesdb_sql_budget_reserve_capacity. apply wp_bind.
  destruct (statement_active b) eqn:Ha; [|by apply require_active_idle].
  apply require_active_ok; [done|]. do 2 (tdb_step; tdb_step; [done|]).
  cbn [negb orb] in *. destruct (capacity_exact c e o) as [-> Hw]; [done..|].
  tdb_step. eapply wp_mono; [apply reserve_ok; [done..|]; apply amount_of_ok; [apply work_lt|done]| |done].
  intros _ s (b' & -> & Hch & Hok). tdb_step. eauto 10.
Qed.

Lemma reserve_capacity_sound c e o : word c -> word e -> word o -> sound (Op_reserve_capacity c e o).
Proof.
  intros Hc He Ho b Hb. cbn [perform]. tdb_step.
  eapply wp_mono; [by apply reserve_capacity_wp| |done].
  intros n s (-> & Hn & Ha & b' & -> & [] & Hok). tdb_step. exists b'. split; [done|].
  split; [done..| |cbn; lia]. intros i Hi. rewrite ch_used0 by done. f_equal.
  by rewrite amount_of_at by apply work_lt.
Qed.

(** Lowering one counter and the retained bytes. *)
Lemma lowered_ok b r v k :
  ledger_ok b -> (r < COUNT)%nat -> 0 <= v <= amount_at (used b) r -> 0 <= k <= retained_work_bytes b ->
  (r = ORM_SQL_BUDGET_WORK_BYTES -> k <= v) ->
  (statement_active b = false -> r = ORM_SQL_BUDGET_WORK_BYTES /\ v = k) ->
  ledger_ok (set_used r v (set_retained k b)).
Proof.
  intros Hb Hr Hv Hk Hw Hrest. pose proof (ok_used_size b Hb) as Hlen.
  pose proof (ok_retained b Hb).
  assert (forall i, amount_at (<[r := v]> (used b)) i = if (i =? r)%nat then v else amount_at (used b) i) as E.
  { intros i. apply amount_at_insert. by rewrite Hlen. }
  split; cbn; try apply Hb.
  - etrans; [apply length_insert|done].
  - intros i. rewrite E. pose proof (ok_used b Hb i).
    destruct (Nat.eqb_spec i r); [subst i; lia|done].
  - rewrite E. destruct (Nat.eqb_spec ORM_SQL_BUDGET_WORK_BYTES r); [subst; specialize (Hw eq_refl)|]; lia.
  - intros Ha q Hq. destruct (Hrest Ha) as [-> ->]. rewrite E. unfold resting. cbn.
    destruct (Nat.eqb_spec q ORM_SQL_BUDGET_WORK_BYTES) as [->|Hn]; [done|].
    rewrite (ok_resting b Hb Ha q Hq). unfold resting. by destruct (Nat.eqb_spec q ORM_SQL_BUDGET_WORK_BYTES).
Qed.

Lemma lowered_moved op b r n m :
  ledger_ok b -> (r < COUNT)%nat -> 0 <= n <= amount_at (used b) r -> 0 <= m <= retained_work_bytes b ->
  (r = ORM_SQL_BUDGET_WORK_BYTES -> retained_work_bytes b - m <= amount_at (used b) r - n) ->
  (statement_active b = false -> r = ORM_SQL_BUDGET_WORK_BYTES /\ n = m) ->
  (forall i, op_used op i = if (i =? r)%nat then - n else 0) -> op_retained op = - m ->
  moved op b (set_used r (size_sub (amount_at (used b) r) n) (set_retained (size_sub (retained_work_bytes b) m) b)).
Proof.
  intros Hb Hr Hn Hm Hw Hidle Hu Hk. pose proof (ledger_used_range b r Hb) as Hlt.
  pose proof (ledger_used_range b ORM_SQL_BUDGET_WORK_BYTES Hb). pose proof (ok_retained b Hb).
  rewrite !size_sub_small by lia. split; [|done..| |cbn; lia].
  - apply lowered_ok; [done..|lia|lia|intros; specialize (Hw ltac:(done)); lia|].
    intros Ha. destruct (Hidle Ha) as [-> ->]. split; [done|]. f_equal.
    rewrite (ok_resting b Hb Ha ORM_SQL_BUDGET_WORK_BYTES eq_refl). done.
  - intros i Hi. cbn. rewrite amount_at_insert by (rewrite (ok_used_size b Hb); done).
    rewrite Hu. destruct (Nat.eqb_spec i r); [subst i|]; lia.
Qed.

Lemma set_retained_same b : set_retained (retained_work_bytes b) b = b.
Proof. by destruct b. Qed.

Lemma release_sound r n : word n -> sound (Op_release r n).
Proof.
  unfold word. intros Hn b Hb. cbn [perform]. unfold orm_tidesdb_sql_budget_release. budget_step.
  destruct (statement_active b) eqn:Ha; [|by apply require_active_idle].
  apply require_active_ok; [done|]. budget_step. budget_step; [done|]. bsimp. budget_step.
  eexists. split; [done|]. pose proof (ledger_used_range b r Hb). pose proof (ok_retained b Hb).
  pose proof (ledger_used_range b ORM_SQL_BUDGET_WORK_BYTES Hb).
  rewrite <- (set_retained_same b) at 3.
  replace (retained_work_bytes b) with (size_sub (retained_work_bytes b) 0) by (rewrite size_sub_small; lia).
  apply lowered_moved; try done; try lia; [by apply releasable_lt| |congruence].
  intros ->. match goal with H : _ \/ _ |- _ => destruct H as [|H]; [done|] end.
  bsimp. rewrite size_sub_small in * by lia. lia.
Qed.

Lemma release_retained_sound n : word n -> sound (Op_release_retained n).
Proof.
  unfold word. intros Hn b Hb. cbn [perform]. unfold orm_tidesdb_sql_budget_release_retained.
  budget_step. cbn. budget_step. budget_step; [done|]. bsimp. budget_step. eexists. split; [done|].
  pose proof (ok_retained b Hb). by apply lowered_moved; try done; try apply work_lt; try lia.
Qed.

Lemma reserve_retained_sound c e o : word c -> word e -> word o -> sound (Op_reserve_retained c e o).
Proof.
  intros Hc He Ho b Hb. cbn [perform]. unfold orm_tidesdb_sql_budget_reserve_retained_capacity.
  do 2 budget_step. budget_step; [done|]. budget_step. eapply wp_mono; [by apply reserve_capacity_wp| |done].
  intros n s (-> & Hn & Ha & b' & -> & [] & Hok). cbn. eexists. split; [done|].
  pose proof (ch_used0 ORM_SQL_BUDGET_WORK_BYTES work_lt) as Hu.
  rewrite amount_of_at in Hu by apply work_lt. cbn in Hu.
  pose proof (ok_retained b Hb). pose proof (ok_retained b' Hok).
  pose proof (ledger_used_range b' ORM_SQL_BUDGET_WORK_BYTES Hok). unfold word in *.
  rewrite ch_retained0, u64_small by lia.
  split; [|done..| |done].
  - destruct Hok. split; cbn; try done; [lia|congruence].
  - intros i Hi. cbn. rewrite ch_used0 by done. f_equal. by rewrite amount_of_at by apply work_lt.
Qed.

Lemma reset_sound : sound Op_reset_transaction.
Proof.
  intros b Hb. cbn [perform]. unfold orm_tidesdb_sql_budget_reset_transaction.
  budget_step. cbn. budget_step. budget_step; [done|]. budget_step. eexists. split; [done|].
  split; [|done..|cbn; lia|cbn; lia]. destruct Hb as [[? (? & ? & ?)]]. split; try done.
  unfold transaction_le. cbn. lia.
Qed.

Lemma inner_sound op : op_ok op -> inner op = true -> sound op.
Proof.
  destruct op; try done; intros Hok _;
    [by apply reserve_sound|by apply reserve_capacity_sound; apply Hok|by apply release_sound
    |by apply reserve_retained_sound; apply Hok|by apply release_retained_sound|by apply reset_sound].
Qed.

Lemma begin_wp b :
  ledger_ok b ->
  wp orm_tidesdb_sql_budget_begin
    (fun _ s => statement_active b = false /\ exists b', s = Some b' /\ ledger_ok b' /\
      limits b' = limits b /\ statement_active b' = true /\ retained_work_bytes b' = retained_work_bytes b /\
      forall i, amount_at (used b') i = resting b i)
    (fun f s => statement_active b = true /\ s = Some b /\ f_status f = TURBODB_STATUS_BUSY) (Some b).
Proof.
  intros Hb. unfold orm_tidesdb_sql_budget_begin. budget_step. cbn. budget_step. budget_step; [done|].
  budget_step. split; [done|]. eexists. split; [done|].
  pose proof (ok_retained b Hb). pose proof (ok_used b Hb ORM_SQL_BUDGET_WORK_BYTES).
  pose proof (ok_peak b Hb ORM_SQL_BUDGET_WORK_BYTES).
  assert (forall i, amount_at (amount_of ORM_SQL_BUDGET_WORK_BYTES (retained_work_bytes b)) i = resting b i) as E.
  { intros i. by rewrite amount_of_at by apply work_lt. }
  split_and!; [|done..]. split; cbn; try done; try apply Hb.
  - intros i. rewrite E. unfold resting. case_match; lia.
  - intros i. rewrite E. unfold resting. destruct (Nat.eqb_spec i ORM_SQL_BUDGET_WORK_BYTES) as [->|].
    + lia.
    + apply (proj2 (proj1 (ok_limits b Hb)) i).
  - rewrite E. cbn. lia.
Qed.

(** The ledger after a statement. *)
Definition ended (b : orm_tidesdb_sql_budget) : orm_tidesdb_sql_budget :=
  mk_budget (limits b) (used b) (peak b) (transaction_used b) (retained_work_bytes b) false.

Lemma end_wp b :
  ledger_ok b -> statement_active b = true ->
  wp orm_tidesdb_sql_budget_end
    (fun _ s => (forall r, releasable r = true -> amount_at (used b) r = resting b r) /\
      ledger_ok (ended b) /\ s = Some (ended b))
    (fun f s => ~ (forall r, releasable r = true -> amount_at (used b) r = resting b r) /\ s = Some b /\
      f_status f = TURBODB_STATUS_BUSY) (Some b).
Proof.
  intros Hb Ha. unfold orm_tidesdb_sql_budget_end. apply wp_bind, require_active_ok; [done|].
  budget_step. apply wp_raise_if; intros Hx.
  - split_and!; [|done..]. intros Hall. apply existsb_exists in Hx as (i & _ & Hi). bsimp.
    apply Hall in H. unfold resting in H. done.
  - assert (forall r, releasable r = true -> amount_at (used b) r = resting b r) as Hall.
    { intros r Hr. rewrite <- not_true_iff_false in Hx. apply Z.eqb_eq, negb_false_iff, not_true_iff_false.
      intros Hn. apply Hx, existsb_exists. exists r. split.
      - apply in_seq. apply releasable_lt in Hr. lia.
      - rewrite Hr. exact Hn. }
    budget_step. split; [done|]. split; [|done]. destruct Hb. split; try done.
Qed.

Lemma idle_end_wp b (H : statement_active b = false) :
  wp orm_tidesdb_sql_budget_end (fun _ _ => False) (fun _ s => s = Some b) (Some b).
Proof. by apply wp_bind, require_active_idle. Qed.

Lemma perform_ok op b :
  ledger_ok b -> op_ok op ->
  wp (perform op) (fun _ s => exists b', s = Some b' /\ ledger_ok b') (fun _ s => s = Some b) (Some b).
Proof.
  intros Hb Hop. destruct (inner op) eqn:Hi.
  { eapply wp_mono; [by apply inner_sound| |done]. intros _ s (b' & -> & []). eauto. }
  destruct op; try done; cbn [perform].
  - eapply wp_mono; [by apply begin_wp|..].
    + intros _ s (_ & b' & -> & ? & _). eauto.
    + by intros f s (_ & -> & _).
  - destruct (statement_active b) eqn:Ha.
    + eapply wp_mono; [by apply end_wp|..].
      * intros _ s (_ & ? & ->). eauto.
      * by intros f s (_ & -> & _).
    + eapply wp_mono; [by apply idle_end_wp|done..].
Qed.

Lemma init_ok l b0 :
  limits_words l ->
  wp (orm_tidesdb_sql_budget_init (Some l)) (fun _ s => exists b, s = Some b /\ ledger_ok b) (fun _ s => s = Some b0)
    (Some b0).
Proof.
  intros Hl. unfold orm_tidesdb_sql_budget_init. budget_step. cbn. do 2 (budget_step; budget_step; [done|]).
  budget_step. eexists. split; [done|]. destruct Hl as [[? Hs] (? & ? & ?)].
  split; cbn; try done; intros; unfold transaction_le; cbn; rewrite ?amount_zero_at; try lia; [apply Hs|].
  unfold resting. cbn. by case_match.
Qed.

(** The ledgers that calls can produce: an accepted initialisation followed by
    any operations, failed ones included. *)
Inductive reachable : orm_tidesdb_sql_budget -> Prop :=
| reach_init l b0 b :
    limits_words l -> orm_tidesdb_sql_budget_init (Some l) (Some b0) = (Ret tt, Some b) -> reachable b
| reach_step op b r b' :
    reachable b -> op_ok op -> perform op (Some b) = (r, Some b') -> reachable b'.

Lemma reachable_ledger_ok b : reachable b -> ledger_ok b.
Proof.
  induction 1 as [l b0 b Hl E|op b r b' _ IH Hop E].
  - pose proof (init_ok l b0 Hl) as Hw. unfold wp in Hw. rewrite E in Hw. by destruct Hw as (? & [= ->] & ?).
  - pose proof (perform_ok op b IH Hop) as Hw. unfold wp in Hw. rewrite E in Hw.
    destruct r; [by destruct Hw as (? & [= ->] & ?)|by injection Hw as ->|done].
Qed.

(** ** Accounting over a statement *)

(** Which operations of a sequence succeeded, and the ledger after it. *)
Fixpoint run_ops (ops : list budget_op) (s : ptr orm_tidesdb_sql_budget) : list bool * ptr orm_tidesdb_sql_budget :=
  match ops with
  | [] => ([], s)
  | op :: ops =>
      let '(r, s') := perform op s in
      let '(oks, s'') := run_ops ops s' in
      ((match r with Ret _ => true | _ => false end) :: oks, s'')
  end.

(** The sum of the effects of the operations that succeeded. *)
Fixpoint net (f : budget_op -> Z) (ops : list budget_op) (oks : list bool) : Z :=
  match ops, oks with
  | op :: ops, ok :: oks => (if ok then f op else 0) + net f ops oks
  | _, _ => 0
  end.

Lemma run_inner ops b :
  ledger_ok b -> Forall op_ok ops -> forallb inner ops = true ->
  exists oks b', run_ops ops (Some b) = (oks, Some b') /\ ledger_ok b' /\
    statement_active b' = statement_active b /\
    (forall i, (i < COUNT)%nat -> amount_at (used b') i = amount_at (used b) i + net (fun op => op_used op i) ops oks) /\
    retained_work_bytes b' = retained_work_bytes b + net op_retained ops oks.
Proof.
  intros Hb Hops Hin. revert b Hb. induction Hops as [|op ops Hop _ IH]; intros b Hb; cbn [run_ops].
  { exists [], b. split_and!; try done; intros; cbn; lia. }
  cbn in Hin. apply andb_true_iff in Hin as [Hi Hin]. specialize (IH Hin).
  pose proof (inner_sound op Hop Hi b Hb) as Hw. unfold wp in Hw.
  destruct (perform op (Some b)) as [[] s]; [destruct Hw as (b1 & -> & [])|subst s|done].
  - destruct (IH b1) as (oks & b' & -> & ? & Ha & Hu & Hr); [done|].
    exists (true :: oks), b'. split_and!; [done..|congruence| |cbn; lia].
    intros i Hi'. rewrite Hu, mv_used0 by done. cbn. lia.
  - destruct (IH b) as (oks & b' & -> & ? & Ha & Hu & Hr); [done|].
    exists (false :: oks), b'. split_and!; [done..| |cbn; lia].
    intros i Hi'. rewrite Hu by done. cbn. lia.
Qed.

(** C12. In every ledger that calls can produce, whatever operations were made
    and whichever failed, each counter is at most its peak and each peak at
    most the statement limit, so no counter ever wraps. The reads and writes
    of the transaction are within the limits of the transaction, and the
    retained bytes are part of the work bytes. Between statements the
    releasable counters hold exactly what is retained. *)
Theorem budget_invariant b :
  reachable b ->
  (forall i, 0 <= amount_at (used b) i <= amount_at (peak b) i /\
     amount_at (peak b) i <= amount_at (statement (limits b)) i < 2 ^ 64) /\
  transaction_le (transaction_used b) (transaction (limits b)) /\
  0 <= retained_work_bytes b <= amount_at (used b) ORM_SQL_BUDGET_WORK_BYTES /\
  (statement_active b = false -> forall r, releasable r = true -> amount_at (used b) r = resting b r).
Proof.
  intros Hb%reachable_ledger_ok. destruct Hb as [[[_ Hl] _] _ Hu Hp _ Ht Hr Hi].
  split; [|by split]. intros i. specialize (Hl i). specialize (Hu i). specialize (Hp i). lia.
Qed.

(** C17. Reserving charges everything or nothing. With a statement in progress
    it succeeds exactly when the charge, added in exact arithmetic, stays
    within every statement limit and every transaction limit; then each
    counter has grown by its charge and each peak is the maximum reached.
    Otherwise the status is LIMIT_EXCEEDED and the ledger is what it was.
    Without a statement in progress, or without a ledger or an amount, it
    fails and changes nothing. *)
Theorem budget_reserve_exact b c :
  reachable b -> amount_ok c ->
  match orm_tidesdb_sql_budget_reserve (Some c) (Some b) with
  | (Ret _, s) => statement_active b = true /\ fits b c /\ exists b', s = Some b' /\ charged b c b'
  | (Err f, s) => s = Some b /\
      if statement_active b then ~ fits b c /\ f_status f = TURBODB_STATUS_LIMIT_EXCEEDED
      else f_status f = TURBODB_STATUS_INVALID_STATE
  | (Fault, _) => False
  end /\
  (forall amount s, amount = None \/ s = None -> exists f, orm_tidesdb_sql_budget_reserve amount s = (Err f, s)).
Proof.
  intros Hb%reachable_ledger_ok Hc. split.
  - destruct (statement_active b) eqn:Ha.
    + pose proof (reserve_wp b c Hb Ha Hc) as Hw. unfold wp in Hw.
      destruct (orm_tidesdb_sql_budget_reserve (Some c) (Some b)) as [[] s]; [|by destruct Hw as (? & -> & ?)|done].
      destruct Hw as [Hf ->]. split_and!; [done..|]. eexists. split; [done|]. by apply charge_ledger_charged.
    + unfold orm_tidesdb_sql_budget_reserve, require_active, mbind, M_bind, ledger, raise_if, fail_if. by rewrite Ha.
  - intros amount s Hn.
    unfold orm_tidesdb_sql_budget_reserve, require_active, mbind, M_bind, ledger, raise_if, fail_if.
    destruct s as [x|]; [|by eexists]. destruct (statement_active x); [|by eexists].
    destruct Hn as [->|]; [by eexists|done].
Qed.

(** C25. A statement can end exactly when it has given back what it took. After
    begin, any operations of the statement leave each counter at its value
    after begin plus the charges and minus the releases that succeeded. Ending
    the statement succeeds if and only if, of each releasable resource, the
    successful charges and releases balance, the work that is retained beyond
    the statement apart; otherwise it reports BUSY and changes nothing. An ended
    statement is no longer active and holds nothing but the retained work, which
    is what was retained before it and by it; its other counters and the
    transaction stay for inspection, and the next statement begins with the
    retained work alone. *)
Theorem budget_statement_balances b ops :
  reachable b -> statement_active b = false -> Forall op_ok ops -> forallb inner ops = true ->
  exists b0 oks b1,
    orm_tidesdb_sql_budget_begin (Some b) = (Ret tt, Some b0) /\
    run_ops ops (Some b0) = (oks, Some b1) /\
    (forall i, (i < COUNT)%nat -> amount_at (used b1) i = resting b i + net (fun op => op_used op i) ops oks) /\
    let balanced := forall r, releasable r = true -> net (fun op => op_used op r) ops oks =
      if (r =? ORM_SQL_BUDGET_WORK_BYTES)%nat then net op_retained ops oks else 0 in
    match orm_tidesdb_sql_budget_end (Some b1) with
    | (Ret _, s) => balanced /\ exists b2 b3, s = Some b2 /\ statement_active b2 = false /\
        retained_work_bytes b2 = retained_work_bytes b + net op_retained ops oks /\
        (forall r, releasable r = true -> amount_at (used b2) r = resting b2 r) /\
        limits b2 = limits b1 /\ used b2 = used b1 /\ peak b2 = peak b1 /\ transaction_used b2 = transaction_used b1 /\
        orm_tidesdb_sql_budget_begin (Some b2) = (Ret tt, Some b3) /\
        (forall i, (i < COUNT)%nat -> amount_at (used b3) i = resting b2 i)
    | (Err f, s) => ~ balanced /\ s = Some b1 /\ f_status f = TURBODB_STATUS_BUSY
    | (Fault, _) => False
    end.
Proof.
  intros Hb%reachable_ledger_ok Ha Hops Hin. pose proof (begin_wp b Hb) as Hw. unfold wp in Hw.
  destruct (orm_tidesdb_sql_budget_begin (Some b)) as [[[]|f|] s]; [|destruct Hw as (? & _); congruence|done].
  destruct Hw as (_ & b0 & -> & Hb0 & _ & Ha0 & Hr0 & Hu0).
  destruct (run_inner ops b0 Hb0 Hops Hin) as (oks & b1 & E & Hb1 & Ha1 & Hu1 & Hr1).
  exists b0, oks, b1. split_and!; [done..| |].
  { intros i Hi. by rewrite Hu1, Hu0 by done. }
  assert ((forall r, releasable r = true -> amount_at (used b1) r = resting b1 r) <->
    (forall r, releasable r = true -> net (fun op => op_used op r) ops oks =
      if (r =? ORM_SQL_BUDGET_WORK_BYTES)%nat then net op_retained ops oks else 0)) as Hiff.
  { split; intros H r Hr; specialize (H r Hr); pose proof (releasable_lt r Hr);
      rewrite ?Hu1, ?Hu0 in * by done; unfold resting in *; case_match; lia. }
  pose proof (end_wp b1 Hb1 (eq_trans Ha1 Ha0)) as He. unfold wp in He.
  destruct (orm_tidesdb_sql_budget_end (Some b1)) as [[] s]; [|destruct He as (Hn & -> & Hf)|done].
  - destruct He as (Hall & Hok & ->). split; [by apply Hiff|]. pose proof (begin_wp (ended b1) Hok) as Hn. unfold wp in Hn.
    destruct (orm_tidesdb_sql_budget_begin (Some (ended b1))) as [[[]|f|] s] eqn:Eb; [|by destruct Hn as (? & _)|done].
    destruct Hn as (_ & b3 & -> & _ & _ & _ & _ & Hu3). exists (ended b1), b3. split_and!; try done. cbn. by rewrite Hr1, Hr0.
  - split; [|done]. intros Hx. by apply Hn, Hiff.
Qed.

(** ** Witnesses *)

Definition sample_limits : orm_sql_budget_limits :=
  mk_limits (each (fun _ => 100)) (mk_transaction_amount 150 150 150).

Definition sample_storage : orm_tidesdb_sql_budget := mk_budget sample_limits [] [] transaction_zero 0 false.

(** The ledger after initialisation and some operations. *)
Definition sample_after (ops : list budget_op) : orm_tidesdb_sql_budget :=
  default sample_storage
    (snd (run_ops ops (snd (orm_tidesdb_sql_budget_init (Some sample_limits) (Some sample_storage))))).

Lemma sample_limits_words : limits_words sample_limits.
Proof.
  split; [split; [done|]|]; [|unfold transaction_ok; cbn; lia].
  intros i. cbn [statement sample_limits]. rewrite amount_at_each. case_match; lia.
Qed.

Lemma sample_start : reachable (sample_after []).
Proof. apply (reach_init sample_limits sample_storage); [apply sample_limits_words|vm_compute; reflexivity]. Qed.

Lemma sample_begun : reachable (sample_after [Op_begin]).
Proof. eapply (reach_step Op_begin); [apply sample_start|done|vm_compute; reflexivity]. Qed.

Lemma sample_retained : reachable (sample_after [Op_begin; Op_reserve_retained 3 8 6]).
Proof.
  eapply (reach_step (Op_reserve_retained 3 8 6)); [apply sample_begun|cbn; unfold word; lia|vm_compute; reflexivity].
Qed.

Lemma sample_idle : reachable (sample_after [Op_begin; Op_reserve_retained 3 8 6; Op_end]).
Proof. eapply (reach_step Op_end); [apply sample_retained|done|vm_compute; reflexivity]. Qed.

Lemma budget_invariant_witness :
  let b := sample_after [Op_begin; Op_reserve_retained 3 8 6] in
  amount_at (used b) ORM_SQL_BUDGET_WORK_BYTES = 30 /\
  0 <= retained_work_bytes b <= amount_at (used b) ORM_SQL_BUDGET_WORK_BYTES.
Proof. cbv zeta. split; [vm_compute; reflexivity|]. apply (budget_invariant _ sample_retained). Defined.

Lemma budget_reserve_exact_witness :
  amount_ok (amount_of ORM_SQL_BUDGET_EXECUTION_STEPS 101) /\
  fst (orm_tidesdb_sql_budget_reserve (Some (amount_of ORM_SQL_BUDGET_EXECUTION_STEPS 101))
    (Some (sample_after [Op_begin]))) = Err (limit_error "statement" "execution steps") /\
  ~ fits (sample_after [Op_begin]) (amount_of ORM_SQL_BUDGET_EXECUTION_STEPS 101).
Proof.
  assert (amount_ok (amount_of ORM_SQL_BUDGET_EXECUTION_STEPS 101)) as Hok.
  { apply amount_of_ok; [unfold COUNT, ORM_SQL_BUDGET_EXECUTION_STEPS; lia|lia]. }
  split; [exact Hok|]. split; [vm_compute; reflexivity|].
  exact (proj1 (proj2 (proj1 (budget_reserve_exact _ _ sample_begun Hok)))).
Defined.

Lemma budget_statement_balances_witness :
  let b := sample_after [Op_begin; Op_reserve_retained 3 8 6; Op_end] in
  exists b1 b2,
    snd (run_ops [Op_reserve (amount_of ORM_SQL_BUDGET_GROUPS 7); Op_release ORM_SQL_BUDGET_GROUPS 7]
      (snd (orm_tidesdb_sql_budget_begin (Some b)))) = Some b1 /\
    snd (orm_tidesdb_sql_budget_end (Some b1)) = Some b2 /\ statement_active b2 = false /\ retained_work_bytes b2 = 30.
Proof.
  cbv zeta.
  edestruct (budget_statement_balances _
    [Op_reserve (amount_of ORM_SQL_BUDGET_GROUPS 7); Op_release ORM_SQL_BUDGET_GROUPS 7] sample_idle)
    as (b0 & oks & b1 & Hb & Hr & _ & He); [vm_compute; reflexivity| |reflexivity|].
  { apply Forall_cons_2; [apply amount_of_ok; [unfold COUNT, ORM_SQL_BUDGET_GROUPS; lia|lia]|].
    apply Forall_cons_2; [cbn; unfold word; lia|apply Forall_nil_2]. }
  rewrite Hb. cbn [snd]. rewrite Hr. exists b1.
  vm_compute in Hb. injection Hb as <-. vm_compute in Hr. injection Hr as <- <-.
  match type of He with context [match ?t with _ => _ end] => assert (fst t = Ret tt) as E by (vm_compute; reflexivity) end.
  destruct (orm_tidesdb_sql_budget_end _) as [o s]. cbn [fst] in E. subst o.
  destruct He as [_ (b2 & b3 & -> & Ha & Hk & _)]. exists b2. split; [reflexivity|]. split; [reflexivity|].
  split; [exact Ha|]. rewrite Hk. vm_compute. reflexivity.
Defined.
