(* ===== verification/Float.v ===== *)
(** * IEEE-754 binary64 numbers as 64-bit patterns

    The doubles of the SQL engine (tidessql/src/value.c, wire.h). A double is
    its pattern; a finite one is the integer [double_scaled] times 2^-1074, so
    comparisons and the exact operations are integer computations.
    [double_round] is the round-to-nearest-even of a rational number, from
    which the rounded operations of C are defined. *)

From S2P Require Import Prelude Row Command.

(** ** Patterns *)

Definition SIGN : Z := 2 ^ 63.

Definition double_negative (d : Z) : bool := SIGN <=? d.
Definition double_magnitude (d : Z) : Z := if double_negative d then d - SIGN else d.
Definition double_sign (neg : bool) (magnitude : Z) : Z := if neg then SIGN + magnitude else magnitude.

(** The patterns of the magnitudes of infinity and of the largest finite double. *)
Definition INF : Z := 2047 * 2 ^ 52.
Definition DBL_MAX : Z := INF - 1.

Definition isnan (d : Z) : bool := INF <? double_magnitude d.

(** The value of a magnitude, in units of 2^-1074. *)
Definition magnitude_scaled (g : Z) : Z :=
  let e := g / 2 ^ 52 in
  let f := g mod 2 ^ 52 in
  if e =? 0 then f else (2 ^ 52 + f) * 2 ^ (e - 1).

Definition double_scaled (d : Z) : Z :=
  if double_negative d then - magnitude_scaled (double_magnitude d) else magnitude_scaled (double_magnitude d).

(** ** Comparisons: a comparison with a NaN is false *)

Definition double_lt (a b : Z) : bool :=
  negb (isnan a) && negb (isnan b) && (double_scaled a <? double_scaled b).
Definition double_le (a b : Z) : bool :=
  negb (isnan a) && negb (isnan b) && (double_scaled a <=? double_scaled b).
Definition double_eq (a b : Z) : bool :=
  negb (isnan a) && negb (isnan b) && (double_scaled a =? double_scaled b).

(** ** Rounding *)

(** [num / den] to the nearest integer, ties to even. *)
Definition div_nearest_even (num den : Z) : Z :=
  let q := num / den in
  let r := num mod den in
  if (den <? 2 * r) || ((2 * r =? den) && Z.odd q) then q + 1 else q.

(** [num / den * 2^-p] to the nearest integer, ties to even. *)
Definition scale_nearest (num den p : Z) : Z :=
  if p <? 0 then div_nearest_even (num * 2 ^ (- p)) den else div_nearest_even num (den * 2 ^ p).

(** The exponent of [num / den > 0]: 2^e <= num / den < 2^(e+1). *)
Definition ratio_exponent (num den : Z) : Z :=
  let e := Z.log2 num - Z.log2 den in
  if (if e <? 0 then num * 2 ^ (- e) <? den else num <? den * 2 ^ e) then e - 1 else e.

(** The pattern of the double nearest to [num / den >= 0]. The unit in the last
    place is 2^p; a carry out of the significand moves to the exponent. *)
Definition magnitude_round (num den : Z) : Z :=
  if num =? 0 then 0
  else
    let p := Z.max (ratio_exponent num den - 52) (-1074) in
    Z.min INF ((p + 1074) * 2 ^ 52 + scale_nearest num den p).

(** The sign of a zero result is given apart. *)
Definition double_round (zero_neg : bool) (num den : Z) : Z :=
  if num =? 0 then double_sign zero_neg 0
  else double_sign (num <? 0) (magnitude_round (Z.abs num) den).

(** ** Operations *)

Definition UNIT : Z := 2 ^ 1074.

(** The pattern of a quiet NaN; its payload is never observed. *)
Definition NAN : Z := INF + 2 ^ 51.

Definition isinf (d : Z) : bool := double_magnitude d =? INF.
Definition iszero (d : Z) : bool := double_magnitude d =? 0.

(** Conversion of an integer. *)
Definition double_of_integer (z : Z) : Z := double_round false z 1.

Definition double_neg (a : Z) : Z := double_sign (negb (double_negative a)) (double_magnitude a).
Definition double_abs (a : Z) : Z := double_magnitude a.

Definition signs_differ (a b : Z) : bool := xorb (double_negative a) (double_negative b).

Definition double_add (a b : Z) : Z :=
  if isnan a || isnan b || (isinf a && isinf b && signs_differ a b) then NAN
  else if isinf a then a else if isinf b then b
  else double_round (double_negative a && double_negative b) (double_scaled a + double_scaled b) UNIT.
Definition double_sub (a b : Z) : Z := double_add a (double_neg b).

Definition double_mul (a b : Z) : Z :=
  if isnan a || isnan b || (isinf a && iszero b) || (iszero a && isinf b) then NAN
  else if isinf a || isinf b then double_sign (signs_differ a b) INF
  else double_round (signs_differ a b) (double_scaled a * double_scaled b) (UNIT * UNIT).

Definition double_div (a b : Z) : Z :=
  if isnan a || isnan b || (isinf a && isinf b) || (iszero a && iszero b) then NAN
  else if isinf a || iszero b then double_sign (signs_differ a b) INF
  else if isinf b then double_sign (signs_differ a b) 0
  else double_round (signs_differ a b)
    (Z.sgn (double_scaled a) * Z.sgn (double_scaled b) * Z.abs (double_scaled a)) (Z.abs (double_scaled b)).

(** fmod is exact and has the sign of the dividend. *)
Definition double_fmod (a b : Z) : Z :=
  if isnan a || isnan b || isinf a || iszero b then NAN
  else if isinf b then a
  else double_round (double_negative a) (Z.rem (double_scaled a) (double_scaled b)) UNIT.

(** The roundings to an integral double keep the sign of a zero result. *)
Definition double_integral (f : Z -> Z) (a : Z) : Z :=
  if isnan a || isinf a then a else double_round (double_negative a) (f (double_scaled a)) 1.
Definition integer_floor (s : Z) : Z := s / UNIT.
Definition integer_ceil (s : Z) : Z := - (- s / UNIT).
Definition integer_trunc (s : Z) : Z := Z.quot s UNIT.
Definition integer_rint (s : Z) : Z := Z.sgn s * div_nearest_even (Z.abs s) UNIT.
(** round(): ties away from zero. *)
Definition integer_round (s : Z) : Z := Z.sgn s * ((2 * Z.abs s + UNIT) / (2 * UNIT)).

Definition double_floor : Z -> Z := double_integral integer_floor.
Definition double_ceil : Z -> Z := double_integral integer_ceil.
Definition double_trunc : Z -> Z := double_integral integer_trunc.
Definition double_rint : Z -> Z := double_integral integer_rint.
Definition double_nearest : Z -> Z := double_integral integer_round.

(** Conversion of a finite double to an integer type that can hold it. *)
Definition integer_of_double (a : Z) : Z := integer_trunc (double_scaled a).

(** ** The order of the patterns is the order of the numbers *)

Lemma magnitude_scaled_nonneg g : 0 <= g -> 0 <= magnitude_scaled g.
Proof.
  intros Hg. unfold magnitude_scaled. pose proof (Z.mod_pos_bound g (2 ^ 52) ltac:(lia)).
  case_match; [lia|]. apply Z.mul_nonneg_nonneg; [lia|apply Z.pow_nonneg; lia].
Qed.

Lemma magnitude_scaled_lt g h : 0 <= g < h -> magnitude_scaled g < magnitude_scaled h.
Proof.
  intros Hg. unfold magnitude_scaled.
  pose proof (Z.mod_pos_bound g (2 ^ 52) ltac:(lia)) as Hf. pose proof (Z.mod_pos_bound h (2 ^ 52) ltac:(lia)) as Hf'.
  pose proof (Z.div_mod g (2 ^ 52) ltac:(lia)) as Eg. pose proof (Z.div_mod h (2 ^ 52) ltac:(lia)) as Eh.
  pose proof (Z.div_pos g (2 ^ 52) ltac:(lia) ltac:(lia)).
  set (e := g / 2 ^ 52) in *. set (e' := h / 2 ^ 52) in *.
  set (f := g mod 2 ^ 52) in *. set (f' := h mod 2 ^ 52) in *.
  assert (e < e' \/ e = e' /\ f < f') as [He|[<- Hff]] by nia.
  - rewrite (proj2 (Z.eqb_neq e' 0)) by lia.
    assert (2 ^ 52 <= 2 ^ 52 * 2 ^ (e' - 1)) by (pose proof (Z.pow_pos_nonneg 2 (e' - 1)); nia).
    pose proof (Z.pow_pos_nonneg 2 (e' - 1) ltac:(lia) ltac:(lia)).
    destruct (Z.eqb_spec e 0); [nia|].
    assert (2 ^ e <= 2 ^ (e' - 1)) by (apply Z.pow_le_mono_r; lia).
    replace (2 ^ e) with (2 * 2 ^ (e - 1)) in * by (rewrite <- Z.pow_succ_r; [f_equal|]; lia).
    pose proof (Z.pow_pos_nonneg 2 (e - 1) ltac:(lia) ltac:(lia)). nia.
  - destruct (Z.eqb_spec e 0); [done|]. pose proof (Z.pow_pos_nonneg 2 (e - 1) ltac:(lia) ltac:(lia)). nia.
Qed.

Lemma magnitude_scaled_0 : magnitude_scaled 0 = 0.
Proof. done. Qed.

Lemma magnitude_scaled_pos g : 0 < g -> 0 < magnitude_scaled g.
Proof. intros. rewrite <- magnitude_scaled_0. apply magnitude_scaled_lt. lia. Qed.

Lemma magnitude_scaled_compare g h :
  0 <= g -> 0 <= h -> (magnitude_scaled g ?= magnitude_scaled h) = (g ?= h).
Proof.
  intros. destruct (Z.compare_spec g h) as [->|Hl|Hl].
  - apply Z.compare_refl.
  - apply Z.compare_lt_iff, magnitude_scaled_lt. lia.
  - apply Z.compare_gt_iff, magnitude_scaled_lt. lia.
Qed.

Lemma double_magnitude_range d : 0 <= d < 2 ^ 64 -> 0 <= double_magnitude d < SIGN.
Proof. unfold double_magnitude, double_negative, SIGN. intros. case_match; blia. Qed.

Lemma double_scaled_zero d : 0 <= d < 2 ^ 64 -> (double_scaled d = 0 <-> double_magnitude d = 0).
Proof.
  intros Hd%double_magnitude_range. unfold double_scaled.
  destruct (Z.eq_dec (double_magnitude d) 0) as [->|Hn].
  - rewrite magnitude_scaled_0. case_match; lia.
  - pose proof (magnitude_scaled_pos (double_magnitude d)). case_match; lia.
Qed.

Lemma isfinite_magnitude d : 0 <= d < 2 ^ 64 -> isfinite d = (double_magnitude d <? INF).
Proof.
  intros Hd. unfold isfinite, double_magnitude, double_negative, INF, SIGN.
  change 0x7ff with (Z.ones 11). rewrite Z.land_ones, Z.shiftr_div_pow2 by lia.
  pose proof (Z.div_mod d (2 ^ 52) ltac:(lia)). pose proof (Z.mod_pos_bound d (2 ^ 52) ltac:(lia)).
  pose proof (Z.div_mod (d / 2 ^ 52) (2 ^ 11) ltac:(lia)).
  pose proof (Z.mod_pos_bound (d / 2 ^ 52) (2 ^ 11) ltac:(lia)).
  assert (0 <= d / 2 ^ 52 / 2 ^ 11 <= 1).
  { split; [repeat apply Z.div_pos; lia|]. rewrite Z.div_div by lia.
    apply Z.lt_succ_r, Z.div_lt_upper_bound; lia. }
  change (Z.ones 11) with 2047.
  destruct (Z.leb_spec (2 ^ 63) d); destruct (Z.eqb_spec ((d / 2 ^ 52) mod 2 ^ 11) 2047); cbn [negb];
    symmetry; first [apply Z.ltb_lt|apply Z.ltb_ge]; lia.
Qed.

Lemma finite_not_nan d : 0 <= d < 2 ^ 64 -> isfinite d = true -> isnan d = false.
Proof. intros Hd. rewrite isfinite_magnitude by done. unfold isnan. intros. bsimp. apply Z.ltb_ge. lia. Qed.

(** ** Results are patterns *)

Definition pattern (d : Z) : Prop := 0 <= d < 2 ^ 64.

Lemma double_sign_magnitude neg m : 0 <= m < SIGN -> double_magnitude (double_sign neg m) = m.
Proof.
  unfold double_magnitude, double_negative, double_sign. intros. destruct neg.
  - rewrite (proj2 (Z.leb_le _ _)) by lia. lia.
  - by rewrite (proj2 (Z.leb_gt _ _)) by lia.
Qed.

Lemma div_nearest_even_nonneg num den : 0 <= num -> 0 < den -> 0 <= div_nearest_even num den.
Proof. intros. unfold div_nearest_even. pose proof (Z.div_pos num den). case_match; lia. Qed.

Lemma scale_nearest_nonneg num den p : 0 <= num -> 0 < den -> 0 <= scale_nearest num den p.
Proof.
  intros. unfold scale_nearest. case_match; bsimp; apply div_nearest_even_nonneg; try done.
  - apply Z.mul_nonneg_nonneg; [done|]. apply Z.pow_nonneg. lia.
  - apply Z.mul_pos_pos; [done|]. apply Z.pow_pos_nonneg; lia.
Qed.

Lemma magnitude_round_range num den : 0 <= num -> 0 < den -> 0 <= magnitude_round num den <= INF.
Proof.
  intros. unfold magnitude_round. case_match; [unfold INF; lia|]. cbv zeta.
  set (p := Z.max _ _). pose proof (scale_nearest_nonneg num den p). unfold INF. lia.
Qed.

Lemma double_round_not_nan neg num den : 0 < den -> isnan (double_round neg num den) = false.
Proof.
  intros Hd. unfold double_round, isnan. case_match.
  - rewrite double_sign_magnitude by (unfold SIGN; lia). done.
  - pose proof (magnitude_round_range (Z.abs num) den).
    rewrite double_sign_magnitude by (unfold SIGN, INF in *; lia). apply Z.ltb_ge. lia.
Qed.

Lemma double_sign_pattern neg m : 0 <= m < SIGN -> pattern (double_sign neg m).
Proof. unfold pattern, double_sign, SIGN. destruct neg; lia. Qed.

Lemma double_round_pattern neg num den : 0 < den -> pattern (double_round neg num den).
Proof.
  intros Hd. unfold double_round. case_match; apply double_sign_pattern; [unfold SIGN; lia|].
  pose proof (magnitude_round_range (Z.abs num) den). unfold SIGN, INF in *. lia.
Qed.

Lemma magnitude_pattern d : pattern d -> 0 <= double_magnitude d < SIGN.
Proof. apply double_magnitude_range. Qed.

Lemma INF_small : 0 <= INF < SIGN.
Proof. unfold INF, SIGN. lia. Qed.

Lemma UNIT_pos : 0 < UNIT.
Proof. unfold UNIT. by apply Z.pow_pos_nonneg. Qed.

Lemma NAN_pattern : pattern NAN.
Proof. unfold pattern, NAN, INF. lia. Qed.

Lemma iszero_scaled d : pattern d -> iszero d = false -> 0 < Z.abs (double_scaled d).
Proof.
  intros Hd Hz. unfold iszero in Hz. bsimp. apply Z.abs_pos. intros H. apply Hz. by apply double_scaled_zero.
Qed.

Lemma double_neg_pattern a : pattern a -> pattern (double_neg a).
Proof. intros H%magnitude_pattern. by apply double_sign_pattern. Qed.

Lemma double_abs_pattern a : pattern a -> pattern (double_abs a).
Proof. intros H%magnitude_pattern. unfold pattern, double_abs, SIGN in *. lia. Qed.

Lemma double_add_pattern a b : pattern a -> pattern b -> pattern (double_add a b).
Proof.
  intros. unfold double_add. repeat case_match; try done. apply double_round_pattern, UNIT_pos.
Qed.

Lemma double_mul_pattern a b : pattern a -> pattern b -> pattern (double_mul a b).
Proof.
  intros. unfold double_mul. repeat case_match; [apply NAN_pattern|apply double_sign_pattern, INF_small|].
  apply double_round_pattern. pose proof UNIT_pos. nia.
Qed.

Lemma double_div_pattern a b : pattern a -> pattern b -> pattern (double_div a b).
Proof.
  intros Ha Hb. unfold double_div. pose proof INF_small.
  repeat case_match; try (apply double_sign_pattern; lia); [apply NAN_pattern|].
  apply double_round_pattern, iszero_scaled; [done|]. bsimp. done.
Qed.

Lemma double_fmod_pattern a b : pattern a -> pattern b -> pattern (double_fmod a b).
Proof.
  intros. unfold double_fmod. repeat case_match; try done. apply double_round_pattern, UNIT_pos.
Qed.

Lemma double_integral_pattern f a : pattern a -> pattern (double_integral f a).
Proof. intros. unfold double_integral. case_match; [done|]. by apply double_round_pattern. Qed.

(** ** The integral roundings of a finite double are finite *)

(** The largest finite double is an integer. *)
Definition LARGEST : Z := (2 ^ 53 - 1) * 2 ^ 971.

Lemma div_nearest_even_le num den k : 0 < den -> num <= k * den -> div_nearest_even num den <= k.
Proof.
  intros Hd Hn. unfold div_nearest_even. pose proof (Z.div_mod num den ltac:(lia)) as E.
  pose proof (Z.mod_pos_bound num den Hd). set (q := num / den) in *. set (r := num mod den) in *.
  destruct ((den <? 2 * r) || ((2 * r =? den) && Z.odd q)) eqn:Hc; [|nia].
  apply orb_true_iff in Hc as [Hc|Hc]; bsimp; nia.
Qed.

Lemma ratio_exponent_integer n : 0 < n -> ratio_exponent n 1 = Z.log2 n.
Proof.
  intros Hn. unfold ratio_exponent. cbn [Z.log2]. rewrite Z.sub_0_r. pose proof (Z.log2_nonneg n).
  pose proof (Z.log2_spec n Hn). rewrite (proj2 (Z.ltb_ge (Z.log2 n) 0)) by done.
  by rewrite (proj2 (Z.ltb_ge n _)) by lia.
Qed.

Lemma magnitude_round_integer n : 0 <= n <= LARGEST -> magnitude_round n 1 < INF.
Proof.
  intros Hn. unfold magnitude_round. destruct (Z.eqb_spec n 0); [by unfold INF|].
  rewrite ratio_exponent_integer by lia. pose proof (Z.log2_nonneg n). pose proof (Z.log2_spec n ltac:(lia)) as [_ Hlog].
  rewrite Z.max_l by lia. cbv zeta. set (p := Z.log2 n - 52).
  assert (n < 2 ^ (p + 53)) as Hp by (replace (p + 53) with (Z.succ (Z.log2 n)) by lia; done).
  assert (p <= 971) as Hle.
  { assert (Z.log2 n < 1024); [|lia]. apply Z.log2_lt_pow2; [lia|]. apply Z.le_lt_trans with LARGEST; [lia|done]. }
  apply Z.min_lt_iff. right. unfold scale_nearest. destruct (Z.ltb_spec p 0).
  - assert (div_nearest_even (n * 2 ^ (- p)) 1 <= 2 ^ 53); [|unfold INF; lia].
    apply div_nearest_even_le; [done|]. rewrite Z.mul_1_r. replace 53 with (p + 53 + - p) by lia.
    rewrite Z.pow_add_r by lia. apply Z.mul_le_mono_nonneg_r; [apply Z.pow_nonneg; lia|lia].
  - rewrite Z.mul_1_l. assert (0 < 2 ^ p) by (apply Z.pow_pos_nonneg; lia).
    destruct (Z.eq_dec p 971) as [E|].
    + rewrite E. assert (div_nearest_even n (2 ^ 971) <= 2 ^ 53 - 1); [|unfold INF; lia].
      apply div_nearest_even_le; [by apply Z.pow_pos_nonneg|]. apply Hn.
    + assert (div_nearest_even n (2 ^ p) <= 2 ^ 53); [|unfold INF; lia].
      apply div_nearest_even_le; [done|]. rewrite Z.pow_add_r in Hp by lia. lia.
Qed.

Lemma scaled_largest d : pattern d -> isfinite d = true -> Z.abs (double_scaled d) <= LARGEST * UNIT.
Proof.
  intros Hd Hf. rewrite isfinite_magnitude in Hf by done. bsimp. apply magnitude_pattern in Hd.
  assert (magnitude_scaled (double_magnitude d) <= LARGEST * UNIT).
  { change (LARGEST * UNIT) with (magnitude_scaled DBL_MAX).
    destruct (Z.eq_dec (double_magnitude d) DBL_MAX) as [->|]; [done|].
    apply Z.lt_le_incl, magnitude_scaled_lt. unfold DBL_MAX in *. lia. }
  pose proof (magnitude_scaled_nonneg (double_magnitude d)). unfold double_scaled. case_match; lia.
Qed.

Lemma double_integral_finite f d :
  pattern d -> isfinite d = true -> Z.abs (f (double_scaled d)) <= LARGEST -> isfinite (double_integral f d) = true.
Proof.
  intros Hd Hf Hle. unfold double_integral. case_match; [done|]. set (n := f (double_scaled d)) in *.
  rewrite isfinite_magnitude by (by apply double_round_pattern). apply Z.ltb_lt. unfold double_round.
  pose proof (magnitude_round_range (Z.abs n) 1). pose proof (magnitude_round_integer (Z.abs n)). pose proof INF_small.
  case_match; rewrite double_sign_magnitude; unfold SIGN in *; try lia; by unfold INF.
Qed.

Lemma integer_floor_largest s : Z.abs s <= LARGEST * UNIT -> Z.abs (integer_floor s) <= LARGEST.
Proof.
  intros H. unfold integer_floor. pose proof UNIT_pos. apply Z.abs_le. split.
  - apply Z.div_le_lower_bound; lia.
  - apply Z.div_le_upper_bound; lia.
Qed.

Lemma integer_ceil_largest s : Z.abs s <= LARGEST * UNIT -> Z.abs (integer_ceil s) <= LARGEST.
Proof.
  intros H. unfold integer_ceil. rewrite Z.abs_opp. apply (integer_floor_largest (- s)). by rewrite Z.abs_opp.
Qed.

Lemma double_sign_finite neg d : pattern d -> isfinite d = true -> isfinite (double_sign neg (double_magnitude d)) = true.
Proof.
  intros Hd Hf. pose proof (magnitude_pattern d Hd) as Hm.
  rewrite isfinite_magnitude in Hf |- * by (done || by apply double_sign_pattern).
  by rewrite double_sign_magnitude.
Qed.

(** ** The integral roundings are exact *)

Lemma div_nearest_even_mul m den : 0 < den -> div_nearest_even (m * den) den = m.
Proof.
  intros Hd. unfold div_nearest_even. rewrite Z.div_mul, Z.mod_mul, Z.mul_0_r by lia.
  rewrite (proj2 (Z.ltb_ge den 0)), (proj2 (Z.eqb_neq 0 den)) by lia. done.
Qed.

(** An integer that has at most 53 significant bits. *)
Definition short (n : Z) : Prop := Z.log2 n <= 52 \/ (2 ^ (Z.log2 n - 52) | n).

Lemma magnitude_round_short n :
  0 < n <= LARGEST -> short n -> magnitude_scaled (magnitude_round n 1) = n * UNIT.
Proof.
  intros Hn Hs. pose proof (magnitude_round_integer n ltac:(lia)) as Hfin. unfold magnitude_round in *.
  rewrite (proj2 (Z.eqb_neq n 0)) in * by lia. rewrite ratio_exponent_integer in * by lia.
  pose proof (Z.log2_nonneg n). pose proof (Z.log2_spec n ltac:(lia)) as [Hlo Hhi].
  rewrite Z.max_l in * by lia. cbv zeta in *. set (p := Z.log2 n - 52) in *.
  assert (exists m, scale_nearest n 1 p = m /\ 2 ^ 52 <= m < 2 ^ 53 /\ m * 2 ^ (p + 1074) = n * UNIT) as (m & Em & Hm & Hval).
  { unfold scale_nearest, UNIT. destruct (Z.ltb_spec p 0) as [Hp|Hp].
    - exists (n * 2 ^ (- p)). rewrite <- (Z.mul_1_r (n * 2 ^ (- p))) at 1. rewrite div_nearest_even_mul by done. split; [done|].
      split; [|rewrite <- Z.mul_assoc, <- Z.pow_add_r by lia; do 2 f_equal; lia].
      assert (2 ^ 52 = 2 ^ Z.log2 n * 2 ^ (- p)) as -> by (rewrite <- Z.pow_add_r by lia; f_equal; lia).
      assert (2 ^ 53 = 2 ^ Z.succ (Z.log2 n) * 2 ^ (- p)) as -> by (rewrite <- Z.pow_add_r by lia; f_equal; lia).
      pose proof (Z.pow_pos_nonneg 2 (- p)). nia.
    - assert (0 < 2 ^ p) by (apply Z.pow_pos_nonneg; lia).
      destruct Hs as [Hs|[m Hm]]; [assert (p = 0) as E by lia; exists n|exists m].
      + rewrite E. rewrite Z.mul_1_l, Z.pow_0_r. rewrite <- (Z.mul_1_r n) at 1. rewrite div_nearest_even_mul by done.
        replace (Z.log2 n) with 52 in * by lia. done.
      + fold p in Hm. rewrite Hm at 1. rewrite Z.mul_1_l, div_nearest_even_mul by done. split; [done|].
        assert (2 ^ Z.log2 n = 2 ^ 52 * 2 ^ p) as E by (rewrite <- Z.pow_add_r by lia; f_equal; lia).
        rewrite Z.pow_succ_r, E in Hhi by lia. rewrite E in Hlo. change (2 ^ 53) with (2 * 2 ^ 52).
        split; [nia|]. rewrite Z.pow_add_r by lia. by rewrite Z.mul_assoc, <- Hm. }
  rewrite Em in *. rewrite Z.min_r by lia. unfold magnitude_scaled.
  replace ((p + 1074) * 2 ^ 52 + m) with ((m - 2 ^ 52) + (p + 1075) * 2 ^ 52) by lia.
  rewrite Z.div_add, Z.mod_add, Z.div_small, Z.mod_small by lia.
  rewrite (proj2 (Z.eqb_neq (0 + _) 0)) by lia. rewrite <- Hval. f_equal; [lia|f_equal; lia].
Qed.

(** A double is an integer from 2^52 on. *)
Lemma scaled_integral g :
  0 <= g < INF -> magnitude_scaled g < 2 ^ 52 * UNIT \/
  exists n, magnitude_scaled g = n * UNIT /\ 0 < n <= LARGEST /\ short n.
Proof.
  intros Hg. assert (magnitude_scaled g <= LARGEST * UNIT) as Hmax.
  { change (LARGEST * UNIT) with (magnitude_scaled DBL_MAX). unfold DBL_MAX.
    destruct (Z.eq_dec g (INF - 1)) as [->|]; [done|]. apply Z.lt_le_incl, magnitude_scaled_lt. lia. }
  unfold magnitude_scaled in *. pose proof (Z.mod_pos_bound g (2 ^ 52) ltac:(lia)) as Hf.
  set (e := g / 2 ^ 52) in *. set (f := g mod 2 ^ 52) in *. pose proof UNIT_pos as Hu.
  destruct (Z.eqb_spec e 0); [left; nia|]. assert (0 <= e) by (apply Z.div_pos; lia).
  destruct (Z.le_gt_cases 1074 (e - 1)) as [Hle|Hgt]; [right|left].
  - exists ((2 ^ 52 + f) * 2 ^ (e - 1 - 1074)). pose proof (Z.pow_pos_nonneg 2 (e - 1 - 1074) ltac:(lia) ltac:(lia)).
    assert (2 ^ (e - 1) = 2 ^ (e - 1 - 1074) * UNIT) as E by (unfold UNIT; rewrite <- Z.pow_add_r by lia; f_equal; lia).
    rewrite E in *. rewrite Z.mul_assoc in *. split; [done|]. split; [split; [nia|]|].
    + by apply (Z.mul_le_mono_pos_r _ _ UNIT).
    + right. assert (Z.log2 ((2 ^ 52 + f) * 2 ^ (e - 1 - 1074)) = 52 + (e - 1 - 1074)) as ->.
      { rewrite Z.log2_mul_pow2 by lia. rewrite (Z.log2_unique (2 ^ 52 + f) 52); [lia|lia|]. rewrite Z.pow_succ_r; lia. }
      replace (52 + (e - 1 - 1074) - 52) with (e - 1 - 1074) by lia. apply Z.divide_factor_r.
  - apply Z.lt_le_trans with ((2 ^ 52 + 2 ^ 52) * 2 ^ (e - 1)).
    + apply Z.mul_lt_mono_pos_r; [apply Z.pow_pos_nonneg; lia|lia].
    + replace (2 ^ 52 + 2 ^ 52) with (2 ^ 53) by lia. unfold UNIT. rewrite <- !Z.pow_add_r by lia.
      apply Z.pow_le_mono_r; lia.
Qed.

(** An integral rounding changes an integer not at all and a small number by
    less than one. *)
Definition integral_rounding (f : Z -> Z) : Prop :=
  (forall n, f (n * UNIT) = n) /\ (forall s, Z.abs s < 2 ^ 52 * UNIT -> Z.abs (f s) <= 2 ^ 52).

Lemma double_round_integer neg n :
  n = 0 \/ 0 < Z.abs n <= LARGEST /\ short (Z.abs n) -> double_scaled (double_round neg n 1) = n * UNIT.
Proof.
  intros [->|[Hn Hs]].
  - unfold double_round. cbn [Z.eqb]. destruct neg; done.
  - unfold double_round. rewrite (proj2 (Z.eqb_neq n 0)) by lia. unfold double_scaled.
    pose proof (magnitude_round_range (Z.abs n) 1 ltac:(lia) ltac:(lia)). pose proof INF_small.
    rewrite double_sign_magnitude by lia. rewrite magnitude_round_short by done.
    unfold double_negative, double_sign. destruct (Z.ltb_spec n 0).
    + rewrite (proj2 (Z.leb_le SIGN _)) by lia. lia.
    + rewrite (proj2 (Z.leb_gt SIGN _)) by lia. lia.
Qed.

Lemma double_integral_exact f d :
  pattern d -> isfinite d = true -> integral_rounding f ->
  double_scaled (double_integral f d) = f (double_scaled d) * UNIT /\ isfinite (double_integral f d) = true.
Proof.
  intros Hd Hf [Hint Hsmall].
  assert (f (double_scaled d) = 0 \/ 0 < Z.abs (f (double_scaled d)) <= LARGEST /\ short (Z.abs (f (double_scaled d)))) as Hn.
  { pose proof (magnitude_pattern d Hd) as Hm. rewrite isfinite_magnitude in Hf by done. bsimp.
    pose proof (magnitude_scaled_nonneg (double_magnitude d) ltac:(lia)).
    assert (Z.abs (double_scaled d) = magnitude_scaled (double_magnitude d)) as Habs by (unfold double_scaled; case_match; lia).
    destruct (scaled_integral (double_magnitude d) ltac:(lia)) as [Hs|(n & En & Hn & Hshort)].
    - specialize (Hsmall (double_scaled d) ltac:(lia)). destruct (Z.eq_dec (f (double_scaled d)) 0); [by left|right].
      split; [split; [lia|]|left].
      + eapply Z.le_trans; [exact Hsmall|]. vm_compute. discriminate.
      + apply Z.log2_le_mono in Hsmall. exact Hsmall.
    - right. assert (f (double_scaled d) = n \/ f (double_scaled d) = - n) as [-> | ->].
      { unfold double_scaled. rewrite En. case_match; [right|by left]. by rewrite <- (Hint (- n)), Z.mul_opp_l. }
      + by rewrite Z.abs_eq by lia.
      + by rewrite Z.abs_opp, Z.abs_eq by lia. }
  split; [|apply double_integral_finite; [done..|destruct Hn as [->|[[_ ?] _]]; [done|done]]].
  unfold double_integral. rewrite (finite_not_nan d Hd Hf). rewrite isfinite_magnitude in Hf by done. bsimp.
  unfold isinf. rewrite (proj2 (Z.eqb_neq _ _)) by lia. cbn [orb]. by apply double_round_integer.
Qed.

Lemma integer_round_integral : integral_rounding integer_round.
Proof.
  unfold integral_rounding, integer_round. pose proof UNIT_pos. split.
  - intros n. rewrite Z.sgn_mul, (Z.sgn_pos UNIT), Z.mul_1_r, Z.abs_mul, (Z.abs_eq UNIT) by lia.
    replace (2 * (Z.abs n * UNIT) + UNIT) with (UNIT + Z.abs n * (2 * UNIT)) by lia.
    rewrite Z.div_add, Z.div_small by lia. lia.
  - intros s Hs. rewrite Z.abs_mul. assert (0 <= (2 * Z.abs s + UNIT) / (2 * UNIT) <= 2 ^ 52).
    { split; [apply Z.div_pos; lia|]. apply Z.lt_succ_r, Z.div_lt_upper_bound; lia. }
    rewrite (Z.abs_eq (_ / _)) by lia. destruct (Z.sgn_spec s) as [[_ ->]|[[_ ->]|[_ ->]]]; lia.
Qed.

Lemma integer_rint_integral : integral_rounding integer_rint.
Proof.
  unfold integral_rounding, integer_rint. pose proof UNIT_pos. split.
  - intros n. rewrite Z.sgn_mul, (Z.sgn_pos UNIT), Z.mul_1_r, Z.abs_mul, (Z.abs_eq UNIT) by lia.
    rewrite div_nearest_even_mul by done. lia.
  - intros s Hs. rewrite Z.abs_mul. pose proof (div_nearest_even_le (Z.abs s) UNIT (2 ^ 52)).
    pose proof (div_nearest_even_nonneg (Z.abs s) UNIT).
    rewrite (Z.abs_eq (div_nearest_even _ _)) by lia. destruct (Z.sgn_spec s) as [[_ ->]|[[_ ->]|[_ ->]]]; lia.
Qed.

(** The conversion of an integral double. *)
Lemma integer_of_integral d n : double_scaled d = n * UNIT -> integer_of_double d = n.
Proof. intros E. unfold integer_of_double, integer_trunc. rewrite E. apply Z.quot_mul. pose proof UNIT_pos. lia. Qed.

(** ** The double of an integer *)

(** The number with 53 significant bits that is nearest to an integer, ties to
    even; an integer up to 2^53 is its own. *)
Definition nearest_double (z : Z) : Z :=
  let unit := 2 ^ Z.max 0 (Z.log2 (Z.abs z) - 52) in
  Z.sgn z * (div_nearest_even (Z.abs z) unit * unit).

Lemma double_sign_scaled neg m :
  0 <= m < SIGN -> double_scaled (double_sign neg m) = if neg then - magnitude_scaled m else magnitude_scaled m.
Proof.
  intros Hm. unfold double_scaled. rewrite double_sign_magnitude by done.
  assert (double_negative (double_sign neg m) = neg) as ->; [|done].
  unfold double_negative, double_sign. destruct neg; [apply Z.leb_le|apply Z.leb_gt]; lia.
Qed.

Lemma magnitude_scaled_normal m k :
  2 ^ 52 <= m <= 2 ^ 53 -> 0 <= k -> magnitude_scaled (k * 2 ^ 52 + m) = m * 2 ^ k.
Proof.
  intros Hm Hk. unfold magnitude_scaled. destruct (Z.eq_dec m (2 ^ 53)) as [->|Hne].
  - replace (k * 2 ^ 52 + 2 ^ 53) with ((k + 2) * 2 ^ 52) by lia. rewrite Z.div_mul, Z.mod_mul by lia.
    rewrite (proj2 (Z.eqb_neq _ 0)) by lia. replace (k + 2 - 1) with (Z.succ k) by lia. rewrite Z.pow_succ_r by lia. lia.
  - replace (k * 2 ^ 52 + m) with (m - 2 ^ 52 + (k + 1) * 2 ^ 52) by lia.
    rewrite Z.div_add, Z.mod_add, Z.div_small, Z.mod_small by lia. rewrite (proj2 (Z.eqb_neq _ 0)) by lia.
    f_equal; [lia|]. f_equal. lia.
Qed.

Lemma div_nearest_even_ge num den k : 0 < den -> k * den <= num -> k <= div_nearest_even num den.
Proof.
  intros Hd Hk. assert (k <= num / den) by (apply Z.div_le_lower_bound; lia).
  unfold div_nearest_even. destruct (_ || _); lia.
Qed.

Lemma div_nearest_even_1 n : div_nearest_even n 1 = n.
Proof. rewrite <- (Z.mul_1_r n) at 1. by apply div_nearest_even_mul. Qed.

(** The significand and the unit of a positive integer. *)
Lemma scale_nearest_integer n :
  0 < n -> let p := Z.log2 n - 52 in
  2 ^ 52 <= scale_nearest n 1 p <= 2 ^ 53 /\ scale_nearest n 1 p * 2 ^ (p + 1074) = nearest_double n * UNIT.
Proof.
  intros Hn. cbv zeta. pose proof (Z.log2_nonneg n) as Hl. destruct (Z.log2_spec n Hn) as [Hlo Hhi].
  rewrite Z.pow_succ_r in Hhi by lia. unfold scale_nearest, nearest_double, UNIT.
  rewrite Z.abs_eq, Z.sgn_pos, Z.mul_1_l by lia. destruct (Z.ltb_spec (Z.log2 n - 52) 0).
  - rewrite Z.max_l, Z.pow_0_r, !div_nearest_even_1, Z.mul_1_r by lia.
    assert (2 ^ Z.log2 n * 2 ^ (- (Z.log2 n - 52)) = 2 ^ 52) as E by (rewrite <- Z.pow_add_r by lia; f_equal; lia).
    assert (0 < 2 ^ (- (Z.log2 n - 52))) by (apply Z.pow_pos_nonneg; lia). split; [nia|].
    rewrite <- Z.mul_assoc, <- Z.pow_add_r by lia. rewrite Z.mul_1_l. by replace (_ + (_ + 1074)) with 1074 by lia.
  - rewrite Z.max_r, Z.mul_1_l by lia. assert (0 < 2 ^ (Z.log2 n - 52)) by (apply Z.pow_pos_nonneg; lia).
    assert (2 ^ Z.log2 n = 2 ^ 52 * 2 ^ (Z.log2 n - 52)) as E by (rewrite <- Z.pow_add_r by lia; f_equal; lia).
    split; [split; [apply div_nearest_even_ge|apply div_nearest_even_le]; lia|].
    rewrite Z.pow_add_r by lia. lia.
Qed.

(** The conversion of a 64-bit integer is its nearest double. *)
Lemma double_of_integer_nearest z :
  Z.abs z <= 2 ^ 64 -> double_scaled (double_of_integer z) = nearest_double z * UNIT.
Proof.
  intros Hz. unfold double_of_integer, double_round. destruct (Z.eqb_spec z 0) as [->|Hne]; [reflexivity|].
  assert (0 < Z.abs z) as Hn by lia. pose proof (magnitude_round_range (Z.abs z) 1 ltac:(lia) ltac:(lia)).
  pose proof INF_small. rewrite double_sign_scaled by lia.
  assert (Z.abs z <= LARGEST) as Hmax by (eapply Z.le_trans; [exact Hz|]; vm_compute; discriminate).
  pose proof (magnitude_round_integer (Z.abs z) ltac:(lia)) as Hfin. unfold magnitude_round in *.
  rewrite (proj2 (Z.eqb_neq (Z.abs z) 0)) in * by lia. rewrite ratio_exponent_integer in * by done.
  pose proof (Z.log2_nonneg (Z.abs z)). cbv zeta in *. rewrite Z.max_l in * by lia. rewrite Z.min_r by lia.
  destruct (scale_nearest_integer (Z.abs z) Hn) as [Hm Ev]. cbv zeta in *.
  rewrite magnitude_scaled_normal, Ev by lia. unfold nearest_double. rewrite Z.abs_idemp.
  destruct (Z.ltb_spec z 0); [rewrite (Z.sgn_neg z), (Z.sgn_pos (Z.abs z))|rewrite (Z.sgn_pos z), (Z.sgn_pos (Z.abs z))]; lia.
Qed.
