(* ===== verification/Value.v ===== *)
(** * Scalar predicates of the SQL engine (tidessql/src/value.c, value.h)

    Binding a predicate to the types of its operands and evaluating it on
    values: comparisons, NULL tests and three-valued logic. The ledger is the
    state; the result of an operation is what it stores to its output. *)

From S2P Require Import Prelude Row Command Errors Budget Float.

(** ** Types *)

(** The kinds of a value, as the enumeration numbers them. *)
Definition KIND_NULL : Z := 0.
Definition KIND_INT64 : Z := 1.
Definition KIND_UINT64 : Z := 2.
Definition KIND_DOUBLE : Z := 3.
Definition KIND_BOOLEAN : Z := 4.
Definition KIND_TEXT : Z := 5.
Definition KIND_BLOB : Z := 6.

Definition value_kind (v : turbodb_value_t) : Z :=
  match tv_data v with
  | TURBODB_VALUE_NULL => KIND_NULL
  | TURBODB_VALUE_INT64 _ => KIND_INT64
  | TURBODB_VALUE_UINT64 _ => KIND_UINT64
  | TURBODB_VALUE_DOUBLE _ => KIND_DOUBLE
  | TURBODB_VALUE_BOOLEAN _ => KIND_BOOLEAN
  | TURBODB_VALUE_TEXT _ => KIND_TEXT
  | TURBODB_VALUE_BLOB _ => KIND_BLOB
  | TURBODB_VALUE_unknown kind => kind
  end.

Record orm_sql_type : Type := mk_type { ty_kind : Z; ty_nullable : bool }.

Definition ORM_SQL_EQUAL : Z := 0.
Definition ORM_SQL_NOT_EQUAL : Z := 1.
Definition ORM_SQL_LESS : Z := 2.
Definition ORM_SQL_LESS_EQUAL : Z := 3.
Definition ORM_SQL_GREATER : Z := 4.
Definition ORM_SQL_GREATER_EQUAL : Z := 5.
Definition ORM_SQL_NULL_SAFE_EQUAL : Z := 6.
Definition ORM_SQL_IS_NULL : Z := 7.
Definition ORM_SQL_IS_NOT_NULL : Z := 8.
Definition ORM_SQL_NOT : Z := 9.
Definition ORM_SQL_AND : Z := 10.
Definition ORM_SQL_OR : Z := 11.

Record orm_sql_predicate : Type := mk_predicate {
  p_op : Z;
  p_left : orm_sql_type;
  p_right : orm_sql_type;
  p_result : orm_sql_type;
  p_real_comparison : bool
}.

(** ** Binding *)

Definition assignment_numeric (kind : Z) : bool :=
  (kind =? KIND_INT64) || (kind =? KIND_UINT64) || (kind =? KIND_DOUBLE).

Definition unary (op : Z) : bool :=
  (op =? ORM_SQL_IS_NULL) || (op =? ORM_SQL_IS_NOT_NULL) || (op =? ORM_SQL_NOT).

Definition valid_type (type : orm_sql_type) : bool :=
  (KIND_NULL <=? ty_kind type) && (ty_kind type <=? KIND_BLOB) &&
  (negb (ty_kind type =? KIND_NULL) || ty_nullable type).

Definition integral (kind : Z) : bool := (kind =? KIND_INT64) || (kind =? KIND_UINT64).
Definition boolean_type (kind : Z) : bool := (kind =? KIND_NULL) || (kind =? KIND_BOOLEAN).

(** [P(right)] of an operand that may be absent. *)
Definition maybe {A} (p : A -> bool) (o : ptr A) (absent : bool) : bool :=
  match o with Some a => p a | None => absent end.

(** A NULL test, AND, OR and NOT have an arity; [wants] says that the output
    pointer is not NULL. *)
Definition orm_tidesdb_sql_predicate_bind {S} (op : Z) (left : orm_sql_type) (right : ptr orm_sql_type)
    (wants : bool) : M turbodb_failure S orm_sql_predicate :=
  raise_if ((op <? ORM_SQL_EQUAL) || (ORM_SQL_OR <? op)) TURBODB_STATUS_UNSUPPORTED
    "TidesDB SQL bind: unsupported scalar predicate";;
  raise_if (negb wants || (if unary op then is_some right else negb (is_some right)))
    TURBODB_STATUS_INVALID_ARGUMENT "TidesDB SQL bind: invalid predicate output or arity";;
  raise_if (negb (valid_type left) || maybe (fun r => negb (valid_type r)) right false)
    TURBODB_STATUS_TYPE_ERROR "TidesDB SQL bind: invalid operand type or nullability";;
  let compatible :=
    if (op =? ORM_SQL_NOT) || (op =? ORM_SQL_AND) || (op =? ORM_SQL_OR)
    then boolean_type (ty_kind left) && maybe (fun r => boolean_type (ty_kind r)) right true
    else if negb (unary op)
    then maybe (fun r => (ty_kind left =? KIND_NULL) || (ty_kind r =? KIND_NULL) || (ty_kind left =? ty_kind r) ||
      (assignment_numeric (ty_kind left) && assignment_numeric (ty_kind r))) right false
    else true in
  raise_if (negb compatible) TURBODB_STATUS_UNSUPPORTED
    "TidesDB SQL bind: implicit operand conversion is unsupported";;
  let nullable := negb (op =? ORM_SQL_NULL_SAFE_EQUAL) && negb (op =? ORM_SQL_IS_NULL) &&
    negb (op =? ORM_SQL_IS_NOT_NULL) && (ty_nullable left || maybe ty_nullable right false) in
  mret (mk_predicate op left (default (mk_type KIND_NULL true) right) (mk_type KIND_BOOLEAN nullable)
    ((op <=? ORM_SQL_NULL_SAFE_EQUAL) &&
     ((ty_kind left =? KIND_DOUBLE) || maybe (fun r => ty_kind r =? KIND_DOUBLE) right false))).

(** ** Evaluation *)

Definition valid_value (value : turbodb_value_t) (type : orm_sql_type) : bool :=
  if negb (tv_reserved value =? 0) then false
  else if value_kind value =? KIND_NULL then ty_nullable type
  else if negb (value_kind value =? ty_kind type) then false
  else match tv_data value with
  | TURBODB_VALUE_INT64 _ | TURBODB_VALUE_UINT64 _ => true
  | TURBODB_VALUE_DOUBLE d => isfinite d
  | TURBODB_VALUE_BOOLEAN b => b <=? 1
  | TURBODB_VALUE_TEXT t => (vs_len t =? 0) || is_some (vs_data t)
  | TURBODB_VALUE_BLOB t => (blob_size t =? 0) || is_some (blob_data t)
  | _ => false
  end.

Definition bytes_of (value : turbodb_value_t) : turbodb_blob_t :=
  match tv_data value with
  | TURBODB_VALUE_TEXT t => mk_blob (vs_data t) (vs_len t)
  | TURBODB_VALUE_BLOB t => t
  | _ => mk_blob None 0
  end.


(** The new count, or [None] when it would overflow. *)
Definition add_steps (steps bytes : Z) : option Z :=
  if size_sub UINT64_MAX steps <? bytes then None else Some (u64 (steps + bytes)).

Definition charge_amount (steps : Z) : orm_sql_budget_amount := amount_of ORM_SQL_BUDGET_EXECUTION_STEPS steps.

Definition charge_steps (predicate : orm_sql_predicate) (left : turbodb_value_t) (right : ptr turbodb_value_t) : B unit :=
  let a := bytes_of left in
  let b := match right with Some r => bytes_of r | None => mk_blob None 0 end in
  let compared := if is_some right && (p_op predicate <=? ORM_SQL_NULL_SAFE_EQUAL)
    then (if blob_size a <? blob_size b then blob_size a else blob_size b) else 0 in
  let steps := (
    s ← (if value_kind left =? KIND_TEXT then add_steps 1 (blob_size a) else Some 1);
    s ← (if maybe (fun r => value_kind r =? KIND_TEXT) right false then add_steps s (blob_size b) else Some s);
    add_steps s compared) in
  match steps with
  | None => raise TURBODB_STATUS_LIMIT_EXCEEDED "TidesDB SQL eval: predicate step count overflows"
  | Some s => orm_tidesdb_sql_budget_reserve (Some (charge_amount s))
  end.

(** The bytes of a view; reading outside the object is undefined. *)
Definition blob_bytes (b : turbodb_blob_t) : option bytes :=
  match blob_data b with
  | Some d => ldn d 0 (blob_size b)
  | None => if blob_size b =? 0 then Some [] else None
  end.

(** -1, 0 or 1 *)
Definition compare_u64 (a b : Z) : Z := if a <? b then -1 else if b <? a then 1 else 0.
Definition compare_double (a b : Z) : Z := if double_lt a b then -1 else if double_lt b a then 1 else 0.

(** A field of the union that the kind does not select is not defined. *)
Definition numeric_real_value (value : turbodb_value_t) : option Z :=
  match tv_data value with
  | TURBODB_VALUE_DOUBLE d => Some d
  | TURBODB_VALUE_INT64 z | TURBODB_VALUE_UINT64 z => Some (double_of_integer z)
  | _ => None
  end.

(** The sign of memcmp on the first [n] bytes. *)
Fixpoint memcmp (n : nat) (a b : bytes) : option Z :=
  match n, a, b with
  | O, _, _ => Some 0
  | S n, x :: a, y :: b => if x <? y then Some (-1) else if y <? x then Some 1 else memcmp n a b
  | _, _, _ => None
  end.

Definition compare_bytes (a b : turbodb_blob_t) : option Z :=
  let common := if blob_size a <? blob_size b then blob_size a else blob_size b in
  order ← (if negb (common =? 0)
    then x ← blob_data a; y ← blob_data b; memcmp (Z.to_nat common) x y
    else Some 0);
  Some (if negb (order =? 0) then (if order <? 0 then -1 else 1) else compare_u64 (blob_size a) (blob_size b)).

Definition compare_mixed (s u : Z) : Z := if s <? 0 then -1 else compare_u64 s u.

Definition compare_values (left right : turbodb_value_t) (real_comparison : bool) : option Z :=
  if real_comparison then
    a ← numeric_real_value left; b ← numeric_real_value right; Some (compare_double a b)
  else match tv_data left, tv_data right with
  | TURBODB_VALUE_INT64 a, TURBODB_VALUE_INT64 b => Some (compare_u64 a b)
  | TURBODB_VALUE_UINT64 a, TURBODB_VALUE_UINT64 b => Some (compare_u64 a b)
  | TURBODB_VALUE_INT64 s, TURBODB_VALUE_UINT64 u => Some (compare_mixed s u)
  | TURBODB_VALUE_UINT64 u, TURBODB_VALUE_INT64 s => Some (- compare_mixed s u)
  | TURBODB_VALUE_DOUBLE a, TURBODB_VALUE_DOUBLE b => Some (compare_double a b)
  | TURBODB_VALUE_DOUBLE _, _ => None
  | TURBODB_VALUE_BOOLEAN a, TURBODB_VALUE_BOOLEAN b => Some (compare_u64 a b)
  | TURBODB_VALUE_BOOLEAN _, _ => None
  | _, _ => compare_bytes (bytes_of left) (bytes_of right)
  end.

Definition boolean_field (value : turbodb_value_t) : option Z :=
  match tv_data value with TURBODB_VALUE_BOOLEAN b => Some b | _ => None end.

(** A C condition as the argument of turbodb_bool. *)
Definition c_bool (b : bool) : turbodb_value_t := turbodb_bool (if b then 1 else 0).

(** [!null && (value->data.boolean_value != 0) == decisive] *)
Definition decides (decisive : bool) (value : ptr turbodb_value_t) : option bool :=
  match value with
  | None => Some false
  | Some v =>
      if value_kind v =? KIND_NULL then Some false
      else b ← boolean_field v; Some (eqb (negb (b =? 0)) decisive)
  end.

Definition evaluate (predicate : orm_sql_predicate) (left : turbodb_value_t) (right : ptr turbodb_value_t)
    : option turbodb_value_t :=
  let op := p_op predicate in
  let a_null := value_kind left =? KIND_NULL in
  let b_null := maybe (fun r => value_kind r =? KIND_NULL) right true in
  if op =? ORM_SQL_IS_NULL then Some (c_bool a_null)
  else if op =? ORM_SQL_IS_NOT_NULL then Some (c_bool (negb a_null))
  else if op =? ORM_SQL_NOT then
    if a_null then Some turbodb_null else b ← boolean_field left; Some (c_bool (b =? 0))
  else if (op =? ORM_SQL_AND) || (op =? ORM_SQL_OR) then
    let decisive := op =? ORM_SQL_OR in
    da ← decides decisive (Some left);
    d ← (if da : bool then Some true else decides decisive right);
    if d : bool then Some (c_bool decisive)
    else Some (if a_null || b_null then turbodb_null else c_bool (negb decisive))
  else if a_null || b_null then
    Some (if op =? ORM_SQL_NULL_SAFE_EQUAL then c_bool (a_null && b_null) else turbodb_null)
  else
    r ← right;
    order ← compare_values left r (p_real_comparison predicate);
    Some (c_bool (
      if (op =? ORM_SQL_EQUAL) || (op =? ORM_SQL_NULL_SAFE_EQUAL) then order =? 0
      else if op =? ORM_SQL_NOT_EQUAL then negb (order =? 0)
      else if op =? ORM_SQL_LESS then order <? 0
      else if op =? ORM_SQL_LESS_EQUAL then order <=? 0
      else if op =? ORM_SQL_GREATER then 0 <? order
      else 0 <=? order)).

Section Text.
(** The UTF-8 validation of the tstr library, on the bytes of the view. *)
Context (vstr_utf8_valid : bytes -> bool).

Definition valid_text (value : turbodb_value_t) : option bool :=
  match tv_data value with
  | TURBODB_VALUE_TEXT t =>
      if vs_len t =? 0 then Some true
      else text ← blob_bytes (bytes_of value); Some (vstr_utf8_valid text)
  | _ => Some true
  end.

Definition valid_texts (left : turbodb_value_t) (right : ptr turbodb_value_t) : option bool :=
  a ← valid_text left;
  if a : bool then match right with Some r => valid_text r | None => Some true end else Some false.

Definition orm_tidesdb_sql_predicate_eval (predicate : ptr orm_sql_predicate) (left right : ptr turbodb_value_t)
    (wants : bool) : B turbodb_value_t :=
  budget ← gets is_some;
  match predicate, left with
  | Some p, Some l =>
      raise_if (negb budget || negb wants || (if unary (p_op p) then is_some right else negb (is_some right)))
        TURBODB_STATUS_INVALID_ARGUMENT "TidesDB SQL eval: invalid predicate arguments";;
      raise_if ((p_op p <? ORM_SQL_EQUAL) || (ORM_SQL_OR <? p_op p)) TURBODB_STATUS_INVALID_STATE
        "TidesDB SQL eval: invalid bound predicate operation";;
      raise_if (negb (valid_value l (p_left p)) || maybe (fun r => negb (valid_value r (p_right p))) right false)
        TURBODB_STATUS_TYPE_ERROR "TidesDB SQL eval: value does not match its bound type";;
      charge_steps p l right;;
      utf8 ← access (valid_texts l right);
      raise_if (negb utf8) TURBODB_STATUS_TYPE_ERROR "TidesDB SQL eval: TEXT must contain valid UTF-8";;
      access (evaluate p l right)
  | _, _ => raise TURBODB_STATUS_INVALID_ARGUMENT "TidesDB SQL eval: invalid predicate arguments"
  end.
End Text.

(** ** The order of sort keys *)

Definition order_of (lt gt : bool) : Z := (if gt then 1 else 0) - (if lt then 1 else 0).

Definition orm_sql_value_order (a b : turbodb_value_t) : option Z :=
  match tv_data a, tv_data b with
  | TURBODB_VALUE_NULL, _ | _, TURBODB_VALUE_NULL =>
      Some (order_of (value_kind a =? KIND_NULL) (value_kind b =? KIND_NULL))
  | TURBODB_VALUE_BOOLEAN x, TURBODB_VALUE_BOOLEAN y | TURBODB_VALUE_INT64 x, TURBODB_VALUE_INT64 y
  | TURBODB_VALUE_UINT64 x, TURBODB_VALUE_UINT64 y => Some (order_of (x <? y) (y <? x))
  | TURBODB_VALUE_DOUBLE x, TURBODB_VALUE_DOUBLE y => Some (order_of (double_lt x y) (double_lt y x))
  | _, _ => None
  end.

(** ** Well-formed values *)

(** The object behind a view holds its bytes; only an empty view has no object. *)
Definition view_ok (b : turbodb_blob_t) : Prop :=
  0 <= blob_size b < 2 ^ 63 /\
  match blob_data b with Some d => blob_size b <= len d /\ bytes_ok d | None => True end.

(** The fields have the range of their C types. *)
Definition value_ok (v : turbodb_value_t) : Prop :=
  match tv_data v with
  | TURBODB_VALUE_NULL => True
  | TURBODB_VALUE_INT64 z => - 2 ^ 63 <= z < 2 ^ 63
  | TURBODB_VALUE_UINT64 z => 0 <= z < 2 ^ 64
  | TURBODB_VALUE_DOUBLE d => 0 <= d < 2 ^ 64
  | TURBODB_VALUE_BOOLEAN b => 0 <= b < 256
  | TURBODB_VALUE_TEXT t => view_ok (mk_blob (vs_data t) (vs_len t))
  | TURBODB_VALUE_BLOB t => view_ok t
  | TURBODB_VALUE_unknown kind => kind < KIND_NULL \/ KIND_BLOB < kind
  end.

Definition maybe_ok {A} (P : A -> Prop) (o : ptr A) : Prop := match o with Some a => P a | None => True end.

(** ** What SQL means by a predicate *)

(** Lexicographic order of byte strings. *)
Fixpoint lex (a b : bytes) : comparison :=
  match a, b with
  | [], [] => Eq
  | [], _ :: _ => Lt
  | _ :: _, [] => Gt
  | x :: a, y :: b => match x ?= y with Eq => lex a b | c => c end
  end.

Definition content (v : turbodb_value_t) : bytes := default [] (blob_bytes (bytes_of v)).

(** A number as a double, in units of 2^-1074: an integer is rounded to the
    nearest one, which is itself up to 2^53. *)
Definition real_value (v : turbodb_value_t) : Z :=
  match tv_data v with
  | TURBODB_VALUE_DOUBLE d => double_scaled d
  | TURBODB_VALUE_INT64 z | TURBODB_VALUE_UINT64 z => nearest_double z * UNIT
  | _ => 0
  end.

Definition is_double (v : turbodb_value_t) : bool := value_kind v =? KIND_DOUBLE.

(** Two integers compare exactly whatever their signedness; when one of two
    numbers is a double, they compare as doubles; texts and blobs compare byte
    by byte. *)
Definition sql_compare (l r : turbodb_value_t) : comparison :=
  if is_double l || is_double r then real_value l ?= real_value r
  else match tv_data l, tv_data r with
  | (TURBODB_VALUE_INT64 a | TURBODB_VALUE_UINT64 a), (TURBODB_VALUE_INT64 b | TURBODB_VALUE_UINT64 b) => a ?= b
  | TURBODB_VALUE_BOOLEAN a, TURBODB_VALUE_BOOLEAN b => a ?= b
  | _, _ => lex (content l) (content r)
  end.

(** The truth values: [None] is UNKNOWN. *)
Definition truth (v : turbodb_value_t) : option bool :=
  match tv_data v with TURBODB_VALUE_BOOLEAN b => Some (negb (b =? 0)) | _ => None end.

Definition kleene_not (a : option bool) : option bool := negb <$> a.
Definition kleene_and (a b : option bool) : option bool :=
  match a, b with
  | Some false, _ | _, Some false => Some false
  | Some true, Some true => Some true
  | _, _ => None
  end.
Definition kleene_or (a b : option bool) : option bool :=
  match a, b with
  | Some true, _ | _, Some true => Some true
  | Some false, Some false => Some false
  | _, _ => None
  end.

Definition is_null (v : turbodb_value_t) : bool := value_kind v =? KIND_NULL.

Definition holds (op : Z) (c : comparison) : bool :=
  match c with
  | Eq => (op =? ORM_SQL_EQUAL) || (op =? ORM_SQL_NULL_SAFE_EQUAL) || (op =? ORM_SQL_LESS_EQUAL) ||
          (op =? ORM_SQL_GREATER_EQUAL)
  | Lt => (op =? ORM_SQL_NOT_EQUAL) || (op =? ORM_SQL_LESS) || (op =? ORM_SQL_LESS_EQUAL)
  | Gt => (op =? ORM_SQL_NOT_EQUAL) || (op =? ORM_SQL_GREATER) || (op =? ORM_SQL_GREATER_EQUAL)
  end.

(** The predicate on two values; a unary one ignores the second. *)
Definition sql_predicate (op : Z) (l r : turbodb_value_t) : option bool :=
  if op =? ORM_SQL_IS_NULL then Some (is_null l)
  else if op =? ORM_SQL_IS_NOT_NULL then Some (negb (is_null l))
  else if op =? ORM_SQL_NOT then kleene_not (truth l)
  else if op =? ORM_SQL_AND then kleene_and (truth l) (truth r)
  else if op =? ORM_SQL_OR then kleene_or (truth l) (truth r)
  else if op =? ORM_SQL_NULL_SAFE_EQUAL then
    Some (if is_null l || is_null r then is_null l && is_null r else holds op (sql_compare l r))
  else if is_null l || is_null r then None
  else Some (holds op (sql_compare l r)).

Definition truth_value (t : option bool) : turbodb_value_t :=
  match t with Some b => c_bool b | None => turbodb_null end.

(** ** Comparisons *)

Definition order_Z (c : comparison) : Z := match c with Lt => -1 | Eq => 0 | Gt => 1 end.

Lemma compare_u64_spec a b : compare_u64 a b = order_Z (a ?= b).
Proof.
  unfold compare_u64. destruct (Z.compare_spec a b); cbn;
    destruct (Z.ltb_spec a b), (Z.ltb_spec b a); lia.
Qed.

Lemma compare_double_spec a b :
  isnan a = false -> isnan b = false -> compare_double a b = order_Z (double_scaled a ?= double_scaled b).
Proof.
  intros Ha Hb. unfold compare_double, double_lt. rewrite Ha, Hb. apply compare_u64_spec.
Qed.

Lemma compare_mixed_spec s u : 0 <= u -> compare_mixed s u = order_Z (s ?= u).
Proof.
  intros Hu. unfold compare_mixed. destruct (Z.ltb_spec s 0); [|apply compare_u64_spec].
  by rewrite (proj2 (Z.compare_lt_iff s u)) by lia.
Qed.

Lemma memcmp_lex n m x y :
  (n <= length x)%nat -> (m <= length y)%nat ->
  exists o, memcmp (Nat.min n m) x y = Some o /\ (o = -1 \/ o = 0 \/ o = 1) /\
    order_Z (lex (take n x) (take m y)) =
      if negb (o =? 0) then o else compare_u64 (Z.of_nat n) (Z.of_nat m).
Proof.
  revert m x y. induction n as [|n IH]; intros m x y Hx Hy; cbn [Nat.min].
  { exists 0. destruct m, y; cbn in *; auto; lia. }
  destruct x as [|a x]; [cbn in Hx; lia|]. destruct m as [|m].
  { exists 0. cbn. auto. }
  destruct y as [|b y]; [cbn in Hy; lia|]. cbn in Hx, Hy. cbn [memcmp take lex].
  destruct (Z.compare_spec a b) as [->|Hab|Hab].
  - rewrite Z.ltb_irrefl. destruct (IH m x y) as (o & -> & Ho & E); [lia..|].
    exists o. split_and!; [done..|]. rewrite E. case_match; [done|].
    rewrite !compare_u64_spec, !Nat2Z.inj_succ. by rewrite <- !Z.add_1_l, Z.add_compare_mono_l.
  - rewrite (proj2 (Z.ltb_lt a b)) by done. exists (-1). auto.
  - rewrite (proj2 (Z.ltb_ge a b)), (proj2 (Z.ltb_lt b a)) by lia. exists 1. auto.
Qed.

(** A view that [valid_value] accepts. *)
Definition present (b : turbodb_blob_t) : Prop := blob_size b = 0 \/ is_some (blob_data b) = true.

Lemma blob_bytes_present b :
  view_ok b -> present b ->
  exists x, blob_bytes b = Some (take (Z.to_nat (blob_size b)) x) /\ blob_size b <= len x /\
    (blob_size b <> 0 -> blob_data b = Some x).
Proof.
  intros [Hs Hd] Hp. unfold blob_bytes, present in *. destruct (blob_data b) as [d|].
  - exists d. rewrite ldn_Some by lia. rewrite drop_0. split_and!; [done|lia|done].
  - destruct Hp as [->|?]; [|done]. exists []. cbn. split_and!; [done|lia|lia].
Qed.

Lemma compare_bytes_spec a b :
  view_ok a -> view_ok b -> present a -> present b ->
  compare_bytes a b = Some (order_Z (lex (default [] (blob_bytes a)) (default [] (blob_bytes b)))).
Proof.
  intros Ha Hb Hpa Hpb.
  destruct (blob_bytes_present a Ha Hpa) as (x & Ex & Hx & Hdx).
  destruct (blob_bytes_present b Hb Hpb) as (y & Ey & Hy & Hdy).
  destruct Ha as [Ha _], Hb as [Hb _]. rewrite Ex, Ey. cbn [from_option id]. unfold compare_bytes.
  destruct (memcmp_lex (Z.to_nat (blob_size a)) (Z.to_nat (blob_size b)) x y) as (o & Em & Ho & El); [lia..|].
  rewrite El, !Z2Nat.id by lia. clear El.
  replace (if blob_size a <? blob_size b then blob_size a else blob_size b)
    with (Z.min (blob_size a) (blob_size b)) by (case_match; bsimp; lia).
  destruct (Z.eqb_spec (Z.min (blob_size a) (blob_size b)) 0) as [Hz|Hz]; cbn [negb].
  - replace (Nat.min _ _) with O in Em by lia. cbn in Em. injection Em as <-. done.
  - rewrite Hdx, Hdy by lia. cbn. replace (Z.to_nat (Z.min _ _)) with (Nat.min (Z.to_nat (blob_size a)) (Z.to_nat (blob_size b))) by lia.
    rewrite Em. cbn. destruct Ho as [->|[->| ->]]; done.
Qed.

Lemma valid_value_present v t : valid_value v t = true -> present (bytes_of v).
Proof.
  unfold valid_value, value_kind, present, bytes_of. destruct (tv_data v); intros H; try (by left); cbn in *;
    repeat (case_match; try done); apply orb_true_iff in H as [H|H]; bsimp; auto.
Qed.

Lemma value_ok_view v : value_ok v -> view_ok (bytes_of v).
Proof. unfold value_ok, bytes_of. destruct (tv_data v); try done; unfold view_ok; cbn; lia. Qed.

Lemma valid_value_kind v t :
  valid_value v t = true -> is_null v = false -> value_kind v = ty_kind t.
Proof.
  unfold valid_value, is_null. intros Hv Hn. rewrite Hn in Hv. repeat case_match; bsimp; done.
Qed.

Lemma real_operand v t :
  value_ok v -> valid_value v t = true -> is_null v = false -> assignment_numeric (ty_kind t) = true ->
  exists d, numeric_real_value v = Some d /\ isnan d = false /\ double_scaled d = real_value v.
Proof.
  intros Hok Hv Hn Hnum. pose proof (valid_value_kind v t Hv Hn) as Hk.
  unfold assignment_numeric, value_ok, valid_value, is_null, value_kind, numeric_real_value, real_value in *.
  rewrite <- Hk in *. destruct (tv_data v) as [|z|z|d|b|x|x|k]; try done; cbn in *.
  - eexists. split_and!; [done|by apply double_round_not_nan|apply double_of_integer_nearest; lia].
  - eexists. split_and!; [done|by apply double_round_not_nan|apply double_of_integer_nearest; lia].
  - eexists. split_and!; [done| |done]. repeat case_match; try done. by apply finite_not_nan.
  - exfalso. unfold KIND_NULL, KIND_BLOB, KIND_INT64, KIND_UINT64, KIND_DOUBLE in *. bsimp. lia.
Qed.

(** The operand types a comparison may have once bound. *)
Definition comparable (real : bool) (tl tr : orm_sql_type) : Prop :=
  if real then assignment_numeric (ty_kind tl) = true /\ assignment_numeric (ty_kind tr) = true
  else ty_kind tl <> KIND_DOUBLE /\ ty_kind tr <> KIND_DOUBLE /\
    (ty_kind tl = ty_kind tr \/ integral (ty_kind tl) = true /\ integral (ty_kind tr) = true).

Lemma compare_values_spec real l r tl tr :
  value_ok l -> value_ok r -> valid_value l tl = true -> valid_value r tr = true ->
  is_null l = false -> is_null r = false -> comparable real tl tr ->
  real = (ty_kind tl =? KIND_DOUBLE) || (ty_kind tr =? KIND_DOUBLE) ->
  compare_values l r real = Some (order_Z (sql_compare l r)).
Proof.
  intros Hol Hor Hvl Hvr Hnl Hnr Hc Hreal. unfold compare_values, sql_compare, is_double.
  rewrite (valid_value_kind l tl Hvl Hnl), (valid_value_kind r tr Hvr Hnr), <- Hreal. destruct real; cbn in Hc.
  { destruct (real_operand l tl) as (a & -> & Ha & <-); [done..|apply Hc|].
    destruct (real_operand r tr) as (b & -> & Hb & <-); [done..|apply Hc|].
    cbn. by rewrite compare_double_spec. }
  destruct Hc as (Hdl & Hdr & Hc).
  pose proof (valid_value_kind l tl Hvl Hnl) as Hkl. pose proof (valid_value_kind r tr Hvr Hnr) as Hkr.
  pose proof (compare_bytes_spec (bytes_of l) (bytes_of r) (value_ok_view l Hol) (value_ok_view r Hor)
    (valid_value_present _ _ Hvl) (valid_value_present _ _ Hvr)) as Hb.
  unfold integral in Hc. rewrite <- Hkl, <- Hkr in *. clear Hvl Hvr Hkl Hkr.
  unfold content. unfold is_null, value_kind, value_ok in *.
  destruct (tv_data l) as [|x|x|x|x|x|x|x], (tv_data r) as [|y|y|y|y|y|y|y];
    cbn in *; try done; try (by destruct Hc as [|[??]]); rewrite ?compare_u64_spec; try done.
  - by rewrite compare_mixed_spec by lia.
  - rewrite compare_mixed_spec by lia. rewrite (Z.compare_antisym y x). by destruct (y ?= x).
  - destruct Hc as [<-|[? _]]; [|done]. by destruct Hor.
Qed.

(** What a successful bind has checked. *)
Record bound (op : Z) (tl : orm_sql_type) (right : ptr orm_sql_type) (p : orm_sql_predicate) : Prop := {
  bd_op : ORM_SQL_EQUAL <= op <= ORM_SQL_OR;
  bd_arity : unary op = negb (is_some right);
  bd_logic : (op =? ORM_SQL_NOT) || (op =? ORM_SQL_AND) || (op =? ORM_SQL_OR) = true ->
    boolean_type (ty_kind tl) = true /\ maybe (fun r => boolean_type (ty_kind r)) right true = true;
  bd_compare : op <= ORM_SQL_NULL_SAFE_EQUAL -> exists tr, right = Some tr /\
    (ty_kind tl = KIND_NULL \/ ty_kind tr = KIND_NULL \/ comparable (p_real_comparison p) tl tr);
  bd_real : op <= ORM_SQL_NULL_SAFE_EQUAL -> p_real_comparison p =
    (ty_kind tl =? KIND_DOUBLE) || maybe (fun r => ty_kind r =? KIND_DOUBLE) right false;
  bd_p_op : p_op p = op;
  bd_left : p_left p = tl;
  bd_right : p_right p = default (mk_type KIND_NULL true) right;
  bd_result : p_result p = mk_type KIND_BOOLEAN (negb (op =? ORM_SQL_NULL_SAFE_EQUAL) &&
    negb (op =? ORM_SQL_IS_NULL) && negb (op =? ORM_SQL_IS_NOT_NULL) &&
    (ty_nullable tl || maybe ty_nullable right false))
}.

Lemma comparable_bind (tl tr : orm_sql_type) :
  (ty_kind tl =? KIND_NULL) || (ty_kind tr =? KIND_NULL) || (ty_kind tl =? ty_kind tr) ||
    (assignment_numeric (ty_kind tl) && assignment_numeric (ty_kind tr)) = true ->
  ty_kind tl = KIND_NULL \/ ty_kind tr = KIND_NULL \/
    comparable ((ty_kind tl =? KIND_DOUBLE) || (ty_kind tr =? KIND_DOUBLE)) tl tr.
Proof.
  intros H. unfold comparable, assignment_numeric, integral, KIND_NULL, KIND_DOUBLE, KIND_INT64, KIND_UINT64 in *.
  destruct (Z.eqb_spec (ty_kind tl) 0); [by left|]. destruct (Z.eqb_spec (ty_kind tr) 0); [by right; left|].
  right; right. cbn [orb] in H.
  destruct (Z.eqb_spec (ty_kind tl) 3) as [El|?], (Z.eqb_spec (ty_kind tr) 3) as [Er|?];
    cbn [orb]; rewrite ?orb_true_r, ?orb_false_r in *; try done; apply orb_true_iff in H as [H|H]; bsimp; try lia; auto.
Qed.

Lemma bind_bound {S} op tl right p (s s' : S) :
  orm_tidesdb_sql_predicate_bind op tl right true s = (Ret p, s') -> bound op tl right p /\ s' = s.
Proof.
  intros E.
  assert (wp (orm_tidesdb_sql_predicate_bind op tl right true) (fun q s1 => q = p -> bound op tl right p /\ s1 = s)
    (fun _ _ => True) s) as Hw.
  { unfold orm_tidesdb_sql_predicate_bind.
    do 4 (tdb_step; tdb_step; [done|]). tdb_step. intros <-. split; [|done]. bsimp. cbn [negb orb] in *.
    split; cbn [p_op p_left p_right p_result p_real_comparison]; try done.
    - destruct (unary op), right; done.
    - intros El. rewrite El in *. bsimp. auto.
    - intros Hle. rewrite (proj2 (Z.leb_le _ _) Hle). cbn [andb].
      assert (unary op = false /\ (op =? ORM_SQL_NOT) || (op =? ORM_SQL_AND) || (op =? ORM_SQL_OR) = false) as [Hu Hl].
      { unfold unary, ORM_SQL_NULL_SAFE_EQUAL, ORM_SQL_NOT, ORM_SQL_AND, ORM_SQL_OR, ORM_SQL_IS_NULL,
          ORM_SQL_IS_NOT_NULL in *. split; repeat (rewrite (proj2 (Z.eqb_neq _ _)) by lia); done. }
      rewrite Hu, Hl in *. cbn [negb] in *. destruct right as [tr|]; [|done]. cbn [maybe is_some negb] in *.
      exists tr. split; [done|]. by apply comparable_bind.
    - intros Hle. by rewrite (proj2 (Z.leb_le _ _) Hle). }
  unfold wp in Hw. rewrite E in Hw. by apply Hw.
Qed.

Lemma boolean_operand v t :
  value_ok v -> valid_value v t = true -> boolean_type (ty_kind t) = true ->
  (is_null v = true /\ truth v = None) \/ (exists b, tv_data v = TURBODB_VALUE_BOOLEAN b /\ is_null v = false).
Proof.
  intros Hok Hv Hb. destruct (is_null v) eqn:Hn.
  - left. split; [done|]. unfold is_null, value_kind, truth in *. by destruct (tv_data v).
  - right. pose proof (valid_value_kind v t Hv Hn) as Hk. unfold boolean_type in Hb. rewrite <- Hk in Hb.
    unfold is_null, value_kind, value_ok in *. destruct (tv_data v); try done; [by eexists|].
    unfold KIND_NULL, KIND_BOOLEAN, KIND_BLOB in *. bsimp. lia.
Qed.

Lemma decides_spec decisive v t :
  value_ok v -> valid_value v t = true -> boolean_type (ty_kind t) = true ->
  decides decisive (Some v) = Some (bool_decide (truth v = Some decisive)).
Proof.
  intros Hok Hv Hb. unfold decides. fold (is_null v).
  destruct (boolean_operand v t) as [[-> ->]|(b & E & ->)]; [done..|].
  unfold boolean_field, truth. rewrite E. cbn.
  by destruct (b =? 0), decisive.
Qed.

Lemma sql_logic op tl tr p l r :
  bound op tl (Some tr) p -> value_ok l -> value_ok r -> valid_value l tl = true -> valid_value r tr = true ->
  (op =? ORM_SQL_AND) || (op =? ORM_SQL_OR) = true ->
  evaluate p l (Some r) = Some (truth_value (sql_predicate op l r)).
Proof.
  intros Hb Hol Hor Hvl Hvr Hop. pose proof (bd_logic _ _ _ _ Hb) as Hlog.
  rewrite <- orb_assoc, Hop, orb_true_r in Hlog. destruct Hlog as [Hbl Hbr]; [done|]. cbn in Hbr.
  unfold evaluate. rewrite (bd_p_op _ _ _ _ Hb).
  assert ((op =? ORM_SQL_IS_NULL) = false /\ (op =? ORM_SQL_IS_NOT_NULL) = false /\ (op =? ORM_SQL_NOT) = false)
    as (E1 & E2 & E3).
  { unfold ORM_SQL_AND, ORM_SQL_OR, ORM_SQL_IS_NULL, ORM_SQL_IS_NOT_NULL, ORM_SQL_NOT in *. bsimp.
    split_and!; apply Z.eqb_neq; lia. }
  unfold sql_predicate. rewrite E1, E2, E3, Hop. cbn [maybe]. fold (is_null l) (is_null r).
  rewrite (decides_spec _ l tl), (decides_spec _ r tr) by done. cbn.
  assert (forall v t, value_ok v -> valid_value v t = true -> boolean_type (ty_kind t) = true ->
    is_null v = bool_decide (truth v = None)) as Hnull.
  { intros v t ? ? ?. destruct (boolean_operand v t) as [[-> ->]|(b & E & ->)]; [done..|].
    unfold truth. by rewrite E. }
  rewrite (Hnull l tl), (Hnull r tr) by done.
  destruct (Z.eqb_spec op ORM_SQL_AND) as [->|Hna]; cbn;
    [|destruct (Z.eqb_spec op ORM_SQL_OR) as [->|]; [|done]; cbn];
    destruct (truth l) as [[]|], (truth r) as [[]|]; done.
Qed.

Lemma holds_order op c :
  ORM_SQL_EQUAL <= op <= ORM_SQL_NULL_SAFE_EQUAL ->
  (if (op =? ORM_SQL_EQUAL) || (op =? ORM_SQL_NULL_SAFE_EQUAL) then order_Z c =? 0
   else if op =? ORM_SQL_NOT_EQUAL then negb (order_Z c =? 0)
   else if op =? ORM_SQL_LESS then order_Z c <? 0
   else if op =? ORM_SQL_LESS_EQUAL then order_Z c <=? 0
   else if op =? ORM_SQL_GREATER then 0 <? order_Z c
   else 0 <=? order_Z c) = holds op c.
Proof.
  intros H. assert (In op [0; 1; 2; 3; 4; 5; 6]) as Hin.
  { unfold ORM_SQL_EQUAL, ORM_SQL_NULL_SAFE_EQUAL in H. cbn. lia. }
  cbn in Hin. repeat destruct Hin as [<-|Hin]; try done; by destruct c.
Qed.

Lemma sql_comparison op tl tr p l r :
  bound op tl (Some tr) p -> value_ok l -> value_ok r -> valid_value l tl = true -> valid_value r tr = true ->
  op <= ORM_SQL_NULL_SAFE_EQUAL ->
  evaluate p l (Some r) = Some (truth_value (sql_predicate op l r)).
Proof.
  intros Hb Hol Hor Hvl Hvr Hop. destruct (bd_compare _ _ _ _ Hb Hop) as (tr' & [= <-] & Hc).
  pose proof (bd_op _ _ _ _ Hb) as Hr.
  unfold evaluate, sql_predicate. rewrite (bd_p_op _ _ _ _ Hb).
  assert (forall k, ORM_SQL_IS_NULL <= k -> (op =? k) = false) as Hne.
  { intros k Hk. apply Z.eqb_neq. unfold ORM_SQL_IS_NULL, ORM_SQL_NULL_SAFE_EQUAL in *. lia. }
  rewrite !Hne by done. cbn [orb maybe]. fold (is_null l) (is_null r).
  destruct (is_null l) eqn:Hnl, (is_null r) eqn:Hnr; cbn [orb andb]; try by destruct (op =? ORM_SQL_NULL_SAFE_EQUAL).
  assert (comparable (p_real_comparison p) tl tr) as Hcmp.
  { apply valid_value_kind in Hvl, Hvr; [|done..]. unfold is_null in *. bsimp. destruct Hc as [?|[?|?]]; [congruence..|done]. }
  cbn [mbind option_bind]. rewrite (compare_values_spec _ l r tl tr) by (done || apply (bd_real _ _ _ _ Hb Hop)). cbn.
  rewrite holds_order by lia. by destruct (op =? ORM_SQL_NULL_SAFE_EQUAL).
Qed.

Lemma sql_unary op tl p l :
  bound op tl None p -> value_ok l -> valid_value l tl = true ->
  evaluate p l None = Some (truth_value (sql_predicate op l turbodb_null)).
Proof.
  intros Hb Hol Hvl. pose proof (bd_arity _ _ _ _ Hb) as Hu. cbn in Hu.
  unfold evaluate, sql_predicate. rewrite (bd_p_op _ _ _ _ Hb). fold (is_null l).
  destruct (op =? ORM_SQL_IS_NULL) eqn:E1; [by destruct (is_null l)|].
  destruct (op =? ORM_SQL_IS_NOT_NULL) eqn:E2; [by destruct (is_null l)|].
  unfold unary in Hu. rewrite E1, E2 in Hu. cbn in Hu. rewrite Hu.
  destruct (bd_logic _ _ _ _ Hb) as [Hbl _]; [by rewrite Hu|].
  destruct (boolean_operand l tl) as [[-> ->]|(b & E & ->)]; [done..|].
  unfold boolean_field, truth. rewrite E. cbn. by destruct (b =? 0).
Qed.

(** A bound predicate on values of the bound types means what SQL means. *)
Lemma evaluate_spec op tl right p l r :
  bound op tl right p -> is_some r = is_some right -> value_ok l -> maybe_ok value_ok r ->
  valid_value l (p_left p) = true -> maybe (fun r => valid_value r (p_right p)) r true = true ->
  evaluate p l r = Some (truth_value (sql_predicate op l (default turbodb_null r))).
Proof.
  intros Hb Hs Hol Hor Hvl Hvr. rewrite (bd_left _ _ _ _ Hb) in Hvl. rewrite (bd_right _ _ _ _ Hb) in Hvr.
  destruct right as [tr|], r as [r|]; try done; cbn in *; [|by eapply sql_unary].
  destruct (Z.leb_spec op ORM_SQL_NULL_SAFE_EQUAL); [by eapply sql_comparison|]. eapply sql_logic; try done.
  pose proof (bd_op _ _ _ _ Hb). pose proof (bd_arity _ _ _ _ Hb) as Hu. cbn in Hu. unfold unary in Hu. bsimp.
  apply orb_true_iff. rewrite !Z.eqb_eq.
  unfold ORM_SQL_AND, ORM_SQL_OR, ORM_SQL_IS_NULL, ORM_SQL_IS_NOT_NULL, ORM_SQL_NOT, ORM_SQL_NULL_SAFE_EQUAL in *. lia.
Qed.

(** ** The steps of an evaluation *)

Lemma steps_lt : (ORM_SQL_BUDGET_EXECUTION_STEPS < COUNT)%nat.
Proof. unfold COUNT, ORM_SQL_BUDGET_EXECUTION_STEPS. lia. Qed.

(** Charging [n] execution steps, on every branch. *)
Lemma charge_wp b n :
  ledger_ok b -> 0 <= n < 2 ^ 64 ->
  wp (orm_tidesdb_sql_budget_reserve (Some (charge_amount n)))
    (fun _ s => statement_active b = true /\ fits b (charge_amount n) /\
      exists b', s = Some b' /\ charged b (charge_amount n) b' /\ ledger_ok b')
    (fun f s => s = Some b /\ (statement_active b = true -> ~ fits b (charge_amount n))) (Some b).
Proof.
  intros Hb Hn. assert (amount_ok (charge_amount n)) as Hc by (apply amount_of_ok; [apply steps_lt|done]).
  destruct (statement_active b) eqn:Ha.
  - eapply wp_mono; [by apply reserve_wp|..].
    + intros _ s [Hf ->]. pose proof (charge_ledger_charged b _ Hb Hc Hf).
      split_and!; [done..|]. eexists. split_and!; [done..|]. by eapply charged_ok.
    + by intros f s (? & -> & ?).
  - unfold orm_tidesdb_sql_budget_reserve. apply wp_bind, require_active_idle; [done|]. by intros f.
Qed.

Lemma fits_steps_small b n : ledger_ok b -> fits b (charge_amount n) -> n < 2 ^ 64.
Proof.
  intros Hb [Hf _]. specialize (Hf _ steps_lt). unfold charge_amount in Hf.
  rewrite amount_of_at in Hf by apply steps_lt. cbn in Hf.
  pose proof (ledger_used_range b ORM_SQL_BUDGET_EXECUTION_STEPS Hb).
  pose proof (proj2 (proj1 (ok_limits b Hb)) ORM_SQL_BUDGET_EXECUTION_STEPS). lia.
Qed.

(** [b'] is [b] after [n] more execution steps. *)
Record spent (b : orm_tidesdb_sql_budget) (n : Z) (b' : orm_tidesdb_sql_budget) : Prop := {
  sp_ok : ledger_ok b';
  sp_limits : limits b' = limits b;
  sp_active : statement_active b' = statement_active b;
  sp_used : forall i, (i < COUNT)%nat ->
    amount_at (used b') i = amount_at (used b) i + if (i =? ORM_SQL_BUDGET_EXECUTION_STEPS)%nat then n else 0
}.

Definition steps_left (b : orm_tidesdb_sql_budget) : Z :=
  amount_at (statement (limits b)) ORM_SQL_BUDGET_EXECUTION_STEPS - amount_at (used b) ORM_SQL_BUDGET_EXECUTION_STEPS.

Lemma spent_refl b : ledger_ok b -> spent b 0 b.
Proof. intros. split; [done..|]. intros. case_match; lia. Qed.

Lemma spent_trans b n b1 m b2 : spent b n b1 -> spent b1 m b2 -> spent b (n + m) b2.
Proof.
  intros [] []. split; [done|congruence..|]. intros i Hi. rewrite sp_used1, sp_used0 by done. case_match; lia.
Qed.

Lemma spent_left b n b' : spent b n b' -> steps_left b' = steps_left b - n.
Proof.
  intros []. unfold steps_left. rewrite sp_limits0, sp_used0 by apply steps_lt. cbn. lia.
Qed.

(** A charge of steps is admitted exactly when that many are left. *)
Lemma fits_steps b n : ledger_ok b -> 0 <= n -> fits b (charge_amount n) <-> n <= steps_left b.
Proof.
  intros Hb Hn. unfold fits, charge_amount, steps_left.
  assert (forall i, amount_at (amount_of ORM_SQL_BUDGET_EXECUTION_STEPS n) i =
    if (i =? ORM_SQL_BUDGET_EXECUTION_STEPS)%nat then n else 0) as E.
  { intros i. apply amount_of_at, steps_lt. }
  destruct (ok_transaction_le b Hb) as (? & ? & ?). rewrite !E. cbn. split.
  - intros [Hf _]. specialize (Hf _ steps_lt). rewrite E in Hf. cbn in Hf. lia.
  - intros Hle. split_and!; [|lia..]. intros i Hi. rewrite E. pose proof (ok_used b Hb i). pose proof (ok_peak b Hb i).
    destruct (Nat.eqb_spec i ORM_SQL_BUDGET_EXECUTION_STEPS); [subst i|]; lia.
Qed.

Lemma charge_spent b n :
  ledger_ok b -> 0 <= n < 2 ^ 64 ->
  wp (orm_tidesdb_sql_budget_reserve (Some (charge_amount n)))
    (fun _ s => statement_active b = true /\ n <= steps_left b /\ exists b', s = Some b' /\ spent b n b')
    (fun f s => s = Some b /\ (statement_active b = true -> steps_left b < n)) (Some b).
Proof.
  intros Hb Hn. eapply wp_mono; [by apply charge_wp|..].
  - intros _ s (Ha & Hf & b' & -> & Hch & Hok). split; [done|]. split; [apply fits_steps; done || lia|].
    exists b'. split; [done|]. split; [done|apply Hch..|]. intros i Hi. rewrite (ch_used _ _ _ Hch) by done. unfold charge_amount.
    by rewrite amount_of_at by apply steps_lt.
  - intros f s [-> Hf]. split; [done|]. intros Ha. specialize (Hf Ha). rewrite fits_steps in Hf by (done || lia). lia.
Qed.

Lemma add_steps_spec s n :
  0 <= s < 2 ^ 64 -> 0 <= n < 2 ^ 64 -> add_steps s n = if 2 ^ 64 <=? s + n then None else Some (s + n).
Proof.
  intros. unfold add_steps, UINT64_MAX. rewrite size_sub_small by lia.
  destruct (Z.ltb_spec (2 ^ 64 - 1 - s) n), (Z.leb_spec (2 ^ 64) (s + n)); try lia; [done|].
  by rewrite u64_small by lia.
Qed.

Definition text_size (v : turbodb_value_t) : Z :=
  if value_kind v =? KIND_TEXT then blob_size (bytes_of v) else 0.

(** One step, the bytes of the texts to validate and the bytes to compare. *)
Definition eval_steps (op : Z) (l : turbodb_value_t) (r : ptr turbodb_value_t) : Z :=
  match r with
  | None => 1 + text_size l
  | Some r => 1 + text_size l + text_size r +
      if op <=? ORM_SQL_NULL_SAFE_EQUAL then Z.min (blob_size (bytes_of l)) (blob_size (bytes_of r)) else 0
  end.

(** The sum of the parts, or [None] when the total overflows. *)
Lemma add_steps_chain (x y z : Z) (c d : bool) :
  0 <= x < 2 ^ 63 -> 0 <= y < 2 ^ 63 -> 0 <= z < 2 ^ 63 ->
  (s ← (if c then add_steps 1 x else Some 1); s ← (if d then add_steps s y else Some s); add_steps s z) =
  let n := 1 + (if c then x else 0) + (if d then y else 0) + z in if 2 ^ 64 <=? n then None else Some n.
Proof.
  intros. cbv zeta.
  destruct c, d; rewrite ?add_steps_spec by lia;
    repeat (cbn [mbind option_bind]; first
      [ rewrite add_steps_spec by lia
      | match goal with |- context [if ?a <=? ?b then _ else _] => destruct (Z.leb_spec a b) end
      | done | lia ]); f_equal; lia.
Qed.

Lemma charge_steps_wp b p l r :
  ledger_ok b -> value_ok l -> maybe_ok value_ok r ->
  let c := charge_amount (eval_steps (p_op p) l r) in
  wp (charge_steps p l r)
    (fun _ s => statement_active b = true /\ fits b c /\ exists b', s = Some b' /\ charged b c b' /\ ledger_ok b')
    (fun f s => s = Some b /\ (statement_active b = true -> ~ fits b c)) (Some b).
Proof.
  intros Hb Hl Hr c. unfold charge_steps. cbv zeta.
  destruct (value_ok_view l Hl) as [Hsl _].
  assert (0 <= blob_size (match r with Some r => bytes_of r | None => mk_blob None 0 end) < 2 ^ 63) as Hsr.
  { destruct r as [r|]; [|cbn; lia]. by destruct (value_ok_view r Hr). }
  rewrite add_steps_chain; [|lia|lia|repeat case_match; lia]. cbv zeta.
  match goal with |- wp (match (if _ <=? ?e then _ else _) with _ => _ end) _ _ _ =>
    replace e with (eval_steps (p_op p) l r) end.
  2:{ unfold eval_steps, text_size. destruct r; cbn [maybe is_some andb]; repeat case_match; bsimp; lia. }
  destruct (Z.leb_spec (2 ^ 64) (eval_steps (p_op p) l r)) as [Hbig|Hsmall].
  - tdb_step. split; [done|]. intros _ Hf%fits_steps_small; [lia|done].
  - apply charge_wp; [done|]. split; [|done]. unfold eval_steps, text_size.
    destruct r; repeat case_match; lia.
Qed.

Section Eval.
Context (vstr_utf8_valid : bytes -> bool).

(** A text is empty or valid UTF-8. *)
Definition utf8_ok (v : turbodb_value_t) : bool :=
  match tv_data v with
  | TURBODB_VALUE_TEXT t => (vs_len t =? 0) || vstr_utf8_valid (content v)
  | _ => true
  end.

Lemma valid_text_spec v t :
  value_ok v -> valid_value v t = true -> valid_text vstr_utf8_valid v = Some (utf8_ok v).
Proof.
  intros Hok Hv. unfold valid_text, utf8_ok, content.
  pose proof (blob_bytes_present _ (value_ok_view v Hok) (valid_value_present v t Hv)) as (x & E & _).
  destruct (tv_data v); try done. case_match; [done|]. by rewrite E.
Qed.

Lemma valid_texts_spec l r tl tr :
  value_ok l -> maybe_ok value_ok r -> valid_value l tl = true -> maybe (fun r => valid_value r tr) r true = true ->
  valid_texts vstr_utf8_valid l r = Some (utf8_ok l && maybe utf8_ok r true).
Proof.
  intros Hl Hr Hvl Hvr. unfold valid_texts. rewrite (valid_text_spec l tl) by done. cbn.
  destruct (utf8_ok l); [|done]. destruct r; [|done]. by eapply valid_text_spec.
Qed.

Lemma truth_null v t : value_ok v -> valid_value v t = true -> boolean_type (ty_kind t) = true ->
  truth v = None -> is_null v = true.
Proof.
  intros ? ? ? Hn. destruct (boolean_operand v t) as [[? ?]|(b & E & _)]; [done..|].
  unfold truth in Hn. by rewrite E in Hn.
Qed.

Lemma null_nullable v t : valid_value v t = true -> is_null v = true -> ty_nullable t = true.
Proof. unfold valid_value, is_null. intros Hv Hn. rewrite Hn in Hv. by destruct (tv_reserved v =? 0). Qed.

(** The result has the type the bind announced. *)
Lemma result_typed op tl right p l r :
  bound op tl right p -> is_some r = is_some right -> value_ok l -> maybe_ok value_ok r ->
  valid_value l (p_left p) = true -> maybe (fun r => valid_value r (p_right p)) r true = true ->
  valid_value (truth_value (sql_predicate op l (default turbodb_null r))) (p_result p) = true.
Proof.
  intros Hb Hs Hl Hr Hvl Hvr. rewrite (bd_result _ _ _ _ Hb).
  rewrite (bd_left _ _ _ _ Hb) in Hvl. rewrite (bd_right _ _ _ _ Hb) in Hvr.
  destruct (sql_predicate _ _ _) as [[]|] eqn:E; [done..|]. cbn.
  assert (is_null l = true \/ exists r', r = Some r' /\ is_null r' = true) as Hnull.
  { pose proof (bd_logic _ _ _ _ Hb) as Hlog. unfold sql_predicate in E.
    destruct (op =? ORM_SQL_IS_NULL) eqn:E1; [done|]. destruct (op =? ORM_SQL_IS_NOT_NULL) eqn:E2; [done|].
    destruct (op =? ORM_SQL_NOT) eqn:E3.
    { left. destruct Hlog; [done|]. apply (truth_null l tl); try done. by destruct (truth l) as [[]|]. }
    destruct r as [r|]; destruct right as [tr|]; try done; cbn in *.
    - destruct (op =? ORM_SQL_AND) eqn:E4; [|destruct (op =? ORM_SQL_OR) eqn:E5].
      1,2: destruct Hlog as [? ?]; [done|]; destruct (truth l) as [[]|] eqn:Tl, (truth r) as [[]|] eqn:Tr;
        first [done|left; by apply (truth_null l tl)|right; exists r; split; [done|by apply (truth_null r tr)]].
      destruct (op =? ORM_SQL_NULL_SAFE_EQUAL) eqn:E6; [done|].
      destruct (is_null l) eqn:Hn; [by left|]. right. exists r. split; [done|]. by destruct (is_null r).
    - pose proof (bd_arity _ _ _ _ Hb) as Hu. unfold unary in Hu. by rewrite E1, E2, E3 in Hu. }
  unfold sql_predicate in E.
  destruct (op =? ORM_SQL_IS_NULL) eqn:E1; [done|]. destruct (op =? ORM_SQL_IS_NOT_NULL) eqn:E2; [done|].
  assert ((op =? ORM_SQL_NULL_SAFE_EQUAL) = false) as E6.
  { destruct (Z.eqb_spec op ORM_SQL_NULL_SAFE_EQUAL) as [->|]; [done|done]. }
  rewrite E6. cbn. destruct Hnull as [Hn|(r' & -> & Hn)].
  - by rewrite (null_nullable l tl).
  - destruct right as [tr|]; [|done]. cbn in *. rewrite (null_nullable r' tr) by done. apply orb_true_r.
Qed.

Lemma predicate_eval_wp op tl right p b l r :
  ledger_ok b -> bound op tl right p -> is_some r = is_some right -> value_ok l -> maybe_ok value_ok r ->
  let valid := valid_value l tl && maybe (fun r => valid_value r (p_right p)) r true in
  let utf8 := utf8_ok l && maybe utf8_ok r true in
  let c := charge_amount (eval_steps op l r) in
  wp (orm_tidesdb_sql_predicate_eval vstr_utf8_valid (Some p) (Some l) r true)
    (fun v s => valid = true /\ utf8 = true /\ statement_active b = true /\ fits b c /\
      (exists b', s = Some b' /\ charged b c b' /\ ledger_ok b') /\
      v = truth_value (sql_predicate op l (default turbodb_null r)) /\
      valid_value v (p_result p) = true)
    (fun f s => (s = Some b /\ (valid = false \/ statement_active b = false \/ ~ fits b c)) \/
      (valid = true /\ utf8 = false /\ f_status f = TURBODB_STATUS_TYPE_ERROR /\
       exists b', s = Some b' /\ charged b c b' /\ ledger_ok b'))
    (Some b).
Proof.
  intros Hb Hbd Hs Hl Hr valid utf8 c.
  pose proof (bd_left _ _ _ _ Hbd) as Hpl. pose proof (bd_op _ _ _ _ Hbd) as Hop.
  unfold orm_tidesdb_sql_predicate_eval. rewrite (bd_p_op _ _ _ _ Hbd), (bd_arity _ _ _ _ Hbd), Hs, Hpl.
  tdb_step. tdb_step. cbn [is_some negb orb]. tdb_step. tdb_step.
  { by destruct right. }
  do 2 tdb_step. { bsimp. lia. }
  assert (valid = negb (negb (valid_value l tl) || maybe (fun r => negb (valid_value r (p_right p))) r false)) as Ev.
  { unfold valid. rewrite negb_orb, negb_involutive. f_equal. destruct r; cbn; by rewrite ?negb_involutive. }
  do 2 tdb_step.
  { left. split; [done|left]. rewrite Ev. by apply negb_false_iff. }
  assert (valid = true) as Hv by (rewrite Ev; by apply negb_true_iff).
  pose proof Hv as [Hvl Hvr]%andb_true_iff.
  pose proof (charge_steps_wp b p l r Hb Hl Hr) as Hcharge. cbv zeta in Hcharge. rewrite (bd_p_op _ _ _ _ Hbd) in Hcharge.
  fold c in Hcharge. tdb_step. eapply wp_mono; [exact Hcharge| |].
  2:{ intros f s [-> Hf]. left. split; [done|]. right. destruct (statement_active b); [right; by apply Hf|by left]. }
  intros _ s (Ha & Hf & b' & -> & Hch & Hok').
  tdb_step. rewrite (valid_texts_spec l r tl (p_right p)) by done. apply wp_access; [done|]. intros u [= <-].
  tdb_step. tdb_step.
  { right. split_and!; [done|by apply negb_true_iff|done|by exists b']. }
  rewrite (evaluate_spec op tl right) by (rewrite ?Hpl; done). apply wp_access; [done|]. intros v [= <-].
  split_and!; [done|by apply negb_false_iff|done..|by exists b'|done|]. by apply (result_typed _ tl right); rewrite ?Hpl.
Qed.
(** C5. Evaluating a predicate that was bound for two types, on every branch. It
    never reads outside its operands. It succeeds exactly when the values have
    these types, the texts are valid UTF-8 and the ledger admits one step plus
    the bytes to validate and compare, which is what is then charged. The result
    is what SQL says of the two values: Kleene's three-valued logic for NOT, AND
    and OR; UNKNOWN for a comparison with NULL except NULL-safe equality; two
    integers compared exactly across signedness; two numbers one of which is a
    double compared as doubles, an integer being rounded to the nearest double;
    booleans by value, texts and blobs as byte strings. It is a boolean, NULL
    only where an operand may be NULL and the operation lets it through. A
    failure leaves the ledger as it was, but for invalid UTF-8, which is found
    after the charge. *)
Theorem predicate_eval_exact op tl right p b l r :
  reachable b -> orm_tidesdb_sql_predicate_bind op tl right true tt = (Ret p, tt) ->
  is_some r = is_some right -> value_ok l -> maybe_ok value_ok r ->
  let valid := valid_value l tl && maybe (fun r => valid_value r (default (mk_type KIND_NULL true) right)) r true in
  let utf8 := utf8_ok l && maybe utf8_ok r true in
  let c := charge_amount (eval_steps op l r) in
  let nullable := negb (op =? ORM_SQL_NULL_SAFE_EQUAL) && negb (op =? ORM_SQL_IS_NULL) &&
    negb (op =? ORM_SQL_IS_NOT_NULL) && (ty_nullable tl || maybe ty_nullable right false) in
  p_result p = mk_type KIND_BOOLEAN nullable /\
  match orm_tidesdb_sql_predicate_eval vstr_utf8_valid (Some p) (Some l) r true (Some b) with
  | (Ret v, s) => valid = true /\ utf8 = true /\ statement_active b = true /\ fits b c /\
      (exists b', s = Some b' /\ charged b c b') /\
      v = truth_value (sql_predicate op l (default turbodb_null r)) /\
      valid_value v (mk_type KIND_BOOLEAN nullable) = true
  | (Err f, s) =>
      (s = Some b /\ (valid = false \/ statement_active b = false \/ ~ fits b c)) \/
      (valid = true /\ utf8 = false /\ f_status f = TURBODB_STATUS_TYPE_ERROR /\ exists b', s = Some b' /\ charged b c b')
  | (Fault, _) => False
  end.
Proof.
  intros Hb%reachable_ledger_ok [Hbd _]%bind_bound Hs Hl Hr. cbv zeta.
  rewrite <- (bd_result _ _ _ _ Hbd), <- (bd_right _ _ _ _ Hbd). split; [done|].
  pose proof (predicate_eval_wp op tl right p b l r Hb Hbd Hs Hl Hr) as Hw. unfold wp in Hw.
  destruct (orm_tidesdb_sql_predicate_eval _ _ _ _ _ _) as [[v|f|] s]; [| |done].
  - destruct Hw as (? & ? & ? & ? & (b' & -> & ? & _) & ? & ?). split_and!; [done..|by exists b'|done|done].
  - destruct Hw as [?|(? & ? & ? & b' & -> & ? & _)]; [by left|right]. split_and!; [done..|by exists b'].
Qed.
End Eval.

(** ** Witnesses *)

Definition sample_predicate : orm_sql_predicate :=
  mk_predicate ORM_SQL_LESS (mk_type KIND_INT64 true) (mk_type KIND_UINT64 false) (mk_type KIND_BOOLEAN true) false.

Lemma predicate_eval_exact_witness :
  fst (orm_tidesdb_sql_predicate_eval (fun _ => true) (Some sample_predicate) (Some (turbodb_i64 (-1)))
    (Some (turbodb_u64 (2 ^ 64 - 1))) true (Some (sample_after [Op_begin]))) = Ret (c_bool true) /\
  fits (sample_after [Op_begin]) (charge_amount 1).
Proof.
  split; [vm_compute; reflexivity|].
  pose proof (predicate_eval_exact (fun _ => true) ORM_SQL_LESS (mk_type KIND_INT64 true)
    (Some (mk_type KIND_UINT64 false)) sample_predicate (sample_after [Op_begin]) (turbodb_i64 (-1))
    (Some (turbodb_u64 (2 ^ 64 - 1))) sample_begun eq_refl eq_refl) as H.
  specialize (H ltac:(unfold value_ok; cbn; lia) ltac:(unfold value_ok; cbn; lia)). cbv zeta in H.
  destruct H as [_ H]. match type of H with match ?t with _ => _ end =>
    assert (exists s, t = (Ret (c_bool true), s)) as [s E] by (eexists; vm_compute; reflexivity)
  end.
  rewrite E in H. exact (proj1 (proj2 (proj2 (proj2 H)))).
Defined.
