(* ===== verification/IndexKey.v ===== *)
(** * Index keys (tidessql/src/index_key.c, index.h, wire.h)

    The tuple codec of secondary indexes: a key part is a NULL marker and an
    ordered 64-bit payload, complemented for a descending part, so that memcmp
    on keys is the SQL order on tuples. *)

From S2P Require Import Prelude Row Command Errors Budget Float Value.

(** ** Ordered words (wire.h) *)

Definition ORM_SQL_WIRE_U32 : nat := 4.
Definition ORM_SQL_WIRE_U64 : nat := 8.
Definition ORM_SQL_WIRE_BITS : Z := 8.

(** The loop from the last byte to the first. *)
Fixpoint order_write_loop (i : nat) (value : Z) (data : bytes) : bytes :=
  match i with
  | O => data
  | S i => order_write_loop i (Z.shiftr value ORM_SQL_WIRE_BITS) (u8 value :: data)
  end.

Definition orm_sql_wire_order_write (value : Z) : bytes := order_write_loop ORM_SQL_WIRE_U64 value [].

Definition orm_sql_wire_order_read (data : bytes) : Z :=
  fold_left (fun value b => Z.lor (u64 (Z.shiftl value ORM_SQL_WIRE_BITS)) b) data 0.

Definition WIRE_SIGN : Z := Z.shiftl 1 (Z.of_nat ORM_SQL_WIRE_U64 * ORM_SQL_WIRE_BITS - 1).

Definition not_u64 (word : Z) : Z := u64 (Z.lnot word).
Definition not_u8 (b : Z) : Z := u8 (Z.lnot b).

Definition orm_sql_wire_signed_order (value : Z) : Z := Z.lxor (u64 value) WIRE_SIGN.

Definition orm_sql_wire_order_signed (value : Z) : Z :=
  if negb (Z.land value WIRE_SIGN =? 0) then Z.lxor value WIRE_SIGN else - 2 ^ 63 + value.

Definition orm_sql_wire_double_order (value : Z) : Z :=
  let bits := if double_eq value 0 then 0 else value in
  if negb (Z.land bits WIRE_SIGN =? 0) then not_u64 bits else Z.lxor bits WIRE_SIGN.

Definition orm_sql_wire_order_double (word : Z) : Z :=
  if negb (Z.land word WIRE_SIGN =? 0) then Z.lxor word WIRE_SIGN else not_u64 word.

(** ** Definitions of indexes (index.h) *)

Record orm_sql_index_part : Type := mk_part {
  ip_column : Z;
  ip_type : orm_sql_type;
  ip_descending : bool
}.

(** [id_parts] is [None] before the vector is initialized. The budget pointer
    is the state of the operations. *)
Record orm_sql_index_definition : Type := mk_definition {
  id_parts : option (list orm_sql_index_part);
  id_part_bytes : Z;
  id_metadata_bytes : Z;
  id_source_offset : Z;
  id_name : bytes;
  id_table : bytes;
  id_unique : bool;
  id_generated_name : bool
}.

(** ** The codec *)

Definition INDEX_KEY_MARKER : Z := 1.
Definition INDEX_KEY_CELL : Z := INDEX_KEY_MARKER + Z.of_nat ORM_SQL_WIRE_U64.
Definition INDEX_KEY_NULL : Z := 0.
Definition INDEX_KEY_VALUE : Z := 1.
Definition INDEX_KEY_PASSES : Z := 2.

(** The parts of a definition the operations accept. *)
Definition bound_parts (definition : ptr orm_sql_index_definition) : option (list orm_sql_index_part) :=
  match definition with
  | Some d => match id_parts d with Some (part :: parts) => Some (part :: parts) | _ => None end
  | None => None
  end.

(** The number of bytes of a key, with the parts it is made of. *)
Definition orm_tidesdb_sql_index_key_size (definition : ptr orm_sql_index_definition) (wants : bool)
    : B (list orm_sql_index_part * Z) :=
  budget ← gets is_some;
  match bound_parts definition with
  | Some parts =>
      raise_if (negb budget || negb wants) TURBODB_STATUS_INVALID_ARGUMENT
        "SQL index key requires a bound definition and size output";;
      raise_if (SIZE_MAX / INDEX_KEY_CELL <? len parts) TURBODB_STATUS_LIMIT_EXCEEDED "SQL index key size overflow";;
      mret (parts, u64 (len parts * INDEX_KEY_CELL))
  | None => raise TURBODB_STATUS_INVALID_ARGUMENT "SQL index key requires a bound definition and size output"
  end.

Definition index_key_charge (size : Z) : B unit :=
  raise_if (UINT64_MAX / INDEX_KEY_PASSES <? size) TURBODB_STATUS_LIMIT_EXCEEDED
    "SQL index key step capacity overflow";;
  orm_tidesdb_sql_budget_reserve (Some (charge_amount (u64 (size * INDEX_KEY_PASSES)))).

Definition index_key_type (part : orm_sql_index_part) : B unit :=
  raise_if (negb (ty_kind (ip_type part) =? KIND_INT64) && negb (ty_kind (ip_type part) =? KIND_UINT64) &&
      negb (ty_kind (ip_type part) =? KIND_DOUBLE))
    TURBODB_STATUS_INVALID_ARGUMENT "SQL index key requires a bound numeric type".

Section Validate.
Context (vstr_utf8_valid : bytes -> bool).

Definition index_key_validate (part : orm_sql_index_part) (row : list turbodb_value_t) (count : Z) : B unit :=
  index_key_type part;;
  raise_if (count <=? ip_column part) TURBODB_STATUS_INVALID_ARGUMENT
    "SQL index key column is outside the input row";;
  predicate ← orm_tidesdb_sql_predicate_bind ORM_SQL_IS_NULL (ip_type part) None true;
  value ← access (row !! Z.to_nat (ip_column part));
  orm_tidesdb_sql_predicate_eval vstr_utf8_valid (Some predicate) (Some value) None true;;
  mret tt.

(** The first loop: whether a NULL was seen. *)
Fixpoint index_key_validate_all (parts : list orm_sql_index_part) (row : list turbodb_value_t) (count : Z)
    (null : bool) : B bool :=
  match parts with
  | [] => mret null
  | part :: parts =>
      index_key_validate part row count;;
      value ← access (row !! Z.to_nat (ip_column part));
      index_key_validate_all parts row count (null || (value_kind value =? KIND_NULL))
  end.
End Validate.

(** The nine bytes of a part; another kind of value is not defined. *)
Definition index_key_word (value : turbodb_value_t) : option Z :=
  match tv_data value with
  | TURBODB_VALUE_NULL => Some 0
  | TURBODB_VALUE_INT64 z => Some (orm_sql_wire_signed_order z)
  | TURBODB_VALUE_DOUBLE d => Some (orm_sql_wire_double_order d)
  | TURBODB_VALUE_UINT64 z => Some z
  | _ => None
  end.

Definition index_key_write (part : orm_sql_index_part) (value : turbodb_value_t) : option bytes :=
  let null := value_kind value =? KIND_NULL in
  word ← index_key_word value;
  let out := (if null then INDEX_KEY_NULL else INDEX_KEY_VALUE) :: orm_sql_wire_order_write word in
  Some (if ip_descending part then map not_u8 out else out).

(** The second loop, from part [i]. *)
Fixpoint index_key_write_all (parts : list orm_sql_index_part) (row : list turbodb_value_t) (out : bytes) (i : Z)
    : option bytes :=
  match parts with
  | [] => Some out
  | part :: parts =>
      value ← row !! Z.to_nat (ip_column part);
      cell ← index_key_write part value;
      out ← stn out (i * INDEX_KEY_CELL) cell;
      index_key_write_all parts row out (i + 1)
  end.

(** The result is the output buffer and contains_null. *)
Definition orm_tidesdb_sql_index_key_encode (vstr_utf8_valid : bytes -> bool) (definition : ptr orm_sql_index_definition)
    (row : ptr (list turbodb_value_t)) (count : Z) (out : ptr bytes) (capacity : Z) (wants : bool) : B (bytes * bool) :=
  match row, out with
  | Some row, Some out =>
      raise_if (negb wants) TURBODB_STATUS_INVALID_ARGUMENT "SQL index key encoding requires input and outputs";;
      '(parts, size) ← orm_tidesdb_sql_index_key_size definition true;
      raise_if (capacity <? size) TURBODB_STATUS_LIMIT_EXCEEDED "SQL index key output capacity exceeded";;
      index_key_charge size;;
      null ← index_key_validate_all vstr_utf8_valid parts row count false;
      out' ← access (index_key_write_all parts row out 0);
      mret (out', null)
  | _, _ => raise TURBODB_STATUS_INVALID_ARGUMENT "SQL index key encoding requires input and outputs"
  end.

(** The nine bytes of part [i] of a key. *)
Definition cell_at (data : bytes) (i : Z) : option bytes := ldn data (i * INDEX_KEY_CELL) INDEX_KEY_CELL.

Definition cell_marker (cell : bytes) : Z := hd 0 cell.
Definition cell_word (part : orm_sql_index_part) (cell : bytes) : Z :=
  let word := orm_sql_wire_order_read (tl cell) in
  if ip_descending part then not_u64 word else word.

Definition index_key_read (part : orm_sql_index_part) (cell : bytes) : turbodb_value_t :=
  if cell_marker cell =? (if ip_descending part then not_u8 INDEX_KEY_NULL else INDEX_KEY_NULL) then turbodb_null
  else
    let word := cell_word part cell in
    if ty_kind (ip_type part) =? KIND_DOUBLE then turbodb_f64 (orm_sql_wire_order_double word)
    else if ty_kind (ip_type part) =? KIND_INT64 then turbodb_i64 (orm_sql_wire_order_signed word)
    else turbodb_u64 word.

(** The result says whether the part is NULL. *)
Definition index_key_check_cell (part : orm_sql_index_part) (cell : bytes) : B bool :=
  index_key_type part;;
  let marker := if ip_descending part then not_u8 (cell_marker cell) else cell_marker cell in
  let word := cell_word part cell in
  raise_if (negb (marker =? INDEX_KEY_NULL) && negb (marker =? INDEX_KEY_VALUE)) TURBODB_STATUS_DATASTORE_ERROR
    "SQL index key has an invalid NULL marker";;
  if marker =? INDEX_KEY_NULL then
    raise_if (negb (ty_nullable (ip_type part)) || negb (word =? 0)) TURBODB_STATUS_DATASTORE_ERROR
      "SQL index key has an invalid NULL payload or nullability";;
    mret true
  else if ty_kind (ip_type part) =? KIND_DOUBLE then
    let value := orm_sql_wire_order_double word in
    raise_if (negb (isfinite value) || (double_eq value 0 && negb (word =? WIRE_SIGN))) TURBODB_STATUS_DATASTORE_ERROR
      "SQL index key has a nonfinite or noncanonical DOUBLE payload";;
    mret false
  else mret false.

Fixpoint index_key_check_all (parts : list orm_sql_index_part) (data : bytes) (i : Z) (null : bool) : B bool :=
  match parts with
  | [] => mret null
  | part :: parts =>
      cell ← access (cell_at data i);
      n ← index_key_check_cell part cell;
      index_key_check_all parts data (i + 1) (null || n)
  end.

Fixpoint index_key_read_all (parts : list orm_sql_index_part) (data : bytes) (out : list turbodb_value_t) (i : nat)
    : option (list turbodb_value_t) :=
  match parts with
  | [] => Some out
  | part :: parts =>
      cell ← cell_at data (Z.of_nat i);
      if (i <? length out)%nat then index_key_read_all parts data (<[i := index_key_read part cell]> out) (S i) else None
  end.

Definition orm_tidesdb_sql_index_key_decode (definition : ptr orm_sql_index_definition) (data : ptr bytes) (size : Z)
    (out : ptr (list turbodb_value_t)) (capacity : Z) (wants : bool) : B (list turbodb_value_t * bool) :=
  match data, out with
  | Some data, Some out =>
      raise_if (negb wants) TURBODB_STATUS_INVALID_ARGUMENT "SQL index key decoding requires input and outputs";;
      '(parts, expected) ← orm_tidesdb_sql_index_key_size definition true;
      raise_if (negb (size =? expected)) TURBODB_STATUS_DATASTORE_ERROR
        "SQL index key length does not match its definition";;
      raise_if (capacity <? len parts) TURBODB_STATUS_LIMIT_EXCEEDED "SQL index key value output capacity exceeded";;
      index_key_charge size;;
      null ← index_key_check_all parts data 0 false;
      values ← access (index_key_read_all parts data out 0);
      mret (values, null)
  | _, _ => raise TURBODB_STATUS_INVALID_ARGUMENT "SQL index key decoding requires input and outputs"
  end.

(** ** Words *)

Lemma WIRE_SIGN_pow : WIRE_SIGN = 2 ^ 63.
Proof. done. Qed.

Lemma testbit_sign x : 0 <= x < 2 ^ 64 -> Z.testbit x 63 = (2 ^ 63 <=? x).
Proof.
  intros Hx. rewrite Z.testbit_eqb by lia.
  assert (x / 2 ^ 63 = if 2 ^ 63 <=? x then 1 else 0) as ->.
  { case_match; bsimp; [symmetry; apply (Z.div_unique x (2 ^ 63) 1 (x - 2 ^ 63)); lia|apply Z.div_small; lia]. }
  by case_match.
Qed.

Lemma sign_bit_land x : 0 <= x < 2 ^ 64 -> (Z.land x WIRE_SIGN =? 0) = (x <? 2 ^ 63).
Proof.
  intros Hx. rewrite WIRE_SIGN_pow, land_pow2, testbit_sign by lia.
  destruct (Z.leb_spec (2 ^ 63) x), (Z.ltb_spec x (2 ^ 63)); try lia; done.
Qed.

Lemma lxor_sign x : 0 <= x < 2 ^ 64 -> Z.lxor x WIRE_SIGN = if x <? 2 ^ 63 then x + 2 ^ 63 else x - 2 ^ 63.
Proof.
  intros Hx. rewrite WIRE_SIGN_pow.
  assert (forall y, 0 <= y < 2 ^ 63 -> Z.lxor y (2 ^ 63) = y + 2 ^ 63) as Hlow.
  { intros y Hy. symmetry. apply Z.add_nocarry_lxor. rewrite land_pow2, testbit_sign by lia.
    by rewrite (proj2 (Z.leb_gt _ _)) by lia. }
  case_match; bsimp; [by apply Hlow; lia|].
  replace x with (x - 2 ^ 63 + 2 ^ 63) at 1 by lia. rewrite <- Hlow by lia.
  by rewrite Z.lxor_assoc, Z.lxor_nilpotent, Z.lxor_0_r.
Qed.

Lemma not_u64_spec x : 0 <= x < 2 ^ 64 -> not_u64 x = 2 ^ 64 - 1 - x.
Proof.
  intros. unfold not_u64, u64, Z.lnot. symmetry. apply (Z.mod_unique _ _ (-1)); [left; lia|]. lia.
Qed.

Lemma not_u8_spec b : 0 <= b < 256 -> not_u8 b = 255 - b.
Proof.
  intros. unfold not_u8, u8, Z.lnot. symmetry. apply (Z.mod_unique _ _ (-1)); [left; lia|]. lia.
Qed.

Lemma signed_order_spec z : - 2 ^ 63 <= z < 2 ^ 63 -> orm_sql_wire_signed_order z = z + 2 ^ 63.
Proof.
  intros Hz. unfold orm_sql_wire_signed_order. rewrite lxor_sign by apply u64_range. unfold u64.
  destruct (Z.leb_spec 0 z).
  - rewrite Z.mod_small by lia. by rewrite (proj2 (Z.ltb_lt _ _)) by lia.
  - replace (z mod 2 ^ 64) with (z + 2 ^ 64) by (apply (Z.mod_unique _ _ (-1)); lia).
    rewrite (proj2 (Z.ltb_ge _ _)) by lia. lia.
Qed.

Lemma order_signed_spec w : 0 <= w < 2 ^ 64 -> orm_sql_wire_order_signed w = w - 2 ^ 63.
Proof.
  intros Hw. unfold orm_sql_wire_order_signed. rewrite sign_bit_land, lxor_sign by done.
  destruct (w <? 2 ^ 63); cbn [negb]; lia.
Qed.

(** Negative zero is stored as positive zero. *)
Definition canonical (d : Z) : Z := if double_eq d 0 then 0 else d.

(** The word of a pattern, increasing with the number. *)
Definition ordered_pattern (d : Z) : Z := if SIGN <=? d then 2 ^ 64 - 1 - d else d + 2 ^ 63.

Lemma canonical_range d : 0 <= d < 2 ^ 64 -> 0 <= canonical d < 2 ^ 64.
Proof. unfold canonical. case_match; lia. Qed.

Lemma double_order_spec d :
  0 <= d < 2 ^ 64 -> orm_sql_wire_double_order d = ordered_pattern (canonical d).
Proof.
  intros Hd%canonical_range. unfold orm_sql_wire_double_order, ordered_pattern. fold (canonical d).
  change SIGN with (2 ^ 63). rewrite sign_bit_land, lxor_sign, not_u64_spec by done.
  destruct (Z.ltb_spec (canonical d) (2 ^ 63)), (Z.leb_spec (2 ^ 63) (canonical d)); cbn [negb]; lia.
Qed.

Lemma ordered_pattern_range d : 0 <= d < 2 ^ 64 -> 0 <= ordered_pattern d < 2 ^ 64.
Proof. unfold ordered_pattern, SIGN. intros. case_match; bsimp; lia. Qed.

Lemma order_double_spec d : 0 <= d < 2 ^ 64 -> orm_sql_wire_order_double (ordered_pattern d) = d.
Proof.
  intros Hd. pose proof (ordered_pattern_range d Hd). unfold orm_sql_wire_order_double.
  rewrite sign_bit_land, lxor_sign, not_u64_spec by done. unfold ordered_pattern, SIGN in *.
  destruct (Z.leb_spec (2 ^ 63) d).
  - rewrite (proj2 (Z.ltb_lt _ _)) by lia. cbn [negb]. lia.
  - rewrite (proj2 (Z.ltb_ge _ _)) by lia. cbn [negb]. lia.
Qed.

Lemma order_double_inverse w :
  0 <= w < 2 ^ 64 ->
  0 <= orm_sql_wire_order_double w < 2 ^ 64 /\ ordered_pattern (orm_sql_wire_order_double w) = w.
Proof.
  intros Hw. unfold orm_sql_wire_order_double. rewrite sign_bit_land, lxor_sign, not_u64_spec by done.
  unfold ordered_pattern, SIGN. destruct (Z.ltb_spec w (2 ^ 63)); cbn [negb].
  - split; [lia|]. rewrite (proj2 (Z.leb_le _ _)) by lia. lia.
  - split; [lia|]. rewrite (proj2 (Z.leb_gt _ _)) by lia. lia.
Qed.

Lemma canonical_scaled d : 0 <= d < 2 ^ 64 -> double_scaled (canonical d) = double_scaled d.
Proof.
  intros Hd. unfold canonical, double_eq. destruct (isnan d); [done|]. cbn [negb andb].
  change (isnan 0) with false. cbn [negb andb]. case_match; bsimp; [congruence|done].
Qed.

(** A negative canonical pattern is the pattern of a negative number. *)
Lemma canonical_negative d :
  0 <= d < 2 ^ 64 -> isfinite d = true -> SIGN <= canonical d -> 0 < double_magnitude (canonical d).
Proof.
  intros Hd Hf. pose proof (finite_not_nan d Hd Hf) as Hn. unfold canonical, double_eq.
  rewrite Hn. change (isnan 0) with false. cbn [negb andb].
  destruct (Z.eqb_spec (double_scaled d) (double_scaled 0)) as [E|E]; [unfold SIGN; lia|].
  intros _. change (double_scaled 0) with 0 in E. pose proof (double_magnitude_range d Hd).
  assert (double_magnitude d <> 0) by (intros Hz; apply E; by apply double_scaled_zero). lia.
Qed.

Lemma ordered_pattern_compare d e :
  0 <= d < 2 ^ 64 -> 0 <= e < 2 ^ 64 -> isfinite d = true -> isfinite e = true ->
  (ordered_pattern (canonical d) ?= ordered_pattern (canonical e)) = (double_scaled d ?= double_scaled e).
Proof.
  intros Hd He Fd Fe. rewrite <- (canonical_scaled d), <- (canonical_scaled e) by done.
  pose proof (canonical_negative d Hd Fd) as Nd. pose proof (canonical_negative e He Fe) as Ne.
  pose proof (canonical_range d Hd) as Rd. pose proof (canonical_range e He) as Re.
  revert Nd Ne Rd Re. generalize (canonical d) (canonical e). clear. intros d e Nd Ne Rd Re.
  unfold ordered_pattern, double_scaled, double_magnitude, double_negative in *.
  destruct (Z.leb_spec SIGN d) as [Hd|Hd], (Z.leb_spec SIGN e) as [He|He]; unfold SIGN in *.
  - rewrite Z.compare_opp, magnitude_scaled_compare by lia.
    destruct (Z.compare_spec (e - 2 ^ 63) (d - 2 ^ 63)), (Z.compare_spec (2 ^ 64 - 1 - d) (2 ^ 64 - 1 - e)); lia || done.
  - pose proof (magnitude_scaled_pos (d - 2 ^ 63) ltac:(lia)). pose proof (magnitude_scaled_nonneg e ltac:(lia)).
    rewrite !(proj2 (Z.compare_lt_iff _ _)) by lia. done.
  - pose proof (magnitude_scaled_pos (e - 2 ^ 63) ltac:(lia)). pose proof (magnitude_scaled_nonneg d ltac:(lia)).
    rewrite !(proj2 (Z.compare_gt_iff _ _)) by lia. done.
  - rewrite magnitude_scaled_compare by lia.
    destruct (Z.compare_spec d e), (Z.compare_spec (d + 2 ^ 63) (e + 2 ^ 63)); lia || done.
Qed.

(** ** Bytes of a word *)

Definition be_bytes (word : Z) : bytes := reverse (le_bytes ORM_SQL_WIRE_U64 word).

Lemma order_write_loop_spec n v data : order_write_loop n v data = reverse (le_bytes n v) ++ data.
Proof.
  revert v data. induction n as [|n IH]; intros v data; [done|].
  cbn [order_write_loop]. rewrite IH. unfold le_bytes at 2. fold le_bytes. rewrite reverse_cons, <- app_assoc.
  rewrite Z.shiftr_div_pow2 by done. done.
Qed.

Lemma order_write_spec v : orm_sql_wire_order_write v = be_bytes v.
Proof. unfold orm_sql_wire_order_write. rewrite order_write_loop_spec. apply app_nil_r. Qed.

Lemma order_read_le l : bytes_ok l -> (length l <= 8)%nat -> orm_sql_wire_order_read (reverse l) = le_val l.
Proof.
  unfold orm_sql_wire_order_read. induction 1 as [|b l Hb Hl IH]; cbn [length]; intros Hlen; [done|].
  rewrite reverse_cons, fold_left_app, IH by lia. cbn [fold_left le_val].
  pose proof (le_val_range l Hl).
  assert (2 ^ (8 * len l) <= 2 ^ 56) by (apply Z.pow_le_mono_r; lia).
  unfold ORM_SQL_WIRE_BITS. rewrite Z.shiftl_mul_pow2, u64_small by lia.
  rewrite <- Z.shiftl_mul_pow2, Z.lor_comm, lor_shiftl_add by lia. lia.
Qed.

Lemma order_read_be w : 0 <= w < 2 ^ 64 -> orm_sql_wire_order_read (be_bytes w) = w.
Proof.
  intros Hw. unfold be_bytes. rewrite order_read_le; [|apply le_bytes_ok|by rewrite length_le_bytes].
  rewrite le_val_bytes. by apply Z.mod_small.
Qed.

Lemma be_bytes_read l :
  bytes_ok l -> length l = 8%nat ->
  0 <= orm_sql_wire_order_read l < 2 ^ 64 /\ be_bytes (orm_sql_wire_order_read l) = l.
Proof.
  intros Hl Hlen. rewrite <- (reverse_involutive l).
  assert (bytes_ok (reverse l)) as Hr by (by apply Forall_reverse).
  rewrite order_read_le by (done || rewrite length_reverse; lia).
  pose proof (le_val_range _ Hr) as Hrange. rewrite length_reverse, Hlen in Hrange. split; [done|].
  unfold be_bytes. replace ORM_SQL_WIRE_U64 with (length (reverse l)) by (by rewrite length_reverse).
  by rewrite le_bytes_val.
Qed.

Lemma length_be_bytes w : length (be_bytes w) = 8%nat.
Proof. unfold be_bytes. by rewrite length_reverse, length_le_bytes. Qed.

Lemma be_bytes_ok w : bytes_ok (be_bytes w).
Proof. apply Forall_reverse, le_bytes_ok. Qed.

(** ** Lexicographic order *)

Definition then_compare (c d : comparison) : comparison := match c with Eq => d | _ => c end.

Lemma lex_app a b c d : length a = length b -> lex (a ++ c) (b ++ d) = then_compare (lex a b) (lex c d).
Proof.
  revert b. induction a as [|x a IH]; intros [|y b] Hl; try done. cbn. destruct (x ?= y); [|done..].
  apply IH. by injection Hl.
Qed.

Lemma lex_be n a b :
  lex (reverse (le_bytes n a)) (reverse (le_bytes n b)) = (a mod 2 ^ (8 * Z.of_nat n) ?= b mod 2 ^ (8 * Z.of_nat n)).
Proof.
  revert a b. induction n as [|n IH]; intros a b.
  { by rewrite !Z.mod_1_r. }
  unfold le_bytes. fold le_bytes. rewrite !reverse_cons.
  rewrite lex_app by (by rewrite !length_reverse, !length_le_bytes). rewrite IH. cbn [lex].
  replace (8 * Z.of_nat (S n)) with (8 + 8 * Z.of_nat n) by lia. rewrite Z.pow_add_r by lia.
  assert (0 < 2 ^ (8 * Z.of_nat n)) by (apply Z.pow_pos_nonneg; lia).
  rewrite !(Z.rem_mul_r _ (2 ^ 8)) by lia. change (2 ^ 8) with 256.
  pose proof (Z.mod_pos_bound a 256 ltac:(lia)). pose proof (Z.mod_pos_bound b 256 ltac:(lia)).
  set (p := (a / 256) mod _). set (q := (b / 256) mod _). unfold then_compare.
  destruct (Z.compare_spec p q) as [->|Hpq|Hpq].
  - destruct (Z.compare_spec (a mod 256) (b mod 256)); symmetry;
      [apply Z.compare_eq_iff|apply Z.compare_lt_iff|apply Z.compare_gt_iff]; lia.
  - symmetry. apply Z.compare_lt_iff. lia.
  - symmetry. apply Z.compare_gt_iff. lia.
Qed.

Lemma lex_be_bytes v w : 0 <= v < 2 ^ 64 -> 0 <= w < 2 ^ 64 -> lex (be_bytes v) (be_bytes w) = (v ?= w).
Proof.
  intros. unfold be_bytes. rewrite lex_be. change (2 ^ (8 * Z.of_nat ORM_SQL_WIRE_U64)) with (2 ^ 64).
  by rewrite !Z.mod_small.
Qed.

Lemma lex_complement a b :
  bytes_ok a -> bytes_ok b -> length a = length b -> lex (map not_u8 a) (map not_u8 b) = CompOpp (lex a b).
Proof.
  intros Ha. revert b. induction Ha as [|x a Hx _ IH]; intros [|y b] Hb Hl; try done.
  apply Forall_cons in Hb as [Hy Hb]. cbn [map lex]. rewrite !not_u8_spec by done.
  destruct (Z.compare_spec x y) as [->|H|H].
  - rewrite Z.compare_refl. apply IH; [done|by injection Hl].
  - by rewrite (proj2 (Z.compare_gt_iff _ _)) by lia.
  - by rewrite (proj2 (Z.compare_lt_iff _ _)) by lia.
Qed.

Lemma complement_involutive l : bytes_ok l -> map not_u8 (map not_u8 l) = l.
Proof.
  induction 1 as [|b l Hb _ IH]; [done|]. cbn. rewrite IH. f_equal. rewrite !not_u8_spec; [lia|done|].
  rewrite not_u8_spec by done. lia.
Qed.

Lemma complement_ok l : bytes_ok l -> bytes_ok (map not_u8 l).
Proof. intros _. apply Forall_map, Forall_forall. intros b _. apply u8_range. Qed.

Lemma le_val_complement l : bytes_ok l -> le_val (map not_u8 l) = 2 ^ (8 * len l) - 1 - le_val l.
Proof.
  induction 1 as [|b l Hb _ IH]; [done|]. cbn [map le_val length]. rewrite IH, not_u8_spec by done.
  replace (8 * Z.of_nat (S (length l))) with (8 + 8 * len l) by lia.
  rewrite Z.pow_add_r by lia. lia.
Qed.

Lemma order_read_complement l :
  bytes_ok l -> length l = 8%nat -> orm_sql_wire_order_read (map not_u8 l) = 2 ^ 64 - 1 - orm_sql_wire_order_read l.
Proof.
  intros Hl Hlen. rewrite <- (reverse_involutive l).
  replace (map not_u8 (reverse (reverse l))) with (reverse (map not_u8 (reverse l))) by
    (symmetry; exact (fmap_reverse not_u8 (reverse l))).
  rewrite !order_read_le; try (by apply complement_ok, Forall_reverse) || (by apply Forall_reverse) ||
    (rewrite ?length_map, length_reverse; lia).
  rewrite le_val_complement, length_reverse, Hlen by (by apply Forall_reverse). done.
Qed.

(** ** Cells *)

(** A value the column of a part may hold. *)
Record part_value (part : orm_sql_index_part) (v : turbodb_value_t) : Prop := {
  pv_ok : value_ok v;
  pv_valid : valid_value v (ip_type part) = true;
  pv_type : assignment_numeric (ty_kind (ip_type part)) = true
}.

Lemma part_value_cases part v :
  part_value part v ->
  (v = turbodb_null /\ ty_nullable (ip_type part) = true) \/
  (exists z, v = turbodb_i64 z /\ - 2 ^ 63 <= z < 2 ^ 63 /\ ty_kind (ip_type part) = KIND_INT64) \/
  (exists z, v = turbodb_u64 z /\ 0 <= z < 2 ^ 64 /\ ty_kind (ip_type part) = KIND_UINT64) \/
  (exists d, v = turbodb_f64 d /\ 0 <= d < 2 ^ 64 /\ isfinite d = true /\ ty_kind (ip_type part) = KIND_DOUBLE).
Proof.
  intros [Hok Hv Ht]. destruct v as [data reserved].
  assert (reserved = 0) as ->.
  { unfold valid_value in Hv. cbn [tv_reserved] in Hv. by destruct (Z.eqb_spec reserved 0). }
  pose proof (valid_value_kind _ _ Hv) as Hk. unfold is_null, value_kind, value_ok in *. cbn [tv_data] in *.
  destruct data as [|z|z|d|b|t|t|k]; try (specialize (Hk eq_refl); rewrite <- Hk in Ht; try done).
  - left. split; [done|]. by eapply null_nullable.
  - right; left. by exists z.
  - right; right; left. by exists z.
  - right; right; right. exists d. split_and!; try done; try apply Hok. unfold valid_value in Hv. cbn [tv_data] in Hv.
    by repeat case_match.
  - unfold KIND_NULL, KIND_BLOB, assignment_numeric, KIND_INT64, KIND_UINT64, KIND_DOUBLE in *.
    rewrite <- Hk in Ht by (apply Z.eqb_neq; lia). bsimp. lia.
Qed.

Definition word_of (v : turbodb_value_t) : Z :=
  match tv_data v with
  | TURBODB_VALUE_INT64 z => z + 2 ^ 63
  | TURBODB_VALUE_UINT64 z => z
  | TURBODB_VALUE_DOUBLE d => ordered_pattern (canonical d)
  | _ => 0
  end.

Definition marker_of (v : turbodb_value_t) : Z := if is_null v then INDEX_KEY_NULL else INDEX_KEY_VALUE.

Definition plain_cell (v : turbodb_value_t) : bytes := marker_of v :: be_bytes (word_of v).

Definition cell (part : orm_sql_index_part) (v : turbodb_value_t) : bytes :=
  if ip_descending part then map not_u8 (plain_cell v) else plain_cell v.

Lemma word_of_range part v : part_value part v -> 0 <= word_of v < 2 ^ 64.
Proof.
  intros [[-> _]|[(z & -> & ? & _)|[(z & -> & ? & _)|(d & -> & ? & _ & _)]]]%part_value_cases; cbn; try lia.
  by apply ordered_pattern_range, canonical_range.
Qed.

Lemma marker_range v : 0 <= marker_of v <= 1.
Proof. unfold marker_of, INDEX_KEY_NULL, INDEX_KEY_VALUE. destruct (is_null v); lia. Qed.

Lemma plain_cell_ok v : bytes_ok (plain_cell v).
Proof.
  apply Forall_cons_2; [|apply be_bytes_ok]. pose proof (marker_range v). lia.
Qed.

Lemma length_plain_cell v : length (plain_cell v) = 9%nat.
Proof. unfold plain_cell. cbn [length]. by rewrite length_be_bytes. Qed.

Lemma cell_ok part v : bytes_ok (cell part v) /\ length (cell part v) = 9%nat.
Proof.
  unfold cell. destruct (ip_descending part).
  - split; [apply complement_ok, plain_cell_ok|]. by rewrite length_map, length_plain_cell.
  - split; [apply plain_cell_ok|apply length_plain_cell].
Qed.

Lemma index_key_write_cell part v : part_value part v -> index_key_write part v = Some (cell part v).
Proof.
  intros Hv. unfold index_key_write. fold (is_null v).
  assert (index_key_word v = Some (word_of v)) as ->.
  { apply part_value_cases in Hv as [[-> _]|[(z & -> & ? & _)|[(z & -> & ? & _)|(d & -> & ? & _ & _)]]]; cbn; try done.
    - by rewrite signed_order_spec.
    - by rewrite double_order_spec. }
  cbn [mbind option_bind]. by rewrite order_write_spec.
Qed.

(** NULL first, then the order of the words. *)
Definition value_compare (v w : turbodb_value_t) : comparison :=
  then_compare (marker_of v ?= marker_of w) (word_of v ?= word_of w).

Definition directed (part : orm_sql_index_part) (c : comparison) : comparison :=
  if ip_descending part then CompOpp c else c.

Lemma cell_lex part v w :
  part_value part v -> part_value part w -> lex (cell part v) (cell part w) = directed part (value_compare v w).
Proof.
  intros Hv Hw. assert (lex (plain_cell v) (plain_cell w) = value_compare v w) as E.
  { unfold plain_cell, value_compare. cbn [lex].
    rewrite lex_be_bytes by (by eapply word_of_range). by destruct (marker_of v ?= marker_of w). }
  unfold cell, directed. destruct (ip_descending part); [|done].
  rewrite lex_complement by (apply plain_cell_ok || by rewrite !length_plain_cell). by rewrite E.
Qed.

Lemma order_of_compare x y : order_of (x <? y) (y <? x) = order_Z (x ?= y).
Proof. unfold order_of. destruct (Z.compare_spec x y), (Z.ltb_spec x y), (Z.ltb_spec y x); lia || done. Qed.

Lemma value_order_spec part v w :
  part_value part v -> part_value part w -> orm_sql_value_order v w = Some (order_Z (value_compare v w)).
Proof.
  intros [[-> _]|[(x & -> & Hx & Kx)|[(x & -> & Hx & Kx)|(x & -> & Hx & Fx & Kx)]]]%part_value_cases
    [[-> _]|[(y & -> & Hy & Ky)|[(y & -> & Hy & Ky)|(y & -> & Hy & Fy & Ky)]]]%part_value_cases;
    try done; try (rewrite Kx in Ky; done); unfold orm_sql_value_order, value_compare; cbn.
  - rewrite order_of_compare, !(Z.add_comm _ (2 ^ 63)), Z.add_compare_mono_l. done.
  - by rewrite order_of_compare.
  - rewrite ordered_pattern_compare by done. unfold double_lt. rewrite !finite_not_nan by done. cbn [negb andb].
    by rewrite order_of_compare.
Qed.

(** The value a key gives back. *)
Definition canonical_value (v : turbodb_value_t) : turbodb_value_t :=
  match tv_data v with
  | TURBODB_VALUE_DOUBLE d => turbodb_f64 (canonical d)
  | _ => v
  end.

Lemma cell_parts part v :
  part_value part v ->
  cell_marker (cell part v) = (if ip_descending part then 255 - marker_of v else marker_of v) /\
  cell_word part (cell part v) = word_of v.
Proof.
  intros Hv%word_of_range. unfold cell_word, cell, cell_marker. destruct (ip_descending part).
  - cbn [plain_cell map hd tl]. split.
    + apply not_u8_spec. pose proof (marker_range v). lia.
    + rewrite order_read_complement by (apply be_bytes_ok || apply length_be_bytes).
      rewrite order_read_be, not_u64_spec by lia. lia.
  - split; [done|]. by apply order_read_be.
Qed.

Lemma canonical_idempotent d : canonical (canonical d) = canonical d.
Proof. unfold canonical. destruct (double_eq d 0) eqn:E; [done|]. by rewrite E. Qed.

Lemma read_cell part v : part_value part v -> index_key_read part (cell part v) = canonical_value v.
Proof.
  intros Hv. destruct (cell_parts part v Hv) as [Em Ew]. unfold index_key_read. rewrite Em, Ew.
  rewrite not_u8_spec by (unfold INDEX_KEY_NULL; lia).
  assert (((if ip_descending part then 255 - marker_of v else marker_of v) =?
    (if ip_descending part then 255 - INDEX_KEY_NULL else INDEX_KEY_NULL)) = is_null v) as ->.
  { unfold marker_of, INDEX_KEY_NULL, INDEX_KEY_VALUE. by destruct (ip_descending part), (is_null v). }
  apply part_value_cases in Hv as [[-> _]|[(z & -> & ? & ->)|[(z & -> & ? & ->)|(d & -> & ? & _ & ->)]]]; try done;
    cbn -[Z.add Z.pow].
  - rewrite order_signed_spec by lia. f_equal. lia.
  - by rewrite order_double_spec by (by apply canonical_range).
Qed.

Lemma finite_canonical d : 0 <= d < 2 ^ 64 -> isfinite d = true -> isfinite (canonical d) = true.
Proof. unfold canonical. by case_match. Qed.

Lemma double_eq_zero d : isnan d = false -> double_eq d 0 = (double_scaled d =? 0).
Proof. intros Hn. unfold double_eq. by rewrite Hn. Qed.

(** A stored zero is the positive one. *)
Lemma canonical_zero_word d :
  0 <= d < 2 ^ 64 -> double_eq (canonical d) 0 = true -> ordered_pattern (canonical d) = WIRE_SIGN.
Proof. intros Hd. unfold canonical. destruct (double_eq d 0) eqn:E; [done|congruence]. Qed.

Lemma index_key_type_ok part s :
  assignment_numeric (ty_kind (ip_type part)) = true -> index_key_type part s = (Ret tt, s).
Proof.
  unfold assignment_numeric, index_key_type, raise_if, fail_if. intros H.
  destruct (ty_kind (ip_type part) =? KIND_INT64), (ty_kind (ip_type part) =? KIND_UINT64),
    (ty_kind (ip_type part) =? KIND_DOUBLE); done.
Qed.

Lemma check_cell_ok part v s :
  part_value part v -> index_key_check_cell part (cell part v) s = (Ret (is_null v), s).
Proof.
  intros Hv. destruct (cell_parts part v Hv) as [Em Ew]. unfold index_key_check_cell. rewrite Em, Ew.
  unfold mbind at 1, M_bind. rewrite index_key_type_ok by apply Hv.
  assert ((if ip_descending part then not_u8 (if ip_descending part then 255 - marker_of v else marker_of v)
    else if ip_descending part then 255 - marker_of v else marker_of v) = marker_of v) as ->.
  { pose proof (marker_range v). destruct (ip_descending part); [|done]. rewrite not_u8_spec; lia. }
  apply part_value_cases in Hv as [[-> Hn]|[(z & -> & ? & ->)|[(z & -> & ? & ->)|(d & -> & Hd & Hf & ->)]]]; try done.
  - cbn. by rewrite Hn.
  - pose proof (canonical_range d Hd). cbn -[Z.land double_eq isfinite].
    rewrite order_double_spec, finite_canonical by done. cbn.
    destruct (double_eq (canonical d) 0) eqn:E; [|done].
    rewrite canonical_zero_word by done. done.
Qed.

(** The checks on a cell, given its marker and its word. *)
Definition cell_checks (part : orm_sql_index_part) (marker word : Z) (n : bool) : Prop :=
  assignment_numeric (ty_kind (ip_type part)) = true /\
  if n then marker = INDEX_KEY_NULL /\ ty_nullable (ip_type part) = true /\ word = 0
  else marker = INDEX_KEY_VALUE /\
    (ty_kind (ip_type part) = KIND_DOUBLE ->
     isfinite (orm_sql_wire_order_double word) = true /\
     (double_eq (orm_sql_wire_order_double word) 0 = true -> word = WIRE_SIGN)).

Lemma check_cell_inv part c s n s' :
  index_key_check_cell part c s = (Ret n, s') ->
  s' = s /\ cell_checks part (if ip_descending part then not_u8 (cell_marker c) else cell_marker c)
    (cell_word part c) n.
Proof.
  intros E. assert (wp (index_key_check_cell part c) (fun m s1 => m = n -> s1 = s /\
    cell_checks part (if ip_descending part then not_u8 (cell_marker c) else cell_marker c) (cell_word part c) n)
    (fun _ _ => True) s) as Hw; [clear E s'|by unfold wp in Hw; rewrite E in Hw; apply Hw].
  unfold index_key_check_cell. generalize (if ip_descending part then not_u8 (cell_marker c) else cell_marker c) (cell_word part c).
  intros marker word.
  tdb_step. apply wp_raise_if; [done|]. intros Ht.
  assert (assignment_numeric (ty_kind (ip_type part)) = true) as Hnum.
  { rewrite <- !negb_orb in Ht. by apply negb_false_iff in Ht. }
  cbv zeta. tdb_step. tdb_step; [done|]. destruct (marker =? INDEX_KEY_NULL) eqn:Em.
  - do 2 (tdb_step; try done). tdb_step. intros <-. bsimp. done.
  - assert (marker = INDEX_KEY_VALUE) by (cbn [negb andb] in H; by apply negb_false_iff, Z.eqb_eq in H).
    destruct (ty_kind (ip_type part) =? KIND_DOUBLE) eqn:Ek.
    + tdb_step. apply wp_raise_if; [intros _; exact I|]. intros [Hf%negb_false_iff Hz]%orb_false_iff.
      tdb_step. intros <-. split; [reflexivity|]. split; [exact Hnum|]. split; [assumption|].
      intros _. split; [exact Hf|]. intros Hd. rewrite Hd in Hz. by apply negb_false_iff, Z.eqb_eq in Hz.
    + tdb_step. intros <-. do 3 (split; [done|]). intros Hk. by apply Z.eqb_neq in Ek.
Qed.

Definition plain_marker (part : orm_sql_index_part) (c : bytes) : Z :=
  if ip_descending part then not_u8 (cell_marker c) else cell_marker c.

(** A cell is made of its marker and its word. *)
Lemma cell_decompose part c :
  bytes_ok c -> length c = 9%nat ->
  0 <= cell_word part c < 2 ^ 64 /\
  c = (if ip_descending part then map not_u8 (plain_marker part c :: be_bytes (cell_word part c))
       else plain_marker part c :: be_bytes (cell_word part c)) /\
  (cell_marker c =? (if ip_descending part then not_u8 INDEX_KEY_NULL else INDEX_KEY_NULL)) =
    (plain_marker part c =? INDEX_KEY_NULL).
Proof.
  intros Hc Hl. destruct c as [|m l]; [done|]. apply Forall_cons in Hc as [Hm Hb]. injection Hl as Hl.
  destruct (be_bytes_read l Hb Hl) as [Hr Er].
  unfold plain_marker, cell_word. cbn [cell_marker hd tl]. destruct (ip_descending part).
  - assert (not_u64 (orm_sql_wire_order_read l) = orm_sql_wire_order_read (map not_u8 l)) as ->.
    { rewrite order_read_complement, not_u64_spec by done. done. }
    destruct (be_bytes_read (map not_u8 l)) as [Hr' ->]; [by apply complement_ok|by rewrite length_map|].
    split_and!; [lia..| |].
    + cbn [map]. rewrite complement_involutive, (not_u8_spec m), not_u8_spec by (done || lia). f_equal. lia.
    + rewrite !not_u8_spec by (unfold INDEX_KEY_NULL; lia). unfold INDEX_KEY_NULL.
      destruct (Z.eqb_spec m (255 - 0)), (Z.eqb_spec (255 - m) 0); lia || done.
  - split_and!; [lia..|by rewrite Er|done].
Qed.

Lemma checked_double w :
  0 <= w < 2 ^ 64 -> (double_eq (orm_sql_wire_order_double w) 0 = true -> w = WIRE_SIGN) ->
  ordered_pattern (canonical (orm_sql_wire_order_double w)) = w.
Proof.
  intros Hw Hz. unfold canonical. destruct (double_eq _ 0); [by rewrite (Hz eq_refl)|].
  by apply order_double_inverse.
Qed.

(** The value of a word whose checks passed. *)
Lemma checked_value part w :
  0 <= w < 2 ^ 64 -> cell_checks part INDEX_KEY_VALUE w false ->
  let v := if ty_kind (ip_type part) =? KIND_DOUBLE then turbodb_f64 (orm_sql_wire_order_double w)
    else if ty_kind (ip_type part) =? KIND_INT64 then turbodb_i64 (orm_sql_wire_order_signed w)
    else turbodb_u64 w in
  part_value part v /\ is_null v = false /\ word_of v = w.
Proof.
  intros Hw (Hnum & _ & Hd). destruct (ip_type part) as [k n] eqn:Et. cbn [ty_kind] in *.
  destruct (Z.eqb_spec k KIND_DOUBLE) as [->|]; [|destruct (Z.eqb_spec k KIND_INT64) as [->|]].
  - destruct (Hd eq_refl) as [Hf Hz]. destruct (order_double_inverse w Hw) as [Hr _].
    split_and!; [|done|by apply checked_double].
    split; rewrite ?Et; [exact Hr| |done]. exact Hf.
  - rewrite order_signed_spec by done. split_and!; [|done|cbn; lia].
    split; rewrite ?Et; [unfold value_ok; cbn; lia|done..].
  - assert (k = KIND_UINT64) as ->.
    { unfold assignment_numeric in Hnum. bsimp. destruct Hnum as [[Hx|Hx]%orb_true_iff|Hx]; by apply Z.eqb_eq in Hx. }
    split_and!; [|done..]. split; rewrite ?Et; done.
Qed.

(** A cell that passes the check is the cell of the value it reads as. *)
Lemma check_cell_sound part c s n s' :
  bytes_ok c -> length c = 9%nat -> index_key_check_cell part c s = (Ret n, s') ->
  s' = s /\ part_value part (index_key_read part c) /\ cell part (index_key_read part c) = c /\
  n = is_null (index_key_read part c).
Proof.
  intros Hc Hl [-> Hck]%check_cell_inv. split; [done|]. fold (plain_marker part c) in Hck.
  destruct (cell_decompose part c Hc Hl) as (Hw & Ec & Em). unfold index_key_read. rewrite Em. cbv zeta.
  unfold cell. destruct n.
  - destruct Hck as (Hnum & E0 & Hnull & Ew). rewrite E0, Ew in *. change (INDEX_KEY_NULL =? INDEX_KEY_NULL) with true.
    cbv iota. split_and!; [|exact (eq_sym Ec)|done]. split; [done| |done]. exact Hnull.
  - assert (plain_marker part c = INDEX_KEY_VALUE) as E1 by apply Hck. rewrite E1 in *.
    change (INDEX_KEY_VALUE =? INDEX_KEY_NULL) with false. cbv iota.
    destruct (checked_value part (cell_word part c) Hw Hck) as (Hv & Hn & E). split_and!; [done| |done].
    unfold plain_cell, marker_of. rewrite Hn, E. exact (eq_sym Ec).
Qed.

(** ** Keys *)

Definition column (row : list turbodb_value_t) (part : orm_sql_index_part) : turbodb_value_t :=
  default turbodb_null (row !! Z.to_nat (ip_column part)).

(** The concatenated cells of the key columns. *)
Definition key (parts : list orm_sql_index_part) (row : list turbodb_value_t) : bytes :=
  concat (map (fun part => cell part (column row part)) parts).

(** The row has the column and its value belongs to the part. *)
Definition part_row (row : list turbodb_value_t) (count : Z) (part : orm_sql_index_part) : Prop :=
  0 <= ip_column part < count /\ part_value part (column row part).

(** The program's own order on values, part by part. *)
Fixpoint tuple_order (parts : list orm_sql_index_part) (row1 row2 : list turbodb_value_t) : Z :=
  match parts with
  | [] => 0
  | part :: parts =>
      let o := default 0 (orm_sql_value_order (column row1 part) (column row2 part)) in
      let o := if ip_descending part then - o else o in
      if o =? 0 then tuple_order parts row1 row2 else o
  end.

Lemma length_key parts row : len (key parts row) = len parts * INDEX_KEY_CELL.
Proof.
  unfold key. induction parts as [|part parts IH]; [done|]. cbn [map concat length]. rewrite length_app, Nat2Z.inj_add, IH.
  rewrite (proj2 (cell_ok _ _)). change INDEX_KEY_CELL with 9. lia.
Qed.

Lemma key_lex parts row1 row2 count1 count2 :
  Forall (part_row row1 count1) parts -> Forall (part_row row2 count2) parts ->
  order_Z (lex (key parts row1) (key parts row2)) = tuple_order parts row1 row2.
Proof.
  unfold key. induction 1 as [|part parts [_ H1] _ IH]; intros H2; [done|].
  apply Forall_cons in H2 as [[_ H2] Hs]. cbn [map concat tuple_order].
  rewrite lex_app by (by rewrite !(proj2 (cell_ok _ _))). rewrite cell_lex by done.
  rewrite (value_order_spec part) by done. cbn [from_option id]. specialize (IH Hs). unfold directed.
  destruct (ip_descending part), (value_compare _ _); done.
Qed.

Lemma index_key_write_all_key parts row count out i :
  Forall (part_row row count) parts -> count <= len row -> 0 <= i ->
  (i + len parts) * INDEX_KEY_CELL <= len out ->
  index_key_write_all parts row out i = Some (splice out (i * INDEX_KEY_CELL) (key parts row)).
Proof.
  intros Hp Hc. revert out i. induction Hp as [|part parts [Hcol Hv] _ IH]; intros out i Hi Hout.
  { cbn. by rewrite splice_nil. }
  cbn [index_key_write_all]. cbn [length] in Hout.
  assert (row !! Z.to_nat (ip_column part) = Some (column row part)) as ->.
  { unfold column. destruct (lookup_lt_is_Some_2 row (Z.to_nat (ip_column part))) as [v ->]; [lia|done]. }
  cbn [mbind option_bind]. rewrite index_key_write_cell by done. cbn [mbind option_bind].
  pose proof (proj2 (cell_ok part (column row part))) as Hl. change INDEX_KEY_CELL with 9 in *.
  rewrite stn_Some by lia. cbn [mbind option_bind].
  rewrite IH; [|lia|rewrite length_splice by lia; lia]. f_equal.
  replace ((i + 1) * 9) with (i * 9 + len (cell part (column row part))) by lia.
  apply splice_app; [lia|]. fold (key parts row). rewrite length_key. change INDEX_KEY_CELL with 9. lia.
Qed.

(** ** Validation *)

Lemma bind_wp {S} op tl right (s : S) :
  wp (orm_tidesdb_sql_predicate_bind op tl right true) (fun p s' => s' = s /\ bound op tl right p) (fun _ s' => s' = s) s.
Proof.
  assert (wp (orm_tidesdb_sql_predicate_bind op tl right true) (fun _ s' => s' = s) (fun _ s' => s' = s) s) as Hw.
  { unfold orm_tidesdb_sql_predicate_bind. do 4 (tdb_step; tdb_step; [done|]). done. }
  unfold wp in *. destruct (orm_tidesdb_sql_predicate_bind op tl right true s) as [[p|f|] s'] eqn:E; [|done..].
  subst s'. split; [done|]. by eapply bind_bound.
Qed.

Definition live (s : ptr orm_tidesdb_sql_budget) : Prop := exists b, s = Some b /\ ledger_ok b.

Section Tuple.
Context (vstr_utf8_valid : bytes -> bool).

Lemma validate_wp part row count b :
  ledger_ok b -> Forall value_ok row -> count <= len row -> 0 <= ip_column part ->
  wp (index_key_validate vstr_utf8_valid part row count) (fun _ s => live s /\ part_row row count part)
    (fun _ s => live s) (Some b).
Proof.
  intros Hb Hrow Hcount Hcol. assert (live (Some b)) as Hlive by (by exists b).
  unfold index_key_validate, index_key_type. tdb_step. apply wp_raise_if; [done|]. intros Ht.
  assert (assignment_numeric (ty_kind (ip_type part)) = true) as Hnum.
  { rewrite <- !negb_orb in Ht. by apply negb_false_iff in Ht. }
  tdb_step. apply wp_raise_if; [done|]. intros Hlt%Z.leb_gt.
  tdb_step. eapply wp_mono; [apply bind_wp| |by intros _ s ->]. intros p s [-> Hbd].
  destruct (lookup_lt_is_Some_2 row (Z.to_nat (ip_column part))) as [v Ev]; [lia|].
  pose proof (Forall_lookup_1 _ _ _ _ Hrow Ev) as Hv.
  tdb_step. rewrite Ev. apply wp_access; [done|]. intros v' [= <-].
  tdb_step. eapply wp_mono; [by apply (predicate_eval_wp _ ORM_SQL_IS_NULL (ip_type part) None)|..].
  - intros t s (Hval & _ & _ & _ & (b' & -> & _ & Hok) & _). tdb_step. split; [by exists b'|].
    apply andb_true_iff in Hval as [Hval _]. split; [lia|]. unfold column. rewrite Ev. by split.
  - intros f s [[-> _]|(_ & _ & _ & b' & -> & _ & Hok)]; [done|by exists b'].
Qed.

Lemma validate_all_wp parts row count null b :
  ledger_ok b -> Forall value_ok row -> count <= len row -> Forall (fun part => 0 <= ip_column part) parts ->
  wp (index_key_validate_all vstr_utf8_valid parts row count null)
    (fun n s => live s /\ Forall (part_row row count) parts /\
      n = null || existsb (fun part => is_null (column row part)) parts)
    (fun _ s => live s) (Some b).
Proof.
  intros Hb Hrow Hcount Hcols. revert null b Hb. induction Hcols as [|part parts Hcol _ IH]; intros null b Hb.
  { cbn [index_key_validate_all]. tdb_step. rewrite orb_false_r. split_and!; [by exists b|by apply Forall_nil_2|done]. }
  cbn [index_key_validate_all]. tdb_step. eapply wp_mono; [by apply validate_wp| |done].
  intros _ s [(b1 & -> & Hb1) Hpart]. destruct Hpart as [Hrange Hv].
  destruct (lookup_lt_is_Some_2 row (Z.to_nat (ip_column part))) as [v Ev]; [lia|].
  tdb_step. rewrite Ev. apply wp_access; [done|]. intros v' [= <-].
  eapply wp_mono; [by apply IH| |done]. intros n s (Hlive & Hall & ->).
  split_and!; [done|by apply Forall_cons_2|]. cbn [existsb]. rewrite orb_assoc. do 2 f_equal.
  unfold column. by rewrite Ev.
Qed.

(** The size of a key does not overflow. *)
Lemma key_size_wp definition b :
  wp (orm_tidesdb_sql_index_key_size definition true)
    (fun '(parts, size) s => s = Some b /\ bound_parts definition = Some parts /\ size = len parts * INDEX_KEY_CELL /\
      size < 2 ^ 64)
    (fun _ s => s = Some b) (Some b).
Proof.
  unfold orm_tidesdb_sql_index_key_size. tdb_step. tdb_step. cbn [is_some].
  destruct (bound_parts definition) as [parts|]; [|by tdb_step].
  do 2 (tdb_step; tdb_step; [done|]). tdb_step. bsimp. change INDEX_KEY_CELL with 9 in *.
  assert (len parts * 9 <= SIZE_MAX) by (pose proof (Z.mul_div_le SIZE_MAX 9); lia). unfold SIZE_MAX in *.
  rewrite u64_small by lia. split_and!; [done..|lia].
Qed.

Lemma key_size_Ret definition s parts size s' :
  orm_tidesdb_sql_index_key_size definition true s = (Ret (parts, size), s') ->
  bound_parts definition = Some parts /\ size = len parts * INDEX_KEY_CELL.
Proof.
  intros E. unfold orm_tidesdb_sql_index_key_size in E. apply bind_Ret in E as (? & ? & _ & E).
  destruct (bound_parts definition) as [ps|]; [|done].
  apply bind_Ret in E as (? & ? & _ & E). apply bind_Ret in E as (? & ? & [Hc _]%raise_if_Ret & E).
  injection E as -> <- _. split; [done|]. apply Z.ltb_ge in Hc. change INDEX_KEY_CELL with 9 in *.
  pose proof (Z.mul_div_le SIZE_MAX 9). unfold SIZE_MAX in *. rewrite u64_small; lia.
Qed.

Lemma key_size_ok definition parts b :
  bound_parts definition = Some parts -> len parts * INDEX_KEY_CELL < 2 ^ 64 ->
  orm_tidesdb_sql_index_key_size definition true (Some b) = (Ret (parts, len parts * INDEX_KEY_CELL), Some b).
Proof.
  intros Hp Hs. unfold orm_tidesdb_sql_index_key_size, mbind, M_bind, gets, raise_if, fail_if. cbn [is_some].
  rewrite Hp. cbn [negb orb]. change INDEX_KEY_CELL with 9 in *.
  rewrite (proj2 (Z.ltb_ge _ _)) by (apply Z.div_le_lower_bound; unfold SIZE_MAX; lia).
  by rewrite u64_small by lia.
Qed.

Lemma index_key_charge_wp b size :
  ledger_ok b -> 0 <= size ->
  let c := charge_amount (size * INDEX_KEY_PASSES) in
  wp (index_key_charge size)
    (fun _ s => live s /\ statement_active b = true /\ fits b c /\ exists b', s = Some b' /\ charged b c b')
    (fun f s => s = Some b /\ (statement_active b = true -> ~ fits b c)) (Some b).
Proof.
  intros Hb Hs c. unfold index_key_charge. tdb_step.
  assert (UINT64_MAX / INDEX_KEY_PASSES = 2 ^ 63 - 1) as -> by done. tdb_step.
  - split; [done|]. intros _ Hf%fits_steps_small; [|done]. unfold INDEX_KEY_PASSES in Hf. blia.
  - bsimp. assert (0 <= size * INDEX_KEY_PASSES < 2 ^ 64) by (unfold INDEX_KEY_PASSES; lia).
    rewrite u64_small by done. eapply wp_mono; [by apply charge_wp| |done].
    intros _ s (Ha & Hf & b' & -> & Hch & Hok). split_and!; [by exists b'|done..|by exists b'].
Qed.

(** ** Encoding *)

(** The caller's side: a row of [count] well-formed values and an output
    buffer of [capacity] bytes. *)
Record encode_args (definition : ptr orm_sql_index_definition) (row : list turbodb_value_t) (count : Z) (out : bytes)
    (capacity : Z) : Prop := {
  ea_columns : forall parts, bound_parts definition = Some parts -> Forall (fun part => 0 <= ip_column part) parts;
  ea_row : Forall value_ok row;
  ea_count : count <= len row;
  ea_out : capacity <= len out
}.

Lemma encode_wp definition row count out capacity b :
  ledger_ok b -> encode_args definition row count out capacity ->
  wp (orm_tidesdb_sql_index_key_encode vstr_utf8_valid definition (Some row) count (Some out) capacity true)
    (fun '(out', n) s => live s /\ exists parts, bound_parts definition = Some parts /\
      Forall (part_row row count) parts /\ len parts * INDEX_KEY_CELL <= capacity /\
      len parts * INDEX_KEY_CELL < 2 ^ 64 /\ out' = splice out 0 (key parts row) /\ n = existsb (fun part => is_null (column row part)) parts)
    (fun _ s => live s) (Some b).
Proof.
  intros Hb [Hcols Hrow Hcount Hout]. assert (live (Some b)) as Hlive by (by exists b).
  unfold orm_tidesdb_sql_index_key_encode. tdb_step. tdb_step; [done|].
  tdb_step. eapply wp_mono; [apply key_size_wp| |by intros _ s ->].
  intros [parts size] s (-> & Hparts & -> & Hsize). specialize (Hcols parts Hparts).
  tdb_step. tdb_step; [done|]. bsimp.
  tdb_step. eapply wp_mono; [apply index_key_charge_wp; [done|unfold INDEX_KEY_CELL, INDEX_KEY_MARKER; lia]| |by intros _ s [-> _]].
  intros _ s ((b1 & -> & Hb1) & _).
  tdb_step. eapply wp_mono; [by apply validate_all_wp| |done].
  intros n s (Hs & Hall & ->).
  tdb_step. rewrite (index_key_write_all_key _ _ count) by (done || lia). apply wp_access; [done|]. intros o [= <-].
  tdb_step. split; [done|]. exists parts. split_and!; done.
Qed.

(** ** Decoding *)

(** The bytes of a list of parts, from cell [i]. *)
Definition cells_at (data : bytes) (i : Z) (parts : list orm_sql_index_part) (row : list turbodb_value_t) : Prop :=
  ldn data (i * INDEX_KEY_CELL) (len parts * INDEX_KEY_CELL) = Some (key parts row).

Lemma cells_at_cons data i part parts row :
  0 <= i -> cells_at data i (part :: parts) row ->
  cell_at data i = Some (cell part (column row part)) /\ cells_at data (i + 1) parts row.
Proof.
  intros Hi. unfold cells_at, cell_at, ldn. change INDEX_KEY_CELL with 9. cbn [length].
  case_match; [|done]. bsimp. intros [= E].
  rewrite !(proj2 (andb_true_iff _ _)); [|rewrite ?andb_true_iff, ?Z.leb_le; lia..].
  pose proof (proj2 (cell_ok part (column row part))) as Hl. unfold key in *. cbn [map concat] in E.
  set (rest := concat _) in *. set (c := cell part (column row part)) in *.
  split; f_equal.
  - apply (f_equal (take 9)) in E. rewrite take_take, take_app_length' in E by done.
    rewrite <- E. f_equal. lia.
  - apply (f_equal (drop 9)) in E. rewrite (drop_app_length' c) in E by done. rewrite <- E.
    rewrite skipn_firstn_comm, drop_drop. f_equal; [lia|]. f_equal. lia.
Qed.

Lemma check_all_key parts row count data i null (s : ptr orm_tidesdb_sql_budget) :
  Forall (part_row row count) parts -> 0 <= i -> cells_at data i parts row ->
  index_key_check_all parts data i null s =
    (Ret (null || existsb (fun part => is_null (column row part)) parts), s).
Proof.
  intros Hp. revert i null. induction Hp as [|part parts [_ Hv] _ IH]; intros i null Hi Hc.
  { cbn. by rewrite orb_false_r. }
  apply cells_at_cons in Hc as [Ec Hc]; [|done]. cbn [index_key_check_all existsb]. rewrite Ec.
  unfold mbind at 1, M_bind, access. unfold mbind, M_bind. rewrite check_cell_ok by done.
  rewrite IH by (lia || done). by rewrite orb_assoc.
Qed.

Lemma read_all_key parts row count data out i :
  Forall (part_row row count) parts -> cells_at data (Z.of_nat i) parts row -> (i + length parts <= length out)%nat ->
  index_key_read_all parts data out i =
    Some (take i out ++ map (fun part => canonical_value (column row part)) parts ++ drop (i + length parts) out).
Proof.
  intros Hp. revert out i. induction Hp as [|part parts [_ Hv] _ IH]; intros out i Hc Hout.
  { cbn. by rewrite Nat.add_0_r, take_drop. }
  apply cells_at_cons in Hc as [Ec Hc]; [|lia]. cbn [index_key_read_all length] in *. rewrite Ec. cbn [mbind option_bind].
  rewrite (proj2 (Nat.ltb_lt _ _)) by lia. rewrite read_cell by done.
  rewrite IH; [|by replace (Z.of_nat (S i)) with (Z.of_nat i + 1) by lia|rewrite length_insert; lia].
  f_equal. rewrite drop_insert_lt by lia.
  rewrite (take_S_r _ _ (canonical_value (column row part))) by (apply list_lookup_insert_eq; lia).
  rewrite take_insert_ge, <- app_assoc by lia. cbn. do 3 f_equal. by rewrite Nat.add_succ_r.
Qed.
End Tuple.

Lemma cell_at_Some data i n :
  0 <= i -> i < n -> n * INDEX_KEY_CELL <= len data -> bytes_ok data ->
  exists c, cell_at data i = Some c /\ bytes_ok c /\ length c = 9%nat.
Proof.
  change INDEX_KEY_CELL with 9. intros Hi Hn Hl Hd. unfold cell_at. change INDEX_KEY_CELL with 9.
  rewrite ldn_Some by lia. eexists. split; [done|]. split; [by apply Forall_take, Forall_drop|].
  rewrite length_take, length_drop. lia.
Qed.

(** A part of a key that decodes: its value is encoded to the bytes it was read from. *)
Definition decoded (data : bytes) (i : Z) (part : orm_sql_index_part) (v : turbodb_value_t) : Prop :=
  part_value part v /\ exists c, cell_at data i = Some c /\ index_key_write part v = Some c /\ v = index_key_read part c.

Lemma check_all_sound parts data i null (s : ptr orm_tidesdb_sql_budget) n s' :
  0 <= i -> (i + len parts) * INDEX_KEY_CELL <= len data -> bytes_ok data ->
  index_key_check_all parts data i null s = (Ret n, s') ->
  s' = s /\ exists vs, length vs = length parts /\ n = null || existsb is_null vs /\
    forall j part v, parts !! j = Some part -> vs !! j = Some v -> decoded data (i + Z.of_nat j) part v.
Proof.
  intros Hi Hl Hd. revert i null s Hi Hl. induction parts as [|part parts IH]; intros i null s Hi Hl E.
  { injection E as <- <-. split; [done|]. exists []. by rewrite orb_false_r. }
  cbn [index_key_check_all length] in *.
  destruct (cell_at_Some data i (i + 1 + len parts)) as (c & Ec & Hc & Hlc); [lia..|by rewrite <- Hl; lia|done|].
  rewrite Ec in E. unfold mbind at 1, M_bind, access in E. unfold mbind, M_bind in E.
  destruct (index_key_check_cell part c s) as [[m|f|] s1] eqn:Ek; [|done..].
  apply check_cell_sound in Ek as (-> & Hv & Hcell & ->); [|done..].
  apply IH in E as (-> & vs & Hlen & -> & Hall); [|lia|by rewrite <- Hl; lia].
  split; [done|]. exists (index_key_read part c :: vs). split_and!; [by cbn; f_equal|by rewrite <- orb_assoc|].
  intros [|j] p v Hp Hvj; cbn in Hp, Hvj.
  - injection Hp as <-. injection Hvj as <-. rewrite Z.add_0_r. split; [done|]. exists c.
    split_and!; [done|by rewrite index_key_write_cell, Hcell|done].
  - replace (i + Z.of_nat (S j)) with (i + 1 + Z.of_nat j) by lia. by apply Hall.
Qed.

Lemma read_all_sound parts data out i values :
  index_key_read_all parts data out i = Some values -> (i + length parts <= length out)%nat ->
  length values = length out /\
  (forall j, (j < i)%nat -> values !! j = out !! j) /\
  (forall j part, parts !! j = Some part ->
    exists c, cell_at data (Z.of_nat (i + j)) = Some c /\ values !! (i + j)%nat = Some (index_key_read part c)) /\
  drop (i + length parts) values = drop (i + length parts) out.
Proof.
  revert out i. induction parts as [|part parts IH]; intros out i E Hl.
  { injection E as <-. split_and!; [done..|by intros [|j] part|done]. }
  cbn [index_key_read_all length] in *. destruct (cell_at data (Z.of_nat i)) as [c|] eqn:Ec; [|done]. cbn [mbind option_bind] in E.
  destruct (Nat.ltb_spec i (length out)); [|done].
  apply IH in E as (El & Hlow & Hall & Hd); [|rewrite length_insert; lia]. rewrite length_insert in El.
  split_and!; [done|..].
  - intros j Hj. rewrite Hlow by lia. apply list_lookup_insert_ne. lia.
  - intros [|j] p Hp; cbn in Hp.
    + injection Hp as <-. rewrite Nat.add_0_r. exists c. split; [done|]. rewrite Hlow by lia.
      by apply list_lookup_insert_eq.
    + rewrite Nat.add_succ_r. by apply (Hall j).
  - rewrite Nat.add_succ_r. change (S (i + length parts)) with (S i + length parts)%nat.
    rewrite Hd. apply drop_insert_lt. lia.
Qed.

(** ** The properties *)

(** C4. Comparing two encoded keys with memcmp gives the order of the tuples:
    the engine's own order on values, part by part, with NULL first and
    reversed for a descending part. This holds for signed and unsigned
    integers and for every finite double, the two zeros being equal. *)
Theorem index_key_order utf8 definition parts row1 row2 count1 count2 out1 out2 capacity1 capacity2 b1 b2 k1 k2 n1 n2 s1 s2 :
  reachable b1 -> reachable b2 -> bound_parts definition = Some parts ->
  encode_args definition row1 count1 out1 capacity1 -> encode_args definition row2 count2 out2 capacity2 ->
  orm_tidesdb_sql_index_key_encode utf8 definition (Some row1) count1 (Some out1) capacity1 true (Some b1) =
    (Ret (k1, n1), s1) ->
  orm_tidesdb_sql_index_key_encode utf8 definition (Some row2) count2 (Some out2) capacity2 true (Some b2) =
    (Ret (k2, n2), s2) ->
  memcmp (Z.to_nat (len parts * INDEX_KEY_CELL)) k1 k2 = Some (tuple_order parts row1 row2).
Proof.
  intros Hb1%reachable_ledger_ok Hb2%reachable_ledger_ok Hp A1 A2 E1 E2.
  pose proof (encode_wp utf8 _ _ _ _ _ _ Hb1 A1) as W1. pose proof (encode_wp utf8 _ _ _ _ _ _ Hb2 A2) as W2.
  unfold wp in W1, W2. rewrite E1 in W1. rewrite E2 in W2.
  destruct W1 as (_ & p1 & Hp1 & H1 & C1 & _ & -> & _). destruct W2 as (_ & p2 & Hp2 & H2 & C2 & _ & -> & _).
  assert (p1 = parts) as -> by congruence. assert (p2 = parts) as -> by congruence.
  pose proof (ea_out _ _ _ _ _ A1) as O1. pose proof (ea_out _ _ _ _ _ A2) as O2. clear A1 A2 E1 E2.
  assert (forall row out, len parts * INDEX_KEY_CELL <= len out ->
    take (Z.to_nat (len parts * INDEX_KEY_CELL)) (splice out 0 (key parts row)) = key parts row /\
    (Z.to_nat (len parts * INDEX_KEY_CELL) <= length (splice out 0 (key parts row)))%nat) as Htake.
  { intros row out Ho. rewrite <- (length_key parts row) in *. unfold splice. change (take (Z.to_nat 0) out) with (@nil Z). cbn [app].
    rewrite !length_app. split; [|lia]. apply take_app_length'. lia. }
  destruct (Htake row1 out1) as [T1 L1]; [lia|]. destruct (Htake row2 out2) as [T2 L2]; [lia|].
  destruct (memcmp_lex _ _ _ _ L1 L2) as (o & Em & Ho & El). rewrite Nat.min_id in Em. rewrite Em, T1, T2 in *.
  rewrite (key_lex _ _ _ count1 count2) in El by done. rewrite El, compare_u64_spec, Z.compare_refl. f_equal.
  by destruct Ho as [->|[->| ->]].
Qed.

(** C23. A key that was encoded decodes to the tuple it was made from, with
    negative zero given back as zero, and with the same contains_null; the
    other slots of the output keep their values. Decoding fails only when the
    ledger does not admit two passes over the key. *)
Theorem index_key_roundtrip utf8 definition parts row count out capacity b k n s data values vcap b2 :
  reachable b -> reachable b2 -> bound_parts definition = Some parts ->
  encode_args definition row count out capacity ->
  orm_tidesdb_sql_index_key_encode utf8 definition (Some row) count (Some out) capacity true (Some b) = (Ret (k, n), s) ->
  let size := len parts * INDEX_KEY_CELL in
  ldn data 0 size = ldn k 0 size -> len parts <= vcap <= len values ->
  let c := charge_amount (size * INDEX_KEY_PASSES) in
  match orm_tidesdb_sql_index_key_decode definition (Some data) size (Some values) vcap true (Some b2) with
  | (Ret (values', n'), s') => n' = n /\ fits b2 c /\ (exists b', s' = Some b' /\ charged b2 c b') /\
      values' = map (fun part => canonical_value (column row part)) parts ++ drop (length parts) values
  | (Err f, s') => s' = Some b2 /\ (statement_active b2 = true -> ~ fits b2 c)
  | (Fault, _) => False
  end.
Proof.
  intros Hb%reachable_ledger_ok Hb2%reachable_ledger_ok Hp A E size Hdata Hv c.
  pose proof (encode_wp utf8 _ _ _ _ _ _ Hb A) as W. unfold wp in W. rewrite E in W.
  destruct W as (_ & p & Hp' & Hall & Hcap & Hsize & -> & ->). assert (p = parts) as -> by congruence.
  pose proof (ea_out _ _ _ _ _ A) as Hout.
  assert (cells_at data 0 parts row) as Hc.
  { unfold cells_at. change (0 * INDEX_KEY_CELL) with 0. fold size. rewrite Hdata.
    unfold size. rewrite <- (length_key parts row). apply splice_ldn; [lia|]. rewrite length_key. lia. }
  assert (wp (orm_tidesdb_sql_index_key_decode definition (Some data) size (Some values) vcap true)
    (fun '(values', n') s' => n' = existsb (fun part => is_null (column row part)) parts /\ fits b2 c /\
      (exists b', s' = Some b' /\ charged b2 c b') /\
      values' = map (fun part => canonical_value (column row part)) parts ++ drop (length parts) values)
    (fun f s' => s' = Some b2 /\ (statement_active b2 = true -> ~ fits b2 c)) (Some b2)) as Hw;
    [|unfold wp in Hw; by destruct (orm_tidesdb_sql_index_key_decode _ _ _ _ _ _ _) as [[[]| |] ?]].
  unfold orm_tidesdb_sql_index_key_decode. tdb_step. tdb_step; [done|].
  tdb_step. unfold wp at 1. rewrite (key_size_ok definition parts) by done.
  tdb_step. tdb_step; [by rewrite Z.eqb_refl in *|]. tdb_step. tdb_step; [blia|].
  tdb_step. eapply wp_mono; [apply index_key_charge_wp; [done|unfold size, INDEX_KEY_CELL, INDEX_KEY_MARKER; lia]| |done].
  intros _ s' (_ & _ & Hf & Hch).
  tdb_step. unfold wp at 1. rewrite (check_all_key parts row count) by done. cbn [orb].
  tdb_step. rewrite (read_all_key parts row count) by (done || lia). apply wp_access; [done|]. intros vs [= <-].
  tdb_step. by split_and!.
Qed.

(** C24. Only canonical keys decode. When decoding succeeds on any bytes, each
    value has the type of its part and is encoded by the writer to exactly the
    bytes it was read from, so no two keys decode to the same tuple;
    contains_null says whether some value is NULL, and the other slots of the
    output keep their values. *)
Theorem index_key_decode_canonical definition parts data size values vcap b values' n s :
  bound_parts definition = Some parts -> bytes_ok data -> size <= len data -> vcap <= len values ->
  orm_tidesdb_sql_index_key_decode definition (Some data) size (Some values) vcap true b = (Ret (values', n), s) ->
  size = len parts * INDEX_KEY_CELL /\
  (exists vs, values' = vs ++ drop (length parts) values /\ length vs = length parts /\ n = existsb is_null vs /\
    forall j part v, parts !! j = Some part -> vs !! j = Some v -> decoded data (Z.of_nat j) part v).
Proof.
  intros Hp Hd Hsize Hv E. unfold orm_tidesdb_sql_index_key_decode in E.
  apply bind_Ret in E as (? & ? & [_ ->]%raise_if_Ret & E).
  apply bind_Ret in E as ([ps expected] & b1 & Hk & E).
  apply bind_Ret in E as (? & ? & [Hs ->]%raise_if_Ret & E).
  apply bind_Ret in E as (? & ? & [Hcap ->]%raise_if_Ret & E).
  apply bind_Ret in E as (? & b2 & _ & E). apply bind_Ret in E as (m & b3 & Hck & E).
  apply bind_Ret in E as (vs & b4 & Hr & E). injection E as -> -> ->. bsimp. subst expected.
  apply key_size_Ret in Hk as (Hp' & Esize). assert (ps = parts) as -> by congruence.
  apply check_all_sound in Hck as (_ & vs & Hlen & -> & Hall); [|lia|by rewrite Z.add_0_l; lia|done].
  apply access_Ret in Hr as [Hr _]. apply read_all_sound in Hr as (Hl & _ & Hval & Hdrop); [|cbn; lia].
  split; [done|]. exists vs. split_and!; [|done..].
  rewrite <- (take_drop (length parts) values'). cbn in Hdrop. rewrite Hdrop. f_equal.
  apply list_eq_same_length with (n := length parts); [lia|rewrite length_take; lia|].
  intros j v w Hj Hw Hvj. rewrite lookup_take_lt in Hw by done.
  destruct (lookup_lt_is_Some_2 parts j) as [part Hpart]; [done|].
  destruct (Hval j part Hpart) as (c & Ec & E). cbn in E. rewrite E in Hw. injection Hw as <-.
  destruct (Hall j part w Hpart Hvj) as (_ & c' & Ec' & _ & ->). change (0 + j)%nat with j in Ec.
  rewrite Z.add_0_l, Ec in Ec'. by injection Ec' as ->.
Qed.

(** ** Witnesses *)

Definition sample_index : orm_sql_index_definition :=
  mk_definition (Some [mk_part 1 (mk_type KIND_DOUBLE true) false; mk_part 0 (mk_type KIND_INT64 true) true])
    0 0 0 [] [] false false.

(** (7, -0.0) and (NULL, 1.0) *)
Definition sample_row1 : list turbodb_value_t := [turbodb_i64 7; turbodb_f64 SIGN].
Definition sample_row2 : list turbodb_value_t := [turbodb_null; turbodb_f64 0].

Lemma sample_encode_args row :
  row = sample_row1 \/ row = sample_row2 -> encode_args (Some sample_index) row 2 (repeat 0 18) 18.
Proof.
  intros Hrow. split; [|destruct Hrow as [->| ->]|destruct Hrow as [->| ->]|]; try done.
  - intros parts [= <-]. repeat (apply Forall_cons_2; [cbn; lia|]). apply Forall_nil_2.
  - repeat (apply Forall_cons_2; [unfold value_ok, SIGN; cbn; lia|]). apply Forall_nil_2.
  - repeat (apply Forall_cons_2; [unfold value_ok; cbn; lia|]). apply Forall_nil_2.
Qed.

Definition sample_encode (row : list turbodb_value_t) :=
  orm_tidesdb_sql_index_key_encode (fun _ => true) (Some sample_index) (Some row) 2 (Some (repeat 0 18)) 18 true
    (Some (sample_after [Op_begin])).
Definition sample_key1 : bytes := [1; 128; 0; 0; 0; 0; 0; 0; 0; 254; 127; 255; 255; 255; 255; 255; 255; 248].
Definition sample_key2 : bytes := [1; 128; 0; 0; 0; 0; 0; 0; 0; 255; 255; 255; 255; 255; 255; 255; 255; 255].

Lemma sample_key1_encoded : sample_encode sample_row1 = (Ret (sample_key1, false), snd (sample_encode sample_row1)).
Proof. vm_compute. reflexivity. Qed.
Lemma sample_key2_encoded : sample_encode sample_row2 = (Ret (sample_key2, true), snd (sample_encode sample_row2)).
Proof. vm_compute. reflexivity. Qed.

Lemma index_key_order_witness :
  memcmp 18 sample_key1 sample_key2 = Some (-1) /\
  tuple_order (default [] (id_parts sample_index)) sample_row1 sample_row2 = -1.
Proof.
  split; [|vm_compute; reflexivity].
  exact (index_key_order (fun _ => true) (Some sample_index) _ sample_row1 sample_row2 2 2 (repeat 0 18) (repeat 0 18)
    18 18 _ _ _ _ _ _ _ _ sample_begun sample_begun eq_refl (sample_encode_args _ (or_introl eq_refl))
    (sample_encode_args _ (or_intror eq_refl)) sample_key1_encoded sample_key2_encoded).
Defined.

Lemma index_key_roundtrip_witness :
  exists s, orm_tidesdb_sql_index_key_decode (Some sample_index) (Some sample_key1) 18
    (Some [turbodb_null; turbodb_null; turbodb_bool 1]) 3 true (Some (sample_after [Op_begin])) =
    (Ret ([turbodb_f64 0; turbodb_i64 7; turbodb_bool 1], false), s) /\
  fits (sample_after [Op_begin]) (charge_amount 36).
Proof.
  pose proof (index_key_roundtrip (fun _ => true) (Some sample_index) _ sample_row1 2 (repeat 0 18) 18
    _ _ _ _ sample_key1 [turbodb_null; turbodb_null; turbodb_bool 1] 3 _ sample_begun sample_begun eq_refl
    (sample_encode_args _ (or_introl eq_refl)) sample_key1_encoded eq_refl ltac:(cbn; lia)) as H.
  cbv zeta in H.
  match type of H with match ?t with _ => _ end =>
    assert (exists s, t = (Ret ([turbodb_f64 0; turbodb_i64 7; turbodb_bool 1], false), s)) as [s E]
      by (eexists; vm_compute; reflexivity)
  end.
  rewrite E in H. exists s. split; [exact E|]. exact (proj1 (proj2 H)).
Defined.

Lemma index_key_decode_canonical_witness :
  decoded sample_key1 1 (mk_part 0 (mk_type KIND_INT64 true) true) (turbodb_i64 7).
Proof.
  assert (exists s, orm_tidesdb_sql_index_key_decode (Some sample_index) (Some sample_key1) 18
    (Some [turbodb_null; turbodb_null]) 2 true (Some (sample_after [Op_begin])) =
    (Ret ([turbodb_f64 0; turbodb_i64 7], false), s)) as [s E] by (eexists; vm_compute; reflexivity).
  destruct (index_key_decode_canonical (Some sample_index) _ sample_key1 18 [turbodb_null; turbodb_null] 2 _ _ _ _
    eq_refl (bytes_okb_ok sample_key1 eq_refl) ltac:(cbn; lia) ltac:(cbn; lia) E) as (_ & vs & Ev & _ & _ & H).
  rewrite app_nil_r in Ev. apply (H 1%nat _ _ eq_refl). rewrite <- Ev. reflexivity.
Defined.
