(* ===== verification/Like.v ===== *)
(** * LIKE (tidessql/src/value.c, value.h)

    The matcher keeps only the last % and, on a mismatch, lets that % take one
    more byte of the text. Every iteration is charged to the ledger. *)

From S2P Require Import Prelude Row Command Errors Budget Float Value.

Definition ORM_SQL_LIKE_NO_ESCAPE : Z := -1.
Definition ORM_SQL_ASCII_MAX : Z := 127.

Record orm_sql_like : Type := mk_like {
  lk_left : orm_sql_type;
  lk_right : orm_sql_type;
  lk_result : orm_sql_type;
  lk_escape : Z;
  lk_negated : bool;
  lk_ascii_insensitive : bool
}.

Definition like_type (kind : Z) : bool := (kind =? KIND_TEXT) || (kind =? KIND_NULL).

Definition orm_tidesdb_sql_like_bind {S} (left right : orm_sql_type) (escape : Z) (negated : bool) (wants : bool)
    : M turbodb_failure S orm_sql_like :=
  raise_if (negb wants || (escape <? ORM_SQL_LIKE_NO_ESCAPE) || (ORM_SQL_ASCII_MAX <? escape))
    TURBODB_STATUS_INVALID_ARGUMENT "invalid LIKE output or escape byte";;
  raise_if (negb (valid_type left) || negb (valid_type right)) TURBODB_STATUS_TYPE_ERROR "invalid LIKE operand type";;
  raise_if (negb (like_type (ty_kind left)) || negb (like_type (ty_kind right))) TURBODB_STATUS_UNSUPPORTED
    "LIKE requires TEXT or NULL operands";;
  mret (mk_like left right (mk_type KIND_BOOLEAN (ty_nullable left || ty_nullable right)) escape negated false).

(** The text of a value that is not NULL. *)
Definition text_of (value : turbodb_value_t) : option bytes :=
  match tv_data value with TURBODB_VALUE_TEXT _ => blob_bytes (bytes_of value) | _ => None end.

Definition ascii_text (value : turbodb_value_t) : option bool :=
  if value_kind value =? KIND_NULL then Some true
  else text ← text_of value; Some (forallb (fun b => b <=? ORM_SQL_ASCII_MAX) text).

Definition like_fold (ch : Z) (insensitive : bool) : Z :=
  if insensitive && (65 <=? ch) && (ch <=? 90) then ch + (97 - 65) else ch.

Definition PERCENT : Z := 37.
Definition UNDERSCORE : Z := 95.

(** The token at the cursor: the byte, whether it was escaped, and the cursor
    after it. *)
Definition like_token (pattern : bytes) (escape cursor : Z) : option (Z * bool * Z) :=
  token ← ld pattern cursor;
  let escaped := token =? escape in
  if escaped && (cursor + 1 <? len pattern)
  then token ← ld pattern (cursor + 1); Some (token, true, cursor + 2)
  else Some (token, escaped, cursor + 1).

(** What an iteration does after its charge: it goes on with new positions or
    ends with an answer. [None] is an access outside the strings. *)
Record like_state : Type := mk_like_state { ls_input : Z; ls_cursor : Z; ls_star : Z; ls_retry : Z }.

(** The end of the body: the last % takes one more byte, or there is no match. *)
Definition like_retry (text : bytes) (s : like_state) : like_state + bool :=
  if negb (ls_star s =? SIZE_MAX) && (ls_retry s <? len text)
  then inl (mk_like_state (ls_retry s + 1) (ls_star s) (ls_star s) (ls_retry s + 1))
  else inr false.

Definition like_step (text pattern : bytes) (escape : Z) (insensitive : bool) (s : like_state) : option (like_state + bool) :=
  if ls_cursor s <? len pattern then
    '(token, escaped, cursor) ← like_token pattern escape (ls_cursor s);
    if negb escaped && (token =? PERCENT) then Some (inl (mk_like_state (ls_input s) cursor cursor (ls_input s)))
    else if ls_input s <? len text then
      ch ← ld text (ls_input s);
      if (negb escaped && (token =? UNDERSCORE)) || (like_fold token insensitive =? like_fold ch insensitive)
      then Some (inl (mk_like_state (ls_input s + 1) cursor (ls_star s) (ls_retry s)))
      else Some (like_retry text s)
    else Some (like_retry text s)
  else Some (like_retry text s).

(** The loop, with fuel for its iterations. *)
Fixpoint like_loop (fuel : nat) (text pattern : bytes) (escape : Z) (insensitive : bool) (s : like_state) : B bool :=
  if (ls_input s <? len text) || (ls_cursor s <? len pattern) then
    match fuel with
    | O => access None
    | S fuel =>
        orm_tidesdb_sql_budget_reserve (Some (charge_amount 1));;
        next ← access (like_step text pattern escape insensitive s);
        match next with
        | inl s' => like_loop fuel text pattern escape insensitive s'
        | inr answer => mret answer
        end
    end
  else mret true.

(** Each % restarts at most once per byte of the text and reads the pattern at
    most once per restart. *)
Definition like_fuel (text pattern : bytes) : nat := ((length text + 1) * (length pattern + 1))%nat.

Definition like_match (text pattern : bytes) (escape : Z) (insensitive : bool) : B bool :=
  like_loop (like_fuel text pattern) text pattern escape insensitive (mk_like_state 0 0 SIZE_MAX 0).

Section Eval.
Context (vstr_utf8_valid : bytes -> bool).

(** From the charge of the validation on; the values have the bound types. *)
Definition like_checked (k : orm_sql_like) (l r : turbodb_value_t) (steps : Z) : B turbodb_value_t :=
  orm_tidesdb_sql_budget_reserve (Some (charge_amount steps));;
  utf8 ← access (valid_texts vstr_utf8_valid l (Some r));
  raise_if (negb utf8) TURBODB_STATUS_TYPE_ERROR "LIKE requires valid UTF-8 TEXT";;
  ascii ← access (x ← ascii_text l; if x : bool then ascii_text r else Some false);
  raise_if (negb ascii) TURBODB_STATUS_UNSUPPORTED "LIKE currently supports ASCII TEXT only";;
  if (value_kind l =? KIND_NULL) || (value_kind r =? KIND_NULL) then mret turbodb_null
  else
    text ← access (text_of l);
    pattern ← access (text_of r);
    matched ← like_match text pattern (lk_escape k) (lk_ascii_insensitive k);
    mret (c_bool (if lk_negated k then negb matched else matched)).

Definition orm_tidesdb_sql_like_eval (like : ptr orm_sql_like) (left right : ptr turbodb_value_t) (wants : bool)
    : B turbodb_value_t :=
  budget ← gets is_some;
  match like, left, right with
  | Some k, Some l, Some r =>
      raise_if (negb budget || negb wants) TURBODB_STATUS_INVALID_ARGUMENT "invalid LIKE evaluation arguments";;
      raise_if (negb (valid_value l (lk_left k)) || negb (valid_value r (lk_right k))) TURBODB_STATUS_TYPE_ERROR
        "LIKE value does not match its bound type";;
      let a := blob_size (bytes_of l) in
      let b := blob_size (bytes_of r) in
      match (s ← add_steps 1 a; s ← add_steps s a; s ← add_steps s b; add_steps s b) with
      | None => raise TURBODB_STATUS_LIMIT_EXCEEDED "LIKE validation step count overflows"
      | Some steps => like_checked k l r steps
      end
  | _, _, _ => raise TURBODB_STATUS_INVALID_ARGUMENT "invalid LIKE evaluation arguments"
  end.
End Eval.

(** ** What a pattern matches *)

Inductive token : Type :=
| Any                (* % *)
| One                (* _ *)
| Lit (c : Z).

Definition plain_token (c : Z) : token := if c =? PERCENT then Any else if c =? UNDERSCORE then One else Lit c.

(** The escape byte quotes the next byte, and stands for itself at the end. *)
Fixpoint tokens (escape : Z) (pattern : bytes) : list token :=
  match pattern with
  | [] => []
  | c :: rest =>
      if c =? escape then match rest with [] => [Lit c] | d :: rest => Lit d :: tokens escape rest end
      else plain_token c :: tokens escape rest
  end.

Section Matches.
Context (insensitive : bool).

Definition accepts (t : token) (c : Z) : bool :=
  match t with
  | Any => false
  | One => true
  | Lit d => like_fold d insensitive =? like_fold c insensitive
  end.

Inductive matches : list token -> bytes -> Prop :=
| match_nil : matches [] []
| match_one t ts c text : accepts t c = true -> matches ts text -> matches (t :: ts) (c :: text)
| match_any_none ts text : matches ts text -> matches (Any :: ts) text
| match_any_more ts c text : matches (Any :: ts) text -> matches (Any :: ts) (c :: text).

Lemma matches_any ts text :
  matches (Any :: ts) text <-> exists k, (k <= length text)%nat /\ matches ts (drop k text).
Proof.
  split.
  - intros H. remember (Any :: ts) as l eqn:El. revert El.
    induction H as [|t ts' c text Ha _ _|ts' text H _|ts' c text _ IH]; intros El; try done.
    + injection El as -> ->. done.
    + injection El as ->. exists O. split; [lia|]. by rewrite drop_0.
    + destruct (IH El) as (k & Hk & Hm). exists (S k). split; [cbn; lia|done].
  - intros (k & Hk & Hm). revert text Hk Hm. induction k as [|k IH]; intros text Hk Hm.
    + rewrite drop_0 in Hm. by apply match_any_none.
    + destruct text as [|c text]; [cbn in Hk; lia|]. apply match_any_more, IH; [cbn in Hk; lia|done].
Qed.

Definition plain (t : token) : Prop := t <> Any.

Lemma matches_cons t ts text :
  plain t -> matches (t :: ts) text <->
  exists c rest, text = c :: rest /\ accepts t c = true /\ matches ts rest.
Proof.
  intros Ht. split.
  - intros H. inversion H; subst; try done. eauto.
  - intros (c & rest & -> & ? & ?). by apply match_one.
Qed.

(** Tokens other than % take one byte each. *)
Lemma matches_prefix q ts text :
  Forall plain q -> matches (q ++ ts) text -> (length q <= length text)%nat /\ matches ts (drop (length q) text).
Proof.
  intros Hq. revert text. induction Hq as [|t q Ht _ IH]; intros text Hm.
  { rewrite drop_0. split; [cbn; lia|done]. }
  cbn [app] in Hm. apply matches_cons in Hm as (c & rest & -> & _ & Hm); [|done].
  destruct (IH rest Hm) as [Hl Hd]. split; [cbn; lia|done].
Qed.

Section Run.
Context (text pattern : bytes) (escape : Z).
Context (pattern_small : len pattern < SIZE_MAX).

Definition text_at (i : Z) : bytes := drop (Z.to_nat i) text.
Definition tokens_at (c : Z) : list token := tokens escape (drop (Z.to_nat c) pattern).

Definition classify (tok : Z) (escaped : bool) : token :=
  if negb escaped && (tok =? PERCENT) then Any
  else if negb escaped && (tok =? UNDERSCORE) then One else Lit tok.

Lemma like_token_spec c :
  0 <= c < len pattern ->
  exists tok escaped c', like_token pattern escape c = Some (tok, escaped, c') /\ c < c' <= len pattern /\
    tokens_at c = classify tok escaped :: tokens_at c'.
Proof.
  intros Hc. unfold like_token, tokens_at.
  destruct (drop (Z.to_nat c) pattern) as [|x rest] eqn:Ed.
  { apply (f_equal length) in Ed. rewrite length_drop in Ed. cbn in Ed. lia. }
  assert (ld pattern c = Some x) as ->.
  { apply (suffix_at_ld pattern c x rest). split_and!; [lia..|done]. }
  assert (drop (Z.to_nat (c + 1)) pattern = rest) as Ed1.
  { replace (Z.to_nat (c + 1)) with (Z.to_nat c + 1)%nat by lia. by rewrite <- drop_drop, Ed. }
  assert (length rest = length pattern - Z.to_nat c - 1)%nat as Hl.
  { apply (f_equal length) in Ed. rewrite length_drop in Ed. cbn in Ed. lia. }
  cbn [mbind option_bind tokens].
  destruct (x =? escape) eqn:Ee; cbn [andb].
  - destruct rest as [|d rest].
    + rewrite (proj2 (Z.ltb_ge _ _)) by (cbn in Hl; lia). exists x, true, (c + 1). split_and!; [done|lia|lia|].
      by rewrite Ed1.
    + rewrite (proj2 (Z.ltb_lt _ _)) by (cbn in Hl; lia).
      assert (ld pattern (c + 1) = Some d) as ->.
      { apply (suffix_at_ld pattern (c + 1) d rest). cbn in Hl. split_and!; [lia..|done]. }
      exists d, true, (c + 2). split_and!; [done|lia|cbn in Hl; lia|].
      replace (Z.to_nat (c + 2)) with (Z.to_nat (c + 1) + 1)%nat by lia. by rewrite <- drop_drop, Ed1.
  - exists x, false, (c + 1). split_and!; [done|lia|lia|]. rewrite Ed1. f_equal.
Qed.

Record like_inv (s : like_state) : Prop := {
  li_input : 0 <= ls_input s <= len text;
  li_cursor : 0 <= ls_cursor s <= len pattern;
  li_star : ls_star s <> SIZE_MAX -> 0 <= ls_star s <= len pattern /\
    exists q, tokens_at (ls_star s) = q ++ tokens_at (ls_cursor s) /\ Forall plain q /\
      ls_input s = ls_retry s + len q;
  li_retry : 0 <= ls_retry s <= ls_input s
}.

(** The last % takes at least one byte more. *)
Definition later (s : like_state) : Prop :=
  ls_star s <> SIZE_MAX /\ exists k, ls_retry s < k <= len text /\ matches (tokens_at (ls_star s)) (text_at k).

(** What is still possible: a match from here, or one with a longer %. *)
Definition possible (s : like_state) : Prop :=
  matches (tokens_at (ls_cursor s)) (text_at (ls_input s)) \/ later s.

Definition measure (s : like_state) : Z :=
  (len text - ls_retry s) * (len pattern + 1) + (len pattern - ls_cursor s).

Definition step_ok (s : like_state) (r : like_state + bool) : Prop :=
  match r with
  | inl s' => like_inv s' /\ (possible s' <-> possible s) /\ measure s' < measure s
  | inr answer => answer = false /\ ~ possible s
  end.

Lemma text_at_end : text_at (len text) = [].
Proof. unfold text_at. rewrite Nat2Z.id. apply drop_all. Qed.
Lemma tokens_at_end : tokens_at (len pattern) = [].
Proof. unfold tokens_at. by rewrite Nat2Z.id, drop_all. Qed.

Lemma text_at_cons i :
  0 <= i < len text -> exists c, ld text i = Some c /\ text_at i = c :: text_at (i + 1).
Proof.
  intros Hi. unfold text_at. destruct (drop (Z.to_nat i) text) as [|c rest] eqn:Ed.
  { apply (f_equal length) in Ed. rewrite length_drop in Ed. cbn in Ed. lia. }
  exists c. split; [apply (suffix_at_ld text i c rest); split_and!; [lia..|done]|].
  replace (Z.to_nat (i + 1)) with (Z.to_nat i + 1)%nat by lia. by rewrite <- drop_drop, Ed.
Qed.

Lemma text_at_add i k : 0 <= i -> drop k (text_at i) = text_at (i + Z.of_nat k).
Proof. intros. unfold text_at. rewrite drop_drop. f_equal. lia. Qed.

Lemma length_text_at i : 0 <= i <= len text -> len (text_at i) = len text - i.
Proof. intros. unfold text_at. rewrite length_drop. lia. Qed.

(** Giving up the current attempt. *)
Lemma like_retry_ok s :
  like_inv s -> ~ matches (tokens_at (ls_cursor s)) (text_at (ls_input s)) -> step_ok s (like_retry text s).
Proof.
  intros [Hi Hc Hs Hr] Hno. unfold like_retry.
  destruct (Z.eqb_spec (ls_star s) SIZE_MAX) as [E|E]; cbn [negb andb].
  { split; [done|]. intros [?|[? _]]; done. }
  destruct (Hs E) as [Hstar _]. destruct (Z.ltb_spec (ls_retry s) (len text)).
  - split_and!.
    + split; cbn; [lia..| |lia]. intros _. split; [done|]. exists []. split_and!; [done|by apply Forall_nil_2|cbn; lia].
    + unfold possible, later. cbn. split.
      * intros [Hm|[_ (k & Hk & Hm)]]; right; (split; [done|]); [exists (ls_retry s + 1)|exists k]; (split; [lia|done]).
      * intros [?|[_ (k & Hk & Hm)]]; [done|]. destruct (decide (k = ls_retry s + 1)) as [->|]; [by left|right].
        split; [done|]. exists k. split; [lia|done].
    + unfold measure. cbn. nia.
  - split; [done|]. intros [?|[_ (k & Hk & _)]]; [done|lia].
Qed.

(** A % at the cursor: the longer matches of the previous % are among those of this one. *)
Lemma like_any_ok s c' :
  like_inv s -> tokens_at (ls_cursor s) = Any :: tokens_at c' -> ls_cursor s < c' <= len pattern ->
  step_ok s (inl (mk_like_state (ls_input s) c' c' (ls_input s))).
Proof.
  intros [Hi Hc Hs Hr] Et Hc'. split_and!.
  - split; cbn; [lia..| |lia]. intros _. split; [lia|]. exists []. split_and!; [done|by apply Forall_nil_2|cbn; lia].
  - assert (forall k, ls_input s <= k <= len text -> matches (tokens_at c') (text_at k) ->
      possible (mk_like_state (ls_input s) c' c' (ls_input s))) as Hnew.
    { intros k Hk Hm. destruct (decide (k = ls_input s)) as [->|]; [by left|right].
      split; [cbn; lia|]. exists k. split; [cbn; lia|done]. }
    split.
    + intros [Hm|[_ (k & Hk & Hm)]]; left; rewrite Et; apply matches_any; cbn in *.
      * exists O. split; [lia|]. by rewrite drop_0.
      * exists (Z.to_nat (k - ls_input s)). pose proof (length_text_at (ls_input s)).
        split; [lia|]. rewrite text_at_add by lia. by replace (ls_input s + _) with k by lia.
    + intros [Hm|[E (k & Hk & Hm)]].
      * rewrite Et in Hm. apply matches_any in Hm as (k & Hk & Hm). pose proof (length_text_at (ls_input s)).
        rewrite text_at_add in Hm by lia. eapply Hnew; [|exact Hm]. lia.
      * destruct (Hs E) as (_ & q & Eq & Hq & Hin). rewrite Eq in Hm.
        apply matches_prefix in Hm as [Hl Hm]; [|done]. pose proof (length_text_at k ltac:(lia)).
        rewrite text_at_add, Et in Hm by lia. apply matches_any in Hm as (j & Hj & Hm).
        pose proof (length_text_at (k + len q) ltac:(lia)).
        rewrite text_at_add in Hm by lia. eapply Hnew; [|exact Hm]. lia.
  - unfold measure. cbn. nia.
Qed.

(** A byte that the token accepts. *)
Lemma like_one_ok s t c' c :
  like_inv s -> plain t -> tokens_at (ls_cursor s) = t :: tokens_at c' -> ls_cursor s < c' <= len pattern ->
  ls_input s < len text -> text_at (ls_input s) = c :: text_at (ls_input s + 1) -> accepts t c = true ->
  step_ok s (inl (mk_like_state (ls_input s + 1) c' (ls_star s) (ls_retry s))).
Proof.
  intros [Hi Hc Hs Hr] Ht Et Hc' Hlt Ex Ha. split_and!.
  - split; cbn; [lia..| |lia]. intros E. destruct (Hs E) as (? & q & Eq & Hq & Hin). split; [done|].
    exists (q ++ [t]). rewrite Eq, Et, <- app_assoc. split_and!; [done|by apply Forall_app_2, Forall_singleton|].
    rewrite length_app. cbn. lia.
  - unfold possible, later. cbn. rewrite Et, Ex, matches_cons by done. split; (intros [Hm|Hm]; [left|by right]).
    + by exists c, (text_at (ls_input s + 1)).
    + destruct Hm as (c1 & rest & [= <- <-] & _ & Hm). done.
  - unfold measure. cbn. nia.
Qed.

Lemma like_step_ok s :
  like_inv s -> ls_input s < len text \/ ls_cursor s < len pattern ->
  exists r, like_step text pattern escape insensitive s = Some r /\ step_ok s r.
Proof.
  intros Hinv Hmore. pose proof Hinv as [Hi Hc _ _]. unfold like_step.
  destruct (Z.ltb_spec (ls_cursor s) (len pattern)) as [Hlt|Hge].
  2:{ eexists. split; [done|]. apply like_retry_ok; [done|].
    replace (ls_cursor s) with (len pattern) by lia. rewrite tokens_at_end.
    destruct (text_at_cons (ls_input s)) as (c & _ & ->); [lia|]. intros H. inversion H. }
  destruct (like_token_spec (ls_cursor s)) as (tok & esc & c' & -> & Hc' & Et); [lia|]. cbn [mbind option_bind].
  unfold classify in Et. destruct (negb esc && (tok =? PERCENT)).
  { eexists. split; [done|]. by apply like_any_ok. }
  set (t := if negb esc && (tok =? UNDERSCORE) then One else Lit tok) in *.
  assert (plain t) as Ht by (unfold t; by case_match).
  destruct (Z.ltb_spec (ls_input s) (len text)) as [Hin|Hend].
  - destruct (text_at_cons (ls_input s)) as (c & -> & Ex); [lia|]. cbn [mbind option_bind].
    assert ((negb esc && (tok =? UNDERSCORE)) || (like_fold tok insensitive =? like_fold c insensitive) =
      accepts t c) as -> by (unfold t; by destruct (negb esc && _)).
    destruct (accepts t c) eqn:Ha; (eexists; split; [done|]); [by eapply like_one_ok|].
    apply like_retry_ok; [done|]. rewrite Et, Ex, matches_cons by done.
    intros (c1 & rest & [= <- <-] & Ha' & _). congruence.
  - eexists. split; [done|]. apply like_retry_ok; [done|]. replace (ls_input s) with (len text) by lia.
    rewrite text_at_end, Et, matches_cons by done. by intros (? & ? & ? & _).
Qed.

(** ** The loop *)

Lemma like_loop_wp fuel s b :
  like_inv s -> measure s < Z.of_nat fuel -> ledger_ok b ->
  wp (like_loop fuel text pattern escape insensitive s)
    (fun a st => (a = true <-> possible s) /\ exists n b', st = Some b' /\ spent b n b' /\ 0 <= n <= measure s + 1)
    (fun f st => exists n b', st = Some b' /\ spent b n b' /\ 0 <= n <= measure s /\
      (statement_active b = true -> steps_left b <= measure s)) (Some b).
Proof.
  revert s b. induction fuel as [|fuel IH]; intros s b Hinv Hm Hb; pose proof Hinv as [Hi Hc _ Hr];
    assert (0 <= measure s) as Hpos by (unfold measure; nia); [cbn in Hm; lia|].
  cbn [like_loop]. destruct ((ls_input s <? len text) || (ls_cursor s <? len pattern)) eqn:Hmore.
  2:{ bsimp. tdb_step. split; [|exists 0, b; split_and!; [done|by apply spent_refl|lia..]]. split; [|done]. intros _. left.
    replace (ls_input s) with (len text) by lia. replace (ls_cursor s) with (len pattern) by lia.
    rewrite text_at_end, tokens_at_end. constructor. }
  tdb_step. eapply wp_mono; [apply charge_spent; [done|lia]|..].
  2:{ intros f st [-> Hf]. exists 0, b. split_and!; [done|by apply spent_refl|lia..|]. intros Ha. specialize (Hf Ha). lia. }
  intros _ st (Ha & Hle & b1 & -> & Hs1). destruct (like_step_ok s Hinv) as (r & -> & Hr').
  { apply orb_true_iff in Hmore as [?|?]; bsimp; auto. }
  tdb_step. apply wp_access; [done|]. intros r' [= <-]. destruct r as [s'|a].
  - destruct Hr' as (Hinv' & Hpos' & Hdec). eapply wp_mono; [apply IH; [done|lia|apply Hs1]|..].
    + intros a st (Hans & n & b2 & -> & Hs2 & Hn). split; [by rewrite Hans|].
      exists (1 + n), b2. split_and!; [done|by eapply spent_trans|lia..].
    + intros f st (n & b2 & -> & Hs2 & Hn & Hleft). exists (1 + n), b2.
      split_and!; [done|by eapply spent_trans|lia..|]. intros _. rewrite (sp_active _ _ _ Hs1) in Hleft.
      specialize (Hleft Ha). rewrite (spent_left _ _ _ Hs1) in Hleft. lia.
  - destruct Hr' as [-> Hno]. tdb_step. split; [by split|]. exists 1, b1. split_and!; [done|done|lia..].
Qed.
End Run.
End Matches.

(** The work the matcher may do. *)
Definition like_bound (text pattern : bytes) : Z := (len text + 1) * (len pattern + 1).

Lemma like_match_wp text pattern escape insensitive b :
  len pattern < 2 ^ 63 -> ledger_ok b ->
  wp (like_match text pattern escape insensitive)
    (fun a st => (a = true <-> matches insensitive (tokens escape pattern) text) /\
      exists n b', st = Some b' /\ spent b n b' /\ 0 <= n <= like_bound text pattern)
    (fun f st => exists n b', st = Some b' /\ spent b n b' /\ 0 <= n <= like_bound text pattern /\
      (statement_active b = true -> steps_left b < like_bound text pattern)) (Some b).
Proof.
  intros Hp Hb. set (s0 := mk_like_state 0 0 SIZE_MAX 0).
  assert (measure text pattern s0 = like_bound text pattern - 1) as Hm.
  { unfold measure, like_bound, s0. cbn. lia. }
  assert (possible insensitive text pattern escape s0 <-> matches insensitive (tokens escape pattern) text) as Hpos.
  { unfold possible, later, s0, tokens_at, text_at. cbn. rewrite !drop_0. split; [|by left]. by intros [?|[? _]]. }
  eapply wp_mono; [apply (like_loop_wp insensitive text pattern escape ltac:(unfold SIZE_MAX; lia) (like_fuel text pattern) s0 b)|..].
  - split; cbn; [lia..|done|lia].
  - rewrite Hm. unfold like_bound, like_fuel. lia.
  - done.
  - intros a st (Ha & n & b' & -> & Hs & Hn). rewrite Ha, Hpos. split; [done|].
    exists n, b'. rewrite Hm in Hn. split_and!; [done..|lia|lia].
  - intros f st (n & b' & -> & Hs & Hn & Hl). rewrite Hm in *. exists n, b'. split_and!; [done..|lia|lia|].
    intros Ha. specialize (Hl Ha). lia.
Qed.

Section LikeEval.
Context (vstr_utf8_valid : bytes -> bool).

Definition ascii_ok (v : turbodb_value_t) : bool := forallb (fun b => b <=? ORM_SQL_ASCII_MAX) (content v).

(** A bound operand is NULL or a text whose bytes are there. *)
Lemma like_operand v t :
  value_ok v -> valid_value v t = true -> like_type (ty_kind t) = true ->
  (is_null v = true /\ ascii_text v = Some true /\ content v = []) \/
  (is_null v = false /\ text_of v = Some (content v) /\ ascii_text v = Some (ascii_ok v) /\
   len (content v) = blob_size (bytes_of v)).
Proof.
  intros Hok Hv Ht. destruct (is_null v) eqn:Hn.
  - left. unfold ascii_text. fold (is_null v). rewrite Hn. split_and!; [done..|].
    unfold content, is_null, value_kind, bytes_of, value_ok in *. by destruct (tv_data v).
  - right. pose proof (valid_value_kind v t Hv Hn) as Hk.
    destruct (blob_bytes_present _ (value_ok_view v Hok) (valid_value_present v t Hv)) as (x & E & Hl & _).
    pose proof (proj1 (value_ok_view v Hok)).
    assert (text_of v = Some (content v)) as Et.
    { unfold text_of, content. rewrite E. unfold like_type in Ht. rewrite <- Hk in Ht.
      unfold is_null, value_kind, value_ok in *. destruct (tv_data v); try done.
      unfold KIND_NULL, KIND_TEXT, KIND_BLOB in *. bsimp. lia. }
    split_and!; [done..| |].
    + unfold ascii_text. fold (is_null v). rewrite Hn, Et. done.
    + unfold content. rewrite E. cbn. rewrite length_take. lia.
Qed.

Lemma like_bind_inv {S} left right escape negated (s : S) k s' :
  orm_tidesdb_sql_like_bind left right escape negated true s = (Ret k, s') ->
  like_type (ty_kind left) = true /\ like_type (ty_kind right) = true /\
  k = mk_like left right (mk_type KIND_BOOLEAN (ty_nullable left || ty_nullable right)) escape negated false.
Proof.
  intros E. unfold orm_tidesdb_sql_like_bind in E.
  apply bind_Ret in E as (? & ? & _ & E). apply bind_Ret in E as (? & ? & _ & E).
  apply bind_Ret in E as (? & ? & [Ht _]%raise_if_Ret & E). injection E as <- _.
  apply orb_false_iff in Ht as [H1%negb_false_iff H2%negb_false_iff]. done.
Qed.

Definition with_insensitive (i : bool) (k : orm_sql_like) : orm_sql_like :=
  mk_like (lk_left k) (lk_right k) (lk_result k) (lk_escape k) (lk_negated k) i.

(** The steps of the validation. *)
Definition like_steps (l r : turbodb_value_t) : Z := 1 + 2 * blob_size (bytes_of l) + 2 * blob_size (bytes_of r).

(** The longest run of an evaluation. *)
Definition like_cost (l r : turbodb_value_t) : Z := like_steps l r + like_bound (content l) (content r).

Lemma like_add_steps a b :
  0 <= a < 2 ^ 63 -> 0 <= b < 2 ^ 63 ->
  (s ← add_steps 1 a; s ← add_steps s a; s ← add_steps s b; add_steps s b) =
  if 2 ^ 64 <=? 1 + 2 * a + 2 * b then None else Some (1 + 2 * a + 2 * b).
Proof.
  intros. repeat (cbn [mbind option_bind]; first
    [ rewrite add_steps_spec by lia
    | match goal with |- context [if ?a <=? ?b then _ else _] => destruct (Z.leb_spec a b) end
    | done | lia ]); f_equal; lia.
Qed.

Lemma ascii_both l r tl tr :
  value_ok l -> value_ok r -> valid_value l tl = true -> valid_value r tr = true ->
  like_type (ty_kind tl) = true -> like_type (ty_kind tr) = true ->
  (x ← ascii_text l; if x : bool then ascii_text r else Some false) = Some (ascii_ok l && ascii_ok r).
Proof.
  intros Hl Hr Hvl Hvr Htl Htr.
  assert (forall v t, value_ok v -> valid_value v t = true -> like_type (ty_kind t) = true ->
    ascii_text v = Some (ascii_ok v)) as Ha.
  { intros v t Hv Hvv Ht. destruct (like_operand v t) as [(_ & -> & E)|(_ & _ & -> & _)]; [done..| |done].
    unfold ascii_ok. by rewrite E. }
  rewrite (Ha l tl), (Ha r tr) by done. cbn. by destruct (ascii_ok l).
Qed.

(** The answer of LIKE. *)
Definition like_answer (negated insensitive : bool) (escape : Z) (l r v : turbodb_value_t) : Prop :=
  if is_null l || is_null r then v = turbodb_null
  else exists matched, v = c_bool (xorb negated matched) /\
    (matched = true <-> matches insensitive (tokens escape (content r)) (content l)).

Definition spent_at_most (b : orm_tidesdb_sql_budget) (cost : Z) (s : ptr orm_tidesdb_sql_budget) : Prop :=
  exists n b', s = Some b' /\ spent b n b' /\ 0 <= n <= cost.

Lemma like_checked_wp k l r b :
  ledger_ok b -> value_ok l -> value_ok r -> valid_value l (lk_left k) = true -> valid_value r (lk_right k) = true ->
  like_type (ty_kind (lk_left k)) = true -> like_type (ty_kind (lk_right k)) = true -> like_steps l r < 2 ^ 64 ->
  let admissible := (utf8_ok vstr_utf8_valid l && utf8_ok vstr_utf8_valid r) && (ascii_ok l && ascii_ok r) in
  wp (like_checked vstr_utf8_valid k l r (like_steps l r))
    (fun v s => admissible = true /\ like_answer (lk_negated k) (lk_ascii_insensitive k) (lk_escape k) l r v /\
      spent_at_most b (like_cost l r) s)
    (fun f s => (admissible = false \/ statement_active b = false \/ steps_left b < like_cost l r) /\
      spent_at_most b (like_cost l r) s) (Some b).
Proof.
  intros Hb Hl Hr Hvl Hvr Htl Htr Hsmall admissible.
  pose proof (proj1 (value_ok_view l Hl)) as Hsl. pose proof (proj1 (value_ok_view r Hr)) as Hsr.
  assert (0 <= like_bound (content l) (content r)) as Hbound by (unfold like_bound; nia).
  assert (0 < like_steps l r) as Hsteps by (unfold like_steps; lia).
  unfold like_checked. tdb_step. eapply wp_mono; [apply charge_spent; [done|lia]|..].
  2:{ intros f s [-> Hf]. split.
    - right. destruct (statement_active b); [right|by left]. specialize (Hf eq_refl). unfold like_cost. lia.
    - exists 0, b. split_and!; [done|by apply spent_refl|lia|unfold like_cost; lia]. }
  intros _ s (Ha & Hle & b1 & -> & Hs1).
  assert (spent_at_most b (like_cost l r) (Some b1)) as Hcost.
  { exists (like_steps l r), b1. unfold like_cost. split_and!; [done..|lia|lia]. }
  tdb_step. rewrite (valid_texts_spec _ l (Some r) (lk_left k) (lk_right k)) by done.
  apply wp_access; [done|]. intros u [= <-]. cbn [maybe]. tdb_step. tdb_step.
  { split; [left|done]. unfold admissible. by rewrite (proj1 (negb_true_iff _) H). }
  tdb_step. rewrite (ascii_both l r (lk_left k) (lk_right k)) by done. apply wp_access; [done|]. intros a [= <-].
  tdb_step. tdb_step.
  { split; [left|done]. unfold admissible. rewrite (proj1 (negb_true_iff _) H0). apply andb_false_r. }
  assert (admissible = true) as Had.
  { unfold admissible. rewrite (proj1 (negb_false_iff _) H), (proj1 (negb_false_iff _) H0). done. }
  unfold like_answer. fold (is_null l) (is_null r). destruct (is_null l || is_null r) eqn:Hn; [by tdb_step|].
  apply orb_false_iff in Hn as [Hnl Hnr].
  destruct (like_operand l _ Hl Hvl Htl) as [[? _]|(_ & -> & _ & _)]; [congruence|].
  destruct (like_operand r _ Hr Hvr Htr) as [[? _]|(_ & -> & _ & Hlen)]; [congruence|].
  do 2 (tdb_step; apply wp_access; [done|]; intros ? [= <-]).
  tdb_step. eapply wp_mono; [apply like_match_wp; [lia|apply Hs1]|..].
  - intros m s (Hm & n & b2 & -> & Hs2 & Hcount). tdb_step. split_and!; [done| |].
    + exists m. split; [by destruct (lk_negated k)|done].
    + exists (like_steps l r + n), b2. unfold like_cost. split_and!; [done|by eapply spent_trans|lia..].
  - intros f s (n & b2 & -> & Hs2 & Hcount & Hleft). split.
    + right; right. rewrite (sp_active _ _ _ Hs1), (spent_left _ _ _ Hs1) in Hleft. specialize (Hleft Ha).
      unfold like_cost. lia.
    + exists (like_steps l r + n), b2. unfold like_cost. split_and!; [done|by eapply spent_trans|lia..].
Qed.

(** C14. LIKE, on every branch. It never reads outside its operands and always
    ends. With NULL the result is NULL; otherwise it is whether the text
    matches the pattern, % standing for any bytes, _ for one and an escaped
    byte for itself, negated for NOT LIKE. An evaluation spends at most
    1 + 2 (a + b) + (a + 1) (b + 1) steps for operands of a and b bytes, and
    when the values have the bound types, are valid UTF-8 and ASCII, and that
    many steps are left in a statement in progress, it succeeds. *)
Theorem like_eval_exact left right escape negated insensitive k b l r :
  reachable b -> orm_tidesdb_sql_like_bind left right escape negated true tt = (Ret k, tt) ->
  value_ok l -> value_ok r ->
  let admissible := valid_value l left && valid_value r right &&
    ((utf8_ok vstr_utf8_valid l && utf8_ok vstr_utf8_valid r) && (ascii_ok l && ascii_ok r)) in
  match orm_tidesdb_sql_like_eval vstr_utf8_valid (Some (with_insensitive insensitive k)) (Some l) (Some r) true (Some b) with
  | (Ret v, s) => admissible = true /\ like_answer negated insensitive escape l r v /\ spent_at_most b (like_cost l r) s
  | (Err f, s) => (admissible = false \/ statement_active b = false \/ steps_left b < like_cost l r) /\
      spent_at_most b (like_cost l r) s
  | (Fault, _) => False
  end.
Proof.
  intros Hb%reachable_ledger_ok (Htl & Htr & ->)%like_bind_inv Hl Hr admissible.
  pose proof (proj1 (value_ok_view l Hl)) as Hsl. pose proof (proj1 (value_ok_view r Hr)) as Hsr.
  unfold orm_tidesdb_sql_like_eval, with_insensitive. set (k := mk_like _ _ _ _ _ insensitive).
  unfold mbind, M_bind, gets, raise_if, fail_if. cbn [is_some negb orb]. rewrite <- negb_andb.
  cbn [k lk_left lk_right lk_escape lk_negated lk_ascii_insensitive]. unfold admissible. clear admissible.
  assert (spent_at_most b (like_cost l r) (Some b)) as Hnone.
  { exists 0, b. split_and!; [done|by apply spent_refl|lia|unfold like_cost, like_steps, like_bound; nia]. }
  destruct (valid_value l left && valid_value r right) eqn:Hv; cbn [negb andb]; [|auto].
  apply andb_true_iff in Hv as [Hvl Hvr]. cbv zeta.
  fold (@mbind option _ Z Z). rewrite like_add_steps by done. fold (like_steps l r).
  destruct (Z.leb_spec (2 ^ 64) (like_steps l r)) as [Hbig|Hsmall].
  - split; [right; right|done]. unfold steps_left, like_cost, like_bound.
    pose proof (ledger_used_range b ORM_SQL_BUDGET_EXECUTION_STEPS Hb).
    pose proof (proj2 (proj1 (ok_limits b Hb)) ORM_SQL_BUDGET_EXECUTION_STEPS). nia.
  - exact (like_checked_wp k l r b Hb Hl Hr Hvl Hvr Htl Htr Hsmall).
Qed.
End LikeEval.

(** ** Witnesses *)

Definition sample_text (l : bytes) : turbodb_value_t := turbodb_text_v (mk_vstr (Some l) (len l)).

(** 'abc' LIKE 'a%c' *)
Lemma like_eval_exact_witness :
  fst (orm_tidesdb_sql_like_eval (fun _ => true)
    (Some (mk_like (mk_type KIND_TEXT false) (mk_type KIND_TEXT false) (mk_type KIND_BOOLEAN false) 92 false false))
    (Some (sample_text [97; 98; 99])) (Some (sample_text [97; 37; 99])) true (Some (sample_after [Op_begin]))) =
    Ret (c_bool true) /\
  like_answer false false 92 (sample_text [97; 98; 99]) (sample_text [97; 37; 99]) (c_bool true).
Proof.
  split; [vm_compute; reflexivity|].
  pose proof (like_eval_exact (fun _ => true) (mk_type KIND_TEXT false) (mk_type KIND_TEXT false) 92 false false
    (mk_like (mk_type KIND_TEXT false) (mk_type KIND_TEXT false) (mk_type KIND_BOOLEAN false) 92 false false)
    (sample_after [Op_begin]) (sample_text [97; 98; 99]) (sample_text [97; 37; 99]) sample_begun eq_refl) as H.
  assert (forall c, 0 <= c < 256 -> value_ok (sample_text [97; c; 99])) as Hok.
  { intros c Hc. split; [cbn; lia|]. cbn. split; [lia|]. repeat (apply Forall_cons_2; [lia|]). apply Forall_nil_2. }
  specialize (H (Hok 98 ltac:(lia)) (Hok 37 ltac:(lia))). cbv zeta in H.
  match type of H with match ?t with _ => _ end =>
    assert (exists s, t = (Ret (c_bool true), s)) as [s E] by (eexists; vm_compute; reflexivity)
  end.
  rewrite E in H. exact (proj1 (proj2 H)).
Defined.
