(* ===== verification/Arithmetic.v ===== *)
(** * SQL arithmetic (tidessql/src/value.c, value.h)

    Binding an arithmetic operation to the types of its operands and
    evaluating it. Signed operations whose result would leave the type are
    undefined behaviour, so the model makes them [Fault]; unsigned ones wrap.
    pow(10, n) is a function of the C library the model is parametric in. *)

From S2P Require Import Prelude Row Command Errors Budget Float Value.

(** ** Data *)

Definition ORM_SQL_ADD : Z := 0.
Definition ORM_SQL_SUBTRACT : Z := 1.
Definition ORM_SQL_MULTIPLY : Z := 2.
Definition ORM_SQL_POSITIVE : Z := 3.
Definition ORM_SQL_NEGATE : Z := 4.
Definition ORM_SQL_ABSOLUTE : Z := 5.
Definition ORM_SQL_SIGN : Z := 6.
Definition ORM_SQL_FLOOR : Z := 7.
Definition ORM_SQL_CEIL : Z := 8.
Definition ORM_SQL_DIVIDE : Z := 9.
Definition ORM_SQL_INTEGER_DIVIDE : Z := 10.
Definition ORM_SQL_MODULO : Z := 11.
Definition ORM_SQL_ROUND : Z := 12.
Definition ORM_SQL_TRUNCATE : Z := 13.

Record orm_sql_arithmetic : Type := mk_arithmetic {
  a_op : Z;
  a_left : orm_sql_type;
  a_right : orm_sql_type;
  a_result : orm_sql_type
}.

Inductive orm_sql_numeric_condition : Type :=
| ORM_SQL_NUMERIC_EXACT
| ORM_SQL_NUMERIC_DIVISION_BY_ZERO.

(** ** Binding *)

Definition arithmetic_unary (op : Z) : bool := (ORM_SQL_POSITIVE <=? op) && (op <=? ORM_SQL_CEIL).
Definition numeric_type (kind : Z) : bool := (kind =? KIND_NULL) || integral kind || (kind =? KIND_DOUBLE).
Definition arithmetic_division (op : Z) : bool := (ORM_SQL_DIVIDE <=? op) && (op <=? ORM_SQL_MODULO).
Definition arithmetic_rounding (op : Z) : bool := (op =? ORM_SQL_ROUND) || (op =? ORM_SQL_TRUNCATE).

(** An operand kind of integer arithmetic. *)
Definition integer_or_null (kind : Z) : bool := integral kind || (kind =? KIND_NULL).

Definition orm_tidesdb_sql_arithmetic_bind {S} (op : Z) (left : orm_sql_type) (right : ptr orm_sql_type) (wants : bool)
    : M turbodb_failure S orm_sql_arithmetic :=
  raise_if ((op <? ORM_SQL_ADD) || (ORM_SQL_TRUNCATE <? op)) TURBODB_STATUS_UNSUPPORTED
    "unsupported arithmetic operation";;
  raise_if (negb wants || (if arithmetic_unary op then is_some right else negb (is_some right)))
    TURBODB_STATUS_INVALID_ARGUMENT "invalid arithmetic output or arity";;
  raise_if (negb (valid_type left) || maybe (fun r => negb (valid_type r)) right false) TURBODB_STATUS_TYPE_ERROR
    "invalid arithmetic operand type";;
  let lk := ty_kind left in
  let nullable := ty_nullable left || maybe ty_nullable right false in
  if arithmetic_rounding op then
    r ← access right;
    raise_if (negb (numeric_type lk) || (negb (integral (ty_kind r)) && negb (ty_kind r =? KIND_NULL)))
      TURBODB_STATUS_UNSUPPORTED "rounding requires numeric value and integer precision";;
    mret (mk_arithmetic op left r (mk_type lk nullable))
  else
    let integer_pair := maybe (fun r => integer_or_null lk && integer_or_null (ty_kind r)) right false in
    let real_pair := maybe (fun r => negb (op =? ORM_SQL_INTEGER_DIVIDE) &&
      ((lk =? KIND_DOUBLE) || (ty_kind r =? KIND_DOUBLE))) right false in
    let same := maybe (fun r => (lk =? KIND_NULL) || (ty_kind r =? KIND_NULL) || (lk =? ty_kind r)) right true in
    raise_if (negb (numeric_type lk) || maybe (fun r => negb (numeric_type (ty_kind r))) right false ||
        (negb same && negb real_pair && negb (integer_pair && ((op =? ORM_SQL_INTEGER_DIVIDE) || (op =? ORM_SQL_MODULO)))) ||
        ((op =? ORM_SQL_NEGATE) && (lk =? KIND_UINT64)))
      TURBODB_STATUS_UNSUPPORTED "unsupported arithmetic type or implicit conversion";;
    raise_if (((op =? ORM_SQL_INTEGER_DIVIDE) && negb integer_pair) ||
        ((op =? ORM_SQL_DIVIDE) && negb real_pair &&
         (integral lk || maybe (fun r => integral (ty_kind r)) right false)))
      TURBODB_STATUS_UNSUPPORTED "exact division or noninteger DIV requires DECIMAL";;
    let kind := if real_pair then KIND_DOUBLE
      else if (op =? ORM_SQL_SIGN) && negb (lk =? KIND_NULL) then KIND_INT64
      else match right with Some r => if lk =? KIND_NULL then ty_kind r else lk | None => lk end in
    let kind := if (op =? ORM_SQL_INTEGER_DIVIDE) &&
        ((lk =? KIND_UINT64) || maybe (fun r => ty_kind r =? KIND_UINT64) right false) then KIND_UINT64 else kind in
    mret (mk_arithmetic op left (default (mk_type KIND_NULL true) right)
      (mk_type kind (arithmetic_division op || nullable))).

(** ** Integers *)

Definition INT64_MIN : Z := - 2 ^ 63.

(** The result of a signed 64-bit operation. *)
Definition i64 (z : Z) : option Z := if (INT64_MIN <=? z) && (z <=? INT64_MAX) then Some z else None.

Definition arithmetic_range_error {S A} : M turbodb_failure S A :=
  raise TURBODB_STATUS_LIMIT_EXCEEDED "arithmetic result is out of range".
Definition out_of_range_if {S} (c : bool) : M turbodb_failure S unit :=
  raise_if c TURBODB_STATUS_LIMIT_EXCEEDED "arithmetic result is out of range".

Definition signed_magnitude (value : Z) : Z := if value <? 0 then u64 (u64 (- (value + 1)) + 1) else value.

(** [negative ? m == INT64_MAX + 1 ? INT64_MIN : -(int64_t)m : (int64_t)m] *)
Definition signed_of (negative : bool) (m : Z) : option Z :=
  if negative then if m =? INT64_MAX + 1 then Some INT64_MIN else x ← i64 m; i64 (- x) else i64 m.

Definition bool_Z (b : bool) : Z := if b then 1 else 0.

Definition arithmetic_i64 {S} (op a b : Z) : M turbodb_failure S turbodb_value_t :=
  if op =? ORM_SQL_ADD then
    out_of_range_if (((0 <? b) && (INT64_MAX - b <? a)) || ((b <? 0) && (a <? INT64_MIN - b)));;
    z ← access (i64 (a + b)); mret (turbodb_i64 z)
  else if op =? ORM_SQL_SUBTRACT then
    out_of_range_if (((0 <? b) && (a <? INT64_MIN + b)) || ((b <? 0) && (INT64_MAX + b <? a)));;
    z ← access (i64 (a - b)); mret (turbodb_i64 z)
  else
    let negative := xorb (a <? 0) (b <? 0) in
    let x := signed_magnitude a in
    let y := signed_magnitude b in
    let maximum := u64 (INT64_MAX + bool_Z negative) in
    out_of_range_if (negb (x =? 0) && (maximum / x <? y));;
    let product := u64 (x * y) in
    z ← access (signed_of negative product); mret (turbodb_i64 z).

Definition arithmetic_u64 {S} (op a b : Z) : M turbodb_failure S turbodb_value_t :=
  if op =? ORM_SQL_ADD then out_of_range_if (size_sub UINT64_MAX a <? b);; mret (turbodb_u64 (u64 (a + b)))
  else if op =? ORM_SQL_SUBTRACT then out_of_range_if (a <? b);; mret (turbodb_u64 (size_sub a b))
  else out_of_range_if (negb (a =? 0) && (UINT64_MAX / a <? b));; mret (turbodb_u64 (u64 (a * b))).

(** The sign and the magnitude of an integer value. *)
Definition is_negative (value : turbodb_value_t) : bool :=
  match tv_data value with TURBODB_VALUE_INT64 z => z <? 0 | _ => false end.
Definition magnitude_of (value : turbodb_value_t) : option Z :=
  match tv_data value with
  | TURBODB_VALUE_UINT64 z => Some z
  | TURBODB_VALUE_INT64 z => Some (signed_magnitude z)
  | _ => None
  end.

(** For a divisor that is not zero: division by zero is undefined. *)
Definition arithmetic_integer_division {S} (arithmetic : orm_sql_arithmetic) (left right : turbodb_value_t)
    : M turbodb_failure S turbodb_value_t :=
  a ← access (magnitude_of left);
  b ← access (magnitude_of right);
  access (if b =? 0 then None else Some tt);;
  let modulo := a_op arithmetic =? ORM_SQL_MODULO in
  let value := if modulo then a mod b else a / b in
  let negative := if modulo then is_negative left else xorb (is_negative left) (is_negative right) in
  if ty_kind (a_result arithmetic) =? KIND_UINT64 then
    out_of_range_if (negative && negb (value =? 0));; mret (turbodb_u64 value)
  else
    let maximum := u64 (INT64_MAX + bool_Z (negative && modulo)) in
    out_of_range_if (maximum <? value);;
    z ← access (signed_of negative value); mret (turbodb_i64 z).

Definition INTEGER_DECIMAL_POWERS : Z := 20.

(** [for (i = 0; i < digits; ++i) scale *= 10;] *)
Fixpoint decimal_scale (digits : nat) (scale : Z) : Z :=
  match digits with O => scale | S digits => decimal_scale digits (u64 (scale * 10)) end.

Definition arithmetic_round_integer {S} (op : Z) (input : turbodb_value_t) (digits : Z)
    : M turbodb_failure S turbodb_value_t :=
  let unsigned := value_kind input =? KIND_UINT64 in
  if INTEGER_DECIMAL_POWERS <=? digits then mret (if unsigned then turbodb_u64 0 else turbodb_i64 0)
  else
    let scale := decimal_scale (Z.to_nat digits) 1 in
    let negative := is_negative input in
    magnitude ← access (magnitude_of input);
    let maximum := if unsigned then UINT64_MAX else u64 (INT64_MAX + bool_Z negative) in
    access (if scale =? 0 then None else Some tt);;
    let remainder := magnitude mod scale in
    let rounded := size_sub magnitude remainder in
    let up := (op =? ORM_SQL_ROUND) && (scale / 2 <=? remainder) in
    out_of_range_if (up && (size_sub maximum rounded <? scale));;
    let rounded := if up then u64 (rounded + scale) else rounded in
    if unsigned then mret (turbodb_u64 rounded)
    else z ← access (signed_of negative rounded); mret (turbodb_i64 z).

(** ** Doubles *)

Definition arithmetic_real {S} (op : Z) (left right : turbodb_value_t) : M turbodb_failure S turbodb_value_t :=
  a ← access (numeric_real_value left);
  b ← access (numeric_real_value right);
  value ← (
    if op =? ORM_SQL_ADD then mret (double_add a b)
    else if op =? ORM_SQL_SUBTRACT then mret (double_sub a b)
    else if op =? ORM_SQL_MULTIPLY then mret (double_mul a b)
    else if op =? ORM_SQL_DIVIDE then mret (double_div a b)
    else if op =? ORM_SQL_MODULO then mret (double_fmod a b)
    else raise TURBODB_STATUS_INVALID_STATE "invalid real arithmetic operation");
  out_of_range_if (negb (isfinite value));;
  mret (turbodb_f64 value).

Definition DBL_MAX_10_EXP : Z := 308.

Section Pow.
(** pow of the C library, on patterns. *)
Context (pow : Z -> Z -> Z).

Definition arithmetic_round {S} (op : Z) (input precision : turbodb_value_t) : M turbodb_failure S turbodb_value_t :=
  let negative := is_negative precision in
  digits ← access (magnitude_of precision);
  match tv_data input with
  | TURBODB_VALUE_DOUBLE d =>
      if DBL_MAX_10_EXP <? digits then mret (if negative then turbodb_f64 0 else input)
      else
        let scale := pow (double_of_integer 10) (double_of_integer digits) in
        let scaled := if negative then double_div d scale else double_mul d scale in
        if negb negative && negb (isfinite scaled) then mret input
        else
          let integral_value := if op =? ORM_SQL_ROUND then double_rint scaled else double_trunc scaled in
          let result := if negative then double_mul integral_value scale else double_div integral_value scale in
          out_of_range_if (negb (isfinite result));;
          mret (turbodb_f64 result)
  | _ => if negb negative then mret input else arithmetic_round_integer op input digits
  end.

(** ** Evaluation *)

Definition is_zero (value : turbodb_value_t) : option bool :=
  match tv_data value with
  | TURBODB_VALUE_DOUBLE d => Some (double_eq d 0)
  | TURBODB_VALUE_UINT64 z | TURBODB_VALUE_INT64 z => Some (z =? 0)
  | _ => None
  end.

Definition int64_field (value : turbodb_value_t) : option Z :=
  match tv_data value with TURBODB_VALUE_INT64 z => Some z | _ => None end.
Definition uint64_field (value : turbodb_value_t) : option Z :=
  match tv_data value with TURBODB_VALUE_UINT64 z => Some z | _ => None end.
Definition double_field (value : turbodb_value_t) : option Z :=
  match tv_data value with TURBODB_VALUE_DOUBLE d => Some d | _ => None end.

(** The branch of the unary operations. *)
Definition arithmetic_apply_unary {S} (op : Z) (left : turbodb_value_t) : M turbodb_failure S turbodb_value_t :=
  if op =? ORM_SQL_NEGATE then
    match tv_data left with
    | TURBODB_VALUE_INT64 z => out_of_range_if (z =? INT64_MIN);; n ← access (i64 (- z)); mret (turbodb_i64 n)
    | _ => d ← access (double_field left); mret (turbodb_f64 (double_neg d))
    end
  else if op =? ORM_SQL_ABSOLUTE then
    match tv_data left with
    | TURBODB_VALUE_INT64 z =>
        out_of_range_if (z =? INT64_MIN);;
        n ← access (if z <? 0 then i64 (- z) else Some z); mret (turbodb_i64 n)
    | TURBODB_VALUE_DOUBLE d => mret (turbodb_f64 (double_abs d))
    | _ => mret left
    end
  else if op =? ORM_SQL_SIGN then
    match tv_data left with
    | TURBODB_VALUE_INT64 z => mret (turbodb_i64 (bool_Z (0 <? z) - bool_Z (z <? 0)))
    | TURBODB_VALUE_UINT64 z => mret (turbodb_i64 (bool_Z (negb (z =? 0))))
    | _ => d ← access (double_field left); mret (turbodb_i64 (bool_Z (double_lt 0 d) - bool_Z (double_lt d 0)))
    end
  else
    match tv_data left with
    | TURBODB_VALUE_DOUBLE d =>
        mret (if op =? ORM_SQL_FLOOR then turbodb_f64 (double_floor d)
              else if op =? ORM_SQL_CEIL then turbodb_f64 (double_ceil d)
              else left)
    | _ => mret left
    end.

(** The computation, once the step is charged. *)
Definition arithmetic_apply {S} (arithmetic : orm_sql_arithmetic) (left : turbodb_value_t) (right : ptr turbodb_value_t)
    : M turbodb_failure S (turbodb_value_t * orm_sql_numeric_condition) :=
  let op := a_op arithmetic in
  let exact m := v ← m; mret (v, ORM_SQL_NUMERIC_EXACT) in
  if (value_kind left =? KIND_NULL) || maybe (fun r => value_kind r =? KIND_NULL) right false
  then mret (turbodb_null, ORM_SQL_NUMERIC_EXACT)
  else if arithmetic_rounding op then r ← access right; exact (arithmetic_round op left r)
  else if arithmetic_division op then
    r ← access right;
    zero ← access (is_zero r);
    if zero : bool then mret (turbodb_null, ORM_SQL_NUMERIC_DIVISION_BY_ZERO)
    else if ty_kind (a_result arithmetic) =? KIND_DOUBLE then exact (arithmetic_real op left r)
    else exact (arithmetic_integer_division arithmetic left r)
  else if arithmetic_unary op then exact (arithmetic_apply_unary op left)
  else if ty_kind (a_result arithmetic) =? KIND_DOUBLE then r ← access right; exact (arithmetic_real op left r)
  else match tv_data left with
  | TURBODB_VALUE_INT64 a => r ← access right; b ← access (int64_field r); exact (arithmetic_i64 op a b)
  | TURBODB_VALUE_UINT64 a => r ← access right; b ← access (uint64_field r); exact (arithmetic_u64 op a b)
  | _ => raise TURBODB_STATUS_INVALID_STATE "invalid arithmetic result type"
  end.

Definition orm_tidesdb_sql_arithmetic_eval_condition (arithmetic : ptr orm_sql_arithmetic)
    (left right : ptr turbodb_value_t) (wants wants_condition : bool)
    : B (turbodb_value_t * orm_sql_numeric_condition) :=
  budget ← gets is_some;
  match arithmetic, left with
  | Some a, Some l =>
      raise_if (negb budget || negb wants || negb wants_condition ||
          (if arithmetic_unary (a_op a) then is_some right else negb (is_some right)))
        TURBODB_STATUS_INVALID_ARGUMENT "invalid arithmetic arguments";;
      raise_if ((a_op a <? ORM_SQL_ADD) || (ORM_SQL_TRUNCATE <? a_op a)) TURBODB_STATUS_INVALID_STATE
        "invalid bound arithmetic operation";;
      raise_if (negb (valid_value l (a_left a)) || maybe (fun r => negb (valid_value r (a_right a))) right false)
        TURBODB_STATUS_TYPE_ERROR "arithmetic value does not match its bound type";;
      orm_tidesdb_sql_budget_reserve (Some (charge_amount 1));;
      arithmetic_apply a l right
  | _, _ => raise TURBODB_STATUS_INVALID_ARGUMENT "invalid arithmetic arguments"
  end.

Definition orm_tidesdb_sql_arithmetic_eval (arithmetic : ptr orm_sql_arithmetic) (left right : ptr turbodb_value_t)
    (wants : bool) : B turbodb_value_t :=
  raise_if (negb wants) TURBODB_STATUS_INVALID_ARGUMENT "invalid arithmetic output";;
  r ← orm_tidesdb_sql_arithmetic_eval_condition arithmetic left right true true;
  match r with
  | (_, ORM_SQL_NUMERIC_DIVISION_BY_ZERO) => raise TURBODB_STATUS_SQL_ERROR "division by zero"
  | (v, ORM_SQL_NUMERIC_EXACT) => mret v
  end.
End Pow.

(** ** What the integer operations compute *)

Definition int_of (v : turbodb_value_t) : option Z :=
  match tv_data v with TURBODB_VALUE_INT64 z | TURBODB_VALUE_UINT64 z => Some z | _ => None end.

(** To a multiple of 10^n: to the nearest one, ties away from zero, or toward zero. *)
Definition round_away (x n : Z) : Z := Z.sgn x * ((2 * Z.abs x + 10 ^ n) / (2 * 10 ^ n)) * 10 ^ n.
Definition round_zero (x n : Z) : Z := Z.quot x (10 ^ n) * 10 ^ n.

(** The operations on unbounded integers; a unary one ignores [y]. *)
Definition sql_integer (op x y : Z) : Z :=
  if op =? ORM_SQL_ADD then x + y
  else if op =? ORM_SQL_SUBTRACT then x - y
  else if op =? ORM_SQL_MULTIPLY then x * y
  else if op =? ORM_SQL_NEGATE then - x
  else if op =? ORM_SQL_ABSOLUTE then Z.abs x
  else if op =? ORM_SQL_SIGN then Z.sgn x
  else if op =? ORM_SQL_INTEGER_DIVIDE then Z.quot x y
  else if op =? ORM_SQL_MODULO then Z.rem x y
  else if (op =? ORM_SQL_ROUND) && (y <? 0) then round_away x (- y)
  else if (op =? ORM_SQL_TRUNCATE) && (y <? 0) then round_zero x (- y)
  else x.

(** The results a kind holds; DIV does not produce INT64_MIN. *)
Definition lowest (op kind : Z) : Z :=
  if kind =? KIND_UINT64 then 0 else if op =? ORM_SQL_INTEGER_DIVIDE then - INT64_MAX else INT64_MIN.
Definition highest (kind : Z) : Z := if kind =? KIND_UINT64 then UINT64_MAX else INT64_MAX.
Definition in_range (op kind z : Z) : Prop := lowest op kind <= z <= highest kind.

Definition integer_value (kind z : Z) : turbodb_value_t :=
  if kind =? KIND_UINT64 then turbodb_u64 z else turbodb_i64 z.

Definition range_failure : turbodb_failure :=
  mk_failure TURBODB_STATUS_LIMIT_EXCEEDED "arithmetic result is out of range".

(** [m] gives [z] as a value of [kind], or fails when [z] is out of range. *)
Definition computes {S} (m : M turbodb_failure S turbodb_value_t) (op kind z : Z) : Prop :=
  forall s, wp m (fun v s' => s' = s /\ v = integer_value kind z /\ in_range op kind z)
    (fun f s' => s' = s /\ f = range_failure /\ ~ in_range op kind z) s.

Lemma i64_Some z : INT64_MIN <= z <= INT64_MAX -> i64 z = Some z.
Proof. intros [H1 H2]. unfold i64. by rewrite (proj2 (Z.leb_le _ _) H1), (proj2 (Z.leb_le _ _) H2). Qed.

Lemma signed_magnitude_abs z : INT64_MIN <= z <= INT64_MAX -> signed_magnitude z = Z.abs z.
Proof.
  unfold INT64_MIN, INT64_MAX. intros. unfold signed_magnitude. destruct (Z.ltb_spec z 0); [|lia].
  rewrite !u64_small by (rewrite ?u64_small; lia). lia.
Qed.

Lemma signed_of_Some negative m :
  0 <= m <= INT64_MAX + bool_Z negative -> signed_of negative m = Some (if negative then - m else m).
Proof.
  unfold signed_of, INT64_MIN, INT64_MAX, bool_Z. intros. destruct negative; [|apply i64_Some; unfold INT64_MIN, INT64_MAX; lia].
  destruct (Z.eqb_spec m (2 ^ 63 - 1 + 1)) as [->|]; [done|].
  rewrite i64_Some by (unfold INT64_MIN, INT64_MAX; lia). cbn [mbind option_bind].
  apply i64_Some. unfold INT64_MIN, INT64_MAX. lia.
Qed.

Lemma wp_out_of_range_if {S} c (Q : unit -> S -> Prop) (R : turbodb_failure -> S -> Prop) s :
  (c = true -> R range_failure s) -> (c = false -> Q tt s) -> wp (out_of_range_if c) Q R s.
Proof. apply wp_raise_if. Qed.

Lemma wp_access_Some {S A} (o : option A) a (Q : A -> S -> Prop) (R : turbodb_failure -> S -> Prop) s :
  o = Some a -> Q a s -> wp (access o) Q R s.
Proof. by intros ->. Qed.

Lemma computes_i64 {S} c o op z :
  (c = true -> ~ in_range op KIND_INT64 z) -> (c = false -> in_range op KIND_INT64 z /\ o = Some z) ->
  computes (S:=S) (out_of_range_if c;; x ← access o; mret (turbodb_i64 x)) op KIND_INT64 z.
Proof.
  intros Ht Hf s. tdb_step. apply wp_out_of_range_if; intros Hc; [by auto|].
  destruct (Hf Hc) as [Hr ->]. tdb_step. by apply (wp_access_Some _ z).
Qed.

Lemma computes_u64 {S} c x op z :
  (c = true -> ~ in_range op KIND_UINT64 z) -> (c = false -> in_range op KIND_UINT64 z /\ x = z) ->
  computes (S:=S) (out_of_range_if c;; mret (turbodb_u64 x)) op KIND_UINT64 z.
Proof.
  intros Ht Hf s. tdb_step. apply wp_out_of_range_if; intros Hc; [by auto|].
  by destruct (Hf Hc) as [Hr ->].
Qed.

(** An operation that cannot fail. *)
Lemma computes_ret {S} v op kind z :
  v = integer_value kind z -> in_range op kind z -> computes (S:=S) (mret v) op kind z.
Proof. intros -> ? s. by apply wp_ret. Qed.

Lemma computes_access {S A} (o : option A) a (k : A -> M turbodb_failure S turbodb_value_t) op kind z :
  o = Some a -> computes (k a) op kind z -> computes (x ← access o; k x) op kind z.
Proof. intros -> Hk s. tdb_step. apply (wp_access_Some _ a); [done|]. apply Hk. Qed.

Definition int64 (z : Z) : Prop := INT64_MIN <= z <= INT64_MAX.
Definition uint64 (z : Z) : Prop := 0 <= z <= UINT64_MAX.

Ltac ranges :=
  unfold in_range, lowest, highest, int64, uint64, INT64_MIN, INT64_MAX, UINT64_MAX, bool_Z in *; cbn -[Z.pow Z.mul Z.add Z.sub Z.opp] in *.

Lemma abs_mul_sign a b : (if xorb (a <? 0) (b <? 0) then - (Z.abs a * Z.abs b) else Z.abs a * Z.abs b) = a * b.
Proof. destruct (Z.ltb_spec a 0), (Z.ltb_spec b 0); cbn [xorb]; nia. Qed.

(** The overflow test of a multiplication by a division. *)
Lemma mul_exceeds x y m :
  0 <= x -> 0 <= y -> 0 <= m -> negb (x =? 0) && (m / x <? y) = (m <? x * y).
Proof.
  intros. destruct (Z.eqb_spec x 0) as [->|]; cbn [negb andb].
  { symmetry. apply Z.ltb_ge. lia. }
  pose proof (Z.div_mod m x) as E. pose proof (Z.mod_pos_bound m x). set (q := m / x) in *.
  destruct (Z.ltb_spec q y); symmetry; [apply Z.ltb_lt|apply Z.ltb_ge]; nia.
Qed.

Lemma arithmetic_i64_computes {S} op a b :
  int64 a -> int64 b -> op = ORM_SQL_ADD \/ op = ORM_SQL_SUBTRACT \/ op = ORM_SQL_MULTIPLY ->
  computes (S:=S) (arithmetic_i64 op a b) op KIND_INT64 (sql_integer op a b).
Proof.
  intros Ha Hb [->|[->| ->]]; unfold arithmetic_i64, sql_integer; cbn -[Z.sub Z.mul Z.add u64].
  - apply computes_i64; intros Hc; [|split; [|apply i64_Some]]; ranges;
      apply eq_sym in Hc; destruct (Z.ltb_spec 0 b), (Z.ltb_spec b 0); cbn in Hc; bsimp; lia.
  - apply computes_i64; intros Hc; [|split; [|apply i64_Some]]; ranges;
      apply eq_sym in Hc; destruct (Z.ltb_spec 0 b), (Z.ltb_spec b 0); cbn in Hc; bsimp; lia.
  - rewrite !signed_magnitude_abs by done. set (n := xorb _ _).
    rewrite (u64_small (INT64_MAX + _)) by (destruct n; ranges; lia).
    rewrite mul_exceeds by (destruct n; ranges; lia). rewrite <- (abs_mul_sign a b). fold n.
    apply computes_i64; intros Hc; bsimp.
    + destruct n; ranges; lia.
    + rewrite u64_small by (destruct n; ranges; nia). rewrite signed_of_Some by nia.
      split; [|done]. destruct n; ranges; nia.
Qed.

Lemma arithmetic_u64_computes {S} op a b :
  uint64 a -> uint64 b -> op = ORM_SQL_ADD \/ op = ORM_SQL_SUBTRACT \/ op = ORM_SQL_MULTIPLY ->
  computes (S:=S) (arithmetic_u64 op a b) op KIND_UINT64 (sql_integer op a b).
Proof.
  intros Ha Hb [->|[->| ->]]; unfold arithmetic_u64, sql_integer; cbn -[Z.sub Z.mul Z.add u64 size_sub].
  - rewrite size_sub_small by (ranges; lia). apply computes_u64; intros Hc; bsimp; [ranges; lia|].
    rewrite u64_small by (ranges; lia). split; [ranges; lia|done].
  - apply computes_u64; intros Hc; bsimp; [ranges; lia|].
    rewrite size_sub_small by (ranges; lia). split; [ranges; lia|done].
  - rewrite mul_exceeds by (ranges; lia). apply computes_u64; intros Hc; bsimp; [ranges; lia|].
    rewrite u64_small by (ranges; nia). split; [ranges; nia|done].
Qed.

Lemma integer_operand v x :
  value_ok v -> int_of v = Some x ->
  magnitude_of v = Some (Z.abs x) /\ is_negative v = (x <? 0) /\
  (value_kind v = KIND_INT64 /\ int64 x \/ value_kind v = KIND_UINT64 /\ uint64 x).
Proof.
  unfold value_ok, int_of, magnitude_of, is_negative, value_kind.
  destruct (tv_data v); try done; intros Hv [= ->].
  - rewrite signed_magnitude_abs by (ranges; lia). split_and!; [done..|]. left. ranges. lia.
  - rewrite Z.abs_eq, (proj2 (Z.ltb_ge x 0)) by lia. split_and!; [done..|]. right. ranges. lia.
Qed.

Lemma operand_abs v x : value_ok v -> int_of v = Some x -> 0 <= Z.abs x <= UINT64_MAX.
Proof. intros Hv Hx. destruct (integer_operand v x Hv Hx) as (_ & _ & [[_ H]|[_ H]]); ranges; lia. Qed.

Definition kind_integral (kind : Z) : Prop := kind = KIND_INT64 \/ kind = KIND_UINT64.

(** Division on magnitudes, the sign put back. *)
Lemma quot_magnitude x y :
  y <> 0 -> let q := Z.abs x / Z.abs y in Z.quot x y = if xorb (x <? 0) (y <? 0) then - q else q.
Proof.
  intros Hy. cbv zeta. destruct (Z.eq_dec x 0) as [->|].
  { rewrite Z.quot_0_l, Z.abs_0, Z.div_0_l by lia. by case_match. }
  rewrite Z.quot_div by done. destruct (Z.ltb_spec x 0), (Z.ltb_spec y 0); cbn [xorb];
    rewrite ?(Z.sgn_neg x), ?(Z.sgn_neg y), ?(Z.sgn_pos x), ?(Z.sgn_pos y) by lia; lia.
Qed.

Lemma rem_magnitude x y :
  y <> 0 -> let r := Z.abs x mod Z.abs y in Z.rem x y = if x <? 0 then - r else r.
Proof.
  intros Hy. cbv zeta. rewrite Z.rem_mod by done. destruct (Z.ltb_spec x 0).
  - rewrite (Z.sgn_neg x) by done. lia.
  - destruct (Z.eq_dec x 0) as [->|]; [by rewrite Z.abs_0, Z.mod_0_l by lia|]. rewrite Z.sgn_pos by lia. lia.
Qed.

Lemma arithmetic_integer_division_computes {S} a l r x y :
  value_ok l -> value_ok r -> int_of l = Some x -> int_of r = Some y -> y <> 0 ->
  kind_integral (ty_kind (a_result a)) -> a_op a = ORM_SQL_INTEGER_DIVIDE \/ a_op a = ORM_SQL_MODULO ->
  computes (S:=S) (arithmetic_integer_division a l r) (a_op a) (ty_kind (a_result a)) (sql_integer (a_op a) x y).
Proof.
  intros Hl Hr Hx Hy Hnz Hk Hop. unfold arithmetic_integer_division.
  pose proof (operand_abs l x Hl Hx) as Hxa. pose proof (operand_abs r y Hr Hy) as Hya.
  destruct (integer_operand l x Hl Hx) as (-> & -> & _). destruct (integer_operand r y Hr Hy) as (-> & -> & _).
  apply (computes_access _ (Z.abs x)); [done|]. apply (computes_access _ (Z.abs y)); [done|].
  apply (computes_access _ tt); [by rewrite (proj2 (Z.eqb_neq _ _)) by lia|].
  set (modulo := a_op a =? ORM_SQL_MODULO). set (q := if modulo then _ else _). set (n := if modulo then _ else _).
  assert (sql_integer (a_op a) x y = (if n then - q else q) /\ 0 <= q <= UINT64_MAX) as [-> Hq].
  { subst n q modulo. destruct Hop as [-> | ->]; cbn.
    - rewrite quot_magnitude by done. split; [done|]. pose proof (Z.div_pos (Z.abs x) (Z.abs y)).
      pose proof (Z.div_le_upper_bound (Z.abs x) (Z.abs y) (Z.abs x)). nia.
    - rewrite rem_magnitude by done. split; [done|]. pose proof (Z.mod_pos_bound (Z.abs x) (Z.abs y)). lia. }
  clearbody q n. destruct Hk as [-> | ->].
  - change (KIND_INT64 =? KIND_UINT64) with false. cbn iota. rewrite u64_small by (destruct n, modulo; ranges; lia).
    apply computes_i64; intros Hc; bsimp.
    + subst modulo. destruct Hop as [Hop|Hop]; rewrite Hop in *; destruct n; ranges; lia.
    + rewrite signed_of_Some by (destruct n, modulo; ranges; lia). split; [|done].
      subst modulo. destruct Hop as [Hop|Hop]; rewrite Hop in *; destruct n; ranges; lia.
  - change (KIND_UINT64 =? KIND_UINT64) with true. cbn iota.
    apply computes_u64; destruct n; cbn [andb]; intros Hc; bsimp; ranges; lia.
Qed.

Lemma decimal_scale_pow n s : 0 <= s -> s * 10 ^ Z.of_nat n < 2 ^ 64 -> decimal_scale n s = s * 10 ^ Z.of_nat n.
Proof.
  revert s. induction n as [|n IH]; intros s Hs Hb; cbn [decimal_scale]; [rewrite Z.pow_0_r; lia|].
  rewrite Nat2Z.inj_succ, Z.pow_succ_r in * by lia. pose proof (Z.pow_pos_nonneg 10 (Z.of_nat n)).
  rewrite u64_small by nia. rewrite IH by nia. lia.
Qed.

Lemma pow_ten_even n : 0 < n -> exists h, 10 ^ n = 2 * h /\ 0 < h.
Proof.
  intros. exists (5 * 10 ^ (n - 1)). replace n with (Z.succ (n - 1)) at 1 by lia. rewrite Z.pow_succ_r by lia.
  pose proof (Z.pow_pos_nonneg 10 (n - 1)). lia.
Qed.

(** Rounding half away from zero adds one unit to the truncation from half a unit on. *)
Lemma round_away_magnitude x n :
  0 < n -> let u := 10 ^ n in let r := Z.abs x mod u in
  let m := Z.abs x - r + (if u / 2 <=? r then u else 0) in
  round_away x n = if x <? 0 then - m else m.
Proof.
  intros Hn. cbv zeta. unfold round_away. destruct (pow_ten_even n Hn) as (h & -> & Hh).
  pose proof (Z.div_mod (Z.abs x) (2 * h)) as E. pose proof (Z.mod_pos_bound (Z.abs x) (2 * h)) as Hb.
  set (q := Z.abs x / (2 * h)) in *. set (r := Z.abs x mod (2 * h)) in *.
  assert (2 * h / 2 = h) as -> by (rewrite Z.mul_comm; by apply Z.div_mul).
  assert ((2 * Z.abs x + 2 * h) / (2 * (2 * h)) = q + if h <=? r then 1 else 0) as ->.
  { symmetry. destruct (Z.leb_spec h r).
    - apply (Z.div_unique _ _ _ (2 * r - 2 * h)); lia.
    - apply (Z.div_unique _ _ _ (2 * r + 2 * h)); lia. }
  destruct (Z.ltb_spec x 0); [rewrite Z.sgn_neg by done; case_match; nia|].
  destruct (Z.eq_dec x 0) as [->|].
  - replace r with 0 by (subst r; by rewrite Z.abs_0, Z.mod_0_l by lia).
    rewrite (proj2 (Z.leb_gt h 0)) by done. cbn. lia.
  - rewrite Z.sgn_pos by lia. case_match; nia.
Qed.

Lemma round_zero_magnitude x n :
  0 < n -> let m := Z.abs x - Z.abs x mod 10 ^ n in round_zero x n = if x <? 0 then - m else m.
Proof.
  intros Hn. cbv zeta. unfold round_zero. pose proof (Z.pow_pos_nonneg 10 n ltac:(lia) ltac:(lia)) as Hp.
  rewrite quot_magnitude by lia. rewrite (proj2 (Z.ltb_ge (10 ^ n) 0)) by lia. rewrite xorb_false_r.
  rewrite (Z.abs_eq (10 ^ n)) by lia. pose proof (Z.div_mod (Z.abs x) (10 ^ n)). case_match; lia.
Qed.

Lemma arithmetic_round_integer_computes {S} op v x n :
  value_ok v -> int_of v = Some x -> 0 < n -> op = ORM_SQL_ROUND \/ op = ORM_SQL_TRUNCATE ->
  computes (S:=S) (arithmetic_round_integer op v n) op (value_kind v) (sql_integer op x (- n)).
Proof.
  intros Hv Hx Hn Hop. unfold arithmetic_round_integer. cbv zeta.
  pose proof (operand_abs v x Hv Hx) as Hxa. destruct (integer_operand v x Hv Hx) as (-> & -> & Hk).
  assert (sql_integer op x (- n) = if op =? ORM_SQL_ROUND then round_away x n else round_zero x n) as ->.
  { unfold sql_integer. rewrite (proj2 (Z.ltb_lt (- n) 0)), Z.opp_involutive by lia. by destruct Hop as [-> | ->]. }
  rewrite round_away_magnitude, round_zero_magnitude by done. cbv zeta.
  destruct (Z.leb_spec INTEGER_DECIMAL_POWERS n) as [Hbig|Hsmall]; unfold INTEGER_DECIMAL_POWERS in *.
  { assert (10 ^ 20 <= 10 ^ n) by (apply Z.pow_le_mono_r; lia).
    rewrite Z.mod_small by (ranges; lia).
    assert ((10 ^ n / 2 <=? Z.abs x) = false) as ->.
    { apply Z.leb_gt. apply Z.lt_le_trans with (10 ^ 20 / 2); [|apply Z.div_le_mono; lia].
      change (10 ^ 20 / 2) with (5 * 10 ^ 19). ranges. lia. }
    rewrite Z.sub_diag, Z.add_0_r, !Tauto.if_same.
    destruct Hk as [[-> _]|[-> _]]; apply computes_ret; try done; destruct Hop as [-> | ->]; ranges; lia. }
  assert (10 ^ n <= 10 ^ 19) as Hu by (apply Z.pow_le_mono_r; lia).
  pose proof (Z.pow_pos_nonneg 10 n ltac:(lia) ltac:(lia)) as Hp.
  rewrite decimal_scale_pow; rewrite ?Z2Nat.id, ?Z.mul_1_l by lia; [|lia|lia].
  set (u := 10 ^ n) in *. set (r := Z.abs x mod u).
  pose proof (Z.mod_pos_bound (Z.abs x) u Hp) as Hr. fold r in Hr.
  pose proof (Z.mod_le (Z.abs x) u ltac:(lia) Hp) as Hrx. fold r in Hrx.
  apply (computes_access _ (Z.abs x)); [done|].
  apply (computes_access _ tt); [by rewrite (proj2 (Z.eqb_neq _ _)) by lia|].
  fold r. set (up := (op =? ORM_SQL_ROUND) && (u / 2 <=? r)). rewrite !(size_sub_small (Z.abs x) r) by (ranges; lia).
  set (m := Z.abs x - r + if up then u else 0).
  match goal with |- computes _ _ _ ?z => replace z with (if x <? 0 then - m else m) end.
  2:{ subst m up. destruct (op =? ORM_SQL_ROUND); cbn [andb]; rewrite ?Z.add_0_r; done. }
  assert (0 <= m) by (subst m; destruct up; lia).
  destruct Hk as [[-> Hi]|[-> Hi]]; cbn [Z.eqb KIND_INT64 KIND_UINT64 Pos.eqb].
  - rewrite (u64_small (INT64_MAX + bool_Z (x <? 0))) by (ranges; destruct (Z.ltb_spec x 0); lia). rewrite size_sub_small by (ranges; destruct (Z.ltb_spec x 0); lia).
    apply computes_i64; destruct up; cbn [andb] in *; intros Hc; bsimp; try done.
    + destruct Hop as [-> | ->]; ranges; destruct (Z.ltb_spec x 0); lia.
    + rewrite u64_small by (ranges; destruct (Z.ltb_spec x 0); lia). fold m.
      rewrite signed_of_Some by (subst m; ranges; lia). split; [|done].
      destruct Hop as [-> | ->]; ranges; destruct (Z.ltb_spec x 0); lia.
    + replace (Z.abs x - r) with m by lia. rewrite signed_of_Some by (subst m; ranges; destruct (Z.ltb_spec x 0); lia).
      split; [|done]. destruct Hop as [-> | ->]; ranges; destruct (Z.ltb_spec x 0); lia.
  - rewrite size_sub_small by (ranges; lia). rewrite (proj2 (Z.ltb_ge x 0)) by (ranges; lia).
    apply computes_u64; destruct up; cbn [andb] in *; intros Hc; bsimp; try done.
    + destruct Hop as [-> | ->]; ranges; lia.
    + rewrite u64_small by (ranges; lia). split; [ranges; lia|done].
    + split; [ranges; lia|lia].
Qed.

(** An integer value is its kind and its number. *)
Definition integer_typed (k x : Z) : Prop := k = KIND_INT64 /\ int64 x \/ k = KIND_UINT64 /\ uint64 x.

Lemma integer_value_of v x :
  tv_reserved v = 0 -> int_of v = Some x -> v = integer_value (value_kind v) x.
Proof. destruct v as [[] ?]; cbn; try done; by intros -> [= ->]. Qed.

Lemma arithmetic_apply_unary_computes {S} op k x kind :
  integer_typed k x -> arithmetic_unary op = true ->
  kind = (if op =? ORM_SQL_SIGN then KIND_INT64 else k) -> (op = ORM_SQL_NEGATE -> k = KIND_INT64) ->
  computes (S:=S) (arithmetic_apply_unary op (integer_value k x)) op kind (sql_integer op x 0).
Proof.
  intros Hk Hop -> Hneg. unfold arithmetic_unary, ORM_SQL_POSITIVE, ORM_SQL_CEIL in Hop.
  assert (op = 3 \/ op = 4 \/ op = 5 \/ op = 6 \/ op = 7 \/ op = 8) as Hops by (bsimp; lia). clear Hop.
  unfold arithmetic_apply_unary, sql_integer.
  destruct Hk as [[-> Hx]|[-> Hx]]; destruct Hops as [->|[->|[->|[->|[->| ->]]]]];
    cbn -[Z.opp Z.sub Z.sgn Z.abs i64 Z.ltb bool_Z]; try (by specialize (Hneg eq_refl));
    try (apply computes_ret; [done|ranges; lia]).
  - apply computes_i64; intros Hc; bsimp; [|split; [|apply i64_Some]]; ranges; lia.
  - apply computes_i64; intros Hc; bsimp; [|split]; [ranges; lia..|].
    destruct (Z.ltb_spec x 0); [|f_equal; lia]. rewrite i64_Some by (ranges; lia). f_equal. lia.
  - apply computes_ret; [|ranges; lia]. unfold integer_value. cbn [Z.eqb KIND_INT64 KIND_UINT64 Pos.eqb]. f_equal.
    destruct (Z.ltb_spec 0 x), (Z.ltb_spec x 0); cbn [bool_Z]; lia.
  - apply computes_ret; [|ranges; lia]. unfold integer_value. cbn [Z.eqb KIND_INT64 KIND_UINT64 Pos.eqb]. f_equal. ranges. lia.
  - apply computes_ret; [|ranges; lia]. unfold integer_value. cbn [Z.eqb KIND_INT64 KIND_UINT64 Pos.eqb]. f_equal.
    unfold uint64 in Hx. destruct (Z.eqb_spec x 0) as [->|]; [done|]. cbn. lia.
Qed.

Lemma arithmetic_round_computes {S} pow op k x r y :
  integer_typed k x -> value_ok r -> int_of r = Some y -> arithmetic_rounding op = true ->
  computes (S:=S) (arithmetic_round pow op (integer_value k x) r) op k (sql_integer op x y).
Proof.
  intros Hk Hr Hy Hop. unfold arithmetic_round. destruct (integer_operand r y Hr Hy) as (-> & -> & _).
  apply (computes_access _ (Z.abs y)); [done|].
  assert (op = ORM_SQL_ROUND \/ op = ORM_SQL_TRUNCATE) as Hops by (unfold arithmetic_rounding in Hop; bsimp; lia).
  assert (value_ok (integer_value k x) /\ value_kind (integer_value k x) = k) as [Hv Hkind].
  { destruct Hk as [[-> ?]|[-> ?]]; (split; [|done]); cbn; ranges; lia. }
  destruct (Z.ltb_spec y 0) as [Hn|Hn]; cbn [negb].
  - pose proof (arithmetic_round_integer_computes (S:=S) op (integer_value k x) x (Z.abs y) Hv) as Hc.
    rewrite Hkind, Z.abs_neq, Z.opp_involutive in Hc by lia. rewrite Z.abs_neq by lia.
    destruct Hk as [[-> ?]|[-> ?]]; by apply Hc; [|lia|].
  - assert (sql_integer op x y = x) as ->.
    { unfold sql_integer. rewrite (proj2 (Z.ltb_ge y 0)) by done. by destruct Hops as [-> | ->]. }
    destruct Hk as [[-> ?]|[-> ?]]; (apply computes_ret; [done|]); destruct Hops as [-> | ->]; ranges; lia.
Qed.

(** ** What a bind has checked *)

(** The kind of the result, from the kinds of the operands. *)
Definition bind_kind (op lk : Z) (rk : option Z) : option Z :=
  match orm_tidesdb_sql_arithmetic_bind op (mk_type lk true) ((fun k => mk_type k true) <$> rk) true tt with
  | (Ret a, _) => Some (ty_kind (a_result a))
  | _ => None
  end.

Definition either_nullable (tl : orm_sql_type) (right : ptr orm_sql_type) : bool :=
  ty_nullable tl || maybe ty_nullable right false.

Record arithmetic_bound (op : Z) (tl : orm_sql_type) (right : ptr orm_sql_type) (a : orm_sql_arithmetic) : Prop := {
  ab_range : ORM_SQL_ADD <= op <= ORM_SQL_TRUNCATE;
  ab_arity : arithmetic_unary op = negb (is_some right);
  ab_op : a_op a = op;
  ab_left : a_left a = tl;
  ab_right : a_right a = default (mk_type KIND_NULL true) right;
  ab_numeric : numeric_type (ty_kind tl) = true /\ maybe (fun r => numeric_type (ty_kind r)) right true = true;
  ab_nullable : ty_nullable (a_result a) = arithmetic_division op || either_nullable tl right;
  ab_kind : bind_kind op (ty_kind tl) (ty_kind <$> right) = Some (ty_kind (a_result a))
}.

Lemma raise_if_false {S A} status reason (m : M turbodb_failure S A) s :
  (raise_if false status reason;; m) s = m s.
Proof. done. Qed.

Lemma access_bind {S A B} (a : A) (k : A -> M turbodb_failure S B) s : (x ← access (Some a); k x) s = k a s.
Proof. done. Qed.

Lemma valid_type_nullable k n : valid_type (mk_type k n) = true -> valid_type (mk_type k true) = true.
Proof. unfold valid_type. cbn. intros H. apply andb_true_iff in H as [-> _]. by rewrite orb_true_r. Qed.

Lemma arithmetic_bind_bound {S} op tl right a (s s' : S) :
  orm_tidesdb_sql_arithmetic_bind op tl right true s = (Ret a, s') -> arithmetic_bound op tl right a /\ s' = s.
Proof.
  unfold orm_tidesdb_sql_arithmetic_bind. intros E.
  apply bind_Ret in E as ([] & s1 & [Hr ->]%raise_if_Ret & E).
  apply bind_Ret in E as ([] & s2 & [Har ->]%raise_if_Ret & E).
  apply bind_Ret in E as ([] & s3 & [Ht ->]%raise_if_Ret & E).
  assert (arithmetic_unary op = negb (is_some right)) as Hu.
  { cbn in Har. destruct (arithmetic_unary op), right; done. }
  assert (ORM_SQL_ADD <= op <= ORM_SQL_TRUNCATE) as Hop by (bsimp; lia).
  assert (valid_type (mk_type (ty_kind tl) true) = true /\
    maybe (fun r => negb (valid_type r)) ((fun k => mk_type k true) <$> (ty_kind <$> right)) false = false) as [Hvl Hvr].
  { destruct tl as [lk ln]. apply orb_false_iff in Ht as [Hl%negb_false_iff Hrt].
    split; [by eapply valid_type_nullable|]. destruct right as [[rk rn]|]; [|done]. cbn in *.
    apply negb_false_iff in Hrt. rewrite (valid_type_nullable rk rn) by done. done. }
  assert (is_some ((fun k => mk_type k true) <$> (ty_kind <$> right)) = is_some right) as Hs by (by destruct right).
  destruct (arithmetic_rounding op) eqn:Hro.
  - apply bind_Ret in E as (r & s4 & [-> ->]%access_Ret & E).
    apply bind_Ret in E as ([] & s5 & [Hc ->]%raise_if_Ret & E). injection E as <- <-. split; [|done].
    split; cbn [a_op a_left a_right a_result ty_nullable ty_kind]; try done.
    + apply orb_false_iff in Hc as [Hc1%negb_false_iff Hc2]. split; [done|]. unfold numeric_type. cbn [maybe].
      destruct (integral (ty_kind r)), (ty_kind r =? KIND_NULL); done.
    + unfold arithmetic_rounding in Hro. unfold either_nullable, arithmetic_division.
      rewrite (proj2 (Z.leb_gt op ORM_SQL_MODULO)); [by rewrite andb_false_r|].
      unfold ORM_SQL_MODULO, ORM_SQL_ROUND, ORM_SQL_TRUNCATE in *. bsimp. lia.
    + unfold bind_kind, orm_tidesdb_sql_arithmetic_bind. rewrite Hr, Hs, Har, Hvl, Hvr, Hro, !raise_if_false.
      cbn [fmap option_fmap option_map]. rewrite access_bind. cbn [ty_kind]. by rewrite Hc.
  - apply bind_Ret in E as ([] & s4 & [Hc ->]%raise_if_Ret & E).
    apply bind_Ret in E as ([] & s5 & [Hd ->]%raise_if_Ret & E). injection E as <- <-. split; [|done].
    split; cbn [a_op a_left a_right a_result ty_nullable ty_kind]; try done.
    { apply orb_false_iff in Hc as [Hc _]. apply orb_false_iff in Hc as [Hc _].
      apply orb_false_iff in Hc as [Hc1%negb_false_iff Hc2]. split; [done|].
      destruct right; [|done]. by apply negb_false_iff in Hc2. }
    unfold bind_kind, orm_tidesdb_sql_arithmetic_bind. rewrite Hr, Hs, Har, Hvl, Hvr, Hro, !raise_if_false.
    destruct right as [[rk rn]|]; cbn [fmap option_fmap option_map maybe ty_kind] in *; by rewrite Hc, Hd.
Qed.

Ltac each_op op :=
  let H := fresh in
  assert (op = 0 \/ op = 1 \/ op = 2 \/ op = 3 \/ op = 4 \/ op = 5 \/ op = 6 \/ op = 7 \/ op = 8 \/ op = 9 \/
    op = 10 \/ op = 11 \/ op = 12 \/ op = 13) as H by (unfold ORM_SQL_ADD, ORM_SQL_TRUNCATE in *; lia);
  repeat (destruct H as [-> |H]); [..|subst op].

Lemma bind_kind_integers op lk rk kind :
  ORM_SQL_ADD <= op <= ORM_SQL_TRUNCATE -> kind_integral lk -> kind_integral rk -> bind_kind op lk (Some rk) = Some kind ->
  (arithmetic_rounding op = true -> kind = lk) /\
  (arithmetic_division op = true -> (op = ORM_SQL_INTEGER_DIVIDE \/ op = ORM_SQL_MODULO) /\ kind_integral kind) /\
  (arithmetic_rounding op = false -> arithmetic_division op = false ->
    (op = ORM_SQL_ADD \/ op = ORM_SQL_SUBTRACT \/ op = ORM_SQL_MULTIPLY) /\ lk = rk /\ kind = lk).
Proof.
  intros Hop Hl Hr. each_op op; destruct Hl as [-> | ->], Hr as [-> | ->]; vm_compute; intros [= <-];
    split_and!; intros; try discriminate; auto.
Qed.

Lemma bind_kind_integer op lk kind :
  ORM_SQL_ADD <= op <= ORM_SQL_TRUNCATE -> kind_integral lk -> bind_kind op lk None = Some kind ->
  kind = (if op =? ORM_SQL_SIGN then KIND_INT64 else lk) /\ (op = ORM_SQL_NEGATE -> lk = KIND_INT64).
Proof. intros Hop Hl. each_op op; destruct Hl as [-> | ->]; vm_compute; intros [= <-]; split; intros; try discriminate; auto. Qed.

Lemma integer_typed_kind k x : integer_typed k x -> kind_integral k.
Proof. intros [[]|[]]; [by left|by right]. Qed.

(** The answer of an operation on integers. *)
Definition integer_answer (op kind x y : Z) (answer : turbodb_value_t * orm_sql_numeric_condition) : Prop :=
  if arithmetic_division op && (y =? 0) then answer = (turbodb_null, ORM_SQL_NUMERIC_DIVISION_BY_ZERO)
  else answer = (integer_value kind (sql_integer op x y), ORM_SQL_NUMERIC_EXACT) /\ in_range op kind (sql_integer op x y).

Definition integer_refused (op kind x y : Z) (f : turbodb_failure) : Prop :=
  f = range_failure /\ arithmetic_division op && (y =? 0) = false /\ ~ in_range op kind (sql_integer op x y).

Lemma computes_exact {S} (m : M turbodb_failure S turbodb_value_t) op kind x y s :
  arithmetic_division op && (y =? 0) = false -> computes m op kind (sql_integer op x y) ->
  wp (v ← m; mret (v, ORM_SQL_NUMERIC_EXACT)) (fun answer s' => s' = s /\ integer_answer op kind x y answer)
    (fun f s' => s' = s /\ integer_refused op kind x y f) s.
Proof.
  intros Hz Hm. tdb_step. eapply wp_mono; [apply Hm|..].
  - intros v s' (-> & -> & Hr). tdb_step. unfold integer_answer. rewrite Hz. auto.
  - intros f s' (-> & -> & Hr). unfold integer_refused. auto.
Qed.

Lemma integer_value_facts k x :
  integer_typed k x -> value_kind (integer_value k x) = k /\ value_ok (integer_value k x) /\
  int_of (integer_value k x) = Some x /\ is_zero (integer_value k x) = Some (x =? 0) /\ (k =? KIND_NULL) = false.
Proof. intros [[-> H]|[-> H]]; split_and!; try done; cbn; ranges; lia. Qed.

Lemma arithmetic_apply_binary {S} pow op tl tr a x y (s : S) :
  arithmetic_bound op tl (Some tr) a -> integer_typed (ty_kind tl) x -> integer_typed (ty_kind tr) y ->
  let kind := ty_kind (a_result a) in
  wp (arithmetic_apply pow a (integer_value (ty_kind tl) x) (Some (integer_value (ty_kind tr) y)))
    (fun answer s' => s' = s /\ integer_answer op kind x y answer)
    (fun f s' => s' = s /\ integer_refused op kind x y f) s.
Proof.
  intros Hb Hx Hy kind. pose proof (ab_arity _ _ _ _ Hb) as Hu. cbn in Hu.
  destruct (bind_kind_integers op (ty_kind tl) (ty_kind tr) kind) as (Hround & Hdiv & Hrest);
    [apply Hb|by eapply integer_typed_kind|by eapply integer_typed_kind|apply Hb|].
  destruct (integer_value_facts _ _ Hx) as (Hkx & Hox & Hix & _ & Hnx).
  destruct (integer_value_facts _ _ Hy) as (Hky & Hoy & Hiy & Hzy & Hny).
  unfold arithmetic_apply. rewrite (ab_op _ _ _ _ Hb), Hkx, Hnx. cbn [maybe]. rewrite Hky, Hny. cbn [orb].
  assert ((kind =? KIND_DOUBLE) = false) as Hkd.
  { destruct (integer_typed_kind _ _ Hx) as [E|E], (arithmetic_rounding op) eqn:Hro, (arithmetic_division op) eqn:Hdi;
      try (rewrite Hround by done; by rewrite E); try (destruct Hdiv as [_ [-> | ->]]; done);
      destruct Hrest as (_ & _ & ->); try done; by rewrite E. }
  destruct (arithmetic_rounding op) eqn:Hro.
  { tdb_step. apply (wp_access_Some _ (integer_value (ty_kind tr) y)); [done|].
    apply computes_exact; [|rewrite Hround by done; by apply arithmetic_round_computes].
    unfold arithmetic_rounding, arithmetic_division in *. destruct (op <=? ORM_SQL_MODULO) eqn:?; [|by rewrite andb_false_r].
    unfold ORM_SQL_MODULO, ORM_SQL_ROUND, ORM_SQL_TRUNCATE in *. bsimp. lia. }
  destruct (arithmetic_division op) eqn:Hdi.
  { destruct Hdiv as [Hops Hki]; [done|]. tdb_step. apply (wp_access_Some _ (integer_value (ty_kind tr) y)); [done|].
    tdb_step. apply (wp_access_Some _ (y =? 0)); [done|]. destruct (y =? 0) eqn:Hz.
    { tdb_step. split; [done|]. unfold integer_answer. by rewrite Hdi, Hz. }
    fold kind. rewrite Hkd. apply computes_exact; [by rewrite Hdi, Hz|].
    rewrite <- (ab_op _ _ _ _ Hb). apply arithmetic_integer_division_computes; try done; rewrite ?(ab_op _ _ _ _ Hb); try done.
    by apply Z.eqb_neq. }
  fold kind. rewrite Hu, Hkd. destruct Hrest as (Hops & Heq & ->); [done..|]. rewrite <- Heq in *.
  destruct Hx as [[Ex Hx]|[Ex Hx]], Hy as [[Ek Hy]|[Ek Hy]]; rewrite Ex in *; try discriminate Ek;
    unfold integer_value; cbn [Z.eqb KIND_INT64 KIND_UINT64 Pos.eqb tv_data turbodb_i64 turbodb_u64];
    tdb_step; (eapply wp_access_Some; [done|]); tdb_step; (eapply wp_access_Some; [done|]);
    (apply computes_exact; [by rewrite Hdi|]).
  - by apply arithmetic_i64_computes.
  - by apply arithmetic_u64_computes.
Qed.

Lemma arithmetic_apply_single {S} pow op tl a x (s : S) :
  arithmetic_bound op tl None a -> integer_typed (ty_kind tl) x ->
  let kind := ty_kind (a_result a) in
  wp (arithmetic_apply pow a (integer_value (ty_kind tl) x) None)
    (fun answer s' => s' = s /\ integer_answer op kind x 0 answer)
    (fun f s' => s' = s /\ integer_refused op kind x 0 f) s.
Proof.
  intros Hb Hx kind. pose proof (ab_arity _ _ _ _ Hb) as Hu. cbn in Hu.
  destruct (bind_kind_integer op (ty_kind tl) kind) as (Hk & Hneg);
    [apply Hb|by eapply integer_typed_kind|apply Hb|].
  destruct (integer_value_facts _ _ Hx) as (Hkx & Hox & Hix & _ & Hnx).
  unfold arithmetic_apply. rewrite (ab_op _ _ _ _ Hb), Hkx, Hnx. cbn [maybe orb].
  assert (arithmetic_rounding op = false /\ arithmetic_division op = false) as [Hro Hdi].
  { unfold arithmetic_unary, arithmetic_rounding, arithmetic_division, ORM_SQL_POSITIVE, ORM_SQL_CEIL, ORM_SQL_ROUND,
      ORM_SQL_TRUNCATE, ORM_SQL_DIVIDE, ORM_SQL_MODULO in *. bsimp.
    repeat (rewrite (proj2 (Z.eqb_neq _ _)) by lia). by rewrite (proj2 (Z.leb_gt 9 op)) by lia. }
  rewrite Hro, Hdi, Hu. apply computes_exact; [by rewrite Hdi|]. by apply arithmetic_apply_unary_computes.
Qed.

Lemma integer_operand_value v t x :
  value_ok v -> valid_value v t = true -> int_of v = Some x ->
  v = integer_value (ty_kind t) x /\ integer_typed (ty_kind t) x.
Proof.
  intros Hv Hvt Hx. destruct (integer_operand v x Hv Hx) as (_ & _ & Hk).
  assert (is_null v = false) as Hn by (unfold is_null; destruct Hk as [[-> _]|[-> _]]; done).
  pose proof (valid_value_kind v t Hvt Hn) as <-. split; [|done]. apply integer_value_of; [|done].
  unfold valid_value in Hvt. destruct (Z.eqb_spec (tv_reserved v) 0); done.
Qed.

(** ** Doubles stay finite *)

Definition finite_value (v : turbodb_value_t) : Prop := exists d, v = turbodb_f64 d /\ pattern d /\ isfinite d = true.

Lemma numeric_operand v t :
  value_ok v -> valid_value v t = true -> is_null v = false -> numeric_type (ty_kind t) = true ->
  (exists x, int_of v = Some x) \/ (finite_value v /\ ty_kind t = KIND_DOUBLE).
Proof.
  intros Hv Hvt Hn Ht. pose proof (valid_value_kind v t Hvt Hn) as Hk. rewrite <- Hk in *. clear Hk.
  destruct v as [data rsv]. unfold valid_value, value_ok, is_null, value_kind, numeric_type, int_of in *. cbn [tv_data tv_reserved] in *.
  destruct (Z.eqb_spec rsv 0) as [->|]; [|done]. destruct data as [|z|z|d|z|z|z|z]; try done; [by left; exists z..| |].
  - right. split; [|done]. exists d. split_and!; [done..|]. cbn in Hvt. by destruct (negb _).
  - exfalso. unfold integral, KIND_NULL, KIND_BLOB, KIND_INT64, KIND_UINT64, KIND_DOUBLE in *. bsimp. lia.
Qed.

Lemma numeric_real_pattern v :
  (exists x, int_of v = Some x) \/ finite_value v -> exists d, numeric_real_value v = Some d /\ pattern d.
Proof.
  intros [[x Hx]|(d & -> & Hd & _)]; [|by exists d]. unfold int_of, numeric_real_value in *.
  destruct (tv_data v); try done; injection Hx as ->; eexists; (split; [done|by apply double_round_pattern]).
Qed.

Definition real_op (op : Z) : Prop :=
  op = ORM_SQL_ADD \/ op = ORM_SQL_SUBTRACT \/ op = ORM_SQL_MULTIPLY \/ op = ORM_SQL_DIVIDE \/ op = ORM_SQL_MODULO.

(** [m] gives a finite double or fails because there is none. *)
Definition stays_finite {S} (m : M turbodb_failure S turbodb_value_t) : Prop :=
  forall s, wp m (fun v s' => s' = s /\ finite_value v) (fun f s' => s' = s /\ f = range_failure) s.

Lemma checked_finite {S} d :
  pattern d -> stays_finite (S:=S) (out_of_range_if (negb (isfinite d));; mret (turbodb_f64 d)).
Proof.
  intros Hd s. tdb_step. apply wp_out_of_range_if; intros Hc; [done|]. tdb_step.
  apply negb_false_iff in Hc. split; [done|]. by exists d.
Qed.

Lemma arithmetic_real_finite {S} op l r a b :
  real_op op -> numeric_real_value l = Some a -> numeric_real_value r = Some b -> pattern a -> pattern b ->
  stays_finite (S:=S) (arithmetic_real op l r).
Proof.
  intros Hop Hl Hr Ha Hb s. unfold arithmetic_real.
  tdb_step. apply (wp_access_Some _ a); [done|]. tdb_step. apply (wp_access_Some _ b); [done|].
  destruct Hop as [->|[->|[->|[->| ->]]]]; tdb_step; cbn [Z.eqb]; apply wp_ret, checked_finite.
  - by apply double_add_pattern.
  - by apply double_add_pattern, double_neg_pattern.
  - by apply double_mul_pattern.
  - by apply double_div_pattern.
  - by apply double_fmod_pattern.
Qed.

Lemma arithmetic_round_finite {S} pow op v r y :
  (forall n, 0 <= n <= DBL_MAX_10_EXP -> pattern (pow (double_of_integer 10) (double_of_integer n))) ->
  finite_value v -> value_ok r -> int_of r = Some y -> stays_finite (S:=S) (arithmetic_round pow op v r).
Proof.
  intros Hpow (d & -> & Hd & Hf) Hr Hy s. unfold arithmetic_round.
  destruct (integer_operand r y Hr Hy) as (-> & -> & _).
  tdb_step. apply (wp_access_Some _ (Z.abs y)); [done|]. cbn [tv_data turbodb_f64].
  destruct (Z.ltb_spec DBL_MAX_10_EXP (Z.abs y)) as [Hbig|Hsmall].
  { tdb_step. split; [done|]. case_match; [by exists 0|by exists d]. }
  specialize (Hpow (Z.abs y) ltac:(lia)). set (scale := pow _ _) in *. cbv zeta.
  destruct (negb (y <? 0) && negb _) eqn:Hin; [tdb_step; split; [done|]; by exists d|].
  apply checked_finite.
  assert (pattern (if y <? 0 then double_div d scale else double_mul d scale)) as Hsc
    by (case_match; [by apply double_div_pattern|by apply double_mul_pattern]).
  set (scaled := if y <? 0 then _ else _) in *.
  assert (pattern (if op =? ORM_SQL_ROUND then double_rint scaled else double_trunc scaled))
    by (case_match; by apply double_integral_pattern).
  destruct (y <? 0); [by apply double_mul_pattern|by apply double_div_pattern].
Qed.

(** The result of a unary operation on a double. *)
Lemma arithmetic_apply_unary_finite {S} op v :
  arithmetic_unary op = true -> finite_value v ->
  forall s, wp (S:=S) (arithmetic_apply_unary op v)
    (fun w s' => s' = s /\ if op =? ORM_SQL_SIGN then exists z, w = turbodb_i64 z /\ -1 <= z <= 1 else finite_value w)
    (fun f s' => False) s.
Proof.
  intros Hop (d & -> & Hd & Hf) s. unfold arithmetic_unary, ORM_SQL_POSITIVE, ORM_SQL_CEIL in Hop.
  assert (op = 3 \/ op = 4 \/ op = 5 \/ op = 6 \/ op = 7 \/ op = 8) as Hops by (bsimp; lia). clear Hop.
  pose proof (scaled_largest d Hd Hf).
  destruct Hops as [->|[->|[->|[->|[->| ->]]]]]; unfold arithmetic_apply_unary; cbn [Z.eqb Pos.eqb tv_data turbodb_f64
    ORM_SQL_NEGATE ORM_SQL_ABSOLUTE ORM_SQL_SIGN ORM_SQL_FLOOR ORM_SQL_CEIL ORM_SQL_POSITIVE].
  - tdb_step. split; [done|]. by exists d.
  - tdb_step. apply (wp_access_Some _ d); [done|]. tdb_step. split; [done|]. exists (double_neg d).
    split_and!; [done|by apply double_neg_pattern|by apply double_sign_finite].
  - tdb_step. split; [done|]. exists (double_abs d). split_and!; [done|by apply double_abs_pattern|].
    by apply (double_sign_finite false d).
  - tdb_step. apply (wp_access_Some _ d); [done|]. tdb_step. split; [done|]. eexists. split; [done|].
    unfold bool_Z. repeat case_match; lia.
  - tdb_step. split; [done|]. eexists. split_and!; [done|by apply double_integral_pattern|].
    by apply double_integral_finite, integer_floor_largest.
  - tdb_step. split; [done|]. eexists. split_and!; [done|by apply double_integral_pattern|].
    by apply double_integral_finite, integer_ceil_largest.
Qed.

Lemma bind_kind_doubles op lk rk kind :
  ORM_SQL_ADD <= op <= ORM_SQL_TRUNCATE -> (kind_integral lk \/ lk = KIND_DOUBLE) -> (kind_integral rk \/ rk = KIND_DOUBLE) ->
  lk = KIND_DOUBLE \/ rk = KIND_DOUBLE -> bind_kind op lk (Some rk) = Some kind ->
  kind = KIND_DOUBLE /\ if arithmetic_rounding op then lk = KIND_DOUBLE /\ kind_integral rk else real_op op.
Proof.
  intros Hop Hl Hr. each_op op; destruct Hl as [[-> | ->]| ->], Hr as [[-> | ->]| ->]; vm_compute;
    intros [?|?]; try discriminate; intros [= <-]; auto 10.
Qed.

Lemma bind_kind_double op kind :
  ORM_SQL_ADD <= op <= ORM_SQL_TRUNCATE -> bind_kind op KIND_DOUBLE None = Some kind ->
  kind = if op =? ORM_SQL_SIGN then KIND_INT64 else KIND_DOUBLE.
Proof. intros Hop. each_op op; vm_compute; intros [= <-]; auto. Qed.

Definition any_null (l : turbodb_value_t) (r : ptr turbodb_value_t) : bool := is_null l || maybe is_null r false.

(** A value of a type that is NULL only where [null] says so. *)
Definition typed (t : orm_sql_type) (null : bool) (v : turbodb_value_t) : Prop :=
  valid_value v t = true /\ value_ok v /\ is_null v = null.

Lemma typed_finite t v : ty_kind t = KIND_DOUBLE -> finite_value v -> typed t false v.
Proof. intros Ht (d & -> & Hd & Hf). unfold typed, valid_value. cbn. rewrite Ht. done. Qed.

Lemma typed_integer op t z : kind_integral (ty_kind t) -> in_range op (ty_kind t) z -> typed t false (integer_value (ty_kind t) z).
Proof.
  intros Hk Hr. unfold typed, valid_value.
  destruct Hk as [E|E]; rewrite E in *; (split_and!; [done| |done]); unfold in_range, lowest, highest in Hr; cbn in *;
    unfold INT64_MIN, INT64_MAX, UINT64_MAX in *; repeat case_match; lia.
Qed.

Lemma typed_null t : ty_nullable t = true -> typed t true turbodb_null.
Proof. intros Ht. unfold typed, valid_value. cbn. by rewrite Ht. Qed.

(** What the computation may answer. *)
Definition typed_answer (op : Z) (t : orm_sql_type) (l : turbodb_value_t) (r : ptr turbodb_value_t)
    (answer : turbodb_value_t * orm_sql_numeric_condition) : Prop :=
  match answer with
  | (v, ORM_SQL_NUMERIC_EXACT) => typed t (any_null l r) v
  | (v, ORM_SQL_NUMERIC_DIVISION_BY_ZERO) =>
      v = turbodb_null /\ any_null l r = false /\ arithmetic_division op = true /\ (r ≫= is_zero) = Some true
  end.

Lemma finite_exact {S} (m : M turbodb_failure S turbodb_value_t) op t l r s :
  stays_finite m -> ty_kind t = KIND_DOUBLE -> any_null l r = false ->
  wp (v ← m; mret (v, ORM_SQL_NUMERIC_EXACT)) (fun answer s' => s' = s /\ typed_answer op t l r answer)
    (fun f s' => s' = s /\ f = range_failure /\ any_null l r = false) s.
Proof.
  intros Hm Ht Hn. tdb_step. eapply wp_mono; [apply Hm|..].
  - intros v s' [-> Hv]. tdb_step. split; [done|]. cbn. rewrite Hn. by apply typed_finite.
  - by intros f s' [-> ->].
Qed.

Lemma integer_answer_typed op t x y l r rv :
  kind_integral (ty_kind t) -> any_null l r = false -> (arithmetic_division op = true -> r = Some rv /\ is_zero rv = Some (y =? 0)) ->
  forall answer, integer_answer op (ty_kind t) x y answer -> typed_answer op t l r answer.
Proof.
  intros Hk Hn Hz answer. unfold integer_answer. destruct (arithmetic_division op && (y =? 0)) eqn:E.
  - intros ->. apply andb_true_iff in E as [Ed Ey]. destruct (Hz Ed) as [-> Hz']. cbn. by rewrite Hz', Ey.
  - intros [-> Hr]. cbn. rewrite Hn. by eapply typed_integer.
Qed.

Lemma bind_integral op lk rk kind :
  ORM_SQL_ADD <= op <= ORM_SQL_TRUNCATE -> kind_integral lk -> maybe integral rk true = true ->
  bind_kind op lk rk = Some kind -> kind_integral kind.
Proof.
  intros Hop Hl Hr. destruct rk as [rk|].
  - assert (kind_integral rk) as Hr'.
    { unfold kind_integral. cbn in Hr. unfold integral in Hr. apply orb_true_iff in Hr as [H|H]; bsimp; auto. }
    intros Hb. destruct (bind_kind_integers op lk rk kind) as (H1 & H2 & H3); [done..|].
    destruct (arithmetic_rounding op); [by rewrite H1|]. destruct (arithmetic_division op); [by apply H2|].
    destruct H3 as (_ & _ & ->); done.
  - intros Hb. destruct (bind_kind_integer op lk kind) as [-> _]; [done..|]. case_match; [by left|done].
Qed.

Lemma integral_kind k x : integer_typed k x -> integral k = true.
Proof. by intros [[-> _]|[-> _]]. Qed.

Section Typed.
Context (pow : Z -> Z -> Z).
Hypothesis pow_ten : forall n, 0 <= n <= DBL_MAX_10_EXP -> pattern (pow (double_of_integer 10) (double_of_integer n)).

Definition applies_typed {S} op t l r (m : M turbodb_failure S (turbodb_value_t * orm_sql_numeric_condition)) : Prop :=
  forall s, wp m (fun answer s' => s' = s /\ typed_answer op t l r answer)
    (fun f s' => s' = s /\ f = range_failure /\ any_null l r = false) s.

Lemma apply_typed_unary {S} op tl a l :
  arithmetic_bound op tl None a -> value_ok l -> valid_value l tl = true -> is_null l = false ->
  applies_typed (S:=S) op (a_result a) l None (arithmetic_apply pow a l None).
Proof.
  intros Hb Hl Hvl Hn s. assert (any_null l None = false) as Hnn by (unfold any_null; by rewrite Hn).
  destruct (numeric_operand l tl Hl Hvl Hn) as [[x Hx]|[Hfin Hk]]; [apply Hb|..].
  - destruct (integer_operand_value l tl x Hl Hvl Hx) as [-> Hty].
    eapply wp_mono; [by eapply arithmetic_apply_single|..].
    + intros answer s' [-> Ha]. split; [done|]. eapply (integer_answer_typed _ _ x 0 _ _ turbodb_null); [|done| |done].
      * apply (bind_integral op (ty_kind tl) None); [apply Hb|by eapply integer_typed_kind|done|apply Hb].
      * intros Hd. pose proof (ab_arity _ _ _ _ Hb) as Hu. unfold arithmetic_unary, arithmetic_division in *. cbn in Hu.
        unfold ORM_SQL_POSITIVE, ORM_SQL_CEIL, ORM_SQL_DIVIDE, ORM_SQL_MODULO in *. bsimp. lia.
    + intros f s' [-> (-> & _)]. done.
  - pose proof (ab_arity _ _ _ _ Hb) as Hu. pose proof (ab_range _ _ _ _ Hb) as Hop. cbn in Hu.
    pose proof (ab_kind _ _ _ _ Hb) as Hkind. rewrite Hk in Hkind. apply bind_kind_double in Hkind; [|done].
    unfold arithmetic_apply. rewrite (ab_op _ _ _ _ Hb). fold (is_null l). rewrite Hn. cbn [orb maybe].
    assert (arithmetic_rounding op = false /\ arithmetic_division op = false) as [-> ->].
    { unfold arithmetic_unary in Hu. each_op op; try done. }
    rewrite Hu. tdb_step. eapply wp_mono; [by apply arithmetic_apply_unary_finite| |done].
    intros v s' [-> Hv]. tdb_step. split; [done|]. cbn. rewrite Hnn. destruct (op =? ORM_SQL_SIGN).
    + destruct Hv as (z & -> & Hz). replace (turbodb_i64 z) with (integer_value (ty_kind (a_result a)) z) by (by rewrite Hkind).
      apply (typed_integer ORM_SQL_SIGN); [by left|]. rewrite Hkind. ranges. lia.
    + by apply typed_finite.
Qed.
Lemma apply_typed_binary {S} op tl tr a l r :
  arithmetic_bound op tl (Some tr) a -> value_ok l -> value_ok r -> valid_value l tl = true -> valid_value r tr = true ->
  is_null l = false -> is_null r = false ->
  applies_typed (S:=S) op (a_result a) l (Some r) (arithmetic_apply pow a l (Some r)).
Proof.
  intros Hb Hl Hr Hvl Hvr Hnl Hnr s.
  assert (any_null l (Some r) = false) as Hnn by (unfold any_null; cbn; by rewrite Hnl, Hnr).
  destruct (ab_numeric _ _ _ _ Hb) as [Hnuml Hnumr]. cbn in Hnumr.
  pose proof (numeric_operand l tl Hl Hvl Hnl Hnuml) as Hopl. pose proof (numeric_operand r tr Hr Hvr Hnr Hnumr) as Hopr.
  pose proof (ab_range _ _ _ _ Hb) as Hop. pose proof (ab_kind _ _ _ _ Hb) as Hkind. cbn in Hkind.
  assert ((exists x y, int_of l = Some x /\ int_of r = Some y) \/
    (ty_kind (a_result a) = KIND_DOUBLE /\
      if arithmetic_rounding op then finite_value l /\ exists y, int_of r = Some y else real_op op)) as [(x & y & Hx & Hy)|[Hres Hreal]].
  { assert (forall v t x, value_ok v -> valid_value v t = true -> int_of v = Some x -> kind_integral (ty_kind t)) as Hint.
    { intros v t x ? ? ?. destruct (integer_operand_value v t x) as [_ ?]; [done..|]. by eapply integer_typed_kind. }
    destruct Hopl as [[x Hx]|[Hfl Ekl]], Hopr as [[y Hy]|[Hfr Ekr]]; [left; eauto|right..].
    - apply bind_kind_doubles in Hkind as [? Hk]; [|eauto..]. split; [done|]. destruct (arithmetic_rounding op); [|done].
      destruct Hk as [_ [E|E]]; rewrite Ekr in E; discriminate E.
    - apply bind_kind_doubles in Hkind as [? Hk]; [|eauto..]. split; [done|]. destruct (arithmetic_rounding op); [eauto|done].
    - apply bind_kind_doubles in Hkind as [? Hk]; [|eauto..]. split; [done|]. destruct (arithmetic_rounding op); [|done].
      destruct Hk as [_ [E|E]]; rewrite Ekr in E; discriminate E. }
  - destruct (integer_operand_value l tl x Hl Hvl Hx) as [-> Htl].
    destruct (integer_operand_value r tr y Hr Hvr Hy) as [-> Htr].
    eapply wp_mono; [by eapply arithmetic_apply_binary|..]; [|by intros f s' [-> (-> & _)]].
    intros answer s' [-> Ha]. split; [done|]. eapply integer_answer_typed; [|done| |done].
    + apply (bind_integral op (ty_kind tl) (Some (ty_kind tr))); [done|by eapply integer_typed_kind|by eapply integral_kind|done].
    + intros _. split; [done|]. by apply integer_value_facts.
  - unfold arithmetic_apply. rewrite (ab_op _ _ _ _ Hb). cbn [maybe]. fold (is_null l) (is_null r). rewrite Hnl, Hnr. cbn [orb].
    pose proof (ab_arity _ _ _ _ Hb) as Hu. cbn in Hu.
    destruct (arithmetic_rounding op) eqn:Hro.
    { destruct Hreal as [Hfl [y Hy]]. tdb_step. apply (wp_access_Some _ r); [done|].
      apply finite_exact; [|done..]. by eapply arithmetic_round_finite. }
    destruct (numeric_real_pattern l) as (da & Ha & Hpa); [tauto|].
    destruct (numeric_real_pattern r) as (db & Hbr & Hpb); [tauto|].
    assert (stays_finite (S:=S) (arithmetic_real op l r)) as Hfin by (by eapply arithmetic_real_finite).
    rewrite Hu, Hres. change (KIND_DOUBLE =? KIND_DOUBLE) with true. cbn iota.
    destruct (arithmetic_division op) eqn:Hdi.
    + tdb_step. apply (wp_access_Some _ r); [done|].
      assert (exists z, is_zero r = Some z) as [z Hz].
      { destruct Hopr as [[y Hy]|[(d & -> & _) _]]; [|eauto]. unfold int_of, is_zero in *. destruct (tv_data r); try done; eauto. }
      tdb_step. apply (wp_access_Some _ z); [done|]. destruct z; [|by apply finite_exact].
      tdb_step. split; [done|]. cbn. by rewrite Hnn, Hz.
    + tdb_step. apply (wp_access_Some _ r); [done|]. by apply finite_exact.
Qed.

Lemma apply_typed {S} op tl right a l r :
  arithmetic_bound op tl right a -> is_some r = is_some right -> value_ok l -> maybe_ok value_ok r ->
  valid_value l tl = true -> maybe (fun r => valid_value r (a_right a)) r true = true ->
  applies_typed (S:=S) op (a_result a) l r (arithmetic_apply pow a l r).
Proof.
  intros Hb Hs Hl Hr Hvl Hvr. rewrite (ab_right _ _ _ _ Hb) in Hvr. destruct (any_null l r) eqn:Hn.
  - intros s. unfold arithmetic_apply. unfold any_null, is_null in Hn. fold (is_null l) in Hn |- *.
    unfold is_null in *. rewrite Hn. tdb_step. split; [done|]. cbn. unfold any_null, is_null. rewrite Hn.
    apply typed_null. rewrite (ab_nullable _ _ _ _ Hb). unfold either_nullable.
    apply orb_true_iff. right. apply orb_true_iff in Hn as [Hn|Hn].
    + by rewrite (null_nullable l tl).
    + destruct r as [r|], right as [tr|]; try done. cbn in *. rewrite (null_nullable r tr) by done. apply orb_true_r.
  - apply orb_false_iff in Hn as [Hnl Hnr].
    destruct r as [r|], right as [tr|]; try done; [by eapply apply_typed_binary|by eapply apply_typed_unary].
Qed.
End Typed.

(** ** The evaluation around the computation *)

Section Eval.
Context (pow : Z -> Z -> Z).

Lemma arithmetic_valid op tl right a l r :
  arithmetic_bound op tl right a -> is_some r = is_some right ->
  valid_value l tl = true -> maybe (fun r => valid_value r (a_right a)) r true = true ->
  negb (valid_value l (a_left a)) || maybe (fun r => negb (valid_value r (a_right a))) r false = false.
Proof.
  intros Hb Hs Hl Hr. rewrite (ab_left _ _ _ _ Hb), Hl. cbn. destruct r; [|done]. cbn in *. by rewrite Hr.
Qed.

(** A bound operation on values of the bound types costs one step and is then
    its computation. *)
Lemma eval_condition_wp op tl right a b l r A R :
  ledger_ok b -> arithmetic_bound op tl right a -> is_some r = is_some right ->
  valid_value l tl = true -> maybe (fun r => valid_value r (a_right a)) r true = true ->
  (forall s : ptr orm_tidesdb_sql_budget, wp (arithmetic_apply pow a l r) (fun answer s' => s' = s /\ A answer) (fun f s' => s' = s /\ R f) s) ->
  wp (orm_tidesdb_sql_arithmetic_eval_condition pow (Some a) (Some l) r true true)
    (fun answer s => A answer /\ exists b', s = Some b' /\ spent b 1 b')
    (fun f s => R f /\ (exists b', s = Some b' /\ spent b 1 b') \/
      s = Some b /\ (statement_active b = true -> steps_left b < 1)) (Some b).
Proof.
  intros Hok Hb Hs Hl Hr Happ. unfold orm_tidesdb_sql_arithmetic_eval_condition.
  tdb_step. tdb_step. cbn [is_some negb orb]. pose proof (ab_arity _ _ _ _ Hb) as Hu. pose proof (ab_range _ _ _ _ Hb).
  rewrite (ab_op _ _ _ _ Hb).
  tdb_step. tdb_step. { by rewrite Hs, Hu in *; destruct (is_some right). }
  tdb_step. tdb_step. { bsimp. lia. }
  tdb_step. tdb_step. { by erewrite arithmetic_valid in * by done. }
  tdb_step. eapply wp_mono; [by apply charge_spent|..].
  - intros _ s (_ & _ & b' & -> & Hsp). eapply wp_mono; [apply Happ|..].
    + intros answer s' [-> HA]. eauto.
    + intros f s' [-> HR]. left. eauto.
  - intros f s [-> Hf]. by right.
Qed.

(** C18. Arithmetic is type safe. For every bound operation on values of the
    bound types, NULL included, the evaluation never touches an undefined
    value; what it stores has the type the bind announced (so a double is
    finite) and is NULL exactly when an operand is. It fails only because the
    result is out of range, because a division has a zero divisor (and no NULL
    operand), or because no step is left, and then changes nothing. All that
    is assumed of pow is that it returns a double. *)
Theorem arithmetic_eval_typed op tl right a b l r :
  (forall n, 0 <= n <= DBL_MAX_10_EXP -> pattern (pow (double_of_integer 10) (double_of_integer n))) ->
  orm_tidesdb_sql_arithmetic_bind op tl right true tt = (Ret a, tt) -> reachable b ->
  is_some r = is_some right -> value_ok l -> maybe_ok value_ok r ->
  valid_value l tl = true -> maybe (fun r => valid_value r (a_right a)) r true = true ->
  match orm_tidesdb_sql_arithmetic_eval pow (Some a) (Some l) r true (Some b) with
  | (Ret v, Some b') => typed (a_result a) (any_null l r) v /\ spent b 1 b'
  | (Err f, Some b') =>
      any_null l r = false /\ spent b 1 b' /\
        (f_status f = TURBODB_STATUS_LIMIT_EXCEEDED \/
         f_status f = TURBODB_STATUS_SQL_ERROR /\ arithmetic_division op = true /\ (r ≫= is_zero) = Some true) \/
      b' = b /\ (statement_active b = true -> steps_left b < 1)
  | _ => False
  end.
Proof.
  intros Hpow [Hbd _]%arithmetic_bind_bound Hb%reachable_ledger_ok Hs Hol Hor Hvl Hvr.
  assert (wp (orm_tidesdb_sql_arithmetic_eval pow (Some a) (Some l) r true)
    (fun v s => typed (a_result a) (any_null l r) v /\ exists b', s = Some b' /\ spent b 1 b')
    (fun f s => (any_null l r = false /\
        (f_status f = TURBODB_STATUS_LIMIT_EXCEEDED \/
         f_status f = TURBODB_STATUS_SQL_ERROR /\ arithmetic_division op = true /\ (r ≫= is_zero) = Some true)) /\
        (exists b', s = Some b' /\ spent b 1 b') \/
      s = Some b /\ (statement_active b = true -> steps_left b < 1)) (Some b)) as Hw.
  { unfold orm_tidesdb_sql_arithmetic_eval. tdb_step. tdb_step; [done|]. tdb_step.
    eapply wp_mono; [eapply (eval_condition_wp op tl right a b l r (typed_answer op (a_result a) l r)
      (fun f => f = range_failure /\ any_null l r = false)); try done; intros s; by eapply apply_typed|..].
    - intros [v []] s [Ha Hsp]; tdb_step; [done|]. left. split; [|done]. cbn in Ha. tauto.
    - intros f s [[[-> Hn] Hsp]|Hsame]; [left|by right]. split; [|done]. split; [done|by left]. }
  unfold wp in Hw. destruct (orm_tidesdb_sql_arithmetic_eval _ _ _ _ _ _) as [[v|f|] s]; [| |done].
  - by destruct Hw as (? & b' & -> & ?).
  - destruct Hw as [([? ?] & b' & -> & ?)|[-> ?]]; [left; split_and!; done|by right].
Qed.
End Eval.

(** ** Witnesses *)

(** An exact power of ten. *)
Definition sample_pow (base exponent : Z) : Z :=
  double_of_integer (integer_of_double base ^ integer_of_double exponent).

Definition sample_round (kind : Z) : orm_sql_arithmetic :=
  mk_arithmetic ORM_SQL_ROUND (mk_type kind false) (mk_type KIND_INT64 true) (mk_type kind true).


Lemma arithmetic_eval_typed_witness :
  exists b, orm_tidesdb_sql_arithmetic_eval sample_pow (Some (sample_round KIND_DOUBLE)) (Some (turbodb_f64 0x4029000000000000))
    (Some (turbodb_i64 0)) true (Some (sample_after [Op_begin])) = (Ret (turbodb_f64 0x4028000000000000), Some b) /\
  typed (mk_type KIND_DOUBLE true) false (turbodb_f64 0x4028000000000000).
Proof.
  pose proof (arithmetic_eval_typed sample_pow ORM_SQL_ROUND (mk_type KIND_DOUBLE false) (Some (mk_type KIND_INT64 true))
    (sample_round KIND_DOUBLE) (sample_after [Op_begin]) (turbodb_f64 0x4029000000000000) (Some (turbodb_i64 0))
    (fun n _ => double_round_pattern false _ 1 eq_refl) eq_refl sample_begun eq_refl
    ltac:(cbn; lia) ltac:(cbn; lia) eq_refl eq_refl) as H.
  match type of H with match ?t with _ => _ end =>
    assert (exists b, t = (Ret (turbodb_f64 0x4028000000000000), Some b)) as [b E] by (eexists; vm_compute; reflexivity)
  end.
  rewrite E in H. exists b. split; [exact E|exact (proj1 H)].
Defined.
