(* ===== verification/Literal.v ===== *)
(** * Numeric literals of SQL (tidessql/src/value.c)

    Integer literals become exact 64-bit integers; literals with a fraction
    or an exponent become doubles through the long double type of the C
    implementation, whose format the language leaves open: its conversions,
    product and powl are parameters of the model. *)

From S2P Require Import Prelude Row Command Errors Budget Float Value Arithmetic.

(** ** Characters *)

Definition is_digit (c : Z) : bool := (48 <=? c) && (c <=? 57).
Definition digit_of (c : Z) : Z := c - 48.
Definition DOT : Z := 46.
Definition is_exponent (c : Z) : bool := (c =? 101) || (c =? 69).
Definition PLUS : Z := 43.
Definition MINUS : Z := 45.
Definition is_sign (c : Z) : bool := (c =? PLUS) || (c =? MINUS).
Definition DECIMAL_BASE : Z := 10.

(** ** Integer literals *)

Fixpoint integer_literal_loop {S} (text : bytes) (maximum number : Z) : M turbodb_failure S Z :=
  match text with
  | [] => mret number
  | c :: text =>
      raise_if (negb (is_digit c)) TURBODB_STATUS_UNSUPPORTED "only decimal integer literals are supported";;
      raise_if (size_sub maximum (digit_of c) / DECIMAL_BASE <? number) TURBODB_STATUS_LIMIT_EXCEEDED
        "integer is out of range";;
      integer_literal_loop text maximum (u64 (number * DECIMAL_BASE + digit_of c))
  end.


Definition orm_tidesdb_sql_integer_literal {S} (text : vstr) (negative wants : bool)
    : M turbodb_failure S turbodb_value_t :=
  raise_if (negb wants || negb (is_some (vs_data text)) || (vs_len text =? 0)) TURBODB_STATUS_INVALID_ARGUMENT
    "invalid integer literal";;
  data ← access (blob_bytes (mk_blob (vs_data text) (vs_len text)));
  let maximum := if negative then u64 (INT64_MAX + 1) else UINT64_MAX in
  number ← integer_literal_loop data maximum 0;
  if negative then z ← access (signed_of true number); mret (turbodb_i64 z)
  else mret (if number <=? INT64_MAX then turbodb_i64 number else turbodb_u64 number).

(** ** Decimal literals *)

Definition decimal_exponent_add (exponent delta : Z) : option Z :=
  if (0 <? delta) && (INT64_MAX - delta <? exponent) then Some INT64_MAX
  else if (delta <? 0) && (exponent <? INT64_MIN - delta) then Some INT64_MIN
  else i64 (exponent + delta).

Definition DECIMAL_SIGNIFICANT_DIGITS : Z := 19.
Definition DECIMAL_EXPONENT_LIMIT : Z := 1000000.
Definition DECIMAL_SCALE_SEGMENTS : Z := 2.

(** The local variables of the loop over the digits. *)
Record decimal_scan : Type := mk_scan {
  ds_significand : Z;
  ds_exponent : Z;
  ds_stored : Z;
  ds_point : bool;
  ds_digit : bool
}.

Definition scan_start : decimal_scan := mk_scan 0 0 0 false false.

Definition scan_digit (s : decimal_scan) (value : Z) : option decimal_scan :=
  let point := ds_point s in
  if (ds_stored s =? 0) && (value =? 0) then
    e ← (if point then decimal_exponent_add (ds_exponent s) (-1) else Some (ds_exponent s));
    Some (mk_scan (ds_significand s) e (ds_stored s) point true)
  else if ds_stored s <? DECIMAL_SIGNIFICANT_DIGITS then
    e ← (if point then decimal_exponent_add (ds_exponent s) (-1) else Some (ds_exponent s));
    Some (mk_scan (u64 (ds_significand s * DECIMAL_BASE + value)) e (u64 (ds_stored s + 1)) point true)
  else
    e ← (if negb point then decimal_exponent_add (ds_exponent s) 1 else Some (ds_exponent s));
    Some (mk_scan (ds_significand s) e (ds_stored s) point true).

(** The loop up to the exponent, with what is left of the text. *)
Fixpoint scan_digits {S} (text : bytes) (s : decimal_scan) : M turbodb_failure S (decimal_scan * bytes) :=
  match text with
  | [] => mret (s, [])
  | c :: rest =>
      if is_exponent c then mret (s, text)
      else if (c =? DOT) && negb (ds_point s)
      then scan_digits rest (mk_scan (ds_significand s) (ds_exponent s) (ds_stored s) true (ds_digit s))
      else
        raise_if (negb (is_digit c)) TURBODB_STATUS_INVALID_ARGUMENT "invalid decimal numeric literal";;
        s' ← access (scan_digit s (digit_of c));
        scan_digits rest s'
  end.

(** The digits of the exponent; the sum saturates at the limit. *)
Fixpoint scan_exponent {S} (text : bytes) (exponent : Z) : M turbodb_failure S Z :=
  match text with
  | [] => mret exponent
  | c :: rest =>
      raise_if (negb (is_digit c)) TURBODB_STATUS_INVALID_ARGUMENT "invalid decimal exponent";;
      scan_exponent rest (
        if exponent <? DECIMAL_EXPONENT_LIMIT
        then if Z.quot (DECIMAL_EXPONENT_LIMIT - digit_of c) DECIMAL_BASE <? exponent then DECIMAL_EXPONENT_LIMIT
             else exponent * DECIMAL_BASE + digit_of c
        else exponent)
  end.

(** The significand and the decimal exponent a text stands for. *)
Definition decimal_parse {S} (data : bytes) : M turbodb_failure S (Z * Z) :=
  '(s, rest) ← scan_digits data scan_start;
  raise_if (negb (ds_digit s)) TURBODB_STATUS_INVALID_ARGUMENT "invalid decimal numeric literal";;
  match rest with
  | [] => mret (ds_significand s, ds_exponent s)
  | _ :: rest =>
      let '(negative, rest) := match rest with
        | c :: rest' => if is_sign c then (c =? MINUS, rest') else (false, rest)
        | [] => (false, rest)
        end in
      raise_if (match rest with [] => true | _ => false end) TURBODB_STATUS_INVALID_ARGUMENT "invalid decimal exponent";;
      exponent ← scan_exponent rest 0;
      e ← access (decimal_exponent_add (ds_exponent s) (if negative then - exponent else exponent));
      mret (ds_significand s, e)
  end.

Section LongDouble.
(** The long double type: a number, its conversions, the product, the powers of
    ten of powl, and the decimal exponents of its range. *)
Context (long_double : Type) (ld_of_u64 : Z -> long_double) (ld_mul : long_double -> long_double -> long_double)
  (powl_ten : Z -> long_double) (double_of_ld : long_double -> Z) (LDBL_MAX_10_EXP LDBL_MIN_10_EXP : Z).

(** [(double)scaled] *)
Definition decimal_scaled (significand exponent : Z) : Z :=
  double_of_ld (
    if negb (significand =? 0) &&
        (LDBL_MIN_10_EXP - DECIMAL_SCALE_SEGMENTS * DECIMAL_SIGNIFICANT_DIGITS <=? exponent)
    then
      let scaled := ld_of_u64 significand in
      if exponent <? LDBL_MIN_10_EXP
      then ld_mul (ld_mul scaled (powl_ten LDBL_MIN_10_EXP)) (powl_ten (exponent - LDBL_MIN_10_EXP))
      else ld_mul scaled (powl_ten exponent)
    else ld_of_u64 0).

Definition decimal_literal {S} (text : vstr) (negative wants : bool) : M turbodb_failure S turbodb_value_t :=
  raise_if (negb wants || negb (is_some (vs_data text)) || (vs_len text =? 0)) TURBODB_STATUS_INVALID_ARGUMENT
    "invalid numeric literal";;
  data ← access (blob_bytes (mk_blob (vs_data text) (vs_len text)));
  '(significand, exponent) ← decimal_parse data;
  raise_if (negb (significand =? 0) && (LDBL_MAX_10_EXP + DECIMAL_SIGNIFICANT_DIGITS <? exponent))
    TURBODB_STATUS_LIMIT_EXCEEDED "floating-point literal is out of range";;
  let value := decimal_scaled significand exponent in
  raise_if (negb (isfinite value)) TURBODB_STATUS_LIMIT_EXCEEDED "floating-point literal is out of range";;
  mret (turbodb_f64 (if negative then double_neg value else value)).

Definition orm_tidesdb_sql_number_literal {S} (text : vstr) (negative wants : bool)
    : M turbodb_failure S turbodb_value_t :=
  raise_if (negb wants || negb (is_some (vs_data text)) || (vs_len text =? 0)) TURBODB_STATUS_INVALID_ARGUMENT
    "invalid numeric literal";;
  data ← access (blob_bytes (mk_blob (vs_data text) (vs_len text)));
  if existsb (fun c => (c =? DOT) || is_exponent c) data then decimal_literal text negative wants
  else orm_tidesdb_sql_integer_literal text negative wants.
End LongDouble.

(** ** Decimal notation *)

(** The number a list of digits continues. *)
Definition digits_from (n : Z) (l : bytes) : Z := fold_left (fun n c => n * 10 + digit_of c) l n.
Definition digits_value (l : bytes) : Z := digits_from 0 l.
Definition digits (l : bytes) : Prop := Forall (fun c => is_digit c = true) l.

Lemma digit_range c : is_digit c = true -> 0 <= digit_of c <= 9.
Proof. unfold is_digit, digit_of. intros. bsimp. lia. Qed.

Lemma digits_from_app n a b : digits_from n (a ++ b) = digits_from (digits_from n a) b.
Proof. apply fold_left_app. Qed.

Lemma digits_from_scale n l : digits_from n l = n * 10 ^ len l + digits_value l.
Proof.
  unfold digits_value. revert n. induction l as [|c l IH]; intros n; cbn [digits_from fold_left length].
  - rewrite Z.pow_0_r. cbn. lia.
  - fold (digits_from (n * 10 + digit_of c) l) (digits_from (0 * 10 + digit_of c) l).
    rewrite (IH (n * 10 + _)), (IH (0 * 10 + _)), Nat2Z.inj_succ, Z.pow_succ_r by lia. lia.
Qed.

Lemma digits_value_range l : digits l -> 0 <= digits_value l < 10 ^ len l.
Proof.
  induction l as [|c l IH]; intros H; [cbn; lia|]. apply Forall_cons in H as [Hc%digit_range Hl].
  unfold digits_value. cbn [digits_from fold_left length]. fold (digits_from (0 * 10 + digit_of c) l).
  rewrite digits_from_scale, Nat2Z.inj_succ, Z.pow_succ_r by lia. specialize (IH Hl).
  pose proof (Z.pow_pos_nonneg 10 (len l)). nia.
Qed.

Lemma digits_from_le n l : 0 <= n -> digits l -> n <= digits_from n l.
Proof.
  intros Hn Hl. rewrite digits_from_scale. pose proof (digits_value_range l Hl).
  pose proof (Z.pow_pos_nonneg 10 (len l)). nia.
Qed.

(** ** Integer literals are exact *)

(** The step of the loop: the test by division is the test on the sum. *)
Lemma next_exceeds maximum n d :
  0 <= d <= 9 -> 9 <= maximum < 2 ^ 64 -> 0 <= n ->
  (size_sub maximum d / DECIMAL_BASE <? n) = (maximum <? n * 10 + d).
Proof.
  intros. rewrite size_sub_small by lia. unfold DECIMAL_BASE.
  pose proof (Z.div_mod (maximum - d) 10). pose proof (Z.mod_pos_bound (maximum - d) 10).
  destruct (Z.ltb_spec ((maximum - d) / 10) n), (Z.ltb_spec maximum (n * 10 + d)); lia.
Qed.

Lemma integer_literal_loop_wp {S} text maximum n (s : S) :
  9 <= maximum < 2 ^ 64 -> 0 <= n <= maximum ->
  wp (integer_literal_loop text maximum n)
    (fun r s' => s' = s /\ digits text /\ r = digits_from n text /\ r <= maximum)
    (fun f s' => s' = s /\
      (f_status f = TURBODB_STATUS_UNSUPPORTED /\ ~ digits text \/
       f_status f = TURBODB_STATUS_LIMIT_EXCEEDED /\ exists p q, text = p ++ q /\ digits p /\ maximum < digits_from n p)) s.
Proof.
  intros Hm. revert n. induction text as [|c text IH]; intros n Hn; cbn [integer_literal_loop].
  { tdb_step. split_and!; [done|constructor|done|lia]. }
  tdb_step. tdb_step.
  { split; [done|]. left. split; [done|]. intros [Hc _]%Forall_cons. by rewrite Hc in *. }
  assert (is_digit c = true) as Hc by (by destruct (is_digit c)). pose proof (digit_range c Hc).
  rewrite next_exceeds by lia. tdb_step. tdb_step.
  { split; [done|]. right. split; [done|]. exists [c], text. bsimp. split_and!; [done|by constructor|done]. }
  bsimp. unfold DECIMAL_BASE. rewrite u64_small by lia. eapply wp_mono; [apply IH; lia|..].
  - intros r s' (-> & Ht & -> & Hr). split_and!; [done|by constructor|done|done].
  - intros f s' [-> [[? Hnd]|(? & p & q & -> & Hp & Hlt)]]; (split; [done|]).
    + left. split; [done|]. by intros [_ ?]%Forall_cons.
    + right. split; [done|]. exists (c :: p), q. split_and!; [done|by constructor|done].
Qed.

(** The largest magnitude and the value of an integer literal. *)
Definition literal_maximum (negative : bool) : Z := if negative then INT64_MAX + 1 else UINT64_MAX.
Definition literal_value (negative : bool) (n : Z) : turbodb_value_t :=
  if negative then turbodb_i64 (- n) else if n <=? INT64_MAX then turbodb_i64 n else turbodb_u64 n.

(** Integer literals are exact: a literal made of digits only becomes the
    integer it denotes, signed where it fits (the most negative number
    included), unsigned above; it is refused as UNSUPPORTED exactly because of
    a character that is not a digit, and as out of range exactly because its
    leading digits already exceed what the type can hold. *)
Theorem integer_literal_exact {S} data negative (s : S) :
  data <> [] -> len data < 2 ^ 63 ->
  match orm_tidesdb_sql_integer_literal (mk_vstr (Some data) (len data)) negative true s with
  | (Ret v, s') => s' = s /\ digits data /\ v = literal_value negative (digits_value data) /\
      digits_value data <= literal_maximum negative
  | (Err f, s') => s' = s /\
      (f_status f = TURBODB_STATUS_UNSUPPORTED /\ ~ digits data \/
       f_status f = TURBODB_STATUS_LIMIT_EXCEEDED /\
         exists p q, data = p ++ q /\ digits p /\ literal_maximum negative < digits_value p)
  | (Fault, _) => False
  end.
Proof.
  intros Hne Hlen.
  assert (wp (orm_tidesdb_sql_integer_literal (mk_vstr (Some data) (len data)) negative true)
    (fun v s' => s' = s /\ digits data /\ v = literal_value negative (digits_value data) /\
      digits_value data <= literal_maximum negative)
    (fun f s' => s' = s /\
      (f_status f = TURBODB_STATUS_UNSUPPORTED /\ ~ digits data \/
       f_status f = TURBODB_STATUS_LIMIT_EXCEEDED /\
         exists p q, data = p ++ q /\ digits p /\ literal_maximum negative < digits_value p)) s) as Hw; [|exact Hw].
  unfold orm_tidesdb_sql_integer_literal. tdb_step. tdb_step.
  { exfalso. destruct data; [done|]. cbn [is_some vs_data vs_len negb orb] in *. bsimp. cbn in *. lia. }
  tdb_step. apply (wp_access_Some _ data).
  { unfold blob_bytes. cbn [blob_data blob_size vs_data vs_len]. rewrite ldn_Some by lia. rewrite drop_0. by rewrite Nat2Z.id, firstn_all. }
  tdb_step. replace (if negative then u64 (INT64_MAX + 1) else UINT64_MAX) with (literal_maximum negative) by (by destruct negative).
  eapply wp_mono; [apply integer_literal_loop_wp|..]; [by destruct negative|by destruct negative| |].
  - intros n s' (-> & Hdig & -> & Hle). fold (digits_value data) in *. unfold literal_value.
    pose proof (digits_value_range data Hdig). destruct negative; [|tdb_step; done].
    tdb_step. apply (wp_access_Some _ (- digits_value data)); [|tdb_step; done].
    apply (signed_of_Some true). cbn in Hle |- *. lia.
  - intros f s' Hf. exact Hf.
Qed.

(** ** The decimal parser *)

(** A decimal number: its integral digits, its fraction after a point, and its
    exponent (the letter, the sign, the digits). *)
Record decimal : Type := mk_decimal {
  d_int : bytes;
  d_frac : option bytes;
  d_exp : option (Z * option Z * bytes)
}.

Definition frac_digits (d : decimal) : bytes := default [] (d_frac d).
Definition mantissa_digits (d : decimal) : bytes := d_int d ++ frac_digits d.
Definition mantissa_bytes (d : decimal) : bytes :=
  d_int d ++ match d_frac d with Some f => DOT :: f | None => [] end.
Definition exponent_bytes (d : decimal) : bytes :=
  match d_exp d with Some (c, sign, ds) => c :: (match sign with Some s => [s] | None => [] end) ++ ds | None => [] end.
Definition decimal_bytes (d : decimal) : bytes := mantissa_bytes d ++ exponent_bytes d.

Definition decimal_ok (d : decimal) : Prop :=
  digits (mantissa_digits d) /\ mantissa_digits d <> [] /\
  match d_exp d with
  | Some (c, sign, ds) => is_exponent c = true /\ maybe is_sign sign true = true /\ digits ds /\ ds <> []
  | None => True
  end.

(** The number is [mantissa d * 10 ^ exponent d]. *)
Definition mantissa (d : decimal) : Z := digits_value (mantissa_digits d).
Definition written_exponent (d : decimal) : Z :=
  match d_exp d with
  | Some (_, sign, ds) => if maybe (fun s => s =? MINUS) sign false then - digits_value ds else digits_value ds
  | None => 0
  end.
Definition exponent (d : decimal) : Z := written_exponent d - len (frac_digits d).

(** What the scan keeps of a number [v] of [n] digits, [f] of them after the
    point: its leading digits; [ds_exponent s + f] digits are dropped. *)
Record scanned (v f n : Z) (s : decimal_scan) : Prop := {
  sc_dropped : 0 <= ds_exponent s + f;
  sc_lower : ds_significand s * 10 ^ (ds_exponent s + f) <= v;
  sc_upper : v < (ds_significand s + 1) * 10 ^ (ds_exponent s + f);
  sc_stored : 0 <= ds_stored s <= 19;
  sc_room : ds_stored s < 19 -> ds_exponent s + f = 0;
  sc_leading : ds_stored s = 0 /\ ds_significand s = 0 \/
    0 < ds_stored s /\ 10 ^ (ds_stored s - 1) <= ds_significand s < 10 ^ ds_stored s;
  sc_exponent : ds_exponent s <= n
}.

Lemma decimal_exponent_add_small e delta :
  - 2 ^ 62 <= e <= 2 ^ 62 -> - 2 ^ 62 < delta < 2 ^ 62 -> decimal_exponent_add e delta = Some (e + delta).
Proof.
  intros. unfold decimal_exponent_add, INT64_MAX, INT64_MIN.
  destruct (Z.ltb_spec 0 delta), (Z.ltb_spec (2 ^ 63 - 1 - delta) e), (Z.ltb_spec delta 0),
    (Z.ltb_spec e (- 2 ^ 63 - delta)); cbn [andb]; try lia; apply i64_Some; unfold INT64_MIN, INT64_MAX; lia.
Qed.

Lemma scan_digit_scanned v f n s d :
  scanned v f n s -> 0 <= d <= 9 -> 0 <= v -> 0 <= f <= n -> n < 2 ^ 62 ->
  exists s', scan_digit s d = Some s' /\ scanned (v * 10 + d) (f + if ds_point s then 1 else 0) (n + 1) s' /\
    ds_point s' = ds_point s /\ ds_digit s' = true.
Proof.
  intros [Hk Hlo Hup Hst Hroom Hlead Hexp] Hd Hv Hf Hn. unfold scan_digit, DECIMAL_SIGNIFICANT_DIGITS, DECIMAL_BASE.
  set (e := ds_exponent s) in *. set (m := ds_significand s) in *. set (c := ds_stored s) in *.
  assert (forall b : bool, (if b then decimal_exponent_add e (-1) else Some e) = Some (e + if b then -1 else 0)) as Hsub.
  { intros []; [apply decimal_exponent_add_small; lia|f_equal; lia]. }
  assert (forall b : bool, (if b then decimal_exponent_add e 1 else Some e) = Some (e + if b then 1 else 0)) as Hadd.
  { intros []; [apply decimal_exponent_add_small; lia|f_equal; lia]. }
  rewrite Hsub, Hadd. cbn [mbind option_bind]. clear Hsub Hadd.
  set (dot := if ds_point s then 1 else 0). assert (0 <= dot <= 1) by (subst dot; destruct (ds_point s); lia).
  replace (if ds_point s then -1 else 0) with (- dot) by (subst dot; by destruct (ds_point s)).
  replace (if negb (ds_point s) then 1 else 0) with (1 - dot) by (subst dot; by destruct (ds_point s)). clearbody dot.
  destruct ((c =? 0) && (d =? 0)) eqn:Hz; [|destruct (Z.ltb_spec c 19) as [Hc|Hc]].
  - eexists. split; [done|]. split; [|done]. bsimp. rewrite Hroom in * by lia. rewrite Z.pow_0_r in *.
    split; cbn [ds_significand ds_exponent ds_stored]; fold e m c; replace (e + - dot + (f + dot)) with 0 by lia;
      rewrite ?Z.pow_0_r; lia.
  - eexists. split; [done|]. split; [|done]. rewrite Hroom in * by lia. rewrite Z.pow_0_r in *.
    assert (m = v) as -> by lia.
    assert (10 ^ (c + 1) <= 10 ^ 19) by (apply Z.pow_le_mono_r; lia).
    assert (10 ^ c <= v * 10 + d < 10 ^ (c + 1)) as Hnew.
    { rewrite Z.pow_add_r by lia. destruct Hlead as [[-> ->]|[Hc0 Hb]].
      - rewrite Z.pow_0_r. apply andb_false_iff in Hz as [Hz|Hz]; bsimp; lia.
      - assert (10 ^ c = 10 ^ (c - 1) * 10) by (replace c with (Z.succ (c - 1)) at 1 by lia; rewrite Z.pow_succ_r; lia). lia. }
    rewrite !u64_small by lia.
    split; cbn [ds_significand ds_exponent ds_stored]; fold e; replace (e + - dot + (f + dot)) with 0 by lia;
      rewrite ?Z.pow_0_r; try lia. right. replace (c + 1 - 1) with c by lia. lia.
  - eexists. split; [done|]. split; [|done].
    assert (10 ^ (e + f + 1) = 10 ^ (e + f) * 10) as Hp by (by rewrite Z.pow_add_r by lia).
    split; cbn [ds_significand ds_exponent ds_stored]; fold e m c;
      replace (e + (1 - dot) + (f + dot)) with (e + f + 1) by lia; rewrite ?Hp; try lia.
Qed.

(** Scanning digits, whatever follows them. *)
Lemma scan_digits_app {S} l rest v f n s (st : S) :
  digits l -> scanned v f n s -> 0 <= v -> 0 <= f <= n -> n + len l < 2 ^ 62 ->
  exists s', scan_digits (l ++ rest) s st = scan_digits rest s' st /\
    scanned (digits_from v l) (f + if ds_point s then len l else 0) (n + len l) s' /\
    ds_point s' = ds_point s /\ ds_digit s' = match l with [] => ds_digit s | _ => true end.
Proof.
  revert v f n s. induction l as [|c l IH]; intros v f n s Hl Hs Hv Hf Hn.
  { exists s. cbn in *. rewrite !Z.add_0_r. replace (f + _) with f by (case_match; lia). done. }
  apply Forall_cons in Hl as [Hc Hl]. pose proof (digit_range c Hc) as Hr. cbn [length] in Hn. rewrite Nat2Z.inj_succ in Hn.
  destruct (scan_digit_scanned v f n s (digit_of c)) as (s1 & E1 & Hs1 & Hp1 & Hd1); [done..|lia|].
  destruct (IH (v * 10 + digit_of c) (f + if ds_point s then 1 else 0) (n + 1) s1) as (s2 & E2 & Hs2 & Hp2 & Hd2);
    [done|done|lia|case_match; lia|lia|].
  exists s2. cbn [app scan_digits].
  assert (is_exponent c = false /\ (c =? DOT) = false) as [-> ->].
  { unfold is_exponent, is_digit, DOT in *. bsimp. split; [|apply Z.eqb_neq; lia].
    apply orb_false_iff. split; apply Z.eqb_neq; lia. }
  cbn [andb]. rewrite Hc. cbn [negb]. rewrite raise_if_false, E1, access_bind, E2. split; [done|].
  cbn [digits_from fold_left length]. rewrite Nat2Z.inj_succ. split_and!; [|congruence|by rewrite Hd2, Hd1; destruct l].
  rewrite Hp1 in Hs2.
  replace (f + (if ds_point s then Z.succ (len l) else 0)) with (f + (if ds_point s then 1 else 0) + (if ds_point s then len l else 0))
    by (destruct (ds_point s); lia).
  by replace (n + Z.succ (len l)) with (n + 1 + len l) by lia.
Qed.

Lemma scan_exponent_digits {S} ds e (st : S) :
  digits ds -> 0 <= e <= DECIMAL_EXPONENT_LIMIT ->
  scan_exponent ds e st = (Ret (Z.min DECIMAL_EXPONENT_LIMIT (digits_from e ds)), st).
Proof.
  revert e. induction ds as [|c ds IH]; intros e Hds He; cbn [scan_exponent digits_from fold_left].
  { by rewrite Z.min_r by lia. }
  apply Forall_cons in Hds as [Hc Hds]. pose proof (digit_range c Hc) as Hr. rewrite Hc. cbn [negb]. rewrite raise_if_false.
  fold (digits_from (e * 10 + digit_of c) ds). unfold DECIMAL_BASE.
  rewrite Z.quot_div_nonneg by (unfold DECIMAL_EXPONENT_LIMIT in *; lia).
  pose proof (Z.div_mod (DECIMAL_EXPONENT_LIMIT - digit_of c) 10). pose proof (Z.mod_pos_bound (DECIMAL_EXPONENT_LIMIT - digit_of c) 10).
  set (q := (DECIMAL_EXPONENT_LIMIT - digit_of c) / 10) in *. unfold DECIMAL_EXPONENT_LIMIT in *.
  pose proof (digits_from_le (e * 10 + digit_of c) ds ltac:(lia) Hds).
  pose proof (digits_from_le 1000000 ds ltac:(lia) Hds).
  destruct (Z.ltb_spec e 1000000); [destruct (Z.ltb_spec q e)|]; rewrite IH by (done || lia); do 2 f_equal; try lia.
  assert (e = 1000000) as -> by lia. rewrite !Z.min_l by lia. done.
Qed.

Lemma scan_exponent_Ret {S} ds e (st st' : S) r : scan_exponent ds e st = (Ret r, st') -> digits ds.
Proof.
  revert e. induction ds as [|c ds IH]; intros e; cbn [scan_exponent]; [constructor|].
  intros ([] & s1 & [Hc%negb_false_iff ->]%raise_if_Ret & E)%bind_Ret. constructor; [done|]. by eapply IH.
Qed.

Lemma scan_digits_stop {S} c rest s (st : S) :
  is_exponent c = true -> scan_digits (c :: rest) s st = (Ret (s, c :: rest), st).
Proof. intros Hc. cbn [scan_digits]. by rewrite Hc. Qed.

Lemma scan_digits_point {S} rest s (st : S) :
  ds_point s = false -> scan_digits (DOT :: rest) s st =
  scan_digits rest (mk_scan (ds_significand s) (ds_exponent s) (ds_stored s) true (ds_digit s)) st.
Proof. intros Hp. cbn [scan_digits]. by rewrite Hp. Qed.

Lemma scanned_start : scanned 0 0 0 scan_start.
Proof. split; cbn; lia. Qed.

Lemma scanned_point v f n s :
  scanned v f n s -> scanned v f n (mk_scan (ds_significand s) (ds_exponent s) (ds_stored s) true (ds_digit s)).
Proof. by intros []; split. Qed.

(** Scanning the mantissa of a decimal, before its exponent. *)
Lemma scan_mantissa {S} d (st : S) :
  decimal_ok d -> len (decimal_bytes d) < 2 ^ 62 ->
  exists s, scan_digits (decimal_bytes d) scan_start st = (Ret (s, exponent_bytes d), st) /\
    scanned (mantissa d) (len (frac_digits d)) (len (mantissa_digits d)) s /\ ds_digit s = true.
Proof.
  intros (Hdig & Hne & Hexp) Hlen. unfold decimal_bytes, mantissa_bytes, mantissa, mantissa_digits, frac_digits in *.
  assert (forall s : decimal_scan, scan_digits (exponent_bytes d) s st = (Ret (s, exponent_bytes d), st)) as Hstop.
  { intros s. unfold exponent_bytes. revert Hexp. destruct (d_exp d) as [[[c sg] ds]|]; [|done]. intros [Hc _]. by apply scan_digits_stop. }
  apply Forall_app in Hdig as [Hint Hfrac].
  rewrite <- app_assoc. rewrite !length_app, !Nat2Z.inj_add in Hlen.
  destruct (scan_digits_app (d_int d) (match d_frac d with Some f => DOT :: f | None => [] end ++ exponent_bytes d)
    0 0 0 scan_start st) as (s1 & E1 & Hs1 & Hp1 & Hd1); [done|apply scanned_start|lia..|].
  rewrite E1. cbn in Hp1, Hd1, Hs1. fold (digits_value (d_int d)) in Hs1. unfold digits_value at 1. rewrite digits_from_app. fold (digits_value (d_int d)).
  pose proof (digits_value_range _ Hint). destruct (d_frac d) as [f|]; cbn [from_option id default app] in *.
  - rewrite scan_digits_point by done. cbn [length] in Hlen.
    destruct (scan_digits_app f (exponent_bytes d) (digits_value (d_int d)) 0 (len (d_int d))
      (mk_scan (ds_significand s1) (ds_exponent s1) (ds_stored s1) true (ds_digit s1)) st)
      as (s2 & E2 & Hs2 & Hp2 & Hd2); [done|by apply scanned_point|lia..|].
    exists s2. rewrite E2, Hstop. cbn in Hs2, Hd2. split_and!; [done| |].
    + by rewrite length_app, Nat2Z.inj_add.
    + rewrite Hd2, Hd1. destruct f, (d_int d); done.
  - exists s1. rewrite Hstop. split_and!; [done| |].
    + rewrite app_nil_r. cbn. done.
    + rewrite Hd1. rewrite app_nil_r in Hne. by destruct (d_int d).
Qed.

(** What follows the mantissa. *)
Definition at_exponent (rest : bytes) : Prop := rest = [] \/ exists c r, rest = c :: r /\ is_exponent c = true.

Lemma scan_digit_flags s d s' : scan_digit s d = Some s' -> ds_point s' = ds_point s /\ ds_digit s' = true.
Proof.
  unfold scan_digit. repeat case_match; cbn; intros E;
    repeat match goal with
    | E : (?o ≫= _) = Some _ |- _ => destruct o; [cbn in E|discriminate E]
    end; by injection E as <-.
Qed.

(** The mantissa a successful scan has read. *)
Lemma scan_digits_Ret {S} data s (st st' : S) s' rest :
  scan_digits data s st = (Ret (s', rest), st') ->
  exists l f, digits (l ++ default [] f) /\ at_exponent rest /\ (ds_point s = true -> f = None) /\
    data = (l ++ match f with Some f => DOT :: f | None => [] end) ++ rest /\
    (ds_digit s' = true -> ds_digit s = true \/ l ++ default [] f <> []).
Proof.
  revert s. induction data as [|c data IH]; intros s; cbn [scan_digits].
  { intros [= <- <- _]. exists [], None. split_and!; try done; [constructor|by left|by left]. }
  destruct (is_exponent c) eqn:He.
  { intros [= <- <- _]. exists [], None. split_and!; try done; [constructor|right; by exists c, data|by left]. }
  destruct ((c =? DOT) && negb (ds_point s)) eqn:Hdot.
  - intros E. apply andb_true_iff in Hdot as [->%Z.eqb_eq Hp%negb_true_iff].
    apply IH in E as (l & f & Hdig & Hrest & Hf & -> & Hd). rewrite Hf in * by done.
    exists [], (Some l). cbn in *. rewrite app_nil_r in *. split_and!; try done.
    congruence.
  - intros ([] & s1 & [Hc%negb_false_iff ->]%raise_if_Ret & E)%bind_Ret.
    apply bind_Ret in E as (s2 & s3 & [E2 ->]%access_Ret & E). apply scan_digit_flags in E2 as [Hp Hd2].
    apply IH in E as (l & f & Hdig & Hrest & Hf & -> & Hd). exists (c :: l), f.
    split_and!; try done; [by constructor|by rewrite Hp in Hf|]. by right.
Qed.

Lemma decimal_parse_accepts {S} data (st st' : S) r :
  decimal_parse data st = (Ret r, st') -> exists d, decimal_ok d /\ data = decimal_bytes d.
Proof.
  unfold decimal_parse. intros ([s rest] & s1 & E1 & E)%bind_Ret.
  apply scan_digits_Ret in E1 as (l & f & Hdig & Hrest & _ & -> & Hd).
  apply bind_Ret in E as ([] & s2 & [Hn%negb_false_iff ->]%raise_if_Ret & E).
  destruct (Hd Hn) as [|Hne]; [done|]. destruct Hrest as [->|(c & rest' & -> & Hc)].
  { exists (mk_decimal l f None). split; [by split|]. unfold decimal_bytes, mantissa_bytes, exponent_bytes. cbn. by rewrite !app_nil_r. }
  assert (exists neg ds sg,
    match rest' with c :: rest'' => if is_sign c then (c =? MINUS, rest'') else (false, rest') | [] => (false, rest') end = (neg, ds) /\
    maybe is_sign sg true = true /\ rest' = (match sg with Some s => [s] | None => [] end) ++ ds) as (neg & ds & sg & Ep & Hsg & ->).
  { destruct rest' as [|c' rs]; [by exists false, [], None|].
    destruct (is_sign c') eqn:Hs; [by exists (c' =? MINUS), rs, (Some c')|by exists false, (c' :: rs), None]. }
  rewrite Ep in E. clear Ep.
  apply bind_Ret in E as ([] & s3 & [Hds ->]%raise_if_Ret & E).
  apply bind_Ret in E as (e & s4 & Hexp%scan_exponent_Ret & E).
  exists (mk_decimal l f (Some (c, sg, ds))). split; [|by unfold decimal_bytes, mantissa_bytes, exponent_bytes].
  unfold decimal_ok, mantissa_digits, frac_digits. cbn. split_and!; try done. by destruct ds.
Qed.

(** Parsing a decimal. The exponent as written is cut to the limit. *)
Definition clamp (x : Z) : Z := Z.max (- DECIMAL_EXPONENT_LIMIT) (Z.min DECIMAL_EXPONENT_LIMIT x).

Lemma decimal_parse_decimal {S} d (st : S) :
  decimal_ok d -> len (decimal_bytes d) < 2 ^ 61 ->
  exists s, scanned (mantissa d) (len (frac_digits d)) (len (mantissa_digits d)) s /\
    decimal_parse (decimal_bytes d) st = (Ret (ds_significand s, ds_exponent s + clamp (written_exponent d)), st).
Proof.
  intros Hd Hlen. destruct (scan_mantissa d st) as (s & Es & Hs & Hdig); [done|lia|]. exists s. split; [done|].
  unfold decimal_parse. unfold mbind at 1, M_bind at 1. rewrite Es. rewrite Hdig. cbn [negb]. rewrite raise_if_false.
  assert (- 2 ^ 61 <= ds_exponent s <= 2 ^ 61) as He.
  { pose proof (sc_dropped _ _ _ _ Hs). pose proof (sc_exponent _ _ _ _ Hs).
    unfold decimal_bytes, mantissa_bytes, mantissa_digits, frac_digits in *. rewrite !length_app, !Nat2Z.inj_add in *.
    destruct (d_frac d); cbn [length default from_option id] in *; lia. }
  destruct Hd as (_ & _ & Hexp). unfold exponent_bytes, written_exponent.
  destruct (d_exp d) as [[[c sg] ds]|]; [|by rewrite Z.add_0_r].
  destruct Hexp as (_ & Hsg & Hds & Hne). pose proof (digits_value_range ds Hds) as Hr.
  assert (match (match sg with Some s => [s] | None => [] end) ++ ds with
    | c :: rest' => if is_sign c then (c =? MINUS, rest') else (false, (match sg with Some s => [s] | None => [] end) ++ ds)
    | [] => (false, (match sg with Some s => [s] | None => [] end) ++ ds) end =
    (maybe (fun s => s =? MINUS) sg false, ds)) as ->.
  { destruct sg as [g|]; cbn in *; [by rewrite Hsg|]. destruct ds as [|x ds]; [done|].
    apply Forall_cons in Hds as [Hx _]. cbn. replace (is_sign x) with false; [done|].
    symmetry. unfold is_sign, is_digit, PLUS, MINUS in *. bsimp. apply orb_false_iff. split; apply Z.eqb_neq; lia. }
  replace (match ds with [] => true | _ => false end) with false by (by destruct ds). rewrite raise_if_false.
  unfold mbind at 1, M_bind at 1. rewrite scan_exponent_digits by (done || unfold DECIMAL_EXPONENT_LIMIT; lia).
  fold (digits_value ds). set (x := Z.min _ (digits_value ds)).
  assert ((if maybe (fun s => s =? MINUS) sg false then - x else x) =
    clamp (if maybe (fun s => s =? MINUS) sg false then - digits_value ds else digits_value ds)) as ->.
  { subst x. unfold clamp, DECIMAL_EXPONENT_LIMIT in *. destruct (maybe _ sg false); lia. }
  rewrite decimal_exponent_add_small; [done|lia|]. unfold clamp, DECIMAL_EXPONENT_LIMIT. lia.
Qed.

(** A failure of the parser is always about the text. *)
Definition about_text (f : turbodb_failure) : Prop := f_status f = TURBODB_STATUS_INVALID_ARGUMENT.

Lemma scan_digits_wp {S} data s n (st : S) :
  - n <= ds_exponent s <= n -> n + len data < 2 ^ 62 ->
  wp (scan_digits data s) (fun r st' => st' = st /\ - (n + len data) <= ds_exponent r.1 <= n + len data)
    (fun f st' => st' = st /\ about_text f) st.
Proof.
  revert s n. induction data as [|c data IH]; intros s n He Hn; cbn [scan_digits length] in *; [tdb_step; split; [done|cbn [fst]; lia]|].
  rewrite Nat2Z.inj_succ in *. destruct (is_exponent c); [tdb_step; split; [done|]; cbn [fst]; lia|].
  destruct ((c =? DOT) && negb (ds_point s)).
  { eapply wp_mono; [apply (IH _ n); cbn [ds_exponent]; lia|..]; [|done]. intros r st' [-> ?]. split; [done|]. lia. }
  tdb_step. tdb_step; [done|]. tdb_step.
  assert (exists s', scan_digit s (digit_of c) = Some s' /\ - (n + 1) <= ds_exponent s' <= n + 1) as (s' & E & Hs').
  { unfold scan_digit. repeat case_match; rewrite ?decimal_exponent_add_small by lia; cbn [mbind option_bind];
      eexists; (split; [done|]); cbn [ds_exponent]; lia. }
  apply (wp_access_Some _ s'); [done|]. eapply wp_mono; [apply (IH s' (n + 1)); lia|..]; [|done].
  intros r st' [-> ?]. split; [done|]. lia.
Qed.

Lemma scan_exponent_wp {S} ds e (st : S) :
  0 <= e <= DECIMAL_EXPONENT_LIMIT ->
  wp (scan_exponent ds e) (fun r st' => st' = st /\ 0 <= r <= DECIMAL_EXPONENT_LIMIT) (fun f st' => st' = st /\ about_text f) st.
Proof.
  revert e. induction ds as [|c ds IH]; intros e He; cbn [scan_exponent]; [by tdb_step|].
  tdb_step. tdb_step; [done|]. apply IH. assert (is_digit c = true) as Hc by (by destruct (is_digit c)).
  pose proof (digit_range c Hc). unfold DECIMAL_EXPONENT_LIMIT, DECIMAL_BASE in *.
  rewrite Z.quot_div_nonneg by lia. pose proof (Z.div_mod (1000000 - digit_of c) 10). pose proof (Z.mod_pos_bound (1000000 - digit_of c) 10).
  destruct (Z.ltb_spec e 1000000); [destruct (Z.ltb_spec ((1000000 - digit_of c) / 10) e)|]; lia.
Qed.

Lemma decimal_parse_wp {S} data (st : S) :
  len data < 2 ^ 61 -> wp (decimal_parse data) (fun _ st' => st' = st) (fun f st' => st' = st /\ about_text f) st.
Proof.
  intros Hlen. unfold decimal_parse. tdb_step. eapply wp_mono; [apply (scan_digits_wp data scan_start 0); cbn; lia| |done].
  intros [s rest] st' [-> He]. cbn in He. tdb_step. tdb_step; [done|]. destruct rest as [|c rest]; [by tdb_step|].
  destruct (match rest with c :: rest' => _ | [] => _ end) as [neg ds]. tdb_step. tdb_step; [done|].
  tdb_step. eapply wp_mono; [apply scan_exponent_wp; unfold DECIMAL_EXPONENT_LIMIT; lia| |done].
  intros e st' [-> Hexp]. unfold DECIMAL_EXPONENT_LIMIT in Hexp. tdb_step.
  eapply wp_access_Some; [apply decimal_exponent_add_small; [lia|destruct neg; lia]|]. by tdb_step.
Qed.

(** The significand is all the digits or the first 19 of them. *)
Lemma scanned_leading v f n s :
  scanned v f n s -> let k := ds_exponent s + f in
  if v <? 10 ^ 19 then k = 0 /\ ds_significand s = v else 0 < k /\ 10 ^ 18 <= ds_significand s.
Proof.
  intros [Hk Hlo Hup Hst Hroom Hlead _]. cbv zeta. set (k := ds_exponent s + f) in *. set (m := ds_significand s) in *.
  assert (m < 10 ^ 19) as Hm.
  { destruct Hlead as [[_ ->]|[_ [_ Hm]]]; [done|]. eapply Z.lt_le_trans; [exact Hm|]. apply Z.pow_le_mono_r; lia. }
  destruct (Z.eq_dec k 0) as [Ek|Ek].
  - rewrite Ek, Z.pow_0_r in *. rewrite (proj2 (Z.ltb_lt _ _)) by lia. lia.
  - destruct (Z.eq_dec (ds_stored s) 19) as [E19|]; [|lia]. rewrite E19 in Hlead.
    destruct Hlead as [[? _]|[_ [Hl _]]]; [done|]. change (10 ^ (19 - 1)) with (10 ^ 18) in Hl.
    assert (10 ^ 1 <= 10 ^ k) by (apply Z.pow_le_mono_r; lia). rewrite (proj2 (Z.ltb_ge _ _)) by nia. lia.
Qed.

(** C26. The decimal parser accepts exactly the decimal notations (digits with an
    optional point, at least one digit, and an optional signed exponent) and
    keeps their value to 19 significant digits. With [m] and [e] returned, [m] is
    the digits of the number, leading zeros apart, when there are at most 19 of
    them; otherwise it is their first 19, and [e] counts the [k] that were cut.
    An exponent beyond a million counts as a
    million. Every other text is refused as invalid. *)
Theorem decimal_parse_bounds {S} data (st : S) :
  len data < 2 ^ 61 ->
  match decimal_parse data st with
  | (Ret (m, e), st') => st' = st /\ exists d k, decimal_ok d /\ data = decimal_bytes d /\
      0 <= k /\ e = clamp (written_exponent d) - len (frac_digits d) + k /\
      m * 10 ^ k <= mantissa d < (m + 1) * 10 ^ k /\ 0 <= m < 10 ^ 19 /\
      (if mantissa d <? 10 ^ 19 then k = 0 /\ m = mantissa d else 0 < k /\ 10 ^ 18 <= m)
  | (Err f, st') => st' = st /\ f_status f = TURBODB_STATUS_INVALID_ARGUMENT /\
      ~ exists d, decimal_ok d /\ data = decimal_bytes d
  | (Fault, _) => False
  end.
Proof.
  intros Hlen. pose proof (decimal_parse_wp data st Hlen) as Hw. unfold wp in Hw.
  destruct (decimal_parse data st) as [[[m e]|f|] st'] eqn:E; [| |done].
  - split; [done|]. subst st'. pose proof (decimal_parse_accepts _ _ _ _ E) as (d & Hd & ->).
    destruct (decimal_parse_decimal d st Hd Hlen) as (s & Hs & E'). pose proof Hs as [Hk Hlo Hup Hst _ Hlead _]. rewrite E in E'.
    injection E' as -> ->. exists d, (ds_exponent s + len (frac_digits d)). split_and!; [done..|lia|done|done| | |].
    + destruct Hlead as [[_ ->]|[_ [? _]]]; [done|]. pose proof (Z.pow_nonneg 10 (ds_stored s - 1)). lia.
    + destruct Hlead as [[_ ->]|[_ [_ Hm]]]; [done|]. eapply Z.lt_le_trans; [exact Hm|]. apply Z.pow_le_mono_r; lia.
    + by apply (scanned_leading _ _ _ s Hs).
  - destruct Hw as [-> Hf]. split_and!; [done..|]. intros (d & Hd & ->).
    destruct (decimal_parse_decimal d st Hd Hlen) as (s & _ & E'). congruence.
Qed.

(** ** Witnesses *)

(** 9223372036854775808 *)
Definition sample_digits : bytes := [57; 50; 50; 51; 51; 55; 50; 48; 51; 54; 56; 53; 52; 55; 55; 53; 56; 48; 56].

(** 12.50e+3 *)
Lemma decimal_parse_bounds_witness :
  decimal_parse [49; 50; 46; 53; 48; 101; 43; 51] tt = (Ret (1250, 1), tt) /\
  exists d, decimal_ok d /\ [49; 50; 46; 53; 48; 101; 43; 51] = decimal_bytes d.
Proof.
  pose proof (decimal_parse_bounds [49; 50; 46; 53; 48; 101; 43; 51] tt ltac:(cbn; lia)) as H.
  match type of H with match ?t with _ => _ end => assert (t = (Ret (1250, 1), tt)) as E by (vm_compute; reflexivity) end.
  rewrite E in H. split; [exact E|]. destruct H as (_ & d & k & Hd & Hb & _). exists d. split; [exact Hd|exact Hb].
Defined.
