(* ===== verification/Assign.v ===== *)
(** * Assignment of a value to a numeric column (tidessql/src/value.c, value.h)

    The conversion MySQL makes when a value is stored in a BIGINT or DOUBLE
    column: numbers, booleans and texts, in strict and in permissive mode. A
    text is the list of the bytes of its view; [skip] is a scanning loop. *)

From S2P Require Import Prelude Row Command Errors Budget Float Value Arithmetic Literal.

(** ** Data *)

Inductive orm_sql_assignment_adjustment : Type :=
| ORM_SQL_ASSIGNMENT_EXACT
| ORM_SQL_ASSIGNMENT_ROUNDED
| ORM_SQL_ASSIGNMENT_TRUNCATED
| ORM_SQL_ASSIGNMENT_OUT_OF_RANGE
| ORM_SQL_ASSIGNMENT_INVALID
| ORM_SQL_ASSIGNMENT_NULL_TO_NOT_NULL.

Definition orm_tidesdb_sql_assignment_compatible (target source : orm_sql_type) : bool :=
  if negb (assignment_numeric (ty_kind target))
  then (ty_kind target =? ty_kind source) || (ty_kind source =? KIND_NULL)
  else (ty_kind source =? KIND_NULL) || assignment_numeric (ty_kind source) || (ty_kind source =? KIND_BOOLEAN) ||
    (ty_kind source =? KIND_TEXT) || (ty_kind source =? KIND_BLOB).

Record assignment_number : Type := mk_number {
  an_magnitude : Z;
  an_end : Z;
  an_negative : bool;
  an_digits : bool;
  an_overflow : bool;
  an_rounded : bool
}.

(** ** Scanning *)

Definition assignment_space (value : Z) : bool :=
  (value =? 32) || (value =? 9) || (value =? 10) || (value =? 13) || (value =? 12) || (value =? 11).

(** [while (at < size && p(data[at])) ++at;] *)
Fixpoint skip_rest (p : Z -> bool) (rest : bytes) (at_ : Z) : Z :=
  match rest with
  | c :: rest => if p c then skip_rest p rest (at_ + 1) else at_
  | [] => at_
  end.
Definition skip (p : Z -> bool) (data : bytes) (at_ : Z) : Z := skip_rest p (drop (Z.to_nat at_) data) at_.

(** [at < size && p(data[at])] *)
Definition next_is (p : Z -> bool) (data : bytes) (at_ : Z) : bool :=
  match data !! Z.to_nat at_ with Some c => p c | None => false end.

Definition assignment_trim_tail (data : bytes) (at_ : Z) : Z := skip assignment_space data at_.

(** The end of the number, where it starts after its sign, whether it is
    negative and whether it has digits. *)
Definition assignment_decimal_prefix (data : bytes) : Z * Z * bool * bool :=
  let at_ := skip assignment_space data 0 in
  let signed := next_is is_sign data at_ in
  let negative := signed && next_is (fun c => c =? MINUS) data at_ in
  let start := if signed then at_ + 1 else at_ in
  let whole := skip is_digit data start in
  let before := start <? whole in
  let point := next_is (fun c => c =? DOT) data whole in
  let fraction := if point then skip is_digit data (whole + 1) else whole in
  let after := point && (whole + 1 <? fraction) in
  let digits := before || after in
  let end_ :=
    if digits && next_is is_exponent data fraction then
      let first := if next_is is_sign data (fraction + 1) then fraction + 2 else fraction + 1 in
      let last := skip is_digit data first in
      if negb (last =? first) then last else fraction
    else fraction in
  (end_, start, negative, digits).

(** ** The exact number of a text *)

Definition U64_DECIMAL_DIGITS : Z := 20.
Definition ROUND_DIGIT : Z := 5.

(** The local variables of the first loop; [ms_leading] is SIZE_MAX before a
    digit that is not zero. *)
Record mantissa_scan : Type := mk_mantissa {
  ms_at : Z;
  ms_digits : Z;
  ms_integer : Z;
  ms_leading : Z;
  ms_point : bool
}.

(** The loop over the characters before the exponent. *)
Fixpoint mantissa_loop (rest : bytes) (s : mantissa_scan) : mantissa_scan :=
  match rest with
  | [] => s
  | c :: rest =>
      if is_exponent c then s
      else if c =? DOT then mantissa_loop rest (mk_mantissa (ms_at s + 1) (ms_digits s) (ms_integer s) (ms_leading s) true)
      else
        let leading := if (ms_leading s =? SIZE_MAX) && negb (c =? 48) then ms_digits s else ms_leading s in
        mantissa_loop rest (mk_mantissa (ms_at s + 1) (ms_digits s + 1)
          (if negb (ms_point s) then ms_integer s + 1 else ms_integer s) leading (ms_point s))
  end.

Fixpoint exponent_loop (rest : bytes) (exponent : Z) : Z :=
  match rest with
  | [] => exponent
  | c :: rest =>
      exponent_loop rest (if size_sub SIZE_MAX (digit_of c) / DECIMAL_BASE <? exponent then SIZE_MAX
        else u64 (exponent * DECIMAL_BASE + digit_of c))
  end.

(** The local variables of the loops that accumulate the digits. *)
Record digit_scan : Type := mk_digits {
  dg_ordinal : Z;
  dg_magnitude : Z;
  dg_overflow : bool;
  dg_round_up : bool;
  dg_rounded : bool
}.

Definition digit_step (cut c : Z) (s : digit_scan) : digit_scan :=
  let digit := digit_of c in
  if dg_ordinal s <? cut then
    if size_sub UINT64_MAX digit / DECIMAL_BASE <? dg_magnitude s
    then mk_digits (dg_ordinal s + 1) (dg_magnitude s) true (dg_round_up s) (dg_rounded s)
    else mk_digits (dg_ordinal s + 1)
      (if negb (dg_overflow s) then u64 (dg_magnitude s * DECIMAL_BASE + digit) else dg_magnitude s)
      (dg_overflow s) (dg_round_up s) (dg_rounded s)
  else mk_digits (dg_ordinal s + 1) (dg_magnitude s) (dg_overflow s)
    (if dg_ordinal s =? cut then ROUND_DIGIT <=? digit else dg_round_up s) (dg_rounded s || negb (digit =? 0)).

Fixpoint digit_loop (rest : bytes) (cut : Z) (s : digit_scan) : digit_scan :=
  match rest with
  | [] => s
  | c :: rest => digit_loop rest cut (if c =? DOT then s else digit_step cut c s)
  end.

(** [for (; ordinal < cut && !overflow; ++ordinal)], at most [cut - ordinal] times. *)
Fixpoint padding_loop (fuel : nat) (magnitude : Z) (overflow : bool) : Z * bool :=
  match fuel with
  | O => (magnitude, overflow)
  | S fuel =>
      if overflow then (magnitude, overflow)
      else if UINT64_MAX / DECIMAL_BASE <? magnitude then padding_loop fuel magnitude true
      else padding_loop fuel (u64 (magnitude * DECIMAL_BASE)) false
  end.

(** The padding and the rounding: the magnitude and whether it overflows. *)
Definition finish_digits (cut : Z) (s : digit_scan) : Z * bool :=
  let '(magnitude, overflow) := padding_loop (Z.to_nat (cut - dg_ordinal s)) (dg_magnitude s) (dg_overflow s) in
  if dg_round_up s && negb overflow
  then if magnitude =? UINT64_MAX then (magnitude, true) else (u64 (magnitude + 1), false)
  else (magnitude, overflow).

(** The digits before the cut, which the exponent moves: the magnitude, whether
    it overflows and whether it was rounded. *)
Definition cut_digits (mantissa_ : bytes) (integer_digits leading exponent_ : Z) (exponent_negative : bool)
    : Z * bool * bool :=
  if exponent_negative && (integer_digits <? exponent_) then (0, false, true)
  else if negb exponent_negative && (size_sub SIZE_MAX integer_digits <? exponent_) then (0, true, false)
  else
    let cut := if exponent_negative then size_sub integer_digits exponent_ else u64 (integer_digits + exponent_) in
    if (leading <? cut) && (U64_DECIMAL_DIGITS <? size_sub cut leading) then (0, true, false)
    else
      let s := digit_loop mantissa_ cut (mk_digits 0 0 false false false) in
      (finish_digits cut s, dg_rounded s).

(** [data] from [first] to before [last]. *)
Definition between (data : bytes) (first last : Z) : bytes :=
  take (Z.to_nat (last - first)) (drop (Z.to_nat first) data).

(** Reading past the text is undefined. *)
Definition assignment_integer_number (data : bytes) : option assignment_number :=
  let '(end_, start, negative, digits) := assignment_decimal_prefix data in
  let parsed magnitude overflow rounded := mk_number magnitude end_ negative digits overflow rounded in
  if negb digits then Some (parsed 0 false false)
  else
    let s := mantissa_loop (between data start end_) (mk_mantissa start 0 0 SIZE_MAX false) in
    let mantissa_end := ms_at s in
    let integer_digits := ms_integer s in
    let leading := ms_leading s in
    if leading =? SIZE_MAX then Some (parsed 0 false false)
    else
      '(exponent, exponent_negative) ← (
        if mantissa_end <? end_ then
          c ← ld data (mantissa_end + 1);
          let at_ := if is_sign c then mantissa_end + 2 else mantissa_end + 1 in
          Some (exponent_loop (between data at_ end_) 0, c =? MINUS)
        else Some (0, false));
      let '(magnitude, overflow, rounded) :=
        cut_digits (between data start mantissa_end) integer_digits leading exponent exponent_negative in
      Some (parsed magnitude overflow rounded).

(** ** Conversions *)

Definition assignment_charge (bytes_ : Z) : B unit :=
  budget ← gets is_some;
  raise_if (negb budget) TURBODB_STATUS_INVALID_ARGUMENT "column assignment requires a budget";;
  raise_if (bytes_ =? UINT64_MAX) TURBODB_STATUS_LIMIT_EXCEEDED "column assignment work overflow";;
  orm_tidesdb_sql_budget_reserve (Some (charge_amount (u64 (bytes_ + 1)))).

(** A value with the adjustment that made it. *)
Definition adjusted : Type := turbodb_value_t * orm_sql_assignment_adjustment.

Definition assignment_failure {S} (permissive : bool) (reason : orm_sql_assignment_adjustment)
    (replacement : turbodb_value_t) : M turbodb_failure S adjusted :=
  if permissive then mret (replacement, reason)
  else match reason with
  | ORM_SQL_ASSIGNMENT_OUT_OF_RANGE => raise TURBODB_STATUS_OUT_OF_RANGE "column assignment value is out of range"
  | ORM_SQL_ASSIGNMENT_NULL_TO_NOT_NULL => raise TURBODB_STATUS_CONSTRAINT "column assignment violates NOT NULL"
  | _ => raise TURBODB_STATUS_TYPE_ERROR "column assignment value is invalid"
  end.

Definition assignment_i64_from_magnitude {S} (parsed : assignment_number) (permissive : bool)
    : M turbodb_failure S adjusted :=
  let negative_limit := u64 (INT64_MAX + 1) in
  let range := an_overflow parsed ||
    (if an_negative parsed then negative_limit <? an_magnitude parsed else INT64_MAX <? an_magnitude parsed) in
  if range then
    assignment_failure permissive ORM_SQL_ASSIGNMENT_OUT_OF_RANGE
      (turbodb_i64 (if an_negative parsed then INT64_MIN else INT64_MAX))
  else z ← access (signed_of (an_negative parsed) (an_magnitude parsed)); mret (turbodb_i64 z, ORM_SQL_ASSIGNMENT_EXACT).

Definition assignment_u64_from_magnitude {S} (parsed : assignment_number) (permissive : bool)
    : M turbodb_failure S adjusted :=
  let range := an_overflow parsed || (an_negative parsed && negb (an_magnitude parsed =? 0)) in
  if range then
    assignment_failure permissive ORM_SQL_ASSIGNMENT_OUT_OF_RANGE
      (turbodb_u64 (if an_negative parsed then 0 else UINT64_MAX))
  else mret (turbodb_u64 (an_magnitude parsed), ORM_SQL_ASSIGNMENT_EXACT).

Definition assignment_integer_text {S} (target : orm_sql_type) (data : bytes) (permissive : bool)
    : M turbodb_failure S adjusted :=
  let int64 := ty_kind target =? KIND_INT64 in
  parsed ← access (assignment_integer_number data);
  if negb (an_digits parsed) then
    assignment_failure permissive ORM_SQL_ASSIGNMENT_INVALID (if int64 then turbodb_i64 0 else turbodb_u64 0)
  else
    let tail := assignment_trim_tail data (an_end parsed) in
    if negb (tail =? len data) && negb permissive then
      assignment_failure false ORM_SQL_ASSIGNMENT_INVALID turbodb_null
    else
      '(out, adjustment) ← (if int64 then assignment_i64_from_magnitude parsed permissive
                            else assignment_u64_from_magnitude parsed permissive);
      mret (out, match adjustment with
        | ORM_SQL_ASSIGNMENT_EXACT =>
            if negb (tail =? len data) then ORM_SQL_ASSIGNMENT_TRUNCATED
            else if an_rounded parsed then ORM_SQL_ASSIGNMENT_ROUNDED else ORM_SQL_ASSIGNMENT_EXACT
        | a => a
        end).

Definition zero_of (target : orm_sql_type) : turbodb_value_t :=
  if ty_kind target =? KIND_INT64 then turbodb_i64 0
  else if ty_kind target =? KIND_UINT64 then turbodb_u64 0 else turbodb_f64 0.

Definition assignment_from_double {S} (target : orm_sql_type) (input : Z) (permissive : bool)
    : M turbodb_failure S adjusted :=
  if negb (isfinite input) then assignment_failure permissive ORM_SQL_ASSIGNMENT_INVALID (zero_of target)
  else if ty_kind target =? KIND_DOUBLE then mret (turbodb_f64 input, ORM_SQL_ASSIGNMENT_EXACT)
  else
    let rounded := double_nearest input in
    let adjustment := if negb (double_eq rounded input) then ORM_SQL_ASSIGNMENT_ROUNDED else ORM_SQL_ASSIGNMENT_EXACT in
    if ty_kind target =? KIND_INT64 then
      if double_lt rounded (double_of_integer (- 2 ^ 63)) || double_le (double_of_integer (2 ^ 63)) rounded then
        assignment_failure permissive ORM_SQL_ASSIGNMENT_OUT_OF_RANGE
          (turbodb_i64 (if double_lt rounded 0 then INT64_MIN else INT64_MAX))
      else z ← access (i64 (integer_of_double rounded)); mret (turbodb_i64 z, adjustment)
    else
      if double_lt rounded 0 || double_le (double_of_integer (2 ^ 64)) rounded then
        assignment_failure permissive ORM_SQL_ASSIGNMENT_OUT_OF_RANGE
          (turbodb_u64 (if double_lt rounded 0 then 0 else UINT64_MAX))
      else mret (turbodb_u64 (u64 (integer_of_double rounded)), adjustment).

(** [m], with its failures handled by [h]. *)
Definition recover {E S A} (m : M E S A) (h : E -> M E S A) : M E S A := fun s =>
  match m s with (Err e, s') => h e s' | r => r end.

Section Convert.
Context (long_double : Type) (ld_of_u64 : Z -> long_double) (ld_mul : long_double -> long_double -> long_double)
  (powl_ten : Z -> long_double) (double_of_ld : long_double -> Z) (LDBL_MAX_10_EXP LDBL_MIN_10_EXP : Z).

Definition assignment_double_text {S} (data : bytes) (permissive : bool) : M turbodb_failure S adjusted :=
  let '(end_, start, negative, digits) := assignment_decimal_prefix data in
  if negb digits then assignment_failure permissive ORM_SQL_ASSIGNMENT_INVALID (turbodb_f64 0)
  else
    let tail := assignment_trim_tail data end_ in
    if negb (tail =? len data) && negb permissive then
      assignment_failure false ORM_SQL_ASSIGNMENT_INVALID turbodb_null
    else
      recover (
        value ← decimal_literal long_double ld_of_u64 ld_mul powl_ten double_of_ld LDBL_MAX_10_EXP LDBL_MIN_10_EXP
          (mk_vstr (Some (drop (Z.to_nat start) data)) (end_ - start)) negative true;
        mret (value, if negb (tail =? len data) then ORM_SQL_ASSIGNMENT_TRUNCATED else ORM_SQL_ASSIGNMENT_EXACT))
      (fun cause =>
        let limit := bool_decide (f_status cause = TURBODB_STATUS_LIMIT_EXCEEDED) in
        if negb limit || negb permissive
        then raise (if limit then TURBODB_STATUS_OUT_OF_RANGE else f_status cause) (f_reason cause)
        else mret (turbodb_f64 (if negative then double_neg DBL_MAX else DBL_MAX), ORM_SQL_ASSIGNMENT_OUT_OF_RANGE)).

(** The conversion of the value, once the work is charged. *)
Definition assignment_value {S} (target : orm_sql_type) (input : turbodb_value_t) (permissive : bool)
    : M turbodb_failure S adjusted :=
  let exact v := mret (v, ORM_SQL_ASSIGNMENT_EXACT) in
  let kind := ty_kind target in
  let text data := if kind =? KIND_DOUBLE then assignment_double_text data permissive
    else assignment_integer_text target data permissive in
  match tv_data input with
  | TURBODB_VALUE_NULL =>
      if ty_nullable target then exact turbodb_null
      else assignment_failure permissive ORM_SQL_ASSIGNMENT_NULL_TO_NOT_NULL (zero_of target)
  | TURBODB_VALUE_TEXT _ | TURBODB_VALUE_BLOB _ =>
      let view := bytes_of input in
      raise_if (negb (blob_size view =? 0) && negb (is_some (blob_data view))) TURBODB_STATUS_INVALID_ARGUMENT
        "column assignment byte input is missing";;
      data ← access (blob_bytes view);
      text data
  | TURBODB_VALUE_DOUBLE d => assignment_from_double target d permissive
  | TURBODB_VALUE_BOOLEAN b =>
      let value := bool_Z (negb (b =? 0)) in
      exact (if kind =? KIND_INT64 then turbodb_i64 value
             else if kind =? KIND_UINT64 then turbodb_u64 value else turbodb_f64 (double_of_integer value))
  | TURBODB_VALUE_INT64 value =>
      if kind =? KIND_INT64 then exact input
      else if kind =? KIND_DOUBLE then exact (turbodb_f64 (double_of_integer value))
      else if value <? 0 then assignment_failure permissive ORM_SQL_ASSIGNMENT_OUT_OF_RANGE (turbodb_u64 0)
      else exact (turbodb_u64 value)
  | TURBODB_VALUE_UINT64 value =>
      if kind =? KIND_UINT64 then exact input
      else if kind =? KIND_DOUBLE then exact (turbodb_f64 (double_of_integer value))
      else if INT64_MAX <? value then assignment_failure permissive ORM_SQL_ASSIGNMENT_OUT_OF_RANGE (turbodb_i64 INT64_MAX)
      else exact (turbodb_i64 value)
  | TURBODB_VALUE_unknown _ => assignment_failure permissive ORM_SQL_ASSIGNMENT_INVALID (zero_of target)
  end.

Definition orm_tidesdb_sql_assignment_convert (target : orm_sql_type) (input : ptr turbodb_value_t) (permissive : bool)
    (wants wants_adjustment : bool) : B adjusted :=
  match input with
  | None => raise TURBODB_STATUS_INVALID_ARGUMENT "invalid column assignment conversion"
  | Some v =>
      raise_if (negb wants || negb wants_adjustment || negb (assignment_numeric (ty_kind target)))
        TURBODB_STATUS_INVALID_ARGUMENT "invalid column assignment conversion";;
      assignment_charge (blob_size (bytes_of v));;
      assignment_value target v permissive
  end.
End Convert.

(** ** Texts that start with a number *)

Definition head_is (p : Z -> bool) (l : bytes) : bool := match l with c :: _ => p c | [] => false end.

(** What would continue a number as an exponent: the letter, a sign, a digit. *)
Definition exponent_starts (l : bytes) : bool :=
  match l with
  | c :: rest => is_exponent c && head_is is_digit (if head_is is_sign rest then drop 1 rest else rest)
  | [] => false
  end.

Record number_text : Type := mk_text {
  nt_space : bytes;
  nt_sign : option Z;
  nt_decimal : decimal;
  nt_tail : bytes
}.

Definition sign_bytes (t : number_text) : bytes := match nt_sign t with Some s => [s] | None => [] end.
Definition text_bytes (t : number_text) : bytes :=
  nt_space t ++ sign_bytes t ++ decimal_bytes (nt_decimal t) ++ nt_tail t.

(** The decimal is the longest one: the tail does not continue it. *)
Definition longest (d : decimal) (tail : bytes) : bool :=
  negb (head_is is_digit tail) &&
  match d_exp d with
  | Some _ => true
  | None => negb (exponent_starts tail) && match d_frac d with Some _ => true | None => negb (head_is (fun c => c =? DOT) tail) end
  end.

Definition number_text_ok (t : number_text) : Prop :=
  Forall (fun c => assignment_space c = true) (nt_space t) /\ maybe is_sign (nt_sign t) true = true /\
  decimal_ok (nt_decimal t) /\ longest (nt_decimal t) (nt_tail t) = true.

Definition text_negative (t : number_text) : bool := maybe (fun s => s =? MINUS) (nt_sign t) false.

(** ** Scanning such a text *)

Lemma skip_at p data a l r :
  data = a ++ l ++ r -> Forall (fun c => p c = true) l -> head_is p r = false -> skip p data (len a) = len (a ++ l).
Proof.
  intros -> Hl Hr. unfold skip. rewrite Nat2Z.id, drop_app_length, length_app, Nat2Z.inj_add.
  generalize (len a). clear a. induction l as [|c l IH]; intros n; cbn [app skip_rest length].
  - rewrite Z.add_0_r. destruct r as [|c r]; [done|]. cbn in *. by rewrite Hr.
  - apply Forall_cons in Hl as [Hc Hl]. rewrite Hc, IH, Nat2Z.inj_succ by done. lia.
Qed.

Lemma next_is_at p data a r : data = a ++ r -> next_is p data (len a) = head_is p r.
Proof.
  intros ->. unfold next_is. rewrite Nat2Z.id, lookup_app_r, Nat.sub_diag by done. by destruct r.
Qed.

Lemma between_at data a l r : data = a ++ l ++ r -> between data (len a) (len (a ++ l)) = l.
Proof.
  intros ->. unfold between. rewrite length_app, Nat2Z.inj_add, Nat2Z.id, drop_app_length.
  replace (len a + len l - len a) with (len l) by lia. by rewrite Nat2Z.id, take_app_length.
Qed.

Lemma len_snoc (a : bytes) c : len (a ++ [c]) = len a + 1.
Proof. rewrite length_app, Nat2Z.inj_add. done. Qed.

Lemma digit_not_others c :
  is_digit c = true -> is_sign c = false /\ (c =? DOT) = false /\ is_exponent c = false /\ assignment_space c = false.
Proof.
  unfold is_digit, is_sign, is_exponent, assignment_space, PLUS, MINUS, DOT. intros. bsimp.
  split_and!; rewrite ?orb_false_iff; split_and?; apply Z.eqb_neq; lia.
Qed.

(** The fraction and the exponent a decimal continues with. *)
Definition frac_bytes (d : decimal) : bytes := match d_frac d with Some f => DOT :: f | None => [] end.

Lemma decimal_head d rest :
  decimal_ok d -> head_is is_sign (decimal_bytes d ++ rest) = false /\ head_is assignment_space (decimal_bytes d ++ rest) = false.
Proof.
  intros (Hdig & Hne & _). unfold decimal_bytes, mantissa_bytes, mantissa_digits, frac_digits in *.
  destruct (d_int d) as [|c l].
  - destruct (d_frac d) as [f|]; [|done]. done.
  - cbn. apply Forall_inv, digit_not_others in Hdig. tauto.
Qed.

Lemma exponent_head d rest c :
  decimal_ok d -> exponent_bytes d = c :: rest -> is_digit c = false /\ (c =? DOT) = false /\ is_exponent c = true.
Proof.
  intros (_ & _ & Hexp). unfold exponent_bytes. destruct (d_exp d) as [[[x sg] ds]|]; [|done].
  destruct Hexp as (Hx & _). intros [= <- _]. unfold is_exponent, is_digit, DOT in *.
  apply orb_true_iff in Hx as [->%Z.eqb_eq| ->%Z.eqb_eq]; done.
Qed.

(** The scan of the exponent after the letter [c]. *)
Lemma exponent_scan data a c sg r rest :
  data = a ++ c :: sg ++ r ++ rest -> (length sg <= 1)%nat -> forallb is_sign sg = true ->
  (sg = [] -> head_is is_sign (r ++ rest) = false) -> digits r -> head_is is_digit rest = false ->
  (let first := if next_is is_sign data (len a + 1) then len a + 2 else len a + 1 in
   let last := skip is_digit data first in
   if negb (last =? first) then last else len a) = if bool_decide (r = []) then len a else len (a ++ c :: sg ++ r).
Proof.
  intros E Hsg1 Hsg Hnosign Hr Hrest. cbv zeta.
  rewrite <- (len_snoc a c), (next_is_at _ data (a ++ [c]) (sg ++ r ++ rest)) by (by rewrite <- app_assoc).
  assert ((if head_is is_sign (sg ++ r ++ rest) then len a + 2 else len (a ++ [c])) = len (a ++ c :: sg)) as ->.
  { destruct sg as [|x [|]]; cbn in Hsg1; [|cbn in Hsg; rewrite andb_true_r in Hsg; cbn; rewrite Hsg|lia].
    - cbn [app]. by rewrite Hnosign.
    - rewrite length_app, Nat2Z.inj_add. cbn. lia. }
  rewrite (skip_at is_digit data (a ++ c :: sg) r rest); [|by rewrite <- app_assoc|done..].
  rewrite <- app_assoc. cbn [app]. destruct (bool_decide_reflect (r = [])) as [->|Hne].
  - rewrite app_nil_r, Z.eqb_refl. done.
  - rewrite (proj2 (Z.eqb_neq _ _)); [done|]. rewrite !length_app. cbn [length]. rewrite !length_app.
    destruct r; [done|cbn [length]; lia].
Qed.

(** The end of the number, from the end of its mantissa. *)
Lemma exponent_end data a d tail :
  data = a ++ exponent_bytes d ++ tail -> decimal_ok d -> longest d tail = true ->
  (if next_is is_exponent data (len a) then
     let first := if next_is is_sign data (len a + 1) then len a + 2 else len a + 1 in
     let last := skip is_digit data first in
     if negb (last =? first) then last else len a
   else len a) = len (a ++ exponent_bytes d).
Proof.
  intros Hdata Hd Hlong. rewrite (next_is_at _ data a (exponent_bytes d ++ tail)) by done. unfold longest in Hlong.
  apply andb_true_iff in Hlong as [Hdig%negb_true_iff Hlong]. destruct Hd as (_ & _ & Hexp). unfold exponent_bytes in *.
  destruct (d_exp d) as [[[c sg] ds]|].
  - destruct Hexp as (Hc & Hsg & Hds & Hne). cbn [app head_is]. rewrite Hc.
    etrans; [apply (exponent_scan _ _ c (match sg with Some s => [s] | None => [] end) ds tail)|].
    + rewrite Hdata. cbn [app]. by rewrite <- app_assoc.
    + by destruct sg; cbn; lia.
    + destruct sg; cbn in *; [by rewrite Hsg|done].
    + intros _. destruct ds as [|x ds]; [done|]. cbn. apply Forall_inv, digit_not_others in Hds. tauto.
    + done.
    + done.
    + by rewrite bool_decide_eq_false_2.
  - cbn [app] in *. rewrite app_nil_r. destruct tail as [|c rest]; [done|]. cbn [head_is].
    destruct (is_exponent c) eqn:Hc; [|done]. apply andb_true_iff in Hlong as [Hns%negb_true_iff _].
    cbn in Hns. rewrite Hc in Hns. cbn [andb] in Hns.
    etrans; [apply (exponent_scan _ _ c (if head_is is_sign rest then take 1 rest else []) []
      (if head_is is_sign rest then drop 1 rest else rest))|].
    + rewrite Hdata. cbn [app]. destruct (head_is is_sign rest); [by rewrite take_drop|done].
    + destruct (head_is is_sign rest); [rewrite length_take; lia|cbn; lia].
    + destruct rest as [|x rest]; [done|]. cbn. destruct (is_sign x) eqn:Hx; [|done]. cbn. by rewrite Hx.
    + destruct rest as [|x rest]; [done|]. cbn. by destruct (is_sign x) eqn:Hx.
    + constructor.
    + by destruct (head_is is_sign rest).
    + done.
Qed.

(** What comes after the integral digits is neither a digit nor, without a
    fraction, a point. *)
Lemma after_whole d tail :
  decimal_ok d -> longest d tail = true ->
  head_is is_digit (frac_bytes d ++ exponent_bytes d ++ tail) = false /\
  head_is (fun c => c =? DOT) (frac_bytes d ++ exponent_bytes d ++ tail) = is_some (d_frac d) /\
  head_is is_digit (exponent_bytes d ++ tail) = false.
Proof.
  intros Hd Hlong. unfold longest in Hlong. apply andb_true_iff in Hlong as [Hdig%negb_true_iff Hlong].
  assert (head_is is_digit (exponent_bytes d ++ tail) = false /\
    (d_frac d = None -> head_is (fun c => c =? DOT) (exponent_bytes d ++ tail) = false)) as [H1 H2].
  { destruct (exponent_bytes d) as [|c rest] eqn:E.
    - cbn [app]. split; [done|]. intros Hf. unfold exponent_bytes in E. destruct (d_exp d) as [[[? ?] ?]|]; [done|].
      apply andb_true_iff in Hlong as [_ Hlong]. rewrite Hf in Hlong. by apply negb_true_iff in Hlong.
    - destruct (exponent_head d rest c Hd E) as (Hc & Hdot & _). cbn. auto. }
  unfold frac_bytes. destruct (d_frac d); cbn [app]; [done|]. auto.
Qed.

Lemma decimal_prefix_exact t :
  number_text_ok t ->
  let start := len (nt_space t ++ sign_bytes t) in
  assignment_decimal_prefix (text_bytes t) =
    (start + len (decimal_bytes (nt_decimal t)), start, text_negative t, true).
Proof.
  intros (Hsp & Hsg & Hd & Hlong) start. set (d := nt_decimal t) in *.
  destruct (after_whole d (nt_tail t) Hd Hlong) as (Hw & Hpt & Hft).
  assert (text_bytes t = nt_space t ++ sign_bytes t ++ d_int d ++ frac_bytes d ++ exponent_bytes d ++ nt_tail t) as Hdata.
  { unfold text_bytes, decimal_bytes, mantissa_bytes, frac_bytes. fold d. by rewrite <- !app_assoc. }
  destruct (decimal_head d (nt_tail t) Hd) as [Hnosign Hnospace].
  unfold assignment_decimal_prefix.
  assert (skip assignment_space (text_bytes t) 0 = len (nt_space t)) as ->.
  { apply (skip_at _ _ [] (nt_space t) (sign_bytes t ++ decimal_bytes d ++ nt_tail t)); [done|done|].
    unfold sign_bytes. destruct (nt_sign t) as [s|]; [|done]. cbn in *. unfold is_sign, assignment_space, PLUS, MINUS in *.
    apply orb_true_iff in Hsg as [->%Z.eqb_eq| ->%Z.eqb_eq]; done. }
  assert (forall p, next_is p (text_bytes t) (len (nt_space t)) =
    maybe p (nt_sign t) (head_is p (decimal_bytes d ++ nt_tail t))) as Hnext.
  { intros p. rewrite (next_is_at p _ (nt_space t) (sign_bytes t ++ decimal_bytes d ++ nt_tail t)) by done.
    unfold sign_bytes. by destruct (nt_sign t). }
  rewrite !Hnext. clear Hnext.
  assert (maybe is_sign (nt_sign t) (head_is is_sign (decimal_bytes d ++ nt_tail t)) = is_some (nt_sign t)) as ->
    by (by destruct (nt_sign t)).
  assert (is_some (nt_sign t) && maybe (fun c => c =? MINUS) (nt_sign t)
    (head_is (fun c => c =? MINUS) (decimal_bytes d ++ nt_tail t)) = text_negative t) as ->
    by (unfold text_negative; by destruct (nt_sign t)).
  assert ((if is_some (nt_sign t) then len (nt_space t) + 1 else len (nt_space t)) = start) as ->.
  { subst start. unfold sign_bytes. destruct (nt_sign t); cbn [is_some]; [by rewrite len_snoc|by rewrite app_nil_r]. }
  set (a := nt_space t ++ sign_bytes t) in *.
  assert (text_bytes t = a ++ d_int d ++ frac_bytes d ++ exponent_bytes d ++ nt_tail t) as Ha by (subst a; by rewrite <- app_assoc).
  assert (skip is_digit (text_bytes t) start = len (a ++ d_int d)) as ->.
  { apply (skip_at _ _ a (d_int d) (frac_bytes d ++ exponent_bytes d ++ nt_tail t)); [done| |done].
    destruct Hd as [Hdig _]. by apply Forall_app in Hdig as [? _]. }
  rewrite (next_is_at _ _ (a ++ d_int d) (frac_bytes d ++ exponent_bytes d ++ nt_tail t)), Hpt by (by rewrite <- app_assoc).
  assert ((if is_some (d_frac d) then skip is_digit (text_bytes t) (len (a ++ d_int d) + 1) else len (a ++ d_int d)) =
    len ((a ++ d_int d) ++ frac_bytes d)) as ->.
  { unfold frac_bytes in *. destruct (d_frac d) as [f|] eqn:Hfr; cbn [is_some]; [|by rewrite app_nil_r].
    rewrite <- (len_snoc (a ++ d_int d) DOT).
    rewrite (skip_at _ _ _ f (exponent_bytes d ++ nt_tail t)); [by rewrite <- (app_assoc _ [DOT] f)| | |done].
    - rewrite Ha. by rewrite <- !app_assoc.
    - destruct Hd as [Hdig _]. unfold mantissa_digits, frac_digits in Hdig. rewrite Hfr in Hdig. by apply Forall_app in Hdig as [_ ?]. }
  assert ((start <? len (a ++ d_int d)) || (is_some (d_frac d) && (len (a ++ d_int d) + 1 <? len ((a ++ d_int d) ++ frac_bytes d))) = true) as ->.
  { apply orb_true_iff. rewrite andb_true_iff, !Z.ltb_lt. subst start. rewrite !length_app, !Nat2Z.inj_add.
    destruct Hd as (_ & Hne & _). unfold mantissa_digits, frac_digits, frac_bytes in *.
    destruct (d_int d) as [|x l]; [right|left; cbn [length]; lia]. destruct (d_frac d) as [[|y f]|]; try done. cbn [length]. split; [done|lia]. }
  cbn [andb]. rewrite (exponent_end _ ((a ++ d_int d) ++ frac_bytes d) d (nt_tail t)); [|by rewrite Ha, <- !app_assoc|done..].
  do 3 f_equal. subst start. unfold decimal_bytes, mantissa_bytes, frac_bytes. rewrite !length_app, !Nat2Z.inj_add. lia.
Qed.

(** ** The loops *)

(** The index of the first digit that is not zero, SIZE_MAX without one. *)
Fixpoint leading_from (l : bytes) (i : Z) : Z :=
  match l with [] => SIZE_MAX | c :: l => if c =? 48 then leading_from l (i + 1) else i end.

Definition mantissa_step (s : mantissa_scan) (c : Z) : mantissa_scan :=
  mk_mantissa (ms_at s + 1) (ms_digits s + 1) (if negb (ms_point s) then ms_integer s + 1 else ms_integer s)
    (if (ms_leading s =? SIZE_MAX) && negb (c =? 48) then ms_digits s else ms_leading s) (ms_point s).

Lemma mantissa_loop_digits l rest s :
  digits l -> mantissa_loop (l ++ rest) s = mantissa_loop rest (fold_left mantissa_step l s).
Proof.
  revert s. induction l as [|c l IH]; intros s Hl; [done|]. apply Forall_cons in Hl as [Hc Hl].
  destruct (digit_not_others c Hc) as (_ & Hdot & He & _). cbn [app mantissa_loop fold_left]. rewrite He, Hdot. by apply IH.
Qed.

Lemma mantissa_fold l s :
  0 <= ms_digits s -> ms_digits s + len l < SIZE_MAX ->
  fold_left mantissa_step l s =
    mk_mantissa (ms_at s + len l) (ms_digits s + len l) (if negb (ms_point s) then ms_integer s + len l else ms_integer s)
      (if ms_leading s =? SIZE_MAX then leading_from l (ms_digits s) else ms_leading s) (ms_point s).
Proof.
  revert s. induction l as [|c l IH]; intros s H0 Hn; cbn [fold_left length leading_from] in *.
  { rewrite !Z.add_0_r. destruct s as [a b i ld p]. cbn. destruct p, (Z.eqb_spec ld SIZE_MAX) as [->|]; done. }
  rewrite Nat2Z.inj_succ in *. rewrite IH by (cbn [mantissa_step ms_digits]; lia).
  cbn [mantissa_step ms_at ms_digits ms_integer ms_leading ms_point]. f_equal; try lia.
  - destruct (ms_point s); cbn [negb]; lia.
  - destruct (Z.eqb_spec (ms_leading s) SIZE_MAX) as [E|E]; cbn [andb].
    + destruct (c =? 48) eqn:Hc; cbn [negb]; [by rewrite E, Z.eqb_refl|].
      rewrite (proj2 (Z.eqb_neq (ms_digits s) SIZE_MAX)) by lia. done.
    + by rewrite (proj2 (Z.eqb_neq _ _) E).
Qed.


Lemma leading_from_spec l i :
  digits l -> 0 <= i -> i + len l < SIZE_MAX ->
  leading_from l i = SIZE_MAX /\ digits_value l = 0 \/
  i <= leading_from l i < i + len l /\ 10 ^ (len l - 1 - (leading_from l i - i)) <= digits_value l.
Proof.
  revert i. induction l as [|c l IH]; intros i Hl Hi Hn; [by left|]. apply Forall_cons in Hl as [Hc Hl].
  pose proof (digit_range c Hc) as Hr. cbn [length] in *. rewrite Nat2Z.inj_succ in *. cbn [leading_from].
  unfold digits_value. cbn [digits_from fold_left]. fold (digits_from (0 * 10 + digit_of c) l). rewrite digits_from_scale.
  pose proof (digits_value_range l Hl). pose proof (Z.pow_pos_nonneg 10 (len l)).
  destruct (Z.eqb_spec c 48) as [->|Hne].
  - replace (digit_of 48) with 0 by done.
    destruct (IH (i + 1) Hl ltac:(lia) ltac:(lia)) as [[-> E]|[Hb Hlow]]; [left; split; [done|lia]|right].
    split; [lia|]. replace (Z.succ (len l) - 1 - (leading_from l (i + 1) - i)) with (len l - 1 - (leading_from l (i + 1) - (i + 1))) by lia. lia.
  - right. split; [lia|]. replace (Z.succ (len l) - 1 - (i - i)) with (len l) by lia.
    assert (1 <= digit_of c) by (unfold digit_of in *; lia). nia.
Qed.

Lemma exponent_loop_min ds e :
  digits ds -> 0 <= e <= SIZE_MAX -> exponent_loop ds e = Z.min SIZE_MAX (digits_from e ds).
Proof.
  revert e. induction ds as [|c ds IH]; intros e Hds He; cbn [exponent_loop digits_from fold_left]; [by rewrite Z.min_r by lia|].
  apply Forall_cons in Hds as [Hc Hds]. pose proof (digit_range c Hc) as Hr. fold (digits_from (e * 10 + digit_of c) ds).
  unfold SIZE_MAX in *. rewrite next_exceeds by lia. pose proof (digits_from_le (e * 10 + digit_of c) ds ltac:(lia) Hds).
  pose proof (digits_from_le (2 ^ 64 - 1) ds ltac:(lia) Hds).
  destruct (Z.ltb_spec (2 ^ 64 - 1) (e * 10 + digit_of c)).
  - rewrite IH by (done || lia). rewrite !Z.min_l; lia.
  - unfold DECIMAL_BASE. rewrite u64_small by lia. by rewrite IH by (done || lia).
Qed.

Definition digit_fold (cut : Z) (l : bytes) (s : digit_scan) : digit_scan := fold_left (fun s c => digit_step cut c s) l s.

Lemma digit_loop_digits l rest cut s :
  digits l -> digit_loop (l ++ rest) cut s = digit_loop rest cut (digit_fold cut l s).
Proof.
  revert s. induction l as [|c l IH]; intros s Hl; [done|]. apply Forall_cons in Hl as [Hc Hl].
  destruct (digit_not_others c Hc) as (_ & Hdot & _). cbn [app digit_loop digit_fold fold_left]. rewrite Hdot. by apply IH.
Qed.

Lemma digit_loop_mantissa d cut s :
  digits (mantissa_digits d) -> digit_loop (mantissa_bytes d) cut s = digit_fold cut (mantissa_digits d) s.
Proof.
  unfold mantissa_digits, mantissa_bytes, frac_digits. intros [Hi Hf]%Forall_app. rewrite digit_loop_digits by done.
  unfold digit_fold at 2. rewrite fold_left_app. fold (digit_fold cut (d_int d) s).
  destruct (d_frac d) as [f|]; [|done]. cbn [digit_loop default from_option id] in *.
  rewrite Z.eqb_refl. rewrite <- (app_nil_r f) at 1. by rewrite digit_loop_digits.
Qed.

Lemma digits_value_snoc l c : digits_value (l ++ [c]) = digits_value l * 10 + digit_of c.
Proof. unfold digits_value. by rewrite digits_from_app. Qed.

Lemma digit_fold_spec cut l :
  digits l -> 0 <= cut ->
  let s := digit_fold cut l (mk_digits 0 0 false false false) in
  let p := digits_value (take (Z.to_nat cut) l) in
  dg_ordinal s = len l /\ 0 <= dg_magnitude s < 2 ^ 64 /\
  (if p <? 2 ^ 64 then dg_overflow s = false /\ dg_magnitude s = p else dg_overflow s = true) /\
  dg_round_up s = maybe (fun c => ROUND_DIGIT <=? digit_of c) (l !! Z.to_nat cut) false /\
  dg_rounded s = negb (digits_value (drop (Z.to_nat cut) l) =? 0).
Proof.
  intros Hl Hcut. cbv zeta. induction l as [|c l IH] using rev_ind; [rewrite take_nil, drop_nil; done|].
  apply Forall_app in Hl as [Hl Hc]. apply Forall_inv in Hc. pose proof (digit_range c Hc) as Hr.
  destruct (IH Hl) as (Ho & Hm & Hp & Hu & Hd). clear IH. unfold digit_fold in *. rewrite fold_left_app. cbn [fold_left].
  set (s := fold_left _ l _) in *. rewrite len_snoc. unfold digit_step. rewrite Ho.
  destruct (Z.ltb_spec (len l) cut) as [Hlt|Hge].
  - rewrite !(take_ge l), !(drop_ge l), (lookup_ge_None_2 l) in * by lia. rewrite (take_ge (l ++ [c])), (drop_ge (l ++ [c])),
      (lookup_ge_None_2 (l ++ [c])) by (rewrite length_app; cbn; lia).
    rewrite digits_value_snoc. unfold UINT64_MAX in *. rewrite next_exceeds by lia.
    pose proof (digits_value_range l Hl).
    destruct (Z.ltb_spec (digits_value l) (2 ^ 64)) as [Hsm|Hbig].
    + destruct Hp as [Hov Hmag]. rewrite Hmag in *.
      destruct (Z.ltb_spec (2 ^ 64 - 1) (digits_value l * 10 + digit_of c)) as [Hx|Hx]; cbn [dg_ordinal dg_magnitude dg_overflow dg_round_up dg_rounded].
      * rewrite (proj2 (Z.ltb_ge _ (2 ^ 64))) by lia. done.
      * rewrite (proj2 (Z.ltb_lt _ (2 ^ 64))) by lia. rewrite Hov. cbn [negb]. unfold DECIMAL_BASE. rewrite u64_small by lia.
        split_and!; try done; lia.
    + rewrite (proj2 (Z.ltb_ge _ (2 ^ 64))) by lia. rewrite Hp.
      destruct (2 ^ 64 - 1 <? _); cbn [dg_ordinal dg_magnitude dg_overflow dg_round_up dg_rounded negb]; done.
  - cbn [dg_ordinal dg_magnitude dg_overflow dg_round_up dg_rounded].
    rewrite take_app_le, drop_app_le, digits_value_snoc by lia. split; [done|]. split; [done|]. split; [done|]. split.
    + destruct (Z.eqb_spec (len l) cut) as [<-|Hne].
      * by rewrite Nat2Z.id, lookup_app_r, Nat.sub_diag by done.
      * rewrite lookup_app_l by lia. done.
    + rewrite Hd. pose proof (digits_value_range (drop (Z.to_nat cut) l) ltac:(by apply Forall_drop)).
      destruct (Z.eqb_spec (digits_value (drop (Z.to_nat cut) l)) 0), (Z.eqb_spec (digit_of c) 0),
        (Z.eqb_spec (digits_value (drop (Z.to_nat cut) l) * 10 + digit_of c) 0); cbn; done || lia.
Qed.

Lemma padding_loop_spec n m :
  0 <= m < 2 ^ 64 -> let v := m * 10 ^ Z.of_nat n in
  exists m', padding_loop n m false = (m', 2 ^ 64 <=? v) /\ (v < 2 ^ 64 -> m' = v).
Proof.
  revert m. induction n as [|n IH]; intros m Hm; cbv zeta; cbn [padding_loop].
  { rewrite Z.pow_0_r, Z.mul_1_r, (proj2 (Z.leb_gt _ _)) by lia. by exists m. }
  rewrite Nat2Z.inj_succ, Z.pow_succ_r by lia. pose proof (Z.pow_pos_nonneg 10 (Z.of_nat n)).
  unfold UINT64_MAX, DECIMAL_BASE. destruct (Z.ltb_spec ((2 ^ 64 - 1) / 10) m) as [Hx|Hx].
  - pose proof (Z.div_mod (2 ^ 64 - 1) 10). pose proof (Z.mod_pos_bound (2 ^ 64 - 1) 10).
    rewrite (proj2 (Z.leb_le _ _)) by nia. exists m. split; [by destruct n|nia].
  - pose proof (Z.div_mod (2 ^ 64 - 1) 10). pose proof (Z.mod_pos_bound (2 ^ 64 - 1) 10).
    rewrite u64_small by lia. replace (m * (10 * 10 ^ Z.of_nat n)) with (m * 10 * 10 ^ Z.of_nat n) by lia. apply IH. lia.
Qed.

(** ** Rounding a decimal *)

(** [n * 10 ^ e] to the nearest integer, half up, for [n >= 0]. *)
Definition half_up (n e : Z) : Z :=
  if 0 <=? e then n * 10 ^ e else (2 * n + 10 ^ (- e)) / (2 * 10 ^ (- e)).

(** Whether [n * 10 ^ e] is an integer. *)
Definition integral_at (n e : Z) : bool := (0 <=? e) || (n mod 10 ^ (- e) =? 0).

Lemma half_up_lower n e v : 0 <= n -> 0 <= v -> e < 0 -> v * 10 ^ (- e) <= n -> v <= half_up n e.
Proof.
  intros Hn Hv He Hle. unfold half_up. rewrite (proj2 (Z.leb_gt 0 e)) by done.
  pose proof (Z.pow_pos_nonneg 10 (- e)). apply Z.div_le_lower_bound; nia.
Qed.

(** A number below one half. *)
Lemma half_up_small n e : 0 < n -> e < 0 -> 2 * n < 10 ^ (- e) -> half_up n e = 0 /\ integral_at n e = false.
Proof.
  intros Hn He Hs. unfold half_up, integral_at. rewrite (proj2 (Z.leb_gt 0 e)) by done. split.
  - apply Z.div_small. lia.
  - cbn [orb]. apply Z.eqb_neq. rewrite Z.mod_small; lia.
Qed.

Lemma half_up_digits l cut :
  digits l -> 0 <= cut < len l ->
  let e := cut - len l in
  half_up (digits_value l) e = digits_value (take (Z.to_nat cut) l) +
    bool_Z (maybe (fun c => ROUND_DIGIT <=? digit_of c) (l !! Z.to_nat cut) false) /\
  integral_at (digits_value l) e = (digits_value (drop (Z.to_nat cut) l) =? 0).
Proof.
  intros Hl Hcut. cbv zeta. unfold half_up, integral_at. rewrite (proj2 (Z.leb_gt 0 _)) by lia.
  set (p := digits_value (take _ l)). set (r := digits_value (drop _ l)).
  assert (digits_value l = p * 10 ^ (- (cut - len l)) + r) as ->.
  { rewrite <- (take_drop (Z.to_nat cut) l) at 1. unfold digits_value. rewrite digits_from_app, digits_from_scale, length_drop.
    replace (Z.of_nat (length l - Z.to_nat cut)) with (- (cut - len l)) by lia. done. }
  pose proof (digits_value_range (drop (Z.to_nat cut) l) ltac:(by apply Forall_drop)) as Hr. fold r in Hr.
  rewrite length_drop in Hr. replace (Z.of_nat (length l - Z.to_nat cut)) with (- (cut - len l)) in Hr by lia.
  pose proof (Z.pow_pos_nonneg 10 (- (cut - len l)) ltac:(lia) ltac:(lia)) as Hpow. cbn [orb]. split.
  - replace (2 * (p * 10 ^ (- (cut - len l)) + r) + 10 ^ (- (cut - len l))) with
      (2 * r + 10 ^ (- (cut - len l)) + p * (2 * 10 ^ (- (cut - len l)))) by lia.
    rewrite Z.div_add by lia. rewrite Z.add_comm. f_equal.
    destruct (lookup_lt_is_Some_2 l (Z.to_nat cut) ltac:(lia)) as [c Hc]. rewrite Hc. cbn [maybe].
    assert (digits (c :: drop (S (Z.to_nat cut)) l)) as Hd by (rewrite <- drop_S by done; by apply Forall_drop).
    apply Forall_cons in Hd as [Hdc Hd]. pose proof (digit_range c Hdc) as Hcr.
    pose proof (digits_value_range _ Hd) as Hr'. subst r. rewrite (drop_S _ _ _ Hc) in *. unfold digits_value in *.
    cbn [digits_from fold_left] in *. fold (digits_from (0 * 10 + digit_of c) (drop (S (Z.to_nat cut)) l)) in *.
    rewrite digits_from_scale in *. rewrite length_drop in *.
    replace (- (cut - len l)) with (Z.succ (Z.of_nat (length l - S (Z.to_nat cut)))) in * by lia.
    rewrite Z.pow_succ_r in * by lia. fold (digits_value (drop (S (Z.to_nat cut)) l)) in *.
    set (u := 10 ^ Z.of_nat (length l - S (Z.to_nat cut))) in *. unfold ROUND_DIGIT.
    destruct (Z.leb_spec 5 (digit_of c)); cbn [bool_Z].
    + symmetry. apply (Z.div_unique _ _ _ (2 * ((0 * 10 + digit_of c) * u + digits_value (drop (S (Z.to_nat cut)) l)) + 10 * u - 20 * u)); nia.
    + apply Z.div_small. nia.
  - rewrite Z.add_comm, Z.mod_add, Z.mod_small by lia. done.
Qed.

Lemma half_up_padded l cut :
  len l <= cut -> half_up (digits_value l) (cut - len l) = digits_value l * 10 ^ (cut - len l) /\
  integral_at (digits_value l) (cut - len l) = true.
Proof. intros H. unfold half_up, integral_at. by rewrite (proj2 (Z.leb_le 0 _)) by lia. Qed.

(** ** The number of a text is exact *)

Lemma leading_from_app a b i :
  0 <= i -> i + len a < SIZE_MAX ->
  leading_from (a ++ b) i = if leading_from a i =? SIZE_MAX then leading_from b (i + len a) else leading_from a i.
Proof.
  revert i. induction a as [|c a IH]; intros i Hi Hn; cbn [app leading_from length] in *; [by rewrite Z.eqb_refl, Z.add_0_r|].
  rewrite Nat2Z.inj_succ in *. destruct (c =? 48).
  - rewrite IH by lia. by replace (i + 1 + len a) with (i + Z.succ (len a)) by lia.
  - by rewrite (proj2 (Z.eqb_neq i SIZE_MAX)) by lia.
Qed.

Lemma mantissa_loop_decimal d start :
  decimal_ok d -> len (decimal_bytes d) < 2 ^ 61 ->
  mantissa_loop (decimal_bytes d) (mk_mantissa start 0 0 SIZE_MAX false) =
    mk_mantissa (start + len (mantissa_bytes d)) (len (mantissa_digits d)) (len (d_int d))
      (leading_from (mantissa_digits d) 0) (is_some (d_frac d)).
Proof.
  intros Hd Hlen. assert (forall s, mantissa_loop (exponent_bytes d) s = s) as Hstop.
  { intros s. destruct (exponent_bytes d) as [|c rest] eqn:E; [done|].
    destruct (exponent_head d rest c Hd E) as (_ & _ & Hc). cbn [mantissa_loop]. by rewrite Hc. }
  destruct Hd as (Hdig & _). unfold decimal_bytes, mantissa_bytes, mantissa_digits, frac_digits in *.
  rewrite !length_app, !Nat2Z.inj_add in *. apply Forall_app in Hdig as [Hi Hf]. rewrite <- app_assoc.
  rewrite mantissa_loop_digits, mantissa_fold by (cbn [ms_digits]; unfold SIZE_MAX; lia || done).
  cbn [ms_at ms_digits ms_integer ms_leading ms_point negb]. rewrite Z.eqb_refl.
  destruct (d_frac d) as [f|]; cbn [default from_option id is_some app] in *.
  - cbn [mantissa_loop]. replace (is_exponent DOT) with false by done. rewrite Z.eqb_refl.
    cbn [ms_at ms_digits ms_integer ms_leading length] in *. rewrite Nat2Z.inj_succ in *.
    rewrite mantissa_loop_digits, mantissa_fold, Hstop by (cbn [ms_digits]; unfold SIZE_MAX; lia || done).
    cbn [ms_at ms_digits ms_integer ms_leading ms_point negb]. rewrite leading_from_app by (unfold SIZE_MAX; lia).
    f_equal; lia.
  - rewrite Hstop, app_nil_r. cbn [length]. f_equal; lia.
Qed.

Definition exp_digits (d : decimal) : Z := match d_exp d with Some (_, _, ds) => digits_value ds | None => 0 end.
Definition exp_negative (d : decimal) : bool :=
  match d_exp d with Some (_, sign, _) => maybe (fun s => s =? MINUS) sign false | None => false end.

Lemma written_exponent_sign d : written_exponent d = if exp_negative d then - exp_digits d else exp_digits d.
Proof. unfold written_exponent, exp_negative, exp_digits. by destruct (d_exp d) as [[[? ?] ?]|]. Qed.

Lemma exponent_value data a d tail :
  data = a ++ exponent_bytes d ++ tail -> decimal_ok d ->
  (if len a <? len (a ++ exponent_bytes d) then
     c ← ld data (len a + 1);
     let at_ := if is_sign c then len a + 2 else len a + 1 in
     Some (exponent_loop (between data at_ (len (a ++ exponent_bytes d))) 0, c =? MINUS)
   else Some (0, false)) = Some (Z.min SIZE_MAX (exp_digits d), exp_negative d).
Proof.
  intros Hdata (_ & _ & Hexp). unfold exponent_bytes, exp_digits, exp_negative in *.
  destruct (d_exp d) as [[[x sg] ds]|]; [|by rewrite app_nil_r, Z.ltb_irrefl].
  destruct Hexp as (_ & Hsg & Hds & Hne). rewrite (proj2 (Z.ltb_lt _ _)) by (rewrite length_app; cbn [length]; lia).
  set (s := match sg with Some s => [s] | None => [] end) in *.
  assert (exists c, ld data (len a + 1) = Some c /\ is_sign c = is_some sg /\ (c =? MINUS) = maybe (fun s => s =? MINUS) sg false)
    as (c & -> & Hc & Hm).
  { unfold ld. rewrite (proj2 (Z.ltb_ge _ 0)) by lia. rewrite <- (len_snoc a x), Nat2Z.id.
    replace data with ((a ++ [x]) ++ (s ++ ds) ++ tail) by (rewrite Hdata; cbn [app]; by rewrite <- app_assoc).
    rewrite lookup_app_r, Nat.sub_diag by done. subst s. destruct sg as [g|]; cbn in *; [by exists g|].
    destruct ds as [|y ds]; [done|]. exists y. apply Forall_inv in Hds. destruct (digit_not_others y Hds) as (Hs & _).
    split_and!; [done|done|]. unfold is_sign in Hs. by apply orb_false_iff in Hs as [_ ?]. }
  cbn [mbind option_bind]. rewrite Hc, Hm. do 2 f_equal.
  assert ((if is_some sg then len a + 2 else len a + 1) = len (a ++ x :: s)) as ->.
  { subst s. rewrite length_app. destruct sg; cbn; lia. }
  replace (a ++ x :: s ++ ds) with ((a ++ x :: s) ++ ds) by (by rewrite <- app_assoc).
  rewrite (between_at data (a ++ x :: s) ds tail) by (rewrite Hdata, <- !app_assoc; cbn [app]; by rewrite <- app_assoc).
  apply exponent_loop_min; [done|]. unfold SIZE_MAX. lia.
Qed.

(** A rounded magnitude, or that there is none in 64 bits. *)
Definition rounds (n e magnitude : Z) (overflow rounded : bool) : Prop :=
  let m := half_up n e in
  if 2 ^ 64 <=? m then overflow = true
  else overflow = false /\ magnitude = m /\ rounded = negb (integral_at n e).

Lemma finish_digits_rounds cut l :
  digits l -> 0 <= cut ->
  let s := digit_fold cut l (mk_digits 0 0 false false false) in
  rounds (digits_value l) (cut - len l) (finish_digits cut s).1 (finish_digits cut s).2 (dg_rounded s).
Proof.
  intros Hl Hcut. cbv zeta. destruct (digit_fold_spec cut l Hl Hcut) as (Ho & Hm & Hp & Hu & Hd).
  set (s := digit_fold cut l _) in *. unfold finish_digits, rounds. rewrite Ho, Hu, Hd.
  pose proof (digits_value_range l Hl) as Hv.
  destruct (Z.le_gt_cases (len l) cut) as [Hge|Hlt].
  - rewrite take_ge in Hp by lia. rewrite lookup_ge_None_2, drop_ge by lia. cbn [maybe].
    destruct (half_up_padded l cut Hge) as [-> ->]. pose proof (Z.pow_pos_nonneg 10 (cut - len l) ltac:(lia) ltac:(lia)).
    destruct (Z.ltb_spec (digits_value l) (2 ^ 64)) as [Hs|Hbig].
    + destruct Hp as [-> ->]. destruct (padding_loop_spec (Z.to_nat (cut - len l)) (digits_value l) ltac:(lia)) as (m' & -> & Hm').
      rewrite Z2Nat.id in * by lia. cbn [andb fst snd negb]. destruct (Z.leb_spec (2 ^ 64) (digits_value l * 10 ^ (cut - len l))); [done|].
      split_and!; [done|auto|done].
    + rewrite Hp. rewrite (proj2 (Z.leb_le _ _)) by nia. by destruct (Z.to_nat (cut - len l)).
  - destruct (half_up_digits l cut Hl ltac:(lia)) as [-> ->]. replace (Z.to_nat (cut - len l)) with O by lia. cbn [padding_loop].
    set (p := digits_value (take (Z.to_nat cut) l)) in *. set (up := maybe _ (l !! Z.to_nat cut) false).
    pose proof (digits_value_range (take (Z.to_nat cut) l) ltac:(by apply Forall_take)) as Hpr. fold p in Hpr.
    unfold UINT64_MAX. destruct (Z.ltb_spec p (2 ^ 64)) as [Hs|Hbig].
    + destruct Hp as [-> ->]. destruct up; cbn [andb negb bool_Z fst snd].
      * destruct (Z.eqb_spec p (2 ^ 64 - 1)) as [E|E]; cbn [fst snd].
        -- by rewrite (proj2 (Z.leb_le _ _)) by lia.
        -- rewrite (proj2 (Z.leb_gt _ _)), u64_small by lia. done.
      * rewrite (proj2 (Z.leb_gt _ _)) by lia. split_and!; [done|lia|done].
    + rewrite Hp. cbn [andb negb]. rewrite andb_false_r. cbn [fst snd].
      rewrite (proj2 (Z.leb_le _ _)) by (destruct up; cbn [bool_Z]; lia). done.
Qed.

(** Twenty-one digits before the cut are too many. *)
Lemma half_up_large l cut i :
  digits l -> 0 <= i < len l -> 10 ^ (len l - 1 - i) <= digits_value l -> 20 < cut - i ->
  2 ^ 64 <= half_up (digits_value l) (cut - len l).
Proof.
  intros Hl Hi Hlow Hbig. assert (2 ^ 64 <= 10 ^ 20) by lia. assert (10 ^ 20 <= 10 ^ (cut - 1 - i)) by (apply Z.pow_le_mono_r; lia).
  destruct (Z.le_gt_cases (len l) cut) as [Hge|Hlt].
  - destruct (half_up_padded l cut Hge) as [-> _].
    replace (10 ^ (cut - 1 - i)) with (10 ^ (len l - 1 - i) * 10 ^ (cut - len l)) in * by (rewrite <- Z.pow_add_r by lia; f_equal; lia).
    pose proof (Z.pow_pos_nonneg 10 (cut - len l)). nia.
  - apply Z.le_trans with (10 ^ (cut - 1 - i)); [lia|]. pose proof (digits_value_range l Hl).
    apply half_up_lower; [lia|lia|lia|]. rewrite <- Z.pow_add_r by lia.
    by replace (cut - 1 - i + - (cut - len l)) with (len l - 1 - i) by lia.
Qed.

(** Nothing is left before the cut. *)
Lemma half_up_fraction l cut :
  digits l -> 0 < digits_value l -> cut < 0 ->
  half_up (digits_value l) (cut - len l) = 0 /\ integral_at (digits_value l) (cut - len l) = false.
Proof.
  intros Hl Hpos Hcut. pose proof (digits_value_range l Hl). apply half_up_small; [done|lia|].
  apply Z.lt_le_trans with (10 * 10 ^ len l); [lia|]. rewrite <- Z.pow_succ_r by lia. apply Z.pow_le_mono_r; lia.
Qed.

Lemma cut_digits_rounds mantissa_ l i x (neg : bool) :
  (forall cut s, digit_loop mantissa_ cut s = digit_fold cut l s) ->
  digits l -> digits_value l <> 0 -> 0 <= i <= len l -> len l < 2 ^ 61 -> 0 <= x ->
  exists magnitude overflow rounded,
    cut_digits mantissa_ i (leading_from l 0) (Z.min SIZE_MAX x) neg = (magnitude, overflow, rounded) /\
    rounds (digits_value l) ((if neg then i - x else i + x) - len l) magnitude overflow rounded.
Proof.
  intros Hloop Hl Hnz Hi Hlen Hx. pose proof (digits_value_range l Hl) as Hv. unfold cut_digits.
  destruct (leading_from_spec l 0 Hl ltac:(lia) ltac:(unfold SIZE_MAX; lia)) as [[_ ?]|[Hld Hlow]]; [done|].
  rewrite Z.sub_0_r in Hlow. set (leading := leading_from l 0) in *.
  assert (forall cut : Z, 2 ^ 64 <= half_up (digits_value l) (cut - len l) ->
    rounds (digits_value l) (cut - len l) 0 true false) as Hover.
  { intros cut Hc. unfold rounds. by rewrite (proj2 (Z.leb_le _ _) Hc). }
  destruct (neg && (i <? Z.min SIZE_MAX x)) eqn:Hneg.
  { exists 0, false, true. split; [done|]. apply andb_true_iff in Hneg as [-> Hlt%Z.ltb_lt].
    destruct (half_up_fraction l (i - x) Hl ltac:(lia) ltac:(unfold SIZE_MAX in *; lia)) as [E1 E2].
    unfold rounds. by rewrite E1, E2. }
  rewrite size_sub_small by (unfold SIZE_MAX; lia).
  destruct (negb neg && (SIZE_MAX - i <? Z.min SIZE_MAX x)) eqn:Hpos.
  { exists 0, true, false. split; [done|]. apply andb_true_iff in Hpos as [->%negb_true_iff Hlt%Z.ltb_lt].
    apply Hover, (half_up_large l _ leading); [done|lia|done|unfold SIZE_MAX in *; lia]. }
  assert ((if neg then size_sub i (Z.min SIZE_MAX x) else u64 (i + Z.min SIZE_MAX x)) =
    if neg then i - x else i + Z.min SIZE_MAX x) as ->.
  { destruct neg; cbn [negb andb] in *; bsimp; [rewrite size_sub_small|rewrite u64_small]; unfold SIZE_MAX in *; lia. }
  set (cut := if neg then i - x else i + Z.min SIZE_MAX x) in *.
  assert (0 <= cut <= SIZE_MAX) as Hcut by (subst cut; destruct neg; cbn [negb andb] in *; bsimp; unfold SIZE_MAX in *; lia).
  destruct ((leading <? cut) && _) eqn:Hlarge.
  { exists 0, true, false. split; [done|]. apply andb_true_iff in Hlarge as [Hlt%Z.ltb_lt Hd%Z.ltb_lt].
    rewrite size_sub_small in Hd by (unfold SIZE_MAX in *; lia). unfold U64_DECIMAL_DIGITS in Hd.
    apply Hover, (half_up_large l _ leading); [done|lia|done|]. subst cut. destruct neg; lia. }
  assert ((if neg then i - x else i + x) = cut) as ->.
  { subst cut. destruct neg; [done|]. cbn [negb andb] in *. unfold U64_DECIMAL_DIGITS in Hlarge.
    destruct (Z.ltb_spec leading (i + Z.min SIZE_MAX x)); [|unfold SIZE_MAX in *; lia].
    rewrite size_sub_small in Hlarge by (unfold SIZE_MAX in *; lia). bsimp. unfold SIZE_MAX in *. lia. }
  pose proof (finish_digits_rounds cut l Hl ltac:(lia)) as Hfin. cbv zeta in *. rewrite Hloop.
  set (s := digit_fold cut l _) in *. destruct (finish_digits cut s) as [m o]. by exists m, o, (dg_rounded s).
Qed.

(** What the conversion of a text to an integer finds in it. *)
Lemma integer_number_exact t :
  number_text_ok t -> len (text_bytes t) < 2 ^ 61 ->
  let d := nt_decimal t in
  exists magnitude overflow rounded,
    assignment_integer_number (text_bytes t) =
      Some (mk_number magnitude (len (text_bytes t) - len (nt_tail t)) (text_negative t) true overflow rounded) /\
    rounds (mantissa d) (exponent d) magnitude overflow rounded.
Proof.
  intros Ht Hlen. cbv zeta. unfold assignment_integer_number. rewrite (decimal_prefix_exact t Ht). cbn [negb].
  destruct Ht as (_ & _ & Hd & _). set (d := nt_decimal t) in *. set (a := nt_space t ++ sign_bytes t) in *.
  assert (text_bytes t = a ++ decimal_bytes d ++ nt_tail t) as Hdata by (subst a d; unfold text_bytes; by rewrite <- app_assoc).
  assert (len (text_bytes t) - len (nt_tail t) = len a + len (decimal_bytes d)) as -> by (rewrite Hdata, !length_app; lia).
  replace (len a + len (decimal_bytes d)) with (len (a ++ decimal_bytes d)) by (rewrite length_app; lia).
  rewrite (between_at _ a (decimal_bytes d) (nt_tail t)) by done.
  assert (len (decimal_bytes d) < 2 ^ 61) as Hdl by (rewrite Hdata, !length_app in Hlen; lia).
  rewrite mantissa_loop_decimal by done. cbn [ms_at ms_integer ms_leading].
  assert (len (mantissa_digits d) < 2 ^ 61) as Hml.
  { unfold decimal_bytes, mantissa_bytes, mantissa_digits, frac_digits in *. rewrite !length_app in *.
    destruct (d_frac d); cbn [length default from_option id] in *; lia. }
  pose proof Hd as (Hdig & _). unfold mantissa.
  destruct (leading_from_spec (mantissa_digits d) 0 Hdig ltac:(lia) ltac:(unfold SIZE_MAX; lia)) as [[-> E]|[Hld Hlow]].
  { rewrite Z.eqb_refl, E. exists 0, false, false. split; [done|]. unfold rounds, half_up, integral_at.
    destruct (Z.leb_spec 0 (exponent d)); [done|]. pose proof (Z.pow_pos_nonneg 10 (- exponent d)).
    rewrite Z.mod_0_l, Z.div_small by lia. done. }
  rewrite (proj2 (Z.eqb_neq _ _)) by (unfold SIZE_MAX in *; lia).
  assert (a ++ decimal_bytes d = (a ++ mantissa_bytes d) ++ exponent_bytes d) as Ea by (unfold decimal_bytes; by rewrite app_assoc).
  replace (len a + len (mantissa_bytes d)) with (len (a ++ mantissa_bytes d)) by (rewrite length_app; lia).
  rewrite Ea, (exponent_value _ (a ++ mantissa_bytes d) d (nt_tail t)); [|by rewrite Hdata, app_assoc, Ea, <- app_assoc|done].
  cbn [mbind option_bind].
  rewrite (between_at _ a (mantissa_bytes d) (exponent_bytes d ++ nt_tail t)) by (rewrite Hdata; unfold decimal_bytes; by rewrite <- app_assoc).
  destruct (cut_digits_rounds (mantissa_bytes d) (mantissa_digits d) (len (d_int d)) (exp_digits d) (exp_negative d))
    as (m & o & r & -> & Hr).
  - intros cut s. by apply digit_loop_mantissa.
  - done.
  - pose proof (Z.pow_pos_nonneg 10 (len (mantissa_digits d) - 1 - (leading_from (mantissa_digits d) 0 - 0))). lia.
  - unfold mantissa_digits. rewrite length_app. lia.
  - done.
  - unfold exp_digits. destruct Hd as (_ & _ & Hexp). destruct (d_exp d) as [[[? ?] ds]|]; [|done].
    destruct Hexp as (_ & _ & Hds & _). by apply digits_value_range.
  - exists m, o, r. split; [done|]. unfold exponent. rewrite written_exponent_sign.
    replace ((if exp_negative d then - exp_digits d else exp_digits d) - len (frac_digits d)) with
      ((if exp_negative d then len (d_int d) - exp_digits d else len (d_int d) + exp_digits d) - len (mantissa_digits d)); [done|].
    unfold mantissa_digits. rewrite length_app. destruct (exp_negative d); lia.
Qed.

(** ** Every text has a number or none *)

Lemma span p (l : bytes) : exists a b, l = a ++ b /\ Forall (fun c => p c = true) a /\ head_is p b = false.
Proof.
  induction l as [|c l (a & b & -> & Ha & Hb)]; [by exists [], []|]. destruct (p c) eqn:Hc.
  - exists (c :: a), b. split_and!; [done|by constructor|done].
  - exists [], (c :: a ++ b). split_and!; [done|constructor|done].
Qed.

(** A text up to its integral digits. *)
Record opening (data sp : bytes) (sg : option Z) (ip r : bytes) : Prop := {
  op_data : data = sp ++ (match sg with Some s => [s] | None => [] end) ++ ip ++ r;
  op_space : Forall (fun c => assignment_space c = true) sp;
  op_sign : maybe is_sign sg true = true;
  op_digits : digits ip;
  op_rest : head_is is_digit r = false;
  op_first : sg = None -> head_is assignment_space (ip ++ r) = false /\ head_is is_sign (ip ++ r) = false
}.

Lemma text_opening data : exists sp sg ip r, opening data sp sg ip r.
Proof.
  destruct (span assignment_space data) as (sp & rest & -> & Hsp & Hrest).
  assert (exists sg rest', rest = (match sg with Some s => [s] | None => [] end) ++ rest' /\ maybe is_sign sg true = true /\
    (sg = None -> head_is is_sign rest' = false)) as (sg & rest' & -> & Hsg & Hns).
  { destruct rest as [|c rest]; [by exists None, []|]. destruct (is_sign c) eqn:Hc; [by exists (Some c), rest|by exists None, (c :: rest)]. }
  destruct (span is_digit rest') as (ip & r & -> & Hip & Hr). exists sp, sg, ip, r.
  split; [done|done|done|done|done|]. intros ->. auto.
Qed.

Lemma prefix_digits data sp sg ip r :
  opening data sp sg ip r -> ip = [] -> (head_is (fun c => c =? DOT) r = true -> head_is is_digit (drop 1 r) = false) ->
  (assignment_decimal_prefix data).2 = false.
Proof.
  intros [Hdata Hsp Hsg Hip Hr Hfirst] -> Hdot. cbn [app] in *.
  set (s := match sg with Some s => [s] | None => [] end) in *. unfold assignment_decimal_prefix.
  assert (skip assignment_space data 0 = len sp) as ->.
  { apply (skip_at _ _ [] sp (s ++ r)); [done|done|]. subst s. destruct sg as [c|]; [|by apply Hfirst]. cbn in *.
    unfold is_sign, assignment_space, PLUS, MINUS in *. apply orb_true_iff in Hsg as [->%Z.eqb_eq| ->%Z.eqb_eq]; done. }
  assert ((if next_is is_sign data (len sp) then len sp + 1 else len sp) = len (sp ++ s)) as ->.
  { rewrite (next_is_at _ data sp (s ++ r)) by done. subst s. destruct sg as [c|]; cbn [app head_is maybe] in *.
    - by rewrite Hsg, len_snoc.
    - destruct Hfirst as [_ ->]; [done|]. by rewrite app_nil_r. }
  assert (skip is_digit data (len (sp ++ s)) = len (sp ++ s)) as ->.
  { rewrite (skip_at is_digit data (sp ++ s) [] r); [by rewrite app_nil_r|by rewrite Hdata, <- app_assoc|constructor|done]. }
  rewrite Z.ltb_irrefl. cbn [orb snd]. rewrite (next_is_at _ data (sp ++ s) r) by (by rewrite Hdata, <- app_assoc).
  destruct r as [|c r]; [done|]. cbn [head_is drop skipn] in *. destruct (c =? DOT) eqn:Hc; [|done]. cbn [andb].
  rewrite <- (len_snoc (sp ++ s) c), (skip_at is_digit data ((sp ++ s) ++ [c]) [] r);
    [by rewrite app_nil_r, Z.ltb_irrefl|by rewrite Hdata, <- !app_assoc|constructor|by apply Hdot].
Qed.

(** The exponent a text goes on with, or none. *)
Lemma text_exponent r :
  exists e tail, r = (match e with Some (c, sg, ds) => c :: (match sg with Some s => [s] | None => [] end) ++ ds | None => [] end) ++ tail /\
    match e with
    | Some (c, sg, ds) => is_exponent c = true /\ maybe is_sign sg true = true /\ digits ds /\ ds <> [] /\ head_is is_digit tail = false
    | None => exponent_starts tail = false
    end.
Proof.
  destruct (exponent_starts r) eqn:Hr; [|by exists None, r]. destruct r as [|c rest]; [done|]. cbn in Hr.
  apply andb_true_iff in Hr as [Hc Hr].
  assert (exists sg rest', rest = (match sg with Some s => [s] | None => [] end) ++ rest' /\ maybe is_sign sg true = true /\
    head_is is_digit rest' = true) as (sg & rest' & -> & Hsg & Hd).
  { destruct rest as [|x rest]; [done|]. cbn in Hr. destruct (is_sign x) eqn:Hx; [by exists (Some x), rest|by exists None, (x :: rest)]. }
  destruct (span is_digit rest') as (ds & tail & -> & Hds & Htail).
  exists (Some (c, sg, ds)), tail. split; [cbn [app]; by rewrite <- app_assoc|]. split_and!; try done.
  intros ->. cbn in Hd. by rewrite Hd in Htail.
Qed.

Lemma text_number data :
  (assignment_decimal_prefix data).2 = true -> exists t, number_text_ok t /\ data = text_bytes t.
Proof.
  intros Hflag. destruct (text_opening data) as (sp & sg & ip & r & Hop).
  assert (exists f r', r = (match f with Some f => DOT :: f | None => [] end) ++ r' /\ digits (default [] f) /\
    ip ++ default [] f <> [] /\ head_is is_digit r' = false /\ (f = None -> head_is (fun c => c =? DOT) r' = false))
    as (f & r' & -> & Hf & Hne & Hr' & Hnd).
  { pose proof (op_rest _ _ _ _ _ Hop) as Hr. destruct (head_is (fun c => c =? DOT) r) eqn:Hdot.
    - destruct r as [|c r]; [done|]. cbn in Hdot. apply Z.eqb_eq in Hdot as ->.
      destruct (span is_digit r) as (f & r' & -> & Hf & Hr'). exists (Some f), r'. split_and!; try done.
      cbn. intros [-> ->]%app_nil. rewrite (prefix_digits _ _ _ _ _ Hop) in Hflag; [done|done|]. by intros _.
    - exists None, r. split_and!; try done; [constructor|]. cbn. rewrite app_nil_r. intros ->.
      rewrite (prefix_digits _ _ _ _ _ Hop) in Hflag; [done|done|congruence]. }
  destruct (text_exponent r') as (e & tail & -> & He). destruct Hop as [-> Hsp Hsg Hip _ _].
  exists (mk_text sp sg (mk_decimal ip f e) tail). split.
  - split_and!; [done|done| |].
    + unfold decimal_ok, mantissa_digits, frac_digits. cbn. split_and!; [by apply Forall_app|done|].
      destruct e as [[[? ?] ?]|]; [|done]. tauto.
    + unfold longest. cbn. destruct e as [[[c g] ds]|]; cbn [app] in *; [by destruct He as (_ & _ & _ & _ & ->)|].
      rewrite Hr', He. destruct f; [done|]. by rewrite Hnd.
  - unfold text_bytes, sign_bytes, decimal_bytes, mantissa_bytes, exponent_bytes. cbn. by rewrite <- !app_assoc.
Qed.

(** ** What an integer column stores *)

Definition lower (kind : Z) : Z := lowest ORM_SQL_ADD kind.
Definition fits_kind (kind z : Z) : bool := (lower kind <=? z) && (z <=? highest kind).
Definition clip (kind z : Z) : Z := Z.max (lower kind) (Z.min (highest kind) z).

(** The integer of a text: its decimal, rounded half away from zero. *)
Definition text_integer (t : number_text) : Z :=
  let m := half_up (mantissa (nt_decimal t)) (exponent (nt_decimal t)) in if text_negative t then - m else m.

(** A value is read as the integer [z]; [exact] unless it was rounded, [clean]
    unless something follows the number. *)
Inductive reads (v : turbodb_value_t) : Z -> bool -> bool -> Prop :=
| reads_boolean b : tv_data v = TURBODB_VALUE_BOOLEAN b -> reads v (bool_Z (negb (b =? 0))) true true
| reads_signed z : tv_data v = TURBODB_VALUE_INT64 z -> reads v z true true
| reads_unsigned z : tv_data v = TURBODB_VALUE_UINT64 z -> reads v z true true
| reads_double d : tv_data v = TURBODB_VALUE_DOUBLE d -> isfinite d = true ->
    reads v (integer_round (double_scaled d)) (double_scaled d mod UNIT =? 0) true
| reads_text t : (value_kind v = KIND_TEXT \/ value_kind v = KIND_BLOB) -> number_text_ok t -> content v = text_bytes t ->
    reads v (text_integer t) (integral_at (mantissa (nt_decimal t)) (exponent (nt_decimal t)))
      (forallb assignment_space (nt_tail t)).

(** The adjustment of a stored integer. *)
Definition adjustment_of (kind z : Z) (exact clean : bool) : orm_sql_assignment_adjustment :=
  if negb (fits_kind kind z) then ORM_SQL_ASSIGNMENT_OUT_OF_RANGE
  else if negb clean then ORM_SQL_ASSIGNMENT_TRUNCATED
  else if negb exact then ORM_SQL_ASSIGNMENT_ROUNDED else ORM_SQL_ASSIGNMENT_EXACT.

(** The conversion of an integer that was read: clipped in permissive mode. *)
Definition stores (kind z : Z) (exact clean permissive : bool) (r : adjusted) : Prop :=
  (clean && fits_kind kind z) || permissive = true /\
  r = (integer_value kind (clip kind z), adjustment_of kind z exact clean).
Definition refuses (kind z : Z) (clean permissive : bool) (f : turbodb_failure) : Prop :=
  permissive = false /\
  (clean = false /\ f_status f = TURBODB_STATUS_TYPE_ERROR \/
   clean = true /\ fits_kind kind z = false /\ f_status f = TURBODB_STATUS_OUT_OF_RANGE).

Definition converts {S} (m : M turbodb_failure S adjusted) kind z exact clean permissive : Prop :=
  forall s, wp m (fun r s' => s' = s /\ stores kind z exact clean permissive r)
    (fun f s' => s' = s /\ refuses kind z clean permissive f) s.

Lemma clip_fits kind z : fits_kind kind z = true -> clip kind z = z.
Proof. unfold fits_kind, clip. intros. bsimp. lia. Qed.

Lemma converts_exact {S} v kind z exact permissive adjustment :
  fits_kind kind z = true -> v = integer_value kind z -> adjustment = adjustment_of kind z exact true ->
  converts (S:=S) (mret (v, adjustment)) kind z exact true permissive.
Proof. intros Hf -> -> s. tdb_step. split; [done|]. unfold stores. rewrite Hf, clip_fits by done. done. Qed.

Lemma converts_out_of_range {S} v kind z exact permissive :
  fits_kind kind z = false -> v = integer_value kind (clip kind z) ->
  converts (S:=S) (assignment_failure permissive ORM_SQL_ASSIGNMENT_OUT_OF_RANGE v) kind z exact true permissive.
Proof.
  intros Hf -> s. unfold assignment_failure. destruct permissive; tdb_step; (split; [done|]).
  - unfold stores, adjustment_of. by rewrite Hf.
  - unfold refuses. auto.
Qed.

(** Facts about the ranges of the two integer kinds. *)
Ltac fits_cases :=
  unfold integer_value, adjustment_of, fits_kind, clip, lower, lowest, highest, INT64_MIN, INT64_MAX, UINT64_MAX in *;
  cbn [Z.eqb KIND_INT64 KIND_UINT64 Pos.eqb ORM_SQL_ADD ORM_SQL_INTEGER_DIVIDE] in *; bsimp;
  repeat match goal with
  | |- context [?x <=? ?y] => destruct (Z.leb_spec x y)
  | |- context [?x <? ?y] => destruct (Z.ltb_spec x y)
  end; cbn [andb orb negb] in *; first [reflexivity|discriminate|lia|f_equal; lia|exfalso; lia].

Lemma from_magnitude_converts {S} kind parsed n e permissive :
  kind_integral kind -> 0 <= half_up n e -> rounds n e (an_magnitude parsed) (an_overflow parsed) (an_rounded parsed) ->
  let z := if an_negative parsed then - half_up n e else half_up n e in
  converts (S:=S) (if kind =? KIND_INT64 then assignment_i64_from_magnitude parsed permissive
    else assignment_u64_from_magnitude parsed permissive) kind z true true permissive.
Proof.
  intros Hk Hm Hr. cbv zeta. unfold rounds in Hr. set (m := half_up n e) in *.
  destruct Hk as [-> | ->]; [change (KIND_INT64 =? KIND_INT64) with true|change (KIND_UINT64 =? KIND_INT64) with false]; cbn iota.
  - unfold assignment_i64_from_magnitude. rewrite (u64_small (INT64_MAX + 1)) by (unfold INT64_MAX; lia).
    destruct (Z.leb_spec (2 ^ 64) m); [rewrite Hr; cbn [orb]|destruct Hr as (-> & -> & _); cbn [orb];
      destruct (if an_negative parsed then INT64_MAX + 1 <? m else INT64_MAX <? m) eqn:Hrange].
    + apply converts_out_of_range; destruct (an_negative parsed); fits_cases.
    + apply converts_out_of_range; destruct (an_negative parsed); fits_cases.
    + assert (m <= INT64_MAX + bool_Z (an_negative parsed)) by (destruct (an_negative parsed); cbn [bool_Z]; bsimp; lia).
      intros s. tdb_step. apply (wp_access_Some _ (if an_negative parsed then - m else m)); [apply signed_of_Some; lia|].
      apply converts_exact; destruct (an_negative parsed); cbn [bool_Z] in *; fits_cases.
  - unfold assignment_u64_from_magnitude.
    destruct (Z.leb_spec (2 ^ 64) m); [rewrite Hr; cbn [orb]|destruct Hr as (-> & -> & _); cbn [orb];
      destruct (an_negative parsed && negb (m =? 0)) eqn:Hrange].
    + apply converts_out_of_range; destruct (an_negative parsed); fits_cases.
    + apply converts_out_of_range; destruct (an_negative parsed); fits_cases.
    + assert (m = if an_negative parsed then - m else m) as Hz by (destruct (an_negative parsed); bsimp; cbn in *; bsimp; lia).
      rewrite <- Hz. apply converts_exact; fits_cases.
Qed.

Lemma trim_tail_clean a l :
  (assignment_trim_tail (a ++ l) (len a) =? len (a ++ l)) = forallb assignment_space l.
Proof.
  unfold assignment_trim_tail. destruct (span assignment_space l) as (sp & r & -> & Hsp & Hr).
  rewrite (skip_at _ _ a sp r) by done. rewrite forallb_app.
  assert (forallb assignment_space sp = true) as -> by (clear -Hsp; induction Hsp as [|c sp Hc _ IH]; cbn; [done|by rewrite Hc]).
  cbn [andb]. destruct r as [|c r]; cbn in *; [by rewrite app_nil_r, Z.eqb_refl|].
  rewrite Hr. apply Z.eqb_neq. rewrite !length_app. cbn. lia.
Qed.

Lemma half_up_nonneg n e : 0 <= n -> 0 <= half_up n e.
Proof.
  intros Hn. unfold half_up. destruct (Z.leb_spec 0 e).
  - apply Z.mul_nonneg_nonneg; [done|apply Z.pow_nonneg; lia].
  - pose proof (Z.pow_pos_nonneg 10 (- e)). apply Z.div_pos; lia.
Qed.

Lemma integer_text_converts {S} target t permissive :
  kind_integral (ty_kind target) -> number_text_ok t -> len (text_bytes t) < 2 ^ 61 ->
  let d := nt_decimal t in
  converts (S:=S) (assignment_integer_text target (text_bytes t) permissive) (ty_kind target) (text_integer t)
    (integral_at (mantissa d) (exponent d)) (forallb assignment_space (nt_tail t)) permissive.
Proof.
  intros Hk Ht Hlen. cbv zeta. unfold assignment_integer_text.
  destruct (integer_number_exact t Ht Hlen) as (m & o & r & -> & Hr). set (d := nt_decimal t) in *.
  intros s. tdb_step. eapply wp_access_Some; [done|]. cbn [an_digits an_end negb].
  assert (text_bytes t = (nt_space t ++ sign_bytes t ++ decimal_bytes d) ++ nt_tail t) as Ea
    by (unfold text_bytes; by rewrite <- !app_assoc).
  replace (len (text_bytes t) - len (nt_tail t)) with (len (nt_space t ++ sign_bytes t ++ decimal_bytes d))
    by (rewrite Ea, !length_app; lia).
  rewrite Ea, trim_tail_clean. set (clean := forallb assignment_space (nt_tail t)).
  destruct (negb clean && negb permissive) eqn:Hstrict.
  { apply andb_true_iff in Hstrict as [Hc%negb_true_iff Hp%negb_true_iff]. unfold assignment_failure. tdb_step. split; [done|].
    unfold refuses. rewrite Hc, Hp. auto. }
  assert (0 <= half_up (mantissa d) (exponent d)) as Hm0.
  { apply half_up_nonneg. destruct Ht as (_ & _ & (Hdig & _) & _). by apply digits_value_range. }
  tdb_step. eapply wp_mono.
  - apply (from_magnitude_converts (ty_kind target) (mk_number m (len (nt_space t ++ sign_bytes t ++ decimal_bytes d)) (text_negative t) true o r)
      (mantissa d) (exponent d) permissive); done.
  - intros [w adj] s' [-> [Hst [= -> ->]]]. tdb_step. split; [done|]. cbn [an_negative an_rounded] in *.
    change (if text_negative t then - half_up (mantissa d) (exponent d) else half_up (mantissa d) (exponent d)) with (text_integer t) in *.
    unfold stores, adjustment_of in *. destruct (fits_kind (ty_kind target) (text_integer t)) eqn:Hfit; cbn [negb andb orb] in *.
    + assert (r = negb (integral_at (mantissa d) (exponent d))) as ->.
      { unfold rounds in Hr. destruct (Z.leb_spec (2 ^ 64) (half_up (mantissa d) (exponent d))); [|tauto].
        exfalso. unfold text_integer in Hfit. fold d in Hfit. destruct Hk as [E|E]; rewrite E in Hfit; destruct (text_negative t); revert Hfit; fits_cases. }
      destruct clean, permissive; done.
    + destruct permissive; [|done]. by rewrite orb_true_r.
  - intros f s' [-> [-> [[? _]|(_ & Hfit & Hs)]]]; [done|]. split; [done|]. unfold refuses. split; [done|]. right.
    rewrite andb_true_r in Hstrict. apply negb_false_iff in Hstrict. done.
Qed.

(** The bounds of the integer types as doubles. *)
Lemma bound_scaled z :
  z = - 2 ^ 63 \/ z = 2 ^ 63 \/ z = 2 ^ 64 \/ z = 0 ->
  double_scaled (double_of_integer z) = z * UNIT /\ isnan (double_of_integer z) = false.
Proof. intros [->|[->|[->| ->]]]; vm_compute; auto. Qed.

Lemma integral_lt d n z :
  isnan d = false -> double_scaled d = n * UNIT -> z = - 2 ^ 63 \/ z = 2 ^ 63 \/ z = 2 ^ 64 \/ z = 0 ->
  double_lt d (double_of_integer z) = (n <? z) /\ double_le (double_of_integer z) d = (z <=? n).
Proof.
  intros Hd En Hz. destruct (bound_scaled z Hz) as [Ez Hnz]. unfold double_lt, double_le. rewrite Hd, Hnz, Ez, En.
  cbn [negb andb]. pose proof UNIT_pos. split.
  - destruct (Z.ltb_spec n z); [apply Z.ltb_lt|apply Z.ltb_ge]; nia.
  - destruct (Z.leb_spec z n); [apply Z.leb_le|apply Z.leb_gt]; nia.
Qed.

Lemma from_double_converts {S} target d permissive :
  kind_integral (ty_kind target) -> pattern d -> isfinite d = true ->
  converts (S:=S) (assignment_from_double target d permissive) (ty_kind target) (integer_round (double_scaled d))
    (double_scaled d mod UNIT =? 0) true permissive.
Proof.
  intros Hk Hd Hf. unfold assignment_from_double. rewrite Hf. cbn [negb].
  destruct (double_integral_exact integer_round d Hd Hf integer_round_integral) as [En Hfn].
  fold (double_nearest d) in *. set (n := integer_round (double_scaled d)) in *.
  assert (pattern (double_nearest d)) as Hp by (by apply double_integral_pattern).
  pose proof (finite_not_nan _ Hp Hfn) as Hnan.
  assert (double_eq (double_nearest d) d = (double_scaled d mod UNIT =? 0)) as ->.
  { unfold double_eq. rewrite Hnan, (finite_not_nan d Hd Hf), En. cbn [negb andb]. pose proof UNIT_pos.
    destruct (Z.eqb_spec (double_scaled d mod UNIT) 0) as [E|E].
    - apply Z.mod_divide in E as [q E]; [|lia]. apply Z.eqb_eq. subst n. rewrite E.
      by rewrite (proj1 integer_round_integral).
    - apply Z.eqb_neq. intros E2. apply E. rewrite <- E2. by apply Z.mod_mul; lia. }
  rewrite (integer_of_integral _ n En).
  destruct (integral_lt _ n (- 2 ^ 63) Hnan En ltac:(auto)) as [-> _].
  destruct (integral_lt _ n (2 ^ 63) Hnan En ltac:(auto)) as [_ ->].
  destruct (integral_lt _ n (2 ^ 64) Hnan En ltac:(auto)) as [_ ->].
  destruct (integral_lt _ n 0 Hnan En ltac:(auto)) as [Hneg _]. change (double_of_integer 0) with 0 in Hneg. rewrite Hneg.
  clearbody n. destruct Hk as [E|E]; rewrite E; cbn [Z.eqb KIND_INT64 KIND_UINT64 KIND_DOUBLE Pos.eqb].
  - destruct ((n <? - 2 ^ 63) || (2 ^ 63 <=? n)) eqn:Hr.
    + apply converts_out_of_range; apply orb_true_iff in Hr as [Hr|Hr]; fits_cases.
    + bsimp. intros s. tdb_step. apply (wp_access_Some _ n); [apply i64_Some; unfold INT64_MIN, INT64_MAX; lia|].
      apply converts_exact; fits_cases.
  - destruct ((n <? 0) || (2 ^ 64 <=? n)) eqn:Hr.
    + apply converts_out_of_range; apply orb_true_iff in Hr as [Hr|Hr]; fits_cases.
    + bsimp. rewrite u64_small by lia. apply converts_exact; fits_cases.
Qed.

Definition unreadable (v : turbodb_value_t) : Prop := forall z exact clean, ~ reads v z exact clean.

(** What is stored for a value that cannot be read as a number: NULL where the
    column takes it, zero in permissive mode. *)
Definition stores_default (target : orm_sql_type) (v : turbodb_value_t) (permissive : bool) (r : adjusted) : Prop :=
  if is_null v && ty_nullable target then r = (turbodb_null, ORM_SQL_ASSIGNMENT_EXACT)
  else permissive = true /\
    r = (integer_value (ty_kind target) 0, if is_null v then ORM_SQL_ASSIGNMENT_NULL_TO_NOT_NULL else ORM_SQL_ASSIGNMENT_INVALID).
Definition refuses_default (target : orm_sql_type) (v : turbodb_value_t) (permissive : bool) (f : turbodb_failure) : Prop :=
  permissive = false /\ is_null v && ty_nullable target = false /\
  f_status f = if is_null v then TURBODB_STATUS_CONSTRAINT else TURBODB_STATUS_TYPE_ERROR.

Lemma zero_of_integral target : kind_integral (ty_kind target) -> zero_of target = integer_value (ty_kind target) 0.
Proof. unfold zero_of. by intros [-> | ->]. Qed.

(** The bytes of a text or a blob. *)
Lemma view_bytes v :
  value_ok v -> present (bytes_of v) ->
  negb (blob_size (bytes_of v) =? 0) && negb (is_some (blob_data (bytes_of v))) = false /\
  blob_bytes (bytes_of v) = Some (content v) /\ len (content v) = blob_size (bytes_of v).
Proof.
  intros Hv Hp. destruct (blob_bytes_present _ (value_ok_view v Hv) Hp) as (x & E & Hl & _). unfold content. rewrite E.
  destruct (value_ok_view v Hv) as [Hs _]. split_and!; [|done|cbn; rewrite length_take; lia].
  destruct Hp as [-> | ->]; [done|]. apply andb_false_r.
Qed.

(** ** The charge *)

(** What an evaluation of cost [cost] may do: store what [Q] allows, be refused
    as [R] says, or not start because too few steps are left. *)
Definition charged_outcome {A} (b : orm_tidesdb_sql_budget) (cost : Z) (Q : A -> Prop) (R : turbodb_failure -> Prop)
    (o : outcome turbodb_failure A * ptr orm_tidesdb_sql_budget) : Prop :=
  match o with
  | (Ret r, Some b') => Q r /\ spent b cost b'
  | (Err f, Some b') => R f /\ spent b cost b' \/ b' = b /\ (statement_active b = true -> steps_left b < cost)
  | _ => False
  end.

Definition charged_post {A} (b : orm_tidesdb_sql_budget) (cost : Z) (P : A -> Prop) (a : A) (s : ptr orm_tidesdb_sql_budget) : Prop :=
  P a /\ exists b', s = Some b' /\ spent b cost b'.
Definition uncharged (b : orm_tidesdb_sql_budget) (cost : Z) (s : ptr orm_tidesdb_sql_budget) : Prop :=
  s = Some b /\ (statement_active b = true -> steps_left b < cost).

Lemma charged_wp {A} (m : B A) b cost Q R :
  wp m (charged_post b cost Q) (fun f s => charged_post b cost R f s \/ uncharged b cost s) (Some b) ->
  charged_outcome b cost Q R (m (Some b)).
Proof.
  unfold wp, charged_outcome, charged_post, uncharged. destruct (m (Some b)) as [[r|f|] s]; [| |done].
  - by intros (? & b' & -> & ?).
  - intros [(? & b' & -> & ?)|[-> ?]]; [by left|by right].
Qed.

Lemma assignment_charge_wp {A} (m : B A) b n Q R :
  ledger_ok b -> 0 <= n < 2 ^ 64 - 1 ->
  (forall s, wp m (fun r s' => s' = s /\ Q r) (fun f s' => s' = s /\ R f) s) ->
  wp (assignment_charge n;; m) (charged_post b (n + 1) Q)
    (fun f s => charged_post b (n + 1) R f s \/ uncharged b (n + 1) s) (Some b).
Proof.
  intros Hb Hn Hm. unfold assignment_charge. tdb_step. tdb_step. tdb_step. tdb_step. tdb_step; [done|]. tdb_step. tdb_step.
  { unfold UINT64_MAX in *. bsimp. lia. }
  rewrite u64_small by lia. eapply wp_mono; [by apply charge_spent; [|lia]|..].
  - intros _ s (_ & _ & b' & -> & Hsp). eapply wp_mono; [apply Hm|..].
    + intros r s' [-> HQ]. split; eauto.
    + intros f s' [-> HR]. left. split; eauto.
  - intros f s [-> Hf]. by right.
Qed.

Section Exact.
Context (long_double : Type) (ld_of_u64 : Z -> long_double) (ld_mul : long_double -> long_double -> long_double)
  (powl_ten : Z -> long_double) (double_of_ld : long_double -> Z) (LDBL_MAX_10_EXP LDBL_MIN_10_EXP : Z).

Abbreviation convert_value := (assignment_value long_double ld_of_u64 ld_mul powl_ten double_of_ld LDBL_MAX_10_EXP LDBL_MIN_10_EXP).
Abbreviation convert :=
  (orm_tidesdb_sql_assignment_convert long_double ld_of_u64 ld_mul powl_ten double_of_ld LDBL_MAX_10_EXP LDBL_MIN_10_EXP).

Lemma value_text {S} target v permissive (s : S) Q R :
  kind_integral (ty_kind target) -> value_kind v = KIND_TEXT \/ value_kind v = KIND_BLOB -> value_ok v -> present (bytes_of v) ->
  wp (assignment_integer_text target (content v) permissive) Q R s -> wp (convert_value target v permissive) Q R s.
Proof.
  intros Hk Hkind Hv Hp Hw. destruct (view_bytes v Hv Hp) as (Hmiss & Hb & _). unfold assignment_value.
  assert (wp (raise_if (negb (blob_size (bytes_of v) =? 0) && negb (is_some (blob_data (bytes_of v)))) TURBODB_STATUS_INVALID_ARGUMENT
      "column assignment byte input is missing";; data ← access (blob_bytes (bytes_of v));
      if ty_kind target =? KIND_DOUBLE
      then assignment_double_text long_double ld_of_u64 ld_mul powl_ten double_of_ld LDBL_MAX_10_EXP LDBL_MIN_10_EXP data permissive
      else assignment_integer_text target data permissive) Q R s) as Hgoal.
  { rewrite Hmiss. tdb_step. tdb_step; [done|]. tdb_step. apply (wp_access_Some _ (content v)); [done|].
    by destruct Hk as [-> | ->]. }
  unfold value_kind, value_ok in *. destruct (tv_data v) as [| | | | | | |k];
    try (exfalso; destruct Hkind as [E|E]; discriminate E); [exact Hgoal|exact Hgoal|].
  exfalso. unfold KIND_NULL, KIND_TEXT, KIND_BLOB in *. lia.
Qed.

Lemma value_converts {S} target v permissive z exact clean :
  kind_integral (ty_kind target) -> value_ok v -> present (bytes_of v) -> blob_size (bytes_of v) < 2 ^ 61 -> tv_reserved v = 0 ->
  reads v z exact clean ->
  converts (S:=S) (convert_value target v permissive) (ty_kind target) z exact clean permissive.
Proof.
  intros Hk Hv Hp Hlen Hres Hr. destruct Hr as [b E|z E|z E|d E Hf|t Hkind Ht Hc].
  - unfold assignment_value. rewrite E. apply converts_exact; destruct Hk as [-> | ->], (b =? 0); vm_compute; reflexivity.
  - unfold assignment_value, value_ok in *. rewrite E in *.
    assert (v = turbodb_i64 z) as -> by (destruct v as [? ?]; cbn in *; by subst).
    destruct Hk as [-> | ->]; cbn [Z.eqb KIND_INT64 KIND_UINT64 KIND_DOUBLE Pos.eqb].
    + apply converts_exact; fits_cases.
    + destruct (Z.ltb_spec z 0); [apply converts_out_of_range|apply converts_exact]; fits_cases.
  - unfold assignment_value, value_ok in *. rewrite E in *.
    assert (v = turbodb_u64 z) as -> by (destruct v as [? ?]; cbn in *; by subst).
    destruct Hk as [-> | ->]; cbn [Z.eqb KIND_INT64 KIND_UINT64 KIND_DOUBLE Pos.eqb].
    + destruct (Z.ltb_spec INT64_MAX z); [apply converts_out_of_range|apply converts_exact]; fits_cases.
    + apply converts_exact; fits_cases.
  - unfold assignment_value, value_ok in *. rewrite E in *. by apply from_double_converts.
  - intros s. apply value_text; [done..|]. rewrite Hc. apply integer_text_converts; [done..|].
    rewrite <- Hc. destruct (view_bytes v Hv Hp) as (_ & _ & ->). done.
Qed.
Lemma integer_text_unreadable {S} target data permissive (s : S) :
  kind_integral (ty_kind target) -> (assignment_decimal_prefix data).2 = false ->
  wp (assignment_integer_text target data permissive)
    (fun r s' => s' = s /\ permissive = true /\ r = (integer_value (ty_kind target) 0, ORM_SQL_ASSIGNMENT_INVALID))
    (fun f s' => s' = s /\ permissive = false /\ f_status f = TURBODB_STATUS_TYPE_ERROR) s.
Proof.
  intros Hk Hflag. unfold assignment_integer_text, assignment_integer_number.
  destruct (assignment_decimal_prefix data) as [[[e st] neg] digits_]. cbn in Hflag. subst digits_. cbn [negb].
  tdb_step. eapply wp_access_Some; [done|]. cbn [an_digits negb]. unfold assignment_failure.
  destruct permissive; tdb_step; [|done]. split_and!; [done..|]. by destruct Hk as [-> | ->].
Qed.

Lemma value_unreadable {S} target v permissive (s : S) :
  kind_integral (ty_kind target) -> value_ok v -> present (bytes_of v) -> unreadable v ->
  wp (convert_value target v permissive) (fun r s' => s' = s /\ stores_default target v permissive r)
    (fun f s' => s' = s /\ refuses_default target v permissive f) s.
Proof.
  intros Hk Hv Hp Hun. unfold stores_default, refuses_default.
  assert (value_kind v = KIND_TEXT \/ value_kind v = KIND_BLOB -> is_null v = false ->
    wp (convert_value target v permissive)
      (fun r s' => s' = s /\ permissive = true /\ r = (integer_value (ty_kind target) 0, ORM_SQL_ASSIGNMENT_INVALID))
      (fun f s' => s' = s /\ permissive = false /\ f_status f = TURBODB_STATUS_TYPE_ERROR) s) as Htext.
  { intros Hkind Hn. apply value_text; [done..|]. apply integer_text_unreadable; [done|].
    destruct ((assignment_decimal_prefix (content v)).2) eqn:Hflag; [|done].
    destruct (text_number _ Hflag) as (t & Ht & Hc). exfalso. by eapply Hun, reads_text. }
  destruct (tv_data v) as [|z|z|d|b|x|x|k] eqn:E.
  - unfold assignment_value. rewrite E. assert (is_null v = true) as -> by (unfold is_null, value_kind; by rewrite E).
    destruct (ty_nullable target); cbn [andb]; [by tdb_step|]. unfold assignment_failure. rewrite zero_of_integral by done.
    by destruct permissive; tdb_step.
  - exfalso. by eapply Hun, reads_signed.
  - exfalso. by eapply Hun, reads_unsigned.
  - unfold assignment_value, assignment_from_double. rewrite E.
    assert (is_null v = false) as -> by (unfold is_null, value_kind; by rewrite E). cbn [andb].
    destruct (isfinite d) eqn:Hf; [exfalso; by eapply Hun, reads_double|]. cbn [negb]. unfold assignment_failure.
    rewrite zero_of_integral by done. by destruct permissive; tdb_step.
  - exfalso. by eapply Hun, reads_boolean.
  - assert (value_kind v = KIND_TEXT) as Ek by (unfold value_kind; by rewrite E).
    assert (is_null v = false) as En by (unfold is_null; by rewrite Ek). rewrite En. cbn [andb].
    eapply wp_mono; [apply Htext; auto|done|]. by intros f s' (-> & -> & ?).
  - assert (value_kind v = KIND_BLOB) as Ek by (unfold value_kind; by rewrite E).
    assert (is_null v = false) as En by (unfold is_null; by rewrite Ek). rewrite En. cbn [andb].
    eapply wp_mono; [apply Htext; auto|done|]. by intros f s' (-> & -> & ?).
  - unfold assignment_value. rewrite E. assert (is_null v = false) as ->.
    { unfold is_null, value_kind. rewrite E. unfold value_ok in Hv. rewrite E in Hv. apply Z.eqb_neq.
      unfold KIND_NULL, KIND_BLOB in *. lia. }
    cbn [andb]. unfold assignment_failure. rewrite zero_of_integral by done. by destruct permissive; tdb_step.
Qed.

(** Every value reads as a number or is unreadable. *)
Lemma readable_or_not v : (exists z exact clean, reads v z exact clean) \/ unreadable v.
Proof.
  assert (value_kind v = KIND_TEXT \/ value_kind v = KIND_BLOB -> (exists z exact clean, reads v z exact clean) \/ unreadable v) as Htext.
  { intros Hk. destruct ((assignment_decimal_prefix (content v)).2) eqn:Hflag.
    - destruct (text_number _ Hflag) as (t & Ht & Hc). left. by eexists _, _, _; eapply reads_text.
    - right. intros z exact clean []; unfold value_kind in Hk; try (rewrite H in Hk; by destruct Hk).
      rewrite H1, decimal_prefix_exact in Hflag; done. }
  destruct (tv_data v) as [|z|z|d|b|x|x|k] eqn:E.
  - right. intros z exact clean []; try congruence. unfold value_kind in H. rewrite E in H. by destruct H.
  - left. by eexists _, _, _; eapply reads_signed.
  - left. by eexists _, _, _; eapply reads_unsigned.
  - destruct (isfinite d) eqn:Hf; [left; by eexists _, _, _; eapply reads_double|].
    right. intros z exact clean []; try congruence. unfold value_kind in H. rewrite E in H. by destruct H.
  - left. by eexists _, _, _; eapply reads_boolean.
  - apply Htext. left. unfold value_kind. by rewrite E.
  - apply Htext. right. unfold value_kind. by rewrite E.
  - destruct (decide (value_kind v = KIND_TEXT \/ value_kind v = KIND_BLOB)) as [Hk|Hk]; [by apply Htext|].
    right. intros z exact clean []; congruence || tauto.
Qed.

(** The conversion charges one step and one for each byte, and is then that of
    the value. *)
Lemma convert_outcome target v permissive b A R :
  ledger_ok b -> kind_integral (ty_kind target) -> value_ok v ->
  (forall s : ptr orm_tidesdb_sql_budget, wp (convert_value target v permissive) (fun r s' => s' = s /\ A r) (fun f s' => s' = s /\ R f) s) ->
  charged_outcome b (blob_size (bytes_of v) + 1) A R (convert target (Some v) permissive true true (Some b)).
Proof.
  intros Hb Hk Hv Hval. destruct (value_ok_view v Hv) as [Hs _]. apply charged_wp. unfold orm_tidesdb_sql_assignment_convert.
  tdb_step. tdb_step. { destruct Hk as [E|E]; rewrite E in *; discriminate. }
  apply assignment_charge_wp; [done|lia|]. intros s. apply Hval.
Qed.

(** C15. Assignment to an integer column is exact. Whatever value is assigned, it
    is charged one step and one for each byte of a text. A value that reads as
    a number is stored as that number, rounded half away from zero: integers and
    booleans as they are, a double by its exact value, a text by the decimal it
    starts with, however long its digits and however large its exponent. A
    number outside the column, or a text with something after the number, is
    refused in strict mode and clipped or cut in permissive mode, and the
    adjustment says which. What is not a number is NULL where the column takes
    it, and otherwise refused or stored as zero. *)
Theorem assignment_integer_exact target v permissive b :
  reachable b -> kind_integral (ty_kind target) -> value_ok v -> present (bytes_of v) ->
  blob_size (bytes_of v) < 2 ^ 61 -> tv_reserved v = 0 ->
  let kind := ty_kind target in
  let cost := blob_size (bytes_of v) + 1 in
  let result := convert target (Some v) permissive true true (Some b) in
  (forall z exact clean, reads v z exact clean ->
    charged_outcome b cost (stores kind z exact clean permissive) (refuses kind z clean permissive) result) /\
  (unreadable v -> charged_outcome b cost (stores_default target v permissive) (refuses_default target v permissive) result) /\
  ((exists z exact clean, reads v z exact clean) \/ unreadable v).
Proof.
  intros Hb%reachable_ledger_ok Hk Hv Hp Hlen Hres. cbv zeta. split_and!.
  - intros z exact clean Hr. apply convert_outcome; [done..|]. by apply value_converts.
  - intros Hun. apply convert_outcome; [done..|]. intros s. by apply value_unreadable.
  - apply readable_or_not.
Qed.

End Exact.

(** "-12.5e0 x" in permissive mode: -13, and a TRUNCATED adjustment for the x. *)
Definition sample_text : bytes := [45; 49; 50; 46; 53; 101; 48; 32; 120].
Definition sample_parsed : number_text := mk_text [] (Some MINUS) (mk_decimal [49; 50] (Some [53]) (Some (101, None, [48]))) [32; 120].
Definition sample_assigned : turbodb_value_t := mk_value (TURBODB_VALUE_TEXT (mk_vstr (Some sample_text) 9)) 0.

Lemma sample_assigned_ok : value_ok sample_assigned.
Proof. split; [cbn; lia|]. split; [reflexivity || done|]. repeat constructor; by vm_compute. Qed.

Lemma assignment_integer_exact_witness :
  exists b, orm_tidesdb_sql_assignment_convert Z id Z.mul (Z.pow 10) id 4932 (-4931) (mk_type KIND_INT64 false)
    (Some sample_assigned) true true true (Some (sample_after [Op_begin])) =
    (Ret (turbodb_i64 (-13), ORM_SQL_ASSIGNMENT_TRUNCATED), Some b) /\
  reads sample_assigned (-13) false false /\ spent (sample_after [Op_begin]) 10 b.
Proof.
  pose proof (assignment_integer_exact Z id Z.mul (Z.pow 10) id 4932 (-4931) (mk_type KIND_INT64 false) sample_assigned true
    (sample_after [Op_begin]) sample_begun (or_introl eq_refl) sample_assigned_ok
    (or_intror eq_refl) eq_refl eq_refl) as [H _].
  assert (reads sample_assigned (-13) false false) as Hr.
  { apply (reads_text sample_assigned sample_parsed (or_introl eq_refl)); [|reflexivity].
    split; [constructor|]. split; [reflexivity|]. split; [|reflexivity].
    split; [repeat constructor|]. split; [discriminate|]. split_and!; [reflexivity..|repeat constructor|discriminate]. }
  specialize (H _ _ _ Hr). cbv zeta in H.
  match type of H with charged_outcome _ _ _ _ ?t =>
    assert (exists b, t = (Ret (turbodb_i64 (-13), ORM_SQL_ASSIGNMENT_TRUNCATED), Some b)) as [b E]
      by (eexists; vm_compute; reflexivity)
  end.
  rewrite E in H. exists b. split; [exact E|]. split; [exact Hr|exact (proj2 H)].
Defined.
