(* ===== verification/Cast.v ===== *)
(** * Numeric CAST and promotion (tidessql/src/value.c, value.h)

    CAST(x AS SIGNED | UNSIGNED | DOUBLE | FLOAT): integers wrap, doubles round
    to even and saturate, a text gives the integer it starts with. A condition
    is the bit set of the warnings. [double_of_float] is the conversion to
    single precision and back. *)

From S2P Require Import Prelude Row Command Errors Budget Float Value Arithmetic Literal Assign.

(** ** Data *)

Definition ORM_SQL_CAST_SIGNED : Z := 0.
Definition ORM_SQL_CAST_UNSIGNED : Z := 1.
Definition ORM_SQL_CAST_DOUBLE : Z := 2.
Definition ORM_SQL_CAST_FLOAT : Z := 3.

Record orm_sql_cast : Type := mk_cast {
  c_source : orm_sql_type;
  c_result : orm_sql_type;
  c_target : Z
}.

Definition ORM_SQL_CAST_EXACT : Z := 0.
Definition ORM_SQL_CAST_TRUNCATED : Z := 1.
Definition ORM_SQL_CAST_COMPLEMENT : Z := 2.

Definition orm_tidesdb_sql_cast_bind {S} (source : orm_sql_type) (target : Z) (wants : bool) : M turbodb_failure S orm_sql_cast :=
  raise_if (negb wants) TURBODB_STATUS_INVALID_ARGUMENT "CAST requires output";;
  raise_if (negb (valid_type source)) TURBODB_STATUS_TYPE_ERROR "invalid CAST source type";;
  raise_if ((target <? ORM_SQL_CAST_SIGNED) || (ORM_SQL_CAST_FLOAT <? target)) TURBODB_STATUS_UNSUPPORTED
    "unsupported numeric CAST target";;
  let kind := if target =? ORM_SQL_CAST_SIGNED then KIND_INT64
    else if target =? ORM_SQL_CAST_UNSIGNED then KIND_UINT64 else KIND_DOUBLE in
  mret (mk_cast source (mk_type kind (ty_nullable source)) target).

(** ** Integers *)

Definition cast_integer_bits (bits target : Z) : turbodb_value_t :=
  if target =? KIND_UINT64 then turbodb_u64 bits
  else turbodb_i64 (if bits <=? INT64_MAX then bits else - (UINT64_MAX - bits) - 1).

(** The loop over the digits: where it stops, the magnitude and whether it overflows. *)
Fixpoint cast_digits (rest : bytes) (limit i magnitude : Z) (overflow : bool) : Z * Z * bool :=
  match rest with
  | c :: rest =>
      if is_digit c then
        let digit := digit_of c in
        if size_sub limit digit / 10 <? magnitude then cast_digits rest limit (i + 1) magnitude true
        else cast_digits rest limit (i + 1) (if negb overflow then u64 (magnitude * 10 + digit) else magnitude) overflow
      else (i, magnitude, overflow)
  | [] => (i, magnitude, overflow)
  end.

(** The bits of the integer a text starts with, and its conditions. *)
Definition cast_integer_text (data : bytes) (target : Z) (conditions : Z) : Z * Z :=
  let i := skip assignment_space data 0 in
  let negative := next_is (fun c => c =? MINUS) data i in
  let start := if negative || next_is (fun c => c =? PLUS) data i then i + 1 else i in
  let limit := if negative then INT64_MAX + 1 else UINT64_MAX in
  let '(i, magnitude, overflow) := cast_digits (drop (Z.to_nat start) data) limit start 0 false in
  let conditions :=
    if (start =? i) || overflow || negb (assignment_trim_tail data i =? len data)
    then Z.lor conditions ORM_SQL_CAST_TRUNCATED else conditions in
  if start =? i then (0, conditions)
  else if overflow then (if negative then INT64_MAX + 1 else UINT64_MAX, conditions)
  else
    let conditions :=
      if (negative && (target =? KIND_UINT64)) || (negb negative && (INT64_MAX <? magnitude) && (target =? KIND_INT64))
      then Z.lor conditions ORM_SQL_CAST_COMPLEMENT else conditions in
    (if negative then size_sub 0 magnitude else magnitude, conditions).

(** rint(), saturated to the signed range. *)
Definition cast_integer_double {S} (d : Z) : M turbodb_failure S Z :=
  let rounded := double_rint d in
  let signed_limit := double_neg (double_of_integer INT64_MIN) in
  if double_le rounded (double_neg signed_limit) then mret (u64 INT64_MIN)
  else if double_le signed_limit rounded then mret INT64_MAX
  else z ← access (i64 (integer_of_double rounded)); mret (u64 z).

(** ** Single precision *)

(** FLT_MAX, as a double. *)
Definition FLT_MAX : Z := double_of_integer ((2 ^ 24 - 1) * 2 ^ 104).

(** The unit in the last place of a single-precision number of magnitude [s], both
    in units of 2^-1074: 24 bits, and no smaller than 2^-149. *)
Definition float_unit (s : Z) : Z := Z.max (Z.log2 s - 23) (1074 - 149).
Definition float_scaled (s : Z) : Z := div_nearest_even s (2 ^ float_unit s) * 2 ^ float_unit s.

(** [(double)(float)value], of a finite value not above FLT_MAX. *)
Definition double_of_float (d : Z) : Z :=
  let s := double_scaled d in
  double_round (double_negative d) (Z.sgn s * float_scaled (Z.abs s)) UNIT.

(** ** Evaluation *)

Section Cast.
Context (vstr_utf8_valid : bytes -> bool) (long_double : Type) (ld_of_u64 : Z -> long_double)
  (ld_mul : long_double -> long_double -> long_double) (powl_ten : Z -> long_double) (double_of_ld : long_double -> Z)
  (LDBL_MAX_10_EXP LDBL_MIN_10_EXP : Z).

(** The value of each kind of input, with its conditions. *)
Definition cast_value {S} (cast : orm_sql_cast) (input : turbodb_value_t) : M turbodb_failure S (turbodb_value_t * Z) :=
  let kind := ty_kind (c_result cast) in
  let text :=
    data ← access (blob_bytes (bytes_of input));
    if kind =? KIND_DOUBLE then
      '(result, adjustment) ← assignment_double_text long_double ld_of_u64 ld_mul powl_ten double_of_ld LDBL_MAX_10_EXP
        LDBL_MIN_10_EXP data true;
      raise_if (match adjustment with ORM_SQL_ASSIGNMENT_OUT_OF_RANGE => true | _ => false end)
        TURBODB_STATUS_OUT_OF_RANGE "DOUBLE CAST exceeds finite numeric range";;
      mret (result, match adjustment with
        | ORM_SQL_ASSIGNMENT_EXACT => ORM_SQL_CAST_EXACT
        | _ => Z.lor ORM_SQL_CAST_EXACT ORM_SQL_CAST_TRUNCATED
        end)
    else
      let '(bits, conditions) := cast_integer_text data kind ORM_SQL_CAST_EXACT in
      mret (cast_integer_bits bits kind, conditions) in
  match tv_data input with
  | TURBODB_VALUE_NULL => mret (turbodb_null, ORM_SQL_CAST_EXACT)
  | TURBODB_VALUE_TEXT _ | TURBODB_VALUE_BLOB _ => text
  | TURBODB_VALUE_DOUBLE d =>
      if kind =? KIND_DOUBLE then mret (turbodb_f64 d, ORM_SQL_CAST_EXACT)
      else bits ← cast_integer_double d; mret (cast_integer_bits bits kind, ORM_SQL_CAST_EXACT)
  | TURBODB_VALUE_INT64 z | TURBODB_VALUE_UINT64 z | TURBODB_VALUE_BOOLEAN z =>
      mret (if kind =? KIND_DOUBLE then turbodb_f64 (double_of_integer z) else cast_integer_bits (u64 z) kind,
        ORM_SQL_CAST_EXACT)
  | TURBODB_VALUE_unknown _ => access None
  end.

(** The FLOAT target rounds what the DOUBLE target gives. *)
Definition cast_float {S} (target : Z) (result : turbodb_value_t) : M turbodb_failure S turbodb_value_t :=
  match tv_data result with
  | TURBODB_VALUE_DOUBLE value =>
      if target =? ORM_SQL_CAST_FLOAT then
        raise_if (double_lt FLT_MAX value || double_lt value (double_neg FLT_MAX)) TURBODB_STATUS_OUT_OF_RANGE
          "FLOAT CAST exceeds single-precision range";;
        mret (turbodb_f64 (double_of_float value))
      else mret result
  | _ => mret result
  end.

Definition orm_tidesdb_sql_cast_eval (cast : ptr orm_sql_cast) (input : ptr turbodb_value_t) (wants wants_condition : bool)
    : B (turbodb_value_t * Z) :=
  budget ← gets is_some;
  match cast, input with
  | Some c, Some v =>
      raise_if (negb budget || negb wants || negb wants_condition) TURBODB_STATUS_INVALID_ARGUMENT
        "invalid CAST evaluation arguments";;
      checked ← orm_tidesdb_sql_cast_bind (c_source c) (c_target c) true;
      raise_if (negb (ty_kind (c_result checked) =? ty_kind (c_result c)) ||
          negb (Bool.eqb (ty_nullable (c_result checked)) (ty_nullable (c_result c))) || negb (valid_value v (c_source c)))
        TURBODB_STATUS_TYPE_ERROR "CAST runtime value mismatches bound type";;
      assignment_charge (blob_size (bytes_of v));;
      utf8 ← access (valid_text vstr_utf8_valid v);
      raise_if (negb utf8) TURBODB_STATUS_TYPE_ERROR "CAST text is not valid UTF-8";;
      '(result, conditions) ← cast_value c v;
      result ← cast_float (c_target c) result;
      mret (result, conditions)
  | _, _ => raise TURBODB_STATUS_INVALID_ARGUMENT "invalid CAST evaluation arguments"
  end.
End Cast.

Definition orm_tidesdb_sql_real_promote (input : ptr turbodb_value_t) (wants : bool) : B turbodb_value_t :=
  match input with
  | None => raise TURBODB_STATUS_INVALID_ARGUMENT "invalid numeric result promotion"
  | Some v =>
      raise_if (negb wants) TURBODB_STATUS_INVALID_ARGUMENT "invalid numeric result promotion";;
      raise_if ((negb (assignment_numeric (value_kind v)) && negb (value_kind v =? KIND_NULL)) ||
          negb (valid_value v (mk_type (value_kind v) true)))
        TURBODB_STATUS_TYPE_ERROR "invalid numeric result value";;
      orm_tidesdb_sql_budget_reserve (Some (charge_amount 1));;
      if value_kind v =? KIND_NULL then mret turbodb_null
      else d ← access (numeric_real_value v); mret (turbodb_f64 d)
  end.

(** ** Integer casts wrap *)

(** The integer of the kind that is [z] modulo 2^64. *)
Definition wrap (kind z : Z) : Z :=
  if kind =? KIND_UINT64 then z mod 2 ^ 64 else (z + 2 ^ 63) mod 2 ^ 64 - 2 ^ 63.

Lemma cast_bits_wrap bits kind :
  kind_integral kind -> 0 <= bits < 2 ^ 64 -> cast_integer_bits bits kind = integer_value kind (wrap kind bits).
Proof.
  unfold cast_integer_bits, integer_value, wrap, INT64_MAX, UINT64_MAX.
  intros [-> | ->] Hb; cbn [Z.eqb KIND_INT64 KIND_UINT64 Pos.eqb]; f_equal; [|by rewrite Z.mod_small].
  destruct (Z.leb_spec bits (2 ^ 63 - 1)).
  - rewrite Z.mod_small by lia. lia.
  - replace (bits + 2 ^ 63) with (bits - 2 ^ 63 + 1 * 2 ^ 64) by lia. rewrite Z.mod_add, Z.mod_small by lia. lia.
Qed.

Lemma wrap_u64 kind z : wrap kind (u64 z) = wrap kind z.
Proof.
  unfold wrap, u64. destruct (kind =? KIND_UINT64); [by rewrite Z.mod_mod|]. by rewrite Zplus_mod_idemp_l.
Qed.

Lemma cast_bits_u64 z kind :
  kind_integral kind -> cast_integer_bits (u64 z) kind = integer_value kind (wrap kind z).
Proof. intros. rewrite cast_bits_wrap, wrap_u64 by (done || apply Z.mod_pos_bound; lia). done. Qed.

(** ** The integer a text starts with *)

Lemma cast_digits_overflow ip r limit i m :
  digits ip -> head_is is_digit r = false -> exists m', cast_digits (ip ++ r) limit i m true = (i + len ip, m', true).
Proof.
  revert i m. induction ip as [|c ip IH]; intros i m Hip Hr.
  - exists m. rewrite Z.add_0_r. destruct r as [|c r]; [done|]. cbn in *. by rewrite Hr.
  - apply Forall_cons in Hip as [Hc Hip]. cbn [app cast_digits negb length]. rewrite Hc.
    case_match; rewrite Nat2Z.inj_succ; replace (i + Z.succ (len ip)) with (i + 1 + len ip) by lia; by apply IH.
Qed.

Lemma cast_digits_exact ip r limit i m :
  digits ip -> head_is is_digit r = false -> 9 <= limit < 2 ^ 64 -> 0 <= m <= limit ->
  let overflow := limit <? digits_from m ip in
  exists m', cast_digits (ip ++ r) limit i m false = (i + len ip, m', overflow) /\ (overflow = false -> m' = digits_from m ip).
Proof.
  revert i m. induction ip as [|c ip IH]; intros i m Hip Hr Hl Hm; cbn zeta.
  - exists m. cbn [digits_from fold_left length app]. rewrite Z.add_0_r, (proj2 (Z.ltb_ge _ _)) by lia. split; [|done].
    destruct r as [|c r]; [done|]. cbn in *. by rewrite Hr.
  - apply Forall_cons in Hip as [Hc Hip]. pose proof (digit_range c Hc). cbn [app cast_digits negb length]. rewrite Hc.
    change 10 with DECIMAL_BASE at 1. rewrite next_exceeds, Nat2Z.inj_succ by lia.
    replace (i + Z.succ (len ip)) with (i + 1 + len ip) by lia.
    change (digits_from m (c :: ip)) with (digits_from (m * 10 + digit_of c) ip).
    destruct (Z.ltb_spec limit (m * 10 + digit_of c)).
    + destruct (cast_digits_overflow ip r limit (i + 1) m Hip Hr) as [m' ->]. exists m'.
      pose proof (digits_from_le (m * 10 + digit_of c) ip ltac:(lia) Hip). by rewrite (proj2 (Z.ltb_lt _ _)) by lia.
    + rewrite u64_small by lia. apply IH; [done..|lia].
Qed.

(** What a text gives: its sign, its digits up to the first other character,
    saturated to -2^63 and 2^64 - 1. *)
Definition text_cast (sg : option Z) (ip : bytes) : Z :=
  let n := digits_value ip in Z.max (- 2 ^ 63) (Z.min (2 ^ 64 - 1) (if maybe (fun s => s =? MINUS) sg false then - n else n)).

(** TRUNCATED: no digit, too many, or something other than spaces after them.
    COMPLEMENT: the number is read with the other signedness. *)
Definition text_conditions (kind : Z) (sg : option Z) (ip r : bytes) : Z :=
  let negative := maybe (fun s => s =? MINUS) sg false in
  let n := digits_value ip in
  let saturated := literal_maximum negative <? n in
  Z.lor (if bool_decide (ip = []) || saturated || negb (forallb assignment_space r) then ORM_SQL_CAST_TRUNCATED else 0)
    (if bool_decide (ip <> []) && negb saturated &&
        (if negative then kind =? KIND_UINT64 else (kind =? KIND_INT64) && (INT64_MAX <? n))
     then ORM_SQL_CAST_COMPLEMENT else 0).

Lemma opening_scan data sp sg ip r :
  opening data sp sg ip r ->
  let negative := maybe (fun s => s =? MINUS) sg false in
  let signs := match sg with Some s => [s] | None => [] end in
  skip assignment_space data 0 = len sp /\ next_is (fun c => c =? MINUS) data (len sp) = negative /\
  (if negative || next_is (fun c => c =? PLUS) data (len sp) then len sp + 1 else len sp) = len (sp ++ signs) /\
  drop (Z.to_nat (len (sp ++ signs))) data = ip ++ r.
Proof.
  intros [Hd Hsp Hsg Hip Hr Hf]. cbn zeta.
  assert (skip assignment_space data 0 = len sp) as ->.
  { apply (skip_at assignment_space data [] sp _ Hd Hsp). destruct sg as [s|]; [|by apply Hf]. cbn in *.
    unfold is_sign, assignment_space, PLUS, MINUS in *. apply orb_true_iff in Hsg as [->%Z.eqb_eq| ->%Z.eqb_eq]; done. }
  rewrite !(next_is_at _ data sp _ Hd). destruct sg as [s|]; cbn [maybe app head_is] in *.
  - rewrite len_snoc. split_and!; [done|done| |].
    + unfold is_sign in Hsg. rewrite orb_comm in Hsg. by rewrite Hsg.
    + subst data. rewrite <- (len_snoc sp s), Nat2Z.id.
      change (s :: ip ++ r) with ([s] ++ ip ++ r). by rewrite (app_assoc sp [s] (ip ++ r)), drop_app_length.
  - destruct (Hf eq_refl) as [_ Hns]. rewrite app_nil_r. subst data. rewrite Nat2Z.id, drop_app_length.
    destruct (ip ++ r) as [|c l]; [done|]. cbn in *. unfold is_sign in Hns. apply orb_false_iff in Hns as [-> ->]. done.
Qed.

Lemma literal_maximum_range negative : 9 <= literal_maximum negative < 2 ^ 64.
Proof. unfold literal_maximum, INT64_MAX, UINT64_MAX. destruct negative; lia. Qed.

Lemma cast_text_exact data kind sp sg ip r :
  kind_integral kind -> opening data sp sg ip r ->
  cast_integer_text data kind ORM_SQL_CAST_EXACT = (u64 (text_cast sg ip), text_conditions kind sg ip r).
Proof.
  intros Hk Ho. destruct (opening_scan _ _ _ _ _ Ho) as (Hsp & Hneg & Hstart & Hrest). cbn zeta in *.
  unfold cast_integer_text. rewrite Hsp, Hneg, Hstart, Hrest. unfold text_cast, text_conditions. cbn zeta.
  destruct Ho as [Hd _ _ Hip Hr _]. set (negative := maybe _ sg false) in *. fold (literal_maximum negative).
  set (a := sp ++ match sg with Some s => [s] | None => [] end) in *. pose proof (literal_maximum_range negative) as Hlim.
  destruct (cast_digits_exact ip r (literal_maximum negative) (len a) 0 Hip Hr Hlim ltac:(lia)) as (m & -> & Hm).
  fold (digits_value ip) in *. pose proof (digits_value_range ip Hip) as Hn. set (n := digits_value ip) in *.
  assert ((assignment_trim_tail data (len a + len ip) =? len data) = forallb assignment_space r) as ->.
  { rewrite <- (trim_tail_clean (a ++ ip) r), length_app, Nat2Z.inj_add. subst a data. by rewrite <- !app_assoc. }
  set (clean := forallb assignment_space r). clearbody clean.
  assert ((len a =? len a + len ip) = bool_decide (ip = [])) as ->.
  { destruct ip; [by rewrite Z.add_0_r, Z.eqb_refl|]. apply Z.eqb_neq. cbn. lia. }
  destruct (bool_decide_reflect (ip = [])) as [->|Hne].
  { cbn. destruct negative; reflexivity. }
  rewrite (bool_decide_eq_true_2 (ip <> [])) by done. cbn [orb andb].
  clearbody n negative. unfold literal_maximum, INT64_MAX, UINT64_MAX in *. clear - Hm Hn.
  assert (0 <= n) as Hn' by lia. clear Hn.
  destruct (Z.ltb_spec (if negative then 2 ^ 63 - 1 + 1 else 2 ^ 64 - 1) n) as [Hlt|Hge]; cbn [orb andb negb].
  - f_equal. destruct negative; [rewrite Z.max_l by lia|rewrite Z.min_l, Z.max_r by lia]; reflexivity.
  - rewrite Hm by done. f_equal.
    + destruct negative.
      * by rewrite Z.min_r, Z.max_r by lia.
      * rewrite Z.min_r, Z.max_r by lia. symmetry. apply u64_small. lia.
    + destruct negative, clean, (kind =? KIND_UINT64), (kind =? KIND_INT64), (2 ^ 63 - 1 <? n); reflexivity.
Qed.

(** ** The cast of a double *)

Definition saturate_i64 (z : Z) : Z := Z.max (- 2 ^ 63) (Z.min (2 ^ 63 - 1) z).

Lemma integer_double_wp {S} d (s : S) :
  pattern d -> isfinite d = true ->
  wp (cast_integer_double d) (fun bits s' => s' = s /\ bits = u64 (saturate_i64 (integer_rint (double_scaled d)))) (fun _ _ => False) s.
Proof.
  intros Hd Hf. unfold cast_integer_double.
  destruct (double_integral_exact integer_rint d Hd Hf integer_rint_integral) as [En Hfn]. fold (double_rint d) in *.
  assert (pattern (double_rint d)) as Hp by (by apply double_integral_pattern).
  pose proof (finite_not_nan _ Hp Hfn) as Hnan. set (n := integer_rint (double_scaled d)) in *.
  change (double_neg (double_of_integer INT64_MIN)) with (double_of_integer (2 ^ 63)).
  change (double_neg (double_of_integer (2 ^ 63))) with (double_of_integer (- 2 ^ 63)).
  destruct (integral_lt _ n (2 ^ 63) Hnan En ltac:(auto)) as [_ ->].
  assert (double_le (double_rint d) (double_of_integer (- 2 ^ 63)) = (n <=? - 2 ^ 63)) as ->.
  { destruct (bound_scaled (- 2 ^ 63) ltac:(auto)) as [Ez Hnz]. unfold double_le. rewrite Hnan, Hnz, Ez, En.
    cbn [negb andb]. pose proof UNIT_pos. destruct (Z.leb_spec n (- 2 ^ 63)); [apply Z.leb_le|apply Z.leb_gt]; nia. }
  rewrite (integer_of_integral _ n En). clearbody n. unfold saturate_i64.
  destruct (Z.leb_spec n (- 2 ^ 63)); [tdb_step; by rewrite Z.max_l by lia|].
  destruct (Z.leb_spec (2 ^ 63) n); [tdb_step; by rewrite Z.min_l by lia|].
  tdb_step. apply (wp_access_Some _ n); [apply i64_Some; unfold INT64_MIN, INT64_MAX; lia|]. tdb_step.
  by rewrite Z.min_r, Z.max_r by lia.
Qed.

(** ** The number a value is cast from *)

(** [casts v kind z cond]: the value stands for the integer [z], with the
    conditions [cond] when it is cast to [kind]. *)
Inductive casts (v : turbodb_value_t) (kind : Z) : Z -> Z -> Prop :=
| casts_signed z : tv_data v = TURBODB_VALUE_INT64 z -> casts v kind z ORM_SQL_CAST_EXACT
| casts_unsigned z : tv_data v = TURBODB_VALUE_UINT64 z -> casts v kind z ORM_SQL_CAST_EXACT
| casts_boolean z : tv_data v = TURBODB_VALUE_BOOLEAN z -> casts v kind z ORM_SQL_CAST_EXACT
| casts_double d : tv_data v = TURBODB_VALUE_DOUBLE d ->
    casts v kind (saturate_i64 (integer_rint (double_scaled d))) ORM_SQL_CAST_EXACT
| casts_text sp sg ip r : value_kind v = KIND_TEXT \/ value_kind v = KIND_BLOB -> opening (content v) sp sg ip r ->
    casts v kind (text_cast sg ip) (text_conditions kind sg ip r).

(** The kind of the integers a target names. *)
Definition target_kind (target : Z) : Z := if target =? ORM_SQL_CAST_SIGNED then KIND_INT64 else KIND_UINT64.

Definition cast_stores (v : turbodb_value_t) (kind : Z) (r : turbodb_value_t * Z) : Prop :=
  if is_null v then r = (turbodb_null, ORM_SQL_CAST_EXACT)
  else (exists z cond, casts v kind z cond) /\ forall z cond, casts v kind z cond -> r = (integer_value kind (wrap kind z), cond).

Section Exact.
Context (vstr_utf8_valid : bytes -> bool) (long_double : Type) (ld_of_u64 : Z -> long_double)
  (ld_mul : long_double -> long_double -> long_double) (powl_ten : Z -> long_double) (double_of_ld : long_double -> Z)
  (LDBL_MAX_10_EXP LDBL_MIN_10_EXP : Z).

Abbreviation value_of_cast := (cast_value long_double ld_of_u64 ld_mul powl_ten double_of_ld LDBL_MAX_10_EXP LDBL_MIN_10_EXP).
Abbreviation cast_eval :=
  (orm_tidesdb_sql_cast_eval vstr_utf8_valid long_double ld_of_u64 ld_mul powl_ten double_of_ld LDBL_MAX_10_EXP LDBL_MIN_10_EXP).

(** The value of each kind determines what it is cast from. *)
Lemma cast_stores_intro v kind z cond :
  is_null v = false -> casts v kind z cond ->
  (forall z' cond', casts v kind z' cond' -> z' = z /\ cond' = cond) ->
  cast_stores v kind (integer_value kind (wrap kind z), cond).
Proof. intros Hn Hc Hu. unfold cast_stores. rewrite Hn. split; [eauto|]. by intros z' cond' [-> ->]%Hu. Qed.

Lemma text_value_cast {S} kind v (s : S) :
  kind_integral kind -> value_kind v = KIND_TEXT \/ value_kind v = KIND_BLOB -> blob_bytes (bytes_of v) = Some (content v) ->
  wp (data ← access (blob_bytes (bytes_of v));
      let '(bits, conditions) := cast_integer_text data kind ORM_SQL_CAST_EXACT in
      mret (cast_integer_bits bits kind, conditions) : M turbodb_failure S _)
    (fun r s' => s' = s /\ cast_stores v kind r) (fun _ _ => False) s.
Proof.
  intros Hk Ht Hb. tdb_step. apply (wp_access_Some _ (content v)); [done|].
  destruct (cast_integer_text (content v) kind ORM_SQL_CAST_EXACT) as [bits cond] eqn:E. tdb_step. split; [done|].
  unfold cast_stores. assert (is_null v = false) as -> by (unfold is_null; by destruct Ht as [-> | ->]). split.
  - destruct (text_opening (content v)) as (sp & sg & ip & r & Ho). eexists _, _. by eapply casts_text.
  - intros z cond'. destruct 1 as [z' Hd|z' Hd|z' Hd|d Hd|sp sg ip r _ Ho];
      try (unfold value_kind in Ht; rewrite Hd in Ht; by destruct Ht).
    rewrite (cast_text_exact _ _ _ _ _ _ Hk Ho) in E. injection E as <- <-. by rewrite cast_bits_u64.
Qed.

Lemma value_cast {S} c v (s : S) :
  kind_integral (ty_kind (c_result c)) -> value_ok v -> valid_value v (c_source c) = true ->
  wp (value_of_cast c v) (fun r s' => s' = s /\ cast_stores v (ty_kind (c_result c)) r) (fun _ _ => False) s.
Proof.
  intros Hk Hv Hvalid. destruct (view_bytes v Hv (valid_value_present _ _ Hvalid)) as (_ & Hb & _).
  unfold cast_value. set (kind := ty_kind (c_result c)) in *.
  assert ((kind =? KIND_DOUBLE) = false) as -> by (by destruct Hk as [-> | ->]).
  assert (forall z, is_null v = false ->
    (tv_data v = TURBODB_VALUE_INT64 z \/ tv_data v = TURBODB_VALUE_UINT64 z \/ tv_data v = TURBODB_VALUE_BOOLEAN z) ->
    cast_stores v kind (cast_integer_bits (u64 z) kind, ORM_SQL_CAST_EXACT)) as Hnumber.
  { intros z Hn Hz. rewrite cast_bits_u64 by done. apply cast_stores_intro; [done|..].
    - destruct Hz as [E|[E|E]]; [by apply casts_signed|by apply casts_unsigned|by apply casts_boolean].
    - intros z' cond' []; destruct Hz as [E|[E|E]]; try (split; congruence);
        unfold value_kind in H; rewrite E in H; by destruct H. }
  destruct (tv_data v) as [|z|z|d|z|x|x|k] eqn:E.
  - tdb_step. unfold cast_stores, is_null, value_kind. by rewrite E.
  - tdb_step. split; [done|]. apply Hnumber; auto. unfold is_null, value_kind. by rewrite E.
  - tdb_step. split; [done|]. apply Hnumber; auto. unfold is_null, value_kind. by rewrite E.
  - tdb_step. unfold valid_value, value_ok, value_kind in *. rewrite E in *. cbn [Z.eqb KIND_NULL KIND_DOUBLE] in Hvalid.
    eapply wp_mono; [apply integer_double_wp; [done|by repeat case_match]|..|done].
    intros bits s' [-> ->]. tdb_step. split; [done|]. rewrite cast_bits_u64 by done.
    apply cast_stores_intro; [unfold is_null, value_kind; by rewrite E|by apply casts_double|].
    intros z' cond' []; try (split; congruence). unfold value_kind in H. rewrite E in H. by destruct H.
  - tdb_step. split; [done|]. apply Hnumber; auto. unfold is_null, value_kind. by rewrite E.
  - apply text_value_cast; [done| |done]. left. unfold value_kind. by rewrite E.
  - apply text_value_cast; [done| |done]. right. unfold value_kind. by rewrite E.
  - exfalso. unfold valid_value, value_ok, value_kind in *. rewrite E in *. repeat case_match; bsimp; unfold KIND_NULL, KIND_BLOB in *; lia || done.
Qed.

Lemma cast_bind_result {S} source target c (s s' : S) :
  target = ORM_SQL_CAST_SIGNED \/ target = ORM_SQL_CAST_UNSIGNED ->
  orm_tidesdb_sql_cast_bind source target true s = (Ret c, s') ->
  c_source c = source /\ c_target c = target /\ c_result c = mk_type (target_kind target) (ty_nullable source) /\
  kind_integral (target_kind target) /\
  forall S (s : S), orm_tidesdb_sql_cast_bind source target true s = (Ret c, s).
Proof.
  unfold orm_tidesdb_sql_cast_bind, kind_integral. intros Ht (? & ? & [_ ->]%raise_if_Ret & Hb)%bind_Ret.
  apply bind_Ret in Hb as (? & ? & [Hv ->]%raise_if_Ret & (? & ? & [_ ->]%raise_if_Ret & [= <- <-])%bind_Ret).
  rewrite Hv. split_and!; [done|done|by destruct Ht as [-> | ->]|by destruct Ht as [-> | ->]; auto|by destruct Ht as [-> | ->]].
Qed.

(** C16. CAST to an integer is exact. A bound CAST(... AS SIGNED) or UNSIGNED of a
    value of its source type charges one step and one for each byte, and stores
    the integer the value stands for, wrapped to the signed 64-bit integers for
    SIGNED and to the unsigned ones for UNSIGNED: integers and
    booleans as they are, a double rounded to the nearest integer (ties to even)
    and saturated to the signed range, a text the integer it starts with, read
    up to the first other character and saturated, with the TRUNCATED and
    COMPLEMENT conditions set exactly when it was cut or read with the other
    signedness; NULL stays NULL. It is refused only because a text is not UTF-8
    or, before any effect, because too few steps are left. *)
Theorem cast_integer_exact source target c v b :
  target = ORM_SQL_CAST_SIGNED \/ target = ORM_SQL_CAST_UNSIGNED ->
  orm_tidesdb_sql_cast_bind source target true tt = (Ret c, tt) ->
  reachable b -> value_ok v -> valid_value v source = true ->
  c_result c = mk_type (target_kind target) (ty_nullable source) /\
  charged_outcome b (blob_size (bytes_of v) + 1)
    (fun r => utf8_ok vstr_utf8_valid v = true /\ cast_stores v (target_kind target) r)
    (fun f => utf8_ok vstr_utf8_valid v = false /\ f_status f = TURBODB_STATUS_TYPE_ERROR)
    (cast_eval (Some c) (Some v) true true (Some b)).
Proof.
  intros Ht Hbind Hb%reachable_ledger_ok Hv Hvalid.
  destruct (cast_bind_result _ _ _ _ _ Ht Hbind) as (<- & Htar & Hres & Hk & Hall). destruct (value_ok_view v Hv) as [Hs _].
  split; [done|]. assert (ty_kind (c_result c) = target_kind target) as Ek by by rewrite Hres. rewrite <- Ek in *.
  apply charged_wp. unfold orm_tidesdb_sql_cast_eval. tdb_step. tdb_step. tdb_step. tdb_step; [done|]. tdb_step.
  unfold wp at 1. rewrite Htar, Hall. tdb_step. tdb_step. { by rewrite Z.eqb_refl, eqb_reflx, Hvalid in *. }
  apply assignment_charge_wp; [done|lia|]. intros s. rewrite (valid_text_spec vstr_utf8_valid v _ Hv Hvalid).
  tdb_step. apply (wp_access_Some _ (utf8_ok vstr_utf8_valid v)); [done|]. tdb_step. tdb_step. { by destruct (utf8_ok vstr_utf8_valid v). }
  tdb_step. eapply wp_mono; [by apply value_cast|..|done]. intros [r cond] s' [-> Hr].
  assert (cast_float (S:=ptr orm_tidesdb_sql_budget) target r = mret r) as ->.
  { unfold cast_float. destruct Ht as [-> | ->]; by destruct (tv_data r). }
  tdb_step. tdb_step. tdb_step. split; [done|]. by destruct (utf8_ok vstr_utf8_valid v).
Qed.
End Exact.

(** ** Single precision *)

Lemma ratio_exponent_UNIT n : 0 < n -> ratio_exponent n UNIT = Z.log2 n - 1074.
Proof.
  intros Hn. unfold ratio_exponent, UNIT. rewrite Z.log2_pow2 by lia. cbn zeta.
  pose proof (Z.log2_nonneg n). destruct (Z.log2_spec n Hn) as [Hlo _].
  match goal with |- (if ?b then _ else _) = _ => assert (b = false) as ->; [|done] end.
  destruct (Z.ltb_spec (Z.log2 n - 1074) 0); apply Z.ltb_ge.
  - replace 1074 with (Z.log2 n + (1074 - Z.log2 n)) at 1 by lia.
    rewrite Z.pow_add_r by lia. replace (- (Z.log2 n - 1074)) with (1074 - Z.log2 n) by lia.
    apply Z.mul_le_mono_nonneg_r; [apply Z.pow_nonneg; lia|done].
  - rewrite <- Z.pow_add_r by lia. by replace (1074 + (Z.log2 n - 1074)) with (Z.log2 n) by lia.
Qed.

(** A number with a significand of 53 bits is a double. *)
Lemma magnitude_round_normal m k :
  2 ^ 52 <= m < 2 ^ 53 -> 0 <= k < 2046 -> magnitude_round (m * 2 ^ k) UNIT = k * 2 ^ 52 + m.
Proof.
  intros Hm Hk. assert (0 < 2 ^ k) by (apply Z.pow_pos_nonneg; lia). unfold magnitude_round.
  rewrite (proj2 (Z.eqb_neq (m * 2 ^ k) 0)) by nia. rewrite ratio_exponent_UNIT, Z.log2_mul_pow2 by nia.
  rewrite (Z.log2_unique m 52) by lia. replace (k + 52 - 1074 - 52) with (k - 1074) by lia. cbn zeta.
  rewrite Z.max_l by lia.
  assert (scale_nearest (m * 2 ^ k) UNIT (k - 1074) = m) as ->.
  { unfold scale_nearest, UNIT. destruct (Z.ltb_spec (k - 1074) 0).
    - rewrite <- Z.mul_assoc, <- Z.pow_add_r by lia. replace (k + - (k - 1074)) with 1074 by lia.
      apply div_nearest_even_mul. by apply Z.pow_pos_nonneg.
    - rewrite <- Z.pow_add_r by lia. replace (1074 + (k - 1074)) with k by lia. by apply div_nearest_even_mul. }
  unfold INF. lia.
Qed.

Lemma div_nearest_even_nearest n den k :
  0 < den -> Z.abs (div_nearest_even n den * den - n) <= Z.abs (k * den - n).
Proof.
  intros Hd. unfold div_nearest_even. pose proof (Z.div_mod n den ltac:(lia)) as E. pose proof (Z.mod_pos_bound n den Hd).
  set (q := n / den) in *. set (r := n mod den) in *. clearbody q r. subst n.
  assert (k <= q \/ q + 1 <= k) as [Hk|Hk] by lia.
  - assert (k * den <= q * den) by nia. destruct (_ || _) eqn:Hc; [|lia].
    apply orb_true_iff in Hc as [Hc|Hc]; bsimp; lia.
  - assert ((q + 1) * den <= k * den) by nia. destruct (_ || _) eqn:Hc; [lia|].
    apply orb_false_iff in Hc as [Hc _]; bsimp; lia.
Qed.

(** FLT_MAX in units of 2^-1074. *)
Definition FLT_LARGEST : Z := (2 ^ 24 - 1) * 2 ^ 104 * UNIT.

Lemma float_scaled_double s :
  0 < float_scaled s -> 0 <= s <= FLT_LARGEST -> exists m k, 2 ^ 52 <= m < 2 ^ 53 /\ 0 <= k < 2046 /\ float_scaled s = m * 2 ^ k.
Proof.
  unfold float_scaled. set (u := float_unit s). intros Hpos Hs.
  assert (925 <= u <= 1178 /\ s <= 2 ^ 24 * 2 ^ u) as [Hu Hle].
  { subst u. unfold float_unit. pose proof (Z.log2_nonneg s). split.
    - assert (Z.log2 s <= Z.log2 FLT_LARGEST) by (apply Z.log2_le_mono; lia).
      change (Z.log2 FLT_LARGEST) with 1201 in *. lia.
    - destruct (Z.eq_dec s 0) as [->|]; [apply Z.mul_nonneg_nonneg; [lia|apply Z.pow_nonneg; lia]|].
      destruct (Z.log2_spec s ltac:(lia)) as [_ Hlt]. rewrite <- Z.pow_add_r by lia.
      apply Z.lt_le_incl, (Z.lt_le_trans _ _ _ Hlt), Z.pow_le_mono_r; lia. }
  assert (0 < 2 ^ u) by (apply Z.pow_pos_nonneg; lia).
  pose proof (div_nearest_even_le s (2 ^ u) (2 ^ 24) ltac:(done) Hle) as Hq. set (q := div_nearest_even s (2 ^ u)) in *.
  clearbody q u. assert (0 < q) as Hq0 by nia. pose proof (Z.log2_nonneg q).
  assert (Z.log2 q <= 24) by (change 24 with (Z.log2 (2 ^ 24)); by apply Z.log2_le_mono).
  destruct (Z.log2_spec q Hq0) as [Hlo Hhi]. assert (0 < 2 ^ (52 - Z.log2 q)) by (apply Z.pow_pos_nonneg; lia).
  exists (q * 2 ^ (52 - Z.log2 q)), (u + Z.log2 q - 52). split_and!; [| |lia..|].
  - replace (2 ^ 52) with (2 ^ Z.log2 q * 2 ^ (52 - Z.log2 q)) by (rewrite <- Z.pow_add_r by lia; f_equal; lia). nia.
  - replace (2 ^ 53) with (2 ^ Z.succ (Z.log2 q) * 2 ^ (52 - Z.log2 q)) by (rewrite <- Z.pow_add_r by lia; f_equal; lia). nia.
  - rewrite <- Z.mul_assoc, <- Z.pow_add_r by lia. do 2 f_equal. lia.
Qed.

Lemma double_round_float neg s :
  Z.abs s <= FLT_LARGEST ->
  double_scaled (double_round neg (Z.sgn s * float_scaled (Z.abs s)) UNIT) = Z.sgn s * float_scaled (Z.abs s).
Proof.
  intros Hs. assert (0 <= float_scaled (Z.abs s)) as Hf.
  { assert (0 < 2 ^ float_unit (Z.abs s)) by (apply Z.pow_pos_nonneg; unfold float_unit; lia).
    apply Z.mul_nonneg_nonneg; [apply div_nearest_even_nonneg|]; lia. }
  unfold double_round. destruct (Z.eqb_spec (Z.sgn s * float_scaled (Z.abs s)) 0) as [->|Hne].
  { rewrite double_sign_scaled by (unfold SIGN; lia). by destruct neg. }
  destruct (float_scaled_double (Z.abs s)) as (m & k & Hm & Hk & E); [nia|lia|].
  rewrite Z.abs_mul, (Z.abs_eq (float_scaled _)) by done. set (F := float_scaled (Z.abs s)) in *.
  assert (Z.abs (Z.sgn s) = 1) as -> by lia. rewrite Z.mul_1_l, E, magnitude_round_normal by done.
  rewrite double_sign_scaled, magnitude_scaled_normal, <- E by (done || unfold SIGN; lia).
  destruct (Z.ltb_spec (Z.sgn s * F) 0); nia.
Qed.

(** The conversion to single precision and back is exact on the result, and the
    result is the nearest number that single precision has around the input. *)
Lemma double_of_float_exact d :
  Z.abs (double_scaled d) <= FLT_LARGEST ->
  let s := double_scaled d in
  let f := double_scaled (double_of_float d) in
  f = Z.sgn s * float_scaled (Z.abs s) /\
  forall k, Z.abs (f - s) <= Z.abs (k * 2 ^ float_unit (Z.abs s) - s).
Proof.
  intros Hs. cbn zeta. unfold double_of_float. set (s := double_scaled d) in *. clearbody s.
  assert (0 < 2 ^ float_unit (Z.abs s)) by (apply Z.pow_pos_nonneg; unfold float_unit; lia).
  rewrite double_round_float by done. split; [done|]. intros k. unfold float_scaled.
  pose proof (div_nearest_even_nearest (Z.abs s) (2 ^ float_unit (Z.abs s)) (Z.sgn s * k) ltac:(done)) as Hn.
  destruct (Z.sgn_spec s) as [[? E]|[[? E]|[? E]]]; rewrite E in *; lia.
Qed.

(** " -5x" AS UNSIGNED: 2^64 - 5, cut and complemented. *)
Definition sample_negative : turbodb_value_t := mk_value (TURBODB_VALUE_TEXT (mk_vstr (Some [32; 45; 53; 120]) 4)) 0.
Definition sample_cast : orm_sql_cast := mk_cast (mk_type KIND_TEXT false) (mk_type KIND_UINT64 false) ORM_SQL_CAST_UNSIGNED.

Lemma sample_negative_ok : value_ok sample_negative.
Proof. split; [cbn; lia|]. split; [done|]. repeat constructor; by vm_compute. Qed.

Lemma cast_integer_exact_witness :
  exists b, orm_tidesdb_sql_cast_eval (fun _ => true) Z id Z.mul (Z.pow 10) id 4932 (-4931) (Some sample_cast) (Some sample_negative)
      true true (Some (sample_after [Op_begin])) =
    (Ret (turbodb_u64 (2 ^ 64 - 5), Z.lor ORM_SQL_CAST_TRUNCATED ORM_SQL_CAST_COMPLEMENT), Some b) /\
  spent (sample_after [Op_begin]) 5 b.
Proof.
  pose proof (cast_integer_exact (fun _ => true) Z id Z.mul (Z.pow 10) id 4932 (-4931) (mk_type KIND_TEXT false)
    ORM_SQL_CAST_UNSIGNED sample_cast sample_negative (sample_after [Op_begin]) (or_intror eq_refl) eq_refl sample_begun
    sample_negative_ok eq_refl) as H.
  destruct H as [_ H]. match type of H with charged_outcome _ _ _ _ ?t =>
    assert (exists b, t = (Ret (turbodb_u64 (2 ^ 64 - 5), Z.lor ORM_SQL_CAST_TRUNCATED ORM_SQL_CAST_COMPLEMENT), Some b))
      as [b E] by (eexists; vm_compute; reflexivity)
  end.
  rewrite E in H. exists b. split; [exact E|exact (proj2 H)].
Defined.
