(* ===== verification/Varint.v ===== *)
(** * Scalar codecs of the storage engine (tidesdb/src/compat.h)

    LEB128 integers and little-endian words. A decoder moves a cursor over the
    object [d] up to the position [end_] and ends with NULL ([Err tt]) on
    malformed input; an encoder writes to a buffer at a cursor, and writing
    outside the buffer is a [Fault]. *)

From S2P Require Import Prelude.

(** ** Cursors *)

(** A decoder over a cursor; its only error is a NULL return. *)
Abbreviation cursor A := (M unit Z A) (only parsing).

(** A buffer being filled, and the position of the next byte. *)
Record filling : Type := mk_filling { fl_buffer : bytes; fl_at : Z }.

Abbreviation filler A := (M unit filling A) (only parsing).

(** [*ptr++ = b;] *)
Definition put (b : Z) : filler unit := fun s =>
  match st (fl_buffer s) (fl_at s) b with
  | Some buffer => (Ret tt, mk_filling buffer (fl_at s + 1))
  | None => (Fault, s)
  end.

(** [memcpy(ptr, l, n); ptr += n;] *)
Definition put_bytes (l : bytes) : filler unit := fun s =>
  match stn (fl_buffer s) (fl_at s) l with
  | Some buffer => (Ret tt, mk_filling buffer (fl_at s + len l))
  | None => (Fault, s)
  end.

Section Decode.
Context (d : bytes) (end_ : Z).

(** [if (ptr >= end) return NULL; b = *ptr++;] *)
Definition next_byte : cursor Z :=
  ptr ← gets id;
  fail_if (end_ <=? ptr) tt;;
  b ← access (ld d ptr);
  modify (Z.add 1);;
  mret b.

(** The loop of the bounded decoders, for a result of [w] bits. *)
Fixpoint decode_varint_loop (w : Z) (n : nat) (shift result : Z) : cursor Z :=
  match n with
  | O => fail tt
  | S n =>
      b ← next_byte;
      let result := Z.lor result (Z.shiftl (Z.land b 0x7F) shift mod 2 ^ w) in
      if Z.land b 0x80 =? 0 then mret result else decode_varint_loop w n (shift + 7) result
  end.

Definition VARINT32_MAX_BYTES : nat := 5.
Definition VARINT64_MAX_BYTES : nat := 10.

Definition decode_varint32_safe : cursor Z := decode_varint_loop 32 VARINT32_MAX_BYTES 0 0.
Definition decode_varint64_safe : cursor Z := decode_varint_loop 64 VARINT64_MAX_BYTES 0 0.
End Decode.

(** The loop of the encoders: every round drops seven bits of a word of at most
    64, so ten rounds are enough. *)
Fixpoint encode_varint_loop (fuel : nat) (value : Z) : filler unit :=
  match fuel with
  | O => fail tt
  | S fuel =>
      if 0x80 <=? value then put (u8 (Z.lor value 0x80));; encode_varint_loop fuel (Z.shiftr value 7)
      else put (u8 value)
  end.

Definition encode_varint32 (value : Z) : filler unit := encode_varint_loop VARINT32_MAX_BYTES value.
Definition encode_varint64 (value : Z) : filler unit := encode_varint_loop VARINT64_MAX_BYTES value.

Definition decode_uint32_le_compat (buf : bytes) : option Z :=
  b0 ← ld buf 0; b1 ← ld buf 1; b2 ← ld buf 2; b3 ← ld buf 3;
  Some (Z.lor (Z.lor (Z.lor b0 (Z.shiftl b1 8)) (Z.shiftl b2 16)) (Z.shiftl b3 24)).

(** ** The encoding of a number *)

(** [varint n v]: the digits of [v] in base 128, the low one first, each but the
    last with the high bit; [n] bounds their number. *)
Fixpoint varint (n : nat) (v : Z) : bytes :=
  match n with
  | O => []
  | S n => if v <? 128 then [v] else 128 + v mod 128 :: varint n (v / 128)
  end.

Definition varint32 (v : Z) : bytes := varint VARINT32_MAX_BYTES v.
Definition varint64 (v : Z) : bytes := varint VARINT64_MAX_BYTES v.

Lemma varint_bytes_ok n v : 0 <= v -> bytes_ok (varint n v).
Proof.
  revert v. induction n as [|n IH]; intros v Hv; cbn [varint]; [constructor|].
  destruct (Z.ltb_spec v 128); [by repeat constructor; lia|].
  pose proof (Z.mod_pos_bound v 128). constructor; [lia|]. apply IH, Z.div_pos; lia.
Qed.

Lemma varint_length n v : (length (varint n v) <= n)%nat.
Proof.
  revert v. induction n as [|n IH]; intros v; cbn [varint]; [done|].
  destruct (v <? 128); cbn [length]; [lia|]. pose proof (IH (v / 128)). lia.
Qed.

Lemma varint_not_nil n v : n <> O -> varint n v <> [].
Proof. destruct n; [done|]. cbn [varint]. by destruct (v <? 128). Qed.

(** ** Writing *)

(** [m] writes exactly [l] at the cursor. *)
Definition writes (m : filler unit) (l : bytes) : Prop :=
  forall buffer p, 0 <= p -> p + len l <= len buffer ->
    m (mk_filling buffer p) = (Ret tt, mk_filling (splice buffer p l) (p + len l)).

Lemma filler_bind m1 m2 l1 l2 : writes m1 l1 -> writes m2 l2 -> writes (m1;; m2) (l1 ++ l2).
Proof.
  intros H1 H2 buffer p Hp Hl. rewrite length_app, Nat2Z.inj_add in *.
  unfold mbind, M_bind. rewrite H1, H2 by (rewrite ?length_splice; lia).
  rewrite splice_app by lia. do 2 f_equal. lia.
Qed.

Lemma filler_ret : writes (mret tt) [].
Proof. intros buffer p Hp Hl. cbn. by rewrite splice_nil, Z.add_0_r. Qed.

Lemma writes_put b : writes (put b) [b].
Proof. intros buffer p Hp Hl. unfold put. cbn in *. by rewrite st_splice by lia. Qed.

Lemma filler_put_bytes l : writes (put_bytes l) l.
Proof. intros buffer p Hp Hl. unfold put_bytes. cbn. by rewrite stn_Some by lia. Qed.

Lemma filler_when c m l : writes m l -> writes (when c m) (if c then l else []).
Proof. destruct c; [done|]. intros _. apply filler_ret. Qed.

Lemma writes_eq m l l' : writes m l -> l = l' -> writes m l'.
Proof. by intros ? <-. Qed.

Lemma lor_128 v : 128 <= v -> u8 (Z.lor v 128) = 128 + v mod 128.
Proof.
  intros Hv. unfold u8. rewrite <- (Z.land_ones _ 8) by lia. rewrite Z.land_lor_distr_l.
  change (Z.land 128 (Z.ones 8)) with 128. rewrite Z.land_ones by lia.
  assert (v mod 2 ^ 8 = v mod 128 + v / 128 mod 2 * 128) as ->.
  { change (2 ^ 8) with (128 * 2). rewrite Z.rem_mul_r by lia. lia. }
  pose proof (Z.mod_pos_bound v 128). pose proof (Z.mod_pos_bound (v / 128) 2).
  assert (v / 128 mod 2 = 0 \/ v / 128 mod 2 = 1) as [-> | ->] by lia.
  - rewrite Z.add_0_r. pose proof (lor_shiftl_add (v mod 128) 1 7 ltac:(lia) ltac:(lia)) as E.
    change (Z.shiftl 1 7) with 128 in E. rewrite E. lia.
  - pose proof (lor_shiftl_add (v mod 128) 1 7 ltac:(lia) ltac:(lia)) as E. change (2 ^ 7) with 128 in E.
    rewrite <- E, <- Z.lor_assoc. change (Z.lor (Z.shiftl 1 7) 128) with (Z.shiftl 1 7). rewrite E. lia.
Qed.

Lemma writes_varint_loop n v : n <> O -> 0 <= v < 128 ^ Z.of_nat n -> writes (encode_varint_loop n v) (varint n v).
Proof.
  revert v. induction n as [|n IH]; intros v Hn Hv; [done|]. cbn [encode_varint_loop varint].
  rewrite Z.shiftr_div_pow2 by lia. change (2 ^ 7) with 128.
  destruct (Z.leb_spec 0x80 v), (Z.ltb_spec v 128); try lia.
  - rewrite lor_128 by lia. apply (filler_bind _ _ [_]); [apply writes_put|]. apply IH.
    + intros ->. change (128 ^ Z.of_nat 1) with 128 in Hv. lia.
    + rewrite Nat2Z.inj_succ, Z.pow_succ_r in Hv by lia. split; [apply Z.div_pos; lia|]. apply Z.div_lt_upper_bound; lia.
  - rewrite u8_small by lia. apply writes_put.
Qed.

Lemma writes_varint32 v : 0 <= v < 2 ^ 32 -> writes (encode_varint32 v) (varint32 v).
Proof. intros. apply writes_varint_loop; [done|]. change (128 ^ Z.of_nat VARINT32_MAX_BYTES) with (2 ^ 35). lia. Qed.

Lemma writes_varint64 v : 0 <= v < 2 ^ 64 -> writes (encode_varint64 v) (varint64 v).
Proof. intros. apply writes_varint_loop; [done|]. change (128 ^ Z.of_nat VARINT64_MAX_BYTES) with (2 ^ 70). lia. Qed.

(** ** Reading *)

Section Reading.
Context (d : bytes) (end_ : Z).

(** [m] reads exactly [l] at the cursor and gives [a]. *)
Definition scans {A} (m : cursor A) (l : bytes) (a : A) : Prop :=
  forall off rest, suffix_at d off (l ++ rest) -> off + len l <= end_ -> m off = (Ret a, off + len l).

Lemma scans_ret {A} (a : A) : scans (mret a) [] a.
Proof. intros off rest H Hl. cbn. by rewrite Z.add_0_r. Qed.

Lemma scans_bind {A B} (m : cursor A) (k : A -> cursor B) l1 l2 a b :
  scans m l1 a -> scans (k a) l2 b -> scans (m ≫= k) (l1 ++ l2) b.
Proof.
  intros H1 H2 off rest Hs Hl. rewrite length_app, Nat2Z.inj_add in *. rewrite <- app_assoc in Hs.
  unfold mbind, M_bind. rewrite (H1 off _ Hs) by lia.
  rewrite (H2 _ rest (suffix_at_app _ _ _ _ Hs)) by lia. f_equal. lia.
Qed.

Lemma scans_next_byte b : scans (next_byte d end_) [b] b.
Proof.
  intros off rest Hs Hl. unfold next_byte. cbn in Hl, Hs. unfold mbind, M_bind, gets, fail_if, modify, access. cbn [id].
  rewrite (proj2 (Z.leb_gt _ _)) by lia. rewrite (suffix_at_ld _ _ _ _ Hs). cbn. f_equal. lia.
Qed.

Lemma scans_fail_if {A} c (m : cursor A) l a : c = false -> scans m l a -> scans (fail_if c tt;; m) l a.
Proof. intros -> H off rest Hs Hl. exact (H off rest Hs Hl). Qed.

(** A decoder over bytes: the cursor stays in bounds and the result is as [P] says. *)
Definition yields {A} (m : cursor A) (P : A -> Prop) : Prop :=
  forall off, 0 <= off <= end_ -> end_ <= len d -> bytes_ok d ->
    wp m (fun a off' => off <= off' <= end_ /\ P a) (fun _ _ => True) off.

Lemma yields_ret {A} (a : A) (P : A -> Prop) : P a -> yields (mret a) P.
Proof. intros HP off Ho He Hd. wp_step. split; [lia|done]. Qed.

Lemma yields_fail {A} (P : A -> Prop) : yields (fail tt) P.
Proof. done. Qed.

Lemma yields_bind {A B} (m : cursor A) (k : A -> cursor B) P Q :
  yields m P -> (forall a, P a -> yields (k a) Q) -> yields (m ≫= k) Q.
Proof.
  intros H1 H2 off Ho He Hd. wp_step. eapply wp_mono; [by apply H1| |done].
  cbn. intros a off' [Hoff HP]. eapply wp_mono; [by apply H2; [|lia|..]| |done]. cbn. intros; split; [lia|tauto].
Qed.

Lemma yields_fail_if c : yields (fail_if c tt) (fun _ => c = false).
Proof. intros off Ho He Hd. wp_step; [done|]. split; [lia|]. by destruct c. Qed.

Lemma yields_byte : yields (next_byte d end_) (fun b => 0 <= b < 256).
Proof.
  intros off Ho He Hd. unfold next_byte. wp_step. wp_step. cbn [id]. wp_step. wp_step; [done|]. bsimp.
  wp_step. apply wp_access; [apply ld_is_Some; lia|]. intros b Hb. wp_step. wp_step. wp_step. split; [lia|]. eauto using ld_byte.
Qed.

Lemma yields_varint_loop w n shift result :
  0 <= w -> 0 <= shift -> 0 <= result < 2 ^ w ->
  yields (decode_varint_loop d end_ w n shift result) (fun v => 0 <= v < 2 ^ w).
Proof.
  intros Hw. revert shift result. induction n as [|n IH]; intros shift result Hs Hr; cbn [decode_varint_loop]; [done|].
  eapply yields_bind; [apply yields_byte|]. cbn beta. intros b Hb. assert (0 < 2 ^ w) by (apply Z.pow_pos_nonneg; lia).
  pose proof (lor_range result (Z.shiftl (Z.land b 0x7F) shift mod 2 ^ w) w Hw Hr ltac:(apply Z.mod_pos_bound; lia)).
  destruct (_ =? 0); [by apply yields_ret|apply IH; lia || done].
Qed.

Lemma yields_varint32 : yields (decode_varint32_safe d end_) (fun v => 0 <= v < 2 ^ 32).
Proof. by apply yields_varint_loop. Qed.

Lemma yields_varint64 : yields (decode_varint64_safe d end_) (fun v => 0 <= v < 2 ^ 64).
Proof. by apply yields_varint_loop. Qed.

Lemma land_high b : 0 <= b < 256 -> (Z.land b 0x80 =? 0) = (b <? 128) /\ Z.land b 0x7F = b mod 128.
Proof.
  intros Hb. change 0x7F with (Z.ones 7). rewrite Z.land_ones by lia. split; [|done].
  change 0x80 with (2 ^ 7). rewrite land_pow2 by lia. rewrite Z.testbit_odd, Z.shiftr_div_pow2 by lia. change (2 ^ 7) with 128.
  destruct (Z.ltb_spec b 128).
  - by rewrite Z.div_small by lia.
  - replace (b / 128) with 1; [done|]. apply (Z.div_unique b 128 1 (b - 128)); lia.
Qed.

Lemma scans_varint_loop w n shift result v :
  n <> O -> 0 <= shift -> 0 <= result < 2 ^ shift -> 0 <= v < 128 ^ Z.of_nat n -> v * 2 ^ shift < 2 ^ w -> 0 <= w ->
  scans (decode_varint_loop d end_ w n shift result) (varint n v) (result + v * 2 ^ shift).
Proof.
  revert shift result v. induction n as [|n IH]; intros shift result v Hn Hs Hr Hv Hw Hw0; [done|].
  cbn [decode_varint_loop varint].
  assert (0 < 2 ^ shift) by (apply Z.pow_pos_nonneg; lia). pose proof (Z.mod_pos_bound v 128 ltac:(lia)).
  pose proof (Z.div_mod v 128 ltac:(lia)). pose proof (Z.div_pos v 128 ltac:(lia) ltac:(lia)).
  assert (forall x, 0 <= x <= v -> Z.lor result (Z.shiftl x shift mod 2 ^ w) = result + x * 2 ^ shift) as Hor.
  { intros x Hx. rewrite Z.mod_small by (rewrite Z.shiftl_mul_pow2 by lia; nia). by apply lor_shiftl_add. }
  destruct (Z.ltb_spec v 128).
  - apply (scans_bind _ _ [v] []  v); [apply scans_next_byte|]. destruct (land_high v ltac:(lia)) as [-> ->].
    rewrite (proj2 (Z.ltb_lt v 128)) by lia. rewrite (Z.mod_small v 128), Hor by lia. apply scans_ret.
  - eapply (scans_bind _ _ [_]); [apply scans_next_byte|].
    destruct (land_high (128 + v mod 128) ltac:(lia)) as [-> ->]. rewrite (proj2 (Z.ltb_ge _ _)) by lia.
    assert ((128 + v mod 128) mod 128 = v mod 128) as -> by (rewrite <- (Z.mod_mod v 128) at 2 by lia; rewrite Z.add_comm; apply (Z.mod_add (v mod 128) 1 128); lia).
    rewrite Hor by lia.
    replace (result + v * 2 ^ shift) with (result + v mod 128 * 2 ^ shift + v / 128 * 2 ^ (shift + 7)).
    2:{ rewrite Z.pow_add_r by lia. change (2 ^ 7) with 128. lia. }
    assert (n <> O) by (intros ->; change (128 ^ Z.of_nat 1) with 128 in Hv; lia).
    rewrite Nat2Z.inj_succ, Z.pow_succ_r in Hv by lia.
    apply IH; [done|lia| |split; [done|apply Z.div_lt_upper_bound; lia]| |done];
      rewrite Z.pow_add_r by lia; change (2 ^ 7) with 128; nia.
Qed.

Lemma scans_varint32 v : 0 <= v < 2 ^ 32 -> scans (decode_varint32_safe d end_) (varint32 v) v.
Proof.
  intros Hv. assert (0 + v * 2 ^ 0 = v) as E by lia. unfold varint32. rewrite <- E at 2.
  apply scans_varint_loop; [done|lia|lia| |lia|lia]. change (128 ^ Z.of_nat VARINT32_MAX_BYTES) with (2 ^ 35). lia.
Qed.

Lemma scans_varint64 v : 0 <= v < 2 ^ 64 -> scans (decode_varint64_safe d end_) (varint64 v) v.
Proof.
  intros Hv. assert (0 + v * 2 ^ 0 = v) as E by lia. unfold varint64. rewrite <- E at 2.
  apply scans_varint_loop; [done|lia|lia| |lia|lia]. change (128 ^ Z.of_nat VARINT64_MAX_BYTES) with (2 ^ 70). lia.
Qed.
End Reading.

#[export] Hint Resolve yields_fail yields_fail_if yields_byte yields_varint32 yields_varint64 : wp.
