(* ===== verification/Bloom.v ===== *)
(** * Bloom filters of the storage engine (tidesdb/src/bloom_filter.c, bloom_filter.h)

    A packed bit set queried through two hashes. The bit set is a list of 64-bit
    words; an index outside it is undefined. malloc is a parameter: the object it
    returns, or [None] when it fails; calloc zeroes it. *)

From S2P Require Import Prelude Row Command Float Varint.

(** ** Data *)

Record bloom_filter_t : Type := mk_bloom {
  bf_bitset : list Z;
  bf_m : Z;
  bf_h : Z;
  bf_size_in_words : Z;
  bf_hash_version : Z
}.

Definition BF_BITS_PER_WORD : Z := 64.
Definition BF_HASH_PRIME : Z := 0xc6a4a793.
Definition BF_HASH_VERSION_LEGACY : Z := 1.
Definition BF_HASH_VERSION_CURRENT : Z := 2.
Definition BF_SERIALIZE_VERSION_SENTINEL : Z := 0x00.
Definition BF_SERIALIZE_VERSION_BYTES : Z := 2.
Definition BF_FORMAT_HASH_VERSION (b : Z) : Z := Z.land b 0x0F.
Definition BF_FORMAT_ENCODING (b : Z) : Z := Z.shiftr b 4.
Definition BF_MAKE_FORMAT_BYTE (enc ver : Z) : Z := u8 (Z.lor (Z.shiftl enc 4) (Z.land ver 0x0F)).
Definition BF_ENCODING_SPARSE : Z := 0.
Definition BF_ENCODING_DENSE : Z := 1.
Definition BF_MAX_HASH_FUNCTIONS : Z := 100.
Definition BF_DENSE_WORD_BYTES : Z := 8.

Definition BF_SET_BIT (bitset : list Z) (bit : Z) : option (list Z) :=
  let i := Z.to_nat (bit / BF_BITS_PER_WORD) in
  w ← bitset !! i; Some (<[i := Z.lor w (Z.shiftl 1 (bit mod BF_BITS_PER_WORD))]> bitset).

Definition BF_GET_BIT (bitset : list Z) (bit : Z) : option Z :=
  w ← bitset !! Z.to_nat (bit / BF_BITS_PER_WORD);
  Some (Z.land (Z.shiftr w (bit mod BF_BITS_PER_WORD)) 1).

(** ** Hashes *)

Definition bf_fast_range (hash range : Z) : Z := u32 (Z.shiftr (hash * range) 32).

(** [h += w; h *= prime; h ^= (h >> 16);] *)
Definition bf_mix (w h : Z) : Z :=
  let h := u32 (u32 (h + w) * BF_HASH_PRIME) in
  Z.lxor h (Z.shiftr h 16).

(** Four bytes as decode_uint32_le_compat reads them. *)
Definition word_le (a b c d : Z) : Z := Z.lor (Z.lor (Z.lor a (Z.shiftl b 8)) (Z.shiftl c 16)) (Z.shiftl d 24).

(** The loop over eight bytes at a time: what is left, and the hash. *)
Fixpoint bf_hash_loop (entry : bytes) (h : Z) : bytes * Z :=
  match entry with
  | a :: b :: c :: d :: a' :: b' :: c' :: d' :: rest =>
      bf_hash_loop rest (bf_mix (word_le a' b' c' d') (bf_mix (word_le a b c d) h))
  | _ => (entry, h)
  end.

Definition bf_hash_four (entry : bytes) (h : Z) : bytes * Z :=
  match entry with
  | a :: b :: c :: d :: rest => (rest, bf_mix (word_le a b c d) h)
  | _ => (entry, h)
  end.

(** The switch on the last bytes. *)
Definition bf_hash_tail (entry : bytes) (h : Z) : Z :=
  let finish h := let h := u32 (h * BF_HASH_PRIME) in Z.lxor h (Z.shiftr h 24) in
  match entry with
  | [a; b; c] => finish (u32 (u32 (u32 (h + Z.shiftl c 16) + Z.shiftl b 8) + a))
  | [a; b] => finish (u32 (u32 (h + Z.shiftl b 8) + a))
  | [a] => finish (u32 (h + a))
  | _ => h
  end.

Definition bf_hash_inline (entry : bytes) (seed : Z) : Z :=
  let h := Z.lxor seed (u32 (u32 (len entry) * BF_HASH_PRIME)) in
  let '(entry, h) := bf_hash_loop entry h in
  let '(entry, h) := bf_hash_four entry h in
  bf_hash_tail entry h.

Definition bf_fmix32 (h : Z) : Z :=
  let h := Z.lxor h (Z.shiftr h 16) in
  let h := u32 (h * 0x85ebca6b) in
  let h := Z.lxor h (Z.shiftr h 13) in
  let h := u32 (h * 0xc2b2ae35) in
  Z.lxor h (Z.shiftr h 16).

Definition bf_hash_v2_inline (entry : bytes) (seed : Z) : Z := bf_fmix32 (bf_hash_inline entry seed).

Definition bf_derive_hashes (bf : bloom_filter_t) (entry : bytes) : Z * Z :=
  if BF_HASH_VERSION_CURRENT <=? bf_hash_version bf
  then (bf_hash_v2_inline entry 0, bf_hash_v2_inline entry 1)
  else (bf_hash_inline entry 0, bf_hash_inline entry 1).

Definition bloom_filter_hash (entry : ptr bytes) (size seed : Z) : option Z :=
  match entry with
  | None => Some 0
  | Some d => if size =? 0 then Some 0 else key ← ldn d 0 size; Some (bf_hash_inline key (u32 seed))
  end.

(** ** Insertion and query *)

(** The bit of the [i]-th probe. *)
Definition bf_index (h1 h2 m i : Z) : Z := bf_fast_range (u32 (h1 + u32 (i * h2))) m.

Fixpoint bf_add_loop (n : nat) (i h1 h2 m : Z) (bitset : list Z) : option (list Z) :=
  match n with
  | O => Some bitset
  | S n => bitset ← BF_SET_BIT bitset (bf_index h1 h2 m i); bf_add_loop n (i + 1) h1 h2 m bitset
  end.

(** The filter after the call; [None] is an access outside an object. *)
Definition bloom_filter_add (bf : ptr bloom_filter_t) (entry : ptr bytes) (size : Z) : option (ptr bloom_filter_t) :=
  match bf, entry with
  | Some f, Some d =>
      if size =? 0 then Some bf
      else
        key ← ldn d 0 size;
        let '(h1, h2) := bf_derive_hashes f key in
        bitset ← bf_add_loop (Z.to_nat (bf_h f)) 0 h1 h2 (bf_m f) (bf_bitset f);
        Some (Some (mk_bloom bitset (bf_m f) (bf_h f) (bf_size_in_words f) (bf_hash_version f)))
  | _, _ => Some bf
  end.

Fixpoint bf_contains_loop (n : nat) (i h1 h2 m : Z) (bitset : list Z) : option Z :=
  match n with
  | O => Some 1
  | S n =>
      bit ← BF_GET_BIT bitset (bf_index h1 h2 m i);
      if bit =? 0 then Some 0 else bf_contains_loop n (i + 1) h1 h2 m bitset
  end.

Definition bloom_filter_contains (bf : ptr bloom_filter_t) (entry : ptr bytes) (size : Z) : option Z :=
  match bf, entry with
  | Some f, Some d =>
      if size =? 0 then Some (-1)
      else
        key ← ldn d 0 size;
        let '(h1, h2) := bf_derive_hashes f key in
        bf_contains_loop (Z.to_nat (bf_h f)) 0 h1 h2 (bf_m f) (bf_bitset f)
  | _, _ => Some (-1)
  end.

(** The words the loops over the bit set visit. *)
Definition bf_words (f : bloom_filter_t) : option (list Z) :=
  if bf_size_in_words f <=? len (bf_bitset f) then Some (take (Z.to_nat (bf_size_in_words f)) (bf_bitset f)) else None.

(** The bit set of a filter is a list, so that the test for a missing one has no
    counterpart. *)
Definition bloom_filter_is_full (bf : ptr bloom_filter_t) : option Z :=
  match bf with
  | None => Some (-1)
  | Some f =>
      if bf_size_in_words f =? 0 then Some (-1)
      else
        words ← bf_words f;
        let last := Z.to_nat (bf_size_in_words f - 1) in
        if negb (forallb (fun w => w =? UINT64_MAX) (take last words)) then Some 0
        else
          w ← words !! last;
          let remaining_bits := bf_m f mod BF_BITS_PER_WORD in
          if remaining_bits =? 0 then Some (if w =? UINT64_MAX then 1 else 0)
          else
            let mask := Z.shiftl 1 remaining_bits - 1 in
            Some (if Z.land w mask =? mask then 1 else 0)
  end.

(** ** Serialisation *)

(** The loop of bf_varint32_len and bf_varint64_len. *)
Fixpoint varint_len_loop (fuel : nat) (v : Z) : Z :=
  match fuel with
  | O => 0
  | S fuel => if 0x80 <=? v then 1 + varint_len_loop fuel (Z.shiftr v 7) else 1
  end.
Definition bf_varint32_len (v : Z) : Z := varint_len_loop VARINT32_MAX_BYTES v.
Definition bf_varint64_len (v : Z) : Z := varint_len_loop VARINT64_MAX_BYTES v.

(** The loop of bf_put_u64le from byte [i]. *)
Fixpoint put_u64le_loop (n : nat) (i v : Z) : filler unit :=
  match n with
  | O => mret tt
  | S n => put (u8 (Z.shiftr v (8 * i)));; put_u64le_loop n (i + 1) v
  end.
Definition bf_put_u64le (v : Z) : filler unit := put_u64le_loop (Z.to_nat BF_DENSE_WORD_BYTES) 0 v.

(** The first loop: the words that are not zero, and the bytes they take. *)
Fixpoint sparse_measure (words : list Z) (i count body : Z) : Z * Z :=
  match words with
  | [] => (count, body)
  | w :: words =>
      if negb (w =? 0) then sparse_measure words (i + 1) (count + 1) (body + (bf_varint32_len i + bf_varint64_len w))
      else sparse_measure words (i + 1) count body
  end.

Fixpoint put_dense (words : list Z) : filler unit :=
  match words with
  | [] => mret tt
  | w :: words => bf_put_u64le w;; put_dense words
  end.

Fixpoint put_sparse (words : list Z) (i : Z) : filler unit :=
  match words with
  | [] => mret tt
  | w :: words => when (negb (w =? 0)) (encode_varint32 i;; encode_varint64 w);; put_sparse words (i + 1)
  end.

Section Allocation.
(** malloc(n): an object of [n] bytes, or NULL. *)
Context (malloc : Z -> option bytes).

(** calloc(count, size): the zeroed words of the object. *)
Definition calloc_words (count : Z) : option (list Z) :=
  match malloc (count * 8) with Some _ => Some (replicate (Z.to_nat count) 0) | None => None end.

Definition SIZEOF_BLOOM_FILTER : Z := 24.

(** The buffer with its size, [Err tt] for NULL. *)
Definition bloom_filter_serialize (bf : ptr bloom_filter_t) : outcome unit (bytes * Z) :=
  match bf with
  | None => Err tt
  | Some f =>
      match bf_words f with
      | None => Fault
      | Some words =>
          let '(non_zero_count, sparse) := sparse_measure words 0 0 0 in
          let sparse_body := sparse + bf_varint32_len non_zero_count in
          let dense_body := bf_size_in_words f * BF_DENSE_WORD_BYTES in
          let encoding := if dense_body <? sparse_body then BF_ENCODING_DENSE else BF_ENCODING_SPARSE in
          let versioned := (BF_HASH_VERSION_LEGACY <? bf_hash_version f) || negb (encoding =? BF_ENCODING_SPARSE) in
          let total := bf_varint32_len (bf_m f) + bf_varint32_len (bf_h f) +
            (if versioned then BF_SERIALIZE_VERSION_BYTES else 0) +
            (if encoding =? BF_ENCODING_DENSE then dense_body else sparse_body) in
          match malloc total with
          | None => Err tt
          | Some buffer =>
              match (
                when versioned (
                  put BF_SERIALIZE_VERSION_SENTINEL;;
                  put (BF_MAKE_FORMAT_BYTE encoding (bf_hash_version f)));;
                encode_varint32 (bf_m f);;
                encode_varint32 (bf_h f);;
                if encoding =? BF_ENCODING_DENSE then put_dense words
                else encode_varint32 non_zero_count;; put_sparse words 0) (mk_filling buffer 0) with
              | (Ret _, s) => Ret (fl_buffer s, fl_at s)
              | (Err e, _) => Err e
              | (Fault, _) => Fault
              end
          end
      end
  end.

Section Read.
Context (d : bytes) (end_ : Z).

(** [*ptr++], without a test. *)
Definition read_byte : cursor Z :=
  ptr ← gets id; b ← access (ld d ptr); modify (Z.add 1);; mret b.

(** The loop over the bytes of a dense word. *)
Fixpoint read_word (n : nat) (j value : Z) : cursor Z :=
  match n with
  | O => mret value
  | S n => b ← read_byte; read_word n (j + 1) (Z.lor value (u64 (Z.shiftl b (8 * j))))
  end.

Fixpoint read_dense (n : nat) : cursor (list Z) :=
  match n with
  | O => mret []
  | S n => w ← read_word (Z.to_nat BF_DENSE_WORD_BYTES) 0 0; words ← read_dense n; mret (w :: words)
  end.

Fixpoint read_sparse (n : nat) (size_in_words : Z) (bitset : list Z) : cursor (list Z) :=
  match n with
  | O => mret bitset
  | S n =>
      index ← decode_varint32_safe d end_;
      value ← decode_varint64_safe d end_;
      fail_if (size_in_words <=? index) tt;;
      bitset ← access (if index <? len bitset then Some (<[Z.to_nat index := value]> bitset) else None);
      read_sparse n size_in_words bitset
  end.

(** The version prefix: the hash version and the encoding. *)
Definition read_version : cursor (Z * Z) :=
  first ← access (ld d 0);
  if first =? BF_SERIALIZE_VERSION_SENTINEL then
    fail_if (end_ <? BF_SERIALIZE_VERSION_BYTES) tt;;
    modify (Z.add 1);;
    format ← read_byte;
    let hash_version := BF_FORMAT_HASH_VERSION format in
    let encoding := BF_FORMAT_ENCODING format in
    fail_if ((hash_version <? BF_HASH_VERSION_LEGACY) || (BF_HASH_VERSION_CURRENT <? hash_version)) tt;;
    fail_if (negb (encoding =? BF_ENCODING_SPARSE) && negb (encoding =? BF_ENCODING_DENSE)) tt;;
    mret (hash_version, encoding)
  else mret (BF_HASH_VERSION_LEGACY, BF_ENCODING_SPARSE).

Definition read_filter : cursor bloom_filter_t :=
  '(hash_version, encoding) ← read_version;
  m ← decode_varint32_safe d end_;
  h ← decode_varint32_safe d end_;
  fail_if ((m =? 0) || (h =? 0) || (BF_MAX_HASH_FUNCTIONS <? h)) tt;;
  fail_if (UINT32_MAX - BF_BITS_PER_WORD <? m) tt;;
  let size_in_words := (m + BF_BITS_PER_WORD - 1) / BF_BITS_PER_WORD in
  match calloc_words size_in_words with
  | None => fail tt
  | Some bitset =>
      bitset ← (
        if encoding =? BF_ENCODING_DENSE then
          ptr ← gets id;
          fail_if (end_ - ptr <? size_in_words * BF_DENSE_WORD_BYTES) tt;;
          read_dense (Z.to_nat size_in_words)
        else
          non_zero_count ← decode_varint32_safe d end_;
          fail_if (size_in_words <? non_zero_count) tt;;
          read_sparse (Z.to_nat non_zero_count) size_in_words bitset);
      match malloc SIZEOF_BLOOM_FILTER with
      | None => fail tt
      | Some _ => mret (mk_bloom bitset m h size_in_words hash_version)
      end
  end.
End Read.

Definition bloom_filter_deserialize (data : ptr bytes) (length : Z) : outcome unit bloom_filter_t :=
  match data with
  | None => Err tt
  | Some d => if length =? 0 then Err tt else (read_filter d length 0).1
  end.

(** ** Construction *)

(** log of the C library, on the patterns of doubles. *)
Context (log : Z -> Z).

Definition M_LN2 : Z := 0x3FE62E42FEFA39EF.

(** A conversion to unsigned int; outside the type it is undefined. *)
Definition u32_of_double (x : Z) : option Z :=
  if isfinite x then let n := integer_of_double x in if (0 <=? n) && (n <=? UINT32_MAX) then Some n else None else None.

Definition bloom_filter_new (p n : Z) : outcome unit bloom_filter_t :=
  let one := double_of_integer 1 in
  if negb (isfinite p) || double_le p 0 || double_le one p || (n <=? 0) then Err tt
  else match malloc SIZEOF_BLOOM_FILTER with
  | None => Err tt
  | Some _ =>
      let m_double := double_ceil (double_div (double_mul (double_neg (double_of_integer n)) (log p)) (double_mul M_LN2 M_LN2)) in
      if double_le m_double 0 || double_lt (double_of_integer UINT32_MAX) m_double then Err tt
      else match u32_of_double m_double with
      | None => Fault
      | Some m =>
          let h_double := double_ceil (double_mul (double_div (double_of_integer m) (double_of_integer n)) M_LN2) in
          if double_lt (double_of_integer BF_MAX_HASH_FUNCTIONS) h_double then Err tt
          else match u32_of_double h_double with
          | None => Fault
          | Some h =>
              let size_in_words := u32 (m + BF_BITS_PER_WORD - 1) / BF_BITS_PER_WORD in
              if (size_in_words =? 0) || (UINT32_MAX / 8 <? size_in_words) then Err tt
              else match calloc_words size_in_words with
              | None => Err tt
              | Some bitset => Ret (mk_bloom bitset m h size_in_words BF_HASH_VERSION_CURRENT)
              end
          end
      end
  end.
End Allocation.

(** ** The set of bits *)

(** Bit [b] of a packed bit set. *)
Definition bit_at (bitset : list Z) (b : Z) : bool :=
  Z.testbit (nth (Z.to_nat (b / 64)) bitset 0) (b mod 64).

Definition words_ok (bitset : list Z) : Prop := Forall (fun w => 0 <= w < 2 ^ 64) bitset.

(** A filter as the constructors make it. *)
Record filter_ok (f : bloom_filter_t) : Prop := {
  fo_m : 1 <= bf_m f < 2 ^ 32;
  fo_h : 0 <= bf_h f < 2 ^ 32;
  fo_words : bf_size_in_words f = (bf_m f + 63) / 64;
  fo_length : len (bf_bitset f) = bf_size_in_words f;
  fo_range : words_ok (bf_bitset f)
}.

Lemma bit_word b n : 0 <= b < 64 * n -> 0 <= b / 64 < n /\ 0 <= b mod 64 < 64 /\ b = 64 * (b / 64) + b mod 64.
Proof. intros Hb. pose proof (Z.mod_pos_bound b 64). pose proof (Z.div_mod b 64). split_and!; lia. Qed.

Lemma nth_word bitset b :
  0 <= b < 64 * len bitset -> bitset !! Z.to_nat (b / 64) = Some (nth (Z.to_nat (b / 64)) bitset 0).
Proof.
  intros Hb. destruct (bit_word b _ Hb) as [Hq _].
  destruct (nth_lookup_or_length bitset (Z.to_nat (b / 64)) 0) as [|Hl]; [done|]. lia.
Qed.

Lemma get_bit bitset b :
  0 <= b < 64 * len bitset -> BF_GET_BIT bitset b = Some (if bit_at bitset b then 1 else 0).
Proof.
  intros Hb. unfold BF_GET_BIT, BF_BITS_PER_WORD, bit_at. rewrite nth_word by done. cbn. f_equal.
  pose proof (Z.mod_pos_bound b 64 ltac:(lia)). rewrite (Z.land_ones _ 1) by lia. rewrite Z.shiftr_div_pow2 by lia.
  rewrite Z.testbit_odd, Z.shiftr_div_pow2 by lia. rewrite Zmod_odd. by destruct (Z.odd _).
Qed.

(** The bits after one more is set. *)
Lemma set_bit bitset b :
  0 <= b < 64 * len bitset ->
  exists bitset', BF_SET_BIT bitset b = Some bitset' /\ length bitset' = length bitset /\
    (words_ok bitset -> words_ok bitset') /\
    forall c, 0 <= c -> bit_at bitset' c = bit_at bitset c || (b =? c).
Proof.
  intros Hb. unfold BF_SET_BIT, BF_BITS_PER_WORD. pose proof (nth_word bitset b Hb) as Hw. rewrite Hw. cbn.
  destruct (bit_word b _ Hb) as (Hq & Hr & E). eexists. split; [done|]. split; [apply length_insert|]. split.
  - intros Hok. apply Forall_insert; [done|]. pose proof (Forall_lookup_1 _ _ _ _ Hok Hw) as Hrange. cbn in Hrange.
    apply lor_range; [lia|done|]. rewrite Z.shiftl_mul_pow2, Z.mul_1_l by lia.
    split; [apply Z.pow_nonneg; lia|]. apply Z.pow_lt_mono_r; lia.
  - intros c Hc. unfold bit_at. rewrite !nth_lookup. pose proof (Z.mod_pos_bound c 64 ltac:(lia)) as Hrc.
    pose proof (Z.div_mod c 64 ltac:(lia)) as Ec. pose proof (Z.div_pos c 64 ltac:(lia) ltac:(lia)).
    destruct (Z.eq_dec (b / 64) (c / 64)) as [Eq|Hne].
    + rewrite <- Eq, list_lookup_insert_eq by (apply lookup_lt_Some in Hw; done). rewrite Hw. cbn [default from_option id].
      rewrite Z.lor_spec, Z.shiftl_mul_pow2, Z.mul_1_l, Z.pow2_bits_eqb by lia. f_equal.
      destruct (Z.eqb_spec b c), (Z.eqb_spec (b mod 64) (c mod 64)); lia.
    + rewrite list_lookup_insert_ne by lia. destruct (Z.eqb_spec b c); [congruence|]. by rewrite orb_false_r.
Qed.

(** ** The probes of a key *)

Lemma index_range h1 h2 m i : 0 <= m < 2 ^ 32 -> m = 0 \/ 0 <= bf_index h1 h2 m i < m.
Proof.
  intros Hm. unfold bf_index, bf_fast_range. set (x := u32 (h1 + u32 (i * h2))). assert (0 <= x < 2 ^ 32) as Hx by apply u32_range.
  rewrite Z.shiftr_div_pow2 by lia. destruct (Z.eq_dec m 0); [by left|right].
  assert (0 <= x * m / 2 ^ 32 < m) as Hr by (split; [apply Z.div_pos|apply Z.div_lt_upper_bound]; nia).
  by rewrite u32_small by lia.
Qed.

(** The bits the probes [i], ..., [i + n - 1] visit. *)
Fixpoint probes_from (n : nat) (i h1 h2 m : Z) : list Z :=
  match n with
  | O => []
  | S n => bf_index h1 h2 m i :: probes_from n (i + 1) h1 h2 m
  end.

Definition probes (f : bloom_filter_t) (key : bytes) : list Z :=
  let '(h1, h2) := bf_derive_hashes f key in probes_from (Z.to_nat (bf_h f)) 0 h1 h2 (bf_m f).

Lemma add_loop_bits n i h1 h2 m bitset :
  0 < m < 2 ^ 32 -> m <= 64 * len bitset ->
  exists bitset', bf_add_loop n i h1 h2 m bitset = Some bitset' /\ length bitset' = length bitset /\
    (words_ok bitset -> words_ok bitset') /\
    forall c, 0 <= c -> bit_at bitset' c = bit_at bitset c || bool_decide (c ∈ probes_from n i h1 h2 m).
Proof.
  revert i bitset. induction n as [|n IH]; intros i bitset Hm Hl; cbn [bf_add_loop probes_from].
  { exists bitset. split_and!; try done. intros c _. by rewrite orb_false_r. }
  destruct (index_range h1 h2 m i ltac:(lia)) as [|Hi]; [lia|].
  destruct (set_bit bitset (bf_index h1 h2 m i)) as (b1 & -> & Hl1 & Hw1 & Hb1); [lia|]. cbn.
  destruct (IH (i + 1) b1) as (b2 & -> & Hl2 & Hw2 & Hb2); [done|by rewrite Hl1|].
  exists b2. split_and!; [done|congruence|auto|]. intros c Hc. rewrite Hb2, Hb1, <- orb_assoc by done. f_equal.

  destruct (Z.eqb_spec (bf_index h1 h2 m i) c) as [E|E]; cbn [orb].
  - symmetry. apply bool_decide_eq_true. rewrite E. left.
  - apply bool_decide_ext. rewrite elem_of_cons. intuition congruence.
Qed.

Lemma contains_loop_bits n i h1 h2 m bitset :
  0 < m < 2 ^ 32 -> m <= 64 * len bitset ->
  bf_contains_loop n i h1 h2 m bitset = Some (if forallb (bit_at bitset) (probes_from n i h1 h2 m) then 1 else 0).
Proof.
  revert i. induction n as [|n IH]; intros i Hm Hl; cbn [bf_contains_loop probes_from forallb]; [done|].
  destruct (index_range h1 h2 m i ltac:(lia)) as [|Hi]; [lia|]. rewrite get_bit by lia. cbn.
  destruct (bit_at bitset (bf_index h1 h2 m i)); cbn; [by apply IH|done].
Qed.

(** ** No false negatives *)

(** Filters that differ in their bits only. *)
Definition same_shape (f g : bloom_filter_t) : Prop :=
  bf_m g = bf_m f /\ bf_h g = bf_h f /\ bf_size_in_words g = bf_size_in_words f /\ bf_hash_version g = bf_hash_version f.

Lemma probes_shape f g key : same_shape f g -> probes g key = probes f key.
Proof. intros (Em & Eh & _ & Ev). unfold probes, bf_derive_hashes. by rewrite Em, Eh, Ev. Qed.

Lemma filter_capacity f : filter_ok f -> bf_m f <= 64 * len (bf_bitset f).
Proof. intros H. destruct H as [Hm _ Hw Hl _]. rewrite Hl, Hw. pose proof (Z.div_mod (bf_m f + 63) 64 ltac:(lia)). pose proof (Z.mod_pos_bound (bf_m f + 63) 64 ltac:(lia)). lia. Qed.

Lemma add_bits f key :
  filter_ok f -> key <> [] ->
  exists g, bloom_filter_add (Some f) (Some key) (len key) = Some (Some g) /\ filter_ok g /\ same_shape f g /\
    forall c, 0 <= c -> bit_at (bf_bitset g) c = bit_at (bf_bitset f) c || bool_decide (c ∈ probes f key).
Proof.
  intros Hf Hk. pose proof (filter_capacity f Hf) as Hcap. destruct Hf as [Hm Hh Hs Hl Hr].
  unfold bloom_filter_add, probes. rewrite ldn_all.
  destruct (Z.eqb_spec (len key) 0); [by destruct key|]. cbn [mbind option_bind].
  destruct (bf_derive_hashes f key) as [h1 h2].
  destruct (add_loop_bits (Z.to_nat (bf_h f)) 0 h1 h2 (bf_m f) (bf_bitset f)) as (bits & -> & Hlen & Hok & Hb); [lia|done|].
  cbn. eexists. split; [done|]. split_and!; try done. split; cbn; [lia..|by rewrite Hlen|auto].
Qed.

Lemma contains_bits f key :
  filter_ok f -> key <> [] ->
  bloom_filter_contains (Some f) (Some key) (len key) = Some (if forallb (bit_at (bf_bitset f)) (probes f key) then 1 else 0).
Proof.
  intros Hf Hk. pose proof (filter_capacity f Hf) as Hcap. destruct Hf as [Hm _ _ _ _].
  unfold bloom_filter_contains, probes. rewrite ldn_all.
  destruct (Z.eqb_spec (len key) 0); [by destruct key|]. cbn [mbind option_bind].
  destruct (bf_derive_hashes f key) as [h1 h2]. apply contains_loop_bits; [lia|done].
Qed.

(** The calls of bloom_filter_add for the keys, in order. *)
Fixpoint bloom_adds (bf : ptr bloom_filter_t) (keys : list bytes) : option (ptr bloom_filter_t) :=
  match keys with
  | [] => Some bf
  | key :: keys => bf ← bloom_filter_add bf (Some key) (len key); bloom_adds bf keys
  end.

(** Bit [c] is set by one of the keys. *)
Definition set_by (f : bloom_filter_t) (keys : list bytes) (c : Z) : Prop :=
  exists key, key ∈ keys /\ key <> [] /\ c ∈ probes f key.

Lemma set_by_cons f key keys c : key <> [] -> set_by f (key :: keys) c <-> c ∈ probes f key \/ set_by f keys c.
Proof.
  intros Hk. unfold set_by. split.
  - intros (k & [->|Hin]%elem_of_cons & Hne & Hp); [by left|right]. eauto.
  - intros [Hp|(k & Hin & Hne & Hp)]; [exists key|exists k]; (split; [|done]); [left|by right].
Qed.

Lemma adds_bits f keys :
  filter_ok f ->
  exists g, bloom_adds (Some f) keys = Some (Some g) /\ filter_ok g /\ same_shape f g /\
    forall c, 0 <= c -> bit_at (bf_bitset g) c = true <-> bit_at (bf_bitset f) c = true \/ set_by f keys c.
Proof.
  revert f. induction keys as [|key keys IH]; intros f Hf; cbn [bloom_adds].
  { exists f. split_and!; try done. intros c _. split; [by left|]. intros [?|(? & ?%elem_of_nil & _)]; done. }
  destruct (decide (key = [])) as [->|Hk].
  - change (bloom_filter_add (Some f) (Some []) (len [])) with (Some (Some f)). cbn [mbind option_bind].
    destruct (IH f Hf) as (g & -> & Hg & Hsh & Hb). exists g. split_and!; [done..|]. intros c Hc. rewrite Hb by done.
    unfold set_by. split; (intros [?|(k & Hin & Hne & Hp)]; [by left|right]).
    + exists k. split; [by right|done].
    + apply elem_of_cons in Hin as [->|Hin]; [done|]. eauto.
  - destruct (add_bits f key Hf Hk) as (f1 & -> & Hf1 & Hsh1 & Hb1). cbn.
    destruct (IH f1 Hf1) as (g & -> & Hg & Hsh & Hb). exists g. split; [done|]. split; [done|]. split.
    { unfold same_shape in *. intuition congruence. }
    intros c Hc. rewrite Hb, Hb1 by done. rewrite orb_true_iff, bool_decide_eq_true, (set_by_cons f) by done.
    assert (set_by f1 keys c <-> set_by f keys c) as ->; [|tauto].
    unfold set_by. by setoid_rewrite (probes_shape _ _ _ Hsh1).
Qed.

Lemma probe_nonneg f key b : filter_ok f -> b ∈ probes f key -> 0 <= b.
Proof.
  intros [Hm _ _ _ _]. unfold probes. destruct (bf_derive_hashes f key) as [h1 h2]. generalize 0 at 1.
  induction (Z.to_nat (bf_h f)) as [|n IH]; intros i; cbn [probes_from]; [by intros ?%elem_of_nil|].
  intros [->|Hb]%elem_of_cons; [|eauto]. destruct (index_range h1 h2 (bf_m f) i); lia.
Qed.

(** C10. A Bloom filter has no false negatives. After any sequence of insertions
    the filter is well formed, every inserted key is reported as present, and a
    key is reported exactly when each of its probes was set before or by one of
    the inserted keys; otherwise the answer is 0. No insertion or query leaves
    the bit set. *)
Theorem bloom_no_false_negatives f keys key :
  filter_ok f -> key <> [] ->
  exists g, bloom_adds (Some f) keys = Some (Some g) /\ filter_ok g /\
    let answer := bloom_filter_contains (Some g) (Some key) (len key) in
    (key ∈ keys -> answer = Some 1) /\ (answer = Some 0 \/ answer = Some 1) /\
    (answer = Some 1 <-> forall b, b ∈ probes f key -> bit_at (bf_bitset f) b = true \/ set_by f keys b).
Proof.
  intros Hf Hk. destruct (adds_bits f keys Hf) as (g & Eg & Hg & Hsh & Hb). exists g. split; [done|]. split; [done|]. cbn zeta.
  rewrite (contains_bits g key Hg Hk), (probes_shape f g key Hsh).
  assert (forallb (bit_at (bf_bitset g)) (probes f key) = true <->
    forall b, b ∈ probes f key -> bit_at (bf_bitset f) b = true \/ set_by f keys b) as Hall.
  { rewrite forallb_forall. setoid_rewrite <- list_elem_of_In. split; intros H b Hin; specialize (H b Hin);
      apply (Hb b); eauto using probe_nonneg. }
  split_and!.
  - intros Hin. rewrite (proj2 Hall); [done|]. intros b Hp. right. by exists key.
  - destruct (forallb _ _); auto.
  - rewrite <- Hall. by destruct (forallb _ _).
Qed.

(** ** The serialised form *)

Definition nonzero (words : list Z) : Z := len (filter (fun w => w <> 0) words).

Definition dense_bytes (words : list Z) : bytes := concat (map (le_bytes 8) words).

Fixpoint sparse_bytes (words : list Z) (i : Z) : bytes :=
  match words with
  | [] => []
  | w :: words => (if w =? 0 then [] else varint32 i ++ varint64 w) ++ sparse_bytes words (i + 1)
  end.

Definition sparse_body (words : list Z) : bytes := varint32 (nonzero words) ++ sparse_bytes words 0.

(** The smaller encoding; sparse when they are as large. *)
Definition is_dense (words : list Z) : bool := len (dense_bytes words) <? len (sparse_body words).

Definition filter_bytes (f : bloom_filter_t) : bytes :=
  let words := bf_bitset f in
  let dense := is_dense words in
  (if (BF_HASH_VERSION_LEGACY <? bf_hash_version f) || dense
   then [BF_SERIALIZE_VERSION_SENTINEL; BF_MAKE_FORMAT_BYTE (if dense then BF_ENCODING_DENSE else BF_ENCODING_SPARSE) (bf_hash_version f)]
   else []) ++
  varint32 (bf_m f) ++ varint32 (bf_h f) ++ (if dense then dense_bytes words else sparse_body words).

Lemma varint_len n v : 0 <= v -> varint_len_loop n v = len (varint n v).
Proof.
  revert v. induction n as [|n IH]; intros v Hv; cbn [varint_len_loop varint]; [done|].
  rewrite Z.shiftr_div_pow2 by lia. change (2 ^ 7) with 128.
  destruct (Z.leb_spec 0x80 v), (Z.ltb_spec v 128); try lia; [|done].
  cbn [length]. rewrite IH by (apply Z.div_pos; lia). lia.
Qed.

Lemma nonzero_cons w words : nonzero (w :: words) = (if w =? 0 then 0 else 1) + nonzero words.
Proof.
  unfold nonzero. rewrite filter_cons. destruct (Z.eqb_spec w 0) as [->|Hw].
  - by rewrite decide_False by (intros H; by apply H).
  - rewrite decide_True by done. cbn [length]. lia.
Qed.

Lemma nonzero_le words : 0 <= nonzero words <= len words.
Proof. unfold nonzero. pose proof (length_filter (fun w => w <> 0) words). lia. Qed.

Lemma sparse_measure_eq words i count body :
  0 <= i -> words_ok words ->
  sparse_measure words i count body = (count + nonzero words, body + len (sparse_bytes words i)).
Proof.
  revert i count body. induction words as [|w words IH]; intros i count body Hi Hw; cbn [sparse_measure sparse_bytes].
  { by rewrite !Z.add_0_r. }
  apply list.Forall_cons in Hw as [Hw Hws]. rewrite nonzero_cons. destruct (Z.eqb_spec w 0); cbn [negb app].
  - by rewrite IH by (done || lia).
  - rewrite IH by (done || lia). unfold bf_varint32_len, bf_varint64_len. rewrite !varint_len by lia.
    rewrite !length_app, !Nat2Z.inj_add. unfold varint32, varint64. f_equal; lia.
Qed.

Lemma dense_length words : len (dense_bytes words) = len words * 8.
Proof.
  unfold dense_bytes. induction words as [|w words IH]; [done|]. cbn [map concat]. rewrite length_app, length_le_bytes. cbn [length]. lia.
Qed.

(** ** Writing it *)

Lemma writes_u64le_loop n i v : 0 <= i -> 0 <= v -> writes (put_u64le_loop n i v) (le_bytes n (v / 2 ^ (8 * i))).
Proof.
  revert i. induction n as [|n IH]; intros i Hi Hv; cbn [put_u64le_loop]; [apply filler_ret|].
  unfold le_bytes; fold le_bytes. apply (filler_bind _ _ [_]).
  - eapply writes_eq; [apply writes_put|]. unfold u8. by rewrite Z.shiftr_div_pow2 by lia.
  - eapply writes_eq; [apply IH; lia|]. f_equal. rewrite Z.div_div by lia. f_equal.
    replace (8 * (i + 1)) with (8 * i + 8) by lia. by rewrite Z.pow_add_r by lia.
Qed.

Lemma writes_dense words : words_ok words -> writes (put_dense words) (dense_bytes words).
Proof.
  induction 1 as [|w words Hw _ IH]; cbn [put_dense]; [apply filler_ret|]. apply filler_bind; [|done].
  unfold bf_put_u64le. eapply writes_eq; [apply writes_u64le_loop; lia|]. by rewrite Z.mul_0_r, Z.div_1_r.
Qed.

Lemma writes_sparse words i :
  words_ok words -> 0 <= i -> i + len words <= 2 ^ 32 -> writes (put_sparse words i) (sparse_bytes words i).
Proof.
  revert i. induction words as [|w words IH]; intros i Hw Hi Hl; cbn [put_sparse sparse_bytes]; [apply filler_ret|].
  apply list.Forall_cons in Hw as [Hw Hws]. cbn [length] in Hl. apply filler_bind; [|by apply IH; [|lia..]].
  destruct (w =? 0); cbn [negb when]; [apply filler_ret|].
  apply filler_bind; [apply writes_varint32|apply writes_varint64]; lia.
Qed.

Section Codec.
Context (malloc : Z -> option bytes).
Hypothesis malloc_size : forall n buffer, 0 <= n -> malloc n = Some buffer -> len buffer = n.

Lemma bf_words_ok f : filter_ok f -> bf_words f = Some (bf_bitset f).
Proof.
  intros Hf. destruct Hf as [_ _ _ Hl _]. unfold bf_words. rewrite (proj2 (Z.leb_le _ _)) by lia.
  rewrite <- Hl, Nat2Z.id. by rewrite firstn_all.
Qed.

(** bloom_filter_serialize: the buffer has exactly the bytes of the form. *)
Lemma serialize_exact f :
  filter_ok f ->
  bloom_filter_serialize malloc (Some f) =
    match malloc (len (filter_bytes f)) with
    | Some _ => Ret (filter_bytes f, len (filter_bytes f))
    | None => Err tt
    end.
Proof.
  intros Hf. unfold bloom_filter_serialize. rewrite bf_words_ok by done.
  destruct Hf as [Hm Hh Hs Hl Hr]. set (words := bf_bitset f) in *.
  rewrite sparse_measure_eq by (done || lia). rewrite !Z.add_0_l. unfold bf_varint32_len.
  pose proof (nonzero_le words) as Hnz. rewrite !varint_len by lia. fold (varint32 (nonzero words)) (varint32 (bf_m f)) (varint32 (bf_h f)).
  assert (0 <= len words < 2 ^ 32) as Hlen.
  { rewrite Hl, Hs. pose proof (Z.div_mod (bf_m f + 63) 64 ltac:(lia)). pose proof (Z.mod_pos_bound (bf_m f + 63) 64 ltac:(lia)). lia. }
  rewrite <- Hl. unfold BF_DENSE_WORD_BYTES. rewrite <- dense_length.
  replace (len (sparse_bytes words 0) + len (varint32 (nonzero words))) with (len (sparse_body words))
    by (unfold sparse_body; rewrite length_app; lia).
  fold (is_dense words). unfold filter_bytes. fold words. set (dense := is_dense words).
  assert (forall l (m : filler unit), writes m l -> forall n, n = len l ->
    match malloc n with
    | None => Err tt
    | Some buffer => match m (mk_filling buffer 0) with (Ret _, s) => Ret (fl_buffer s, fl_at s) | (Err e, _) => Err e | (Fault, _) => Fault end
    end = match malloc (len l) with Some _ => Ret (l, len l) | None => Err tt end) as Hrun.
  { intros l m Hw n ->. destruct (malloc (len l)) as [buffer|] eqn:Ea; [|done]. apply malloc_size in Ea; [|lia].
    rewrite (Hw buffer 0) by lia. cbn. by rewrite splice_whole, Z.add_0_l by done. }
  assert (writes (encode_varint32 (nonzero words);; put_sparse words 0) (sparse_body words)) as Hsp.
  { apply filler_bind; [apply writes_varint32; lia|]. by apply writes_sparse; [| |lia]. }
  pose proof (writes_dense words Hr) as Hde.
  assert (negb ((if dense then BF_ENCODING_DENSE else BF_ENCODING_SPARSE) =? BF_ENCODING_SPARSE) = dense) as -> by (by destruct dense).
  assert (((if dense then BF_ENCODING_DENSE else BF_ENCODING_SPARSE) =? BF_ENCODING_DENSE) = dense) as -> by (by destruct dense).
  set (versioned := (_ <? _) || dense). apply Hrun.
  - apply filler_bind; [apply filler_when, (filler_bind _ _ [_] [_]); apply writes_put|].
    apply filler_bind; [apply writes_varint32; lia|]. apply filler_bind; [apply writes_varint32; lia|]. by destruct dense.
  - rewrite !length_app. unfold BF_SERIALIZE_VERSION_BYTES. destruct versioned, dense; cbn [length]; lia.
Qed.

(** ** Reading it back *)

Section Scan.
Context (d : bytes) (end_ : Z).

Lemma scans_read_byte b : scans d end_ (read_byte d) [b] b.
Proof.
  intros off rest Hs Hl. unfold read_byte, mbind, M_bind, gets, modify, access. cbn [id].
  rewrite (suffix_at_ld _ _ _ _ Hs). cbn. f_equal. lia.
Qed.

Lemma scans_word n j value z :
  0 <= j -> j + Z.of_nat n <= 8 -> 0 <= value < 2 ^ (8 * j) ->
  scans d end_ (read_word d n j value) (le_bytes n z) (value + z mod 2 ^ (8 * Z.of_nat n) * 2 ^ (8 * j)).
Proof.
  revert j value z. induction n as [|n IH]; intros j value z Hj Hn Hv; cbn [read_word].
  { rewrite Z.mod_1_r, Z.add_0_r. apply scans_ret. }
  unfold le_bytes; fold le_bytes. eapply (scans_bind _ _ _ _ [_]); [apply scans_read_byte|]. cbn beta.
  pose proof (Z.mod_pos_bound z 256 ltac:(lia)). assert (0 < 2 ^ (8 * j)) by (apply Z.pow_pos_nonneg; lia).
  assert (2 ^ (8 * j) * 2 ^ 8 <= 2 ^ 64) by (rewrite <- Z.pow_add_r by lia; apply Z.pow_le_mono_r; lia).
  rewrite u64_small by (rewrite Z.shiftl_mul_pow2 by lia; nia). rewrite lor_shiftl_add by lia.
  assert (z mod 2 ^ (8 * Z.of_nat (S n)) = z mod 256 + z / 256 mod 2 ^ (8 * Z.of_nat n) * 256) as ->.
  { replace (8 * Z.of_nat (S n)) with (8 + 8 * Z.of_nat n) by lia. rewrite Z.pow_add_r by lia. change (2 ^ 8) with 256.
    rewrite Z.rem_mul_r by (apply Z.pow_pos_nonneg || lia; lia). lia. }
  replace (value + (z mod 256 + z / 256 mod 2 ^ (8 * Z.of_nat n) * 256) * 2 ^ (8 * j))
    with (value + z mod 256 * 2 ^ (8 * j) + z / 256 mod 2 ^ (8 * Z.of_nat n) * 2 ^ (8 * (j + 1))).
  2:{ replace (8 * (j + 1)) with (8 * j + 8) by lia. rewrite Z.pow_add_r by lia. change (2 ^ 8) with 256. ring. }
  apply IH; [lia..|]. replace (8 * (j + 1)) with (8 * j + 8) by lia. rewrite Z.pow_add_r by lia. change (2 ^ 8) with 256. nia.
Qed.

Lemma scans_dense words : words_ok words -> scans d end_ (read_dense d (length words)) (dense_bytes words) words.
Proof.
  induction 1 as [|w words Hw _ IH]; cbn [read_dense length]; [apply scans_ret|].
  change (dense_bytes (w :: words)) with (le_bytes 8 w ++ dense_bytes words). eapply scans_bind.
  - apply (scans_word 8 0 0 w); lia.
  - cbn beta. rewrite <- (app_nil_r (dense_bytes words)). eapply scans_bind; [apply IH|]. cbn beta.
    replace (0 + w mod 2 ^ (8 * Z.of_nat 8) * 2 ^ (8 * 0)) with w; [apply scans_ret|].
    change (2 ^ (8 * Z.of_nat 8)) with (2 ^ 64). rewrite Z.mod_small by done. lia.
Qed.

Lemma scans_sparse words pre size :
  words_ok words -> size = len pre + len words -> size < 2 ^ 32 ->
  scans d end_ (read_sparse d end_ (Z.to_nat (nonzero words)) size (pre ++ replicate (length words) 0))
    (sparse_bytes words (len pre)) (pre ++ words).
Proof.
  revert pre. induction words as [|w words IH]; intros pre Hw Hsize Hs; cbn [sparse_bytes length replicate].
  { apply scans_ret. }
  apply list.Forall_cons in Hw as [Hw Hws]. rewrite nonzero_cons. cbn [length] in Hsize.
  assert (forall x, pre ++ x :: words = (pre ++ [x]) ++ words) as Eapp by (intros; by rewrite <- app_assoc).
  assert (len pre + 1 = len (pre ++ [w])) as El by (rewrite length_app; cbn; lia).
  destruct (Z.eqb_spec w 0) as [->|Hne].
  - cbn [app]. rewrite Z.add_0_l, El, Eapp. change (0 :: replicate (length words) 0) with ([0] ++ replicate (length words) 0).
    rewrite app_assoc. apply IH; [done| |done]. rewrite length_app. cbn [length]. lia.
  - pose proof (nonzero_le words). replace (Z.to_nat (1 + nonzero words)) with (S (Z.to_nat (nonzero words))) by lia.
    cbn [read_sparse]. rewrite <- app_assoc. eapply scans_bind; [apply scans_varint32; lia|].
    eapply scans_bind; [by apply scans_varint64|]. cbn beta. apply scans_fail_if; [apply Z.leb_gt; lia|].
    rewrite length_app. cbn [length]. rewrite length_replicate, (proj2 (Z.ltb_lt _ _)) by lia.
    rewrite Nat2Z.id, insert_app_r_alt, Nat.sub_diag by lia. cbn [insert list_insert].
    change (w :: replicate (length words) 0) with ([w] ++ replicate (length words) 0). rewrite app_assoc, El, Eapp.
    apply (scans_bind d end_ _ _ [] _ _ _ (fun off rest _ _ => f_equal (pair _) (eq_sym (Z.add_0_r off)))).
    apply IH; [done| |done]. rewrite length_app. cbn [length]. lia.
Qed.
End Scan.

(** What a serialised filter may hold. *)
Record stored_ok (f : bloom_filter_t) : Prop := {
  so_filter : filter_ok f;
  so_m : bf_m f <= UINT32_MAX - BF_BITS_PER_WORD;
  so_h : 1 <= bf_h f <= BF_MAX_HASH_FUNCTIONS;
  so_version : bf_hash_version f = BF_HASH_VERSION_LEGACY \/ bf_hash_version f = BF_HASH_VERSION_CURRENT
}.

Lemma varint_head n v : n <> O -> 1 <= v -> exists b l, varint n v = b :: l /\ b <> 0.
Proof.
  destruct n as [|n]; [done|]. intros _ Hv. cbn [varint]. destruct (Z.ltb_spec v 128).
  - exists v, []. split; [done|lia].
  - eexists _, _. split; [done|]. pose proof (Z.mod_pos_bound v 128). lia.
Qed.

(** The prefix tells the version and the encoding; without one the first byte
    is not the mark, since the number of bits is not 0. *)
Lemma version_read f (dense : bool) rest d end_ :
  1 <= bf_m f -> bf_hash_version f = BF_HASH_VERSION_LEGACY \/ bf_hash_version f = BF_HASH_VERSION_CURRENT ->
  let prefix := if (BF_HASH_VERSION_LEGACY <? bf_hash_version f) || dense
    then [BF_SERIALIZE_VERSION_SENTINEL; BF_MAKE_FORMAT_BYTE (if dense then BF_ENCODING_DENSE else BF_ENCODING_SPARSE) (bf_hash_version f)]
    else [] in
  d = prefix ++ varint32 (bf_m f) ++ rest -> len d <= end_ ->
  read_version d end_ 0 = (Ret (bf_hash_version f, if dense then BF_ENCODING_DENSE else BF_ENCODING_SPARSE), len prefix).
Proof.
  intros Hm Hv prefix -> He. subst prefix. destruct (varint_head VARINT32_MAX_BYTES (bf_m f)) as (b & l & E & Hb); [done|done|].
  unfold varint32 in *. rewrite E in *. apply Z.eqb_neq in Hb.
  destruct Hv as [Ev|Ev]; rewrite Ev in *; destruct dense; cbn [orb Z.ltb Z.compare Pos.compare Pos.compare_cont BF_HASH_VERSION_LEGACY BF_HASH_VERSION_CURRENT app length] in *;
    unfold read_version, read_byte, mbind, M_bind, gets, fail_if, modify, access, BF_SERIALIZE_VERSION_BYTES; cbn [ld];
    try (rewrite (proj2 (Z.ltb_ge end_ 2)) by lia; reflexivity).
  change (ld (b :: l ++ rest) 0) with (Some b). cbv beta iota. unfold BF_SERIALIZE_VERSION_SENTINEL. by rewrite Hb.
Qed.

Lemma filter_read f d :
  stored_ok f -> d = filter_bytes f ->
  is_Some (malloc (bf_size_in_words f * 8)) -> is_Some (malloc SIZEOF_BLOOM_FILTER) ->
  read_filter malloc d (len d) 0 = (Ret f, len d).
Proof.
  intros [Hf Hm Hh Hv] Ed [x1 E1] [x2 E2]. destruct Hf as [Hm1 Hh1 Hs Hl Hr]. unfold read_filter.
  set (dense := is_dense (bf_bitset f)). set (words := bf_bitset f) in *.
  pose proof Ed as Ed'. unfold filter_bytes in Ed'. fold words dense in Ed'.
  set (prefix := if _ || dense then _ else _) in Ed'.
  assert (suffix_at d (len prefix) (varint32 (bf_m f) ++ varint32 (bf_h f) ++ (if dense then dense_bytes words else sparse_body words))) as Hsuf
    by (rewrite Ed'; apply suffix_at_end).
  set (body := if dense then dense_bytes words else sparse_body words) in *.
  unfold mbind at 1, M_bind at 1. rewrite (version_read f dense _ d (len d) ltac:(lia) Hv Ed' ltac:(lia)). fold prefix. cbv beta iota.
  assert (0 <= len words < 2 ^ 32) as Hlen.
  { rewrite Hl, Hs. pose proof (Z.div_mod (bf_m f + 63) 64 ltac:(lia)). pose proof (Z.mod_pos_bound (bf_m f + 63) 64 ltac:(lia)). lia. }
  assert (len d = len prefix + len (varint32 (bf_m f) ++ varint32 (bf_h f) ++ body)) as Hld by (by apply suffix_at_len).
  rewrite <- (app_nil_r (varint32 (bf_m f) ++ _)) in Hsuf.
  replace (Ret f : outcome unit bloom_filter_t, len d) with (Ret f : outcome unit bloom_filter_t, len prefix + len (varint32 (bf_m f) ++ varint32 (bf_h f) ++ body))
    by (by rewrite Hld). refine ((_ : scans _ _ _ _ _) _ _ Hsuf _); [|by rewrite <- Hld]. clear Hsuf.
  eapply scans_bind; [apply scans_varint32; lia|]. eapply scans_bind; [apply scans_varint32; lia|].
  unfold BF_MAX_HASH_FUNCTIONS in *. apply scans_fail_if; [bsimp; lia|]. apply scans_fail_if; [bsimp; lia|].
  replace ((bf_m f + BF_BITS_PER_WORD - 1) / BF_BITS_PER_WORD) with (bf_size_in_words f)
    by (rewrite Hs; unfold BF_BITS_PER_WORD; f_equal; lia).
  unfold calloc_words. rewrite E1, E2. rewrite <- (app_nil_r body). eapply (scans_bind _ _ _ _ _ _ words).
  - unfold body. destruct dense.
    + change (BF_ENCODING_DENSE =? BF_ENCODING_DENSE) with true. cbv iota. intros off rest Hsuf Hle. unfold mbind, M_bind, gets, fail_if. cbn [id]. unfold BF_DENSE_WORD_BYTES.
      rewrite <- Hl, (proj2 (Z.ltb_ge _ _)), Nat2Z.id by (rewrite dense_length in Hle; lia). by apply (scans_dense d (len d) words Hr off rest).
    + change (BF_ENCODING_SPARSE =? BF_ENCODING_DENSE) with false. cbv iota.
      pose proof (nonzero_le words). eapply scans_bind; [apply scans_varint32; lia|]. cbn beta. rewrite <- Hl.
      apply scans_fail_if; [bsimp; lia|]. rewrite Nat2Z.id. apply (scans_sparse d (len d) words []); [done|cbn; lia|lia].
  - cbn beta. subst words. destruct f; apply scans_ret.
Qed.

(** ** Arbitrary bytes *)

Section Bounds.
Context (d : bytes) (end_ : Z).

(** A word read without a test, when the bytes are there. *)
Lemma read_word_range n j value off :
  0 <= off -> off + Z.of_nat n <= len d -> 0 <= j -> 0 <= value < 2 ^ 64 -> bytes_ok d ->
  wp (read_word d n j value) (fun w off' => off' = off + Z.of_nat n /\ 0 <= w < 2 ^ 64) (fun _ _ => True) off.
Proof.
  revert j value off. induction n as [|n IH]; intros j value off Ho Hl Hj Hv Hd; cbn [read_word].
  { wp_step. split; [lia|done]. }
  unfold read_byte. do 4 wp_step. cbn [id]. apply wp_access; [apply ld_is_Some; lia|]. intros b Hb. do 3 wp_step.
  eapply wp_mono; [apply IH; [lia..| |done]| |done].
  - apply lor_range; [lia|done|apply u64_range].
  - cbn. intros w off' [-> Hw]. split; [lia|done].
Qed.

Lemma read_dense_range n off :
  0 <= off -> off + 8 * Z.of_nat n <= len d -> bytes_ok d ->
  wp (read_dense d n) (fun words off' => off' = off + 8 * Z.of_nat n /\ words_ok words /\ length words = n) (fun _ _ => True) off.
Proof.
  revert off. induction n as [|n IH]; intros off Ho Hl Hd; cbn [read_dense].
  { wp_step. split_and!; [lia|constructor|done]. }
  wp_step. eapply wp_mono; [apply read_word_range; [lia| |lia|lia|done]| |done]; [change (Z.of_nat (Z.to_nat BF_DENSE_WORD_BYTES)) with 8; lia|].
  cbn. intros w off' [-> Hw]. wp_step. eapply wp_mono; [apply IH; [lia| |done]| |done];
    change (Z.of_nat (Z.to_nat BF_DENSE_WORD_BYTES)) with 8; [lia|].
  intros words off' (-> & Hws & <-). cbn. split_and!; [lia|by constructor|done].
Qed.

Lemma read_sparse_range n size bitset :
  len bitset = size -> words_ok bitset ->
  yields d end_ (read_sparse d end_ n size bitset) (fun words => words_ok words /\ len words = size).
Proof.
  revert bitset. induction n as [|n IH]; intros bitset Hl Hw; cbn [read_sparse]; [by apply yields_ret|].
  eapply yields_bind; [apply yields_varint32|]. intros index Hi. eapply yields_bind; [apply yields_varint64|]. intros value Hv.
  eapply yields_bind; [apply yields_fail_if|]. intros _ Hc%Z.leb_gt. rewrite (proj2 (Z.ltb_lt _ _)) by lia.
  eapply (yields_bind _ _ _ _ (fun l => l = _)); [by apply (yields_ret _ _ (<[Z.to_nat index:=value]> bitset))|].
  intros l ->. apply IH; [by rewrite length_insert|]. by apply Forall_insert.
Qed.

Lemma read_version_range :
  1 <= end_ <= len d ->
  wp (read_version d end_) (fun v off => 0 <= off <= end_ /\ (v.1 = BF_HASH_VERSION_LEGACY \/ v.1 = BF_HASH_VERSION_CURRENT))
    (fun _ _ => True) 0.
Proof.
  intros He. unfold read_version. wp_step. apply wp_access; [apply ld_is_Some; lia|]. intros first _.
  destruct (first =? _); [|wp_step; cbn; split; [lia|by left]].
  wp_step. wp_step; [done|]. unfold BF_SERIALIZE_VERSION_BYTES in *. bsimp. wp_step. wp_step. unfold read_byte. do 4 wp_step. cbn [id].
  apply wp_access; [apply ld_is_Some; lia|]. intros b _. do 4 wp_step. wp_step; [done|]. bsimp. wp_step. wp_step; [done|]. wp_step.
  unfold BF_HASH_VERSION_LEGACY, BF_HASH_VERSION_CURRENT in *. cbn [fst]. split; [lia|]. lia.
Qed.

Lemma read_filter_range :
  1 <= end_ <= len d -> bytes_ok d -> wp (read_filter malloc d end_) (fun f _ => stored_ok f) (fun _ _ => True) 0.
Proof.
  intros He Hd. unfold read_filter, UINT32_MAX. wp_step. eapply wp_mono; [apply read_version_range; lia| |done].
  intros [version encoding] off0 [Ho0 Hver]. cbn [fst] in Hver.
  wp_step. eapply wp_mono; [apply yields_varint32; [lia..|done]| |done]. intros m off1 [Ho1 Hm].
  wp_step. eapply wp_mono; [apply yields_varint32; [lia..|done]| |done]. intros h off2 [Ho2 Hh].
  wp_step. wp_step; [done|]. wp_step. wp_step; [done|]. cbv zeta. bsimp.
  set (size := (m + BF_BITS_PER_WORD - 1) / BF_BITS_PER_WORD). unfold calloc_words.
  assert (0 <= size) by (apply Z.div_pos; unfold BF_BITS_PER_WORD; lia).
  destruct (malloc (size * 8)); [|done]. wp_step.
  eapply (wp_mono _ (fun words _ => words_ok words /\ len words = size) _ (fun _ _ => True)); [|..|done].
  - destruct (encoding =? _).
    + wp_step. wp_step. cbn [id]. wp_step. wp_step; [done|]. unfold BF_DENSE_WORD_BYTES in *. bsimp.
      eapply wp_mono; [apply read_dense_range; [lia..|done]| |done]. intros words off (_ & Hw & E). split; [done|lia].
    + wp_step. eapply wp_mono; [apply yields_varint32; [lia..|done]| |done]. intros count off3 [Ho3 Hc].
      wp_step. wp_step; [done|]. eapply wp_mono; [apply read_sparse_range; [..|lia|lia|done]| |done].
      * rewrite length_replicate. lia.
      * by apply Forall_replicate.
      * intros words off [_ Hw]. done.
  - intros words off [Hw Hl]. destruct (malloc SIZEOF_BLOOM_FILTER); [|done]. wp_step. unfold BF_BITS_PER_WORD in *.
    split; cbn; [split; cbn; [lia|lia| |lia|done]|unfold UINT32_MAX, BF_BITS_PER_WORD; lia|lia|done]. unfold size. f_equal. lia.
Qed.
End Bounds.

(** C21. A filter in the form the constructors and the reader give, with at most
    2^32 - 65 bits, is written to a buffer of exactly the bytes of its form, the
    smaller of the sparse and the dense encoding, and reading those bytes gives
    the same filter; the hash version and the encoding travel in the prefix,
    which a legacy sparse filter does not have. *)
Theorem bloom_serialize_roundtrip f :
  stored_ok f ->
  is_Some (malloc (len (filter_bytes f))) -> is_Some (malloc (bf_size_in_words f * 8)) -> is_Some (malloc SIZEOF_BLOOM_FILTER) ->
  bloom_filter_serialize malloc (Some f) = Ret (filter_bytes f, len (filter_bytes f)) /\
  bloom_filter_deserialize malloc (Some (filter_bytes f)) (len (filter_bytes f)) = Ret f /\
  len (filter_bytes f) <= 12 + Z.min (len (dense_bytes (bf_bitset f))) (len (sparse_body (bf_bitset f))).
Proof.
  intros Hs [buffer Hb] H1 H2. pose proof (so_filter _ Hs) as Hf. rewrite serialize_exact, Hb by done. split; [done|]. split.
  - unfold bloom_filter_deserialize. rewrite (filter_read f) by done. case_match eqn:E; [|done].
    exfalso. apply Z.eqb_eq in E. unfold filter_bytes in E. rewrite !length_app in E.
    pose proof (varint_not_nil VARINT32_MAX_BYTES (bf_m f) ltac:(done)). unfold varint32 in E. destruct (varint _ (bf_m f)); [done|].
    cbn [length] in E. lia.
  - unfold filter_bytes. rewrite !length_app. pose proof (varint_length VARINT32_MAX_BYTES (bf_m f)).
    pose proof (varint_length VARINT32_MAX_BYTES (bf_h f)). unfold varint32, VARINT32_MAX_BYTES in *. unfold is_dense.
    destruct (Z.ltb_spec (len (dense_bytes (bf_bitset f))) (len (sparse_body (bf_bitset f)))), (_ || _); cbn [length]; lia.
Qed.

(** Reading a filter from arbitrary bytes touches nothing outside the
    [length] bytes it was given and ends with NULL or with a well-formed filter:
    a bit set of as many words as its bits need, from one to 100 hash functions
    and a known hash version, so that no later query leaves the bit set. *)
Theorem bloom_deserialize_safe d length :
  bytes_ok d -> 0 <= length <= len d ->
  match bloom_filter_deserialize malloc (Some d) length with
  | Ret f => stored_ok f
  | Err _ => True
  | Fault => False
  end.
Proof.
  intros Hd Hl. unfold bloom_filter_deserialize. destruct (Z.eqb_spec length 0); [done|].
  pose proof (read_filter_range d length ltac:(lia) Hd) as H. unfold wp in H. by destruct (read_filter malloc d length 0) as [[]].
Qed.
End Codec.

(** ** Witnesses *)

(** A filter of 200 bits and the allocator that always succeeds. *)
Definition sample_filter : bloom_filter_t := mk_bloom [0; 5; 0; 2 ^ 63] 200 3 4 BF_HASH_VERSION_CURRENT.
Definition some_malloc (n : Z) : option bytes := Some (replicate (Z.to_nat n) 0).

Lemma sample_filter_ok : stored_ok sample_filter.
Proof.
  split; cbn; [split; cbn; [lia|lia|done|done|]|unfold BF_BITS_PER_WORD, UINT32_MAX; lia|unfold BF_MAX_HASH_FUNCTIONS; lia|by right].
  by repeat constructor; lia.
Qed.

Lemma some_malloc_size n buffer : 0 <= n -> some_malloc n = Some buffer -> len buffer = n.
Proof. intros Hn [= <-]. rewrite length_replicate. lia. Qed.

Lemma bloom_no_false_negatives_witness :
  exists g, bloom_adds (Some sample_filter) [[1; 2]; [7; 8; 9]] = Some (Some g) /\
    bloom_filter_contains (Some g) (Some [7; 8; 9]) 3 = Some 1.
Proof.
  destruct (bloom_no_false_negatives sample_filter [[1; 2]; [7; 8; 9]] [7; 8; 9] (so_filter _ sample_filter_ok) ltac:(done))
    as (g & Eg & _ & Hin & _).
  exists g. split; [exact Eg|]. apply Hin. right. left.
Defined.

Lemma bloom_serialize_roundtrip_witness :
  exists bytes, bloom_filter_serialize some_malloc (Some sample_filter) = Ret (bytes, 19) /\
    bloom_filter_deserialize some_malloc (Some bytes) 19 = Ret sample_filter.
Proof.
  destruct (bloom_serialize_roundtrip some_malloc some_malloc_size sample_filter sample_filter_ok
    ltac:(by eexists) ltac:(by eexists) ltac:(by eexists)) as (E1 & E2 & _).
  exists (filter_bytes sample_filter). split; [exact E1|exact E2].
Defined.

