(* ===== verification/Sha256.v ===== *)
(** * SHA-256 and HMAC-SHA-256 (tidesdb/src/sha256.c, hmac_sha256.c)

    The digests with which the object-store connector signs its requests: the
    compression function, the streaming context, the one-shot and hexadecimal
    forms and the keyed digest. The theorems compare them with FIPS 180-4 and
    RFC 2104. *)

From S2P Require Import Prelude.

Definition SHA256_DIGEST_SIZE : Z := 32.
Definition SHA256_BLOCK_SIZE : Z := 64.

(** ** The compression function *)

Definition SHA256_ROTR (x n : Z) : Z := Z.lor (Z.shiftr x n) (u32 (Z.shiftl x (32 - n))).
Definition SHA256_CH (x y z : Z) : Z := Z.lxor (Z.land x y) (Z.land (u32 (Z.lnot x)) z).
Definition SHA256_MAJ (x y z : Z) : Z := Z.lxor (Z.lxor (Z.land x y) (Z.land x z)) (Z.land y z).
Definition SHA256_EP0 (x : Z) : Z := Z.lxor (Z.lxor (SHA256_ROTR x 2) (SHA256_ROTR x 13)) (SHA256_ROTR x 22).
Definition SHA256_EP1 (x : Z) : Z := Z.lxor (Z.lxor (SHA256_ROTR x 6) (SHA256_ROTR x 11)) (SHA256_ROTR x 25).
Definition SHA256_SIG0 (x : Z) : Z := Z.lxor (Z.lxor (SHA256_ROTR x 7) (SHA256_ROTR x 18)) (Z.shiftr x 3).
Definition SHA256_SIG1 (x : Z) : Z := Z.lxor (Z.lxor (SHA256_ROTR x 17) (SHA256_ROTR x 19)) (Z.shiftr x 10).

Definition SHA256_K : list Z := Eval cbv in concat [
  [0x428a2f98; 0x71374491; 0xb5c0fbcf; 0xe9b5dba5; 0x3956c25b; 0x59f111f1; 0x923f82a4; 0xab1c5ed5];
  [0xd807aa98; 0x12835b01; 0x243185be; 0x550c7dc3; 0x72be5d74; 0x80deb1fe; 0x9bdc06a7; 0xc19bf174];
  [0xe49b69c1; 0xefbe4786; 0x0fc19dc6; 0x240ca1cc; 0x2de92c6f; 0x4a7484aa; 0x5cb0a9dc; 0x76f988da];
  [0x983e5152; 0xa831c66d; 0xb00327c8; 0xbf597fc7; 0xc6e00bf3; 0xd5a79147; 0x06ca6351; 0x14292967];
  [0x27b70a85; 0x2e1b2138; 0x4d2c6dfc; 0x53380d13; 0x650a7354; 0x766a0abb; 0x81c2c92e; 0x92722c85];
  [0xa2bfe8a1; 0xa81a664b; 0xc24b8b70; 0xc76c51a3; 0xd192e819; 0xd6990624; 0xf40e3585; 0x106aa070];
  [0x19a4c116; 0x1e376c08; 0x2748774c; 0x34b0bcb5; 0x391c0cb3; 0x4ed8aa4a; 0x5b9cca4f; 0x682e6ff3];
  [0x748f82ee; 0x78a5636f; 0x84c87814; 0x8cc70208; 0x90befffa; 0xa4506ceb; 0xbef9a3f7; 0xc67178f2]].

(** The first sixteen words of [m], from the bytes of the block. *)
Definition message_word (data : bytes) (i : nat) : Z :=
  let j := (4 * i)%nat in
  Z.lor (Z.lor (Z.lor (Z.shiftl (nth j data 0) 24) (Z.shiftl (nth (j + 1) data 0) 16))
    (Z.shiftl (nth (j + 2) data 0) 8)) (nth (j + 3) data 0).

(** The other words, [n] more of them. *)
Fixpoint message_extend (n : nat) (m : list Z) : list Z :=
  match n with
  | O => m
  | S n =>
      let i := length m in
      message_extend n (m ++ [u32 (SHA256_SIG1 (nth (i - 2) m 0) + nth (i - 7) m 0 + SHA256_SIG0 (nth (i - 15) m 0) + nth (i - 16) m 0)])
  end.

Definition message_schedule (data : bytes) : list Z := message_extend 48 (map (message_word data) (seq 0 16)).

(** The eight working variables a .. h. *)
Record words8 : Type := mk_words { wa : Z; wb : Z; wc : Z; wd : Z; we : Z; wf : Z; wg : Z; wh : Z }.

Definition sha256_round (v : words8) (k m : Z) : words8 :=
  let '(mk_words a b c d e f g h) := v in
  let t1 := u32 (h + SHA256_EP1 e + SHA256_CH e f g + k + m) in
  let t2 := u32 (SHA256_EP0 a + SHA256_MAJ a b c) in
  mk_words (u32 (t1 + t2)) a b c (u32 (d + t1)) e f g.

Fixpoint sha256_rounds (n i : nat) (m : list Z) (v : words8) : words8 :=
  match n with
  | O => v
  | S n => sha256_rounds n (S i) m (sha256_round v (nth i SHA256_K 0) (nth i m 0))
  end.

Definition add_words (s v : words8) : words8 :=
  mk_words (u32 (wa s + wa v)) (u32 (wb s + wb v)) (u32 (wc s + wc v)) (u32 (wd s + wd v))
    (u32 (we s + we v)) (u32 (wf s + wf v)) (u32 (wg s + wg v)) (u32 (wh s + wh v)).

(** sha256_transform on the state and the 64 bytes of a block. *)
Definition sha256_transform (state : words8) (data : bytes) : words8 :=
  add_words state (sha256_rounds 64 0 (message_schedule data) state).

(** ** The streaming context *)

Record sha256_ctx : Type := mk_ctx { cx_data : bytes; cx_datalen : Z; cx_bitlen : Z; cx_state : words8 }.

Definition sha256_initial : words8 :=
  mk_words 0x6a09e667 0xbb67ae85 0x3c6ef372 0xa54ff53a 0x510e527f 0x9b05688c 0x1f83d9ab 0x5be0cd19.

(** The buffer is left as it was. *)
Definition sha256_init (ctx : sha256_ctx) : sha256_ctx := mk_ctx (cx_data ctx) 0 0 sha256_initial.

(** [sha256_transform(ctx, p); ctx->bitlen += 512;] *)
Definition compress_block (ctx : sha256_ctx) (block : bytes) : sha256_ctx :=
  mk_ctx (cx_data ctx) (cx_datalen ctx) (u64 (cx_bitlen ctx + 512)) (sha256_transform (cx_state ctx) block).

(** The loop over the full blocks: at most one round per block of the input. *)
Fixpoint full_blocks (fuel : nat) (ctx : sha256_ctx) (data : bytes) (n i : Z) : option (sha256_ctx * Z) :=
  if i + SHA256_BLOCK_SIZE <=? n then
    match fuel with
    | O => None
    | S fuel => block ← ldn data i SHA256_BLOCK_SIZE; full_blocks fuel (compress_block ctx block) data n (i + SHA256_BLOCK_SIZE)
    end
  else Some (ctx, i).

(** The full blocks and the remaining bytes, from [i]. *)
Definition update_from (ctx : sha256_ctx) (data : bytes) (n i : Z) : option sha256_ctx :=
  '(ctx, i) ← full_blocks (Z.to_nat (n / SHA256_BLOCK_SIZE)) ctx data n i;
  if i <? n then
    rest ← ldn data i (n - i);
    data ← stn (cx_data ctx) 0 rest;
    Some (mk_ctx data (u32 (n - i)) (cx_bitlen ctx) (cx_state ctx))
  else Some ctx.

Definition sha256_update (ctx : sha256_ctx) (data : bytes) (n : Z) : option sha256_ctx :=
  if 0 <? cx_datalen ctx then
    let fill := SHA256_BLOCK_SIZE - cx_datalen ctx in
    if n <? fill then
      part ← ldn data 0 n;
      buffer ← stn (cx_data ctx) (cx_datalen ctx) part;
      Some (mk_ctx buffer (u32 (cx_datalen ctx + n)) (cx_bitlen ctx) (cx_state ctx))
    else
      part ← ldn data 0 fill;
      buffer ← stn (cx_data ctx) (cx_datalen ctx) part;
      block ← ldn buffer 0 SHA256_BLOCK_SIZE;
      let ctx := compress_block (mk_ctx buffer (cx_datalen ctx) (cx_bitlen ctx) (cx_state ctx)) block in
      update_from (mk_ctx (cx_data ctx) 0 (cx_bitlen ctx) (cx_state ctx)) data n fill
  else update_from ctx data n 0.

(** [out[0] = s >> 24; ...; out[3] = s;] *)
Definition digest_word (s : Z) : bytes := [u8 (Z.shiftr s 24); u8 (Z.shiftr s 16); u8 (Z.shiftr s 8); u8 s].

Definition digest_bytes (s : words8) : bytes :=
  concat (map digest_word [wa s; wb s; wc s; wd s; we s; wf s; wg s; wh s]).

(** The eight bytes of the length, at 56 .. 63. *)
Definition length_bytes (bitlen : Z) : bytes :=
  [u8 (Z.shiftr bitlen 56); u8 (Z.shiftr bitlen 48); u8 (Z.shiftr bitlen 40); u8 (Z.shiftr bitlen 32);
   u8 (Z.shiftr bitlen 24); u8 (Z.shiftr bitlen 16); u8 (Z.shiftr bitlen 8); u8 bitlen].

(** [memset(p + i, 0, n)] *)
Definition zeros (n : Z) : bytes := replicate (Z.to_nat n) 0.

Definition sha256_final (ctx : sha256_ctx) : option (sha256_ctx * bytes) :=
  let i := cx_datalen ctx in
  data ← st (cx_data ctx) i 0x80;
  '(data, state) ← (
    if cx_datalen ctx <? 56 then
      data ← stn data (i + 1) (zeros (56 - (i + 1)));
      Some (data, cx_state ctx)
    else
      data ← stn data (i + 1) (zeros (SHA256_BLOCK_SIZE - (i + 1)));
      block ← ldn data 0 SHA256_BLOCK_SIZE;
      data ← stn data 0 (zeros 56);
      Some (data, sha256_transform (cx_state ctx) block));
  let bitlen := u64 (cx_bitlen ctx + cx_datalen ctx * 8) in
  data ← stn data 56 (length_bytes bitlen);
  block ← ldn data 0 SHA256_BLOCK_SIZE;
  let state := sha256_transform state block in
  Some (mk_ctx data (cx_datalen ctx) bitlen state, digest_bytes state).

(** A context on the stack, whose bytes are not set. *)
Definition sha256_hash (ctx : sha256_ctx) (data : bytes) (n : Z) : option bytes :=
  ctx ← sha256_update (sha256_init ctx) data n;
  '(_, out) ← sha256_final ctx;
  Some out.

Definition hex_digit (n : Z) : Z := if n <? 10 then 48 + n else 87 + n.

(** The 64 digits and the terminator. *)
Definition sha256_hex (ctx : sha256_ctx) (data : bytes) (n : Z) : option bytes :=
  digest ← sha256_hash ctx data n;
  Some (concat (map (fun b => [hex_digit (Z.shiftr b 4); hex_digit (Z.land b 0x0f)]) digest) ++ [0]).

(** ** The keyed digest *)

(** The wipes of the local key blocks before the return have no effect that the
    caller can see, and are left out. *)
Definition hmac_sha256 (ctx : sha256_ctx) (key : bytes) (key_len : Z) (data : bytes) (data_len : Z) : option bytes :=
  let k_block := zeros SHA256_BLOCK_SIZE in
  k_block ← (
    if SHA256_BLOCK_SIZE <? key_len then digest ← sha256_hash ctx key key_len; stn k_block 0 digest
    else bs ← ldn key 0 key_len; stn k_block 0 bs);
  let ipad := map (fun b => u8 (Z.lxor b 0x36)) k_block in
  let opad := map (fun b => u8 (Z.lxor b 0x5c)) k_block in
  ctx ← sha256_update (sha256_init ctx) ipad SHA256_BLOCK_SIZE;
  ctx ← sha256_update ctx data data_len;
  '(ctx, inner) ← sha256_final ctx;
  ctx ← sha256_update (sha256_init ctx) opad SHA256_BLOCK_SIZE;
  ctx ← sha256_update ctx inner SHA256_DIGEST_SIZE;
  '(_, out) ← sha256_final ctx;
  Some out.

(** ** FIPS 180-4 *)

Module Fips.
Definition rotr (x n : Z) : Z := x / 2 ^ n + x mod 2 ^ n * 2 ^ (32 - n).
Definition Ch (x y z : Z) : Z := Z.lxor (Z.land x y) (Z.land (Z.lnot x) z).
Definition Maj (x y z : Z) : Z := Z.lxor (Z.lxor (Z.land x y) (Z.land x z)) (Z.land y z).
Definition Sigma0 (x : Z) : Z := Z.lxor (Z.lxor (rotr x 2) (rotr x 13)) (rotr x 22).
Definition Sigma1 (x : Z) : Z := Z.lxor (Z.lxor (rotr x 6) (rotr x 11)) (rotr x 25).
Definition sigma0 (x : Z) : Z := Z.lxor (Z.lxor (rotr x 7) (rotr x 18)) (x / 2 ^ 3).
Definition sigma1 (x : Z) : Z := Z.lxor (Z.lxor (rotr x 17) (rotr x 19)) (x / 2 ^ 10).

(** The big-endian bytes of a number. *)
Definition be (n : nat) (z : Z) : bytes := reverse (le_bytes n z).

(** The message schedule of a block (6.2.2, step 1). *)
Definition schedule (block : bytes) (W : nat -> Z) : Prop :=
  (forall t, (t < 16)%nat -> be 4 (W t) = take 4 (drop (4 * t) block) /\ 0 <= W t < 2 ^ 32) /\
  (forall t, (16 <= t < 64)%nat -> W t = (sigma1 (W (t - 2)%nat) + W (t - 7)%nat + sigma0 (W (t - 15)%nat) + W (t - 16)%nat) mod 2 ^ 32).

(** The working variables after [t] rounds (steps 2 and 3). *)
Fixpoint variables (W : nat -> Z) (H : words8) (t : nat) : words8 :=
  match t with
  | O => H
  | S t =>
      let '(mk_words a b c d e f g h) := variables W H t in
      let T1 := h + Sigma1 e + Ch e f g + nth t SHA256_K 0 + W t in
      let T2 := Sigma0 a + Maj a b c in
      mk_words ((T1 + T2) mod 2 ^ 32) a b c ((d + T1) mod 2 ^ 32) e f g
  end.

(** The next hash value (step 4). *)
Definition compress (H : words8) (block : bytes) (H' : words8) : Prop :=
  exists W, schedule block W /\ H' = add_words (variables W H 64) H.

Inductive chain : words8 -> bytes -> words8 -> Prop :=
  | chain_end H : chain H [] H
  | chain_block H block rest H1 H2 :
      len block = 64 -> compress H block H1 -> chain H1 rest H2 -> chain H (block ++ rest) H2.

(** The padded message (5.1.1). *)
Definition pad (message : bytes) : bytes :=
  message ++ [0x80] ++ zeros ((55 - len message) mod 64) ++ be 8 (8 * len message).

Definition digest (H : words8) : bytes := concat (map (be 4) [wa H; wb H; wc H; wd H; we H; wf H; wg H; wh H]).

Definition sha256 (message out : bytes) : Prop :=
  exists H, chain sha256_initial (pad message) H /\ out = digest H.

(** The constants (4.2.2, 5.3.3): [k] is the first thirty-two bits of the
    fractional part of the [n]th root of [p]. *)
Definition fraction (n p k : Z) : Prop :=
  0 <= k < 2 ^ 32 /\ exists i, 0 <= i /\ (i * 2 ^ 32 + k) ^ n <= p * 2 ^ (32 * n) < (i * 2 ^ 32 + k + 1) ^ n.

(** The first sixty-four primes: the numbers up to 311 that no smaller number
    up to 17 divides. *)
Definition prime (p : Z) : bool := forallb (fun d => (p <=? d) || negb (p mod d =? 0)) (map Z.of_nat (seq 2 16)).
Definition primes : list Z := List.filter prime (map Z.of_nat (seq 2 310)).

Definition constants : Prop :=
  Forall2 (fraction 3) primes SHA256_K /\
  Forall2 (fraction 2) (take 8 primes) (let H := sha256_initial in [wa H; wb H; wc H; wd H; we H; wf H; wg H; wh H]).
End Fips.

(** Roots up to twenty are enough for a search. *)
Definition fraction_check (n p k : Z) : bool :=
  (0 <=? k) && (k <? 2 ^ 32) &&
  existsb (fun i => ((i * 2 ^ 32 + k) ^ n <=? p * 2 ^ (32 * n)) && (p * 2 ^ (32 * n) <? (i * 2 ^ 32 + k + 1) ^ n)) (map Z.of_nat (seq 0 20)).

Lemma fraction_check_ok n p k : fraction_check n p k = true -> Fips.fraction n p k.
Proof.
  unfold fraction_check. rewrite !andb_true_iff, existsb_exists. intros [[H1 H2] (i & Hi & H3)]. apply andb_true_iff in H3 as [H3 H4].
  apply in_map_iff in Hi as (j & <- & _). split; [lia|]. exists (Z.of_nat j). lia.
Qed.

Lemma fractions_check_ok n ps ks : length ps = length ks -> forallb (fun x => fraction_check n x.1 x.2) (zip ps ks) = true -> Forall2 (Fips.fraction n) ps ks.
Proof.
  revert ks. induction ps as [|p ps IH]; intros [|k ks]; try done. cbn. intros [= Hl] [H1 H2]%andb_true_iff.
  constructor; [by apply fraction_check_ok|by apply IH].
Qed.

Lemma constants_exact : Fips.constants.
Proof. split; apply fractions_check_ok; vm_compute; reflexivity. Qed.

(** ** The compression function is the standard's *)

Definition word (x : Z) : Prop := 0 <= x < 2 ^ 32.

Definition words_in (v : words8) : Prop :=
  (word (wa v) /\ word (wb v) /\ word (wc v) /\ word (wd v)) /\ (word (we v) /\ word (wf v) /\ word (wg v) /\ word (wh v)).

Lemma word_u32 x : word (u32 x).
Proof. apply u32_range. Qed.

Lemma rotr_eq x n : word x -> 0 < n < 32 -> SHA256_ROTR x n = Fips.rotr x n.
Proof.
  intros Hx Hn. unfold SHA256_ROTR, Fips.rotr, u32. rewrite Z.shiftr_div_pow2, !Z.shiftl_mul_pow2 by lia.
  assert (0 < 2 ^ n) by (apply Z.pow_pos_nonneg; lia). assert (0 < 2 ^ (32 - n)) by (apply Z.pow_pos_nonneg; lia).
  assert (2 ^ 32 = 2 ^ n * 2 ^ (32 - n)) as E by (rewrite <- Z.pow_add_r by lia; f_equal; lia).
  rewrite E, Z.mul_mod_distr_r by lia. rewrite <- (Z.shiftl_mul_pow2 (x mod _)) at 1 by lia. apply lor_shiftl_add; [lia|].
  unfold word in Hx. split; [apply Z.div_pos; lia|]. apply Z.div_lt_upper_bound; lia.
Qed.

Lemma ch_eq x y z : word z -> SHA256_CH x y z = Fips.Ch x y z.
Proof.
  intros Hz. unfold SHA256_CH, Fips.Ch, u32. rewrite <- (Z.land_ones _ 32) by lia. rewrite <- Z.land_assoc.
  rewrite (Z.land_comm (Z.ones 32)), Z.land_ones by lia. by rewrite (Z.mod_small z) by done.
Qed.

Lemma ep0_eq x : word x -> SHA256_EP0 x = Fips.Sigma0 x.
Proof. intros. unfold SHA256_EP0, Fips.Sigma0. by rewrite !rotr_eq by (done || lia). Qed.

Lemma ep1_eq x : word x -> SHA256_EP1 x = Fips.Sigma1 x.
Proof. intros. unfold SHA256_EP1, Fips.Sigma1. by rewrite !rotr_eq by (done || lia). Qed.

Lemma sig0_eq x : word x -> SHA256_SIG0 x = Fips.sigma0 x.
Proof. intros. unfold SHA256_SIG0, Fips.sigma0. by rewrite !rotr_eq, Z.shiftr_div_pow2 by (done || lia). Qed.

Lemma sig1_eq x : word x -> SHA256_SIG1 x = Fips.sigma1 x.
Proof. intros. unfold SHA256_SIG1, Fips.sigma1. by rewrite !rotr_eq, Z.shiftr_div_pow2 by (done || lia). Qed.

Lemma extend_prefix n m : exists tail, message_extend n m = m ++ tail /\ length tail = n.
Proof.
  revert m. induction n as [|n IH]; intros m; cbn [message_extend]; [exists []; by rewrite app_nil_r|].
  destruct (IH (m ++ [u32 (SHA256_SIG1 (nth (length m - 2) m 0) + nth (length m - 7) m 0 + SHA256_SIG0 (nth (length m - 15) m 0) +
    nth (length m - 16) m 0)])) as (tail & E & Hl). rewrite E, <- app_assoc. eexists. split; [done|]. cbn. lia.
Qed.

Lemma extend_step n m t :
  (16 <= length m <= t)%nat -> (t < length m + n)%nat ->
  let r := message_extend n m in
  nth t r 0 = u32 (SHA256_SIG1 (nth (t - 2) r 0) + nth (t - 7) r 0 + SHA256_SIG0 (nth (t - 15) r 0) + nth (t - 16) r 0).
Proof.
  revert m. induction n as [|n IH]; intros m Hm Ht; [lia|]. cbn zeta. cbn [message_extend].
  set (x := u32 (SHA256_SIG1 (nth (length m - 2) m 0) + _ + _ + _)).
  destruct (decide (t = length m)) as [->|Hne].
  - destruct (extend_prefix n (m ++ [x])) as (tail & -> & _). rewrite <- app_assoc. cbn [app].
    rewrite nth_middle. rewrite !app_nth1 by lia. done.
  - apply IH; rewrite length_app; cbn; lia.
Qed.

Lemma message_word_be block t :
  bytes_ok block -> len block = 64 -> (t < 16)%nat ->
  Fips.be 4 (message_word block t) = take 4 (drop (4 * t) block) /\ word (message_word block t).
Proof.
  intros Hb Hl Ht. unfold message_word, word.
  assert (exists a b c e rest, drop (4 * t) block = a :: b :: c :: e :: rest) as (a & b & c & e & rest & E).
  { assert (4 <= length (drop (4 * t) block))%nat as Hd by (rewrite length_drop; lia).
    destruct (drop _ block) as [|a [|b [|c [|e rest]]]]; cbn in Hd; try lia. by exists a, b, c, e, rest. }
  assert (forall k, nth (4 * t + k) block 0 = nth k (drop (4 * t) block) 0) as Hn by (intros; by rewrite nth_skipn).
  pose proof (Hn 0%nat) as Hn0. rewrite Nat.add_0_r in Hn0. rewrite Hn0, !Hn, E. cbn [nth take].
  assert (bytes_ok (drop (4 * t) block)) as Hd by (by apply Forall_drop). rewrite E in Hd.
  repeat (apply list.Forall_cons in Hd as [? Hd]).
  set (A := Z.shiftl a 24). set (B := Z.shiftl b 16). set (C := Z.shiftl c 8).
  replace (Z.lor (Z.lor (Z.lor A B) C) e) with (Z.lor (Z.lor (Z.lor e C) B) A)
    by (rewrite (Z.lor_comm _ e), (Z.lor_comm (Z.lor A B) C), (Z.lor_comm A B), !Z.lor_assoc; done).
  subst A B C. rewrite (lor_shiftl_add e c 8), (lor_shiftl_add _ b 16), (lor_shiftl_add _ a 24) by lia.
  replace (e + c * 2 ^ 8 + b * 2 ^ 16 + a * 2 ^ 24) with (le_val [e; c; b; a]) by (cbn [le_val]; lia).
  assert (bytes_ok [e; c; b; a]) as Hok by (repeat (apply Forall_cons_2; [lia|]); apply Forall_nil_2).
  split; [|apply (le_val_range _ Hok)]. unfold Fips.be. pose proof (le_bytes_val _ Hok) as Ev. cbn [length] in Ev. by rewrite Ev.
Qed.

Lemma schedule_fips block :
  bytes_ok block -> len block = 64 ->
  (forall t, (t < 64)%nat -> word (nth t (message_schedule block) 0)) /\
  Fips.schedule block (fun t => nth t (message_schedule block) 0).
Proof.
  intros Hb Hl. unfold message_schedule. set (m := map (message_word block) (seq 0 16)).
  assert (length m = 16)%nat as Hm by done. destruct (extend_prefix 48 m) as (tail & E & Ht).
  assert (forall t, (t < 16)%nat -> nth t (message_extend 48 m) 0 = message_word block t) as Hlow.
  { intros t Hlt. rewrite E, app_nth1 by lia. unfold m. rewrite nth_indep with (d' := message_word block 0) by (rewrite length_map, length_seq; lia).
    by rewrite map_nth, seq_nth by lia. }
  assert (forall t, (t < 64)%nat -> word (nth t (message_extend 48 m) 0)) as Hw.
  { intros t Hlt. destruct (decide (t < 16)%nat); [rewrite Hlow by done; by apply message_word_be|].
    rewrite extend_step by lia. apply word_u32. }
  split; [done|]. split.
  - intros t Hlt. rewrite Hlow by done. by apply message_word_be.
  - intros t Hlt. rewrite extend_step at 1 by lia. by rewrite sig0_eq, sig1_eq by (apply Hw; lia).
Qed.

Lemma round_in v k m : words_in v -> words_in (sha256_round v k m).
Proof. destruct v. unfold words_in, sha256_round. cbn. intros. split_and!; (apply word_u32 || tauto). Qed.

Lemma add_words_in s v : words_in (add_words s v).
Proof. unfold words_in, add_words. cbn. split_and!; apply word_u32. Qed.

Lemma rounds_fips m H n : 
  words_in H -> 
  words_in (sha256_rounds n 0 m H) /\ sha256_rounds n 0 m H = Fips.variables (fun t => nth t m 0) H n.
Proof.
  intros HH.
  assert (forall n i v, sha256_rounds (S n) i m v = let j := (i + n)%nat in sha256_round (sha256_rounds n i m v) (nth j SHA256_K 0) (nth j m 0)) as Hlast.
  { clear. induction n as [|n IH]; intros i v; [cbn; by rewrite Nat.add_0_r|].
    change (sha256_rounds (S (S n)) i m v) with (sha256_rounds (S n) (S i) m (sha256_round v (nth i SHA256_K 0) (nth i m 0))).
    rewrite IH. cbn [sha256_rounds]. cbv zeta. by rewrite <- Nat.add_succ_comm. }
  induction n as [|n [IHin IH]]; [done|]. rewrite Hlast. cbv zeta. cbn [Nat.add]. split; [by apply round_in|].
  cbn [Fips.variables]. rewrite <- IH. clear IH. revert IHin. generalize (sha256_rounds n 0 m H). intros [a b c d e f g h] Hin.
  unfold words_in in Hin. cbn in Hin. cbn [sha256_round]. rewrite ep0_eq, ep1_eq, ch_eq by tauto.
  unfold u32. f_equal; [by rewrite <- Zplus_mod|apply Zplus_mod_idemp_r].
Qed.

Lemma transform_fips H block :
  words_in H -> bytes_ok block -> len block = 64 -> words_in (sha256_transform H block) /\ Fips.compress H block (sha256_transform H block).
Proof.
  intros HH Hb Hl. split; [apply add_words_in|]. exists (fun t => nth t (message_schedule block) 0).
  split; [by apply schedule_fips|]. unfold sha256_transform. rewrite (proj2 (rounds_fips _ H 64 HH)).
  unfold add_words. f_equal; f_equal; lia.
Qed.

Lemma chain_snoc H a H1 b H2 :
  Fips.chain H a H1 -> len b = 64 -> Fips.compress H1 b H2 -> Fips.chain H (a ++ b) H2.
Proof.
  induction 1 as [H|H block rest H0 H1 Hl Hc _ IH]; intros Hb Hc2.
  - rewrite <- (app_nil_r b). cbn [app]. by econstructor; [| |constructor].
  - rewrite <- app_assoc. econstructor; [done|done|]. by apply IH.
Qed.

(** ** The streaming context *)

(** The context has absorbed the blocks of [full] and holds the bytes of [part]. *)
Record absorbed (ctx : sha256_ctx) (full part : bytes) : Prop := {
  ab_chain : Fips.chain sha256_initial full (cx_state ctx);
  ab_words : words_in (cx_state ctx);
  ab_full : len full mod 64 = 0;
  ab_bits : cx_bitlen ctx = u64 (8 * len full);
  ab_datalen : cx_datalen ctx = len part;
  ab_part : len part < 64;
  ab_part_ok : bytes_ok part;
  ab_data : exists junk, cx_data ctx = part ++ junk /\ len (cx_data ctx) = 64
}.

Lemma initial_in : words_in sha256_initial.
Proof. by repeat split. Qed.

Lemma absorbed_init ctx : len (cx_data ctx) = 64 -> absorbed (sha256_init ctx) [] [].
Proof. intros Hl. split; cbn; [constructor|apply initial_in|done..|constructor|]. by exists (cx_data ctx). Qed.

(** A block absorbed. *)
Lemma absorbed_block buffer bits state full b :
  Fips.chain sha256_initial full state -> words_in state -> len full mod 64 = 0 -> bits = u64 (8 * len full) ->
  len buffer = 64 -> len b = 64 -> bytes_ok b ->
  absorbed (mk_ctx buffer 0 (u64 (bits + 512)) (sha256_transform state b)) (full ++ b) [].
Proof.
  intros Hc Hw Hf -> Hbuf Hb Hok. destruct (transform_fips state b Hw Hok Hb) as [Hw' Hc'].
  split; cbn; [by eapply chain_snoc|done| | |done|done|constructor|by exists buffer].
  - rewrite length_app, Nat2Z.inj_add, Hb. rewrite Z.add_mod, Hf by lia. done.
  - rewrite length_app, Nat2Z.inj_add, Hb. unfold u64. rewrite Zplus_mod_idemp_l. f_equal. lia.
Qed.

Lemma full_blocks_absorb fuel ctx full data i rest :
  absorbed ctx full [] -> bytes_ok rest -> suffix_at data i rest -> len rest / 64 <= Z.of_nat fuel ->
  exists ctx' blocks tail, rest = blocks ++ tail /\ len tail < 64 /\
    full_blocks fuel ctx data (len data) i = Some (ctx', i + len blocks) /\ absorbed ctx' (full ++ blocks) [].
Proof.
  revert ctx full i rest. induction fuel as [|fuel IH]; intros ctx full i rest Hab Hok Hs Hf; cbn [full_blocks];
    pose proof (suffix_at_len _ _ _ Hs) as Hlen; unfold SHA256_BLOCK_SIZE;
    destruct (Z.leb_spec (i + 64) (len data)).
  - assert (1 <= len rest / 64) by (apply Z.div_le_lower_bound; lia). lia.
  - exists ctx, [], rest. rewrite app_nil_r, Z.add_0_r. split_and!; [done|lia|done|done].
  - assert (rest = take 64 rest ++ drop 64 rest) as E by (by rewrite take_drop).
    assert (len (take 64 rest) = 64) as Hl by (rewrite length_take; lia). rewrite E in Hs.
    pose proof (suffix_at_ldn _ _ _ _ Hs) as Eld. rewrite Hl in Eld. rewrite Eld. cbn [mbind option_bind].
    assert (bytes_ok (take 64 rest)) by (by apply Forall_take).
    pose proof Hab as [Hc Hw Hful Hbits Hdl _ _ (junk & _ & Hjl)].
    destruct (IH (compress_block ctx (take 64 rest)) (full ++ take 64 rest) (i + 64) (drop 64 rest))
      as (ctx' & blocks & tail & Et & Htl & Eb & Hab').
    + unfold compress_block. rewrite Hdl. by apply absorbed_block.
    + by apply Forall_drop.
    + rewrite <- Hl. by apply suffix_at_app.
    + rewrite length_drop. replace (Z.of_nat (length rest - 64)) with (len rest + (-1) * 64) by lia. rewrite Z.div_add by lia. lia.
    + exists ctx', (take 64 rest ++ blocks), tail. split_and!; [by rewrite <- app_assoc, <- Et|done| |by rewrite app_assoc].
      rewrite Eb. do 2 f_equal. rewrite length_app. lia.
  - exists ctx, [], rest. rewrite app_nil_r, Z.add_0_r. split_and!; [done|lia|done|done].
Qed.

Lemma update_from_absorb ctx full data i rest :
  absorbed ctx full [] -> bytes_ok rest -> suffix_at data i rest ->
  exists ctx' full' part, update_from ctx data (len data) i = Some ctx' /\ absorbed ctx' full' part /\ full' ++ part = full ++ rest.
Proof.
  intros Hab Hok Hs. pose proof (suffix_at_len _ _ _ Hs) as Hlen. destruct (Hs) as (Hi & _ & _).
  destruct (full_blocks_absorb (Z.to_nat (len data / SHA256_BLOCK_SIZE)) ctx full data i rest) as (ctx' & blocks & tail & E & Ht & Eb & Hab');
    [done..| |].
  { unfold SHA256_BLOCK_SIZE. rewrite Z2Nat.id by (apply Z.div_pos; lia). apply Z.div_le_mono; lia. }
  unfold update_from. rewrite Eb. cbn. subst rest. rewrite length_app in Hlen. destruct (Z.ltb_spec (i + len blocks) (len data)).
  - apply suffix_at_app in Hs. rewrite <- (app_nil_r tail) in Hs.
    replace (len data - (i + len blocks)) with (len tail) by lia. rewrite (suffix_at_ldn _ _ _ _ Hs). cbn.
    destruct Hab' as [Hc Hw Hful Hbits Hdl _ _ (junk & Ej & Hjl)]. rewrite stn_Some by lia. cbn.
    eexists _, (full ++ blocks), tail. split; [done|]. split; [|by rewrite app_assoc].
    apply Forall_app in Hok as [_ Hok]. split; cbn; try done.
    + apply u32_small. lia.
    + exists (drop (length tail) (cx_data ctx')). split; [done|]. change (tail ++ drop (length tail) (cx_data ctx')) with (splice (cx_data ctx') 0 tail).
      rewrite length_splice; lia.
  - exists ctx', (full ++ blocks), []. split; [done|]. split; [done|]. destruct tail; [by rewrite !app_nil_r|]. cbn in Hlen. lia.
Qed.

Lemma update_absorb ctx full part data :
  absorbed ctx full part -> bytes_ok data ->
  exists ctx' full' part', sha256_update ctx data (len data) = Some ctx' /\ absorbed ctx' full' part' /\
    full' ++ part' = full ++ part ++ data.
Proof.
  intros Hab Hok. pose proof Hab as [Hc Hw Hful Hbits Hdl Hp Hpok (junk & Ej & Hjl)]. unfold sha256_update, SHA256_BLOCK_SIZE.
  rewrite Ej, length_app in Hjl. rewrite Hdl. destruct (Z.ltb_spec 0 (len part)) as [Hpos|Hz].
  - destruct (Z.ltb_spec (len data) (64 - len part)).
    + rewrite ldn_all. cbn. rewrite Ej, stn_Some by (rewrite ?length_app; lia). cbn. rewrite splice_after by lia.
      eexists _, full, (part ++ data). split; [done|]. split; [|done]. split; cbn; try done.
      * rewrite length_app, u32_small; lia.
      * rewrite length_app. lia.
      * by apply Forall_app.
      * exists (drop (length data) junk). rewrite app_assoc, !length_app, length_drop. split; [done|lia].
    + set (fill := 64 - len part). assert (data = take (Z.to_nat fill) data ++ drop (Z.to_nat fill) data) as Ed by (by rewrite take_drop).
      set (p := take (Z.to_nat fill) data) in *. assert (len p = fill) as Hl by (unfold p; rewrite length_take; lia).
      assert (suffix_at data 0 (p ++ drop (Z.to_nat fill) data)) as Hs by (rewrite <- Ed; apply suffix_at_0).
      pose proof (suffix_at_ldn _ _ _ _ Hs) as Eld. rewrite Hl in Eld. rewrite Eld. cbn [mbind option_bind].
      rewrite Ej, stn_Some by (rewrite ?length_app; lia). cbn [mbind option_bind]. rewrite splice_after by lia.
      rewrite drop_ge, app_nil_r by lia. pose proof (ldn_all (part ++ p)) as Ebl. rewrite length_app, Nat2Z.inj_add, Hl in Ebl.
      replace (len part + fill) with 64 in Ebl by lia. rewrite Ebl.
      cbn [mbind option_bind compress_block cx_data cx_bitlen cx_state]. apply suffix_at_app in Hs. rewrite Hl, Z.add_0_l in Hs.
      destruct (update_from_absorb (mk_ctx (part ++ p) 0 (u64 (cx_bitlen ctx + 512)) (sha256_transform (cx_state ctx) (part ++ p)))
        (full ++ part ++ p) data fill (drop (Z.to_nat fill) data)) as (ctx' & full' & part' & E & Hab' & Ef).
      * apply absorbed_block; try done; [rewrite length_app; lia..|]. apply Forall_app. split; [done|]. by apply Forall_take.
      * by apply Forall_drop.
      * done.
      * exists ctx', full', part'. split_and!; [done|done|]. by rewrite Ef, <- !app_assoc, <- Ed.
  - destruct part; [|cbn in Hz; lia]. apply update_from_absorb; [done|done|apply suffix_at_0].
Qed.

Lemma digest_be H : digest_bytes H = Fips.digest H.
Proof.
  unfold digest_bytes, Fips.digest. f_equal. apply map_ext. intros s. unfold digest_word, Fips.be, u8.
  rewrite !Z.shiftr_div_pow2 by lia. unfold le_bytes. rewrite !Z.div_div by lia. done.
Qed.

Lemma length_be n : length_bytes n = Fips.be 8 n.
Proof.
  unfold length_bytes, Fips.be, u8. rewrite !Z.shiftr_div_pow2 by lia. unfold le_bytes. rewrite !Z.div_div by lia. done.
Qed.

Lemma be_length n z : length (Fips.be n z) = n.
Proof. unfold Fips.be. by rewrite length_reverse, length_le_bytes. Qed.

Lemma be_ok n z : bytes_ok (Fips.be n z).
Proof. unfold Fips.be. apply Forall_reverse, le_bytes_ok. Qed.

Lemma be_mod n z : Fips.be n (z mod 2 ^ (8 * Z.of_nat n)) = Fips.be n z.
Proof.
  unfold Fips.be. f_equal. revert z. induction n as [|n IH]; intros z; [done|].
  assert (2 ^ (8 * Z.of_nat (S n)) = 256 * 2 ^ (8 * Z.of_nat n)) as -> by (replace (8 * Z.of_nat (S n)) with (8 + 8 * Z.of_nat n) by lia; by rewrite Z.pow_add_r by lia).
  assert (0 < 2 ^ (8 * Z.of_nat n)) by (apply Z.pow_pos_nonneg; lia).
  rewrite Z.rem_mul_r by lia. set (q := (z / 256) mod _). rewrite (Z.mul_comm 256 q). unfold le_bytes; fold le_bytes. rewrite Z.mod_add, Z.div_add, Z.mod_mod by lia.
  rewrite (Z.div_small (z mod 256)), Z.add_0_l by (by apply Z.mod_pos_bound). unfold q. by rewrite IH.
Qed.

Lemma zeros_length n : 0 <= n -> len (zeros n) = n.
Proof. intros. unfold zeros. rewrite length_replicate. lia. Qed.

Lemma zeros_app a b : 0 <= a -> 0 <= b -> zeros a ++ zeros b = zeros (a + b).
Proof. intros. unfold zeros. rewrite <- replicate_add. f_equal. lia. Qed.

Lemma zeros_ok n : bytes_ok (zeros n).
Proof. unfold zeros. by apply Forall_replicate. Qed.

(** The padding of a message of the blocks of [full] and of [part]. *)
Lemma pad_split full part :
  len full mod 64 = 0 -> len part < 64 ->
  Fips.pad (full ++ part) =
    if len part <? 56 then full ++ (part ++ [0x80] ++ zeros (55 - len part) ++ Fips.be 8 (8 * len (full ++ part)))
    else (full ++ (part ++ [0x80] ++ zeros (63 - len part))) ++ zeros 56 ++ Fips.be 8 (8 * len (full ++ part)).
Proof.
  intros Hf Hp. unfold Fips.pad. set (b := Fips.be 8 _).
  assert ((55 - len (full ++ part)) mod 64 = if len part <? 56 then 55 - len part else 119 - len part) as ->.
  { rewrite length_app, Nat2Z.inj_add. replace (55 - (len full + len part)) with (55 - len part - len full) by lia.
    rewrite Zminus_mod, Hf, Z.sub_0_r, Z.mod_mod by lia. destruct (Z.ltb_spec (len part) 56); [by rewrite Z.mod_small by lia|].
    replace (55 - len part) with (119 - len part + (-1) * 64) by lia. by rewrite Z.mod_add, Z.mod_small by lia. }
  destruct (Z.ltb_spec (len part) 56); [by rewrite <- !app_assoc|].
  replace (119 - len part) with (63 - len part + 56) by lia. rewrite <- zeros_app by lia. by rewrite <- !app_assoc.
Qed.

(** The last block: the length over the end of the buffer, and the digest. *)
Lemma last_block message datalen bitlen state pre l bits :
  len l = 56 -> len bits = 8 -> bytes_ok l -> bytes_ok bits -> words_in state -> Fips.chain sha256_initial pre state ->
  Fips.pad message = pre ++ l ++ bits -> forall junk, len junk = 8 ->
  exists ctx' out, (data ← stn (l ++ junk) 56 bits; block ← ldn data 0 SHA256_BLOCK_SIZE;
    Some (mk_ctx data datalen bitlen (sha256_transform state block), digest_bytes (sha256_transform state block)))
    = Some (ctx', out) /\ Fips.sha256 message out /\ len (cx_data ctx') = 64.
Proof.
  intros Hl Hbl Hlok Hbok Hst Hpre Hpad jk Hj. rewrite stn_Some by (rewrite ?length_app; lia). cbn [mbind option_bind].
  replace 56 with (len l) by lia. rewrite splice_after, drop_ge, app_nil_r by lia.
  assert (len (l ++ bits) = 64) as H64 by (rewrite length_app; lia).
  pose proof (ldn_all (l ++ bits)) as Ebl. rewrite H64 in Ebl. unfold SHA256_BLOCK_SIZE. rewrite Ebl. cbn [mbind option_bind].
  eexists _, _. split; [done|]. split; [|done]. eexists. split; [|apply digest_be]. rewrite Hpad.
  assert (bytes_ok (l ++ bits)) as Hok by (by apply Forall_app). destruct (transform_fips state _ Hst Hok H64). by eapply chain_snoc.
Qed.

Lemma final_absorb ctx full part :
  absorbed ctx full part ->
  exists ctx' out, sha256_final ctx = Some (ctx', out) /\ Fips.sha256 (full ++ part) out /\ len (cx_data ctx') = 64.
Proof.
  intros Hab. pose proof Hab as [Hc Hw Hful Hbits Hdl Hp Hpok (junk & Ej & Hjl)]. rewrite Ej, length_app in Hjl.
  unfold sha256_final. rewrite Hdl, Ej, st_splice by (rewrite length_app; lia). cbn [mbind option_bind].
  assert (u64 (cx_bitlen ctx + len part * 8) = u64 (8 * len (full ++ part))) as ->.
  { rewrite Hbits, length_app. unfold u64. rewrite Zplus_mod_idemp_l. f_equal. lia. }
  rewrite length_be. unfold u64. change (2 ^ 64) with (2 ^ (8 * Z.of_nat 8)). rewrite be_mod.
  set (bits := Fips.be 8 _). assert (len bits = 8) as Hbl by (unfold bits; by rewrite be_length).
  assert (bytes_ok bits) as Hbok by apply be_ok.
  pose proof (fun state l Hl Hlok Hst pre Hpre Hpad => last_block (full ++ part) (len part) (8 * len (full ++ part) mod 2 ^ (8 * Z.of_nat 8))
    state pre l bits Hl Hbl Hlok Hbok Hst Hpre Hpad) as Hend.
  pose proof (pad_split full part Hful Hp) as Hpad. fold bits in Hpad. rewrite splice_after by (cbn; lia).
  assert (len (part ++ [128]) = len part + 1) as Hl1 by (rewrite length_app; cbn; lia).
  rewrite app_assoc. rewrite <- Hl1. set (head := part ++ [128]) in *. set (jk := drop (length [128]) junk).
  assert (len head + len jk = 64) as Hjk by (unfold jk; rewrite length_drop; cbn [length]; lia).
  assert (bytes_ok head) as Hhead by (unfold head; apply Forall_app; split; [done|by repeat constructor]).
  assert (forall n, 0 <= n <= len jk -> stn (head ++ jk) (len head) (zeros n) = Some ((head ++ zeros n) ++ drop (Z.to_nat n) jk)) as Hst.
  { intros n Hn. rewrite stn_Some by (rewrite ?length_app, ?zeros_length; lia). rewrite splice_after by (rewrite zeros_length; lia).
    unfold zeros at 2. by rewrite length_replicate, app_assoc. }
  assert (forall n, 0 <= n -> bytes_ok (head ++ zeros n) /\ len (head ++ zeros n) = len head + n) as Hz.
  { intros n Hn. split; [apply Forall_app; split; [done|apply zeros_ok]|]. rewrite length_app, Nat2Z.inj_add, zeros_length; lia. }
  rewrite Hl1 in *. destruct (Z.ltb_spec (len part) 56).
  - rewrite Hst by lia. cbn [mbind option_bind]. destruct (Hz (56 - (len part + 1)) ltac:(lia)) as [Hzo Hzl].
    apply (Hend _ (head ++ zeros (56 - (len part + 1))) ltac:(lia) Hzo Hw full Hc); [|rewrite length_drop; lia].
    rewrite Hpad. unfold head. replace (56 - (len part + 1)) with (55 - len part) by lia. by rewrite <- !app_assoc.
  - unfold SHA256_BLOCK_SIZE. rewrite Hst by lia. cbn [mbind option_bind]. destruct (Hz (64 - (len part + 1)) ltac:(lia)) as [Hzo Hzl].
    rewrite drop_ge, app_nil_r by lia. pose proof (ldn_all (head ++ zeros (64 - (len part + 1)))) as Ebl. rewrite Hzl in Ebl.
    replace (len part + 1 + (64 - (len part + 1))) with 64 in Ebl by lia. rewrite Ebl. cbn [mbind option_bind].
    rewrite stn_Some by (rewrite ?zeros_length; lia). cbn [mbind option_bind].
    assert (len (head ++ zeros (64 - (len part + 1))) = 64) as H64 by lia. destruct (transform_fips (cx_state ctx) _ Hw Hzo H64) as [Hw' Hc'].
    change (splice ?d 0 ?l) with (l ++ drop (0 + length l) d).
    apply (Hend _ (zeros 56) ltac:(done) (zeros_ok _) Hw' _ (chain_snoc _ _ _ _ _ Hc H64 Hc')).
    + rewrite Hpad. unfold head. replace (64 - (len part + 1)) with (63 - len part) by lia. by rewrite <- !app_assoc.
    + rewrite length_drop. change (length (zeros 56)) with 56%nat. lia.
Qed.

(** Calls of sha256_update one after the other, each on a whole object. *)
Fixpoint sha256_updates (ctx : sha256_ctx) (chunks : list bytes) : option sha256_ctx :=
  match chunks with
  | [] => Some ctx
  | chunk :: chunks => ctx ← sha256_update ctx chunk (len chunk); sha256_updates ctx chunks
  end.

Lemma updates_absorb ctx full part chunks :
  absorbed ctx full part -> Forall bytes_ok chunks ->
  exists ctx' full' part', sha256_updates ctx chunks = Some ctx' /\ absorbed ctx' full' part' /\ full' ++ part' = full ++ part ++ concat chunks.
Proof.
  intros Hab Hok. revert ctx full part Hab. induction Hok as [|chunk chunks Hc _ IH]; intros ctx full part Hab.
  { exists ctx, full, part. cbn. by rewrite app_nil_r. }
  destruct (update_absorb ctx full part chunk Hab Hc) as (ctx1 & full1 & part1 & E1 & Hab1 & Ef1).
  destruct (IH _ _ _ Hab1) as (ctx2 & full2 & part2 & E2 & Hab2 & Ef2). exists ctx2, full2, part2.
  cbn [sha256_updates]. rewrite E1. cbn [mbind option_bind]. split_and!; [done|done|]. rewrite Ef2, app_assoc, Ef1. cbn [concat].
  by rewrite <- !app_assoc.
Qed.

(** A context, whatever its bytes, after an initialisation. *)
Lemma stream_digest ctx chunks :
  len (cx_data ctx) = 64 -> Forall bytes_ok chunks ->
  exists ctx1 ctx2 out, sha256_updates (sha256_init ctx) chunks = Some ctx1 /\ sha256_final ctx1 = Some (ctx2, out) /\
    Fips.sha256 (concat chunks) out /\ len (cx_data ctx2) = 64.
Proof.
  intros Hl Hok. destruct (updates_absorb _ _ _ chunks (absorbed_init ctx Hl) Hok) as (ctx1 & full & part & E1 & Hab & Ef).
  destruct (final_absorb _ _ _ Hab) as (ctx2 & out & E2 & Hs & Hd). rewrite Ef in Hs. by exists ctx1, ctx2, out.
Qed.

Lemma sha256_out message out : Fips.sha256 message out -> len out = 32 /\ bytes_ok out.
Proof.
  intros (H & _ & ->). unfold Fips.digest. cbn [map concat]. rewrite !length_app, !be_length. split; [done|].
  repeat (apply Forall_app; split); try apply be_ok. apply Forall_nil_2.
Qed.

Lemma hash_digest ctx data :
  len (cx_data ctx) = 64 -> bytes_ok data -> exists out, sha256_hash ctx data (len data) = Some out /\ Fips.sha256 data out.
Proof.
  intros Hl Hok. destruct (stream_digest ctx [data] Hl ltac:(by repeat constructor)) as (ctx1 & ctx2 & out & E1 & E2 & Hs & _).
  cbn in Hs. rewrite app_nil_r in Hs. exists out. split; [|done]. unfold sha256_hash. cbn [sha256_updates] in E1.
  destruct (sha256_update _ data _) as [c|]; [|done]. cbn in *. injection E1 as ->. by rewrite E2.
Qed.

(** C7. The streaming digest is SHA-256 of FIPS 180-4, for every message and
    every way of cutting it into pieces: after an initialisation of any context,
    updates with the pieces and the final call succeed, no access leaves the
    64-byte buffer or the input, and the 32 bytes are the standard's digest of
    the concatenation - its padding, message schedule, rounds and byte order,
    with the constants the standard takes from the roots of the first primes. *)
Theorem sha256_stream_exact ctx chunks :
  len (cx_data ctx) = 64 -> Forall bytes_ok chunks ->
  exists ctx1 ctx2 out, sha256_updates (sha256_init ctx) chunks = Some ctx1 /\ sha256_final ctx1 = Some (ctx2, out) /\
    Fips.sha256 (concat chunks) out /\ len out = SHA256_DIGEST_SIZE /\ Fips.constants.
Proof.
  intros Hl Hok. destruct (stream_digest ctx chunks Hl Hok) as (ctx1 & ctx2 & out & E1 & E2 & Hs & _).
  exists ctx1, ctx2, out. split_and!; [done..| |exact constants_exact]. by apply (sha256_out (concat chunks)).
Qed.

(** RFC 2104 over that digest. *)
Definition hmac_key (key k0 : bytes) : Prop :=
  if 64 <? len key then exists hashed, Fips.sha256 key hashed /\ k0 = hashed ++ zeros 32 else k0 = key ++ zeros (64 - len key).

Definition hmac_spec (key data out : bytes) : Prop :=
  exists k0 inner, hmac_key key k0 /\
    Fips.sha256 (map (Z.lxor 0x36) k0 ++ data) inner /\ Fips.sha256 (map (Z.lxor 0x5c) k0 ++ inner) out.

Lemma xor_pad (c : Z) (k : bytes) :
  0 <= c < 256 -> bytes_ok k -> map (fun b => u8 (Z.lxor b c)) k = map (Z.lxor c) k /\ bytes_ok (map (Z.lxor c) k).
Proof.
  intros Hc. induction 1 as [|b k Hb _ [IH1 IH2]]; cbn [map]; [split; [done|apply Forall_nil_2]|].
  pose proof (lxor_range c b 8 ltac:(lia) ltac:(lia) ltac:(lia)). rewrite Z.lxor_comm at 1. rewrite u8_small by lia. rewrite IH1.
  split; [done|]. by apply Forall_cons_2.
Qed.

Lemma key_block ctx key :
  len (cx_data ctx) = 64 -> bytes_ok key ->
  exists k0, (if SHA256_BLOCK_SIZE <? len key then digest ← sha256_hash ctx key (len key); stn (zeros SHA256_BLOCK_SIZE) 0 digest
    else bs ← ldn key 0 (len key); stn (zeros SHA256_BLOCK_SIZE) 0 bs) = Some k0 /\ hmac_key key k0 /\ bytes_ok k0 /\ len k0 = 64.
Proof.
  intros Hl Hok. unfold SHA256_BLOCK_SIZE, hmac_key.
  assert (forall bs, len bs <= 64 -> bytes_ok bs -> let k0 := bs ++ zeros (64 - len bs) in stn (zeros 64) 0 bs = Some k0 /\ bytes_ok k0 /\ len k0 = 64) as Hst.
  { intros bs Hbs Hb. cbv zeta. rewrite stn_Some by (rewrite ?zeros_length; lia). unfold splice. rewrite take_0. cbn [app Z.to_nat Nat.add].
    unfold zeros. rewrite drop_replicate. split_and!.
    - do 3 f_equal. lia.
    - apply Forall_app. split; [done|apply zeros_ok].
    - rewrite length_app, length_replicate. lia. }
  destruct (Z.ltb_spec 64 (len key)).
  - destruct (hash_digest ctx key Hl Hok) as (out & -> & Hs). destruct (sha256_out _ _ Hs) as [Ho Hob]. cbn [mbind option_bind].
    destruct (Hst out ltac:(lia) Hob) as (-> & Hk & Hkl). rewrite Ho in *. eexists. split; [done|]. split; [by exists out|done].
  - rewrite ldn_all. cbn [mbind option_bind]. destruct (Hst key ltac:(lia) Hok) as (-> & Hk & Hkl). by eexists.
Qed.

Lemma two_updates ctx a b :
  len (cx_data ctx) = 64 -> bytes_ok a -> bytes_ok b ->
  exists c1 c2 c3 out, sha256_update (sha256_init ctx) a (len a) = Some c1 /\ sha256_update c1 b (len b) = Some c2 /\
    sha256_final c2 = Some (c3, out) /\ Fips.sha256 (a ++ b) out /\ len (cx_data c3) = 64.
Proof.
  intros Hl Ha Hb. destruct (stream_digest ctx [a; b] Hl ltac:(by repeat apply Forall_cons_2)) as (c2 & c3 & out & E1 & E2 & Hs & Hl2).
  cbn [sha256_updates concat] in E1, Hs. rewrite app_nil_r in Hs.
  destruct (sha256_update (sha256_init ctx) a _) as [c1|]; [|done]. cbn [mbind option_bind] in E1.
  destruct (sha256_update c1 b _) as [c|] eqn:Eb; [|done]. injection E1 as ->. by exists c1, c2, c3, out.
Qed.

(** C36. hmac_sha256 is HMAC of RFC 2104 over SHA-256: for a key of any length -
    longer than a block it is hashed, otherwise padded with zeros - and any data,
    it succeeds and its 32 bytes are H(opad || H(ipad || data)). *)
Theorem hmac_sha256_exact ctx key data :
  len (cx_data ctx) = 64 -> bytes_ok key -> bytes_ok data ->
  exists out, hmac_sha256 ctx key (len key) data (len data) = Some out /\ hmac_spec key data out /\ len out = SHA256_DIGEST_SIZE.
Proof.
  intros Hl Hk Hd. destruct (key_block ctx key Hl Hk) as (k0 & Ek & Hkey & Hk0 & Hkl). unfold hmac_sha256. rewrite Ek. cbn [mbind option_bind].
  destruct (xor_pad 0x36 k0 ltac:(lia) Hk0) as [-> Hi]. destruct (xor_pad 0x5c k0 ltac:(lia) Hk0) as [-> Ho].
  assert (forall c, len (map (Z.lxor c) k0) = SHA256_BLOCK_SIZE) as Hlen by (intros; by rewrite length_map).
  destruct (two_updates ctx (map (Z.lxor 0x36) k0) data Hl Hi Hd) as (c1 & c2 & c3 & inner & E1 & E2 & E3 & Hs1 & Hl3).
  rewrite Hlen in E1. rewrite E1. cbn [mbind option_bind]. rewrite E2. cbn [mbind option_bind]. rewrite E3. cbn [mbind option_bind].
  destruct (sha256_out _ _ Hs1) as [Hil Hib].
  destruct (two_updates c3 (map (Z.lxor 0x5c) k0) inner Hl3 Ho Hib) as (c4 & c5 & c6 & out & E4 & E5 & E6 & Hs2 & _).
  rewrite Hlen in E4. rewrite Hil in E5. change SHA256_DIGEST_SIZE with 32.
  rewrite E4. cbn [mbind option_bind]. rewrite E5. cbn [mbind option_bind]. rewrite E6. cbn [mbind option_bind].
  exists out. split; [done|]. split; [by exists k0, inner|]. apply (sha256_out _ _ Hs2).
Qed.

(** ** Witnesses *)

Definition stack_ctx : sha256_ctx := mk_ctx (replicate 64 0xAA) 7 9 sha256_initial.

(** The digest of "abc" of FIPS 180-4, in two pieces. *)
Lemma sha256_stream_exact_witness :
  exists ctx1 ctx2 out, sha256_updates (sha256_init stack_ctx) [[97]; [98; 99]] = Some ctx1 /\ sha256_final ctx1 = Some (ctx2, out) /\
    Fips.sha256 [97; 98; 99] out /\
    out = [0xba; 0x78; 0x16; 0xbf; 0x8f; 0x01; 0xcf; 0xea; 0x41; 0x41; 0x40; 0xde; 0x5d; 0xae; 0x22; 0x23;
           0xb0; 0x03; 0x61; 0xa3; 0x96; 0x17; 0x7a; 0x9c; 0xb4; 0x10; 0xff; 0x61; 0xf2; 0x00; 0x15; 0xad].
Proof.
  destruct (sha256_stream_exact stack_ctx [[97]; [98; 99]] eq_refl
    (Forall_cons_2 bytes_ok [97] [[98; 99]] (bytes_okb_ok [97] eq_refl) (Forall_cons_2 bytes_ok [98; 99] [] (bytes_okb_ok [98; 99] eq_refl) (Forall_nil_2 _))))
    as (ctx1 & ctx2 & out & E1 & E2 & Hs & _).
  exists ctx1, ctx2, out. split; [exact E1|]. split; [exact E2|]. split; [exact Hs|].
  vm_compute in E1. injection E1 as <-. vm_compute in E2. injection E2 as <- <-. reflexivity.
Defined.

(** Test case 2 of RFC 4231. *)
Definition rfc_message : bytes :=
  [119; 104; 97; 116; 32; 100; 111; 32; 121; 97; 32; 119; 97; 110; 116; 32; 102; 111; 114; 32; 110; 111; 116; 104; 105; 110; 103; 63].

Lemma hmac_sha256_exact_witness :
  exists out, hmac_spec [74; 101; 102; 101] rfc_message out /\
    out = [0x5b; 0xdc; 0xc1; 0x46; 0xbf; 0x60; 0x75; 0x4e; 0x6a; 0x04; 0x24; 0x26; 0x08; 0x95; 0x75; 0xc7;
           0x5a; 0x00; 0x3f; 0x08; 0x9d; 0x27; 0x39; 0x83; 0x9d; 0xec; 0x58; 0xb9; 0x64; 0xec; 0x38; 0x43].
Proof.
  destruct (hmac_sha256_exact stack_ctx [74; 101; 102; 101] rfc_message eq_refl
    ltac:(by apply bytes_okb_ok) ltac:(by apply bytes_okb_ok)) as (out & E & Hs & _).
  exists out. split; [exact Hs|]. vm_compute in E. by injection E as <-.
Defined.
