(* ===== verification/RespToken.v ===== *)
(** * RESP tokens (redis/parser/redis_resp_parser.re)

    The header lines of the Redis protocol: the rules of the scanner, the
    decimal integers and the token of a line. The theorems relate them to the
    grammar of the protocol. *)

From S2P Require Import Prelude.

Definition CR : Z := 13.
Definition LF : Z := 10.
Definition MINUS : Z := 45.
Definition PLUS : Z := 43.
Definition COLON : Z := 58.
Definition DOLLAR : Z := 36.
Definition STAR : Z := 42.
Definition INT64_MAX : Z := 2 ^ 63 - 1.
Definition INT64_MIN : Z := - 2 ^ 63.

Definition is_digit (c : Z) : bool := (48 <=? c) && (c <=? 57).

(** ** The scanner *)

Definition starts_crlf (l : bytes) : bool :=
  match l with c :: d :: _ => (c =? CR) && (d =? LF) | _ => false end.

(** [^\r\n]* "\r\n" *)
Fixpoint match_simple (l : bytes) : bool :=
  match l with
  | [] => false
  | c :: rest => if (c =? CR) || (c =? LF) then starts_crlf l else match_simple rest
  end.

(** [0-9]* "\r\n" *)
Fixpoint match_digits (l : bytes) : bool :=
  match l with
  | [] => false
  | c :: rest => if is_digit c then match_digits rest else starts_crlf l
  end.

(** "-"? [0-9]+ "\r\n" *)
Definition match_number (l : bytes) : bool :=
  let l := match l with c :: rest => if c =? MINUS then rest else l | [] => l end in
  match l with c :: rest => is_digit c && match_digits rest | [] => false end.

(** The type of the line when one of the rules SIMPLE and NUMBER matches. *)
Definition redis_resp_scan_header (data : bytes) : option Z :=
  match data with
  | [] => None
  | c :: rest =>
      if (c =? PLUS) || (c =? MINUS) then (if match_simple rest then Some c else None)
      else if (c =? COLON) || (c =? DOLLAR) || (c =? STAR) then (if match_number rest then Some c else None)
      else None
  end.

(** The loop over the digits; [None] is the return of -1. *)
Fixpoint parse_digits (limit magnitude : Z) (l : bytes) : option Z :=
  match l with
  | [] => Some magnitude
  | c :: rest =>
      if (c <? 48) || (57 <? c) then None
      else
        let digit := c - 48 in
        if (limit - digit) / 10 <? magnitude then None
        else parse_digits limit (u64 (magnitude * 10 + digit)) rest
  end.

Definition redis_resp_parse_integer (data : bytes) : option Z :=
  match data with
  | [] => None
  | c :: rest =>
      if c =? MINUS then
        match rest with
        | [] => None
        | _ :: _ =>
            match parse_digits (INT64_MAX + 1) 0 rest with
            | Some magnitude => Some (if magnitude =? INT64_MAX + 1 then INT64_MIN else - magnitude)
            | None => None
            end
        end
      else parse_digits INT64_MAX 0 data
  end.

Record redis_resp_token_t : Type := mk_token {
  tk_type : Z;
  tk_int_value : Z;
  tk_header_len : Z;
  tk_value : bytes
}.

(** The returns 1, 0 and -1 of the token scanner. *)
Inductive scanned : Type :=
  | ScanToken (token : redis_resp_token_t)
  | ScanMore
  | ScanError.

(** memchr *)
Fixpoint memchr (l : bytes) (c : Z) : option nat :=
  match l with
  | [] => None
  | b :: rest => if b =? c then Some O else match memchr rest c with Some n => Some (S n) | None => None end
  end.

(** On the [len data] bytes at a pointer. [k] counts from [data + 1]. *)
Definition redis_resp_scan_token (data : bytes) : scanned :=
  match memchr (drop 1 data) LF with
  | None => ScanMore
  | Some k =>
      if (k =? 0)%nat || negb (nth k data 0 =? CR) then ScanError
      else
        let header_len := (k + 2)%nat in
        match redis_resp_scan_header (take header_len data) with
        | None => ScanError
        | Some type =>
            let value := take (k - 1) (drop 1 data) in
            if (type =? COLON) || (type =? DOLLAR) || (type =? STAR) then
              match redis_resp_parse_integer value with
              | Some int_value => ScanToken (mk_token type int_value (Z.of_nat header_len) value)
              | None => ScanError
              end
            else ScanToken (mk_token type 0 (Z.of_nat header_len) value)
        end
  end.

(** ** The grammar *)

(** The characters of a line. *)
Definition line_ok (l : bytes) : Prop := Forall (fun c => c <> CR /\ c <> LF) l.

(** The value of a text of digits. *)
Definition digits_value (l : bytes) : Z := fold_left (fun v c => v * 10 + (c - 48)) l 0.

(** An optional sign and at least one digit; leading zeros are allowed. *)
Inductive number_text : bytes -> Z -> Prop :=
  | number_plus l : l <> [] -> Forall (fun c => is_digit c = true) l -> digits_value l <= INT64_MAX -> number_text l (digits_value l)
  | number_minus l : l <> [] -> Forall (fun c => is_digit c = true) l -> digits_value l <= INT64_MAX + 1 ->
      number_text (MINUS :: l) (- digits_value l).

(** The line of a token. *)
Inductive token_line : bytes -> redis_resp_token_t -> Prop :=
  | line_simple c l : c = PLUS \/ c = MINUS -> line_ok l -> token_line ((c :: l) ++ [CR; LF]) (mk_token c 0 (len l + 3) l)
  | line_number c l z : c = COLON \/ c = DOLLAR \/ c = STAR -> number_text l z ->
      token_line ((c :: l) ++ [CR; LF]) (mk_token c z (len l + 3) l).

(** ** Integers *)

Definition all_digits (l : bytes) : Prop := Forall (fun c => is_digit c = true) l.

Lemma digits_from m l : fold_left (fun v c => v * 10 + (c - 48)) l m = m * 10 ^ len l + digits_value l.
Proof.
  unfold digits_value. revert m. induction l as [|c l IH]; intros m; cbn [fold_left length]; [change (10 ^ len []) with 1; lia|].
  rewrite IH, (IH (0 * 10 + (c - 48))). rewrite Nat2Z.inj_succ, Z.pow_succ_r by lia. lia.
Qed.

Lemma digits_nonneg l : all_digits l -> 0 <= digits_value l.
Proof.
  assert (forall m, 0 <= m -> all_digits l -> 0 <= fold_left (fun v c => v * 10 + (c - 48)) l m) as H; [|by apply H].
  intros m Hm H. revert m Hm. induction H as [|c l Hc _ IH]; intros m Hm; cbn [fold_left]; [done|]. apply IH. unfold is_digit in Hc. blia.
Qed.

Lemma parse_digits_exact limit m l :
  9 <= limit < 2 ^ 64 -> 0 <= m <= limit -> all_digits l ->
  parse_digits limit m l = let v := m * 10 ^ len l + digits_value l in if v <=? limit then Some v else None.
Proof.
  intros Hlim Hm Hall. cbv zeta. revert m Hm. induction Hall as [|c l Hc Hl IH]; intros m Hm; cbn [parse_digits].
  { change (digits_value []) with 0. change (10 ^ len []) with 1. rewrite Z.mul_1_r, Z.add_0_r, (proj2 (Z.leb_le _ _)) by lia. done. }
  unfold is_digit in Hc. rewrite (proj2 (orb_false_iff _ _)) by blia. bsimp.
  rewrite <- digits_from. cbn [fold_left]. rewrite digits_from.
  pose proof (Z.pow_pos_nonneg 10 (len l) ltac:(lia) ltac:(lia)). pose proof (digits_nonneg l Hl).
  destruct (Z.ltb_spec ((limit - (c - 48)) / 10) m) as [Hlt|Hge].
  - rewrite (proj2 (Z.leb_gt _ _)); [done|]. assert (limit < m * 10 + (c - 48)); [|nia].
    pose proof (Z.mul_succ_div_gt (limit - (c - 48)) 10 ltac:(lia)). lia.
  - pose proof (Z.mul_div_le (limit - (c - 48)) 10 ltac:(lia)). rewrite u64_small by lia. apply IH. lia.
Qed.

Lemma parse_digits_digits limit m l v : parse_digits limit m l = Some v -> all_digits l.
Proof.
  revert m. induction l as [|c l IH]; intros m; cbn [parse_digits]; [by constructor|].
  case_match eqn:Ec; [done|]. case_match; [done|]. intros Hd%IH. constructor; [|done]. unfold is_digit. bsimp. blia.
Qed.

Lemma digit_minus c : is_digit c = true -> (c =? MINUS) = false.
Proof. unfold is_digit, MINUS. intros. apply Z.eqb_neq. blia. Qed.

(** redis_resp_parse_integer reads exactly the signed decimal texts of 64 bits. *)
Lemma parse_integer_exact l z : redis_resp_parse_integer l = Some z <-> number_text l z.
Proof.
  unfold redis_resp_parse_integer. split.
  - destruct l as [|c l]; [done|]. destruct (Z.eqb_spec c MINUS) as [->|Hc].
    + destruct l as [|d l]; [done|]. destruct (parse_digits _ 0 (d :: l)) as [v|] eqn:E; [|done]. intros [= <-].
      pose proof (parse_digits_digits _ _ _ _ E) as Hd. rewrite parse_digits_exact in E by (unfold INT64_MAX; done || lia). cbv zeta in E.
      rewrite Z.mul_0_l, Z.add_0_l in E. case_match eqn:El; [|done]. injection E as <-. bsimp.
      assert ((if digits_value (d :: l) =? INT64_MAX + 1 then INT64_MIN else - digits_value (d :: l)) = - digits_value (d :: l)) as ->.
      { case_match eqn:Eq; [|done]. bsimp. rewrite Eq. done. }
      by apply number_minus.
    + intros E. pose proof (parse_digits_digits _ _ _ _ E) as Hd. rewrite parse_digits_exact in E by (unfold INT64_MAX; done || lia). cbv zeta in E.
      rewrite Z.mul_0_l, Z.add_0_l in E. case_match eqn:El; [|done]. injection E as <-. bsimp. by apply number_plus.
  - intros [m Hne Hd Hle|m Hne Hd Hle].
    + destruct m as [|c m]; [done|]. rewrite digit_minus by (by apply list.Forall_cons in Hd as [? _]).
      rewrite parse_digits_exact by (unfold INT64_MAX; done || lia). cbv zeta. by rewrite Z.mul_0_l, Z.add_0_l, (proj2 (Z.leb_le _ _)).
    + rewrite Z.eqb_refl. destruct m as [|c m]; [done|]. rewrite parse_digits_exact by (unfold INT64_MAX; done || lia). cbv zeta.
      rewrite Z.mul_0_l, Z.add_0_l, (proj2 (Z.leb_le _ _)) by done. f_equal. case_match eqn:Eq; [|done]. bsimp. by rewrite Eq.
Qed.

(** ** Lines *)

Lemma digit_line c : is_digit c = true -> c <> CR /\ c <> LF.
Proof. unfold is_digit, CR, LF. intros. blia. Qed.

Lemma number_line l z : number_text l z -> line_ok l.
Proof.
  assert (forall l, all_digits l -> line_ok l) as H by (intros ?; apply Forall_impl, digit_line).
  intros [m _ Hd _|m _ Hd _]; [by apply H|]. constructor; [done|by apply H].
Qed.

Lemma match_simple_exact l : match_simple l = true <-> exists a rest, l = a ++ CR :: LF :: rest /\ line_ok a.
Proof.
  induction l as [|c l IH]; cbn [match_simple]; [split; [done|]; intros (a & rest & E & _); by destruct a|].
  destruct ((c =? CR) || (c =? LF)) eqn:Ec.
  - split.
    + cbn [starts_crlf]. destruct l as [|d l]; [done|]. intros [->%Z.eqb_eq ->%Z.eqb_eq]%andb_true_iff. exists [], l. split; [done|constructor].
    + intros ([|b a] & rest & E & Ha); injection E as -> ->; [done|]. apply list.Forall_cons in Ha as [Hb _]. exfalso. bsimp. blia.
  - rewrite IH. bsimp. split; intros (a & rest & E & Ha).
    + exists (c :: a), rest. subst l. split; [done|]. constructor; [|done]. split; blia.
    + destruct a as [|b a]; injection E as -> ->; [done|]. apply list.Forall_cons in Ha as [_ Ha]. by exists a, rest.
Qed.

Lemma match_digits_exact l : match_digits l = true <-> exists a rest, l = a ++ CR :: LF :: rest /\ all_digits a.
Proof.
  induction l as [|c l IH]; cbn [match_digits]; [split; [done|]; intros (a & rest & E & _); by destruct a|].
  destruct (is_digit c) eqn:Ec.
  - rewrite IH. split; intros (a & rest & E & Ha).
    + exists (c :: a), rest. subst l. split; [done|by constructor].
    + destruct a as [|b a]; injection E as -> ->; [done|]. apply list.Forall_cons in Ha as [_ Ha]. by exists a, rest.
  - split.
    + cbn [starts_crlf]. destruct l as [|d l]; [done|]. intros [->%Z.eqb_eq ->%Z.eqb_eq]%andb_true_iff. exists [], l. split; [done|constructor].
    + intros ([|b a] & rest & E & Ha); injection E as -> ->; [done|]. apply list.Forall_cons in Ha as [Hb _]. congruence.
Qed.

Lemma match_number_line l z rest : number_text l z -> match_number (l ++ CR :: LF :: rest) = true.
Proof.
  intros [m Hne Hd _|m Hne Hd _]; unfold match_number.
  - destruct m as [|c m]; [done|]. apply list.Forall_cons in Hd as [Hc Hd]. cbn [app]. rewrite digit_minus, Hc by done.
    apply match_digits_exact. by exists m, rest.
  - cbn [app]. rewrite Z.eqb_refl. destruct m as [|c m]; [done|]. apply list.Forall_cons in Hd as [Hc Hd]. cbn [app]. rewrite Hc.
    apply match_digits_exact. by exists m, rest.
Qed.

Lemma memchr_line l c rest : Forall (fun b => b <> c) l -> memchr (l ++ c :: rest) c = Some (length l).
Proof.
  induction 1 as [|b l Hb _ IH]; cbn [app memchr length]; [by rewrite Z.eqb_refl|]. apply Z.eqb_neq in Hb. by rewrite Hb, IH.
Qed.

Lemma memchr_Some l c n : memchr l c = Some n -> exists a rest, l = a ++ c :: rest /\ length a = n /\ Forall (fun b => b <> c) a.
Proof.
  revert n. induction l as [|b l IH]; intros n; cbn [memchr]; [done|]. destruct (Z.eqb_spec b c) as [->|Hb].
  - intros [= <-]. exists [], l. split_and!; [done|done|constructor].
  - destruct (memchr l c) as [m|]; [|done]. intros [= <-]. destruct (IH m eq_refl) as (a & rest & -> & <- & Ha).
    exists (b :: a), rest. split_and!; [done|done|by constructor].
Qed.

Lemma memchr_None l c : memchr l c = None <-> Forall (fun b => b <> c) l.
Proof.
  split.
  - induction l as [|b l IH]; cbn [memchr]; [by constructor|]. destruct (Z.eqb_spec b c); [done|]. destruct (memchr l c); [done|]. by constructor; [|apply IH].
  - induction 1 as [|b l Hb _ IH]; [done|]. cbn [memchr]. apply Z.eqb_neq in Hb. by rewrite Hb, IH.
Qed.

(** Where the line of a match ends. *)
Lemma line_prefix (a b r : bytes) :
  Forall (fun c => c <> LF) a -> line_ok b -> a ++ [CR; LF] = b ++ CR :: LF :: r -> a = b /\ r = [].
Proof.
  revert b. induction a as [|x a IH]; intros [|y b] Ha Hb E; cbn in E.
  - by injection E as <-.
  - injection E as Ey _. apply list.Forall_cons in Hb as [[Hy _] _]. by destruct Hy.
  - injection E as _ E. apply list.Forall_cons in Ha as [_ Ha]. destruct a as [|z a]; [done|]. injection E as Ez _.
    apply list.Forall_cons in Ha as [Hz _]. by destruct Hz.
  - injection E as <- E. apply list.Forall_cons in Ha as [_ Ha]. apply list.Forall_cons in Hb as [_ Hb]. by destruct (IH b Ha Hb E) as [-> ->].
Qed.

(** ** Tokens *)

Definition is_number_type (c : Z) : bool := (c =? COLON) || (c =? DOLLAR) || (c =? STAR).

Lemma token_line_shape l t :
  token_line l t -> exists c body, l = c :: body ++ [CR; LF] /\ line_ok body /\ c <> CR /\ c <> LF /\
    t = mk_token c (tk_int_value t) (len l) body /\ redis_resp_scan_header l = Some c /\
    (if is_number_type c then redis_resp_parse_integer body = Some (tk_int_value t) else tk_int_value t = 0).
Proof.
  intros [c body Hc Hb|c body z Hc Hn]; exists c, body; split; [done| |done|].
  - split; [done|]. split; [by destruct Hc; subst|]. split; [by destruct Hc; subst|]. split_and!.
    + cbn [tk_int_value]. f_equal. cbn [app length]. rewrite length_app. cbn. lia.
    + cbn [redis_resp_scan_header app]. rewrite (proj2 (match_simple_exact _)); [by destruct Hc; subst|]. by exists body, [].
    + by destruct Hc; subst.
  - split; [by eapply number_line|]. split; [by destruct Hc as [|[]]; subst|]. split; [by destruct Hc as [|[]]; subst|]. split_and!.
    + cbn [tk_int_value]. f_equal. cbn [app length]. rewrite length_app. cbn. lia.
    + cbn [redis_resp_scan_header app]. rewrite (match_number_line _ z) by done. by destruct Hc as [|[]]; subst.
    + apply parse_integer_exact in Hn. cbn [tk_int_value]. by destruct Hc as [|[]]; subst.
Qed.

(** A line followed by anything is scanned as its token. *)
Lemma scan_token_line l t rest : token_line l t -> redis_resp_scan_token (l ++ rest) = ScanToken t.
Proof.
  intros H. destruct (token_line_shape l t H) as (c & body & -> & Hb & Hc1 & Hc2 & Et & Hh & Hi). unfold redis_resp_scan_token.
  assert ((c :: body ++ [CR; LF]) ++ rest = c :: (body ++ [CR]) ++ LF :: rest) as E by (cbn; by rewrite <- !app_assoc).
  rewrite E. cbn [skipn]. rewrite drop_0. rewrite memchr_line.
  2:{ apply Forall_app. split; [|by repeat constructor]. eapply Forall_impl; [|apply Hb]. by intros ? []. }
  rewrite length_app. cbn [length]. replace (length body + 1)%nat with (S (length body)) by lia. cbn [Nat.eqb orb nth].
  rewrite <- app_assoc. cbn [app]. rewrite nth_middle, Z.eqb_refl. cbn [negb].
  assert (take (S (length body) + 2) (c :: body ++ CR :: LF :: rest) = c :: body ++ [CR; LF]) as ->.
  { replace (S (length body) + 2)%nat with (S (length body + 2)) by lia. cbn [firstn]. f_equal. by rewrite take_app_add. }
  rewrite Hh. replace (S (length body) - 1)%nat with (length body) by lia. rewrite take_app_length.
  fold (is_number_type c). rewrite Et. cbn [tk_int_value]. assert (Z.of_nat (S (length body) + 2) = len (c :: body ++ [CR; LF])) as ->.
  { cbn [length]. rewrite length_app. cbn [length]. lia. }
  destruct (is_number_type c); [by rewrite Hi|by rewrite Hi].
Qed.

(** A scanned token is the token of a line at the start of the data. *)
Lemma scan_token_sound data t : redis_resp_scan_token data = ScanToken t -> exists l rest, data = l ++ rest /\ token_line l t.
Proof.
  unfold redis_resp_scan_token. destruct (memchr (drop 1 data) LF) as [k|] eqn:Em; [|done].
  destruct data as [|c data]; [done|]. cbn [skipn] in Em. rewrite drop_0 in Em. apply memchr_Some in Em as (a & rest & -> & <- & Ha).
  destruct (_ || _) eqn:Ek; [done|]. apply orb_false_iff in Ek as [Hk Hcr%negb_false_iff%Z.eqb_eq]. apply Nat.eqb_neq in Hk.
  destruct (exists_last (l := a)) as (body & x & ->); [by intros ->|]. rewrite length_app in *. cbn [length] in *.
  replace (length body + 1)%nat with (S (length body)) in * by lia. cbn [nth] in Hcr. rewrite <- app_assoc in *. cbn [app] in *.
  rewrite nth_middle in Hcr. subst x.
  assert (take (S (length body) + 2) (c :: body ++ CR :: LF :: rest) = c :: body ++ [CR; LF]) as ->.
  { replace (S (length body) + 2)%nat with (S (length body + 2)) by lia. cbn [firstn]. f_equal. by rewrite take_app_add. }
  cbn [skipn]. rewrite drop_0. replace (S (length body) - 1)%nat with (length body) by lia. rewrite take_app_length.
  assert (c :: body ++ CR :: LF :: rest = ((c :: body) ++ [CR; LF]) ++ rest) as -> by (cbn; by rewrite <- app_assoc).
  assert (Z.of_nat (S (length body) + 2) = len body + 3) as -> by lia.
  cbn [redis_resp_scan_header]. intros H. exists ((c :: body) ++ [CR; LF]), rest. split; [done|]. revert H.
  destruct ((c =? PLUS) || (c =? MINUS)) eqn:Ec.
  - destruct (match_simple _) eqn:Es; [|done]. assert (is_number_type c = false) as En by (unfold is_number_type; apply orb_true_iff in Ec as [->%Z.eqb_eq | ->%Z.eqb_eq]; done).
    unfold is_number_type in En. rewrite En. intros [= <-]. apply line_simple; [apply orb_true_iff in Ec as [->%Z.eqb_eq | ->%Z.eqb_eq]; tauto|].
    apply match_simple_exact in Es as (b & r & Eb & Hb). apply Forall_app in Ha as [Ha _]. by destruct (line_prefix body b r Ha Hb Eb) as [-> _].
  - destruct (_ || _ || _) eqn:En; [|done]. destruct (match_number _); [|done]. rewrite En.
    destruct (redis_resp_parse_integer body) as [z|] eqn:Ez; [|done]. intros [= <-]. apply line_number; [|by apply parse_integer_exact].
    apply orb_true_iff in En as [[->%Z.eqb_eq | ->%Z.eqb_eq]%orb_true_iff | ->%Z.eqb_eq]; tauto.
Qed.
