(* ===== verification/RespReader.v ===== *)
(** * The RESP reply reader (redis/redis_parser.c)

    An incremental parser over the receive buffer: it keeps its position, the
    stack of the arrays it is in and the replies it has made, stops when the
    buffer has no complete line or bulk string, and goes on from there when more
    bytes have arrived. Replies live in the pool of their owner: a reply is a
    node of the pool, a pointer to it is the number of the node. *)

From S2P Require Import Prelude RespToken.

Local Set Warnings "-register-all".

Definition REDIS_RESP_MAX_DEPTH : Z := 128.
Definition REDIS_RESP_PARSE_OOM : Z := -3.
Definition REDIS_RESP_PARSE_LIMIT : Z := -2.
Definition INT_MAX : Z := 2 ^ 31 - 1.

(** sizeof of redis_reply_allocation_t, of redis_reply_string_t and of a pointer. *)
Definition SIZEOF_ALLOCATION : Z := 56.
Definition SIZEOF_STRING : Z := 16.
Definition SIZEOF_POINTER : Z := 8.
Definition REDIS_TSTR_ALLOCATION_OVERHEAD : Z := 17.

(** ** Data *)

Inductive redis_reply_type : Type :=
  | REDIS_REPLY_STRING
  | REDIS_REPLY_ERROR
  | REDIS_REPLY_INTEGER
  | REDIS_REPLY_BULK_STRING
  | REDIS_REPLY_ARRAY
  | REDIS_REPLY_NULL.

Record redis_reply_t : Type := mk_reply {
  rp_type : redis_reply_type;
  rp_integer : Z;
  rp_str : ptr bytes;
  rp_len : Z;
  rp_elements : list (ptr nat);
  rp_element_count : Z
}.

(** The reply that memset leaves: its type is the first of the enumeration. *)
Definition zero_reply : redis_reply_t := mk_reply REDIS_REPLY_STRING 0 None 0 [] 0.

Record redis_reply_owner_t : Type := mk_owner {
  ow_pool : list redis_reply_t;
  ow_strings : list bytes;
  ow_allocation_bytes : Z;
  ow_max_allocation_bytes : Z;
  ow_failure : Z
}.

Record redis_resp_parse_frame : Type := mk_frame { fr_array : nat; fr_next : Z }.

(** The frames in use, the innermost one first; the depth is their number. *)
Record redis_resp_reply_reader_impl : Type := mk_impl {
  im_owner : redis_reply_owner_t;
  im_root : ptr nat;
  im_frames : list redis_resp_parse_frame;
  im_offset : Z;
  im_line_scan : Z;
  im_bulk_header_len : Z;
  im_bulk_len : Z;
  im_bulk_pending : bool
}.

Record redis_resp_reply_reader : Type := mk_reader { rd_impl : ptr redis_resp_reply_reader_impl; rd_max_reply_bytes : Z }.

Record redis_resp_buffer : Type := mk_buffer { rb_data : ptr bytes; rb_capacity : Z; rb_used : Z }.

(** The memory pool and the strings of the runtime, as far as the reader sees
    them: whether an allocation succeeds, given the bytes that the owner has
    been charged for, and the size of the owner, which contains the pool.
    [calloc_ok] is that both allocations of a new reader succeed: the code tests
    them together. *)
Class memory : Type := {
  sizeof_owner : Z;
  calloc_ok : bool;
  mem_init_ok : bool;
  mem_alloc_ok : Z -> Z -> bool;
  tstr_from_ok : Z -> Z -> bool
}.

(** How a turn ends without a value: with the return of 0, which keeps the
    reader, or through redis_resp_reply_reader_fail, which destroys it. *)
Inductive halt : Type :=
  | NeedMore
  | Halt (status : Z).

#[global] Instance halt_eq_dec : EqDecision halt.
Proof. solve_decision. Defined.

Abbreviation R A := (M halt redis_resp_reply_reader_impl A) (only parsing).

Definition set_owner (o : redis_reply_owner_t) (im : redis_resp_reply_reader_impl) : redis_resp_reply_reader_impl :=
  mk_impl o (im_root im) (im_frames im) (im_offset im) (im_line_scan im) (im_bulk_header_len im) (im_bulk_len im) (im_bulk_pending im).

Definition set_frames (fs : list redis_resp_parse_frame) (im : redis_resp_reply_reader_impl) : redis_resp_reply_reader_impl :=
  mk_impl (im_owner im) (im_root im) fs (im_offset im) (im_line_scan im) (im_bulk_header_len im) (im_bulk_len im) (im_bulk_pending im).

Definition set_root (p : nat) (im : redis_resp_reply_reader_impl) : redis_resp_reply_reader_impl :=
  mk_impl (im_owner im) (Some p) (im_frames im) (im_offset im) (im_line_scan im) (im_bulk_header_len im) (im_bulk_len im) (im_bulk_pending im).

(** [impl->offset += n; impl->line_scan = impl->offset;] *)
Definition advance (n : Z) (im : redis_resp_reply_reader_impl) : redis_resp_reply_reader_impl :=
  let offset := u64 (im_offset im + n) in
  mk_impl (im_owner im) (im_root im) (im_frames im) offset offset (im_bulk_header_len im) (im_bulk_len im) (im_bulk_pending im).

Definition set_line_scan (n : Z) (im : redis_resp_reply_reader_impl) : redis_resp_reply_reader_impl :=
  mk_impl (im_owner im) (im_root im) (im_frames im) (im_offset im) n (im_bulk_header_len im) (im_bulk_len im) (im_bulk_pending im).

Definition set_bulk (header_len bulk_len : Z) (im : redis_resp_reply_reader_impl) : redis_resp_reply_reader_impl :=
  mk_impl (im_owner im) (im_root im) (im_frames im) (im_offset im) (im_line_scan im) header_len bulk_len true.

(** [impl->offset += total; impl->line_scan = impl->offset; impl->bulk_pending = 0;] *)
Definition bulk_done (total : Z) (im : redis_resp_reply_reader_impl) : redis_resp_reply_reader_impl :=
  let im := advance total im in
  mk_impl (im_owner im) (im_root im) (im_frames im) (im_offset im) (im_line_scan im) (im_bulk_header_len im) (im_bulk_len im) false.

(** The owner with another count of bytes, and the owner after a failure. *)
Definition owner_charged (bytes : Z) (o : redis_reply_owner_t) : redis_reply_owner_t :=
  mk_owner (ow_pool o) (ow_strings o) (ow_allocation_bytes o + bytes) (ow_max_allocation_bytes o) (ow_failure o).

Definition owner_failed (status : Z) (o : redis_reply_owner_t) : redis_reply_owner_t :=
  mk_owner (ow_pool o) (ow_strings o) (ow_allocation_bytes o) (ow_max_allocation_bytes o) status.

Definition owner_pool (pool : list redis_reply_t) (o : redis_reply_owner_t) : redis_reply_owner_t :=
  mk_owner pool (ow_strings o) (ow_allocation_bytes o) (ow_max_allocation_bytes o) (ow_failure o).

Definition owner_track (s : bytes) (o : redis_reply_owner_t) : redis_reply_owner_t :=
  mk_owner (ow_pool o) (s :: ow_strings o) (ow_allocation_bytes o) (ow_max_allocation_bytes o) (ow_failure o).

(** ** Allocation *)

Section Reader.
Context {mem : memory}.

Definition redis_reply_owner_charge (o : redis_reply_owner_t) (bytes : Z) : option redis_reply_owner_t :=
  if size_sub (ow_max_allocation_bytes o) (ow_allocation_bytes o) <? bytes then None else Some (owner_charged bytes o).

(** [failure != 0 ? failure : OOM], after the reader has failed. *)
Definition fail_owner {A} : R A := fun im =>
  let failure := ow_failure (im_owner im) in
  (Err (Halt (if failure =? 0 then REDIS_RESP_PARSE_OOM else failure)), im).

(** A charge that records its failure. *)
Definition charge (bytes : Z) : R bool :=
  o ← gets im_owner;
  match redis_reply_owner_charge o bytes with
  | Some o => modify (set_owner o);; mret true
  | None => modify (set_owner (owner_failed REDIS_RESP_PARSE_LIMIT o));; mret false
  end.

(** An allocation from the pool or for a string, which may fail. *)
Definition allocate (ok : Z -> Z -> bool) (size : Z) : R bool :=
  o ← gets im_owner;
  if ok (ow_allocation_bytes o) size then mret true
  else modify (set_owner (owner_failed REDIS_RESP_PARSE_OOM o));; mret false.

(** NULL ends the turn, as each of the callers does. *)
Definition redis_reply_alloc : R nat :=
  charged ← charge SIZEOF_ALLOCATION;
  if charged : bool then
    allocated ← allocate mem_alloc_ok SIZEOF_ALLOCATION;
    if allocated : bool then
      o ← gets im_owner;
      modify (set_owner (owner_pool (ow_pool o ++ [zero_reply]) o));;
      mret (length (ow_pool o))
    else fail_owner
  else fail_owner.

Definition redis_reply_string_create (value : bytes) : R bytes :=
  o ← gets im_owner;
  if SIZE_MAX - SIZEOF_STRING - REDIS_TSTR_ALLOCATION_OVERHEAD <? len value then
    modify (set_owner (owner_failed REDIS_RESP_PARSE_LIMIT o));; fail_owner
  else
    charged ← charge (SIZEOF_STRING + REDIS_TSTR_ALLOCATION_OVERHEAD + len value);
    if charged : bool then
      made ← allocate tstr_from_ok (len value);
      if made : bool then
        tracked ← allocate mem_alloc_ok SIZEOF_STRING;
        if tracked : bool then
          o ← gets im_owner;
          modify (set_owner (owner_track value o));;
          mret value
        else fail_owner
      else fail_owner
    else fail_owner.

(** The fields of a reply of the pool. *)
Definition set_reply (p : nat) (r : redis_reply_t) : R unit :=
  o ← gets im_owner;
  pool ← access (if (p <? length (ow_pool o))%nat then Some (<[p := r]> (ow_pool o)) else None);
  modify (set_owner (owner_pool pool o)).

Definition get_reply (p : nat) : R redis_reply_t := o ← gets im_owner; access (ow_pool o !! p).

(** ** Attaching a value *)

(** [frame->array->element_count] of each frame on the way out. *)
Fixpoint complete_frames (pool : list redis_reply_t) (frames : list redis_resp_parse_frame) : option (bool * list redis_resp_parse_frame) :=
  match frames with
  | [] => Some (true, [])
  | f :: outer =>
      array ← pool !! fr_array f;
      let next := u64 (fr_next f + 1) in
      if next <? rp_element_count array then Some (false, mk_frame (fr_array f) next :: outer)
      else complete_frames pool outer
  end.

Definition redis_resp_reply_reader_complete_value : R bool :=
  o ← gets im_owner;
  frames ← gets im_frames;
  '(complete, frames) ← access (complete_frames (ow_pool o) frames);
  modify (set_frames frames);;
  mret complete.

(** The return is 1, [true], or 0; a return of -1 fails the reader. *)
Definition redis_resp_reply_reader_attach (reply : nat) (nonempty_array : bool) : R bool :=
  frames ← gets im_frames;
  match frames with
  | [] =>
      root ← gets im_root;
      match root with
      | Some _ => fail (Halt (-1))
      | None => modify (set_root reply)
      end
  | parent :: _ =>
      array ← get_reply (fr_array parent);
      fail_if (rp_element_count array <=? fr_next parent) (Halt (-1));;
      elements ← access (if (0 <=? fr_next parent) && (fr_next parent <? len (rp_elements array))
        then Some (<[Z.to_nat (fr_next parent) := Some reply]> (rp_elements array)) else None);
      set_reply (fr_array parent)
        (mk_reply (rp_type array) (rp_integer array) (rp_str array) (rp_len array) elements (rp_element_count array))
  end;;
  if nonempty_array then
    fail_if (REDIS_RESP_MAX_DEPTH <? len frames) (Halt (-1));;
    modify (set_frames (mk_frame reply 0 :: frames));;
    mret false
  else redis_resp_reply_reader_complete_value.

(** ** A turn *)

(** The search for the end of the line, from [index]. *)
Fixpoint line_loop (fuel : nat) (data : bytes) (used index : Z) : option (ptr Z) :=
  if index + 1 <? used then
    match fuel with
    | O => None
    | S fuel =>
        a ← ld data index;
        b ← ld data (index + 1);
        if negb (a =? CR) || negb (b =? LF) then line_loop fuel data used (index + 1) else Some (Some index)
    end
  else Some None.

Definition redis_resp_reply_reader_line (data : bytes) (used : Z) : R redis_resp_token_t :=
  line_scan ← gets im_line_scan;
  offset ← gets im_offset;
  found ← access (line_loop (Z.to_nat used) data used (if offset <? line_scan then line_scan else offset));
  match found with
  | Some index =>
      line ← access (ldn data offset (index + 2 - offset));
      match redis_resp_scan_token line with
      | ScanToken token => if tk_header_len token =? index + 2 - offset then mret token else fail (Halt (-1))
      | _ => fail (Halt (-1))
      end
  | None =>
      modify (set_line_scan (if offset <? used then used - 1 else offset));;
      fail NeedMore
  end.

(** The fields of a bulk string of [bulk_len] bytes at [at_]; not an array. *)
Definition bulk_reply (data : bytes) (at_ bulk_len : Z) (parsed : nat) : R bool :=
  value ← access (ldn data at_ bulk_len);
  str ← redis_reply_string_create value;
  set_reply parsed (mk_reply REDIS_REPLY_BULK_STRING 0 (Some str) bulk_len [] 0);;
  mret false.

(** The turn of a pending bulk string. *)
Definition bulk_turn (data : bytes) (used : Z) : R bool :=
  header_len ← gets im_bulk_header_len;
  bulk_len ← gets im_bulk_len;
  offset ← gets im_offset;
  fail_if (SIZE_MAX - header_len - 2 <? bulk_len) (Halt (-1));;
  let total := header_len + bulk_len + 2 in
  fail_if ((INT_MAX <? total) || (INT_MAX - total <? offset)) (Halt (-1));;
  fail_if (size_sub used offset <? total) NeedMore;;
  cr ← access (ld data (offset + total - 2));
  lf ← access (ld data (offset + total - 1));
  fail_if (negb (cr =? CR) || negb (lf =? LF)) (Halt (-1));;
  parsed ← redis_reply_alloc;
  nonempty ← bulk_reply data (offset + header_len) bulk_len parsed;
  modify (bulk_done total);;
  redis_resp_reply_reader_attach parsed nonempty.

(** The fields of the reply of a token, and whether it is a non-empty array. *)
Definition token_reply (parsed : nat) (token : redis_resp_token_t) : R bool :=
  let type := tk_type token in
  let value := tk_int_value token in
  if (type =? PLUS) || (type =? MINUS) then
    str ← redis_reply_string_create (tk_value token);
    set_reply parsed (mk_reply (if type =? PLUS then REDIS_REPLY_STRING else REDIS_REPLY_ERROR) 0 (Some str) (len (tk_value token)) [] 0);;
    mret false
  else if type =? COLON then set_reply parsed (mk_reply REDIS_REPLY_INTEGER value None 0 [] 0);; mret false
  else if type =? DOLLAR then
    fail_if (negb (value =? -1)) (Halt (-1));;
    set_reply parsed (mk_reply REDIS_REPLY_NULL 0 None 0 [] 0);;
    mret false
  else if type =? STAR then
    if value =? -1 then set_reply parsed (mk_reply REDIS_REPLY_NULL 0 None 0 [] 0);; mret false
    else
      fail_if ((value <? 0) || (SIZE_MAX <? value)) (Halt (-1));;
      if negb (value =? 0) then
        fail_if (SIZE_MAX / SIZEOF_POINTER <? value) (Halt (-1));;
        charged ← charge (value * SIZEOF_POINTER);
        if negb charged then fail (Halt REDIS_RESP_PARSE_LIMIT)
        else
          allocated ← allocate mem_alloc_ok (value * SIZEOF_POINTER);
          if negb allocated then fail (Halt REDIS_RESP_PARSE_OOM)
          else
            set_reply parsed (mk_reply REDIS_REPLY_ARRAY 0 None 0 (replicate (Z.to_nat value) None) value);;
            mret true
      else set_reply parsed (mk_reply REDIS_REPLY_ARRAY 0 None 0 [] 0);; mret false
  else fail (Halt (-1)).

(** The turn of a line. *)
Definition line_turn (data : bytes) (used : Z) : R bool :=
  token ← redis_resp_reply_reader_line data used;
  offset ← gets im_offset;
  fail_if ((INT_MAX <? tk_header_len token) || (INT_MAX - tk_header_len token <? offset)) (Halt (-1));;
  if (tk_type token =? DOLLAR) && (0 <=? tk_int_value token) then
    fail_if (SIZE_MAX <? tk_int_value token) (Halt (-1));;
    modify (set_bulk (tk_header_len token) (tk_int_value token));;
    mret false
  else
    parsed ← redis_reply_alloc;
    nonempty ← token_reply parsed token;
    modify (advance (tk_header_len token));;
    redis_resp_reply_reader_attach parsed nonempty.

Definition reader_turn (data : bytes) (used : Z) : R bool :=
  frames ← gets im_frames;
  fail_if (REDIS_RESP_MAX_DEPTH <? len frames) (Halt (-1));;
  pending ← gets im_bulk_pending;
  if pending : bool then bulk_turn data used else line_turn data used.

(** Turns until the value is complete. Two turns consume at least three bytes:
    a bulk string takes a turn for its header and one for its bytes. *)
Fixpoint reader_turns (fuel : nat) (data : bytes) (used : Z) : R unit :=
  match fuel with
  | O => access None
  | S fuel => complete ← reader_turn data used; if complete : bool then mret tt else reader_turns fuel data used
  end.

(** ** The reader *)

Definition redis_resp_reply_reader_init (max_reply_bytes : Z) : redis_resp_reply_reader := mk_reader None max_reply_bytes.

Definition fresh_impl (max_reply_bytes : Z) : redis_resp_reply_reader_impl :=
  mk_impl (mk_owner [] [] sizeof_owner max_reply_bytes 0) None [] 0 0 0 0 false.

(** The status, and the reader with its state. *)
Definition redis_resp_reply_reader_begin (reader : redis_resp_reply_reader) : Z * redis_resp_reply_reader :=
  match rd_impl reader with
  | Some _ => (0, reader)
  | None =>
      if negb calloc_ok then (REDIS_RESP_PARSE_OOM, reader)
      else
        match redis_reply_owner_charge (mk_owner [] [] 0 (rd_max_reply_bytes reader) 0) sizeof_owner with
        | None => (REDIS_RESP_PARSE_LIMIT, reader)
        | Some o =>
            if negb mem_init_ok then (REDIS_RESP_PARSE_OOM, reader)
            else (0, mk_reader (Some (mk_impl o None [] 0 0 0 0 false)) (rd_max_reply_bytes reader))
        end
  end.

(** A reply as its caller gets it: the owner and the number of the root. *)
Definition owned_reply : Type := redis_reply_owner_t * nat.

(** The status - the bytes consumed, 0 for more, or negative -, the reply and
    the reader; [None] is undefined behaviour. *)
Definition redis_resp_reply_reader_next_buffer (buffer : ptr redis_resp_buffer) (reader : redis_resp_reply_reader)
    : option (Z * ptr owned_reply * redis_resp_reply_reader) :=
  match buffer with
  | None => Some (-1, None, reader)
  | Some b =>
      match rb_data b with
      | None => Some (-1, None, reader)
      | Some data =>
          if rd_max_reply_bytes reader =? 0 then Some (-1, None, reader)
          else if rb_used b =? 0 then Some (0, None, reader)
          else
            let '(status, reader) := redis_resp_reply_reader_begin reader in
            match rd_impl reader with
            | None => Some (status, None, reader)
            | Some impl =>
                if negb (status =? 0) then Some (status, None, reader)
                else
                  let failed status := Some (status, None, mk_reader None (rd_max_reply_bytes reader)) in
                  match reader_turns (2 * Z.to_nat (rb_used b) + 2) data (rb_used b) impl with
                  | (Fault, _) => None
                  | (Err NeedMore, impl) => Some (0, None, mk_reader (Some impl) (rd_max_reply_bytes reader))
                  | (Err (Halt status), _) => failed status
                  | (Ret _, impl) =>
                      if INT_MAX <? im_offset impl then failed (-1)
                      else
                        match im_root impl with
                        | Some root => Some (im_offset impl, Some (im_owner impl, root), mk_reader None (rd_max_reply_bytes reader))
                        | None => None
                        end
                  end
            end
      end
  end.
End Reader.

(** ** Replies as trees *)

Inductive reply : Type :=
  | RSimple (s : bytes)
  | RError (s : bytes)
  | RInteger (z : Z)
  | RBulk (s : bytes)
  | RNull
  | RArray (l : list reply).

(** The protocol: the bytes of a reply. A number may have leading zeros. *)
Inductive wire : reply -> bytes -> Prop :=
  | wire_simple s : line_ok s -> wire (RSimple s) (PLUS :: s ++ [CR; LF])
  | wire_error s : line_ok s -> wire (RError s) (MINUS :: s ++ [CR; LF])
  | wire_integer text z : number_text text z -> wire (RInteger z) (COLON :: text ++ [CR; LF])
  | wire_bulk text s : number_text text (len s) -> wire (RBulk s) ((DOLLAR :: text ++ [CR; LF]) ++ s ++ [CR; LF])
  | wire_null c text : c = DOLLAR \/ c = STAR -> number_text text (-1) -> wire RNull (c :: text ++ [CR; LF])
  | wire_array text l b : number_text text (len l) -> wires l b -> wire (RArray l) ((STAR :: text ++ [CR; LF]) ++ b)
with wires : list reply -> bytes -> Prop :=
  | wires_nil : wires [] []
  | wires_cons t l a b : wire t a -> wires l b -> wires (t :: l) (a ++ b).

Scheme wire_mut := Induction for wire Sort Prop
  with wires_mut := Induction for wires Sort Prop.
Combined Scheme wire_wires from wire_mut, wires_mut.

(** The nodes of the pool, in the order in which a reply is read. *)
Definition array_node (elements : list (ptr nat)) (count : Z) : redis_reply_t :=
  mk_reply REDIS_REPLY_ARRAY 0 None 0 (elements ++ replicate (Z.to_nat count - length elements) None) count.

(** The pointers and the nodes of replies one after the other. *)
Definition flatten_go (flat : nat -> reply -> list redis_reply_t) : nat -> list reply -> list (ptr nat) * list redis_reply_t :=
  fix go (p : nat) (l : list reply) :=
    match l with
    | [] => ([], [])
    | t :: l => let n := flat p t in let '(elements, nodes) := go (p + length n)%nat l in (Some p :: elements, n ++ nodes)
    end.

Fixpoint flatten (p : nat) (t : reply) : list redis_reply_t :=
  match t with
  | RSimple s => [mk_reply REDIS_REPLY_STRING 0 (Some s) (len s) [] 0]
  | RError s => [mk_reply REDIS_REPLY_ERROR 0 (Some s) (len s) [] 0]
  | RInteger z => [mk_reply REDIS_REPLY_INTEGER z None 0 [] 0]
  | RBulk s => [mk_reply REDIS_REPLY_BULK_STRING 0 (Some s) (len s) [] 0]
  | RNull => [mk_reply REDIS_REPLY_NULL 0 None 0 [] 0]
  | RArray l =>
      let '(elements, nodes) := flatten_go flatten (S p) l in
      array_node elements (len l) :: nodes
  end.

Fixpoint flatten_list (p : nat) (l : list reply) : list redis_reply_t :=
  match l with
  | [] => []
  | t :: l => flatten p t ++ flatten_list (p + length (flatten p t)) l
  end.

Fixpoint pointers (p : nat) (l : list reply) : list (ptr nat) :=
  match l with
  | [] => []
  | t :: l => Some p :: pointers (p + length (flatten p t)) l
  end.

Lemma flatten_array p l : flatten p (RArray l) = array_node (pointers (S p) l) (len l) :: flatten_list (S p) l.
Proof.
  cbn [flatten]. assert (forall q, flatten_go flatten q l = (pointers q l, flatten_list q l)) as H; [|by rewrite H].
  induction l as [|t l IH]; intros q; [done|]. cbn [flatten_go pointers flatten_list]. by rewrite IH.
Qed.

Lemma flatten_list_app p a b : flatten_list p (a ++ b) = flatten_list p a ++ flatten_list (p + length (flatten_list p a)) b.
Proof.
  revert p. induction a as [|t a IH]; intros p; cbn [app flatten_list length]; [by rewrite Nat.add_0_r|].
  rewrite IH, <- app_assoc. do 3 f_equal. rewrite length_app. lia.
Qed.

Lemma pointers_app p a b : pointers p (a ++ b) = pointers p a ++ pointers (p + length (flatten_list p a)) b.
Proof.
  revert p. induction a as [|t a IH]; intros p; cbn [app pointers flatten_list length]; [by rewrite Nat.add_0_r|].
  rewrite IH. do 3 f_equal. rewrite length_app. lia.
Qed.

Lemma pointers_length p l : length (pointers p l) = length l.
Proof. revert p. induction l as [|t l IH]; intros p; cbn [pointers length]; auto. Qed.

(** ** The stack of the arrays being read *)

(** The elements read of each array and its count, the innermost first. *)
Abbreviation stack := (list (list reply * Z)) (only parsing).

(** The nodes of the outer arrays, each with a slot for the one inside. *)
Fixpoint below (s : stack) : list redis_reply_t :=
  match s with
  | [] => []
  | (got, count) :: s =>
      let b := below s in
      let base := S (length b) in
      b ++ array_node (pointers base got ++ [Some (base + length (flatten_list base got))%nat]) count :: flatten_list base got
  end.

(** The nodes when the next value of the innermost array has not been made. *)
Definition nodes (s : stack) : list redis_reply_t :=
  match s with
  | [] => []
  | (got, count) :: s =>
      let b := below s in
      let base := S (length b) in
      b ++ array_node (pointers base got) count :: flatten_list base got
  end.

Fixpoint frames_of (s : stack) : list redis_resp_parse_frame :=
  match s with
  | [] => []
  | (got, count) :: s => mk_frame (length (below s)) (len got) :: frames_of s
  end.

Definition stack_ok (s : stack) : Prop := Forall (fun f : list reply * Z => len f.1 < f.2 <= INT64_MAX) s.

(** A value goes to the innermost array; a full array goes to the one outside. *)
Fixpoint deliver (t : reply) (s : stack) : reply + stack :=
  match s with
  | [] => inl t
  | (got, count) :: s => if len got + 1 <? count then inr ((got ++ [t], count) :: s) else deliver (RArray (got ++ [t])) s
  end.

Lemma below_length s : length (below s) = length (nodes s).
Proof. destruct s as [|[got count] s]; [done|]. cbn [below nodes]. by rewrite !length_app. Qed.

(** An array whose elements are all there. *)
Lemma full_array p l t count : len l + 1 = count ->
  flatten p (RArray (l ++ [t])) =
    array_node (pointers (S p) l ++ [Some (S p + length (flatten_list (S p) l))%nat]) count ::
      flatten_list (S p) l ++ flatten (S p + length (flatten_list (S p) l)) t.
Proof.
  intros Hc. rewrite flatten_array, pointers_app, flatten_list_app. cbn [pointers flatten_list]. rewrite app_nil_r. do 2 f_equal.
  rewrite length_app. cbn [length]. lia.
Qed.

Lemma complete_deliver s t : stack_ok s ->
  let pool := below s ++ flatten (length (below s)) t in
  match deliver t s with
  | inl t' => complete_frames pool (frames_of s) = Some (true, []) /\ pool = flatten 0 t'
  | inr s' => complete_frames pool (frames_of s) = Some (false, frames_of s') /\ pool = nodes s' /\ stack_ok s' /\ s' <> []
  end.
Proof.
  revert t. induction s as [|[got count] s IH]; intros t Hok; cbv zeta; cbn [deliver frames_of complete_frames]; [done|].
  apply list.Forall_cons in Hok as [[Hd Hc] Hok]. cbn [fst snd] in Hd, Hc. cbn [below]. set (b := below s) in *. set (base := S (length b)).
  cbn [fr_array fr_next].
  rewrite (lookup_app_l _ (flatten _ t)) by (rewrite length_app; cbn [length]; lia).
  rewrite list_lookup_middle by done. cbn [mbind option_bind]. change (rp_element_count (array_node ?e count)) with count.
  rewrite u64_small by (unfold INT64_MAX in *; lia).
  assert (forall x, length (b ++ x :: flatten_list base got) = base + length (flatten_list base got))%nat as Hlen
    by (intros; rewrite length_app; cbn [length]; unfold base; lia).
  rewrite Hlen. destruct (Z.ltb_spec (len got + 1) count) as [Hlt|Hge].
  - split; [|split; [|split; [constructor; [cbn; rewrite length_app; cbn; lia|done]|done]]].
    + cbn [frames_of]. rewrite length_app. cbn [length]. do 4 f_equal. lia.
    + cbn [nodes]. fold b base. rewrite pointers_app, flatten_list_app. cbn [pointers flatten_list]. rewrite app_nil_r, <- app_assoc. done.
  - rewrite <- app_assoc. cbn [app]. subst base. rewrite <- (full_array (length b) got t count) by lia. apply (IH (RArray (got ++ [t])) Hok).
Qed.

(** ** The state of the reader *)

Definition root_of (s : stack) : ptr nat := match s with [] => None | _ :: _ => Some O end.

(** The pool, the root and the frames of a stack, and those of a whole reply. *)
Definition at_stack (s : stack) (im : redis_resp_reply_reader_impl) : redis_resp_reply_reader_impl :=
  mk_impl (owner_pool (nodes s) (im_owner im)) (root_of s) (frames_of s) (im_offset im) (im_line_scan im)
    (im_bulk_header_len im) (im_bulk_len im) (im_bulk_pending im).

Definition at_end (t : reply) (im : redis_resp_reply_reader_impl) : redis_resp_reply_reader_impl :=
  mk_impl (owner_pool (flatten 0 t) (im_owner im)) (Some O) [] (im_offset im) (im_line_scan im)
    (im_bulk_header_len im) (im_bulk_len im) (im_bulk_pending im).

Record in_stack (im : redis_resp_reply_reader_impl) (s : stack) : Prop := {
  is_pool : ow_pool (im_owner im) = nodes s;
  is_root : im_root im = root_of s;
  is_frames : im_frames im = frames_of s;
  is_ok : stack_ok s
}.

(** The state with one more node, not yet attached. *)
Record in_stack_with (im : redis_resp_reply_reader_impl) (s : stack) (n : redis_reply_t) : Prop := {
  iw_pool : ow_pool (im_owner im) = nodes s ++ [n];
  iw_root : im_root im = root_of s;
  iw_frames : im_frames im = frames_of s;
  iw_ok : stack_ok s
}.

Lemma frames_of_length s : length (frames_of s) = length s.
Proof. induction s as [|[got count] s IH]; cbn [frames_of length]; auto. Qed.

Lemma array_slot elements count q :
  len elements < count ->
  let n := array_node elements count in
  (len (rp_elements n) = count) /\
  mk_reply (rp_type n) (rp_integer n) (rp_str n) (rp_len n) (<[length elements := Some q]> (rp_elements n)) (rp_element_count n)
    = array_node (elements ++ [Some q]) count.
Proof.
  intros Hl. cbn. split; [rewrite length_app, length_replicate; lia|]. unfold array_node. f_equal.
  rewrite length_app. cbn [length]. replace (Z.to_nat count - length elements)%nat with (S (Z.to_nat count - (length elements + 1))) by lia.
  cbn [replicate]. rewrite insert_app_r_alt, Nat.sub_diag by lia. cbn. by rewrite <- app_assoc.
Qed.

Ltac run_R := unfold mbind, M_bind, gets, modify, access, fail_if, fail, mret, M_ret; cbv beta iota.

Lemma attach_exact im s n nonempty :
  in_stack_with im s n -> len s <= REDIS_RESP_MAX_DEPTH ->
  redis_resp_reply_reader_attach (length (nodes s)) nonempty im =
    (if nonempty then (modify (set_frames (mk_frame (length (nodes s)) 0 :: frames_of s));; mret false : R bool)
     else redis_resp_reply_reader_complete_value)
    (mk_impl (owner_pool (below s ++ [n]) (im_owner im)) (Some O) (frames_of s) (im_offset im) (im_line_scan im)
      (im_bulk_header_len im) (im_bulk_len im) (im_bulk_pending im)).
Proof.
  intros [Hp Hr Hf Hok] Hdepth. unfold redis_resp_reply_reader_attach. run_R. rewrite Hf.
  assert ((REDIS_RESP_MAX_DEPTH <? len (frames_of s)) = false) as Hd by (rewrite frames_of_length; apply Z.ltb_ge; lia).
  destruct s as [|[got count] s]; cbn [frames_of root_of] in *.
  - rewrite Hr. unfold set_root. destruct im as [o r f off ls bh bl bp]. cbn in *. subst. destruct o as [pool ss ab mab fl]. cbn in *. subst.
    destruct nonempty; done.
  - apply list.Forall_cons in Hok as [[Hd1 Hd2] Hok]. cbn [fst snd] in *.
    cbn [nodes] in Hp |- *. set (b := below s) in *. set (base := S (length b)) in *.
    unfold get_reply. run_R. rewrite Hp. cbn [fr_array fr_next].
    rewrite (lookup_app_l _ [n]) by (rewrite length_app; cbn [length]; lia). rewrite list_lookup_middle by done.
    destruct (array_slot (pointers base got) count (length (b ++ array_node (pointers base got) count :: flatten_list base got))) as [Hel Hslot];
      [by rewrite pointers_length|].
    change (rp_element_count (array_node ?e ?c)) with c. rewrite (proj2 (Z.leb_gt _ _)) by done. rewrite Hel.
    rewrite (proj2 (Z.leb_le 0 _)), (proj2 (Z.ltb_lt _ _)) by lia. cbn [andb]. rewrite Nat2Z.id.
    unfold set_reply. run_R. rewrite Hp.
    rewrite (proj2 (Nat.ltb_lt _ _)) by (rewrite !length_app; cbn [length]; lia).
    rewrite pointers_length in Hslot. change (rp_element_count (array_node ?e ?c)) with c in Hslot. rewrite Hslot.
    rewrite <- app_assoc. cbn [app]. rewrite insert_app_r_alt, Nat.sub_diag by lia. cbn [insert list_insert].
    assert (length (b ++ array_node (pointers base got) count :: flatten_list base got) = base + length (flatten_list base got))%nat as Hlen
      by (rewrite length_app; cbn [length]; unfold base; lia).
    rewrite Hlen. cbn [below]. fold b base. rewrite <- app_assoc. cbn [app].
    unfold set_owner. rewrite Hr, Hf. destruct nonempty; [|done]. rewrite Hd. done.
Qed.

(** A value without elements goes where [deliver] puts it. *)
Lemma attach_leaf im s n t :
  in_stack_with im s n -> len s <= REDIS_RESP_MAX_DEPTH -> (forall p, flatten p t = [n]) ->
  redis_resp_reply_reader_attach (length (nodes s)) false im =
    match deliver t s with
    | inl t' => (Ret true, at_end t' im)
    | inr s' => (Ret false, at_stack s' im)
    end.
Proof.
  intros Hin Hd Hn. rewrite (attach_exact im s n false Hin Hd). unfold redis_resp_reply_reader_complete_value. run_R.
  cbn [im_owner im_frames owner_pool ow_pool]. pose proof (complete_deliver s t (iw_ok _ _ _ Hin)) as H. cbv zeta in H.
  rewrite Hn in H. destruct (deliver t s) as [t'|s'].
  - destruct H as [-> ->]. done.
  - destruct H as (-> & -> & _ & Hne). unfold at_stack. destruct s'; done.
Qed.

(** A non-empty array is the new innermost one. *)
Lemma attach_push im s count :
  in_stack_with im s (array_node [] count) -> len s <= REDIS_RESP_MAX_DEPTH ->
  redis_resp_reply_reader_attach (length (nodes s)) true im = (Ret false, at_stack (([], count) :: s) im).
Proof.
  intros Hin Hd. rewrite (attach_exact im s _ true Hin Hd). run_R. unfold at_stack, set_frames. cbn. by rewrite below_length.
Qed.

(** ** Allocation *)

Definition charged (im : redis_resp_reply_reader_impl) : Z := ow_allocation_bytes (im_owner im).
Definition limit (im : redis_resp_reply_reader_impl) : Z := ow_max_allocation_bytes (im_owner im).

Definition owner_ok (im : redis_resp_reply_reader_impl) : Prop := 0 <= charged im <= limit im /\ limit im < 2 ^ 64.

Section Memory.
Context {mem : memory}.

Definition memory_good : Prop := forall a n, mem_alloc_ok a n = true /\ tstr_from_ok a n = true.

(** [m] ends with a value as [Q] says, or fails the reader, which it does not
    when [P] holds, the memory is there and [cost] bytes are within the limit. *)
Definition runs {A} (m : R A) (im : redis_resp_reply_reader_impl) (cost : Z) (P : Prop) (Q : A -> redis_resp_reply_reader_impl -> Prop) : Prop :=
  match m im with
  | (Ret a, im') => Q a im'
  | (Err (Halt status), _) => status < 0 /\ ~ (P /\ memory_good /\ charged im + cost <= limit im)
  | (Err NeedMore, _) => False
  | (Fault, _) => False
  end.

Lemma runs_bind {A B} (m : R A) (k : A -> R B) im c1 c2 P1 P2 Q1 Q2 :
  0 <= c2 -> runs m im c1 P1 Q1 ->
  (forall a im', Q1 a im' -> charged im' = charged im + c1 /\ limit im' = limit im /\ runs (k a) im' c2 P2 Q2) ->
  runs (m ≫= k) im (c1 + c2) (P1 /\ P2) Q2.
Proof.
  intros Hc H1 H2. unfold runs in *. unfold mbind, M_bind. destruct (m im) as [[a|[|st]|] im1]; [|done|split; [lia|]|done].
  - destruct (H2 a im1 H1) as (Ec & El & H). destruct (k a im1) as [[b|[|st]|] im2]; [done|done| |done].
    split; [lia|]. intros ((HP1 & HP2) & Hm & Hl). apply (proj2 H). split_and!; [done|done|lia].
  - intros ((HP1 & _) & Hm & Hl). apply (proj2 H1). split_and!; [done|done|lia].
Qed.

Lemma runs_weaken {A} (m : R A) im c (P P' : Prop) (Q Q' : A -> redis_resp_reply_reader_impl -> Prop) :
  runs m im c P Q -> (P' -> P) -> (forall a im', Q a im' -> Q' a im') -> runs m im c P' Q'.
Proof. unfold runs. intros H HP HQ. destruct (m im) as [[a|[|st]|] im1]; [auto|done| |done]. split; [tauto|]. intros (? & ? & ?). apply (proj2 H). auto. Qed.

(** An operation that only changes the state. *)
Lemma runs_modify f im (Q : unit -> redis_resp_reply_reader_impl -> Prop) : Q tt (f im) -> runs (modify f) im 0 True Q.
Proof. done. Qed.

(** The charge, which either fits or records the limit. *)
Lemma charge_exact im n : owner_ok im -> 0 <= n ->
  charge n im =
    if charged im + n <=? limit im then (Ret true, set_owner (owner_charged n (im_owner im)) im)
    else (Ret false, set_owner (owner_failed REDIS_RESP_PARSE_LIMIT (im_owner im)) im).
Proof.
  unfold owner_ok, charged, limit. intros [Ho1 Ho2] Hn. unfold charge, redis_reply_owner_charge. run_R. unfold size_sub. rewrite u64_small by lia.
  destruct (Z.ltb_spec (ow_max_allocation_bytes (im_owner im) - ow_allocation_bytes (im_owner im)) n),
    (Z.leb_spec (ow_allocation_bytes (im_owner im) + n) (ow_max_allocation_bytes (im_owner im))); (lia || done).
Qed.

Lemma reply_alloc_runs im :
  owner_ok im ->
  runs redis_reply_alloc im SIZEOF_ALLOCATION True (fun p im' =>
    p = length (ow_pool (im_owner im)) /\ charged im + SIZEOF_ALLOCATION <= limit im /\
    im' = set_owner (owner_pool (ow_pool (im_owner im) ++ [zero_reply]) (owner_charged SIZEOF_ALLOCATION (im_owner im))) im).
Proof.
  intros Ho. unfold runs, redis_reply_alloc, allocate. unfold mbind at 1, M_bind at 1. rewrite charge_exact by (done || unfold SIZEOF_ALLOCATION; lia).
  destruct (Z.leb_spec (charged im + SIZEOF_ALLOCATION) (limit im)).
  - run_R. cbn [im_owner set_owner]. destruct (mem_alloc_ok _ _) eqn:E; [done|]. run_R. cbn. split; [done|]. intros (_ & Hm & _).
    destruct (Hm (ow_allocation_bytes (owner_charged SIZEOF_ALLOCATION (im_owner im))) SIZEOF_ALLOCATION). congruence.
  - run_R. cbn. split; [done|]. lia.
Qed.

Definition string_cost (s : bytes) : Z := SIZEOF_STRING + REDIS_TSTR_ALLOCATION_OVERHEAD + len s.

Lemma string_create_runs im s :
  owner_ok im ->
  runs (redis_reply_string_create s) im (string_cost s) True (fun v im' =>
    v = s /\ charged im + string_cost s <= limit im /\ im' = set_owner (owner_track s (owner_charged (string_cost s) (im_owner im))) im).
Proof.
  intros Ho. unfold runs, redis_reply_string_create. run_R.
  assert (0 <= string_cost s) by (unfold string_cost, SIZEOF_STRING, REDIS_TSTR_ALLOCATION_OVERHEAD; lia).
  destruct (Z.ltb_spec (SIZE_MAX - SIZEOF_STRING - REDIS_TSTR_ALLOCATION_OVERHEAD) (len s)).
  { run_R. cbn. split; [done|]. intros (_ & _ & Hl). unfold owner_ok, string_cost, SIZE_MAX, SIZEOF_STRING, REDIS_TSTR_ALLOCATION_OVERHEAD in *. lia. }
  fold (string_cost s). rewrite charge_exact by done. destruct (Z.leb_spec (charged im + string_cost s) (limit im)).
  - unfold allocate. run_R. cbn [im_owner set_owner]. destruct (tstr_from_ok _ _) eqn:E1.
    + run_R. cbn [im_owner set_owner]. destruct (mem_alloc_ok _ _) eqn:E2; [done|]. run_R. cbn. split; [done|]. intros (_ & Hm & _).
      match type of E2 with mem_alloc_ok ?a ?n = false => destruct (Hm a n) end. congruence.
    + run_R. cbn. split; [done|]. intros (_ & Hm & _). match type of E1 with tstr_from_ok ?a ?n = false => destruct (Hm a n) end. congruence.
  - run_R. cbn. split; [done|]. lia.
Qed.

(** ** The value of a token *)

(** A value without elements, or a non-empty array of a number of them. *)
Definition token_value (tok : redis_resp_token_t) : option (reply + Z) :=
  let type := tk_type tok in
  let value := tk_int_value tok in
  if type =? PLUS then Some (inl (RSimple (tk_value tok)))
  else if type =? MINUS then Some (inl (RError (tk_value tok)))
  else if type =? COLON then Some (inl (RInteger value))
  else if type =? DOLLAR then (if value =? -1 then Some (inl RNull) else None)
  else if type =? STAR then
    if value =? -1 then Some (inl RNull)
    else if value =? 0 then Some (inl (RArray []))
    else if (0 <? value) && (value <=? SIZE_MAX / SIZEOF_POINTER) then Some (inr value)
    else None
  else None.

Definition leaf_cost (t : reply) : Z := match t with RSimple s | RError s | RBulk s => string_cost s | _ => 0 end.
Definition extra_cost (v : reply + Z) : Z := match v with inl t => leaf_cost t | inr count => count * SIZEOF_POINTER end.
Definition value_cost (v : reply + Z) : Z := SIZEOF_ALLOCATION + extra_cost v.

Definition node_of (v : reply + Z) : redis_reply_t :=
  match v with inl t => nth 0 (flatten 0 t) zero_reply | inr count => array_node [] count end.

Definition is_array (v : reply + Z) : bool := match v with inl _ => false | inr _ => true end.

Definition place (v : reply + Z) (s : stack) : reply + stack :=
  match v with inl t => deliver t s | inr count => inr (([], count) :: s) end.

(** Only the owner changed: its last node and its bytes. *)
Definition filled (im im' : redis_resp_reply_reader_impl) (s : stack) (n : redis_reply_t) (cost : Z) : Prop :=
  exists o, im' = set_owner o im /\ ow_pool o = nodes s ++ [n] /\
    ow_allocation_bytes o = charged im + cost /\ ow_max_allocation_bytes o = limit im.

Lemma set_last im s n m : ow_pool (im_owner im) = nodes s ++ [m] ->
  set_reply (length (nodes s)) n im = (Ret tt, set_owner (owner_pool (nodes s ++ [n]) (im_owner im)) im).
Proof.
  intros Hp. unfold set_reply. run_R. rewrite Hp. rewrite (proj2 (Nat.ltb_lt _ _)) by (rewrite length_app; cbn; lia).
  by rewrite insert_app_r_alt, Nat.sub_diag by lia.
Qed.

(** The fields of a reply that needs no further memory. *)
Lemma set_filled im s n m : ow_pool (im_owner im) = nodes s ++ [m] ->
  exists im', set_reply (length (nodes s)) n im = (Ret tt, im') /\ filled im im' s n 0.
Proof.
  intros Hp. eexists. split; [by eapply set_last|]. eexists. split; [done|]. cbn. unfold charged, limit. split_and!; [done|lia|done].
Qed.

Lemma string_filled im s m str (k : bytes -> redis_reply_t) :
  ow_pool (im_owner im) = nodes s ++ [m] -> owner_ok im ->
  runs (v ← redis_reply_string_create str; set_reply (length (nodes s)) (k v);; mret false : R bool) im (string_cost str) True
    (fun b im' => b = false /\ filled im im' s (k str) (string_cost str) /\ charged im + string_cost str <= limit im).
Proof.
  intros Hp Ho. pose proof (string_create_runs im str Ho) as H. unfold runs in *. unfold mbind at 1, M_bind at 1.
  destruct (redis_reply_string_create str im) as [[v|[|st]|] im1]; [|done..]. destruct H as (-> & Hl & ->). unfold mbind at 1, M_bind at 1.
  rewrite (set_last _ s (k str) m) by done. split; [done|]. split; [|done]. eexists. split; [done|]. by cbn.
Qed.

Lemma token_reply_runs im s tok :
  ow_pool (im_owner im) = nodes s ++ [zero_reply] -> owner_ok im ->
  runs (token_reply (length (nodes s)) tok) im (match token_value tok with Some v => extra_cost v | None => 0 end) (token_value tok <> None)
    (fun nonempty im' => exists v, token_value tok = Some v /\ nonempty = is_array v /\ filled im im' s (node_of v) (extra_cost v) /\
      charged im + extra_cost v <= limit im).
Proof.
  intros Hp Ho. unfold token_reply, token_value. set (type := tk_type tok). set (value := tk_int_value tok).
  assert (charged im + 0 <= limit im) as H0 by (unfold owner_ok in Ho; lia).
  assert (forall n v, n = node_of v -> extra_cost v = 0 -> is_array v = false ->
    runs (set_reply (length (nodes s)) n;; mret false : R bool) im (extra_cost v) (Some v <> None)
    (fun nonempty im' => exists w, Some v = Some w /\ nonempty = is_array w /\ filled im im' s (node_of w) (extra_cost w) /\
      charged im + extra_cost w <= limit im)) as Hset.
  { intros n v -> Hc Ha. unfold runs. unfold mbind at 1, M_bind at 1. destruct (set_filled im s (node_of v) zero_reply Hp) as (im' & -> & Hf).
    exists v. rewrite Hc, Ha. by split_and!. }
  destruct (Z.eqb_spec type PLUS) as [->|Hplus]; cbn [orb].
  { eapply runs_weaken; [by apply (string_filled im s zero_reply _ (fun str => mk_reply REDIS_REPLY_STRING 0 (Some str) (len (tk_value tok)) [] 0))|done|].
    intros b im' (-> & Hf & Hl). by eexists. }
  destruct (Z.eqb_spec type MINUS) as [->|Hminus]; cbn [orb].
  { eapply runs_weaken; [by apply (string_filled im s zero_reply _ (fun str => mk_reply REDIS_REPLY_ERROR 0 (Some str) (len (tk_value tok)) [] 0))|done|].
    intros b im' (-> & Hf & Hl). by eexists. }
  destruct (Z.eqb_spec type COLON) as [->|Hcolon]; [by apply Hset|].
  destruct (Z.eqb_spec type DOLLAR) as [->|Hdollar].
  { destruct (Z.eqb_spec value (-1)); cbn [negb]; [by apply Hset|]. unfold runs. run_R. split; [lia|]. by intros (? & _). }
  destruct (Z.eqb_spec type STAR) as [->|Hstar]; [|unfold runs; run_R; split; [lia|]; by intros (? & _)].
  destruct (Z.eqb_spec value (-1)) as [->|Hneg]; [by apply Hset|].
  destruct (Z.eqb_spec value 0) as [Ez|Hz].
  { rewrite Ez. cbn [negb orb Z.ltb Z.compare]. exact (Hset _ (inl (RArray [])) eq_refl eq_refl eq_refl). }
  cbn [negb]. unfold runs. run_R. destruct (Z.ltb_spec value 0); cbn [orb andb].
  { rewrite (proj2 (Z.ltb_ge 0 value)) by lia. cbn [andb]. split; [lia|]. by intros (? & _). }
  assert (SIZE_MAX / SIZEOF_POINTER <= SIZE_MAX) by done.
  rewrite (proj2 (Z.ltb_lt 0 value)) by lia. cbn [andb].
  destruct (Z.ltb_spec SIZE_MAX value); [rewrite (proj2 (Z.leb_gt _ _)) by lia; split; [lia|]; by intros (? & _)|].
  destruct (Z.ltb_spec (SIZE_MAX / SIZEOF_POINTER) value); [rewrite (proj2 (Z.leb_gt _ _)) by lia; split; [lia|]; by intros (? & _)|].
  rewrite (proj2 (Z.leb_le _ _)) by lia. rewrite charge_exact by (done || unfold SIZEOF_POINTER; lia). cbn [extra_cost].
  destruct (Z.leb_spec (charged im + value * SIZEOF_POINTER) (limit im)); [|cbn [negb]; run_R; split; [done|lia]].
  cbn [negb]. unfold allocate. run_R. cbn [im_owner set_owner]. destruct (mem_alloc_ok _ _) eqn:E.
  - cbn [negb]. rewrite (set_last _ s _ zero_reply) by done. exists (inr value). split_and!; [done|done| |done]. eexists. split; [done|].
    cbn. split_and!; [|done|done]. do 2 f_equal. unfold array_node. cbn. by rewrite Nat.sub_0_r.
  - cbn [negb]. split; [done|]. intros (_ & Hm & _). match type of E with mem_alloc_ok ?a ?n = false => destruct (Hm a n) end. congruence.
Qed.

Definition value_ok (v : reply + Z) : Prop :=
  match v with
  | inl (RArray (_ :: _)) => False
  | inl _ => True
  | inr count => 0 < count <= INT64_MAX
  end.

Lemma token_value_ok tok v : token_value tok = Some v -> value_ok v.
Proof.
  unfold token_value. repeat case_match; intros; simplify_eq; try done. bsimp. unfold value_ok.
  assert (SIZE_MAX / SIZEOF_POINTER <= INT64_MAX) by done. lia.
Qed.

(** What the state is after a value of [n] bytes was taken. *)
Record placed (im im' : redis_resp_reply_reader_impl) (n cost : Z) (r : reply + stack) (complete : bool) : Prop := {
  pl_offset : im_offset im' = im_offset im + n;
  pl_scan : im_line_scan im' = im_offset im';
  pl_pending : im_bulk_pending im' = false;
  pl_charged : charged im' = charged im + cost;
  pl_limit : limit im' = limit im;
  pl_result :
    match r with
    | inl t => complete = true /\ ow_pool (im_owner im') = flatten 0 t /\ im_root im' = Some O
    | inr s => complete = false /\ in_stack im' s
    end
}.

Lemma deliver_ok t s s' : stack_ok s -> deliver t s = inr s' -> stack_ok s'.
Proof. intros Hok E. pose proof (complete_deliver s t Hok) as H. cbv zeta in H. rewrite E in H. tauto. Qed.

(** [f] moves the position by [n] bytes, and nothing else is pending. *)
Record moves (f : redis_resp_reply_reader_impl -> redis_resp_reply_reader_impl) (im : redis_resp_reply_reader_impl) (n : Z) : Prop := {
  mv_owner : im_owner (f im) = im_owner im;
  mv_root : im_root (f im) = im_root im;
  mv_frames : im_frames (f im) = im_frames im;
  mv_offset : im_offset (f im) = im_offset im + n;
  mv_scan : im_line_scan (f im) = im_offset (f im);
  mv_pending : im_bulk_pending (f im) = false
}.

Lemma attach_value im s v n f :
  in_stack_with im s (node_of v) -> value_ok v -> len s <= REDIS_RESP_MAX_DEPTH -> moves f im n ->
  exists b im', (modify f;; redis_resp_reply_reader_attach (length (nodes s)) (is_array v) : R bool) im = (Ret b, im') /\
    placed im im' n 0 (place v s) b.
Proof.
  intros Hin Hv Hd [Hmo Hmr Hmf Hmoff Hms Hmp]. run_R.
  assert (in_stack_with (f im) s (node_of v)) as Hin' by (destruct Hin; split; congruence).
  pose proof (iw_ok _ _ _ Hin) as Hok.
  destruct v as [t|count]; cbn [is_array place].
  - rewrite (attach_leaf _ s (node_of (inl t)) t Hin' Hd) by (destruct t as [| | | | |[|]]; done).
    destruct (deliver t s) as [t'|s'] eqn:E; eexists _, _; (split; [done|]); split; cbn; try done.
    + unfold charged. cbn. rewrite Hmo. lia.
    + unfold limit. cbn. by rewrite Hmo.
    + unfold charged. cbn. rewrite Hmo. lia.
    + unfold limit. cbn. by rewrite Hmo.
    + split; [done|]. split; try done. by apply (deliver_ok t s).
  - rewrite (attach_push _ s count Hin' Hd). eexists _, _. split; [done|]. split; cbn; try done.
    + unfold charged. cbn. rewrite Hmo. lia.
    + unfold limit. cbn. by rewrite Hmo.
    + split; [done|]. split; try done. constructor; [cbn; unfold value_ok in Hv; lia|done].
Qed.

(** The turn of a value: its node, its fields, the position and its place. *)
Lemma value_runs im s n f (fields : nat -> R bool) (v : option (reply + Z)) :
  in_stack im s -> owner_ok im -> len s <= REDIS_RESP_MAX_DEPTH -> (forall o, moves f (set_owner o im) n) ->
  (forall w, v = Some w -> value_ok w /\ 0 <= extra_cost w) ->
  (forall im1, ow_pool (im_owner im1) = nodes s ++ [zero_reply] -> owner_ok im1 ->
    runs (fields (length (nodes s))) im1 (match v with Some w => extra_cost w | None => 0 end) (v <> None)
    (fun nonempty im' => exists w, v = Some w /\ nonempty = is_array w /\ filled im1 im' s (node_of w) (extra_cost w) /\
      charged im1 + extra_cost w <= limit im1)) ->
  runs (parsed ← redis_reply_alloc; nonempty ← fields parsed; modify f;; redis_resp_reply_reader_attach parsed nonempty : R bool)
    im (match v with Some w => value_cost w | None => SIZEOF_ALLOCATION end) (v <> None)
    (fun b im' => exists w, v = Some w /\ placed im im' n (value_cost w) (place w s) b /\ charged im' <= limit im').
Proof.
  intros Hin Ho Hd Hmv Hv Hfields. pose proof (reply_alloc_runs im Ho) as Ha. unfold runs in Ha |- *. unfold mbind at 1, M_bind at 1.
  assert (0 <= match v with Some w => extra_cost w | None => 0 end) as Hc by (destruct v as [w|]; [by apply Hv|lia]).
  assert (match v with Some w => value_cost w | None => SIZEOF_ALLOCATION end = SIZEOF_ALLOCATION + match v with Some w => extra_cost w | None => 0 end) as Ec
    by (destruct v; unfold value_cost; lia). rewrite Ec.
  destruct (redis_reply_alloc im) as [[p|[|st]|] im1]; [|done|split; [tauto|]; intros (_ & Hm & Hl); apply (proj2 Ha); split_and!; [done|done|lia]|done].
  destruct Ha as (-> & Hl & ->). rewrite (is_pool _ _ Hin).
  set (im1 := set_owner _ im). assert (owner_ok im1) as Ho1 by (unfold owner_ok, im1, charged, limit, SIZEOF_ALLOCATION in *; cbn in *; lia).
  pose proof (Hfields im1 ltac:(done) Ho1) as Hf. unfold runs in Hf. unfold mbind at 1, M_bind at 1.
  destruct (fields (length (nodes s)) im1) as [[ne|[|st]|] im2]; [|done| |done].
  - destruct Hf as (w & -> & -> & (o & -> & Hp & Hoa & Hom) & Hle). destruct (Hv w eq_refl) as [Hvok _].
    assert (in_stack_with (set_owner o im1) s (node_of w)) as Hiw by (destruct Hin; by split).
    destruct (attach_value _ s w n f Hiw Hvok Hd (Hmv o)) as (b & im' & -> & [E1 E2 E3 E4 E5 E6]).
    exists w. split; [done|]. unfold charged, limit, im1, value_cost, SIZEOF_ALLOCATION in *. cbn in *. split; [split; cbn; try done|].
    + unfold charged. lia.
    + unfold limit. lia.
    + lia.
  - split; [tauto|]. intros (HP & Hm & Hle). apply (proj2 Hf). split_and!; [done|done|]. unfold im1, charged, limit in *. cbn in *. lia.
Qed.
End Memory.
