(* ===== verification/RespStream.v ===== *)
(** * Reading replies from a stream (redis/redis_parser.c)

    The theorems of the reply reader: on arbitrary bytes it stays in bounds and
    gives only replies of the grammar; the bytes of a reply give that reply; and
    stopping for more bytes and going on gives what one call on all of them
    gives. *)

From S2P Require Import Prelude RespToken RespReader.

(** ** Lines in the buffer *)

Definition crlf_at (data : bytes) (i : Z) : Prop := ld data i = Some CR /\ ld data (i + 1) = Some LF.

Lemma line_loop_spec fuel data used index :
  0 <= index -> used <= len data -> used - index <= Z.of_nat fuel ->
  match line_loop fuel data used index with
  | Some (Some i) => index <= i /\ i + 1 < used /\ crlf_at data i /\ (forall j, index <= j < i -> ~ crlf_at data j)
  | Some None => forall j, index <= j -> j + 1 < used -> ~ crlf_at data j
  | None => False
  end.
Proof.
  revert index. induction fuel as [|fuel IH]; intros index Hi Hu Hf; cbn [line_loop]; destruct (Z.ltb_spec (index + 1) used); try lia.
  destruct (ld_is_Some data index) as [a Ea]; [lia|]. destruct (ld_is_Some data (index + 1)) as [b Eb]; [lia|].
  rewrite Ea. cbn [mbind option_bind]. rewrite Eb. cbn [mbind option_bind].
  destruct (negb (a =? CR) || negb (b =? LF)) eqn:E.
  - assert (~ crlf_at data index) as Hno by (unfold crlf_at; rewrite Ea, Eb; intros [[= ->] [= ->]]; done).
    specialize (IH (index + 1) ltac:(lia) Hu ltac:(lia)). destruct (line_loop _ _ _ _) as [[i|]|]; [|..|done].
    + destruct IH as (H1 & H2 & H3 & H4). split_and!; [lia|done|done|]. intros j Hj. destruct (decide (j = index)) as [->|]; [done|]. apply H4. lia.
    + intros j Hj1 Hj2. destruct (decide (j = index)) as [->|]; [done|]. apply IH; lia.
  - apply orb_false_iff in E as [->%negb_false_iff%Z.eqb_eq ->%negb_false_iff%Z.eqb_eq]. split_and!; [lia|done|done|]. lia.
Qed.

(** The bytes from the position on. *)
Definition ahead (data : bytes) (used : Z) (im : redis_resp_reply_reader_impl) : bytes :=
  drop (Z.to_nat (im_offset im)) (take (Z.to_nat used) data).

(** No line ends before the place where the search goes on. *)
Definition scan_ok (data : bytes) (used : Z) (im : redis_resp_reply_reader_impl) : Prop :=
  (im_offset im < im_line_scan im -> im_line_scan im < used) /\ forall j, im_offset im <= j < im_line_scan im -> ~ crlf_at data j.

Definition position_ok (data : bytes) (used : Z) (im : redis_resp_reply_reader_impl) : Prop :=
  0 <= im_offset im <= used /\ used <= len data.

Lemma ahead_length data used im : position_ok data used im -> len (ahead data used im) = used - im_offset im.
Proof. intros [Ho Hu]. unfold ahead. rewrite length_drop, length_take. lia. Qed.

Lemma ahead_ldn data used im n : position_ok data used im -> 0 <= n <= used - im_offset im ->
  ldn data (im_offset im) n = Some (take (Z.to_nat n) (ahead data used im)).
Proof.
  intros [Ho Hu] Hn. rewrite ldn_Some by lia. unfold ahead. rewrite skipn_firstn_comm, take_take. do 2 f_equal. lia.
Qed.

Lemma ahead_ld data used im j : position_ok data used im -> 0 <= j < used - im_offset im ->
  ld data (im_offset im + j) = ahead data used im !! Z.to_nat j.
Proof.
  intros [Ho Hu] Hj. unfold ld. rewrite (proj2 (Z.ltb_ge _ _)) by lia. unfold ahead. rewrite lookup_drop, lookup_take_lt by lia. f_equal. lia.
Qed.

(** A line ends where its token ends. *)
Lemma line_crlf l tok rest j :
  token_line l tok -> (j + 1 < length (l ++ rest))%nat ->
  (l ++ rest) !! j = Some CR -> (l ++ rest) !! S j = Some LF -> (length l - 2 <= j)%nat.
Proof.
  intros H Hj Hc _. destruct (token_line_shape _ _ H) as (c & body & -> & Hb & Hc1 & Hc2 & _). cbn [length]. rewrite length_app. cbn [length].
  destruct (decide (j <= length body)%nat) as [Hle|]; [|lia]. exfalso. destruct j as [|j]; [cbn in Hc; congruence|].
  change (((body ++ [CR; LF]) ++ rest) !! j = Some CR) in Hc.
  rewrite <- app_assoc, lookup_app_l in Hc by lia. apply (Forall_lookup_1 _ _ _ _ Hb) in Hc. tauto.
Qed.

Lemma line_end (c : Z) (body rest : bytes) :
  ((c :: body ++ [CR; LF]) ++ rest) !! S (length body) = Some CR /\ ((c :: body ++ [CR; LF]) ++ rest) !! S (S (length body)) = Some LF.
Proof.
  change (((c :: body ++ [CR; LF]) ++ rest) !! S ?n) with (((body ++ [CR; LF]) ++ rest) !! n). rewrite <- app_assoc. cbn [app].
  split; [by apply list_lookup_middle|]. rewrite lookup_app_r by lia. by replace (S (length body) - length body)%nat with 1%nat by lia.
Qed.

Section Line.
Context (data : bytes) (used : Z).

(** The end of the first line is where the line at the position ends. *)
Lemma first_line im i :
  position_ok data used im -> im_offset im <= i -> i + 1 < used -> crlf_at data i ->
  (forall j, im_offset im <= j < i -> ~ crlf_at data j) ->
  forall l rest tok, ahead data used im = l ++ rest -> token_line l tok ->
    take (Z.to_nat (i + 2 - im_offset im)) (ahead data used im) = l.
Proof.
  intros Hpos Hi1 Hi2 Hcr Hfirst l rest tok E Ht. pose proof (ahead_length data used im Hpos) as Hal. rewrite E in Hal |- *. rewrite length_app in Hal.
  destruct (token_line_shape _ _ Ht) as (c & body & El & _). assert (2 < length l)%nat as Hl2 by (rewrite El; cbn [length]; rewrite length_app; cbn; lia).
  assert (len l - 2 <= i - im_offset im) as Hge.
  { destruct Hcr as [Hcr Hlf]. replace i with (im_offset im + (i - im_offset im)) in Hcr, Hlf by lia.
    replace (im_offset im + (i - im_offset im) + 1) with (im_offset im + (i - im_offset im + 1)) in Hlf by lia.
    rewrite (ahead_ld data used im) in Hcr, Hlf by (done || lia). rewrite E in Hcr, Hlf.
    replace (Z.to_nat (i - im_offset im + 1)) with (S (Z.to_nat (i - im_offset im))) in Hlf by lia.
    pose proof (line_crlf l tok rest (Z.to_nat (i - im_offset im)) Ht ltac:(rewrite length_app; lia) Hcr Hlf). lia. }
  assert (i - im_offset im <= len l - 2) as Hle.
  { destruct (decide (i - im_offset im <= len l - 2)) as [|Hgt]; [done|]. exfalso.
    assert (crlf_at data (im_offset im + (len l - 2))) as Hat.
    { subst l. cbn [length] in *. rewrite length_app in *. cbn [length] in *. split.
      - rewrite (ahead_ld data used im) by (done || lia). rewrite E. replace (Z.to_nat _) with (S (length body)) by lia. apply line_end.
      - rewrite <- Z.add_assoc, (ahead_ld data used im) by (done || lia). rewrite E.
        replace (Z.to_nat _) with (S (S (length body))) by lia. apply line_end. }
    by eapply Hfirst; [|done]; lia. }
  rewrite take_app_le by lia. apply take_ge. lia.
Qed.

(** redis_resp_reply_reader_line on every input. *)
Lemma line_spec im :
  position_ok data used im -> scan_ok data used im ->
  match redis_resp_reply_reader_line data used im with
  | (Ret tok, im') => im' = im /\ exists l rest, ahead data used im = l ++ rest /\ token_line l tok
  | (Err NeedMore, im') =>
      im' = set_line_scan (if im_offset im <? used then used - 1 else im_offset im) im /\
      forall j, im_offset im <= j -> j + 1 < used -> ~ crlf_at data j
  | (Err (Halt status), _) => status = -1 /\ ~ exists l rest tok, ahead data used im = l ++ rest /\ token_line l tok
  | (Fault, _) => False
  end.
Proof.
  intros Hpos [Hs1 Hs2]. unfold redis_resp_reply_reader_line. run_R. destruct Hpos as [Ho Hu].
  set (index := if im_offset im <? im_line_scan im then im_line_scan im else im_offset im).
  assert (im_offset im <= index) as Hidx by (unfold index; destruct (Z.ltb_spec (im_offset im) (im_line_scan im)); lia).
  assert (forall j, im_offset im <= j < index -> ~ crlf_at data j) as Hbefore.
  { intros j Hj. apply Hs2. unfold index in Hj. destruct (Z.ltb_spec (im_offset im) (im_line_scan im)); lia. }
  pose proof (line_loop_spec (Z.to_nat used) data used index ltac:(lia) Hu ltac:(lia)) as Hloop.
  destruct (line_loop _ _ _ _) as [[i|]|]; [|..|done].
  - destruct Hloop as (Hi1 & Hi2 & Hcr & Hfirst). assert (position_ok data used im) as Hpos by done.
    rewrite (ahead_ldn data used im) by (done || lia). pose proof (ahead_length data used im Hpos) as Hal.
    set (n := Z.to_nat (i + 2 - im_offset im)).
    assert (len (take n (ahead data used im)) = i + 2 - im_offset im) as Hln by (rewrite length_take; lia).
    pose proof (first_line im i Hpos ltac:(lia) Hi2 Hcr ltac:(intros j Hj; destruct (decide (j < index)); [apply Hbefore|apply Hfirst]; lia)) as Huniq.
    fold n in Huniq.
    set (line := take n (ahead data used im)) in *.
    destruct (redis_resp_scan_token line) as [tok| |] eqn:Esc.
    + destruct (scan_token_sound _ _ Esc) as (l & rest & El & Ht). pose proof (token_line_shape _ _ Ht) as (c & body & _ & _ & _ & _ & Etok & _).
      destruct (Z.eqb_spec (tk_header_len tok) (i + 2 - im_offset im)) as [Eh|Hh].
      * run_R. split; [done|]. assert (rest = []) as ->.
        { rewrite Etok in Eh. cbn in Eh. rewrite El, length_app in Hln. destruct rest; [done|]. cbn in Hln. lia. }
        rewrite app_nil_r in El. exists l, (drop n (ahead data used im)). split; [|done]. rewrite <- El. unfold line. by rewrite take_drop.
      * run_R. split; [done|]. intros (l' & rest' & tok' & E' & Ht'). rewrite (Huniq _ _ _ E' Ht') in *.
        pose proof (scan_token_line _ _ [] Ht') as Es'. rewrite app_nil_r, Esc in Es'. injection Es' as <-.
        destruct (token_line_shape _ _ Ht') as (c' & body' & _ & _ & _ & _ & Etok' & _). rewrite Etok' in Hh. cbn in Hh. lia.
    + run_R. split; [done|]. intros (l' & rest' & tok' & E' & Ht'). rewrite (Huniq _ _ _ E' Ht') in *.
      pose proof (scan_token_line _ _ [] Ht') as Es'. rewrite app_nil_r, Esc in Es'. done.
    + run_R. split; [done|]. intros (l' & rest' & tok' & E' & Ht'). rewrite (Huniq _ _ _ E' Ht') in *.
      pose proof (scan_token_line _ _ [] Ht') as Es'. rewrite app_nil_r, Esc in Es'. done.
  - run_R. split; [done|]. intros j Hj1 Hj2. destruct (decide (j < index)); [by apply Hbefore; lia|]. apply Hloop; lia.
Qed.
End Line.

(** ** What has been read *)

(** The bytes of the arrays being read: the headers and the elements so far. *)
Inductive stack_wire : stack -> bytes -> Prop :=
  | stack_wire_nil : stack_wire [] []
  | stack_wire_cons s a text got count b :
      stack_wire s a -> number_text text count -> wires got b ->
      stack_wire ((got, count) :: s) (a ++ (STAR :: text ++ [CR; LF]) ++ b).

Lemma wires_snoc l b t a : wires l b -> wire t a -> wires (l ++ [t]) (b ++ a).
Proof.
  induction 1 as [|t' l a' b Hw _ IH]; intros Ht; cbn [app].
  - rewrite <- (app_nil_r a). by constructor; [|constructor].
  - rewrite <- app_assoc. constructor; [done|by apply IH].
Qed.

Lemma deliver_wire s a t b :
  stack_wire s a -> stack_ok s -> wire t b ->
  match deliver t s with inl t' => wire t' (a ++ b) | inr s' => stack_wire s' (a ++ b) end.
Proof.
  intros Hs. revert t b. induction Hs as [|s a text got count c Hs IH Hn Hw]; intros t b Hok Ht; cbn [deliver]; [done|].
  apply list.Forall_cons in Hok as [[Hlt _] Hok]. cbn [fst snd] in Hlt. pose proof (wires_snoc _ _ _ _ Hw Ht) as Hw'.
  destruct (Z.ltb_spec (len got + 1) count).
  - rewrite <- app_assoc, <- app_assoc. apply (stack_wire_cons s a text (got ++ [t]) count (c ++ b)); done.
  - assert (wire (RArray (got ++ [t])) ((STAR :: text ++ [CR; LF]) ++ c ++ b)) as Hw2.
    { apply wire_array; [|done]. rewrite length_app. cbn [length]. by replace (Z.of_nat (length got + 1)) with count by lia. }
    specialize (IH _ _ Hok Hw2). rewrite <- app_assoc. rewrite <- app_assoc. done.
Qed.

(** The value of a token that is not the header of a bulk string. *)
Lemma token_wire l tok v :
  token_line l tok -> token_value tok = Some v ->
  match v with
  | inl t => wire t l
  | inr count => exists text, l = STAR :: text ++ [CR; LF] /\ number_text text count
  end.
Proof.
  intros [c body Hc Hb|c body z Hc Hn]; unfold token_value; cbn [tk_type tk_int_value tk_value].
  - destruct Hc as [-> | ->]; cbn; intros [= <-]; by constructor.
  - destruct Hc as [-> | [-> | ->]]; cbn.
    + intros [= <-]. by constructor.
    + destruct (Z.eqb_spec z (-1)) as [->|]; [|done]. intros [= <-]. constructor; [by left|done].
    + destruct (Z.eqb_spec z (-1)) as [->|]; [intros [= <-]; constructor; [by right|done]|].
      destruct (Z.eqb_spec z 0) as [->|].
      * intros [= <-]. rewrite <- (app_nil_r (STAR :: _)). apply wire_array; [done|constructor].
      * destruct (_ && _) eqn:E; [|done]. intros [= <-]. by exists body.
Qed.

Lemma place_wire s a l tok v :
  stack_wire s a -> stack_ok s -> token_line l tok -> token_value tok = Some v ->
  match place v s with inl t' => wire t' (a ++ l) | inr s' => stack_wire s' (a ++ l) end.
Proof.
  intros Hs Hok Hl Hv. pose proof (token_wire l tok v Hl Hv) as Hw. destruct v as [t|count]; cbn [place]; [by apply deliver_wire|].
  destruct Hw as (text & -> & Hn). rewrite <- (app_nil_r (STAR :: _)). apply stack_wire_cons; [done|done|constructor].
Qed.

(** ** Measures of a reply *)

(** The arrays that are open at once while a reply is read; an empty array is
    never open. *)
Fixpoint depth (t : reply) : Z :=
  match t with
  | RArray ((_ :: _) as l) => 1 + foldr Z.max 0 (map depth l)
  | _ => 0
  end.

(** The bytes its owner is charged for. *)
Fixpoint cost (t : reply) : Z :=
  SIZEOF_ALLOCATION + leaf_cost t + match t with RArray l => len l * SIZEOF_POINTER + foldr Z.add 0 (map cost l) | _ => 0 end.

(** The turns it takes. *)
Fixpoint turns (t : reply) : nat :=
  match t with RBulk _ => 2 | RArray l => S (foldr Nat.add O (map turns l)) | _ => 1 end.

Abbreviation depths l := (foldr Z.max 0 (map depth l)) (only parsing).
Abbreviation costs l := (foldr Z.add 0 (map cost l)) (only parsing).
Abbreviation all_turns l := (foldr Nat.add O (map turns l)) (only parsing).

Lemma depths_nonneg l : 0 <= depths l.
Proof. induction l as [|t l IH]; cbn [map foldr]; lia. Qed.

Lemma depth_array l : l <> [] -> depth (RArray l) = 1 + depths l.
Proof. by destruct l. Qed.

Lemma cost_nonneg t : 0 <= cost t.
Proof.
  revert t. fix IH 1. intros t.
  assert (0 <= leaf_cost t) by (destruct t; cbn; unfold string_cost, SIZEOF_STRING, REDIS_TSTR_ALLOCATION_OVERHEAD; lia).
  destruct t as [s|s|z|s| |l]; cbn [cost]; unfold SIZEOF_ALLOCATION, SIZEOF_POINTER in *; try lia.
  assert (0 <= costs l); [|lia]. induction l as [|t l IHl]; cbn [map foldr]; [lia|]. pose proof (IH t). cbn [leaf_cost] in *. lia.
Qed.

Lemma costs_nonneg l : 0 <= costs l.
Proof. induction l as [|t l IH]; cbn [map foldr]; [lia|]. pose proof (cost_nonneg t). lia. Qed.

Lemma cost_pos t : SIZEOF_ALLOCATION <= cost t.
Proof.
  assert (0 <= leaf_cost t) by (destruct t; cbn; unfold string_cost, SIZEOF_STRING, REDIS_TSTR_ALLOCATION_OVERHEAD; lia).
  destruct t as [s|s|z|s| |l]; cbn [cost]; unfold SIZEOF_POINTER; try lia. pose proof (costs_nonneg l). lia.
Qed.

(** ** The invariant *)

Section Turn.
Context {mem : memory} (data : bytes) (used max : Z).
Hypothesis used_size : used < 2 ^ 64.

Record reading (im : redis_resp_reply_reader_impl) (s : stack) : Prop := {
  re_stack : in_stack im s;
  re_owner : owner_ok im;
  re_limit : limit im = max;
  re_position : position_ok data used im;
  re_int : im_offset im <= INT_MAX;
  re_depth : len s <= REDIS_RESP_MAX_DEPTH + 1;
  re_wire : stack_wire s (take (Z.to_nat (im_offset im)) data);
  re_scan : scan_ok data used im;
  re_bulk : im_bulk_pending im = true -> 0 <= im_bulk_len im /\ im_bulk_header_len im <= INT_MAX /\
    exists text rest, number_text text (im_bulk_len im) /\ im_bulk_header_len im = len (DOLLAR :: text ++ [CR; LF]) /\
      ahead data used im = (DOLLAR :: text ++ [CR; LF]) ++ rest
}.

(** The bytes read, after those of [l]. *)
Lemma take_extend im l rest :
  position_ok data used im -> ahead data used im = l ++ rest ->
  take (Z.to_nat (im_offset im + len l)) data = take (Z.to_nat (im_offset im)) data ++ l /\ im_offset im + len l <= used.
Proof.
  intros [Ho Hu] E. pose proof (ahead_length data used im (conj Ho Hu)) as Hal. rewrite E, length_app in Hal. split; [|lia].
  replace (Z.to_nat (im_offset im + len l)) with (Z.to_nat (im_offset im) + length l)%nat by lia.
  rewrite <- (take_take_drop data). f_equal. unfold ahead in E. rewrite skipn_firstn_comm in E.
  replace (length l) with (length l `min` (Z.to_nat used - Z.to_nat (im_offset im)))%nat by lia.
  rewrite <- take_take, E. by rewrite take_app_length.
Qed.

(** The measure that every turn lowers. *)
Definition turns_left (im : redis_resp_reply_reader_impl) : Z := 2 * (used - im_offset im) + (if im_bulk_pending im then 0 else 1).

(** A turn that took the value [v] of the bytes [l]. *)
Lemma reading_placed im s im' l rest v cost b :
  reading im s -> len s <= REDIS_RESP_MAX_DEPTH -> ahead data used im = l ++ rest -> 2 <= len l -> im_offset im + len l <= INT_MAX ->
  placed im im' (len l) cost (place v s) b -> owner_ok im' ->
  match place v s with
  | inl t => wire t (take (Z.to_nat (im_offset im)) data ++ l)
  | inr s' => stack_wire s' (take (Z.to_nat (im_offset im)) data ++ l) /\ len s' <= REDIS_RESP_MAX_DEPTH + 1
  end ->
  im_offset im' <= used /\ im_offset im' <= INT_MAX /\ 0 < im_offset im' /\
  match place v s with
  | inl t => b = true /\ wire t (take (Z.to_nat (im_offset im')) data) /\ ow_pool (im_owner im') = flatten 0 t /\ im_root im' = Some O
  | inr s' => b = false /\ reading im' s' /\ turns_left im' < turns_left im
  end.
Proof.
  intros Hre Hd Ha Hl Hint [Eo Es Ep Ec Elim Er] Hok Hw. pose proof (re_position _ _ Hre) as Hpos.
  destruct (take_extend im l rest Hpos Ha) as [Et Hu]. destruct Hpos as [Ho Hlen]. rewrite Eo. split_and!; [done|done|lia|].
  destruct (place v s) as [t|s'].
  - destruct Er as (-> & Hp & Hr). rewrite Et. done.
  - destruct Er as [-> Hin]. destruct Hw as [Hw Hs']. split; [done|]. split.
    + split; [done|done|rewrite Elim; apply Hre|split; lia|lia|done|by rewrite Eo, Et| |by rewrite Ep]. split; [lia|]. intros j Hj. lia.
    + unfold turns_left. rewrite Ep, Eo. destruct (im_bulk_pending im); lia.
Qed.

Definition is_bulk (tok : redis_resp_token_t) : bool := (tk_type tok =? DOLLAR) && (0 <=? tk_int_value tok).

Lemma number_range text z : number_text text z -> - 2 ^ 63 <= z <= INT64_MAX.
Proof. intros [m _ Hd Hle|m _ Hd Hle]; pose proof (digits_nonneg m Hd); unfold INT64_MAX in *; lia. Qed.

Lemma line_range l tok : token_line l tok -> tk_header_len tok = len l /\ 3 <= len l /\ tk_int_value tok <= INT64_MAX.
Proof.
  intros H. destruct (token_line_shape l tok H) as (c & body & -> & _ & _ & _ & Et & _). rewrite Et. cbn [tk_header_len tk_int_value].
  split; [done|]. split; [cbn [length]; rewrite length_app; cbn; lia|]. destruct H as [|c' l' z _ Hn]; cbn; [done|]. apply number_range in Hn. lia.
Qed.

(** At most one line starts the bytes ahead. *)
Lemma token_unique l rest tok l' rest' tok' :
  l ++ rest = l' ++ rest' -> token_line l tok -> token_line l' tok' -> tok' = tok /\ l' = l /\ rest' = rest.
Proof.
  intros E Ht Ht'. pose proof (scan_token_line l tok rest Ht) as E1. pose proof (scan_token_line l' tok' rest' Ht') as E2.
  rewrite E in E1. rewrite E1 in E2. injection E2 as ->. split; [done|]. destruct (line_range _ _ Ht) as [Eh _]. destruct (line_range _ _ Ht') as [Eh' _].
  symmetry in E. apply app_inj_1 in E; [done|lia].
Qed.

Lemma advance_moves im n o : im_bulk_pending im = false -> 0 <= im_offset im -> 0 <= n -> im_offset im + n <= INT_MAX -> moves (advance n) (set_owner o im) n.
Proof. intros Hp Ho Hn Hi. unfold INT_MAX in Hi. split; cbn; try done. apply u64_small. lia. Qed.

(** The turn of a line, on every input. *)
Lemma line_turn_spec im s :
  reading im s -> im_bulk_pending im = false -> len s <= REDIS_RESP_MAX_DEPTH ->
  match line_turn data used im with
  | (Ret b, im') =>
      exists l rest tok, ahead data used im = l ++ rest /\ token_line l tok /\ im_offset im + len l <= INT_MAX /\
        ((is_bulk tok = true /\ b = false /\ im' = set_bulk (len l) (tk_int_value tok) im) \/
         (is_bulk tok = false /\ exists v, token_value tok = Some v /\ placed im im' (len l) (value_cost v) (place v s) b /\ charged im' <= limit im'))
  | (Err NeedMore, im') =>
      im' = set_line_scan (if im_offset im <? used then used - 1 else im_offset im) im /\
      forall j, im_offset im <= j -> j + 1 < used -> ~ crlf_at data j
  | (Err (Halt status), _) =>
      status < 0 /\ ~ exists l rest tok, ahead data used im = l ++ rest /\ token_line l tok /\ im_offset im + len l <= INT_MAX /\
        (is_bulk tok = true \/ exists v, token_value tok = Some v /\ memory_good /\ charged im + value_cost v <= limit im)
  | (Fault, _) => False
  end.
Proof.
  intros Hre Hp Hd. pose proof (re_position _ _ Hre) as Hpos. pose proof (line_spec data used im Hpos (re_scan _ _ Hre)) as Hline.
  unfold line_turn. unfold mbind at 1, M_bind at 1.
  destruct (redis_resp_reply_reader_line data used im) as [[tok|[|st]|] im1]; [|done| |done].
  2:{ destruct Hline as [-> Hno]. split; [lia|]. intros (l & rest & tok & Ha & Ht & _). apply Hno. by exists l, rest, tok. }
  destruct Hline as (-> & l & rest & Ha & Ht). destruct (line_range l tok Ht) as (Eh & Hl & Hv). rewrite Eh.
  assert (forall l' rest' tok', ahead data used im = l' ++ rest' -> token_line l' tok' -> tok' = tok /\ len l' = len l) as Huniq.
  { intros l' rest' tok' Ha' Ht'. rewrite Ha in Ha'. by destruct (token_unique _ _ _ _ _ _ Ha' Ht Ht') as (-> & -> & _). }
  destruct Hpos as [Ho Hu]. unfold mbind at 1, M_bind at 1, gets at 1. unfold mbind at 1, M_bind at 1, fail_if at 1.
  destruct ((INT_MAX <? len l) || (INT_MAX - len l <? im_offset im)) eqn:Eint.
  { split; [lia|]. intros (l' & rest' & tok' & Ha' & Ht' & Hi' & _). destruct (Huniq _ _ _ Ha' Ht') as [_ El]. rewrite El in Hi'. bsimp. lia. }
  bsimp. fold (is_bulk tok). destruct (is_bulk tok) eqn:Eb.
  - assert ((SIZE_MAX <? tk_int_value tok) = false) as Esz by (apply Z.ltb_ge; unfold INT64_MAX, SIZE_MAX in *; lia). run_R. rewrite Esz.
    exists l, rest, tok. split_and!; [done|done|lia|by left].
  - pose proof (value_runs im s (len l) (advance (len l)) (fun p => token_reply p tok) (token_value tok) (re_stack _ _ Hre) (re_owner _ _ Hre) Hd
      ltac:(intros o; apply advance_moves; (done || lia))) as Hrun.
    assert (forall w, token_value tok = Some w -> value_ok w /\ 0 <= extra_cost w) as Hw.
    { intros w Ew. pose proof (token_value_ok _ _ Ew) as Hok. split; [done|].
      destruct w as [[]|]; cbn; unfold string_cost, SIZEOF_STRING, REDIS_TSTR_ALLOCATION_OVERHEAD, SIZEOF_POINTER; cbn in Hok; lia. }
    specialize (Hrun Hw ltac:(intros; by apply token_reply_runs)). unfold runs in Hrun.
    match type of Hrun with match ?m with _ => _ end => destruct m as [[b|[|st]|] im']; [|done| |done] end.
    + destruct Hrun as (w & Ew & Hpl & Hc). exists l, rest, tok. split_and!; [done|done|lia|]. right. split; [done|]. by exists w.
    + destruct Hrun as [Hst Hno]. split; [done|]. intros (l' & rest' & tok' & Ha' & Ht' & Hi' & Hor). destruct (Huniq _ _ _ Ha' Ht') as [-> El].
      destruct Hor as [|(v & Ev & Hm & Hc)]; [congruence|]. apply Hno. rewrite Ev. by split_and!.
Qed.

Lemma bulk_moves im n o : 0 <= im_offset im -> 0 <= n -> im_offset im + n <= INT_MAX -> moves (bulk_done n) (set_owner o im) n.
Proof. intros Ho Hn Hi. unfold INT_MAX in Hi. split; cbn; try done. apply u64_small. lia. Qed.

(** The bytes of a bulk string, and what ends it. *)
Lemma bulk_split im (l : bytes) rest n :
  position_ok data used im -> ahead data used im = l ++ rest -> 0 <= n -> len l + n + 2 <= used - im_offset im ->
  exists str c d rest', len str = n /\ ahead data used im = (l ++ str ++ [c; d]) ++ rest' /\
    ldn data (im_offset im + len l) n = Some str /\
    ld data (im_offset im + (len l + n + 2) - 2) = Some c /\ ld data (im_offset im + (len l + n + 2) - 1) = Some d.
Proof.
  intros Hpos Ha Hn Hl. pose proof (ahead_length data used im Hpos) as Hal. rewrite Ha, length_app in Hal.
  assert (rest = take (Z.to_nat n) rest ++ drop (Z.to_nat n) rest) as Er by (by rewrite take_drop).
  assert (2 <= length (drop (Z.to_nat n) rest))%nat as Hd by (rewrite length_drop; lia).
  set (str := take (Z.to_nat n) rest) in *. assert (len str = n) as Hs by (unfold str; rewrite length_take; lia).
  destruct (drop (Z.to_nat n) rest) as [|c [|d rest']]; cbn in Hd; try lia.
  exists str, c, d, rest'. assert (ahead data used im = (l ++ str ++ [c; d]) ++ rest') as Ea by (rewrite Ha, Er, <- !app_assoc; done).
  split_and!; [done|done| | |].
  - rewrite ldn_Some by (destruct Hpos; lia). f_equal. destruct Hpos as [Ho Hu].
    replace (Z.to_nat (im_offset im + len l)) with (Z.to_nat (im_offset im) + length l)%nat by lia. rewrite <- drop_drop.
    unfold ahead in Ea. rewrite skipn_firstn_comm in Ea.
    assert (drop (length l) (take (Z.to_nat used - Z.to_nat (im_offset im)) (drop (Z.to_nat (im_offset im)) data)) = str ++ [c; d] ++ rest') as E2
      by (rewrite Ea, <- !app_assoc; apply drop_app_length).
    rewrite skipn_firstn_comm in E2. replace (Z.to_nat n) with (Z.to_nat n `min` (Z.to_nat used - Z.to_nat (im_offset im) - length l))%nat by lia.
    rewrite <- take_take, E2. rewrite take_app_le by lia. apply take_ge. lia.
  - replace (im_offset im + (len l + n + 2) - 2) with (im_offset im + (len l + n)) by lia. rewrite (ahead_ld data used im) by (done || lia).
    rewrite Ea, <- !app_assoc, app_assoc. replace (Z.to_nat (len l + n)) with (length (l ++ str)) by (rewrite length_app; lia). by apply list_lookup_middle.
  - replace (im_offset im + (len l + n + 2) - 1) with (im_offset im + (len l + n + 1)) by lia. rewrite (ahead_ld data used im) by (done || lia).
    rewrite Ea, <- !app_assoc, app_assoc. replace (Z.to_nat (len l + n + 1)) with (length ((l ++ str) ++ [c])) by (rewrite !length_app; cbn; lia).
    change ([c; d] ++ rest') with ([c] ++ d :: rest'). rewrite (app_assoc (l ++ str)). by apply list_lookup_middle.
Qed.

(** The turn of a bulk string whose header is the line [l], on every input. *)
Lemma bulk_turn_spec im s l rest :
  reading im s -> im_bulk_pending im = true -> len s <= REDIS_RESP_MAX_DEPTH ->
  ahead data used im = l ++ rest -> im_bulk_header_len im = len l -> 0 <= im_bulk_len im <= INT64_MAX -> len l <= INT_MAX ->
  let n := len l + im_bulk_len im + 2 in
  match bulk_turn data used im with
  | (Ret b, im') =>
      exists str rest', ahead data used im = (l ++ str ++ [CR; LF]) ++ rest' /\ len str = im_bulk_len im /\ im_offset im + n <= INT_MAX /\
        placed im im' n (value_cost (inl (RBulk str))) (place (inl (RBulk str)) s) b /\ charged im' <= limit im'
  | (Err NeedMore, im') => im' = im /\ used - im_offset im < n
  | (Err (Halt status), _) =>
      status < 0 /\ ~ exists str rest', ahead data used im = (l ++ str ++ [CR; LF]) ++ rest' /\ len str = im_bulk_len im /\ im_offset im + n <= INT_MAX /\
        memory_good /\ charged im + value_cost (inl (RBulk str)) <= limit im
  | (Fault, _) => False
  end.
Proof.
  intros Hre Hp Hd Ha Eh Hbl Hli n. pose proof (re_position _ _ Hre) as Hpos. pose proof Hpos as [Ho Hu].
  assert (2 <= n) as Hn2 by (unfold n; lia).
  unfold bulk_turn. unfold mbind at 1, M_bind at 1, gets at 1. unfold mbind at 1, M_bind at 1, gets at 1. unfold mbind at 1, M_bind at 1, gets at 1.
  rewrite Eh. unfold mbind at 1, M_bind at 1, fail_if at 1.
  rewrite (proj2 (Z.ltb_ge _ _)) by (unfold INT64_MAX, SIZE_MAX, INT_MAX in *; lia). fold n.
  unfold mbind at 1, M_bind at 1, fail_if at 1. destruct ((INT_MAX <? n) || (INT_MAX - n <? im_offset im)) eqn:Eint.
  { split; [lia|]. intros (str & rest' & _ & _ & Hi & _). bsimp. lia. }
  bsimp. unfold mbind at 1, M_bind at 1, fail_if at 1. unfold size_sub. rewrite u64_small by lia.
  destruct (Z.ltb_spec (used - im_offset im) n); [done|].
  destruct (bulk_split im l rest (im_bulk_len im) Hpos Ha ltac:(lia) ltac:(lia)) as (str & c & d & rest' & Hs & Ea & Es & Ec & Ed). fold n in Ec, Ed.
  unfold mbind at 1, M_bind at 1, access at 1. rewrite Ec. unfold mbind at 1, M_bind at 1, access at 1. rewrite Ed.
  unfold mbind at 1, M_bind at 1, fail_if at 1.
  assert (forall str' rest'', ahead data used im = (l ++ str' ++ [CR; LF]) ++ rest'' -> len str' = im_bulk_len im -> str' = str /\ c = CR /\ d = LF) as Huniq.
  { intros str' rest'' Ea' Es'. rewrite Ea in Ea'. rewrite <- !app_assoc in Ea'. apply app_inj_1 in Ea' as [_ Ea']; [|done].
    apply app_inj_1 in Ea' as [-> Ea']; [|lia]. by injection Ea' as -> -> _. }
  destruct (negb (c =? CR) || negb (d =? LF)) eqn:Ecd.
  { split; [lia|]. intros (str' & rest'' & Ea' & Es' & _). destruct (Huniq _ _ Ea' Es') as (_ & -> & ->). done. }
  apply orb_false_iff in Ecd as [->%negb_false_iff%Z.eqb_eq ->%negb_false_iff%Z.eqb_eq].
  pose proof (value_runs im s n (bulk_done n) (bulk_reply data (im_offset im + len l) (im_bulk_len im)) (Some (inl (RBulk str)))
    (re_stack _ _ Hre) (re_owner _ _ Hre) Hd ltac:(intros o; apply bulk_moves; lia)) as Hrun.
  assert (0 <= string_cost str) by (unfold string_cost, SIZEOF_STRING, REDIS_TSTR_ALLOCATION_OVERHEAD; lia).
  specialize (Hrun ltac:(intros w [= <-]; done)).
  assert (forall im1, ow_pool (im_owner im1) = nodes s ++ [zero_reply] -> owner_ok im1 ->
    runs (bulk_reply data (im_offset im + len l) (im_bulk_len im) (length (nodes s))) im1 (string_cost str) (Some (inl (RBulk str) : reply + Z) <> None)
    (fun nonempty im' => exists w, Some (inl (RBulk str)) = Some w /\ nonempty = is_array w /\ filled im1 im' s (node_of w) (extra_cost w) /\
      charged im1 + extra_cost w <= limit im1)) as Hfields.
  { intros im1 Hp1 Ho1. unfold bulk_reply. rewrite Es.
    eapply runs_weaken; [by apply (string_filled im1 s zero_reply str (fun v => mk_reply REDIS_REPLY_BULK_STRING 0 (Some v) (im_bulk_len im) [] 0))|done|].
    intros b im' (-> & Hf & Hl'). exists (inl (RBulk str)). cbn. by rewrite Hs. }
  specialize (Hrun Hfields). unfold runs in Hrun.
  match type of Hrun with match ?m with _ => _ end => destruct m as [[b|[|st]|] im']; [|done| |done] end.
  - destruct Hrun as (w & [= <-] & Hpl & Hc). exists str, rest'. split_and!; [done|done|lia|done|done].
  - destruct Hrun as [Hst Hno]. split; [done|]. intros (str' & rest'' & Ea' & Es' & _ & Hm & Hc).
    destruct (Huniq _ _ Ea' Es') as (-> & _ & _). apply Hno. by split_and!.
Qed.

Lemma deliver_depth t s s' : deliver t s = inr s' -> len s' <= len s.
Proof.
  revert t. induction s as [|[got count] s IH]; intros t; cbn [deliver]; [done|]. destruct (_ <? _).
  - by intros [= <-].
  - intros H%IH. cbn [length]. lia.
Qed.

Lemma place_depth v s s' : place v s = inr s' -> len s' <= len s + 1.
Proof. destruct v as [t|count]; cbn [place]; [intros H%deliver_depth; lia|]. intros [= <-]. cbn [length]. lia. Qed.

Lemma placed_owner im im' n cost r b : placed im im' n cost r b -> owner_ok im -> 0 <= cost -> charged im' <= limit im' -> owner_ok im'.
Proof. intros [_ _ _ Ec El _] [Ho Hl] Hc Hle. split; lia. Qed.

Lemma value_cost_nonneg v : value_ok v -> 0 <= value_cost v.
Proof.
  intros Hok. destruct v as [[]|]; cbn in *; unfold value_cost, SIZEOF_ALLOCATION; cbn;
    unfold string_cost, SIZEOF_STRING, REDIS_TSTR_ALLOCATION_OVERHEAD, SIZEOF_POINTER; lia.
Qed.

(** The reader has a reply of the grammar, made of the bytes it read. *)
Definition read_reply (im : redis_resp_reply_reader_impl) : Prop :=
  0 < im_offset im /\ im_offset im <= used /\ im_offset im <= INT_MAX /\ charged im <= max /\
  exists t, wire t (take (Z.to_nat (im_offset im)) data) /\ ow_pool (im_owner im) = flatten 0 t /\ im_root im = Some O.

(** A search that found no line can go on at its end. *)
Lemma reading_more im s :
  reading im s -> (forall j, im_offset im <= j -> j + 1 < used -> ~ crlf_at data j) ->
  reading (set_line_scan (if im_offset im <? used then used - 1 else im_offset im) im) s.
Proof.
  intros [H1 H2 H2' [H3 H3'] H4 H5 H6 H7 H8] Hno. split; try done; [by destruct H1; split|]. split; cbn.
  - destruct (Z.ltb_spec (im_offset im) used); lia.
  - intros j Hj. apply Hno; [lia|]. destruct (Z.ltb_spec (im_offset im) used); lia.
Qed.

(** A value put in its place ends the reading or is a step of it. *)
Lemma turn_placed im s im' l rest v b :
  reading im s -> len s <= REDIS_RESP_MAX_DEPTH -> ahead data used im = l ++ rest -> 2 <= len l -> im_offset im + len l <= INT_MAX ->
  value_ok v -> placed im im' (len l) (value_cost v) (place v s) b -> charged im' <= limit im' ->
  match place v s with
  | inl t => wire t (take (Z.to_nat (im_offset im)) data ++ l)
  | inr s' => stack_wire s' (take (Z.to_nat (im_offset im)) data ++ l)
  end ->
  if b then read_reply im' else (exists s', reading im' s') /\ turns_left im' < turns_left im.
Proof.
  intros Hre Hd Ha Hl Hi Hv Hpl Hc Hw. pose proof (placed_owner _ _ _ _ _ _ Hpl (re_owner _ _ Hre) (value_cost_nonneg v Hv) Hc) as Hok.
  pose proof (reading_placed im s im' l rest v _ b Hre Hd Ha Hl Hi Hpl Hok) as H. destruct (place v s) as [t|s'] eqn:E.
  - destruct (H Hw) as (H1 & H2 & H3 & -> & H4 & H5 & H6). split_and!; [done|done|done| |by exists t].
    rewrite <- (re_limit _ _ Hre), <- (pl_limit _ _ _ _ _ _ Hpl). done.
  - pose proof (place_depth v s s' E). destruct (H ltac:(split; [done|lia])) as (_ & _ & _ & -> & H4 & H5). split; [by exists s'|done].
Qed.

(** A turn on every input: it keeps the invariant and gets nearer to the end. *)
Lemma turn_spec im s :
  reading im s ->
  match reader_turn data used im with
  | (Ret true, im') => read_reply im'
  | (Ret false, im') => (exists s', reading im' s') /\ turns_left im' < turns_left im
  | (Err NeedMore, im') => reading im' s
  | (Err (Halt status), _) => status < 0
  | (Fault, _) => False
  end.
Proof.
  intros Hre. pose proof (re_position _ _ Hre) as [Ho Hu]. pose proof (is_ok _ _ (re_stack _ _ Hre)) as Hsok. unfold reader_turn.
  unfold mbind at 1, M_bind at 1, gets at 1. unfold mbind at 1, M_bind at 1, fail_if at 1.
  rewrite (is_frames _ _ (re_stack _ _ Hre)), frames_of_length.
  destruct (Z.ltb_spec REDIS_RESP_MAX_DEPTH (len s)) as [|Hd]; [done|]. unfold mbind at 1, M_bind at 1, gets at 1.
  destruct (im_bulk_pending im) eqn:Ep.
  - destruct (re_bulk _ _ Hre Ep) as (Hb & Hli & text & rest & Hn & Eh & Ha). pose proof (number_range _ _ Hn) as Hr.
    set (l := DOLLAR :: text ++ [CR; LF]) in *. rewrite Eh in Hli.
    pose proof (bulk_turn_spec im s l rest Hre Ep Hd Ha Eh ltac:(lia) Hli) as H. cbv zeta in H.
    destruct (bulk_turn data used im) as [[b|[|st]|] im']; [|destruct H as [-> _]; done|tauto|done].
    destruct H as (str & rest' & Ea & Es & Hi & Hpl & Hc).
    assert (len l + im_bulk_len im + 2 = len (l ++ str ++ [CR; LF])) as En by (rewrite !length_app; cbn [length]; lia). rewrite En in *.
    assert (wire (RBulk str) (l ++ str ++ [CR; LF])) as Hw by (apply wire_bulk; by rewrite Es).
    pose proof (deliver_wire _ _ _ _ (re_wire _ _ Hre) Hsok Hw) as Hdw.
    pose proof (turn_placed im s im' _ rest' (inl (RBulk str)) b Hre Hd Ea ltac:(lia) Hi I Hpl Hc Hdw) as H. by destruct b.
  - pose proof (line_turn_spec im s Hre Ep Hd) as H.
    destruct (line_turn data used im) as [[b|[|st]|] im']; [|destruct H as [-> Hno]; by apply reading_more|tauto|done].
    destruct H as (l & rest & tok & Ha & Ht & Hi & H). destruct (line_range l tok Ht) as (_ & Hl & Hz).
    destruct H as [(Eb & -> & ->)|(Eb & v & Ev & Hpl & Hc)].
    + split; [|unfold turns_left; cbn; rewrite Ep; lia]. exists s. destruct Hre as [H1 H2 H2' H3 H4 H5 H6 H7 H8].
      split; try done; [by destruct H1; split|]. intros _. cbn. apply andb_true_iff in Eb as [Et%Z.eqb_eq Ez%Z.leb_le]. split; [lia|]. split; [lia|].
      destruct Ht as [c body Hc Hb|c body z Hc Hn]; cbn in Et; [destruct Hc; subst; done|]. subst c. by exists body, rest.
    + pose proof (place_wire _ _ l tok v (re_wire _ _ Hre) Hsok Ht Ev) as Hw.
      pose proof (turn_placed im s im' l rest v b Hre Hd Ha ltac:(lia) Hi (token_value_ok _ _ Ev) Hpl Hc Hw) as H. by destruct b.
Qed.

Lemma turns_spec fuel im s :
  reading im s -> turns_left im < Z.of_nat fuel ->
  match reader_turns fuel data used im with
  | (Ret _, im') => read_reply im'
  | (Err NeedMore, im') => exists s', reading im' s'
  | (Err (Halt status), _) => status < 0
  | (Fault, _) => False
  end.
Proof.
  revert im s. induction fuel as [|fuel IH]; intros im s Hre Hf.
  { pose proof (re_position _ _ Hre) as [Ho Hu]. unfold turns_left in Hf. destruct (im_bulk_pending im); lia. }
  cbn [reader_turns]. unfold mbind, M_bind. pose proof (turn_spec im s Hre) as H.
  destruct (reader_turn data used im) as [[[]|[|st]|] im']; [done| |by exists s|done|done].
  destruct H as [[s' Hre'] Hlt]. apply (IH im' s' Hre'). lia.
Qed.

(** ** The bytes of a reply *)

(** A line that is there ends in the buffer. *)
Lemma line_present im l rest tok :
  position_ok data used im -> ahead data used im = l ++ rest -> token_line l tok -> exists j, im_offset im <= j /\ j + 1 < used /\ crlf_at data j.
Proof.
  intros Hpos Ha Ht. destruct (token_line_shape l tok Ht) as (c & body & -> & _). destruct (line_end c body rest) as [H1 H2]. rewrite <- Ha in H1, H2.
  pose proof (ahead_length data used im Hpos) as Hal. rewrite Ha, length_app in Hal. cbn [length] in Hal. rewrite length_app in Hal. cbn [length] in Hal.
  exists (im_offset im + Z.of_nat (S (length body))). split; [lia|]. split; [lia|]. split.
  - rewrite (ahead_ld data used im) by (done || lia). by rewrite Nat2Z.id.
  - rewrite <- Z.add_assoc, (ahead_ld data used im) by (done || lia). by replace (Z.to_nat _) with (S (S (length body))) by lia.
Qed.

(** A turn on the line of a value, when nothing is in the way. *)
Lemma step_value im s l rest tok v :
  reading im s -> im_bulk_pending im = false -> len s <= REDIS_RESP_MAX_DEPTH -> ahead data used im = l ++ rest ->
  token_line l tok -> is_bulk tok = false -> token_value tok = Some v -> im_offset im + len l <= INT_MAX ->
  memory_good -> charged im + value_cost v <= limit im ->
  exists b im', reader_turn data used im = (Ret b, im') /\ placed im im' (len l) (value_cost v) (place v s) b /\
    forall s', place v s = inr s' -> reading im' s'.
Proof.
  intros Hre Hp Hd Ha Ht Hb Hv Hi Hm Hc. pose proof (line_turn_spec im s Hre Hp Hd) as H. unfold reader_turn. run_R.
  rewrite (is_frames _ _ (re_stack _ _ Hre)), frames_of_length, (proj2 (Z.ltb_ge _ _)), Hp by done.
  destruct (line_turn data used im) as [[b|[|st]|] im'] eqn:E; [| | |done].
  - destruct H as (l' & rest' & tok' & Ha' & Ht' & Hi' & H). rewrite Ha in Ha'. destruct (token_unique _ _ _ _ _ _ Ha' Ht Ht') as (-> & -> & ->).
    destruct H as [(? & _)|(_ & v' & Ev & Hpl & Hle)]; [congruence|]. rewrite Hv in Ev. injection Ev as <-. exists b, im'. split; [done|]. split; [done|].
    intros s' Es. pose proof (token_value_ok _ _ Hv) as Hvok.
    pose proof (placed_owner _ _ _ _ _ _ Hpl (re_owner _ _ Hre) (value_cost_nonneg v Hvok) Hle) as Hok.
    destruct (line_range _ _ Ht) as (_ & Hl & _). pose proof (place_wire _ _ l tok v (re_wire _ _ Hre) (is_ok _ _ (re_stack _ _ Hre)) Ht Hv) as Hw.
    pose proof (reading_placed im s im' l rest v _ b Hre Hd Ha ltac:(lia) Hi Hpl Hok) as Hr. rewrite Es in Hr, Hw. pose proof (place_depth v s s' Es).
    apply Hr. split; [done|lia].
  - destruct H as [_ Hno]. destruct (line_present im l rest tok (re_position _ _ Hre) Ha Ht) as (j & H1 & H2 & H3). by destruct (Hno j H1 H2).
  - destruct H as [_ Hno]. exfalso. apply Hno. exists l, rest, tok. split_and!; [done|done|done|]. right. by exists v.
Qed.

(** The two turns of a bulk string. *)
Lemma step_bulk im s text str rest :
  let l := DOLLAR :: text ++ [CR; LF] in
  reading im s -> im_bulk_pending im = false -> len s <= REDIS_RESP_MAX_DEPTH -> ahead data used im = (l ++ str ++ [CR; LF]) ++ rest ->
  number_text text (len str) -> im_offset im + len (l ++ str ++ [CR; LF]) <= INT_MAX ->
  memory_good -> charged im + value_cost (inl (RBulk str)) <= limit im ->
  exists b im1 im', reader_turn data used im = (Ret false, im1) /\ reader_turn data used im1 = (Ret b, im') /\
    placed im im' (len (l ++ str ++ [CR; LF])) (value_cost (inl (RBulk str))) (deliver (RBulk str) s) b /\
    forall s', deliver (RBulk str) s = inr s' -> reading im' s'.
Proof.
  intros l Hre Hp Hd Ha Hn Hi Hm Hc. pose proof (re_position _ _ Hre) as [Hoff _]. set (tok := mk_token DOLLAR (len str) (len text + 3) text).
  assert (token_line l tok) as Ht by (apply (line_number DOLLAR text (len str)); [tauto|done]).
  destruct (line_range _ _ Ht) as (Eh & Hl & _). pose proof Ha as Ha'. rewrite <- !app_assoc in Ha'.
  assert (len (l ++ str ++ [CR; LF]) = len l + len str + 2) as En by (rewrite !length_app; cbn [length]; lia).
  set (im1 := set_bulk (len l) (len str) im).
  assert (reading im1 s) as Hre1.
  { destruct Hre as [H1 H2 H2' H3 H4 H5 H6 H7 H8]. split; try done; [by destruct H1; split|]. intros _.
    split; [change (0 <= len str); lia|]. split; [change (len l <= INT_MAX); lia|]. by exists text, (str ++ [CR; LF] ++ rest). }
  assert (reader_turn data used im = (Ret false, im1)) as E1.
  { pose proof (line_turn_spec im s Hre Hp Hd) as H. unfold reader_turn. run_R.
    rewrite (is_frames _ _ (re_stack _ _ Hre)), frames_of_length, (proj2 (Z.ltb_ge _ _)), Hp by done.
    destruct (line_turn data used im) as [[b|[|st]|] im'] eqn:E; [| | |done].
    - destruct H as (l' & rest' & tok' & Ha1 & Ht' & Hi' & H). rewrite Ha' in Ha1. destruct (token_unique _ _ _ _ _ _ Ha1 Ht Ht') as (-> & -> & _).
      destruct H as [(_ & -> & ->)|(Hb & _)]; [done|]. exfalso. unfold is_bulk in Hb. cbn in Hb. bsimp. lia.
    - destruct H as [_ Hno]. destruct (line_present im l _ tok (re_position _ _ Hre) Ha' Ht) as (j & H1 & H2 & H3). by destruct (Hno j H1 H2).
    - destruct H as [_ Hno]. exfalso. apply Hno. exists l, (str ++ [CR; LF] ++ rest), tok. split_and!; [done|done|lia|]. left. cbn. apply Z.leb_le. lia. }
  pose proof (bulk_turn_spec im1 s l (str ++ [CR; LF] ++ rest) Hre1 eq_refl Hd Ha' eq_refl ltac:(cbn; apply number_range in Hn; lia) ltac:(lia)) as H. cbv zeta in H.
  assert (reader_turn data used im1 = bulk_turn data used im1) as E2.
  { unfold reader_turn. run_R. by rewrite (is_frames _ _ (re_stack _ _ Hre1)), frames_of_length, (proj2 (Z.ltb_ge _ _)) by done. }
  rewrite <- E2 in H. destruct (reader_turn data used im1) as [[b|[|st]|] im'] eqn:E; [| | |done].
  - destruct H as (str' & rest' & Ea & Es & _ & Hpl & Hle). change (ahead data used im1) with (ahead data used im) in Ea. rewrite Ha in Ea.
    change (im_bulk_len im1) with (len str) in *. rewrite <- !app_assoc in Ea. apply app_inj_1 in Ea as [_ Ea]; [|done]. apply app_inj_1 in Ea as [-> _]; [|lia].
    rewrite En. exists b, im1, im'. split; [done|]. split; [done|]. split; [by destruct Hpl; split|]. intros s' Es'.
    pose proof (placed_owner _ _ _ _ _ _ Hpl (re_owner _ _ Hre1) (value_cost_nonneg (inl (RBulk str')) I) Hle) as Hok.
    rewrite <- En in Hpl. assert (wire (RBulk str') (l ++ str' ++ [CR; LF])) as Hw by (by apply wire_bulk).
    pose proof (deliver_wire _ _ _ _ (re_wire _ _ Hre1) (is_ok _ _ (re_stack _ _ Hre1)) Hw) as Hdw.
    pose proof (reading_placed im1 s im' _ rest (inl (RBulk str')) _ b Hre1 Hd Ha ltac:(lia) Hi Hpl Hok) as Hr. cbn [place] in Hr. rewrite Es' in Hr, Hdw.
    apply Hr. split; [done|]. apply deliver_depth in Es'. lia.
  - destruct H as [_ Hlt]. exfalso. pose proof (ahead_length data used im (re_position _ _ Hre)) as Hal. rewrite Ha, length_app in Hal.
    change (im_offset im1) with (im_offset im) in Hlt. change (im_bulk_len im1) with (len str) in Hlt. lia.
  - destruct H as [_ Hno]. exfalso. apply Hno. exists str, rest. split_and!; [done|done| |done|done].
    change (im_offset im1) with (im_offset im). change (im_bulk_len im1) with (len str). lia.
Qed.

(** [k] turns take [n] bytes and charge [c], and end as [r] says. *)
Definition ran (im : redis_resp_reply_reader_impl) (n c : Z) (k : nat) (r : reply + stack) : Prop :=
  exists im', im_offset im' = im_offset im + n /\ charged im' = charged im + c /\ limit im' = limit im /\ im_bulk_pending im' = false /\
    match r with
    | inl t => (forall fuel, reader_turns (k + fuel) data used im = (Ret tt, im')) /\ ow_pool (im_owner im') = flatten 0 t /\ im_root im' = Some O
    | inr s => (forall fuel, reader_turns (k + fuel) data used im = reader_turns fuel data used im') /\ reading im' s
    end.

Lemma ran_step im im' n c r b :
  reader_turn data used im = (Ret b, im') -> placed im im' n c r b -> (forall s, r = inr s -> reading im' s) -> ran im n c 1 r.
Proof.
  intros E [E1 E2 E3 E4 E5 E6] Hs. exists im'. split_and!; [done..|]. destruct r as [t|s].
  - destruct E6 as (-> & Hp & Hr). split; [|done]. intros fuel. cbn [Nat.add reader_turns]. unfold mbind, M_bind. by rewrite E.
  - destruct E6 as [-> _]. split; [|by apply Hs]. intros fuel. cbn [Nat.add reader_turns]. unfold mbind, M_bind. by rewrite E.
Qed.

Lemma ran_two im im1 im' n c r b :
  reader_turn data used im = (Ret false, im1) -> reader_turn data used im1 = (Ret b, im') ->
  placed im im' n c r b -> (forall s, r = inr s -> reading im' s) -> ran im n c 2 r.
Proof.
  intros E0 E [E1 E2 E3 E4 E5 E6] Hs. exists im'. split_and!; [done..|]. destruct r as [t|s].
  - destruct E6 as (-> & Hp & Hr). split; [|done]. intros fuel. cbn [Nat.add reader_turns]. unfold mbind, M_bind. by rewrite E0, E.
  - destruct E6 as [-> _]. split; [|by apply Hs]. intros fuel. cbn [Nat.add reader_turns]. unfold mbind, M_bind. by rewrite E0, E.
Qed.

Lemma leaf_value_cost t : match t with RArray (_ :: _) => False | _ => True end -> cost t = value_cost (inl t).
Proof. destruct t as [| | | | |[|]]; unfold value_cost; cbn [cost extra_cost leaf_cost map foldr length]; lia. Qed.

Lemma ran_seq im n1 c1 k1 s1 n2 c2 k2 r :
  ran im n1 c1 k1 (inr s1) ->
  (forall im1, reading im1 s1 -> im_bulk_pending im1 = false -> im_offset im1 = im_offset im + n1 -> charged im1 = charged im + c1 ->
    limit im1 = limit im -> ran im1 n2 c2 k2 r) ->
  ran im (n1 + n2) (c1 + c2) (k1 + k2) r.
Proof.
  intros (im1 & E1 & E2 & E3 & E4 & Et & Hre) H. destruct (H im1 Hre E4 E1 E2 E3) as (im2 & F1 & F2 & F3 & F4 & F5).
  exists im2. split_and!; [lia|lia|congruence|done|]. destruct r as [t|s].
  - destruct F5 as [Ft Fp]. split; [|done]. intros fuel. by rewrite <- Nat.add_assoc, Et, Ft.
  - destruct F5 as [Ft Fp]. split; [|done]. intros fuel. by rewrite <- Nat.add_assoc, Et, Ft.
Qed.

(** The bytes after those of [l]. *)
Lemma ahead_advance im im' l rest :
  position_ok data used im -> ahead data used im = l ++ rest -> im_offset im' = im_offset im + len l -> ahead data used im' = rest.
Proof.
  intros [Ho Hu] Ha E. unfold ahead in *. rewrite E. replace (Z.to_nat (im_offset im + len l)) with (Z.to_nat (im_offset im) + length l)%nat by lia.
  rewrite <- drop_drop, Ha. apply drop_app_length.
Qed.

Hypothesis good : memory_good.

Lemma run_line im s l rest tok t :
  reading im s -> im_bulk_pending im = false -> ahead data used im = l ++ rest -> len s <= REDIS_RESP_MAX_DEPTH ->
  token_line l tok -> is_bulk tok = false -> token_value tok = Some (inl t) -> cost t = value_cost (inl t) ->
  im_offset im + len l <= INT_MAX -> charged im + cost t <= limit im -> ran im (len l) (cost t) 1 (deliver t s).
Proof.
  intros Hre Hp Ha Hd Ht Hb Hv Hcost Hi Hc. rewrite Hcost in *.
  destruct (step_value im s l rest tok (inl t) Hre Hp Hd Ha Ht Hb Hv Hi good Hc) as (b & im' & E & Hpl & Hs). by eapply ran_step.
Qed.

Lemma run_wires :
  (forall t l, wire t l -> forall im s rest,
    reading im s -> im_bulk_pending im = false -> ahead data used im = l ++ rest -> len s + depth t <= REDIS_RESP_MAX_DEPTH ->
    im_offset im + len l <= INT_MAX -> charged im + cost t <= limit im -> ran im (len l) (cost t) (turns t) (deliver t s)) /\
  (forall ts b, wires ts b -> forall im s got count rest,
    ts <> [] -> len got + len ts = count -> reading im ((got, count) :: s) -> im_bulk_pending im = false -> ahead data used im = b ++ rest ->
    len s + 1 + depths ts <= REDIS_RESP_MAX_DEPTH -> im_offset im + len b <= INT_MAX -> charged im + costs ts <= limit im ->
    ran im (len b) (costs ts) (all_turns ts) (deliver (RArray (got ++ ts)) s)).
Proof.
  apply wire_wires.
  - intros str Hl im s rest Hre Hp Ha Hd Hi Hc. cbn [depth] in Hd.
    eapply run_line; [done|done|done|lia|by apply (line_simple PLUS); [left|]|done|done|by rewrite leaf_value_cost|done|done].
  - intros str Hl im s rest Hre Hp Ha Hd Hi Hc. cbn [depth] in Hd.
    eapply run_line; [done|done|done|lia|by apply (line_simple MINUS); [right|]|done|done|by rewrite leaf_value_cost|done|done].
  - intros text z Hn im s rest Hre Hp Ha Hd Hi Hc. cbn [depth] in Hd.
    eapply run_line; [done|done|done|lia|by apply (line_number COLON); [left|]|done|done|by rewrite leaf_value_cost|done|done].
  - intros text str Hn im s rest Hre Hp Ha Hd Hi Hc. cbn [depth] in Hd. cbn [cost turns] in *. rewrite Z.add_0_r in *.
    destruct (step_bulk im s text str rest Hre Hp ltac:(lia) Ha Hn Hi good Hc) as (b & im1 & im' & E1 & E2 & Hpl & Hs).
    by eapply ran_two.
  - intros c text Hc Hn im s rest Hre Hp Ha Hd Hi Hco. cbn [depth] in Hd.
    eapply run_line; [done|done|done|lia|apply (line_number c text (-1)); [tauto|done]|by destruct Hc; subst|by destruct Hc; subst|by rewrite leaf_value_cost|done|done].
  - intros text ts b Hn Hw IH im s rest Hre Hp Ha Hd Hi Hc. rewrite <- app_assoc in Ha. set (l := STAR :: text ++ [CR; LF]) in *.
    rewrite length_app, Nat2Z.inj_add in *. cbn [cost leaf_cost turns] in *. rewrite Z.add_0_r in *.
    set (tok := mk_token STAR (len ts) (len text + 3) text). assert (token_line l tok) as Ht by (apply (line_number STAR text (len ts)); [tauto|done]).
    destruct ts as [|t ts].
    + inversion Hw; subst b. rewrite Z.add_0_r in *. cbn [length] in *. apply (run_line im s l rest tok (RArray [])); done.
    + rewrite (depth_array (t :: ts) ltac:(done)) in Hd. pose proof (depths_nonneg (t :: ts)). pose proof (costs_nonneg (t :: ts)) as Hcs.
      set (ls := t :: ts) in *. assert (ls <> []) as Hls by done. assert (0 < len ls) as Hpos by (unfold ls; cbn [length]; lia).
      clearbody ls. clear t ts.
      assert (token_value tok = Some (inr (len ls))) as Hv.
      { unfold token_value, tok. cbn. rewrite (proj2 (Z.eqb_neq (len ls) (-1))), (proj2 (Z.eqb_neq (len ls) 0)), (proj2 (Z.ltb_lt 0 _)) by lia.
        rewrite (proj2 (Z.leb_le _ _)); [done|]. pose proof (re_owner _ _ Hre) as [Ho1 Ho2]. unfold SIZEOF_POINTER, SIZEOF_ALLOCATION in *.
        apply Z.div_le_lower_bound; [lia|]. unfold SIZE_MAX. lia. }
      destruct (step_value im s l (b ++ rest) tok (inr (len ls)) Hre Hp ltac:(lia) Ha Ht eq_refl Hv ltac:(lia) good ltac:(unfold value_cost; cbn [extra_cost]; lia))
        as (bb & im' & E & Hpl & Hs). pose proof (ran_step _ _ _ _ _ _ E Hpl Hs) as Hrun. cbn [place] in Hrun.
      rewrite Z.add_assoc. apply (ran_seq im _ _ 1 _ _ _ _ _ Hrun). intros im1 Hre1 Hp1 Ho1 Hc1 Hl1.
      apply (IH im1 s [] (len ls) rest); try done; [by eapply ahead_advance; [apply Hre|done|]|lia|lia|].
      rewrite Hc1, Hl1. unfold value_cost. cbn [extra_cost]. lia.
  - done.
  - intros t ts a b Ht IHt Hts IHts im s got count rest _ Hlen Hre Hp Ha Hd Hi Hc. rewrite <- app_assoc in Ha. cbn [map foldr] in *.
    rewrite length_app, Nat2Z.inj_add in *. pose proof (costs_nonneg ts). cbn [length] in Hlen.
    pose proof (IHt im ((got, count) :: s) (b ++ rest) Hre Hp Ha ltac:(cbn [length]; lia) ltac:(lia) ltac:(lia)) as Hrun.
    cbn [deliver] in Hrun. destruct ts as [|t' ts'].
    + inversion Hts; subst b. cbn [map foldr length] in *. rewrite (proj2 (Z.ltb_ge _ _)) in Hrun by lia. rewrite !Z.add_0_r, Nat.add_0_r. done.
    + assert (0 < len (t' :: ts')) as Hpos by (cbn [length]; lia). rewrite (proj2 (Z.ltb_lt _ _)) in Hrun by lia.
      apply (ran_seq im _ _ _ _ _ _ _ _ Hrun). intros im1 Hre1 Hp1 Ho1 Hc1 Hl1.
      replace (got ++ t :: t' :: ts') with ((got ++ [t]) ++ t' :: ts') by (by rewrite <- app_assoc).
      apply (IHts im1 s (got ++ [t]) count rest); try done; [rewrite length_app; cbn [length] in *; lia|by eapply ahead_advance; [apply Hre|done|]|lia|lia|lia].
Qed.
End Turn.

(** ** The reader on arbitrary bytes *)

Section Calls.
Context {mem : memory}.

(** The reader is fresh or has read a part of the first [used] bytes. *)
Definition reader_ok (data : bytes) (used : Z) (reader : redis_resp_reply_reader) : Prop :=
  0 < rd_max_reply_bytes reader < 2 ^ 64 /\
  match rd_impl reader with None => True | Some im => exists s, reading data used (rd_max_reply_bytes reader) im s end.

Lemma fresh_reading data used max :
  0 <= sizeof_owner <= max -> max < 2 ^ 64 -> 0 <= used <= len data -> reading data used max (fresh_impl max) [].
Proof.
  intros Hs Hm Hu. split.
  - split; try done. apply Forall_nil_2.
  - split; unfold charged, limit; cbn; lia.
  - done.
  - split; cbn; lia.
  - done.
  - done.
  - apply stack_wire_nil.
  - split; cbn; [lia|]. intros j Hj. lia.
  - done.
Qed.

Lemma begin_ok data used reader :
  0 <= sizeof_owner -> 0 <= used <= len data -> reader_ok data used reader ->
  match redis_resp_reply_reader_begin reader with
  | (status, r) =>
      rd_max_reply_bytes r = rd_max_reply_bytes reader /\
      match rd_impl r with
      | None => status < 0
      | Some im => status = 0 /\ exists s, reading data used (rd_max_reply_bytes reader) im s
      end
  end.
Proof.
  intros Hsz Hu [Hm Hok]. unfold redis_resp_reply_reader_begin. destruct (rd_impl reader) as [im|] eqn:E; [by rewrite E|].
  destruct calloc_ok; cbn [negb]; [|by rewrite E]. unfold redis_reply_owner_charge. cbn [ow_max_allocation_bytes ow_allocation_bytes].
  unfold size_sub. rewrite Z.sub_0_r, u64_small by lia. destruct (Z.ltb_spec (rd_max_reply_bytes reader) sizeof_owner); [by rewrite E|].
  destruct mem_init_ok; cbn [negb]; [|by rewrite E]. cbn [rd_impl rd_max_reply_bytes]. split; [done|]. split; [done|]. exists [].
  unfold owner_charged. cbn [ow_allocation_bytes]. rewrite Z.add_0_l. apply fresh_reading; (lia || done).
Qed.

(** A call on every input. *)
Lemma reader_call_spec data capacity used reader :
  0 <= sizeof_owner -> 0 <= used <= len data -> used < 2 ^ 64 -> reader_ok data used reader ->
  exists status reply reader', redis_resp_reply_reader_next_buffer (Some (mk_buffer (Some data) capacity used)) reader = Some (status, reply, reader') /\
    reader_ok data used reader' /\ rd_max_reply_bytes reader' = rd_max_reply_bytes reader /\
    (if 0 <? status then
      status <= used /\ rd_impl reader' = None /\
      exists owner t, reply = Some (owner, O) /\ wire t (take (Z.to_nat status) data) /\ ow_pool owner = flatten 0 t /\
        ow_allocation_bytes owner <= rd_max_reply_bytes reader
    else reply = None /\ (status < 0 -> rd_impl reader' = None)).
Proof.
  intros Hsz Hu Hsize Hok. unfold redis_resp_reply_reader_next_buffer. cbn [rb_data rb_used].
  pose proof Hok as [Hm Hr]. rewrite (proj2 (Z.eqb_neq _ _)) by lia.
  destruct (Z.eqb_spec used 0) as [->|Hne]; [eexists _, _, _; split; [done|]; split; [done|]; split; [done|]; by cbn|].
  pose proof (begin_ok data used reader Hsz Hu Hok) as Hb. destruct (redis_resp_reply_reader_begin reader) as [status r].
  destruct Hb as [Em Hb]. destruct (rd_impl r) as [im|] eqn:Er.
  2:{ eexists _, _, _. split; [done|]. rewrite (proj2 (Z.ltb_ge 0 status)) by lia. unfold reader_ok. by rewrite Em, Er. }
  destruct Hb as (-> & s & Hre). cbn [negb Z.eqb]. rewrite Em in *.
  pose proof (turns_spec data used _ Hsize (2 * Z.to_nat used + 2) im s Hre) as H. specialize (H ltac:(unfold turns_left; pose proof (re_position _ _ _ _ _ Hre) as [? ?]; destruct (im_bulk_pending im); lia)).
  destruct (reader_turns _ _ _ _) as [[[]|[|st]|] im']; [| | |done].
  - destruct H as (H1 & H2 & H3 & H4 & t & Hw & Hp & Hroot). rewrite (proj2 (Z.ltb_ge INT_MAX _)) by done. rewrite Hroot.
    eexists _, _, _. split; [done|]. split; [done|]. split; [done|]. rewrite (proj2 (Z.ltb_lt 0 _)) by done. split_and!; [done|done|]. by exists (im_owner im'), t.
  - destruct H as [s' Hre']. eexists _, _, _. split; [done|]. split; [split; [done|by exists s']|]. by split_and!.
  - eexists _, _, _. split; [done|]. rewrite (proj2 (Z.ltb_ge 0 st)) by lia. by split_and!.
Qed.

(** C22. The reply reader on arbitrary bytes and on readers in any state that
    calls on a part of these bytes have left: no access leaves the buffer or the
    pool, the loop ends, and the status says what happened. A positive status is
    the length of a prefix of the buffer that is a reply of the protocol, and the
    pool of the owner has exactly the nodes of that reply, within the limit on
    its memory; 0 keeps a reader that can go on; a negative one releases it. *)
Theorem resp_reader_sound data capacity used reader :
  0 <= sizeof_owner -> 0 <= used <= len data -> used < 2 ^ 64 -> reader_ok data used reader ->
  exists status reply reader', redis_resp_reply_reader_next_buffer (Some (mk_buffer (Some data) capacity used)) reader = Some (status, reply, reader') /\
    reader_ok data used reader' /\ rd_max_reply_bytes reader' = rd_max_reply_bytes reader /\
    (if 0 <? status then
      status <= used /\ rd_impl reader' = None /\
      exists owner t, reply = Some (owner, O) /\ wire t (take (Z.to_nat status) data) /\ ow_pool owner = flatten 0 t /\
        ow_allocation_bytes owner <= rd_max_reply_bytes reader
    else reply = None /\ (status < 0 -> rd_impl reader' = None)).
Proof. apply reader_call_spec. Qed.
End Calls.
