(* ===== verification/RespResume.v ===== *)
(** * Going on with more bytes (redis/redis_parser.c)

    The reply reader stops at the end of the buffer and is called again when
    bytes have been appended. The theorems say that stopping does not matter:
    a reader that went on gives what a reader that sees all the bytes at once
    gives, and a reply that arrives in any pieces is read. *)

From S2P Require Import Prelude RespToken RespReader RespStream.

(** ** States that differ in where the search for a line goes on *)

Definition sim (im1 im2 : redis_resp_reply_reader_impl) : Prop := set_line_scan 0 im1 = set_line_scan 0 im2.

#[global] Instance sim_equivalence : Equivalence sim.
Proof. split; unfold sim; [by intros ?|by intros ?? ->|by intros ??? -> ->]. Qed.

Lemma sim_scan im k : sim (set_line_scan k im) im.
Proof. done. Qed.

(** The fields other than the place of the search. *)
Lemma sim_fields im1 im2 :
  sim im1 im2 -> im_owner im1 = im_owner im2 /\ im_root im1 = im_root im2 /\ im_frames im1 = im_frames im2 /\ im_offset im1 = im_offset im2 /\
    im_bulk_header_len im1 = im_bulk_header_len im2 /\ im_bulk_len im1 = im_bulk_len im2 /\ im_bulk_pending im1 = im_bulk_pending im2.
Proof. unfold sim, set_line_scan. intros H. injection H as -> -> -> -> -> -> ->. done. Qed.

Definition sim_result {A} (r1 r2 : outcome halt A * redis_resp_reply_reader_impl) : Prop := r1.1 = r2.1 /\ sim r1.2 r2.2.

(** Operations that do not look at it. *)
Abbreviation blind m := (Proper (sim ==> sim_result) m) (only parsing).

Create HintDb blind discriminated.

Section Blind.
Context {A B : Type}.

Lemma sim_ret (a : A) : blind (mret a : R A).
Proof. by intros im1 im2 H. Qed.

Lemma blind_fail (e : halt) : blind (fail e : R A).
Proof. by intros im1 im2 H. Qed.

Lemma blind_access (o : option A) : blind (access o : R A).
Proof. by intros im1 im2 H. Qed.

Lemma blind_gets (f : redis_resp_reply_reader_impl -> A) : Proper (sim ==> eq) f -> blind (gets f : R A).
Proof. intros Hf im1 im2 H. split; [|done]. cbn. by rewrite (Hf im1 im2 H). Qed.

Lemma sim_bind (m : R A) (k : A -> R B) : blind m -> (forall a, blind (k a)) -> blind (m ≫= k : R B).
Proof.
  intros Hm Hk im1 im2 H. unfold mbind, M_bind. destruct (Hm im1 im2 H) as [E Hs].
  destruct (m im1) as [r1 s1], (m im2) as [r2 s2]. cbn in E, Hs. subst r2. destruct r1; [by apply Hk|done|done].
Qed.
End Blind.

Lemma sim_fail_if c e : blind (fail_if c e : R unit).
Proof. by intros im1 im2 H. Qed.

Lemma blind_modify f : Proper (sim ==> sim) f -> blind (modify f : R unit).
Proof. intros Hf im1 im2 H. split; [done|]. by apply Hf. Qed.

#[global] Instance owner_sim : Proper (sim ==> eq) im_owner.
Proof. intros im1 im2 H. pose proof (sim_fields _ _ H). tauto. Qed.
#[global] Instance frames_sim : Proper (sim ==> eq) im_frames.
Proof. intros im1 im2 H. pose proof (sim_fields _ _ H). tauto. Qed.
#[global] Instance root_sim : Proper (sim ==> eq) im_root.
Proof. intros im1 im2 H. pose proof (sim_fields _ _ H). tauto. Qed.
#[global] Instance offset_sim : Proper (sim ==> eq) im_offset.
Proof. intros im1 im2 H. pose proof (sim_fields _ _ H). tauto. Qed.
#[global] Instance pending_sim : Proper (sim ==> eq) im_bulk_pending.
Proof. intros im1 im2 H. pose proof (sim_fields _ _ H). tauto. Qed.
#[global] Instance bulk_header_sim : Proper (sim ==> eq) im_bulk_header_len.
Proof. intros im1 im2 H. pose proof (sim_fields _ _ H). tauto. Qed.
#[global] Instance bulk_len_sim : Proper (sim ==> eq) im_bulk_len.
Proof. intros im1 im2 H. pose proof (sim_fields _ _ H). tauto. Qed.

Ltac sim_update := intros im1 im2 H; pose proof (sim_fields _ _ H) as (? & ? & ? & ? & ? & ? & ?); unfold sim, set_line_scan in *; cbn; congruence.

#[global] Instance set_owner_sim o : Proper (sim ==> sim) (set_owner o).
Proof. sim_update. Qed.
#[global] Instance set_frames_sim fs : Proper (sim ==> sim) (set_frames fs).
Proof. sim_update. Qed.
#[global] Instance set_root_sim p : Proper (sim ==> sim) (set_root p).
Proof. sim_update. Qed.
#[global] Instance advance_sim n : Proper (sim ==> sim) (advance n).
Proof. sim_update. Qed.
#[global] Instance bulk_done_sim n : Proper (sim ==> sim) (bulk_done n).
Proof. sim_update. Qed.
#[global] Instance set_bulk_sim h n : Proper (sim ==> sim) (set_bulk h n).
Proof. sim_update. Qed.

#[export] Hint Resolve sim_ret blind_fail blind_access sim_fail_if : blind.
#[export] Hint Extern 1 (Proper _ (gets _)) => (apply blind_gets; apply _) : blind.
#[export] Hint Extern 1 (Proper _ (modify _)) => (apply blind_modify; apply _) : blind.

(** Operations are blind when their parts are. *)
Ltac blind :=
  repeat first
    [ progress intros
    | apply sim_bind
    | match goal with |- Proper _ (if ?b then _ else _) => destruct b end
    | match goal with |- Proper _ (match ?x with _ => _ end) => destruct x end
    | solve [auto with blind nocore] ].

Section Operations.
Context {mem : memory}.

Lemma blind_fail_owner {A} : blind (fail_owner : R A).
Proof. intros im1 im2 H. unfold fail_owner. split; [|done]. cbn. by rewrite (owner_sim _ _ H). Qed.

#[local] Hint Resolve blind_fail_owner : blind.

Lemma blind_charge n : blind (charge n).
Proof. unfold charge. blind. Qed.

Lemma blind_allocate ok n : blind (allocate ok n).
Proof. unfold allocate. blind. Qed.

#[local] Hint Resolve blind_charge blind_allocate : blind.

Lemma blind_alloc : blind redis_reply_alloc.
Proof. unfold redis_reply_alloc. blind. Qed.

Lemma blind_string s : blind (redis_reply_string_create s).
Proof. unfold redis_reply_string_create. blind. Qed.

Lemma blind_set_reply p r : blind (set_reply p r).
Proof. unfold set_reply. blind. Qed.

Lemma blind_get_reply p : blind (get_reply p).
Proof. unfold get_reply. blind. Qed.

#[local] Hint Resolve blind_alloc blind_string blind_set_reply blind_get_reply : blind.

Lemma blind_token_reply p tok : blind (token_reply p tok).
Proof. unfold token_reply. blind. Qed.

Lemma blind_bulk_reply data at_ n p : blind (bulk_reply data at_ n p).
Proof. unfold bulk_reply. blind. Qed.

Lemma blind_attach p b : blind (redis_resp_reply_reader_attach p b).
Proof. unfold redis_resp_reply_reader_attach, redis_resp_reply_reader_complete_value. blind. Qed.

#[local] Hint Resolve blind_token_reply blind_bulk_reply blind_attach : blind.

Lemma blind_bulk_turn data used : blind (bulk_turn data used).
Proof. unfold bulk_turn. blind. Qed.

(** What a turn does after its line. *)
Definition line_rest (token : redis_resp_token_t) : R bool :=
  offset ← gets im_offset;
  fail_if ((INT_MAX <? tk_header_len token) || (INT_MAX - tk_header_len token <? offset)) (Halt (-1));;
  if (tk_type token =? DOLLAR) && (0 <=? tk_int_value token) then
    fail_if (SIZE_MAX <? tk_int_value token) (Halt (-1));;
    modify (set_bulk (tk_header_len token) (tk_int_value token));;
    mret false
  else
    parsed ← redis_reply_alloc;
    nonempty ← token_reply parsed token;
    modify (advance (tk_header_len token));;
    redis_resp_reply_reader_attach parsed nonempty.

Lemma blind_line_rest tok : blind (line_rest tok).
Proof. unfold line_rest. blind. Qed.
End Operations.

(** ** Lines of a longer buffer *)

(** The token of the line that ends at [i]. *)
Definition found_line (data : bytes) (offset i : Z) : outcome halt redis_resp_token_t :=
  match ldn data offset (i + 2 - offset) with
  | None => Fault
  | Some line =>
      match redis_resp_scan_token line with
      | ScanToken token => if tk_header_len token =? i + 2 - offset then Ret token else Err (Halt (-1))
      | _ => Err (Halt (-1))
      end
  end.

(** The first line end at or after the position. *)
Definition first_end (data : bytes) (used offset i : Z) : Prop :=
  offset <= i /\ i + 1 < used /\ crlf_at data i /\ forall j, offset <= j < i -> ~ crlf_at data j.

Lemma line_found data used im :
  position_ok data used im -> scan_ok data used im ->
  (exists i, first_end data used (im_offset im) i /\ redis_resp_reply_reader_line data used im = (found_line data (im_offset im) i, im)) \/
  ((forall j, im_offset im <= j -> j + 1 < used -> ~ crlf_at data j) /\
   redis_resp_reply_reader_line data used im = (Err NeedMore, set_line_scan (if im_offset im <? used then used - 1 else im_offset im) im)).
Proof.
  intros [Ho Hu] [_ Hs2]. unfold redis_resp_reply_reader_line. run_R.
  set (index := if im_offset im <? im_line_scan im then im_line_scan im else im_offset im).
  assert (im_offset im <= index) as Hidx by (unfold index; destruct (Z.ltb_spec (im_offset im) (im_line_scan im)); lia).
  assert (forall j, im_offset im <= j < index -> ~ crlf_at data j) as Hbefore.
  { intros j Hj. apply Hs2. unfold index in Hj. destruct (Z.ltb_spec (im_offset im) (im_line_scan im)); lia. }
  pose proof (line_loop_spec (Z.to_nat used) data used index ltac:(lia) Hu ltac:(lia)) as Hloop.
  destruct (line_loop _ _ _ _) as [[i|]|]; [|..|done].
  - left. destruct Hloop as (Hi1 & Hi2 & Hcr & Hfirst). exists i. split.
    + split_and!; [lia|done|done|]. intros j Hj. destruct (decide (j < index)); [apply Hbefore|apply Hfirst]; lia.
    + unfold found_line. destruct (ldn _ _ _); [|done]. destruct (redis_resp_scan_token _); [by case_match|done|done].
  - right. split; [|done]. intros j Hj1 Hj2. destruct (decide (j < index)); [apply Hbefore|apply Hloop]; lia.
Qed.

Section Extend.
Context {mem : memory} (data1 data2 : bytes) (used1 used2 max : Z).
Hypothesis Hused : 0 <= used1 <= used2.
Hypothesis Hlen1 : used1 <= len data1.
Hypothesis Hlen2 : used2 <= len data2.
Hypothesis Hsize : used2 < 2 ^ 64.
Hypothesis agree : take (Z.to_nat used1) data1 = take (Z.to_nat used1) data2.

Lemma agree_ld j : 0 <= j < used1 -> ld data1 j = ld data2 j.
Proof.
  intros Hj. unfold ld. rewrite (proj2 (Z.ltb_ge _ _)) by lia.
  rewrite <- (lookup_take_lt data1 (Z.to_nat used1)), agree by lia. apply lookup_take_lt. lia.
Qed.

Lemma agree_ldn i n : 0 <= i -> 0 <= n -> i + n <= used1 -> ldn data1 i n = ldn data2 i n.
Proof.
  intros Hi Hn Hl. rewrite !ldn_Some by lia. f_equal.
  assert (forall d : bytes, take (Z.to_nat n) (drop (Z.to_nat i) d) = take (Z.to_nat n) (drop (Z.to_nat i) (take (Z.to_nat used1) d))) as E.
  { intros d. rewrite skipn_firstn_comm, take_take. f_equal. lia. }
  by rewrite E, agree, <- E.
Qed.

Lemma agree_crlf j : 0 <= j -> j + 1 < used1 -> crlf_at data1 j <-> crlf_at data2 j.
Proof. intros Hj Hl. unfold crlf_at. by rewrite !agree_ld by lia. Qed.

(** What has been read of the shorter buffer has been read of the longer one. *)
Lemma reading_extend im s : reading data1 used1 max im s -> reading data2 used2 max im s.
Proof.
  intros [H1 H2 H3 [H4 H4'] H5 H6 H7 [H8 H8'] H9]. split; try done; [split; lia| | |].
  - assert (take (Z.to_nat (im_offset im)) data2 = take (Z.to_nat (im_offset im)) data1) as ->; [|done].
    replace (Z.to_nat (im_offset im)) with (Z.to_nat (im_offset im) `min` Z.to_nat used1)%nat by lia. by rewrite <- !take_take, agree.
  - split; [intros ?%H8; lia|]. intros j Hj. rewrite <- agree_crlf; [by apply H8'|lia|lia].
  - intros Hp. destruct (H9 Hp) as (Hb & Hi & text & rest & Hn & Eh & Ha). split; [done|]. split; [done|].
    exists text, (rest ++ drop (Z.to_nat used1) (take (Z.to_nat used2) data2)). split; [done|]. split; [done|]. rewrite app_assoc, <- Ha. unfold ahead.
    rewrite agree. rewrite <- (take_drop (Z.to_nat used1) (take (Z.to_nat used2) data2)) at 1.
    rewrite take_take. replace (Z.to_nat used1 `min` Z.to_nat used2)%nat with (Z.to_nat used1) by lia.
    apply drop_app_le. rewrite length_take. lia.
Qed.

(** A turn that does not stop for more bytes is the same turn on the longer
    buffer, wherever the search goes on. *)
Lemma line_extend im1 im2 :
  position_ok data1 used1 im1 -> scan_ok data1 used1 im1 -> position_ok data2 used2 im2 -> scan_ok data2 used2 im2 -> sim im1 im2 ->
  (redis_resp_reply_reader_line data1 used1 im1).1 <> Err NeedMore ->
  (redis_resp_reply_reader_line data2 used2 im2).1 = (redis_resp_reply_reader_line data1 used1 im1).1 /\
  (redis_resp_reply_reader_line data2 used2 im2).2 = im2 /\ (redis_resp_reply_reader_line data1 used1 im1).2 = im1.
Proof.
  intros Hp1 Hs1 Hp2 Hs2 Hsim. destruct (line_found data1 used1 im1 Hp1 Hs1) as [(i & (Hi1 & Hi2 & Hcr & Hf) & ->)|[_ ->]]; [|done].
  intros _. pose proof (offset_sim _ _ Hsim) as Eo. destruct Hp1 as [Ho1 _].
  destruct (line_found data2 used2 im2 Hp2 Hs2) as [(i' & (Hi1' & Hi2' & Hcr' & Hf') & ->)|[Hno _]].
  - assert (i' = i) as ->.
    { destruct (Z.lt_trichotomy i' i) as [Hlt|[->|Hlt]]; [|done|].
      - exfalso. apply (Hf i'); [lia|]. apply agree_crlf; [lia|lia|done].
      - exfalso. apply (Hf' i); [lia|]. apply agree_crlf; [lia|lia|done]. }
    cbn [fst snd]. split; [|done]. unfold found_line. rewrite <- Eo, <- agree_ldn by lia. done.
  - exfalso. apply (Hno i); [lia|lia|]. apply agree_crlf; [lia|lia|done].
Qed.

Lemma bulk_extend im s :
  reading data1 used1 max im s -> im_bulk_pending im = true -> (bulk_turn data1 used1 im).1 <> Err NeedMore ->
  bulk_turn data2 used2 im = bulk_turn data1 used1 im.
Proof.
  intros Hre Hp. destruct (re_bulk _ _ _ _ _ Hre Hp) as (Hb & Hh & text & rest & _ & Eh & _). pose proof (re_position _ _ _ _ _ Hre) as [Ho _].
  unfold bulk_turn. run_R. destruct (SIZE_MAX - im_bulk_header_len im - 2 <? im_bulk_len im); [done|].
  set (total := im_bulk_header_len im + im_bulk_len im + 2). destruct ((INT_MAX <? total) || (INT_MAX - total <? im_offset im)); [done|].
  unfold size_sub. rewrite !u64_small by lia.
  destruct (Z.ltb_spec (used1 - im_offset im) total) as [|Hge]; [done|]. rewrite (proj2 (Z.ltb_ge _ _)) by lia.
  intros _. assert (0 <= im_bulk_header_len im) by (rewrite Eh; lia). unfold bulk_reply.
  rewrite <- !agree_ld, <- agree_ldn by (unfold total in *; lia). done.
Qed.

Lemma turn_extend im1 im2 s1 s2 :
  reading data1 used1 max im1 s1 -> reading data2 used2 max im2 s2 -> sim im1 im2 ->
  (reader_turn data1 used1 im1).1 <> Err NeedMore -> sim_result (reader_turn data1 used1 im1) (reader_turn data2 used2 im2).
Proof.
  intros Hre1 Hre2 Hsim. unfold reader_turn. run_R. rewrite <- (frames_sim _ _ Hsim), <- (pending_sim _ _ Hsim).
  destruct (REDIS_RESP_MAX_DEPTH <? len (im_frames im1)); [done|]. destruct (im_bulk_pending im1) eqn:Ep.
  - intros Hn. rewrite <- (bulk_extend im1 s1 Hre1 Ep Hn). by apply blind_bulk_turn.
  - change (line_turn ?d ?u) with (redis_resp_reply_reader_line d u ≫= line_rest). unfold mbind, M_bind.
    pose proof (line_extend im1 im2 (re_position _ _ _ _ _ Hre1) (re_scan _ _ _ _ _ Hre1) (re_position _ _ _ _ _ Hre2) (re_scan _ _ _ _ _ Hre2) Hsim) as H.
    destruct (redis_resp_reply_reader_line data1 used1 im1) as [r1 s1'], (redis_resp_reply_reader_line data2 used2 im2) as [r2 s2']. cbn [fst snd] in H.
    intros Hn. destruct H as (-> & -> & ->); [intros ->; by apply Hn|]. destruct r1; [by apply blind_line_rest|done|done].
Qed.
End Extend.

(** A stop for more bytes changes only the place of the search. *)
Lemma turn_more {mem : memory} data used max im s im' :
  used < 2 ^ 64 -> reading data used max im s -> reader_turn data used im = (Err NeedMore, im') -> sim im' im.
Proof.
  intros Hu Hre. unfold reader_turn. run_R. rewrite (is_frames _ _ (re_stack _ _ _ _ _ Hre)), frames_of_length.
  destruct (Z.ltb_spec REDIS_RESP_MAX_DEPTH (len s)) as [|Hd]; [done|].
  destruct (im_bulk_pending im) eqn:Ep; intros E.
  - destruct (re_bulk _ _ _ _ _ Hre Ep) as (Hb & Hli & text & rest & Hn & Eh & Ha). pose proof (number_range _ _ Hn) as Hr. rewrite Eh in Hli.
    pose proof (bulk_turn_spec data used max Hu im s _ rest Hre Ep Hd Ha Eh ltac:(lia) Hli) as H. rewrite E in H. by destruct H as [-> _].
  - pose proof (line_turn_spec data used max im s Hre Ep Hd) as H. rewrite E in H. destruct H as [-> _]. apply sim_scan.
Qed.

Section Resume.
Context {mem : memory} (data : bytes) (used max : Z).
Hypothesis Hused : 0 <= used <= len data.
Hypothesis Hsize : used < 2 ^ 64.

(** States that differ in the place of the search end alike. *)
Lemma turn_sim im1 im2 s1 s2 :
  reading data used max im1 s1 -> reading data used max im2 s2 -> sim im1 im2 -> sim_result (reader_turn data used im1) (reader_turn data used im2).
Proof.
  intros Hre1 Hre2 Hsim. destruct (decide ((reader_turn data used im1).1 = Err NeedMore)) as [E1|Hn].
  - destruct (decide ((reader_turn data used im2).1 = Err NeedMore)) as [E2|Hn].
    + destruct (reader_turn data used im1) as [r1 im1'] eqn:Et1, (reader_turn data used im2) as [r2 im2'] eqn:Et2. cbn in E1, E2. subst. split; [done|]. cbn.
      rewrite (turn_more _ _ _ _ _ _ Hsize Hre1 Et1), (turn_more _ _ _ _ _ _ Hsize Hre2 Et2). done.
    + pose proof (turn_extend data data used used max ltac:(lia) ltac:(lia) ltac:(lia) Hsize eq_refl _ _ _ _ Hre2 Hre1 ltac:(done) Hn) as [E _]. congruence.
  - by apply (turn_extend data data used used max ltac:(lia) ltac:(lia) ltac:(lia) Hsize eq_refl _ _ s1 s2).
Qed.

(** Enough fuel is enough. *)
Lemma turns_fuel f1 f2 im s :
  reading data used max im s -> turns_left used im < Z.of_nat f1 -> turns_left used im < Z.of_nat f2 ->
  reader_turns f1 data used im = reader_turns f2 data used im.
Proof.
  revert f2 im s. induction f1 as [|f1 IH]; intros [|f2] im s Hre H1 H2;
    try (pose proof (re_position _ _ _ _ _ Hre) as [? ?]; unfold turns_left in *; destruct (im_bulk_pending im); lia).
  cbn [reader_turns]. unfold mbind, M_bind. pose proof (turn_spec data used max Hsize im s Hre) as H.
  destruct (reader_turn data used im) as [[[]|[|st]|] im']; [done| |done|done|done].
  destruct H as [[s' Hre'] Hlt]. apply (IH f2 im' s' Hre'); lia.
Qed.

Lemma turns_sim f im1 im2 s1 s2 :
  reading data used max im1 s1 -> reading data used max im2 s2 -> sim im1 im2 ->
  sim_result (reader_turns f data used im1) (reader_turns f data used im2).
Proof.
  revert im1 im2 s1 s2. induction f as [|f IH]; intros im1 im2 s1 s2 Hre1 Hre2 Hsim; cbn [reader_turns]; [done|].
  unfold mbind, M_bind. pose proof (turn_sim im1 im2 s1 s2 Hre1 Hre2 Hsim) as [E Hs].
  pose proof (turn_spec data used max Hsize im1 s1 Hre1) as H1. pose proof (turn_spec data used max Hsize im2 s2 Hre2) as H2.
  destruct (reader_turn data used im1) as [r1 im1'], (reader_turn data used im2) as [r2 im2']. cbn in E, Hs. subst r2.
  destruct r1 as [[]|e|]; [done| |done|done]. destruct H1 as [[s1' Hr1] _], H2 as [[s2' Hr2] _]. by eapply IH.
Qed.
End Resume.

Definition enough (used : Z) : nat := (2 * Z.to_nat used + 2)%nat.

Lemma enough_turns {mem : memory} data used max im s : reading data used max im s -> turns_left used im < Z.of_nat (enough used).
Proof.
  intros Hre. pose proof (re_position _ _ _ _ _ Hre) as [? ?]. unfold turns_left, enough. destruct (im_bulk_pending im); lia.
Qed.

Section Longer.
Context {mem : memory} (data1 data2 : bytes) (used1 used2 max : Z).
Hypothesis Hused : 0 <= used1 <= used2.
Hypothesis Hlen1 : used1 <= len data1.
Hypothesis Hlen2 : used2 <= len data2.
Hypothesis Hsize : used2 < 2 ^ 64.
Hypothesis agree : take (Z.to_nat used1) data1 = take (Z.to_nat used1) data2.

Lemma turns_extend f im1 im2 s1 s2 :
  reading data1 used1 max im1 s1 -> reading data2 used2 max im2 s2 -> sim im1 im2 ->
  (reader_turns f data1 used1 im1).1 <> Err NeedMore -> sim_result (reader_turns f data1 used1 im1) (reader_turns f data2 used2 im2).
Proof.
  assert (used1 < 2 ^ 64) as Hsize1 by lia.
  revert im1 im2 s1 s2. induction f as [|f IH]; intros im1 im2 s1 s2 Hre1 Hre2 Hsim; cbn [reader_turns]; [done|].
  unfold mbind, M_bind. pose proof (turn_extend data1 data2 used1 used2 max Hused Hlen1 Hlen2 Hsize agree im1 im2 s1 s2 Hre1 Hre2 Hsim) as H.
  pose proof (turn_spec data1 used1 max Hsize1 im1 s1 Hre1) as H1. pose proof (turn_spec data2 used2 max Hsize im2 s2 Hre2) as H2.
  destruct (reader_turn data1 used1 im1) as [r1 im1'], (reader_turn data2 used2 im2) as [r2 im2']. intros Hn.
  destruct H as [E Hs]; [cbn; intros ->; by apply Hn|]. cbn in E, Hs. subst r2.
  destruct r1 as [[]|e|]; [done| |done|done]. destruct H1 as [[s1' Hr1] _], H2 as [[s2' Hr2] _]. by eapply IH.
Qed.

Lemma turns_resume f im1 im2 s1 s2 im1' :
  reading data1 used1 max im1 s1 -> reading data2 used2 max im2 s2 -> sim im1 im2 -> reader_turns f data1 used1 im1 = (Err NeedMore, im1') ->
  sim_result (reader_turns (enough used2) data2 used2 im1') (reader_turns (enough used2) data2 used2 im2).
Proof.
  assert (used1 < 2 ^ 64) as Hsize1 by lia.
  revert im1 im2 s1 s2. induction f as [|f IH]; intros im1 im2 s1 s2 Hre1 Hre2 Hsim; cbn [reader_turns]; [done|].
  unfold mbind, M_bind. pose proof (turn_extend data1 data2 used1 used2 max Hused Hlen1 Hlen2 Hsize agree im1 im2 s1 s2 Hre1 Hre2 Hsim) as H.
  pose proof (turn_spec data1 used1 max Hsize1 im1 s1 Hre1) as H1. pose proof (turn_spec data2 used2 max Hsize im2 s2 Hre2) as H2.
  destruct (reader_turn data1 used1 im1) as [r1 ima] eqn:E1. destruct r1 as [[]|[|st]|]; [done| | |done|done].
  - intros E. destruct H1 as [[s1' Hr1] _]. destruct H as [Er Hs]; [done|].
    destruct (reader_turn data2 used2 im2) as [r2 imb] eqn:E2. cbn in Er, Hs. subst r2. destruct H2 as [[s2' Hr2] Hlt].
    pose proof (IH ima imb s1' s2' Hr1 Hr2 Hs E) as Hih.
    assert (reader_turns (enough used2) data2 used2 im2 = reader_turns (enough used2) data2 used2 imb) as ->; [|done].
    pose proof (enough_turns _ _ _ _ _ Hre2) as Hen. rewrite <- (turns_fuel data2 used2 max Hsize (pred (enough used2)) (enough used2) imb s2' Hr2) by lia.
    destruct (enough used2) as [|n] eqn:En; [unfold enough in En; lia|]. cbn [pred]. cbn [reader_turns]. unfold mbind, M_bind. by rewrite E2.
  - intros [= ->]. pose proof (reading_extend data1 data2 used1 used2 max Hused Hlen2 agree _ _ H1) as Hr.
    eapply (turns_sim data2 used2 max ltac:(lia) Hsize); [done|done|]. rewrite (turn_more _ _ _ _ _ _ Hsize1 Hre1 E1). done.
Qed.
End Longer.

(** ** Calls *)

Section Calls.
Context {mem : memory}.

(** Readers that differ in the place of the search. *)
Definition sim_reader (r1 r2 : redis_resp_reply_reader) : Prop :=
  rd_max_reply_bytes r1 = rd_max_reply_bytes r2 /\
  match rd_impl r1, rd_impl r2 with
  | None, None => True
  | Some im1, Some im2 => sim im1 im2
  | _, _ => False
  end.

(** The result of a call once the reader has begun. *)
Definition finish_call (max : Z) (r : outcome halt unit * redis_resp_reply_reader_impl) : option (Z * ptr owned_reply * redis_resp_reply_reader) :=
  match r with
  | (Fault, _) => None
  | (Err NeedMore, impl) => Some (0, None, mk_reader (Some impl) max)
  | (Err (Halt status), _) => Some (status, None, mk_reader None max)
  | (Ret _, impl) =>
      if INT_MAX <? im_offset impl then Some (-1, None, mk_reader None max)
      else
        match im_root impl with
        | Some root => Some (im_offset impl, Some (im_owner impl, root), mk_reader None max)
        | None => None
        end
  end.

Definition sim_call (c1 c2 : option (Z * ptr owned_reply * redis_resp_reply_reader)) : Prop :=
  match c1, c2 with
  | Some (s1, r1, rd1), Some (s2, r2, rd2) => s1 = s2 /\ r1 = r2 /\ sim_reader rd1 rd2
  | None, None => True
  | _, _ => False
  end.

Lemma finish_sim max r1 r2 : sim_result r1 r2 -> sim_call (finish_call max r1) (finish_call max r2).
Proof.
  destruct r1 as [o1 im1], r2 as [o2 im2]. intros [E Hs]. cbn in E, Hs. subst o2. destruct o1 as [[]|[|st]|]; cbn; try done.
  rewrite <- (offset_sim _ _ Hs), <- (root_sim _ _ Hs), <- (owner_sim _ _ Hs). destruct (INT_MAX <? im_offset im1); [done|]. by destruct (im_root im1).
Qed.

(** A call on a buffer with bytes: it begins a reading, or fails at once. *)
Lemma call_begins data capacity used reader :
  0 <= sizeof_owner -> 0 < used <= len data -> reader_ok data used reader ->
  let call := redis_resp_reply_reader_next_buffer (Some (mk_buffer (Some data) capacity used)) reader in
  (exists status, status < 0 /\ rd_impl reader = None /\
    forall data' capacity' used', 0 < used' -> redis_resp_reply_reader_next_buffer (Some (mk_buffer (Some data') capacity' used')) reader = Some (status, None, reader)) \/
  (exists im s, reading data used (rd_max_reply_bytes reader) im s /\
    (rd_impl reader = Some im \/ rd_impl reader = None /\ calloc_ok = true /\ mem_init_ok = true /\ sizeof_owner <= rd_max_reply_bytes reader) /\
    forall data' capacity' used', 0 < used' ->
      redis_resp_reply_reader_next_buffer (Some (mk_buffer (Some data') capacity' used')) reader =
        finish_call (rd_max_reply_bytes reader) (reader_turns (enough used') data' used' im)).
Proof.
  intros Hsz Hu Hok call. pose proof (begin_ok data used reader Hsz ltac:(lia) Hok) as Hb. pose proof Hok as [Hm Hr].
  unfold redis_resp_reply_reader_next_buffer. cbn [rb_data rb_used]. rewrite (proj2 (Z.eqb_neq _ _)) by lia.
  destruct (redis_resp_reply_reader_begin reader) as [status r] eqn:Eb. destruct Hb as [Em Hb]. destruct (rd_impl r) as [im|] eqn:Er.
  - right. destruct Hb as (-> & s & Hre). exists im, s. split; [done|]. split.
    + unfold redis_resp_reply_reader_begin in Eb. destruct (rd_impl reader) as [im0|] eqn:E0; [injection Eb as <-; left; congruence|]. right.
      destruct calloc_ok; [|done]. cbn [negb] in Eb. unfold redis_reply_owner_charge in Eb. cbn [ow_max_allocation_bytes ow_allocation_bytes] in Eb.
      unfold size_sub in Eb. rewrite Z.sub_0_r, u64_small in Eb by lia. destruct (Z.ltb_spec (rd_max_reply_bytes reader) sizeof_owner); [done|].
      by destruct mem_init_ok.
    + intros data' capacity' used' Hu'. rewrite (proj2 (Z.eqb_neq used' 0)) by lia. cbn [negb Z.eqb]. rewrite Em. unfold finish_call, enough.
      destruct (reader_turns _ data' used' im) as [[[]|[|st]|] im']; done.
  - left. exists status. split; [done|]. unfold redis_resp_reply_reader_begin in Eb.
    assert (rd_impl reader = None /\ r = reader) as [En ->].
    { destruct (rd_impl reader) as [im0|] eqn:E0; [injection Eb as <- <-; congruence|]. split; [done|].
      destruct calloc_ok; [|by injection Eb as _ <-]. cbn [negb] in Eb. destruct (redis_reply_owner_charge _ _); [|by injection Eb as _ <-].
      destruct mem_init_ok; [injection Eb as _ <-; done|]. by injection Eb as _ <-. }
    split; [done|]. intros data' capacity' used' Hu'. by rewrite (proj2 (Z.eqb_neq used' 0)) by lia.
Qed.

Lemma sim_reader_refl r : sim_reader r r.
Proof. split; [done|]. by destruct (rd_impl r). Qed.

Lemma sim_call_refl c : sim_call c c.
Proof. destruct c as [[[]]|]; [|done]. split_and!; [done|done|apply sim_reader_refl]. Qed.

(** A call on a reader that has stopped for more. *)
Lemma call_again data capacity used im max :
  0 < used -> 0 < max ->
  redis_resp_reply_reader_next_buffer (Some (mk_buffer (Some data) capacity used)) (mk_reader (Some im) max) =
    finish_call max (reader_turns (enough used) data used im).
Proof.
  intros Hu Hm. unfold redis_resp_reply_reader_next_buffer. cbn [rb_data rb_used rd_max_reply_bytes]. rewrite !(proj2 (Z.eqb_neq _ _)) by lia.
  unfold redis_resp_reply_reader_begin. cbn [rd_impl negb Z.eqb rd_max_reply_bytes]. unfold finish_call, enough.
  destruct (reader_turns _ data used im) as [[[]|[|st]|] im']; done.
Qed.

Section Pieces.
Context (data1 data2 : bytes) (capacity1 capacity2 used1 used2 : Z).
Hypothesis Hsz : 0 <= sizeof_owner.
Hypothesis Hused : 0 <= used1 <= used2.
Hypothesis Hlen1 : used1 <= len data1.
Hypothesis Hlen2 : used2 <= len data2.
Hypothesis Hsize : used2 < 2 ^ 64.
Hypothesis agree : take (Z.to_nat used1) data1 = take (Z.to_nat used1) data2.

Abbreviation call1 := (redis_resp_reply_reader_next_buffer (Some (mk_buffer (Some data1) capacity1 used1))).
Abbreviation call2 := (redis_resp_reply_reader_next_buffer (Some (mk_buffer (Some data2) capacity2 used2))).

(** The bytes that were enough are enough. *)
Lemma call_settled reader status reply reader1 :
  reader_ok data1 used1 reader -> call1 reader = Some (status, reply, reader1) -> status <> 0 ->
  sim_call (call1 reader) (call2 reader).
Proof.
  intros Hok E Hst. destruct (decide (used1 = 0)) as [E0|Hne].
  { unfold redis_resp_reply_reader_next_buffer in E. cbn [rb_data rb_used] in E. destruct Hok as [Hm _].
    rewrite (proj2 (Z.eqb_neq _ _)), (proj2 (Z.eqb_eq _ _) E0) in E by lia. congruence. }
  destruct (call_begins data1 capacity1 used1 reader Hsz ltac:(lia) Hok) as [(st & _ & _ & Hcall)|(im & s & Hre & _ & Hcall)].
  { rewrite !Hcall by lia. apply sim_call_refl. }
  rewrite !Hcall in * by lia. pose proof (reading_extend data1 data2 used1 used2 _ Hused Hlen2 agree _ _ Hre) as Hre2.
  pose proof (enough_turns _ _ _ _ _ Hre) as Hen. pose proof (enough_turns _ _ _ _ _ Hre2) as Hen2.
  assert ((reader_turns (enough used1) data1 used1 im).1 <> Err NeedMore) as Hn.
  { destruct (reader_turns (enough used1) data1 used1 im) as [[[]|[|]|] im'] eqn:Er; cbn; try done. cbn in E. congruence. }
  apply finish_sim. assert (turns_left used1 im < Z.of_nat (enough used2)) as Hen3 by (unfold enough in *; lia).
  rewrite (turns_fuel data1 used1 _ ltac:(lia) (enough used1) (enough used2) im s Hre Hen Hen3) in *.
  by apply (turns_extend data1 data2 used1 used2 (rd_max_reply_bytes reader) Hused Hlen1 Hlen2 Hsize agree _ im im s s).
Qed.

(** A reader that stopped for more goes on as if it had not. *)
Lemma call_resumed reader reply reader1 :
  reader_ok data1 used1 reader -> call1 reader = Some (0, reply, reader1) -> sim_call (call2 reader1) (call2 reader) /\ reader_ok data2 used2 reader1.
Proof.
  intros Hok E. destruct (decide (used1 = 0)) as [E0|Hne].
  { unfold redis_resp_reply_reader_next_buffer in E at 1. cbn [rb_data rb_used] in E. pose proof Hok as [Hm Hr].
    rewrite (proj2 (Z.eqb_neq _ _)), (proj2 (Z.eqb_eq _ _) E0) in E by lia. injection E as _ <-. split; [apply sim_call_refl|].
    split; [done|]. destruct (rd_impl reader); [|done]. destruct Hr as [s Hre]. exists s. by eapply reading_extend. }
  destruct (call_begins data1 capacity1 used1 reader Hsz ltac:(lia) Hok) as [(st & Hst & _ & Hcall)|(im & s & Hre & _ & Hcall)].
  { rewrite Hcall in E by lia. injection E as -> _ _. lia. }
  rewrite Hcall in E by lia. rewrite (Hcall data2) by lia. pose proof Hok as [Hm _].
  pose proof (reading_extend data1 data2 used1 used2 _ Hused Hlen2 agree _ _ Hre) as Hre2.
  pose proof (turns_spec data1 used1 _ ltac:(lia) (enough used1) im s Hre (enough_turns _ _ _ _ _ Hre)) as Hspec.
  destruct (reader_turns (enough used1) data1 used1 im) as [[[]|[|st]|] im'] eqn:Er; cbn [finish_call] in E; [| | |done].
  - destruct Hspec as (Hpos & _ & Hint & _ & t & _ & _ & Hroot). rewrite (proj2 (Z.ltb_ge _ _)), Hroot in E by lia. injection E as E _ _. lia.
  - injection E as _ <-. rewrite call_again by lia. split.
    + apply finish_sim. by apply (turns_resume data1 data2 used1 used2 (rd_max_reply_bytes reader) Hused Hlen1 Hlen2 Hsize agree (enough used1) im im s s).
    + split; [done|]. cbn [rd_impl rd_max_reply_bytes]. destruct Hspec as [s' Hs']. exists s'. by eapply reading_extend.
  - injection E as -> _ _. lia.
Qed.
End Pieces.

(** ** A reply in pieces *)

Lemma turns_bytes : (forall t l, wire t l -> (turns t <= length l)%nat) /\ (forall ts b, wires ts b -> (all_turns ts <= length b)%nat).
Proof.
  apply wire_wires; intros; cbn [turns map foldr length]; rewrite ?length_app; cbn [length]; rewrite ?length_app; cbn [length]; lia.
Qed.

(** The conditions under which a reply is read: nesting, length and memory. *)
Record readable (t : reply) (l : bytes) (max : Z) : Prop := {
  rl_wire : wire t l;
  rl_depth : depth t <= REDIS_RESP_MAX_DEPTH;
  rl_length : len l <= INT_MAX;
  rl_owner : 0 <= sizeof_owner;
  rl_cost : sizeof_owner + cost t <= max;
  rl_max : max < 2 ^ 64;
  rl_calloc : calloc_ok = true;
  rl_init : mem_init_ok = true;
  rl_memory : memory_good
}.

(** The call gives the reply [t] of [l] and leaves a fresh reader. *)
Definition gives (t : reply) (l : bytes) (max : Z) (call : option (Z * ptr owned_reply * redis_resp_reply_reader)) : Prop :=
  exists owner, call = Some (len l, Some (owner, O), redis_resp_reply_reader_init max) /\ ow_pool owner = flatten 0 t.

Lemma wire_not_nil t l : wire t l -> 0 < len l.
Proof. intros [| | | | |]; cbn [length app]; lia. Qed.

Lemma call_fresh data capacity used max :
  0 < used -> 0 < max < 2 ^ 64 -> 0 <= sizeof_owner <= max -> calloc_ok = true -> mem_init_ok = true ->
  redis_resp_reply_reader_next_buffer (Some (mk_buffer (Some data) capacity used)) (redis_resp_reply_reader_init max) =
    finish_call max (reader_turns (enough used) data used (fresh_impl max)).
Proof.
  intros Hu Hm Hs Hc Hi. rewrite <- (call_again data capacity used (fresh_impl max) max) by lia.
  unfold redis_resp_reply_reader_next_buffer, redis_resp_reply_reader_init. cbn [rb_data rb_used rd_max_reply_bytes].
  rewrite !(proj2 (Z.eqb_neq _ _)) by lia. unfold redis_resp_reply_reader_begin. cbn [rd_impl rd_max_reply_bytes]. rewrite Hc. cbn [negb].
  unfold redis_reply_owner_charge. cbn [ow_max_allocation_bytes ow_allocation_bytes]. unfold size_sub. rewrite Z.sub_0_r, u64_small by lia.
  rewrite (proj2 (Z.ltb_ge _ _)), Hi by lia. cbn [negb]. unfold owner_charged. cbn [ow_allocation_bytes]. rewrite Z.add_0_l. done.
Qed.

Lemma call_complete data capacity used t l rest max :
  readable t l max -> 0 <= used <= len data -> used < 2 ^ 64 -> take (Z.to_nat used) data = l ++ rest ->
  gives t l max (redis_resp_reply_reader_next_buffer (Some (mk_buffer (Some data) capacity used)) (redis_resp_reply_reader_init max)).
Proof.
  intros [Hw Hd Hl Hsz Hc Hm Hcal Hini Hmem] Hu Hsize E. pose proof (wire_not_nil _ _ Hw) as Hl0. pose proof (cost_pos t) as Hct.
  assert (len l + len rest = used) as Elen by (rewrite <- Nat2Z.inj_add, <- length_app, <- E, length_take; lia).
  unfold SIZEOF_ALLOCATION in Hct. rewrite call_fresh by (done || lia).
  assert (0 <= sizeof_owner <= max) as Hso by lia. pose proof (fresh_reading data used max Hso Hm Hu) as Hre.
  destruct (proj1 (run_wires data used max Hsize Hmem) t l Hw (fresh_impl max) [] rest Hre eq_refl) as (im & Eo & _ & _ & _ & Et & Hp & Hr);
    [done|cbn [length]; lia|done|done|].
  cbn [deliver] in *. pose proof (proj1 turns_bytes t l Hw) as Htb.
  replace (enough used) with (turns t + (enough used - turns t))%nat by (unfold enough; lia). rewrite Et. cbn [finish_call].
  cbn in Eo. rewrite Z.add_0_l in Eo. rewrite Eo, (proj2 (Z.ltb_ge _ _)), Hr by lia. by eexists.
Qed.

(** Calls one after the other, until one of them does not ask for more. *)
Fixpoint feed (reader : redis_resp_reply_reader) (buffers : list redis_resp_buffer) : option (Z * ptr owned_reply * redis_resp_reply_reader) :=
  match buffers with
  | [] => Some (0, None, reader)
  | b :: buffers =>
      match redis_resp_reply_reader_next_buffer (Some b) reader with
      | Some (status, reply, reader) => if status =? 0 then feed reader buffers else Some (status, reply, reader)
      | None => None
      end
  end.

(** The buffers hold more and more of the stream, from [n] bytes on. *)
Fixpoint growing (stream : bytes) (n : Z) (buffers : list redis_resp_buffer) : Prop :=
  match buffers with
  | [] => True
  | b :: buffers =>
      n <= rb_used b <= len stream /\
      (exists data, rb_data b = Some data /\ rb_used b <= len data /\ take (Z.to_nat (rb_used b)) data = take (Z.to_nat (rb_used b)) stream) /\
      growing stream (rb_used b) buffers
  end.

Lemma sim_gives t l max c1 c2 : sim_call c1 c2 -> gives t l max c2 -> gives t l max c1.
Proof.
  intros Hs (owner & -> & Hp). destruct c1 as [[[st rep] rd]|]; [|done]. destruct Hs as (-> & -> & Hm & Hsim). exists owner.
  split; [|done]. destruct rd as [im m]. cbn in *. subst m. by destruct im.
Qed.

(** The reader has read [n] bytes of the stream at most, and gives the reply
    [t] of its first bytes [l] as soon as a buffer has them. *)
Definition ready (t : reply) (l stream : bytes) (max n : Z) (reader : redis_resp_reply_reader) : Prop :=
  reader_ok stream n reader /\
  forall data capacity used, len l <= used <= len stream -> used <= len data -> take (Z.to_nat used) data = take (Z.to_nat used) stream ->
    gives t l max (redis_resp_reply_reader_next_buffer (Some (mk_buffer (Some data) capacity used)) reader).

Lemma fresh_ready t l rest max : readable t l max -> len (l ++ rest) < 2 ^ 64 -> ready t l (l ++ rest) max 0 (redis_resp_reply_reader_init max).
Proof.
  intros Hrd Hsize. pose proof (cost_pos t) as Hc. unfold SIZEOF_ALLOCATION in Hc.
  pose proof (rl_owner _ _ _ Hrd) as Hso. pose proof (rl_cost _ _ _ Hrd) as Hco. pose proof (rl_max _ _ _ Hrd) as Hm.
  split; [split; [cbn; lia|done]|]. intros data capacity used Hu Hd Ha.
  apply (call_complete data capacity used t l (take (Z.to_nat used - length l) rest)); [done|lia|lia|]. rewrite Ha, take_app_ge by lia. done.
Qed.

(** A call on more of the stream: more, or the reply. *)
Lemma ready_step t l rest max n reader data capacity used :
  let stream := l ++ rest in
  0 <= sizeof_owner -> len stream < 2 ^ 64 -> ready t l stream max n reader -> 0 <= n <= used -> used <= len stream ->
  used <= len data -> take (Z.to_nat used) data = take (Z.to_nat used) stream ->
  let call := redis_resp_reply_reader_next_buffer (Some (mk_buffer (Some data) capacity used)) reader in
  if len l <=? used then gives t l max call else exists reader', call = Some (0, None, reader') /\ ready t l stream max used reader'.
Proof.
  intros stream Hsz Hsize [Hok Hgives] Hn Hus Hud Ha call.
  destruct (Z.leb_spec (len l) used) as [|Hlt]; [by apply Hgives; [lia|..]|].
  assert (reader_ok data used reader) as Hok1.
  { destruct Hok as [Hm Hr]. split; [done|]. destruct (rd_impl reader) as [im|]; [|done]. destruct Hr as [s Hre]. exists s.
    apply (reading_extend stream data n used); [lia|done| |done]. rewrite <- (Nat.min_l (Z.to_nat n) (Z.to_nat used)) by lia. by rewrite <- !take_take, Ha. }
  destruct (reader_call_spec data capacity used reader Hsz ltac:(lia) ltac:(lia) Hok1) as (status & rep & rd & Ecall & _ & Hm & Hst).
  assert (len l <= len stream) as Hls by (unfold stream; rewrite length_app; lia).
  fold call in Ecall. destruct (Z.eq_dec status 0) as [->|Hne].
  - exists rd. cbn in Hst. destruct Hst as [-> _]. split; [done|].
    destruct (call_resumed data stream capacity 0 used used Hsz ltac:(lia) Hud ltac:(lia) ltac:(lia) Ha reader None rd Hok1 Ecall) as [_ Hok2].
    split; [done|]. intros data' cap' used' Hu' Hl' Ha'. eapply sim_gives; [|by apply Hgives].
    apply (call_resumed data data' capacity cap' used used' Hsz ltac:(lia) Hud Hl' ltac:(lia)) with (reply := None); [|done|done].
    rewrite Ha. rewrite <- (Nat.min_l (Z.to_nat used) (Z.to_nat used')) by lia. by rewrite <- !take_take, Ha'.
  - exfalso. destruct (Hgives stream 0 (len stream) ltac:(lia) ltac:(lia) eq_refl) as (owner & Eall & _).
    pose proof (call_settled data stream capacity 0 used (len stream) Hsz ltac:(lia) Hud ltac:(lia) Hsize Ha reader status rep rd Hok1 Ecall Hne) as Hs.
    fold call in Hs. rewrite Ecall, Eall in Hs. destruct Hs as (-> & _). rewrite (proj2 (Z.ltb_lt _ _)) in Hst by lia. lia.
Qed.

Lemma feed_gives t l rest max n reader buffers :
  0 <= sizeof_owner -> 0 < len l -> len (l ++ rest) < 2 ^ 64 -> 0 <= n -> ready t l (l ++ rest) max n reader ->
  growing (l ++ rest) n buffers -> Exists (fun b => len l <= rb_used b) buffers -> gives t l max (feed reader buffers).
Proof.
  intros Hsz Hl Hsize Hn Hr Hgrow Hex. revert n reader Hn Hr Hgrow. induction Hex as [b buffers Hb|b buffers _ IH];
    intros n reader Hn Hr Hgrow; cbn [growing feed] in *; destruct Hgrow as (Hu & (data & Ed & Hud & Ha) & Hgrow);
    destruct b as [d cap used]; cbn [rb_data rb_used] in *; subst d;
    pose proof (ready_step t l rest max n reader data cap used Hsz Hsize Hr ltac:(lia) ltac:(lia) Hud Ha) as Hstep; cbv zeta in Hstep;
    destruct (Z.leb_spec (len l) used); try lia.
  - destruct Hstep as (owner & -> & Hp). rewrite (proj2 (Z.eqb_neq _ _)) by lia. by exists owner.
  - destruct Hstep as (owner & -> & Hp). rewrite (proj2 (Z.eqb_neq _ _)) by lia. by exists owner.
  - destruct Hstep as (rd & -> & Hr'). cbn. apply (IH used rd); [lia|done|done].
Qed.

(** C3. A reply that arrives in any pieces is read. Let the buffers hold more
    and more of a stream that starts with the bytes of a reply, nested at most
    128 deep, of at most INT_MAX bytes and within the limit on its memory: the
    calls ask for more until the reply is in the buffer, and the call that sees
    it returns the number of its bytes and a pool with exactly its nodes. The
    buffer may have moved or grown between the calls, and other bytes may follow. *)
Theorem resp_stream_exact t l rest max buffers :
  readable t l max -> len (l ++ rest) < 2 ^ 64 -> growing (l ++ rest) 0 buffers -> Exists (fun b => len l <= rb_used b) buffers ->
  exists owner, feed (redis_resp_reply_reader_init max) buffers = Some (len l, Some (owner, O), redis_resp_reply_reader_init max) /\
    ow_pool owner = flatten 0 t.
Proof.
  intros Hrd Hsize Hgrow Hex. eapply (feed_gives t l rest max 0); [apply Hrd|by eapply wire_not_nil, rl_wire|done|done|by apply fresh_ready|done|done].
Qed.

(** Stopping does not matter, on arbitrary bytes: when a call on a part of
    the bytes asked for more, the call on all of them that goes on and the call
    on all of them that a reader makes that had not stopped have the same status
    and the same reply, and leave readers that differ in nothing but the place
    where the search for the end of a line goes on; and a call that did not ask
    for more has the status and the reply that it has on all of the bytes. *)
Theorem resp_reader_resume data1 data2 capacity1 capacity2 used1 used2 reader status reply reader1 :
  0 <= sizeof_owner -> 0 <= used1 <= used2 -> used1 <= len data1 -> used2 <= len data2 -> used2 < 2 ^ 64 ->
  take (Z.to_nat used1) data1 = take (Z.to_nat used1) data2 -> reader_ok data1 used1 reader ->
  redis_resp_reply_reader_next_buffer (Some (mk_buffer (Some data1) capacity1 used1)) reader = Some (status, reply, reader1) ->
  let whole := redis_resp_reply_reader_next_buffer (Some (mk_buffer (Some data2) capacity2 used2)) in
  if status =? 0 then sim_call (whole reader1) (whole reader) /\ reader_ok data2 used2 reader1
  else sim_call (Some (status, reply, reader1)) (whole reader).
Proof.
  intros Hsz Hu H1 H2 Hsize Ha Hok E. cbv zeta. destruct (Z.eqb_spec status 0) as [->|Hne].
  - by eapply (call_resumed data1 data2 capacity1 capacity2 used1 used2).
  - rewrite <- E. by eapply (call_settled data1 data2 capacity1 capacity2 used1 used2).
Qed.
End Calls.

(** ** Witnesses *)

(** A memory in which every allocation succeeds. *)
Definition ample : memory := {| sizeof_owner := 256; calloc_ok := true; mem_init_ok := true; mem_alloc_ok := fun _ _ => true; tstr_from_ok := fun _ _ => true |}.

(** ["*2\r\n$3\r\na\r\n\r\n:-07\r\n"] and the reply it is. *)
Definition sample_bytes : bytes := [42; 50; 13; 10; 36; 51; 13; 10; 97; 13; 10; 13; 10; 58; 45; 48; 55; 13; 10].
Definition sample_reply : reply := RArray [RBulk [97; 13; 10]; RInteger (-7)].

Lemma sample_wire : wire sample_reply sample_bytes.
Proof.
  apply (wire_array [50] _ ([36; 51; 13; 10; 97; 13; 10; 13; 10] ++ [58; 45; 48; 55; 13; 10])).
  - by apply (number_plus [50]); [|repeat constructor|].
  - apply (wires_cons (RBulk [97; 13; 10]) _ [36; 51; 13; 10; 97; 13; 10; 13; 10]).
    + apply (wire_bulk [51]). by apply (number_plus [51]); [|repeat constructor|].
    + apply (wires_cons (RInteger (-7)) [] [58; 45; 48; 55; 13; 10] []); [|constructor].
      apply (wire_integer [45; 48; 55]). by apply (number_minus [48; 55]); [|repeat constructor|].
Qed.

Lemma sample_readable : readable (mem := ample) sample_reply sample_bytes 1000.
Proof. split; [apply sample_wire|done..|]. by intros a n. Qed.

Definition piece (n : Z) : redis_resp_buffer := mk_buffer (Some (take (Z.to_nat n) (sample_bytes ++ [43; 79]) ++ [170])) 100 n.

Lemma resp_stream_exact_witness :
  exists owner, feed (mem := ample) (redis_resp_reply_reader_init 1000) (map piece [0; 5; 12; 13; 21])
      = Some (19, Some (owner, O), redis_resp_reply_reader_init 1000) /\
    ow_pool owner = flatten 0 sample_reply.
Proof.
  apply (resp_stream_exact (mem := ample) sample_reply sample_bytes [43; 79] 1000); [apply sample_readable|done| |].
  - cbn [map growing]. repeat (split; [done|split; [by eexists|]]). exact I.
  - do 4 right. by left.
Defined.

Lemma resp_reader_sound_witness :
  exists status reply reader', redis_resp_reply_reader_next_buffer (mem := ample) (Some (mk_buffer (Some sample_bytes) 19 19)) (redis_resp_reply_reader_init 1000)
    = Some (status, reply, reader') /\ (if 0 <? status then status <= 19 else reply = None).
Proof.
  destruct (resp_reader_sound (mem := ample) sample_bytes 19 19 (redis_resp_reply_reader_init 1000) ltac:(done) ltac:(done) ltac:(done) ltac:(done))
    as (status & reply & reader' & E & _ & _ & H).
  exists status, reply, reader'. split; [exact E|]. destruct (0 <? status); [exact (proj1 H)|exact (proj1 H)].
Defined.

