(* ===== verification/RespArray.v ===== *)
(** * The receive buffer and streamed arrays (redis/redis_parser.c)

    The buffer that received bytes are appended to and that replies are taken
    from, and the reader that hands out the elements of a top-level array one by
    one as they arrive, so that a large result is never held at once. *)

From S2P Require Import Prelude RespToken RespReader RespStream RespResume.

(** ** The receive buffer *)

Section Buffer.
(** malloc and realloc: an object of the size, or NULL; realloc keeps the bytes. *)
Context (malloc : Z -> option bytes) (realloc : bytes -> Z -> option bytes).

Definition redis_resp_buffer_init (buffer : ptr redis_resp_buffer) (initial_capacity : Z) : Z * ptr redis_resp_buffer :=
  match buffer with
  | None => (-1, None)
  | Some b =>
      if is_some (rb_data b) || negb (rb_capacity b =? 0) || negb (rb_used b =? 0) || (initial_capacity =? 0) then (-1, buffer)
      else
        match malloc initial_capacity with
        | None => (-1, Some (mk_buffer None (rb_capacity b) (rb_used b)))
        | Some data => (0, Some (mk_buffer (Some data) initial_capacity (rb_used b)))
        end
  end.

Definition redis_resp_buffer_reset (buffer : ptr redis_resp_buffer) : ptr redis_resp_buffer :=
  match buffer with Some b => Some (mk_buffer (rb_data b) (rb_capacity b) 0) | None => None end.

(** The loop that doubles the capacity: at most 64 rounds for a size. *)
Fixpoint grow_capacity (fuel : nat) (capacity required max_buffer_bytes : Z) : option Z :=
  if (capacity <? required) && (capacity <=? max_buffer_bytes / 2) then
    match fuel with
    | O => None
    | S fuel => grow_capacity fuel (u64 (capacity * 2)) required max_buffer_bytes
    end
  else Some capacity.

(** The status and the buffer; [None] is undefined behaviour. *)
Definition redis_resp_buffer_append_bounded (buffer : ptr redis_resp_buffer) (data : ptr bytes) (n max_buffer_bytes : Z)
    : option (Z * ptr redis_resp_buffer) :=
  match buffer with
  | None => Some (-1, None)
  | Some b =>
      match rb_data b with
      | None => Some (-1, buffer)
      | Some d =>
          if (max_buffer_bytes =? 0) || (negb (is_some data) && negb (n =? 0)) then Some (-1, buffer)
          else if (max_buffer_bytes <? rb_used b) || (size_sub max_buffer_bytes (rb_used b) <? n) then Some (-2, buffer)
          else if n =? 0 then Some (0, buffer)
          else
            match data with
            | None => None
            | Some source =>
                let required := rb_used b + n in
                if required <=? rb_capacity b then
                  bs ← ldn source 0 n;
                  d ← stn d (rb_used b) bs;
                  Some (0, Some (mk_buffer (Some d) (rb_capacity b) required))
                else
                  capacity ← grow_capacity 64 (rb_capacity b) required max_buffer_bytes;
                  let capacity := if capacity <? required then required else capacity in
                  let capacity := if max_buffer_bytes <? capacity then max_buffer_bytes else capacity in
                  match realloc d capacity with
                  | None => Some (-1, buffer)
                  | Some d =>
                      bs ← ldn source 0 n;
                      d ← stn d (rb_used b) bs;
                      Some (0, Some (mk_buffer (Some d) capacity required))
                  end
            end
      end
  end.
End Buffer.

Definition redis_resp_buffer_consume (buffer : ptr redis_resp_buffer) (consumed : Z) : option (Z * ptr redis_resp_buffer) :=
  match buffer with
  | None => Some (-1, None)
  | Some b =>
      match rb_data b with
      | None => Some (-1, buffer)
      | Some d =>
          if rb_used b <? consumed then Some (-1, buffer)
          else if consumed =? 0 then Some (0, buffer)
          else
            bs ← ldn d consumed (rb_used b - consumed);
            d ← stn d 0 bs;
            Some (0, Some (mk_buffer (Some d) (rb_capacity b) (rb_used b - consumed)))
      end
  end.

(** ** The reader of a top-level array *)

Inductive redis_resp_array_step : Type :=
  | REDIS_RESP_ARRAY_OOM
  | REDIS_RESP_ARRAY_LIMIT
  | REDIS_RESP_ARRAY_ERROR
  | REDIS_RESP_ARRAY_NEED_MORE
  | REDIS_RESP_ARRAY_ITEM
  | REDIS_RESP_ARRAY_DONE
  | REDIS_RESP_ARRAY_SERVER_ERROR.

Record redis_resp_array_reader : Type := mk_array_reader {
  ar_remaining : Z;
  ar_max_items : Z;
  ar_max_reply_bytes : Z;
  ar_header_scan : Z;
  ar_header_read : bool;
  ar_terminal : bool;
  ar_item_reader : redis_resp_reply_reader
}.

Definition redis_resp_array_reader_init (max_items max_reply_bytes : Z) : redis_resp_array_reader :=
  mk_array_reader 0 max_items max_reply_bytes 0 false false (redis_resp_reply_reader_init max_reply_bytes).

(** The search for the end of the header; the position after it, or where the
    search ended. *)
Fixpoint header_loop (fuel : nat) (data : bytes) (used scan : Z) : option (bool * Z) :=
  if scan <? used then
    match fuel with
    | O => None
    | S fuel =>
        a ← ld data (scan - 1);
        b ← ld data scan;
        if (a =? CR) && (b =? LF) then Some (true, scan + 1) else header_loop fuel data used (scan + 1)
    end
  else Some (false, scan).

Definition set_header_scan (scan : Z) (r : redis_resp_array_reader) : redis_resp_array_reader :=
  mk_array_reader (ar_remaining r) (ar_max_items r) (ar_max_reply_bytes r) scan (ar_header_read r) (ar_terminal r) (ar_item_reader r).

Definition set_item_reader (item : redis_resp_reply_reader) (r : redis_resp_array_reader) : redis_resp_array_reader :=
  mk_array_reader (ar_remaining r) (ar_max_items r) (ar_max_reply_bytes r) (ar_header_scan r) (ar_header_read r) (ar_terminal r) item.

Definition set_terminal (r : redis_resp_array_reader) : redis_resp_array_reader :=
  mk_array_reader (ar_remaining r) (ar_max_items r) (ar_max_reply_bytes r) (ar_header_scan r) (ar_header_read r) true (ar_item_reader r).

(** The header was read: [n] elements follow. *)
Definition set_remaining (n : Z) (r : redis_resp_array_reader) : redis_resp_array_reader :=
  mk_array_reader n (ar_max_items r) (ar_max_reply_bytes r) (ar_header_scan r) true (ar_terminal r) (ar_item_reader r).

(** The returns 1, 0 and -1. *)
Definition redis_resp_array_header_ready (data : bytes) (used : Z) (r : redis_resp_array_reader) : option (Z * redis_resp_array_reader) :=
  if used =? 0 then Some (0, r)
  else
    let scan := if 1 <? ar_header_scan r then ar_header_scan r else 1 in
    let scan := if used <? scan then used else scan in
    '(found, scan) ← header_loop (Z.to_nat used) data used scan;
    let r := set_header_scan scan r in
    if found : bool then Some (if scan <=? ar_max_reply_bytes r then 1 else -1, r)
    else Some (if used <? ar_max_reply_bytes r then 0 else -1, r).

Section Array.
Context {mem : memory}.

(** The step of a status of the reply reader that is not positive. *)
Definition step_of (parsed : Z) : redis_resp_array_step :=
  if parsed =? 0 then REDIS_RESP_ARRAY_NEED_MORE
  else if parsed =? REDIS_RESP_PARSE_OOM then REDIS_RESP_ARRAY_OOM
  else if parsed =? REDIS_RESP_PARSE_LIMIT then REDIS_RESP_ARRAY_LIMIT
  else REDIS_RESP_ARRAY_ERROR.

(** What a call gives: the step, the item, the buffer and the reader. *)
Definition array_call : Type := option (redis_resp_array_step * ptr owned_reply * ptr redis_resp_buffer * redis_resp_array_reader).

(** A reply from the buffer, taken out of it; [k] says what it is. *)
Definition take_reply (b : redis_resp_buffer) (r : redis_resp_array_reader) (step : redis_resp_array_step)
    (k : redis_resp_array_reader -> redis_resp_array_reader) : array_call :=
  '(parsed, item, item_reader) ← redis_resp_reply_reader_next_buffer (Some b) (ar_item_reader r);
  let r := set_item_reader item_reader r in
  if parsed <=? 0 then Some (step_of parsed, item, Some b, r)
  else
    '(_, buffer) ← redis_resp_buffer_consume (Some b) parsed;
    Some (step, item, buffer, k r).

(** The elements, after the header. *)
Definition array_items (b : redis_resp_buffer) (r : redis_resp_array_reader) : array_call :=
  if ar_remaining r =? 0 then Some (REDIS_RESP_ARRAY_DONE, None, Some b, set_terminal r)
  else take_reply b r REDIS_RESP_ARRAY_ITEM (fun r => mk_array_reader (ar_remaining r - 1) (ar_max_items r) (ar_max_reply_bytes r)
    (ar_header_scan r) (ar_header_read r) (ar_terminal r) (ar_item_reader r)).

(** The reader and the place for the item are the caller's objects. *)
Definition redis_resp_array_reader_next_buffer (buffer : ptr redis_resp_buffer) (r : redis_resp_array_reader) : array_call :=
  match buffer with
  | None => Some (REDIS_RESP_ARRAY_ERROR, None, None, r)
  | Some b =>
      match rb_data b with
      | None => Some (REDIS_RESP_ARRAY_ERROR, None, buffer, r)
      | Some data =>
          if (ar_max_items r =? 0) || (ar_max_reply_bytes r =? 0) then Some (REDIS_RESP_ARRAY_ERROR, None, buffer, r)
          else if ar_terminal r then Some (REDIS_RESP_ARRAY_DONE, None, buffer, r)
          else if ar_header_read r then array_items b r
          else if rb_used b =? 0 then Some (REDIS_RESP_ARRAY_NEED_MORE, None, buffer, r)
          else
            first ← ld data 0;
            if first =? MINUS then take_reply b r REDIS_RESP_ARRAY_SERVER_ERROR set_terminal
            else if negb (first =? STAR) then Some (REDIS_RESP_ARRAY_ERROR, None, buffer, r)
            else
              '(parsed, r) ← redis_resp_array_header_ready data (rb_used b) r;
              if parsed <=? 0 then
                Some (if parsed =? 0 then REDIS_RESP_ARRAY_NEED_MORE else REDIS_RESP_ARRAY_LIMIT, None, buffer, r)
              else
                content ← ldn data 0 (rb_used b);
                match redis_resp_scan_token content with
                | ScanMore => Some (REDIS_RESP_ARRAY_NEED_MORE, None, buffer, r)
                | ScanError => Some (REDIS_RESP_ARRAY_ERROR, None, buffer, r)
                | ScanToken token =>
                    if negb (tk_type token =? STAR) || (tk_int_value token <? 0) || (ar_max_items r <? tk_int_value token)
                    then Some (REDIS_RESP_ARRAY_ERROR, None, buffer, r)
                    else
                      '(_, buffer) ← redis_resp_buffer_consume buffer (tk_header_len token);
                      match buffer with
                      | Some b => array_items b (set_remaining (tk_int_value token) r)
                      | None => None
                      end
                end
      end
  end.
End Array.

(** ** The buffer is a bounded queue of bytes *)

Record buffer_ok (b : redis_resp_buffer) (d : bytes) : Prop := {
  bo_data : rb_data b = Some d;
  bo_capacity : len d = rb_capacity b;
  bo_positive : 1 <= rb_capacity b < 2 ^ 64;
  bo_used : 0 <= rb_used b <= rb_capacity b
}.

(** What has been received and not yet taken. *)
Definition content (b : redis_resp_buffer) : bytes :=
  match rb_data b with Some d => take (Z.to_nat (rb_used b)) d | None => [] end.

Lemma content_length b d : buffer_ok b d -> len (content b) = rb_used b.
Proof. intros [Ed Hc _ Hu]. unfold content. rewrite Ed, length_take. lia. Qed.

Lemma grow_spec fuel capacity required max :
  1 <= capacity -> 0 <= max < 2 ^ 64 -> 2 ^ 64 <= capacity * 2 ^ Z.of_nat fuel ->
  exists c, grow_capacity fuel capacity required max = Some c /\ 1 <= c /\ (capacity = c \/ c <= max).
Proof.
  revert capacity. induction fuel as [|fuel IH]; intros capacity Hc Hm Hf; cbn [grow_capacity];
    (destruct ((capacity <? required) && (capacity <=? max / 2)) eqn:E; [|exists capacity; split_and!; [done|done|by left]]);
    apply andb_true_iff in E as [_ E%Z.leb_le]; pose proof (Z.mul_div_le max 2 ltac:(lia)).
  - change (2 ^ Z.of_nat 0) with 1 in Hf. lia.
  - rewrite u64_small by lia. rewrite Nat2Z.inj_succ, Z.pow_succ_r in Hf by lia.
    destruct (IH (capacity * 2) ltac:(lia) Hm ltac:(lia)) as (c & -> & H1 & H2). exists c. split_and!; [done|done|]. right. destruct H2; lia.
Qed.

(** Bytes written after the content. *)
Lemma content_append (d bs : bytes) used capacity :
  0 <= used -> used + len bs <= len d ->
  content (mk_buffer (Some (splice d used bs)) capacity (used + len bs)) = take (Z.to_nat used) d ++ bs.
Proof.
  intros Hu Hl. unfold content, splice. cbn [rb_data rb_used].
  replace (Z.to_nat (used + len bs)) with (length (take (Z.to_nat used) d ++ bs)) by (rewrite length_app, length_take; lia).
  rewrite app_assoc. by rewrite take_app_length.
Qed.

Section Queue.
Context (malloc : Z -> option bytes) (realloc : bytes -> Z -> option bytes).
Hypothesis realloc_size : forall d n d', 0 <= n -> realloc d n = Some d' -> len d' = n.
Hypothesis realloc_keeps : forall d n d', len d <= n -> realloc d n = Some d' -> take (length d) d' = d.

Lemma append_exact b d source n max :
  buffer_ok b d -> 0 <= n <= len source -> 0 < max < 2 ^ 64 -> rb_capacity b <= max ->
  exists status b', redis_resp_buffer_append_bounded realloc (Some b) (Some source) n max = Some (status, Some b') /\
    (if max <? rb_used b + n then status = -2 /\ b' = b
     else (status = 0 /\ content b' = content b ++ take (Z.to_nat n) source /\ rb_capacity b' <= max /\ exists d', buffer_ok b' d') \/
       (status = -1 /\ b' = b /\ rb_capacity b < rb_used b + n /\ exists c, rb_used b + n <= c <= max /\ realloc d c = None)).
Proof.
  intros Hb Hn Hm Hcm. destruct Hb as [Ed Hc Hp Hu]. unfold redis_resp_buffer_append_bounded. rewrite Ed.
  rewrite (proj2 (Z.eqb_neq max 0)) by lia. cbn [orb is_some negb andb]. rewrite (proj2 (Z.ltb_ge max (rb_used b))) by lia. cbn [orb].
  unfold size_sub. rewrite u64_small by lia. destruct (Z.ltb_spec (max - rb_used b) n), (Z.ltb_spec max (rb_used b + n)); try lia; [by eexists _, _|].
  assert (content b = take (Z.to_nat (rb_used b)) d) as Ec by (unfold content; by rewrite Ed).
  destruct (Z.eqb_spec n 0) as [->|Hn0].
  { eexists _, _. split; [done|]. left. rewrite take_0, app_nil_r. split_and!; [done|done|done|]. by exists d. }
  assert (ldn source 0 n = Some (take (Z.to_nat n) source)) as Es by (rewrite ldn_Some by lia; by rewrite drop_0).
  assert (len (take (Z.to_nat n) source) = n) as Hbs by (rewrite length_take; lia). set (bs := take (Z.to_nat n) source) in *.
  destruct (Z.leb_spec (rb_used b + n) (rb_capacity b)).
  - rewrite Es. cbn [mbind option_bind]. rewrite stn_Some by lia. cbn [mbind option_bind]. eexists _, _. split; [done|]. left. rewrite Ec, <- Hbs at 1.
    rewrite content_append by lia. split_and!; [done|done|done|]. eexists. split; cbn; [done|rewrite length_splice; lia|done|lia].
  - destruct (grow_spec 64 (rb_capacity b) (rb_used b + n) max ltac:(lia) ltac:(lia) ltac:(lia)) as (c & -> & Hc1 & Hc2). cbn [mbind option_bind].
    set (c1 := if c <? rb_used b + n then _ else _). set (c2 := if max <? c1 then _ else _).
    assert (rb_used b + n <= c2 <= max) as Hc12.
    { unfold c2, c1. destruct (Z.ltb_spec c (rb_used b + n)); [destruct (Z.ltb_spec max (rb_used b + n))|destruct (Z.ltb_spec max c)]; lia. }
    destruct (realloc d c2) as [d2|] eqn:Er.
    + rewrite Es. cbn [mbind option_bind]. pose proof (realloc_size d c2 d2 ltac:(lia) Er) as Hd2. rewrite stn_Some by lia. cbn [mbind option_bind].
      eexists _, _. split; [done|]. left. rewrite Ec, <- Hbs at 1. rewrite content_append by lia. split_and!; [done| |cbn; lia|].
      * f_equal. pose proof (realloc_keeps d c2 d2 ltac:(lia) Er) as Hk. rewrite <- Hk, take_take. f_equal. lia.
      * eexists. split; cbn; [done|rewrite length_splice; lia|lia|lia].
    + eexists _, _. split; [done|]. right. split_and!; [done|done|lia|]. by exists c2.
Qed.
End Queue.

Lemma consume_exact b d n :
  buffer_ok b d -> 0 <= n <= rb_used b ->
  exists b' d', redis_resp_buffer_consume (Some b) n = Some (0, Some b') /\ buffer_ok b' d' /\ content b' = drop (Z.to_nat n) (content b) /\
    rb_capacity b' = rb_capacity b /\ rb_used b' = rb_used b - n.
Proof.
  intros Hb Hn. destruct Hb as [Ed Hc Hp Hu]. unfold redis_resp_buffer_consume. rewrite Ed, (proj2 (Z.ltb_ge _ _)) by lia.
  assert (content b = take (Z.to_nat (rb_used b)) d) as Ec by (unfold content; by rewrite Ed).
  destruct (Z.eqb_spec n 0) as [->|Hn0].
  { exists b, d. split_and!; [done|done|by rewrite drop_0|done|lia]. }
  rewrite ldn_Some by lia. cbn [mbind option_bind]. set (bs := take _ _). assert (len bs = rb_used b - n) as Hbs by (unfold bs; rewrite length_take, length_drop; lia).
  rewrite stn_Some by lia. cbn [mbind option_bind]. eexists _, _. split; [done|]. split; [split; cbn; [done|rewrite length_splice; lia|lia|lia]|].
  split; [|done]. rewrite Ec, skipn_firstn_comm. unfold content, splice. cbn [rb_data rb_used]. rewrite take_0. cbn [app].
  rewrite take_app_le by lia. rewrite take_ge by lia. unfold bs. f_equal. lia.
Qed.

(** ** The elements of an array as they arrive *)

Lemma header_loop_spec fuel data used scan :
  1 <= scan <= used -> used <= len data -> used - scan <= Z.of_nat fuel ->
  match header_loop fuel data used scan with
  | Some (true, k) => scan < k <= used /\ crlf_at data (k - 2) /\ forall j, scan - 1 <= j < k - 2 -> ~ crlf_at data j
  | Some (false, k) => k = used /\ forall j, scan - 1 <= j -> j + 1 < used -> ~ crlf_at data j
  | None => False
  end.
Proof.
  revert scan. induction fuel as [|fuel IH]; intros scan Hs Hu Hf; cbn [header_loop]; destruct (Z.ltb_spec scan used); try lia; [split; [lia|]; lia| |split; [lia|]; lia].
  destruct (ld_is_Some data (scan - 1)) as [a Ea]; [lia|]. destruct (ld_is_Some data scan) as [b Eb]; [lia|].
  rewrite Ea. cbn [mbind option_bind]. rewrite Eb. cbn [mbind option_bind]. destruct ((a =? CR) && (b =? LF)) eqn:E.
  - apply andb_true_iff in E as [->%Z.eqb_eq ->%Z.eqb_eq]. split; [lia|]. split; [|lia]. unfold crlf_at.
    replace (scan + 1 - 2) with (scan - 1) by lia. by replace (scan - 1 + 1) with scan by lia.
  - assert (~ crlf_at data (scan - 1)) as Hno.
    { unfold crlf_at. replace (scan - 1 + 1) with scan by lia. rewrite Ea, Eb. intros [[= ->] [= ->]]. done. }
    specialize (IH (scan + 1) ltac:(lia) Hu ltac:(lia)). destruct (header_loop _ _ _ _) as [[[] k]|]; [..|done].
    + destruct IH as (H1 & H2 & H3). split; [lia|]. split; [done|]. intros j Hj. destruct (decide (j = scan - 1)) as [->|]; [done|]. apply H3. lia.
    + destruct IH as [-> H2]. split; [done|]. intros j Hj1 Hj2. destruct (decide (j = scan - 1)) as [->|]; [done|]. apply H2; lia.
Qed.

Section Stream.
Context {mem : memory}.
Context (rest : bytes).

(** The header of the array - empty once it has been read -, the elements that
    are left with their bytes, and what follows. *)
Definition stream_of (header : bytes) (ls : list bytes) : bytes := header ++ concat ls ++ rest.

(** The state of the reader when it has seen [n] bytes of that stream. *)
Record arriving (header : bytes) (ts : list reply) (ls : list bytes) (n : Z) (r : redis_resp_array_reader) : Prop := {
  aa_items : Forall2 (fun t l => readable t l (ar_max_reply_bytes r)) ts ls;
  aa_owner : 0 <= sizeof_owner;
  aa_size : len (stream_of header ls) < 2 ^ 64;
  aa_limits : 0 < ar_max_items r /\ 0 < ar_max_reply_bytes r;
  aa_terminal : ar_terminal r = false;
  aa_seen : 0 <= n <= len (stream_of header ls);
  aa_phase :
    if ar_header_read r then
      header = [] /\ ar_remaining r = len ts /\
      match ts, ls with
      | t :: _, l :: ls' => ready t l (stream_of header ls) (ar_max_reply_bytes r) n (ar_item_reader r)
      | _, _ => True
      end
    else
      (exists text, header = STAR :: text ++ [CR; LF] /\ number_text text (len ts)) /\
      len ts <= ar_max_items r /\ len header <= ar_max_reply_bytes r /\
      ar_item_reader r = redis_resp_reply_reader_init (ar_max_reply_bytes r) /\
      ar_header_scan r <= n /\ forall j, 0 <= j -> j + 1 < ar_header_scan r -> ~ crlf_at (stream_of header ls) j
}.

(** The buffer holds the first bytes of a stream. *)
Definition holds (b : redis_resp_buffer) (stream : bytes) : Prop :=
  (exists d, buffer_ok b d) /\ rb_used b <= len stream /\ content b = take (Z.to_nat (rb_used b)) stream.

Lemma holds_consume b stream n : holds b stream -> 0 <= n <= rb_used b ->
  exists b', redis_resp_buffer_consume (Some b) n = Some (0, Some b') /\ holds b' (drop (Z.to_nat n) stream) /\ rb_used b' = rb_used b - n.
Proof.
  intros ([d Hb] & Hu & Hc) Hn. destruct (consume_exact b d n Hb Hn) as (b' & d' & E & Hb' & Hc' & _ & Eu). exists b'. split; [done|]. split; [|done].
  split; [by exists d'|]. rewrite length_drop, Eu. split; [lia|]. rewrite Hc', Hc, skipn_firstn_comm. f_equal. lia.
Qed.

Lemma arriving_fresh t ts l ls r :
  Forall2 (fun t l => readable t l (ar_max_reply_bytes r)) (t :: ts) (l :: ls) -> len (stream_of [] (l :: ls)) < 2 ^ 64 ->
  ready t l (stream_of [] (l :: ls)) (ar_max_reply_bytes r) 0 (redis_resp_reply_reader_init (ar_max_reply_bytes r)).
Proof. intros Hall Hsize. apply Forall2_cons_1 in Hall as [Hr _]. unfold stream_of in *. cbn [app concat] in *. rewrite <- app_assoc in *. by apply fresh_ready. Qed.

(** What a call gives while the elements are read. *)
Definition items_result (b : redis_resp_buffer) (ts : list reply) (ls : list bytes) (result : array_call) : Prop :=
  match ts, ls with
  | t :: ts, l :: ls' =>
      if len l <=? rb_used b then
        exists owner b' r', result = Some (REDIS_RESP_ARRAY_ITEM, Some (owner, O), Some b', r') /\ ow_pool owner = flatten 0 t /\
          holds b' (stream_of [] ls') /\ rb_used b' = rb_used b - len l /\ arriving [] ts ls' 0 r'
      else exists r', result = Some (REDIS_RESP_ARRAY_NEED_MORE, None, Some b, r') /\ arriving [] (t :: ts) ls (rb_used b) r'
  | _, _ => exists r', result = Some (REDIS_RESP_ARRAY_DONE, None, Some b, r') /\ ar_terminal r' = true
  end.

Lemma array_items_exact b ts ls n r :
  arriving [] ts ls n r -> ar_header_read r = true -> holds b (stream_of [] ls) -> n <= rb_used b -> items_result b ts ls (array_items b r).
Proof.
  intros Ha Hh ([d Hb] & Hu & Hc) Hn. pose proof Ha as [Hit Hso Hsize Hlim Hte Hseen Hph]. rewrite Hh in Hph. destruct Hph as (_ & Hrem & Hready).
  unfold array_items. rewrite Hrem. destruct Hit as [|t l ts ls Hr Hit]; cbn [items_result]; [by eexists|].
  rewrite (proj2 (Z.eqb_neq _ _)) by (cbn [length]; lia). unfold take_reply. destruct Hb as [Ed Hcap Hpos Hub].
  assert (stream_of [] (l :: ls) = l ++ stream_of [] ls) as Estr by (unfold stream_of; cbn; by rewrite <- app_assoc). rewrite Estr in *.
  destruct b as [dd cap used]. cbn [rb_data rb_used rb_capacity] in *. subst dd.
  assert (take (Z.to_nat used) d = take (Z.to_nat used) (l ++ stream_of [] ls)) as Hagree by (unfold content in Hc; exact Hc).
  pose proof (ready_step t l (stream_of [] ls) _ n (ar_item_reader r) d cap used Hso Hsize Hready ltac:(lia) Hu ltac:(lia) Hagree) as Hstep. cbv zeta in Hstep.
  assert (0 < len l) as Hl by (eapply wire_not_nil, rl_wire; done).
  destruct (Z.leb_spec (len l) used) as [Hle|Hlt].
  - destruct Hstep as (owner & -> & Hp). cbn [mbind option_bind]. rewrite (proj2 (Z.leb_gt _ _)) by lia.
    destruct (holds_consume (mk_buffer (Some d) cap used) (l ++ stream_of [] ls) (len l)) as (b' & -> & Hb' & Eu);
      [split; [by exists d|done]|cbn; lia|]. cbn [mbind option_bind]. rewrite Nat2Z.id, drop_app_length in Hb'. eexists owner, b', _.
    split; [done|]. split_and!; [done|done|done|]. rewrite length_app in Hsize, Hseen.
    split; cbn -[stream_of]; try done; [lia|lia|]. rewrite Hh. split_and!; [done|rewrite Hrem; cbn [length]; lia|].
    destruct Hit as [|t' l' ts' ls' Hr' Hit']; [done|]. by apply (arriving_fresh t' ts' l' ls' r); [constructor|lia].
  - destruct Hstep as (rd & -> & Hready'). cbn [mbind option_bind]. cbn. eexists. split; [done|].
    split; cbn -[stream_of]; try done; [by constructor|by rewrite Estr|rewrite Estr; lia|]. rewrite Hh. by rewrite Estr.
Qed.

(** Where the first line of a stream ends. *)
Lemma stream_crlf l tok (more : bytes) j : token_line l tok -> 0 <= j -> crlf_at (l ++ more) j -> len l - 2 <= j.
Proof.
  intros Ht Hj [H1 H2]. unfold ld in H1, H2. rewrite (proj2 (Z.ltb_ge j 0)) in H1 by lia. rewrite (proj2 (Z.ltb_ge (j + 1) 0)) in H2 by lia.
  replace (Z.to_nat (j + 1)) with (S (Z.to_nat j)) in H2 by lia. pose proof (lookup_lt_Some _ _ _ H2).
  pose proof (line_crlf l tok more (Z.to_nat j) Ht ltac:(lia) H1 H2). lia.
Qed.

Lemma stream_crlf_at l tok (more : bytes) : token_line l tok -> crlf_at (l ++ more) (len l - 2).
Proof.
  intros Ht. destruct (token_line_shape l tok Ht) as (c & body & -> & _). destruct (line_end c body more) as [H1 H2].
  assert (len (c :: body ++ [CR; LF]) = len body + 3) as -> by (cbn [length]; rewrite length_app; cbn [length]; lia).
  split; unfold ld; rewrite (proj2 (Z.ltb_ge _ _)) by lia.
  - by replace (Z.to_nat (len body + 3 - 2)) with (S (length body)) by lia.
  - by replace (Z.to_nat (len body + 3 - 2 + 1)) with (S (S (length body))) by lia.
Qed.

(** The header is ready when the buffer has all of it. *)
Lemma header_ready_exact header ts ls n r d used :
  arriving header ts ls n r -> ar_header_read r = false -> n <= used -> 0 < used -> used <= len d -> used <= len (stream_of header ls) ->
  take (Z.to_nat used) d = take (Z.to_nat used) (stream_of header ls) ->
  exists r', redis_resp_array_header_ready d used r = Some (if used <? len header then 0 else 1, r') /\
    r' = set_header_scan (ar_header_scan r') r /\ (used < len header -> arriving header ts ls used r').
Proof.
  intros Ha Hh Hn Hu Hd Hs Hag. pose proof Ha as [Hit Hso Hsize Hlim Hte Hseen Hph]. rewrite Hh in Hph.
  destruct Hph as ((text & Eh & Htext) & Hmi & Hmr & Hir & Hhs & Hno). set (tok := mk_token STAR (len ts) (len text + 3) text).
  assert (token_line header tok) as Ht by (rewrite Eh; apply (line_number STAR text (len ts)); [tauto|done]).
  unfold redis_resp_array_header_ready. rewrite (proj2 (Z.eqb_neq _ _)) by lia. cbv zeta.
  set (scan := if 1 <? ar_header_scan r then ar_header_scan r else 1).
  assert (1 <= scan <= used) as Hscan by (unfold scan; destruct (Z.ltb_spec 1 (ar_header_scan r)); lia).
  rewrite (proj2 (Z.ltb_ge used scan)) by lia. pose proof (header_loop_spec (Z.to_nat used) d used scan Hscan Hd ltac:(lia)) as Hloop.
  assert (forall j, 0 <= j -> j + 1 < used -> crlf_at d j <-> crlf_at (stream_of header ls) j) as Hcr by (intros; by apply (agree_crlf d _ used)).
  assert (forall j, 0 <= j < scan - 1 -> ~ crlf_at (stream_of header ls) j) as Hbefore.
  { intros j Hj. unfold scan in Hj. destruct (Z.ltb_spec 1 (ar_header_scan r)); [apply Hno; lia|lia]. }
  assert (3 <= len header) as Hl3 by (by destruct (line_range _ _ Ht) as (_ & ? & _)).
  destruct (header_loop _ _ _ _) as [[[] k]|]; [..|done]; cbn [mbind option_bind].
  - destruct Hloop as (Hk & Hat & Hfirst). apply Hcr in Hat; [|lia|lia]. pose proof (stream_crlf header tok _ (k - 2) Ht ltac:(lia) Hat) as Hge.
    rewrite (proj2 (Z.ltb_ge used _)) by lia.
    assert (k = len header) as ->.
    { destruct (decide (k <= len header)) as [|Hgt]; [lia|]. exfalso. pose proof (stream_crlf_at header tok (concat ls ++ rest) Ht) as Hend.
      destruct (decide (len header - 2 < scan - 1)); [by apply (Hbefore (len header - 2)); [lia|]|].
      apply (Hfirst (len header - 2)); [lia|]. apply Hcr; [lia|lia|done]. }
    cbn. rewrite (proj2 (Z.leb_le _ _)) by done. eexists. split; [done|]. split; [done|]. lia.
  - destruct Hloop as [-> Hnone].
    assert (used < len header) as Hlt.
    { destruct (decide (used < len header)) as [|Hge]; [done|]. exfalso. pose proof (stream_crlf_at header tok (concat ls ++ rest) Ht) as Hat.
      destruct (decide (len header - 2 < scan - 1)); [by apply (Hbefore (len header - 2)); [lia|]|].
      apply (Hnone (len header - 2)); [lia|lia|]. apply Hcr; [lia|lia|done]. }
    cbn. rewrite (proj2 (Z.ltb_lt used (ar_max_reply_bytes r))), (proj2 (Z.ltb_lt used _)) by lia. eexists. split; [done|]. split; [done|]. intros _.
    split; cbn -[stream_of]; try done; [lia|]. rewrite Hh. split; [by exists text|]. split_and!; [done|done|done|lia|].
    intros j Hj1 Hj2. destruct (decide (j < scan - 1)); [by apply Hbefore|]. rewrite <- Hcr by lia. apply Hnone; lia.
Qed.

(** The header taken out of the buffer. *)
Lemma arriving_items header ts ls n r k :
  arriving header ts ls n r -> ar_header_read r = false ->
  arriving [] ts ls 0 (set_remaining (len ts) (set_header_scan k r)).
Proof.
  intros [Hit Hso Hsize Hlim Hte Hseen Hph] Hh. rewrite Hh in Hph. destruct Hph as (_ & _ & _ & Hir & _).
  assert (len (stream_of header ls) = len header + len (stream_of [] ls)) as El by (unfold stream_of; rewrite (length_app header); cbn [app]; lia).
  split; cbn -[stream_of]; try done; [lia|lia|]. split_and!; [done|done|]. rewrite Hir.
  destruct Hit as [|t l ts ls Hr Hit]; [done|]. by apply (arriving_fresh t ts l ls r); [constructor|lia].
Qed.

(** C34. The elements of an array are handed out as they arrive. Let the buffer
    hold a first part of a stream that is a top-level array - its header, or
    nothing of it once that has been read, and the elements that are left - and
    whatever follows, and let the reader have seen a part of it. A call takes the
    header when it is there; then, when the bytes of the next element are there,
    it gives exactly that element, takes exactly its bytes out of the buffer and
    is ready for the next one; with a part of the element it asks for more and
    keeps what it has read; after the last element it says so. *)
Theorem resp_array_step_exact b header ts ls n r :
  arriving header ts ls n r -> holds b (stream_of header ls) -> n <= rb_used b ->
  let result := redis_resp_array_reader_next_buffer (Some b) r in
  if rb_used b <? len header then exists r', result = Some (REDIS_RESP_ARRAY_NEED_MORE, None, Some b, r') /\ arriving header ts ls (rb_used b) r'
  else exists b', holds b' (stream_of [] ls) /\ rb_used b' = rb_used b - len header /\ items_result b' ts ls result.
Proof.
  intros Ha Hho Hn. cbv zeta. pose proof Ha as [Hit Hso Hsize Hlim Hte Hseen Hph]. pose proof Hho as ([d Hb] & Hu & Hc).
  pose proof Hb as [Ed Hcap Hpos Hub]. assert (take (Z.to_nat (rb_used b)) d = take (Z.to_nat (rb_used b)) (stream_of header ls)) as Hag
    by (unfold content in Hc; by rewrite Ed in Hc).
  unfold redis_resp_array_reader_next_buffer. rewrite Ed, Hte. rewrite !(proj2 (Z.eqb_neq _ _)) by lia. cbn [orb].
  destruct (ar_header_read r) eqn:Eh.
  { destruct Hph as (-> & _). cbn [length]. rewrite (proj2 (Z.ltb_ge _ _)) by lia. exists b. split_and!; [done|lia|]. by eapply array_items_exact. }
  destruct Hph as ((text & Ehd & Htext) & Hmi & Hmr & Hir & _). set (tok := mk_token STAR (len ts) (len text + 3) text).
  assert (token_line header tok) as Ht by (rewrite Ehd; apply (line_number STAR text (len ts)); [tauto|done]).
  destruct (line_range _ _ Ht) as (Ehl & Hl3 & _).
  destruct (Z.eqb_spec (rb_used b) 0) as [E0|Hne].
  { rewrite (proj2 (Z.ltb_lt _ _)) by lia. eexists. split; [done|]. rewrite E0 in *. by replace n with 0 in Ha by lia. }
  assert (ld d 0 = Some STAR) as E0.
  { rewrite (agree_ld d (stream_of header ls) (rb_used b) Hag) by lia. unfold stream_of. by rewrite Ehd. }
  rewrite E0. cbn [mbind option_bind]. change (STAR =? MINUS) with false. cbn [negb Z.eqb]. cbv iota.
  destruct (header_ready_exact header ts ls n r d (rb_used b) Ha Eh Hn ltac:(lia) ltac:(lia) Hu Hag) as (r' & -> & Er' & Hr').
  cbn [mbind option_bind]. destruct (Z.ltb_spec (rb_used b) (len header)) as [Hlt|Hge].
  { change (STAR =? STAR) with true. cbn. eexists. split; [done|]. by apply Hr'. }
  change (STAR =? STAR) with true. cbn [negb Z.leb Z.compare]. cbv iota.
  rewrite ldn_Some by lia. cbn [mbind option_bind]. rewrite drop_0, Hag.
  assert (take (Z.to_nat (rb_used b)) (stream_of header ls) = header ++ take (Z.to_nat (rb_used b) - length header) (concat ls ++ rest)) as ->
    by (unfold stream_of; by rewrite take_app_ge by lia).
  rewrite (scan_token_line header tok) by done.
  cbn [tk_type tk_int_value tok]. rewrite (proj2 (Z.ltb_ge (len ts) 0)) by lia. rewrite Er'. cbn [ar_max_items set_header_scan].
  rewrite (proj2 (Z.ltb_ge (ar_max_items r) _)) by done. cbn [negb orb Z.eqb]. change (STAR =? STAR) with true. cbn [negb orb]. rewrite Ehl.
  destruct (holds_consume b _ (len header) Hho ltac:(lia)) as (b' & -> & Hb' & Eu). cbn [mbind option_bind].
  unfold stream_of in Hb'. rewrite Nat2Z.id, drop_app_length in Hb'. exists b'. split_and!; [done|done|].
  apply (array_items_exact b' ts ls 0); [by eapply arriving_items|done|done|destruct Hb' as ([d' [_ _ _ ?]] & _); lia].
Qed.
End Stream.

(** A new reader waits for the header. *)
Lemma arriving_init {mem : memory} rest text ts ls max_items max :
  Forall2 (fun t l => readable t l max) ts ls -> 0 <= sizeof_owner -> number_text text (len ts) ->
  0 < max_items -> 0 < max -> len ts <= max_items -> len (STAR :: text ++ [CR; LF]) <= max ->
  len (stream_of rest (STAR :: text ++ [CR; LF]) ls) < 2 ^ 64 ->
  arriving rest (STAR :: text ++ [CR; LF]) ts ls 0 (redis_resp_array_reader_init max_items max).
Proof.
  intros. split; cbn [redis_resp_array_reader_init ar_max_items ar_max_reply_bytes ar_terminal ar_header_read ar_item_reader ar_header_scan]; try done; try lia.
  split_and!; [by exists text|done|done|done|lia|]. intros j Hj Hj'. lia.
Qed.

(** The sample as an array read element by element: the first call takes the
    header and gives the first element. *)
Lemma resp_array_step_exact_witness :
  exists owner b' r', redis_resp_array_reader_next_buffer (mem := ample) (Some (mk_buffer (Some sample_bytes) 19 19)) (redis_resp_array_reader_init 10 1000)
    = Some (REDIS_RESP_ARRAY_ITEM, Some (owner, O), Some b', r') /\ ow_pool owner = flatten 0 (RBulk [97; 13; 10]) /\ rb_used b' = 6.
Proof.
  destruct (resp_array_step_exact (mem := ample) [] (mk_buffer (Some sample_bytes) 19 19) [42; 50; 13; 10] [RBulk [97; 13; 10]; RInteger (-7)]
    [[36; 51; 13; 10; 97; 13; 10; 13; 10]; [58; 45; 48; 55; 13; 10]] 0 (redis_resp_array_reader_init 10 1000)) as (b1 & _ & Eu & W).
  - apply (arriving_init (mem := ample) [] [50]); try done; [|by apply (number_plus [50]); [|repeat constructor|]].
    constructor; [|constructor; [|constructor]].
    + split; try done. apply (wire_bulk [51]). by apply (number_plus [51]); [|repeat constructor|].
    + split; try done. apply (wire_integer [45; 48; 55]). by apply (number_minus [48; 55]); [|repeat constructor|].
  - split; [exists sample_bytes; by split|done].
  - done.
  - cbn [items_result length] in W. rewrite (proj2 (Z.leb_le _ _)) in W by (rewrite Eu; by vm_compute).
    destruct W as (owner & b' & r' & E & Hp & _ & Eu' & _). exists owner, b', r'. split; [exact E|split; [exact Hp|]]. rewrite Eu', Eu. reflexivity.
Defined.
