(* ===== verification/RedisError.v ===== *)
(** * Errors of a Redis server (redis/redis_parser.c, redis/redis_reply.h)

    The class of an error reply is the class of its first word; the size of an
    argument vector is computed without overflow. *)

From S2P Require Import Prelude RespToken RespReader.

Inductive redis_server_error_t : Type :=
  | REDIS_SERVER_ERROR_NONE
  | REDIS_SERVER_ERROR_ERR
  | REDIS_SERVER_ERROR_BUSY_GROUP
  | REDIS_SERVER_ERROR_NO_GROUP
  | REDIS_SERVER_ERROR_WRONG_TYPE
  | REDIS_SERVER_ERROR_NO_AUTH
  | REDIS_SERVER_ERROR_MOVED
  | REDIS_SERVER_ERROR_ASK
  | REDIS_SERVER_ERROR_TRY_AGAIN
  | REDIS_SERVER_ERROR_CLUSTER_DOWN
  | REDIS_SERVER_ERROR_READ_ONLY
  | REDIS_SERVER_ERROR_NO_SCRIPT
  | REDIS_SERVER_ERROR_LOADING
  | REDIS_SERVER_ERROR_OOM
  | REDIS_SERVER_ERROR_EXEC_ABORT
  | REDIS_SERVER_ERROR_MASTER_DOWN
  | REDIS_SERVER_ERROR_MISCONF
  | REDIS_SERVER_ERROR_UNKNOWN.

Definition SPACE : Z := 32.

(** Whether the text of an error starts with a token that ends there or at a
    space; [None] is an access outside the text. *)
Definition redis_error_token_is (reply : ptr redis_reply_t) (token : ptr bytes) : option bool :=
  match reply, token with
  | Some r, Some token =>
      match rp_type r, rp_str r with
      | REDIS_REPLY_ERROR, Some str =>
          let token_len := len token in
          if token_len <=? rp_len r then
            prefix ← ldn str 0 token_len;
            if bool_decide (prefix = token) then
              if rp_len r =? token_len then Some true
              else c ← ld str token_len; Some (c =? SPACE)
            else Some false
          else Some false
      | _, _ => Some false
      end
  | _, _ => Some false
  end.

(** The tokens in the order of the tests. *)
Definition error_tokens : list (bytes * redis_server_error_t) :=
  [([69; 82; 82], REDIS_SERVER_ERROR_ERR);
   ([66; 85; 83; 89; 71; 82; 79; 85; 80], REDIS_SERVER_ERROR_BUSY_GROUP);
   ([78; 79; 71; 82; 79; 85; 80], REDIS_SERVER_ERROR_NO_GROUP);
   ([87; 82; 79; 78; 71; 84; 89; 80; 69], REDIS_SERVER_ERROR_WRONG_TYPE);
   ([78; 79; 65; 85; 84; 72], REDIS_SERVER_ERROR_NO_AUTH);
   ([77; 79; 86; 69; 68], REDIS_SERVER_ERROR_MOVED);
   ([65; 83; 75], REDIS_SERVER_ERROR_ASK);
   ([84; 82; 89; 65; 71; 65; 73; 78], REDIS_SERVER_ERROR_TRY_AGAIN);
   ([67; 76; 85; 83; 84; 69; 82; 68; 79; 87; 78], REDIS_SERVER_ERROR_CLUSTER_DOWN);
   ([82; 69; 65; 68; 79; 78; 76; 89], REDIS_SERVER_ERROR_READ_ONLY);
   ([78; 79; 83; 67; 82; 73; 80; 84], REDIS_SERVER_ERROR_NO_SCRIPT);
   ([76; 79; 65; 68; 73; 78; 71], REDIS_SERVER_ERROR_LOADING);
   ([79; 79; 77], REDIS_SERVER_ERROR_OOM);
   ([69; 88; 69; 67; 65; 66; 79; 82; 84], REDIS_SERVER_ERROR_EXEC_ABORT);
   ([77; 65; 83; 84; 69; 82; 68; 79; 87; 78], REDIS_SERVER_ERROR_MASTER_DOWN);
   ([77; 73; 83; 67; 79; 78; 70], REDIS_SERVER_ERROR_MISCONF)].

Fixpoint classify_among (reply : redis_reply_t) (tokens : list (bytes * redis_server_error_t)) : option redis_server_error_t :=
  match tokens with
  | [] => Some REDIS_SERVER_ERROR_UNKNOWN
  | (token, class) :: tokens =>
      found ← redis_error_token_is (Some reply) (Some token);
      if found : bool then Some class else classify_among reply tokens
  end.

Definition redis_server_error_classify (reply : ptr redis_reply_t) : option redis_server_error_t :=
  match reply with
  | None => Some REDIS_SERVER_ERROR_NONE
  | Some r =>
      match rp_type r with
      | REDIS_REPLY_ERROR => classify_among r error_tokens
      | _ => Some REDIS_SERVER_ERROR_NONE
      end
  end.

(** The total, or [None] for the return of -1; the sums are of 64 bits. *)
Definition redis_argc_mul_add (base count mul : Z) : option Z :=
  if (base <? 0) || (count <? 0) || (mul <? 0) then None
  else
    let total := base + count * mul in
    if (total <=? 0) || (INT_MAX <? total) then None else Some total.

(** ** The first word *)

Fixpoint first_word (s : bytes) : bytes :=
  match s with
  | [] => []
  | c :: s => if c =? SPACE then [] else c :: first_word s
  end.

(** The class of a word. *)
Fixpoint class_of (tokens : list (bytes * redis_server_error_t)) (word : bytes) : redis_server_error_t :=
  match tokens with
  | [] => REDIS_SERVER_ERROR_UNKNOWN
  | (token, class) :: tokens => if bool_decide (word = token) then class else class_of tokens word
  end.

Lemma first_word_split s : exists rest, s = first_word s ++ rest /\ (SPACE ∉ first_word s) /\ (rest = [] \/ exists r, rest = SPACE :: r).
Proof.
  induction s as [|c s (rest & E & H1 & H2)]; cbn [first_word]; [exists []; split_and!; [done|apply not_elem_of_nil|by left]|].
  destruct (Z.eqb_spec c SPACE) as [->|Hc]; [exists (SPACE :: s); split_and!; [done|apply not_elem_of_nil|right; by exists s]|].
  exists rest. split_and!; [cbn [app]; by rewrite <- E|by apply not_elem_of_cons|done].
Qed.

Lemma first_word_space w r : SPACE ∉ w -> first_word (w ++ SPACE :: r) = w.
Proof.
  induction w as [|c w IH]; cbn [app first_word]; [done|]. intros [H1 H2]%not_elem_of_cons.
  rewrite (proj2 (Z.eqb_neq _ _)) by congruence. by rewrite IH.
Qed.

Lemma first_word_whole w : SPACE ∉ w -> first_word w = w.
Proof.
  induction w as [|c w IH]; cbn [first_word]; [done|]. intros [H1 H2]%not_elem_of_cons.
  rewrite (proj2 (Z.eqb_neq _ _)) by congruence. by rewrite IH.
Qed.

(** A token that is a word is found exactly as the first word. *)
Lemma token_is_exact s token integer elements count :
  SPACE ∉ token ->
  redis_error_token_is (Some (mk_reply REDIS_REPLY_ERROR integer (Some s) (len s) elements count)) (Some token) = Some (bool_decide (first_word s = token)).
Proof.
  intros Ht. unfold redis_error_token_is. cbn [rp_type rp_str rp_len]. destruct (first_word_split s) as (rest & E & Hw & Hr).
  destruct (Z.leb_spec (len token) (len s)) as [Hl|Hl].
  - rewrite ldn_Some by lia. rewrite Nat2Z.id, drop_0. cbn [mbind option_bind]. case_bool_decide as Hp.
    + rewrite <- (take_drop (length token) s), Hp in E |- *. set (more := drop (length token) s) in *. rewrite length_app.
      destruct more as [|c more]; cbn [length].
      * rewrite (proj2 (Z.eqb_eq _ _)) by lia. rewrite app_nil_r, bool_decide_eq_true_2; [done|by apply first_word_whole].
      * rewrite (proj2 (Z.eqb_neq _ _)) by lia.
        assert (ld (token ++ c :: more) (len token) = Some c) as -> by (unfold ld; rewrite (proj2 (Z.ltb_ge _ _)), Nat2Z.id by lia; by apply list_lookup_middle).
        cbn [mbind option_bind]. destruct (Z.eqb_spec c SPACE) as [->|Hc].
        -- rewrite bool_decide_eq_true_2; [done|by apply first_word_space].
        -- rewrite bool_decide_eq_false_2; [done|]. intros Hf. rewrite Hf in E. apply app_inv_head in E. subst rest.
           destruct Hr as [?|(r & ?)]; congruence.
    + rewrite bool_decide_eq_false_2; [done|]. intros Hf. apply Hp. rewrite E, Hf. by rewrite take_app_length.
  - rewrite bool_decide_eq_false_2; [done|]. intros Hf. rewrite E, Hf, length_app in Hl. lia.
Qed.

Lemma tokens_words : Forall (fun t => SPACE ∉ t.1) error_tokens.
Proof. repeat constructor; cbn [fst]; repeat (apply not_elem_of_cons; split; [done|]); apply not_elem_of_nil. Qed.

(** The class of a reply of the server is the class of its first word: an
    error is given the class of the listed word that is exactly the part of its
    text before the first space, and no class of its own if no listed word is;
    every other reply is no error. No access is outside the text. *)
Theorem error_classify_exact (r : redis_reply_t) (s : bytes) :
  rp_str r = Some s -> rp_len r = len s ->
  redis_server_error_classify (Some r) =
    Some (match rp_type r with REDIS_REPLY_ERROR => class_of error_tokens (first_word s) | _ => REDIS_SERVER_ERROR_NONE end).
Proof.
  destruct r as [type integer str n elements count]. cbn [rp_str rp_len]. intros -> ->. unfold redis_server_error_classify. cbn [rp_type].
  destruct type; try done. pose proof tokens_words as Hw. revert Hw. generalize error_tokens as tokens.
  induction tokens as [|[token class] tokens IH]; intros Hw; [done|]. apply list.Forall_cons in Hw as [H1 H2]. cbn [classify_among class_of].
  rewrite token_is_exact by done. cbn [mbind option_bind]. destruct (bool_decide _); [done|]. by apply IH.
Qed.

(** The vector has [base + count * mul] arguments exactly if that is a positive
    integer of C, and the sum of 64 bits cannot overflow. *)
Lemma argc_mul_add_exact base count mul :
  base <= INT_MAX -> count <= INT_MAX -> mul <= INT_MAX ->
  redis_argc_mul_add base count mul =
    (if bool_decide (0 <= base /\ 0 <= count /\ 0 <= mul /\ 0 < base + count * mul <= INT_MAX) then Some (base + count * mul) else None) /\
  (0 <= base -> 0 <= count -> 0 <= mul -> base + count * mul < 2 ^ 63).
Proof.
  intros Hb Hc Hm. split.
  - unfold redis_argc_mul_add. case_bool_decide as Hd.
    + destruct Hd as (? & ? & ? & ?). rewrite !(proj2 (Z.ltb_ge _ _)), (proj2 (Z.leb_gt _ _)) by lia. done.
    + destruct (Z.ltb_spec base 0), (Z.ltb_spec count 0), (Z.ltb_spec mul 0); try done. cbn [orb].
      destruct (Z.leb_spec (base + count * mul) 0), (Z.ltb_spec INT_MAX (base + count * mul)); try done. exfalso. apply Hd. lia.
  - unfold INT_MAX in *. intros. nia.
Qed.
