(* ===== verification/RedisCommand.v ===== *)
(** * Commands of the Redis client (redis/redis_protocol.c)

    The bytes of a command are built within a limit, as an array of bulk strings
    of the RESP grammar. *)

From S2P Require Import Prelude RespToken RespReader RespStream RespResume.

(** ** Commands *)

Inductive salts_status : Type :=
  | SALTS_OK | SALTS_EINVAL | SALTS_ENOBUFS | SALTS_ENOMEM | SALTS_EPROTO | SALTS_ESHUTDOWN | SALTS_ENOTCONN.

(** [while (value >= 10) ...]: a size has at most twenty digits. *)
Fixpoint decimal_digits_loop (fuel : nat) (value digits : Z) : Z :=
  match fuel with
  | O => digits
  | S fuel => if 10 <=? value then decimal_digits_loop fuel (value / 10) (digits + 1) else digits
  end.

Definition redis_resp_decimal_digits (value : Z) : Z := decimal_digits_loop 20 value 1.

(** The growing strings of the runtime: NULL when memory is out. *)
Class tstr_library : Type := {
  tstr : Type;
  tstr_content : tstr -> bytes;
  tstr_new : option tstr;
  tstr_reserve : tstr -> Z -> option tstr;
  tstr_append_format : tstr -> bytes -> Z -> option tstr;
  tstr_cat : tstr -> bytes -> option tstr
}.

(** The arguments: an array of pointers and, if given, one of lengths. *)
Section Build.
Context {lib : tstr_library}.
Context (argv : list (ptr bytes)) (argvlen : ptr (list Z)).

(** [argvlen ? argvlen[index] : strlen(argv[index])]; [None] is an access
    outside an array or a string without an end. *)
Definition argument_length (index : nat) (arg : bytes) : option Z :=
  match argvlen with Some lengths => lengths !! index | None => find_nul arg end.

(** The sum of the sizes, or the status of an early return. *)
Fixpoint measure_arguments (n index : nat) (total max_command_bytes : Z) : option (outcome salts_status Z) :=
  match n with
  | O => Some (Ret total)
  | S n =>
      arg ← argv !! index;
      match arg with
      | None => Some (Err SALTS_EINVAL)
      | Some arg =>
          length ← argument_length index arg;
          let framing := 1 + redis_resp_decimal_digits length + 2 + 2 in
          if (max_command_bytes <? length) || (size_sub max_command_bytes length <? framing) ||
             (size_sub max_command_bytes (framing + length) <? total)
          then Some (Err SALTS_ENOBUFS)
          else measure_arguments n (S index) (u64 (total + (framing + length))) max_command_bytes
      end
  end.

Definition FORMAT_ARRAY : bytes := [STAR; 123; 125; CR; LF].
Definition FORMAT_BULK : bytes := [DOLLAR; 123; 125; CR; LF].

(** The arguments appended one after the other. *)
Fixpoint append_arguments (n index : nat) (command : tstr) : option (outcome salts_status tstr) :=
  match n with
  | O => Some (Ret command)
  | S n =>
      arg ← argv !! index;
      match arg with
      | None => None
      | Some arg =>
          length ← argument_length index arg;
          match tstr_append_format command FORMAT_BULK length with
          | None => Some (Err SALTS_ENOMEM)
          | Some command =>
              value ← ldn arg 0 length;
              match tstr_cat command value with
              | None => Some (Err SALTS_ENOMEM)
              | Some command =>
                  match tstr_cat command [CR; LF] with
                  | None => Some (Err SALTS_ENOMEM)
                  | Some command => append_arguments n (S index) command
                  end
              end
          end
      end
  end.

End Build.

(** The status and the command, for the pointers to the arguments, to their
    lengths and to the place of the command; [None] is undefined behaviour. *)
Definition redis_resp_command_build_bounded {lib : tstr_library} (argc : Z) (argv : ptr (list (ptr bytes))) (argvlen : ptr (list Z))
    (max_command_bytes : Z) (out_command : ptr (ptr tstr)) : option (outcome salts_status tstr) :=
  match argv, out_command with
  | Some argv, Some None =>
      if (argc <=? 0) || (max_command_bytes =? 0) then Some (Err SALTS_EINVAL)
      else
        let total := 1 + redis_resp_decimal_digits argc + 2 in
        if max_command_bytes <? total then Some (Err SALTS_ENOBUFS)
        else
          measured ← measure_arguments argv argvlen (Z.to_nat argc) 0 total max_command_bytes;
          match measured with
          | Err e => Some (Err e)
          | Fault => None
          | Ret total =>
              match tstr_new with
              | None => Some (Err SALTS_ENOMEM)
              | Some command =>
                  match tstr_reserve command total with
                  | None => Some (Err SALTS_ENOMEM)
                  | Some command =>
                      match tstr_append_format command FORMAT_ARRAY argc with
                      | None => Some (Err SALTS_ENOMEM)
                      | Some command => append_arguments argv argvlen (Z.to_nat argc) 0 command
                      end
                  end
              end
          end
  | _, _ => Some (Err SALTS_EINVAL)
  end.

(** ** The text of a number *)

Fixpoint decimal_loop (fuel : nat) (n : Z) : bytes :=
  match fuel with
  | O => []
  | S fuel => if n <? 10 then [48 + n] else decimal_loop fuel (n / 10) ++ [48 + n mod 10]
  end.

(** The decimal digits of a number of at most twenty of them. *)
Definition decimal (n : Z) : bytes := decimal_loop 20 n.

Lemma digits_snoc l d : digits_value (l ++ [d]) = digits_value l * 10 + (d - 48).
Proof. unfold digits_value. by rewrite fold_left_app. Qed.

Lemma decimal_loop_spec fuel n :
  0 <= n < 10 ^ Z.of_nat fuel -> fuel <> O ->
  let l := decimal_loop fuel n in
  l <> [] /\ Forall (fun c => is_digit c = true) l /\ digits_value l = n /\ forall k, decimal_digits_loop fuel n k = k + len l - 1.
Proof.
  revert n. induction fuel as [|fuel IH]; intros n Hn Hf; [done|]. cbv zeta. cbn [decimal_loop decimal_digits_loop].
  destruct (Z.ltb_spec n 10), (Z.leb_spec 10 n); try lia.
  - split_and!; [done| | |intros k; cbn [length]; lia].
    + constructor; [|constructor]. unfold is_digit. apply andb_true_iff. split; apply Z.leb_le; lia.
    + unfold digits_value. cbn. lia.
  - rewrite Nat2Z.inj_succ, Z.pow_succ_r in Hn by lia.
    assert (fuel <> O) as Hf' by (intros ->; change (10 ^ Z.of_nat 0) with 1 in Hn; lia).
    assert (0 <= n / 10 < 10 ^ Z.of_nat fuel) as Hd by (split; [apply Z.div_pos; lia|apply Z.div_lt_upper_bound; lia]).
    destruct (IH (n / 10) Hd Hf') as (H1 & H2 & H3 & H4). pose proof (Z.mod_pos_bound n 10 ltac:(lia)). pose proof (Z.div_mod n 10 ltac:(lia)). split_and!.
    + intros E. by apply app_eq_nil in E as [_ E].
    + apply Forall_app. split; [done|]. constructor; [|constructor]. unfold is_digit. apply andb_true_iff. split; apply Z.leb_le; lia.
    + rewrite digits_snoc, H3. lia.
    + intros k. rewrite H4, length_app. cbn [length]. lia.
Qed.

Lemma decimal_spec n :
  0 <= n <= INT64_MAX -> number_text (decimal n) n /\ redis_resp_decimal_digits n = len (decimal n).
Proof.
  intros Hn. destruct (decimal_loop_spec 20 n) as (H1 & H2 & H3 & H4); [|done|].
  { change (10 ^ Z.of_nat 20) with 100000000000000000000. unfold INT64_MAX in Hn. lia. }
  split; [|unfold redis_resp_decimal_digits, decimal; rewrite H4; lia]. unfold decimal. rewrite <- H3 at 2. apply number_plus; [done|done|]. rewrite H3. lia.
Qed.

(** ** The bytes of a command *)

Definition bulk_bytes (arg : bytes) : bytes := (DOLLAR :: decimal (len arg) ++ [CR; LF]) ++ arg ++ [CR; LF].
Definition command_bytes (args : list bytes) : bytes := (STAR :: decimal (len args) ++ [CR; LF]) ++ concat (map bulk_bytes args).

(** A format with one place for a number. *)
Fixpoint format_number (format : bytes) (n : Z) : bytes :=
  match format with
  | 123 :: 125 :: rest => decimal n ++ rest
  | c :: rest => c :: format_number rest n
  | [] => []
  end.

(** What the strings of the runtime promise. *)
Class tstr_laws {lib : tstr_library} : Prop := {
  tstr_new_empty : forall s, tstr_new = Some s -> tstr_content s = [];
  tstr_reserve_keeps : forall s n s', tstr_reserve s n = Some s' -> tstr_content s' = tstr_content s;
  tstr_format_appends : forall s format n s', format = FORMAT_ARRAY \/ format = FORMAT_BULK -> 0 <= n ->
    tstr_append_format s format n = Some s' -> tstr_content s' = tstr_content s ++ format_number format n;
  tstr_cat_appends : forall s bs s', tstr_cat s bs = Some s' -> tstr_content s' = tstr_content s ++ bs
}.

Lemma bulk_wire arg : len arg <= INT64_MAX -> wire (RBulk arg) (bulk_bytes arg).
Proof. intros H. apply wire_bulk. apply decimal_spec. lia. Qed.

Lemma bulk_length arg : len arg <= INT64_MAX -> len (bulk_bytes arg) = 1 + redis_resp_decimal_digits (len arg) + 2 + 2 + len arg.
Proof.
  intros H. destruct (decimal_spec (len arg)) as [_ E]; [lia|]. rewrite E. unfold bulk_bytes.
  rewrite length_app; cbn [length]; rewrite !length_app; cbn [length]. lia.
Qed.

Lemma command_wire args :
  Forall (fun arg => len arg <= INT64_MAX) args -> len args <= INT64_MAX -> wire (RArray (map RBulk args)) (command_bytes args).
Proof.
  intros Ha Hn. unfold command_bytes. apply wire_array; [rewrite length_map; apply decimal_spec; lia|].
  clear Hn. induction Ha as [|arg args H _ IH]; [constructor|]. cbn [map concat]. constructor; [by apply bulk_wire|done].
Qed.

Section Exact.
Context {lib : tstr_library} {laws : tstr_laws}.
Context (argv : list (ptr bytes)) (argvlen : ptr (list Z)).

(** The object an argument points to holds at least its bytes. *)
Definition argument_at (index : nat) (arg : bytes) : Prop :=
  exists object, argv !! index = Some (Some object) /\ argument_length argvlen index object = Some (len arg) /\
    ldn object 0 (len arg) = Some arg.

Lemma measure_exact args index total max :
  0 <= max <= INT64_MAX -> 0 <= total <= max -> Forall (fun arg => len arg <= INT64_MAX) args ->
  (forall i arg, args !! i = Some arg -> argument_at (index + i) arg) ->
  measure_arguments argv argvlen (length args) index total max =
    Some (let sum := total + len (concat (map bulk_bytes args)) in if max <? sum then Err SALTS_ENOBUFS else Ret sum).
Proof.
  intros Hm. revert index total. induction args as [|arg args IH]; intros index total Ht Hl Ha; cbn [length measure_arguments map concat].
  - cbv zeta. cbn [length]. rewrite (proj2 (Z.ltb_ge _ _)) by lia. do 2 f_equal. lia.
  - apply list.Forall_cons in Hl as [H1 Hl]. destruct (Ha 0%nat arg eq_refl) as (object & Ho & Hlen & _).
    rewrite Nat.add_0_r in Ho, Hlen. rewrite Ho. cbn [mbind option_bind]. rewrite Hlen. cbn [mbind option_bind].
    rewrite length_app. pose proof (bulk_length arg H1) as Hb. set (framing := 1 + _ + 2 + 2) in *.
    assert (0 <= redis_resp_decimal_digits (len arg)) by (destruct (decimal_spec (len arg)) as [_ ->]; lia).
    assert (((max <? len arg) || (size_sub max (len arg) <? framing) || (size_sub max (framing + len arg) <? total)) =
            (max <? total + len (bulk_bytes arg))) as ->.
    { unfold size_sub, u64. rewrite Hb. unfold INT64_MAX in *.
      destruct (Z.ltb_spec max (len arg)) as [|H2]; cbn [orb]; [symmetry; apply Z.ltb_lt; lia|].
      rewrite (Z.mod_small (max - len arg)) by lia.
      destruct (Z.ltb_spec (max - len arg) framing) as [|H3]; cbn [orb]; [symmetry; apply Z.ltb_lt; lia|].
      rewrite (Z.mod_small (max - (framing + len arg))) by lia.
      destruct (Z.ltb_spec (max - (framing + len arg)) total), (Z.ltb_spec max (total + (framing + len arg))); lia. }
    destruct (Z.ltb_spec max (total + len (bulk_bytes arg))).
    + do 2 f_equal. symmetry. cbv zeta. rewrite (proj2 (Z.ltb_lt _ _)) by lia. done.
    + rewrite u64_small by (unfold INT64_MAX in *; lia). replace (total + (framing + len arg)) with (total + len (bulk_bytes arg)) by lia.
      rewrite IH; [|lia|done|].
      * cbv zeta. rewrite <- Z.add_assoc, Nat2Z.inj_add. done.
      * intros i a Hi. replace (S index + i)%nat with (index + S i)%nat by lia. by apply Ha.
Qed.

(** The string has grown by some bytes, or memory was out. *)
Definition grown (s : tstr) (bs : bytes) (r : option (outcome salts_status tstr)) : Prop :=
  r = Some (Err SALTS_ENOMEM) \/ exists s', r = Some (Ret s') /\ tstr_content s' = tstr_content s ++ bs.

Lemma append_arguments_exact args index s :
  (forall i arg, args !! i = Some arg -> argument_at (index + i) arg) ->
  grown s (concat (map bulk_bytes args)) (append_arguments argv argvlen (length args) index s).
Proof.
  revert index s. induction args as [|arg args IH]; intros index s Ha; cbn [length append_arguments map concat].
  - right. exists s. by rewrite app_nil_r.
  - destruct (Ha 0%nat arg eq_refl) as (object & Ho & Hlen & Hv).
    rewrite Nat.add_0_r in Ho, Hlen. rewrite Ho. cbn [mbind option_bind]. rewrite Hlen. cbn [mbind option_bind].
    destruct (tstr_append_format s FORMAT_BULK (len arg)) as [s1|] eqn:E1; [|by left].
    rewrite Hv. cbn [mbind option_bind].
    destruct (tstr_cat s1 arg) as [s2|] eqn:E2; [|by left].
    destruct (tstr_cat s2 [CR; LF]) as [s3|] eqn:E3; [|by left].
    destruct (IH (S index) s3) as [->|(s' & -> & E)].
    + intros i a Hi. replace (S index + i)%nat with (index + S i)%nat by lia. by apply Ha.
    + by left.
    + right. exists s'. split; [done|]. rewrite E, (tstr_cat_appends _ _ _ E3), (tstr_cat_appends _ _ _ E2), (tstr_format_appends _ _ _ _ (or_intror eq_refl) (Nat2Z.is_nonneg _) E1).
      unfold bulk_bytes. change (format_number FORMAT_BULK (len arg)) with (DOLLAR :: decimal (len arg) ++ [CR; LF]). by rewrite <- !app_assoc.
Qed.

End Exact.

(** C35. A command of the client is built exactly: for arguments whose pointers
    and lengths are valid, the call never reads outside an argument; it reports
    that the buffer is too small exactly if the encoding of the arguments is
    longer than the limit, and otherwise, unless memory is out, the command it
    hands out is that encoding, an array of bulk strings of the RESP grammar
    that the reply reader reads. *)
Theorem command_build_exact {lib : tstr_library} {laws : tstr_laws} (argv : list (ptr bytes)) (argvlen : ptr (list Z))
    (args : list bytes) (max_command_bytes : Z) :
  0 < len args <= INT_MAX -> 0 < max_command_bytes <= INT64_MAX ->
  Forall (fun arg => len arg <= INT64_MAX) args ->
  (forall i arg, args !! i = Some arg -> argument_at argv argvlen i arg) ->
  let result := redis_resp_command_build_bounded (len args) (Some argv) argvlen max_command_bytes (Some None) in
  wire (RArray (map RBulk args)) (command_bytes args) /\
  if max_command_bytes <? len (command_bytes args) then result = Some (Err SALTS_ENOBUFS)
  else result = Some (Err SALTS_ENOMEM) \/ exists s, result = Some (Ret s) /\ tstr_content s = command_bytes args.
Proof.
  intros Hn Hm Hl Ha result. assert (len args <= INT64_MAX) as Hn' by (unfold INT_MAX, INT64_MAX in *; lia).
  split; [by apply command_wire|]. subst result. unfold redis_resp_command_build_bounded.
  rewrite (proj2 (Z.leb_gt _ _)), (proj2 (Z.eqb_neq _ _)) by lia. cbn [orb]. cbv zeta. destruct (decimal_spec (len args)) as [_ Ed]; [lia|].
  assert (len (command_bytes args) = 1 + redis_resp_decimal_digits (len args) + 2 + len (concat (map bulk_bytes args))) as ->.
  { unfold command_bytes. rewrite length_app. cbn [length]. rewrite length_app. cbn [length]. lia. }
  set (total := 1 + redis_resp_decimal_digits (len args) + 2) in *.
  destruct (Z.ltb_spec max_command_bytes total) as [|Ht]; [by rewrite (proj2 (Z.ltb_lt _ _)) by lia|].
  rewrite Nat2Z.id, measure_exact by (done || lia). cbn [mbind option_bind]. cbv zeta.
  destruct (max_command_bytes <? total + _); [done|].
  destruct tstr_new as [s|] eqn:E1; [|by left].
  destruct (tstr_reserve s _) as [s1|] eqn:E2; [|by left].
  destruct (tstr_append_format s1 FORMAT_ARRAY (len args)) as [s2|] eqn:E3; [|by left].
  destruct (append_arguments_exact argv argvlen args 0 s2 Ha) as [->|(s' & -> & E)]; [by left|].
  right. exists s'. split; [done|]. rewrite E, (tstr_format_appends _ _ _ _ (or_introl eq_refl) (Nat2Z.is_nonneg _) E3), (tstr_reserve_keeps _ _ _ E2), (tstr_new_empty _ E1). done.
Qed.

(** Strings that never run out of memory. *)
Definition plain_tstr : tstr_library :=
  {| tstr := bytes; tstr_content s := s; tstr_new := Some []; tstr_reserve s _ := Some s;
     tstr_append_format s format n := Some (s ++ format_number format n); tstr_cat s bs := Some (s ++ bs) |}.

Lemma plain_tstr_laws : @tstr_laws plain_tstr.
Proof. split; cbn; intros; congruence. Qed.

(** GET key, with the terminators of its arguments. *)
Definition sample_args : list bytes := [[71; 69; 84]; [107; 101; 121]].
Definition sample_argv : list (ptr bytes) := [Some [71; 69; 84; 0]; Some [107; 101; 121; 0]].

Lemma command_build_exact_witness :
  @redis_resp_command_build_bounded plain_tstr 2 (Some sample_argv) None 64 (Some None) = Some (Ret (command_bytes sample_args)) /\
  wire (RArray (map RBulk sample_args)) (command_bytes sample_args).
Proof.
  split; [reflexivity|].
  apply (@command_build_exact plain_tstr plain_tstr_laws sample_argv None sample_args 64).
  - cbn. unfold INT_MAX. lia.
  - unfold INT64_MAX. lia.
  - repeat constructor; cbn; unfold INT64_MAX; lia.
  - intros [|[|i]] arg Hi; [| |done]; injection Hi as <-; eexists; (split; [reflexivity|split; reflexivity]).
Defined.
