(* ===== verification/RedisCluster.v ===== *)
(** * Key slots of a Redis cluster (redis/redis_cluster.c)

    The slot of a key: the CRC-16 of its hash tag, computed with a table, against
    the bitwise polynomial division. *)

From S2P Require Import Prelude RespToken RespReader RedisCommand.

(** ** Key slots *)

Definition REDIS_CLUSTER_SLOT_COUNT : Z := 16384.
Definition BRACE_OPEN : Z := 123.
Definition BRACE_CLOSE : Z := 125.

Definition redis_cluster_crc16_table : list Z :=
  [0; 4129; 8258; 12387; 16516; 20645; 24774; 28903; 33032; 37161; 41290; 45419; 49548; 53677; 57806; 61935;
   4657; 528; 12915; 8786; 21173; 17044; 29431; 25302; 37689; 33560; 45947; 41818; 54205; 50076; 62463; 58334;
   9314; 13379; 1056; 5121; 25830; 29895; 17572; 21637; 42346; 46411; 34088; 38153; 58862; 62927; 50604; 54669;
   13907; 9842; 5649; 1584; 30423; 26358; 22165; 18100; 46939; 42874; 38681; 34616; 63455; 59390; 55197; 51132;
   18628; 22757; 26758; 30887; 2112; 6241; 10242; 14371; 51660; 55789; 59790; 63919; 35144; 39273; 43274; 47403;
   23285; 19156; 31415; 27286; 6769; 2640; 14899; 10770; 56317; 52188; 64447; 60318; 39801; 35672; 47931; 43802;
   27814; 31879; 19684; 23749; 11298; 15363; 3168; 7233; 60846; 64911; 52716; 56781; 44330; 48395; 36200; 40265;
   32407; 28342; 24277; 20212; 15891; 11826; 7761; 3696; 65439; 61374; 57309; 53244; 48923; 44858; 40793; 36728;
   37256; 33193; 45514; 41451; 53516; 49453; 61774; 57711; 4224; 161; 12482; 8419; 20484; 16421; 28742; 24679;
   33721; 37784; 41979; 46042; 49981; 54044; 58239; 62302; 689; 4752; 8947; 13010; 16949; 21012; 25207; 29270;
   46570; 42443; 38312; 34185; 62830; 58703; 54572; 50445; 13538; 9411; 5280; 1153; 29798; 25671; 21540; 17413;
   42971; 47098; 34713; 38840; 59231; 63358; 50973; 55100; 9939; 14066; 1681; 5808; 26199; 30326; 17941; 22068;
   55628; 51565; 63758; 59695; 39368; 35305; 47498; 43435; 22596; 18533; 30726; 26663; 6336; 2273; 14466; 10403;
   52093; 56156; 60223; 64286; 35833; 39896; 43963; 48026; 19061; 23124; 27191; 31254; 2801; 6864; 10931; 14994;
   64814; 60687; 56684; 52557; 48554; 44427; 40424; 36297; 31782; 27655; 23652; 19525; 15522; 11395; 7392; 3265;
   61215; 65342; 53085; 57212; 44955; 49082; 36825; 40952; 28183; 32310; 20053; 24180; 11923; 16050; 3793; 7920].

(** [crc = (uint16_t)((crc << 8u) ^ table[((crc >> 8u) ^ data[index]) & 0xffu])] *)
Definition crc16_byte (crc b : Z) : option Z :=
  entry ← redis_cluster_crc16_table !! Z.to_nat (Z.land (Z.lxor (Z.shiftr crc 8) b) 255);
  Some (u16 (Z.lxor (Z.shiftl crc 8) entry)).

Fixpoint crc16_loop (n : nat) (data : bytes) (index crc : Z) : option Z :=
  match n with
  | O => Some crc
  | S n => b ← ld data index; crc ← crc16_byte crc b; crc16_loop n data (index + 1) crc
  end.

Definition redis_cluster_crc16 (data : bytes) (offset length : Z) : option Z := crc16_loop (Z.to_nat length) data offset 0.

(** [for (; pos < length && key[pos] != c; ++pos)] *)
Fixpoint scan_until (n : nat) (key : bytes) (c pos length : Z) : option Z :=
  match n with
  | O => Some pos
  | S n =>
      if pos <? length then
        b ← ld key pos;
        if negb (b =? c) then scan_until n key c (pos + 1) length else Some pos
      else Some pos
  end.

(** The slot of a key; [None] is an access outside it. *)
Definition redis_cluster_keyslot (key : ptr bytes) (length : Z) : option Z :=
  match key with
  | None => Some 0
  | Some key =>
      start ← scan_until (Z.to_nat length) key BRACE_OPEN 0 length;
      let whole := crc ← redis_cluster_crc16 key 0 length; Some (Z.land crc 16383) in
      if start <? length then
        end_ ← scan_until (Z.to_nat length) key BRACE_CLOSE (start + 1) length;
        if (end_ <? length) && (start + 1 <? end_) then
          crc ← redis_cluster_crc16 key (start + 1) (end_ - start - 1);
          Some (Z.land crc 16383)
        else whole
      else whole
  end.

(** *** CRC-16/XMODEM, bit by bit: the remainder of a division by
    x^16 + x^12 + x^5 + 1 *)

Definition crc_bit (crc : Z) : Z := Z.lxor (u16 (Z.shiftl crc 1)) (if Z.testbit crc 15 then 0x1021 else 0).
Definition crc_byte (crc b : Z) : Z := Nat.iter 8 crc_bit (Z.lxor crc (Z.shiftl b 8)).
Definition crc_xmodem (l : bytes) : Z := fold_left crc_byte l 0.

Lemma u16_lxor a b : u16 (Z.lxor a b) = Z.lxor (u16 a) (u16 b).
Proof.
  unfold u16. rewrite <- !Z.land_ones by lia. apply Z.bits_inj'. intros i Hi.
  rewrite Z.land_spec, !Z.lxor_spec, !Z.land_spec. by destruct (Z.testbit a i), (Z.testbit b i), (Z.testbit (Z.ones 16) i).
Qed.

Lemma crc_bit_lxor a b : crc_bit (Z.lxor a b) = Z.lxor (crc_bit a) (crc_bit b).
Proof.
  unfold crc_bit. rewrite Z.shiftl_lxor, u16_lxor, Z.lxor_spec. apply Z.bits_inj'. intros i Hi.
  destruct (Z.testbit a 15), (Z.testbit b 15); cbn [xorb]; rewrite !Z.lxor_spec, ?Z.bits_0;
    destruct (Z.testbit _ i), (Z.testbit _ i); rewrite ?xorb_nilpotent; try done; by destruct (Z.testbit _ i).
Qed.

Lemma crc_bits_lxor n a b : Nat.iter n crc_bit (Z.lxor a b) = Z.lxor (Nat.iter n crc_bit a) (Nat.iter n crc_bit b).
Proof. induction n as [|n IH]; [done|]. by rewrite !Nat.iter_succ, IH, crc_bit_lxor. Qed.

(** What holds of every byte by computation holds of every byte. *)
Lemma byte_cases (P : Z -> bool) b : forallb P (map Z.of_nat (seq 0 256)) = true -> 0 <= b < 256 -> P b = true.
Proof.
  intros HP Hb. rewrite forallb_forall in HP. apply HP. apply in_map_iff. exists (Z.to_nat b). split; [lia|]. apply in_seq. lia.
Qed.

Lemma table_entry i : 0 <= i < 256 -> redis_cluster_crc16_table !! Z.to_nat i = Some (crc_byte 0 i).
Proof.
  intros Hi. pose (agree i := match redis_cluster_crc16_table !! Z.to_nat i with Some e => e =? crc_byte 0 i | None => false end).
  assert (agree i = true) as E by (apply byte_cases; [vm_compute; reflexivity|done]). unfold agree in E.
  destruct (redis_cluster_crc16_table !! Z.to_nat i); [|done]. apply Z.eqb_eq in E. by subst.
Qed.

Lemma low_byte l : 0 <= l < 256 -> Nat.iter 8 crc_bit l = Z.shiftl l 8.
Proof.
  intros Hl. apply Z.eqb_eq. apply (byte_cases (fun l => Nat.iter 8 crc_bit l =? Z.shiftl l 8)); [vm_compute; reflexivity|done].
Qed.

Lemma crc_bit_range crc : 0 <= crc_bit crc < 2 ^ 16.
Proof. unfold crc_bit. apply lxor_range; [lia|apply u16_range|]. destruct (Z.testbit crc 15); lia. Qed.

Lemma crc_byte_range crc b : 0 <= crc_byte crc b < 2 ^ 16.
Proof. unfold crc_byte. apply crc_bit_range. Qed.

Lemma crc_byte_0 b : crc_byte 0 b = Nat.iter 8 crc_bit (Z.shiftl b 8).
Proof. unfold crc_byte. by rewrite Z.lxor_0_l. Qed.

(** One step of the table is eight steps of the division. *)
Lemma crc16_byte_exact crc b : 0 <= crc < 2 ^ 16 -> 0 <= b < 256 -> crc16_byte crc b = Some (crc_byte crc b).
Proof.
  intros Hc Hb. unfold crc16_byte. set (h := Z.shiftr crc 8). set (l := crc mod 256).
  assert (0 <= h < 256) as Hh by (unfold h; rewrite Z.shiftr_div_pow2 by lia; split; [apply Z.div_pos|apply Z.div_lt_upper_bound]; lia).
  assert (0 <= l < 256) as Hl by (by apply Z.mod_pos_bound).
  assert (0 <= Z.lxor h b < 256) as Hx by (apply (lxor_range h b 8); lia).
  replace (Z.land (Z.lxor h b) 255) with (Z.lxor h b) by (change 255 with (Z.ones 8); rewrite Z.land_ones by lia; symmetry; apply Z.mod_small; lia).
  rewrite table_entry by done. cbn [mbind option_bind]. f_equal.
  assert (crc = Z.lxor (Z.shiftl h 8) l) as Hcrc.
  { unfold h, l. change 256 with (2 ^ 8). rewrite <- Z.land_ones, <- Z.ldiff_ones_r by lia. apply Z.bits_inj'. intros i Hi.
    rewrite Z.lxor_spec, Z.ldiff_spec, Z.land_spec. by destruct (Z.testbit crc i), (Z.testbit (Z.ones 8) i). }
  unfold crc_byte at 2. rewrite Hcrc at 2.
  rewrite Z.lxor_assoc, (Z.lxor_comm l), <- Z.lxor_assoc, <- Z.shiftl_lxor, crc_bits_lxor, (low_byte l) by done.
  rewrite u16_lxor, (u16_small (crc_byte 0 (Z.lxor h b)) (crc_byte_range 0 _)), crc_byte_0, Z.lxor_comm. apply (f_equal (Z.lxor _)).
  unfold u16, l. rewrite !Z.shiftl_mul_pow2 by lia. change (2 ^ 16) with (256 * 2 ^ 8). by rewrite Z.mul_mod_distr_r by lia.
Qed.

Lemma crc16_loop_step n data index crc b crc' :
  ld data index = Some b -> crc16_byte crc b = Some crc' -> crc16_loop (S n) data index crc = crc16_loop n data (index + 1) crc'.
Proof. intros E1 E2. cbn [crc16_loop]. rewrite E1. cbn [mbind option_bind]. by rewrite E2. Qed.

Lemma fold_left_cons {A B} (f : A -> B -> A) x l a : fold_left f (x :: l) a = fold_left f l (f a x).
Proof. reflexivity. Qed.

Lemma crc16_loop_exact l : forall a b crc, bytes_ok l -> 0 <= crc < 2 ^ 16 ->
  crc16_loop (length l) (a ++ l ++ b) (len a) crc = Some (fold_left crc_byte l crc).
Proof.
  induction l as [|x l IH]; intros a b crc Hl Hc; [done|]. apply list.Forall_cons in Hl as [Hx Hl].
  assert (ld (a ++ (x :: l) ++ b) (len a) = Some x) as E.
  { unfold ld. rewrite (proj2 (Z.ltb_ge _ _)) by lia. rewrite Nat2Z.id. cbn [app]. by rewrite (list_lookup_middle a). }
  change (length (x :: l)) with (S (length l)). rewrite (crc16_loop_step _ _ _ _ _ _ E (crc16_byte_exact crc x Hc Hx)).
  replace (len a + 1) with (len (a ++ [x])) by (rewrite length_app; cbn [length]; lia).
  replace (a ++ (x :: l) ++ b) with ((a ++ [x]) ++ l ++ b) by (by rewrite <- app_assoc).
  rewrite fold_left_cons. exact (IH (a ++ [x]) b (crc_byte crc x) Hl (crc_byte_range crc x)).
Qed.

Lemma crc16_exact a l b : bytes_ok l -> redis_cluster_crc16 (a ++ l ++ b) (len a) (len l) = Some (crc_xmodem l).
Proof. intros Hl. unfold redis_cluster_crc16. rewrite Nat2Z.id. by apply crc16_loop_exact. Qed.

(** *** The hash tag *)

Lemma scan_until_found x : forall n a y c length_,
  c ∉ x -> (length x < n)%nat -> len a + len x < length_ ->
  scan_until n (a ++ x ++ c :: y) c (len a) length_ = Some (len a + len x).
Proof.
  induction x as [|b x IH]; intros [|n] a y c length_ Hc Hn Hl; cbn [length] in *; try lia; cbn [scan_until].
  - rewrite (proj2 (Z.ltb_lt _ _)) by lia. cbn [app]. rewrite ld_middle. cbn [mbind option_bind]. rewrite Z.eqb_refl. cbn [negb]. f_equal. lia.
  - apply not_elem_of_cons in Hc as [Hb Hc]. rewrite (proj2 (Z.ltb_lt _ _)) by lia. cbn [app]. rewrite ld_middle. cbn [mbind option_bind].
    rewrite (proj2 (Z.eqb_neq _ _)) by congruence. cbn [negb].
    pose proof (IH n (a ++ [b]) y c length_ Hc ltac:(lia)) as H. rewrite <- app_assoc, length_app in H. cbn [length app] in H.
    replace (len a + 1) with (Z.of_nat (length a + 1)) by lia. rewrite H by lia. f_equal. lia.
Qed.

Lemma scan_until_absent x : forall n a y c,
  c ∉ x -> (length x <= n)%nat -> scan_until n (a ++ x ++ y) c (len a) (len a + len x) = Some (len a + len x).
Proof.
  induction x as [|b x IH]; intros [|n] a y c Hc Hn; cbn [length] in *; try lia; cbn [scan_until].
  - f_equal. lia.
  - rewrite (proj2 (Z.ltb_ge _ _)) by lia. f_equal. lia.
  - apply not_elem_of_cons in Hc as [Hb Hc]. rewrite (proj2 (Z.ltb_lt _ _)) by lia. cbn [app]. rewrite ld_middle. cbn [mbind option_bind].
    rewrite (proj2 (Z.eqb_neq _ _)) by congruence. cbn [negb].
    pose proof (IH n (a ++ [b]) y c Hc ltac:(lia)) as H. rewrite <- app_assoc, length_app in H. cbn [length app] in H.
    replace (len a + 1) with (Z.of_nat (length a + 1)) by lia.
    replace (len a + Z.of_nat (S (length x))) with (Z.of_nat (length a + 1) + len x) by lia. exact H.
Qed.

(** The part of a key between its first opening brace and the next closing one
    is its hash tag, unless it is empty. *)
Inductive hash_tag (key : bytes) : bytes -> Prop :=
  | tag_between a tag rest :
      key = a ++ BRACE_OPEN :: tag ++ BRACE_CLOSE :: rest -> BRACE_OPEN ∉ a -> BRACE_CLOSE ∉ tag -> tag <> [] -> hash_tag key tag
  | tag_empty a rest : key = a ++ BRACE_OPEN :: BRACE_CLOSE :: rest -> BRACE_OPEN ∉ a -> hash_tag key key
  | tag_open a rest : key = a ++ BRACE_OPEN :: rest -> BRACE_OPEN ∉ a -> BRACE_CLOSE ∉ rest -> hash_tag key key
  | tag_none : BRACE_OPEN ∉ key -> hash_tag key key.

Lemma scan_open a r more :
  BRACE_OPEN ∉ a -> let key := a ++ BRACE_OPEN :: r in
  scan_until (length key) (key ++ more) BRACE_OPEN 0 (len key) = Some (len a).
Proof.
  intros Ha key. unfold key. rewrite <- app_assoc. change (len a) with (Z.of_nat (length (A:=Z) []) + len a). change 0 with (Z.of_nat (length (A:=Z) [])).
  apply (scan_until_found a _ []); [done| |]; rewrite length_app; cbn [length]; lia.
Qed.

Lemma scan_close a x y more :
  BRACE_CLOSE ∉ x -> let key := a ++ BRACE_OPEN :: x ++ BRACE_CLOSE :: y in
  scan_until (length key) (key ++ more) BRACE_CLOSE (len a + 1) (len key) = Some (len a + 1 + len x).
Proof.
  intros Hx key. pose proof (scan_until_found x (length key) (a ++ [BRACE_OPEN]) (y ++ more) BRACE_CLOSE (len key) Hx) as H.
  assert (length key = length a + 1 + length x + 1 + length y)%nat as Hl.
  { unfold key. rewrite length_app. cbn [length]. rewrite length_app. cbn [length]. lia. }
  rewrite <- app_assoc, length_app in H. cbn [length app] in H.
  replace (key ++ more) with (a ++ BRACE_OPEN :: x ++ BRACE_CLOSE :: y ++ more)
    by (unfold key; rewrite <- app_assoc; cbn [app]; by rewrite <- app_assoc).
  replace (len a + 1) with (Z.of_nat (length a + 1)) by lia. apply H; lia.
Qed.

Lemma scan_unclosed a x more :
  BRACE_CLOSE ∉ x -> let key := a ++ BRACE_OPEN :: x in
  scan_until (length key) (key ++ more) BRACE_CLOSE (len a + 1) (len key) = Some (len key).
Proof.
  intros Hx key. pose proof (scan_until_absent x (length key) (a ++ [BRACE_OPEN]) more BRACE_CLOSE Hx) as H.
  assert (length key = length a + 1 + length x)%nat as Hl by (unfold key; rewrite length_app; cbn [length]; lia).
  rewrite <- app_assoc, length_app in H. cbn [length app] in H.
  replace (key ++ more) with (a ++ BRACE_OPEN :: x ++ more) by (unfold key; by rewrite <- app_assoc).
  replace (len a + 1) with (Z.of_nat (length a + 1)) by lia. replace (len key) with (Z.of_nat (length a + 1) + len x) by lia. apply H. lia.
Qed.

Lemma crc_slot l : Z.land (crc_xmodem l) 16383 = crc_xmodem l mod REDIS_CLUSTER_SLOT_COUNT.
Proof. change 16383 with (Z.ones 14). by rewrite Z.land_ones. Qed.

Lemma keyslot_spec (key tag more : bytes) :
  bytes_ok key -> hash_tag key tag ->
  redis_cluster_keyslot (Some (key ++ more)) (len key) = Some (crc_xmodem tag mod REDIS_CLUSTER_SLOT_COUNT).
Proof.
  intros Hk Ht. unfold redis_cluster_keyslot. rewrite <- crc_slot.
  assert (redis_cluster_crc16 (key ++ more) 0 (len key) = Some (crc_xmodem key)) as Hwhole by (by apply (crc16_exact [] key more)).
  rewrite Nat2Z.id. destruct Ht as [a tag rest Hkey Ha Ht Hne|a rest Hkey Ha|a rest Hkey Ha Hr|Hno].
  - pose proof (scan_open a (tag ++ BRACE_CLOSE :: rest) more Ha) as E1. pose proof (scan_close a tag rest more Ht) as E2. cbv zeta in E1, E2.
    rewrite <- Hkey in E1, E2. rewrite E1. cbn [mbind option_bind]. rewrite E2. cbn [mbind option_bind].
    assert (len key = len a + 1 + len tag + 1 + len rest) as Hl
      by (rewrite Hkey, length_app; cbn [length]; rewrite length_app; cbn [length]; lia).
    assert (0 < len tag) by (destruct tag; [done|cbn [length]; lia]).
    rewrite !(proj2 (Z.ltb_lt _ _)) by lia. cbn [andb]. replace (len a + 1 + len tag - len a - 1) with (len tag) by lia.
    pose proof (crc16_exact (a ++ [BRACE_OPEN]) tag (BRACE_CLOSE :: rest ++ more)) as E3. rewrite <- app_assoc, length_app in E3. cbn [length app] in E3.
    replace (key ++ more) with (a ++ BRACE_OPEN :: tag ++ BRACE_CLOSE :: rest ++ more)
      by (rewrite Hkey, <- app_assoc; cbn [app]; by rewrite <- app_assoc).
    replace (len a + 1) with (Z.of_nat (length a + 1)) by lia. rewrite E3; [done|].
    rewrite Hkey in Hk. apply Forall_app in Hk as [_ Hk]. apply list.Forall_cons in Hk as [_ Hk]. by apply Forall_app in Hk as [Hk _].
  - pose proof (scan_open a (BRACE_CLOSE :: rest) more Ha) as E1.
    pose proof (scan_close a [] rest more (not_elem_of_nil _)) as E2. cbv zeta in E1, E2. cbn [app length] in E2.
    rewrite <- Hkey in E1, E2. rewrite E1. cbn [mbind option_bind]. rewrite E2, Hwhole. cbn [mbind option_bind].
    rewrite (proj2 (Z.ltb_ge (len a + 1) _)), andb_false_r by lia. by destruct (_ <? _).
  - pose proof (scan_open a rest more Ha) as E1. pose proof (scan_unclosed a rest more Hr) as E2. cbv zeta in E1, E2.
    rewrite <- Hkey in E1, E2. rewrite E1. cbn [mbind option_bind]. rewrite E2, Hwhole. cbn [mbind option_bind].
    rewrite Z.ltb_irrefl. cbn [andb]. by destruct (_ <? _).
  - pose proof (scan_until_absent key (length key) [] more BRACE_OPEN Hno ltac:(lia)) as E1. cbn [app length] in E1.
    change (Z.of_nat 0) with 0 in E1. rewrite Z.add_0_l in E1. rewrite E1. cbn [mbind option_bind]. by rewrite Z.ltb_irrefl, Hwhole.
Qed.

(** C20. The slot of a key is the CRC-16/XMODEM remainder of its hash tag modulo
    16384: the table of the code computes eight steps of the polynomial division
    for every byte, the tag is found as the cluster specification says (the whole
    key if the braces are missing or enclose nothing), and nothing beyond the
    length of the key is read. *)
Theorem keyslot_exact (key tag more : bytes) :
  bytes_ok key -> hash_tag key tag ->
  redis_cluster_keyslot (Some (key ++ more)) (len key) = Some (crc_xmodem tag mod REDIS_CLUSTER_SLOT_COUNT).
Proof. apply keyslot_spec. Qed.

(** The slot of the key user:{42}:a, and the check value of the CRC. *)
Lemma keyslot_exact_witness :
  redis_cluster_keyslot (Some ([117; 115; 101; 114; 58; 123; 52; 50; 125; 58; 97] ++ [0])) (len [117; 115; 101; 114; 58; 123; 52; 50; 125; 58; 97]) =
    Some (crc_xmodem [52; 50] mod REDIS_CLUSTER_SLOT_COUNT) /\
  crc_xmodem [49; 50; 51; 52; 53; 54; 55; 56; 57] = 0x31c3.
Proof.
  split; [|vm_compute; reflexivity].
  apply (keyslot_exact [117; 115; 101; 114; 58; 123; 52; 50; 125; 58; 97] [52; 50] [0]).
  - repeat constructor; lia.
  - apply (tag_between _ [117; 115; 101; 114; 58] [52; 50] [58; 97]); [reflexivity| | |done];
      repeat (apply not_elem_of_cons; split; [done|]); apply not_elem_of_nil.
Defined.
