(* ===== verification/RedisTopology.v ===== *)
(** * The topology of a Redis cluster (redis/redis_cluster.c)

    The nodes and the owners of the slots, read from the reply to CLUSTER SLOTS,
    and the routing of commands. Replies are nodes of the pool of a reader, and
    pointers to nodes of the cluster are indexes of its array. *)

From S2P Require Import Prelude RespToken RespReader RedisCommand RedisCluster.

Record redis_cluster_node : Type := mk_cluster_node {
  cn_host : bytes;
  cn_port : Z;
  cn_node_id : ptr bytes;
  cn_slot_start : Z;
  cn_slot_end : Z
}.

Inductive redis_cluster_phase : Type :=
  | REDIS_CLUSTER_PHASE_SEED_CONNECT | REDIS_CLUSTER_PHASE_DISCOVERY | REDIS_CLUSTER_PHASE_DISCOVERY_CLEANUP
  | REDIS_CLUSTER_PHASE_NODE_CONNECT | REDIS_CLUSTER_PHASE_READY | REDIS_CLUSTER_PHASE_FAILED
  | REDIS_CLUSTER_PHASE_CLOSING | REDIS_CLUSTER_PHASE_CLOSED.

(** What the topology of a cluster changes or reads. *)
Record redis_cluster_impl : Type := mk_cluster {
  cl_max_nodes : Z;
  cl_nodes : list redis_cluster_node;
  cl_slots : list (ptr nat);
  cl_phase : redis_cluster_phase
}.

Definition set_nodes (nodes : list redis_cluster_node) (s : redis_cluster_impl) : redis_cluster_impl :=
  mk_cluster (cl_max_nodes s) nodes (cl_slots s) (cl_phase s).
Definition set_slots (slots : list (ptr nat)) (s : redis_cluster_impl) : redis_cluster_impl :=
  mk_cluster (cl_max_nodes s) (cl_nodes s) slots (cl_phase s).

Abbreviation C A := (M salts_status redis_cluster_impl A).

(** The string up to its first terminator. *)
Definition c_string (s : bytes) : bytes := match find_nul s with Some n => take (Z.to_nat n) s | None => s end.

(** ** Reading the reply *)

Section Parse.

(** The allocator of strings: whether a copy succeeds, for the number of nodes
    so far and the string. *)
Context (copy_ok : nat -> bytes -> bool).
Context (pool : list redis_reply_t).

Definition require (c : bool) : C unit := fail_if (negb c) SALTS_EPROTO.
Definition deref (p : ptr nat) : C redis_reply_t :=
  match p with None => fail SALTS_EPROTO | Some p => access (pool !! p) end.
Definition element (r : redis_reply_t) (i : nat) : C (ptr nat) := access (rp_elements r !! i).

Definition is_array (r : redis_reply_t) : bool := match rp_type r with REDIS_REPLY_ARRAY => true | _ => false end.
Definition is_integer (r : redis_reply_t) : bool := match rp_type r with REDIS_REPLY_INTEGER => true | _ => false end.
Definition is_null (r : redis_reply_t) : bool := match rp_type r with REDIS_REPLY_NULL => true | _ => false end.
Definition is_string (r : redis_reply_t) : bool :=
  match rp_type r with REDIS_REPLY_STRING | REDIS_REPLY_BULK_STRING => true | _ => false end.

Definition redis_cluster_reply_string (reply : ptr nat) : C bytes :=
  r ← deref reply;
  require (is_string r);;
  match rp_str r with
  | None => fail SALTS_EPROTO
  | Some value => require (negb (rp_len r =? 0));; mret value
  end.

Definition redis_cluster_copy (value : bytes) : C bytes :=
  nodes ← gets cl_nodes;
  fail_if (negb (copy_ok (length nodes) value)) SALTS_ENOMEM;;
  mret (c_string value).

(** [node->view.port == port && strcmp(node->host, host) == 0] *)
Fixpoint find_node (nodes : list redis_cluster_node) (host : bytes) (port : Z) : option nat :=
  match nodes with
  | [] => None
  | n :: nodes => if (cn_port n =? port) && bool_decide (cn_host n = c_string host) then Some 0%nat else S <$> find_node nodes host port
  end.

Definition redis_cluster_find_or_add_node (host : bytes) (port : Z) (node_id : ptr bytes) : C nat :=
  nodes ← gets cl_nodes;
  max_nodes ← gets cl_max_nodes;
  match find_node nodes host port with
  | Some p => mret p
  | None =>
      fail_if (len nodes =? max_nodes) SALTS_ENOBUFS;;
      host_copy ← redis_cluster_copy host;
      node_id_copy ← match node_id with
                     | Some id => copy ← redis_cluster_copy id; mret (Some copy)
                     | None => mret None
                     end;
      modify (set_nodes (nodes ++ [mk_cluster_node host_copy port node_id_copy 65535 0]));;
      mret (length nodes)
  end.

(** The checks of one range and what they read: its slots and its endpoint. *)
Record slot_range : Type := mk_range {
  ra_start : Z;
  ra_end : Z;
  ra_host : bytes;
  ra_port : Z;
  ra_node_id : ptr bytes
}.

Definition read_node_id (endpoint : redis_reply_t) : C (ptr bytes) :=
  if 2 <? rp_element_count endpoint then
    id ← element endpoint 2;
    match id with
    | None => mret None
    | Some _ =>
        r ← deref id;
        if is_null r then mret None else value ← redis_cluster_reply_string id; mret (Some value)
    end
  else mret None.

(** The endpoint of a range. *)
Definition read_endpoint (first last : Z) (e2 : ptr nat) : C slot_range :=
  endpoint ← deref e2;
  require (is_array endpoint);;
  require (2 <=? rp_element_count endpoint);;
  h ← element endpoint 0;
  host ← redis_cluster_reply_string h;
  p ← element endpoint 1;
  port ← deref p;
  require (is_integer port);;
  require ((0 <? rp_integer port) && (rp_integer port <=? 65535));;
  node_id ← read_node_id endpoint;
  mret (mk_range (u16 first) (u16 last) host (u16 (rp_integer port)) node_id).

Definition read_range (range : ptr nat) : C slot_range :=
  range ← deref range;
  require (is_array range);;
  require (3 <=? rp_element_count range);;
  e0 ← element range 0;
  e1 ← element range 1;
  first ← deref e0;
  last ← deref e1;
  require (is_integer first);;
  require (is_integer last);;
  require (0 <=? rp_integer first);;
  require (rp_integer first <=? rp_integer last);;
  require (rp_integer last <? REDIS_CLUSTER_SLOT_COUNT);;
  e2 ← element range 2;
  read_endpoint (rp_integer first) (rp_integer last) e2.

(** ** The nodes and the slots *)

Definition widen (start end_ : Z) (n : redis_cluster_node) : redis_cluster_node :=
  mk_cluster_node (cn_host n) (cn_port n) (cn_node_id n)
    (if start <? cn_slot_start n then start else cn_slot_start n)
    (if cn_slot_end n <? end_ then end_ else cn_slot_end n).

Definition widen_node (p : nat) (start end_ : Z) : C unit :=
  nodes ← gets cl_nodes;
  n ← access (nodes !! p);
  modify (set_nodes (<[p := widen start end_ n]> nodes)).

Fixpoint assign_slots (n : nat) (slot p : nat) : C unit :=
  match n with
  | O => mret tt
  | S n =>
      slots ← gets cl_slots;
      held ← access (slots !! slot);
      fail_if (match held with Some q => negb (q =? p)%nat | None => false end) SALTS_EPROTO;;
      modify (set_slots (<[slot := Some p]> slots));;
      assign_slots n (S slot) p
  end.

Definition assign_range (r : slot_range) : C unit :=
  p ← redis_cluster_find_or_add_node (ra_host r) (ra_port r) (ra_node_id r);
  widen_node p (ra_start r) (ra_end r);;
  assign_slots (Z.to_nat (ra_end r - ra_start r + 1)) (Z.to_nat (ra_start r)) p.

Fixpoint parse_ranges (n : nat) (index : nat) (reply : redis_reply_t) : C unit :=
  match n with
  | O => mret tt
  | S n =>
      range ← element reply index;
      r ← read_range range;
      assign_range r;;
      parse_ranges n (S index) reply
  end.

(** [for (...) if (!impl->slots[range_index]) return SALTS_EPROTO;] *)
Fixpoint check_slots (n : nat) (slot : nat) : C unit :=
  match n with
  | O => mret tt
  | S n =>
      slots ← gets cl_slots;
      held ← access (slots !! slot);
      require (is_some held);;
      check_slots n (S slot)
  end.

Definition redis_cluster_parse_slots (reply : ptr nat) : C unit :=
  reply ← deref reply;
  require (is_array reply);;
  require (negb (rp_element_count reply =? 0));;
  modify (set_slots (replicate (Z.to_nat REDIS_CLUSTER_SLOT_COUNT) None));;
  parse_ranges (Z.to_nat (rp_element_count reply)) 0 reply;;
  check_slots (Z.to_nat REDIS_CLUSTER_SLOT_COUNT) 0.

End Parse.

(** ** Routing *)

Definition redis_cluster_ready (cluster : ptr redis_cluster_impl) : bool :=
  match cluster with
  | Some impl => match cl_phase impl with REDIS_CLUSTER_PHASE_READY => true | _ => false end
  | None => false
  end.

(** The node of a slot; the outer [None] is an access outside the arrays. *)
Definition redis_cluster_node_for_slot (cluster : ptr redis_cluster_impl) (slot : Z) : option (ptr redis_cluster_node) :=
  match cluster with
  | None => Some None
  | Some impl =>
      if REDIS_CLUSTER_SLOT_COUNT <=? slot then Some None
      else
        held ← cl_slots impl !! Z.to_nat slot;
        match held with
        | None => Some None
        | Some p => n ← cl_nodes impl !! p; Some (Some n)
        end
  end.

(** The command is opened on the pool of the node that owns the slot of the key:
    [open] is the call for that node. *)
Definition redis_cluster_command_open {A} (open : nat -> outcome salts_status A)
    (cluster : ptr redis_cluster_impl) (key : ptr bytes) (key_length : Z) : option (outcome salts_status A) :=
  match cluster with
  | None => Some (Err SALTS_EINVAL)
  | Some impl =>
      if negb (redis_cluster_ready cluster) then Some (Err SALTS_ESHUTDOWN)
      else if negb (is_some key) || (key_length =? 0) then Some (Err SALTS_EINVAL)
      else
        slot ← redis_cluster_keyslot key key_length;
        held ← cl_slots impl !! Z.to_nat slot;
        match held with
        | None => Some (Err SALTS_ENOTCONN)
        | Some p => Some (open p)
        end
  end.

(** ** The topology a reply describes *)

Definition text_of (t : reply) : option bytes :=
  match t with RSimple [] | RBulk [] => None | RSimple s | RBulk s => Some s | _ => None end.

Definition node_id_of (rest : list reply) : option (ptr bytes) :=
  match rest with [] | RNull :: _ => Some None | t :: _ => Some <$> text_of t end.

(** An entry: the first and the last slot, then the address of the primary. *)
Definition range_of (t : reply) : option slot_range :=
  match t with
  | RArray (RInteger first :: RInteger last :: RArray (h :: RInteger port :: rest) :: _) =>
      if (0 <=? first) && (first <=? last) && (last <? REDIS_CLUSTER_SLOT_COUNT) && ((0 <? port) && (port <=? 65535)) then
        host ← text_of h; node_id ← node_id_of rest; Some (mk_range first last host port node_id)
      else None
  | _ => None
  end.

Definition endpoint (r : slot_range) : bytes * Z := (c_string (ra_host r), ra_port r).
Definition covers (r : slot_range) (k : Z) : Prop := ra_start r <= k <= ra_end r.

(** The ranges agree on the owner of each slot and leave none without. *)
Definition topology (l : list reply) (ranges : list slot_range) : Prop :=
  Forall2 (fun t r => range_of t = Some r) l ranges /\
  (forall r r' k, r ∈ ranges -> r' ∈ ranges -> covers r k -> covers r' k -> endpoint r = endpoint r') /\
  (forall k, 0 <= k < REDIS_CLUSTER_SLOT_COUNT -> exists r, r ∈ ranges /\ covers r k).

(** *** Replies in the pool *)

Definition holds_reply (pool : list redis_reply_t) (p : nat) (t : reply) : Prop :=
  exists a b, pool = a ++ flatten p t ++ b /\ length a = p.

Definition node (t : reply) (p : nat) : redis_reply_t :=
  match t with
  | RSimple s => mk_reply REDIS_REPLY_STRING 0 (Some s) (len s) [] 0
  | RError s => mk_reply REDIS_REPLY_ERROR 0 (Some s) (len s) [] 0
  | RInteger z => mk_reply REDIS_REPLY_INTEGER z None 0 [] 0
  | RBulk s => mk_reply REDIS_REPLY_BULK_STRING 0 (Some s) (len s) [] 0
  | RNull => mk_reply REDIS_REPLY_NULL 0 None 0 [] 0
  | RArray l => mk_reply REDIS_REPLY_ARRAY 0 None 0 (pointers (S p) l) (len l)
  end.

Lemma flatten_node p t : exists l, flatten p t = node t p :: l.
Proof.
  destruct t; try by eexists. rewrite flatten_array. eexists. unfold array_node, node. do 2 f_equal.
  rewrite pointers_length, Nat2Z.id, Nat.sub_diag. by rewrite app_nil_r.
Qed.

Lemma holds_node pool p t : holds_reply pool p t -> pool !! p = Some (node t p).
Proof. intros (a & b & -> & <-). destruct (flatten_node (length a) t) as [l ->]. cbn [app]. by apply list_lookup_middle. Qed.

Lemma holds_child pool p l i t q :
  holds_reply pool p (RArray l) -> l !! i = Some t -> pointers (S p) l !! i = Some (Some q) -> holds_reply pool q t.
Proof.
  intros (a & b & -> & <-) Hi Hq. rewrite flatten_array.
  apply list_elem_of_split_length in Hi as (l1 & l2 & -> & ->). rewrite pointers_app in Hq.
  rewrite lookup_app_r, pointers_length, Nat.sub_diag in Hq by (by rewrite pointers_length). injection Hq as <-.
  rewrite flatten_list_app. cbn [flatten_list]. set (n := array_node _ _). set (f1 := flatten_list _ l1).
  exists (a ++ n :: f1). eexists. split; [|rewrite length_app; cbn [length]; lia].
  rewrite <- !app_assoc. cbn [app]. rewrite <- !app_assoc. cbn [app]. do 3 f_equal.
Qed.

(** *** Reading entries *)

(** A computation that only reads: it gives a value or a protocol error. *)
Definition reads {A} (m : C A) (o : option A) : Prop :=
  forall s, m s = (match o with Some a => Ret a | None => Err SALTS_EPROTO end, s).

Lemma reads_ret {A} (a : A) : reads (mret a) (Some a).
Proof. done. Qed.

Lemma reads_fail {A} : reads (fail (A:=A) SALTS_EPROTO) None.
Proof. done. Qed.

Lemma reads_bind {A B} (m : C A) (k : A -> C B) o f :
  reads m o -> (forall a, o = Some a -> reads (k a) (f a)) -> reads (m ≫= k) (o ≫= f).
Proof. intros Hm Hk s. unfold mbind, M_bind. rewrite Hm. destruct o as [a|]; [by apply Hk|done]. Qed.

Lemma reads_require {B} (c : bool) (k : unit -> C B) o :
  (c = true -> reads (k tt) o) -> reads (require c ≫= k) (if c then o else None).
Proof. destruct c; intros H s; [by apply H|done]. Qed.

Lemma reads_then {A B} (m : C A) (k : A -> C B) a o : reads m (Some a) -> reads (k a) o -> reads (m ≫= k) o.
Proof. intros Hm Hk. apply (reads_bind m k (Some a) (fun _ => o) Hm). by intros ? [= <-]. Qed.

Section Reads.
Context (pool : list redis_reply_t).

Lemma reads_deref p t : holds_reply pool p t -> reads (deref pool (Some p)) (Some (node t p)).
Proof. intros H s. cbn. by rewrite (holds_node _ _ _ H). Qed.

Lemma reads_element r i q : rp_elements r !! i = Some q -> reads (element r i) (Some q).
Proof. intros H s. unfold element. by rewrite H. Qed.

Lemma reads_string p t : holds_reply pool p t -> reads (redis_cluster_reply_string pool (Some p)) (text_of t).
Proof.
  intros H. apply (reads_then _ _ _ _ (reads_deref _ _ H)).
  destruct t as [[|]|s|z|[|]| |l]; done.
Qed.

Lemma reads_node_id p l : forall h port rest, l = h :: port :: rest ->
  holds_reply pool p (RArray l) -> reads (read_node_id pool (node (RArray l) p)) (node_id_of rest).
Proof.
  intros h port rest -> H. unfold read_node_id. cbn [node rp_element_count length].
  destruct rest as [|t rest]; [done|]. rewrite (proj2 (Z.ltb_lt _ _)) by (cbn [length]; lia).
  set (q := (S p + length (flatten (S p) h) + length (flatten (S p + length (flatten (S p) h)) port))%nat).
  apply (reads_then _ _ (Some q)); [by apply reads_element|].
  assert (holds_reply pool q t) as Hq by (by apply (holds_child pool p _ 2 t q H)).
  apply (reads_then _ _ _ _ (reads_deref _ _ Hq)).
  assert (forall b, is_null (node t q) = b -> (b = true -> t = RNull)) as Hn by (destruct t; cbn; congruence).
  destruct (is_null (node t q)) eqn:E; [by rewrite (Hn _ eq_refl eq_refl)|].
  assert (node_id_of (t :: rest) = text_of t ≫= fun s => Some (Some s)) as -> by (destruct t as [[|]| | |[|]| |]; done).
  apply (reads_bind _ _ _ _ (reads_string _ _ Hq)). done.
Qed.

Definition endpoint_of (first last : Z) (t : reply) : option slot_range :=
  match t with
  | RArray (h :: RInteger port :: rest) =>
      if (0 <? port) && (port <=? 65535) then
        host ← text_of h; node_id ← node_id_of rest; Some (mk_range first last host port node_id)
      else None
  | _ => None
  end.

Lemma reads_endpoint first last p t :
  0 <= first <= last -> last < REDIS_CLUSTER_SLOT_COUNT ->
  holds_reply pool p t -> reads (read_endpoint pool first last (Some p)) (endpoint_of first last t).
Proof.
  intros Hf Hl H. apply (reads_then _ _ _ _ (reads_deref _ _ H)).
  destruct t as [s|s|z|s| |[|h [|port rest]]]; try done.
  apply (reads_require true). intros _. cbn [node rp_element_count]. rewrite (proj2 (Z.leb_le _ _)) by (cbn [length]; lia).
  apply (reads_require true). intros _.
  apply (reads_then _ _ (Some (S p))); [by apply reads_element|].
  assert (holds_reply pool (S p) h) as Hh by (by apply (holds_child pool p _ 0 h _ H)).
  set (q := (S p + length (flatten (S p) h))%nat).
  assert (holds_reply pool q port) as Hp by (by apply (holds_child pool p _ 1 port _ H)).
  assert (endpoint_of first last (RArray (h :: port :: rest)) =
    host ← text_of h; match port with
                      | RInteger z => if (0 <? z) && (z <=? 65535) then node_id ← node_id_of rest; Some (mk_range first last host z node_id) else None
                      | _ => None
                      end) as ->.
  { cbn [endpoint_of]. destruct (text_of h), port; try done. by destruct (_ && _). }
  apply (reads_bind _ _ _ _ (reads_string _ _ Hh)). intros host _.
  apply (reads_then _ _ (Some q)); [by apply reads_element|]. apply (reads_then _ _ _ _ (reads_deref _ _ Hp)).
  destruct port as [| |z| | |]; try done. apply (reads_require true). intros _. cbn [node rp_integer].
  apply reads_require. intros Hz. bsimp.
  apply (reads_bind _ _ _ _ (reads_node_id _ _ h (RInteger z) rest eq_refl H)). intros id _.
  rewrite !u16_small by (unfold REDIS_CLUSTER_SLOT_COUNT in *; lia). done.
Qed.

Lemma reads_range p t : holds_reply pool p t -> reads (read_range pool (Some p)) (range_of t).
Proof.
  intros H. apply (reads_then _ _ _ _ (reads_deref _ _ H)).
  destruct t as [s|s|z|s| |[|t0 [|t1 [|t2 rest]]]]; try done; [by destruct t0|by destruct t0, t1|].
  apply (reads_require true). intros _. cbn [node rp_element_count]. rewrite (proj2 (Z.leb_le _ _)) by (cbn [length]; lia).
  apply (reads_require true). intros _.
  set (q1 := (S p + length (flatten (S p) t0))%nat). set (q2 := (q1 + length (flatten q1 t1))%nat).
  assert (holds_reply pool (S p) t0) as H0 by (by apply (holds_child pool p _ 0 t0 _ H)).
  assert (holds_reply pool q1 t1) as H1 by (by apply (holds_child pool p _ 1 t1 _ H)).
  assert (holds_reply pool q2 t2) as H2 by (by apply (holds_child pool p _ 2 t2 _ H)).
  apply (reads_then _ _ (Some (S p))); [by apply reads_element|]. apply (reads_then _ _ (Some q1)); [by apply reads_element|].
  apply (reads_then _ _ _ _ (reads_deref _ _ H0)). apply (reads_then _ _ _ _ (reads_deref _ _ H1)).
  destruct t0 as [| |first| | |]; try done. apply (reads_require true). intros _.
  destruct t1 as [| |last| | |]; try done. apply (reads_require true). intros _. cbn [node rp_integer].
  assert (range_of (RArray (RInteger first :: RInteger last :: t2 :: rest)) =
    if 0 <=? first then if first <=? last then if last <? REDIS_CLUSTER_SLOT_COUNT then endpoint_of first last t2 else None else None else None) as ->.
  { cbn [range_of]. destruct t2 as [| | | | |[|h [|[] ?]]]; cbn [endpoint_of]; by repeat case_match. }
  apply reads_require. intros Hf. apply reads_require. intros Hl. apply reads_require. intros Hc. bsimp.
  apply (reads_then _ _ (Some q2)); [by apply reads_element|]. by apply reads_endpoint.
Qed.

End Reads.

(** *** The owners of the slots *)

Definition node_endpoint (n : redis_cluster_node) : bytes * Z := (cn_host n, cn_port n).
Definition endpoints (s : redis_cluster_impl) : list (bytes * Z) := node_endpoint <$> cl_nodes s.

(** The endpoint of the node a slot points to. *)
Definition owner (s : redis_cluster_impl) (k : Z) : option (bytes * Z) :=
  held ← cl_slots s !! Z.to_nat k; p ← held; endpoints s !! p.

Record cluster_ok (s : redis_cluster_impl) : Prop := {
  ok_distinct : NoDup (endpoints s);
  ok_nodes : len (cl_nodes s) <= cl_max_nodes s;
  ok_slots : length (cl_slots s) = Z.to_nat REDIS_CLUSTER_SLOT_COUNT;
  ok_held : forall k p, cl_slots s !! k = Some (Some p) ->
    exists n, cl_nodes s !! p = Some n /\ cn_slot_start n <= Z.of_nat k <= cn_slot_end n
}.

Lemma find_node_spec nodes host port :
  match find_node nodes host port with
  | Some p => (node_endpoint <$> nodes) !! p = Some (c_string host, port)
  | None => (c_string host, port) ∉ node_endpoint <$> nodes
  end.
Proof.
  induction nodes as [|n nodes IH]; cbn [find_node fmap list_fmap]; [apply not_elem_of_nil|].
  destruct (Z.eqb_spec (cn_port n) port) as [Hp|Hp]; cbn [andb].
  - case_bool_decide as Hh; [cbn; unfold node_endpoint; by rewrite Hh, Hp|].
    destruct (find_node nodes host port); [done|]. cbn. apply not_elem_of_cons. split; [|done]. unfold node_endpoint. congruence.
  - destruct (find_node nodes host port); [done|]. cbn. apply not_elem_of_cons. split; [|done]. unfold node_endpoint. congruence.
Qed.

Lemma assign_slots_spec n slot p s :
  (slot + n <= length (cl_slots s))%nat ->
  wp (assign_slots n slot p)
    (fun _ s' => exists slots, s' = set_slots slots s /\ length slots = length (cl_slots s) /\
       (forall k, slots !! k = if decide (slot <= k < slot + n)%nat then Some (Some p) else cl_slots s !! k) /\
       forall k q, (slot <= k < slot + n)%nat -> cl_slots s !! k = Some (Some q) -> q = p)
    (fun e s' => e = SALTS_EPROTO /\ exists k q, (slot <= k < slot + n)%nat /\ cl_slots s !! k = Some (Some q) /\ q <> p) s.
Proof.
  revert slot s. induction n as [|n IH]; intros slot s Hn; cbn [assign_slots].
  { wp_step. exists (cl_slots s). split_and!; [by destruct s|done| |lia]. intros k. destruct (decide _); [lia|done]. }
  wp_step. wp_step. destruct (lookup_lt_is_Some_2 (cl_slots s) slot ltac:(lia)) as [held Hs]. rewrite Hs.
  wp_step. apply wp_access; [done|]. intros ? [= <-]. wp_step. apply wp_fail_if; intros Hc.
  { split; [done|]. destruct held as [q|]; [|done]. apply negb_true_iff, Nat.eqb_neq in Hc. exists slot, q. split_and!; [lia|lia|done|done]. }
  wp_step. wp_step. eapply wp_mono; [apply IH; cbn; rewrite length_insert; lia| |].
  - cbn [cl_slots set_slots]. intros _ s' (slots & -> & Hlen & Hk & Hq). exists slots. split; [done|].
    split; [by rewrite Hlen, length_insert|]. split.
    + intros k. rewrite Hk. destruct (decide (S slot <= k < S slot + n)%nat), (decide (slot <= k < slot + S n)%nat); try lia; [done| |].
      * replace k with slot by lia. apply list_lookup_insert_eq. lia.
      * apply list_lookup_insert_ne. lia.
    + intros k q Hr Hkq. destruct (decide (k = slot)) as [->|].
      * rewrite Hs in Hkq. injection Hkq as ->. by apply negb_false_iff, Nat.eqb_eq in Hc.
      * apply (Hq k); [lia|]. by rewrite list_lookup_insert_ne by lia.
  - cbn [cl_slots set_slots]. intros e s' (-> & k & q & Hr & Hkq & Hne). split; [done|]. exists k, q. split; [lia|]. split; [|done].
    by rewrite list_lookup_insert_ne in Hkq by lia.
Qed.

Section Assign.
Context (copy_ok : nat -> bytes -> bool).

Definition out_of_memory : Prop := exists n value, copy_ok n value = false.

(** The nodes of a state, and perhaps a new one. *)
Definition grown_nodes (e : bytes * Z) (s s' : redis_cluster_impl) : Prop :=
  cl_slots s' = cl_slots s /\ cl_max_nodes s' = cl_max_nodes s /\ cl_phase s' = cl_phase s /\
  (endpoints s' = endpoints s \/ endpoints s' = endpoints s ++ [e]).

Lemma find_or_add_spec r s :
  cluster_ok s ->
  wp (redis_cluster_find_or_add_node copy_ok (ra_host r) (ra_port r) (ra_node_id r))
    (fun p s' => cluster_ok s' /\ grown_nodes (endpoint r) s s' /\ endpoints s' !! p = Some (endpoint r))
    (fun e s' => s' = s /\ (e = SALTS_ENOBUFS /\ len (cl_nodes s) = cl_max_nodes s /\ endpoint r ∉ endpoints s \/
                            e = SALTS_ENOMEM /\ out_of_memory)) s.
Proof.
  intros Hs. unfold redis_cluster_find_or_add_node, redis_cluster_copy, grown_nodes. repeat wp_step.
  pose proof (find_node_spec (cl_nodes s) (ra_host r) (ra_port r)) as Hf. destruct (find_node _ _ _) as [p|].
  { wp_step. split_and!; [done|done|done|done|by left|done]. }
  wp_step. apply wp_fail_if; intros Hn; bsimp; [by auto|].
  assert (forall b, negb (copy_ok (length (cl_nodes s)) b) = true -> out_of_memory) as Hoom by (intros b Hb; bsimp; by exists (length (cl_nodes s)), b).
  do 4 wp_step. apply wp_fail_if; intros Hh; [by eauto 6|]. do 2 wp_step.
  apply (wp_mono _ (fun _ s' => s' = s) _ (fun e s' => s' = s /\ e = SALTS_ENOMEM /\ out_of_memory)); [| |intros e ? (-> & -> & Ho); auto].
  { destruct (ra_node_id r); repeat wp_step; eauto. }
  intros id ? ->. repeat wp_step. set (n := mk_cluster_node _ _ _ _ _).
  assert (endpoints (set_nodes (cl_nodes s ++ [n]) s) = endpoints s ++ [endpoint r]) as He by (unfold endpoints; cbn; by rewrite fmap_app).
  split_and!; [|done|done|done|by right|rewrite He; apply list_lookup_middle; unfold endpoints; by rewrite length_fmap].
  destruct Hs as [H1 H2 H3 H4]. split; cbn [set_nodes cl_nodes cl_max_nodes cl_slots].
  - rewrite He. apply list.NoDup_app. split_and!; [done| |apply NoDup_singleton]. intros x Hx ->%list_elem_of_singleton. by apply Hf.
  - rewrite length_app. cbn [length]. lia.
  - done.
  - intros k p (m & Hm & Hk)%H4. exists m. by rewrite (lookup_app_l_Some _ _ _ _ Hm).
Qed.

Lemma widen_spec p first last e s :
  cluster_ok s -> endpoints s !! p = Some e ->
  wp (widen_node p first last)
    (fun _ s' => cluster_ok s' /\ cl_slots s' = cl_slots s /\ cl_max_nodes s' = cl_max_nodes s /\ cl_phase s' = cl_phase s /\
       endpoints s' = endpoints s /\ exists n, cl_nodes s' !! p = Some n /\ cn_slot_start n <= first /\ last <= cn_slot_end n)
    (fun _ _ => False) s.
Proof.
  intros Hs (n & -> & Hn)%list_lookup_fmap_Some_1. unfold widen_node. do 3 wp_step. apply wp_access; [done|]. rewrite Hn. intros ? [= <-]. wp_step.
  pose proof (lookup_lt_Some _ _ _ Hn) as Hp. set (w := widen first last n).
  assert (endpoints (set_nodes (<[p:=w]> (cl_nodes s)) s) = endpoints s) as He.
  { unfold endpoints. cbn. rewrite list_fmap_insert. apply list_insert_id. by rewrite list_lookup_fmap, Hn. }
  assert (<[p:=w]> (cl_nodes s) !! p = Some w) as Hw by (by apply list_lookup_insert_eq).
  assert (cn_slot_start w <= first /\ last <= cn_slot_end w /\ cn_slot_start w <= cn_slot_start n /\ cn_slot_end n <= cn_slot_end w) as (W1 & W2 & W3 & W4).
  { cbn. destruct (Z.ltb_spec first (cn_slot_start n)), (Z.ltb_spec (cn_slot_end n) last); lia. }
  split; [|split_and!; try done; by exists w].
  destruct Hs as [H1 H2 H3 H4]. split; cbn [set_nodes cl_nodes cl_max_nodes cl_slots]; [by rewrite He|by rewrite length_insert|done|].
  intros k q (m & Hm & Hk)%H4. destruct (decide (p = q)) as [<-|].
  - exists w. split; [done|]. rewrite Hn in Hm. injection Hm as <-. lia.
  - exists m. by rewrite list_lookup_insert_ne.
Qed.

Lemma owner_grown e s s' k : cluster_ok s -> grown_nodes e s s' -> owner s' k = owner s k.
Proof.
  intros Hs (H1 & _ & _ & He). unfold owner. rewrite H1. destruct (cl_slots s !! Z.to_nat k) as [[p|]|] eqn:E; [|done..]. cbn.
  destruct (ok_held _ Hs _ _ E) as (n & Hn & _). assert (endpoints s !! p = Some (node_endpoint n)) as Hp by (unfold endpoints; by rewrite list_lookup_fmap, Hn).
  destruct He as [-> | ->]; [done|]. by rewrite Hp, (lookup_app_l_Some _ _ _ _ Hp).
Qed.

Lemma owner_slot s k p e : cluster_ok s -> cl_slots s !! k = Some (Some p) -> endpoints s !! p = Some e -> owner s (Z.of_nat k) = Some e.
Proof. intros Hs Hk Hp. unfold owner. rewrite Nat2Z.id, Hk. exact Hp. Qed.

(** What assigning a range to its endpoint does to the owners. *)
Definition assigned (r : slot_range) (s s' : redis_cluster_impl) : Prop :=
  (forall k, 0 <= k < REDIS_CLUSTER_SLOT_COUNT -> (covers r k -> owner s' k = Some (endpoint r)) /\ (~ covers r k -> owner s' k = owner s k)) /\
  (forall k e, covers r k -> owner s k = Some e -> e = endpoint r).

Definition conflict (r : slot_range) (s : redis_cluster_impl) : Prop :=
  exists k e, covers r k /\ owner s k = Some e /\ e <> endpoint r.

Lemma claim_spec r p n s :
  cluster_ok s -> 0 <= ra_start r <= ra_end r -> ra_end r < REDIS_CLUSTER_SLOT_COUNT ->
  endpoints s !! p = Some (endpoint r) -> cl_nodes s !! p = Some n -> cn_slot_start n <= ra_start r -> ra_end r <= cn_slot_end n ->
  wp (assign_slots (Z.to_nat (ra_end r - ra_start r + 1)) (Z.to_nat (ra_start r)) p)
    (fun _ s' => cluster_ok s' /\ cl_max_nodes s' = cl_max_nodes s /\ cl_phase s' = cl_phase s /\ endpoints s' = endpoints s /\ assigned r s s')
    (fun e s' => e = SALTS_EPROTO /\ conflict r s) s.
Proof.
  intros Hs Hr He Hp Hn Hn1 Hn2. pose proof (ok_slots _ Hs) as Hl. unfold REDIS_CLUSTER_SLOT_COUNT in *.
  eapply wp_mono; [apply assign_slots_spec; lia| |].
  - intros _ s' (slots & -> & Hlen & Hk & Hq). split_and!; [|done|done|done|split].
    + destruct Hs as [H1 H2 H3 H4]. split; cbn [set_slots cl_slots cl_nodes cl_max_nodes]; [done|done|by rewrite Hlen|].
      intros k q. rewrite Hk. destruct (decide _); [|apply H4]. intros [= <-]. exists n. split; [done|lia].
    + intros k Hkr. unfold covers, owner. cbn [set_slots cl_slots]. rewrite Hk. split; intros Hc; destruct (decide _); try lia; done.
    + intros k e Hc. unfold covers in Hc. unfold owner. destruct (cl_slots s !! Z.to_nat k) as [[q|]|] eqn:E; [|done..]. cbn.
      rewrite (Hq (Z.to_nat k) q ltac:(lia) E), Hp. congruence.
  - intros e s' (-> & k & q & Hk & E & Hne). split; [done|].
    destruct (ok_held _ Hs _ _ E) as (m & Hm & _).
    assert (endpoints s !! q = Some (node_endpoint m)) as Hq by (unfold endpoints; by rewrite list_lookup_fmap, Hm).
    exists (Z.of_nat k), (node_endpoint m). split; [unfold covers; lia|]. split; [by apply (owner_slot s k q)|].
    intros Heq. rewrite Heq in Hq. apply Hne. exact (NoDup_lookup _ _ _ _ (ok_distinct _ Hs) Hq Hp).
Qed.

(** A range whose slots are free or owned by its endpoint is assigned. *)
Lemma assign_range_spec r s :
  cluster_ok s -> 0 <= ra_start r <= ra_end r -> ra_end r < REDIS_CLUSTER_SLOT_COUNT ->
  wp (assign_range copy_ok r)
    (fun _ s' => cluster_ok s' /\ cl_max_nodes s' = cl_max_nodes s /\ cl_phase s' = cl_phase s /\
       (endpoints s' = endpoints s \/ endpoints s' = endpoints s ++ [endpoint r]) /\ assigned r s s')
    (fun e s' => e = SALTS_EPROTO /\ conflict r s \/
       e = SALTS_ENOBUFS /\ len (cl_nodes s) = cl_max_nodes s /\ endpoint r ∉ endpoints s \/
       e = SALTS_ENOMEM /\ out_of_memory) s.
Proof.
  intros Hs Hr He. unfold assign_range. wp_step. eapply wp_mono; [by apply find_or_add_spec| |intros e s' (-> & [?|?]); auto].
  intros p s1 (Hs1 & Hg & Hp). wp_step. eapply wp_mono; [by apply (widen_spec p (ra_start r) (ra_end r) _ _ Hs1 Hp)| |done].
  intros _ s2 (Hs2 & Hsl & Hmax & Hph & Hends & n & Hn & Hn1 & Hn2).
  assert (grown_nodes (endpoint r) s s2) as Hg2.
  { destruct Hg as (G1 & G2 & G3 & G4). unfold grown_nodes. by rewrite Hsl, Hmax, Hph, Hends. }
  rewrite <- Hends in Hp. pose proof (fun k => owner_grown _ _ _ k Hs Hg2) as Ho.
  eapply wp_mono; [by apply (claim_spec r p n s2)| |].
  - intros _ s' (Hs' & M1 & M2 & M3 & A1 & A2). destruct Hg2 as (G1 & G2 & G3 & G4). rewrite M1, M2, M3. split_and!; [done..|].
    split; [|intros k e Hc; rewrite <- Ho; by apply A2]. intros k Hk. rewrite <- Ho. by apply A1.
  - intros e s' (-> & k & x & Hc & Hx & Hne). left. split; [done|]. exists k, x. by rewrite <- Ho.
Qed.

End Assign.

(** *** All the ranges *)

Lemma range_of_bounds t r : range_of t = Some r -> 0 <= ra_start r <= ra_end r /\ ra_end r < REDIS_CLUSTER_SLOT_COUNT.
Proof.
  destruct t as [| | | | |[|[| |first| | |] [|[| |last| | |] [|[| | | | |[|h [|[| |port| | |] rest]]] ?]]]]; try done. cbn [range_of].
  destruct (_ && _) eqn:E; [|done]. destruct (text_of h); [|done]. destruct (node_id_of rest); [|done]. cbn. intros [= <-]. cbn. bsimp. lia.
Qed.

Lemma covers_slot t r k : range_of t = Some r -> covers r k -> 0 <= k < REDIS_CLUSTER_SLOT_COUNT.
Proof. intros H%range_of_bounds. unfold covers. lia. Qed.

Lemma ranges_entry l ranges t r : Forall2 (fun t r => range_of t = Some r) l ranges -> t ∈ l -> range_of t = Some r -> r ∈ ranges.
Proof.
  induction 1 as [|t' r' l ranges H _ IH]; intros Ht Hr; [by apply elem_of_nil in Ht|].
  apply elem_of_cons in Ht as [->|Ht]; apply elem_of_cons; [left; congruence|auto].
Qed.

Lemma ranges_of l ranges r : Forall2 (fun t r => range_of t = Some r) l ranges -> r ∈ ranges -> exists t, t ∈ l /\ range_of t = Some r.
Proof.
  induction 1 as [|t' r' l ranges H _ IH]; intros Hr; [by apply elem_of_nil in Hr|].
  apply elem_of_cons in Hr as [->|(t & Ht & Hr)%IH]; [exists t'|exists t]; split; try done; apply elem_of_cons; auto.
Qed.

Lemma wp_reads {A} (m : C A) o Q R s : reads m o -> (forall a, o = Some a -> Q a s) -> (o = None -> R SALTS_EPROTO s) -> wp m Q R s.
Proof. intros H HQ HR. unfold wp. rewrite H. destruct o; auto. Qed.

Section Topology.
Context (copy_ok : nat -> bytes -> bool) (pool : list redis_reply_t).
Context (l : list reply) (s0 : redis_cluster_impl).

(** More endpoints than nodes. *)
Definition crowded : Prop :=
  exists ends, NoDup ends /\ len ends = cl_max_nodes s0 + 1 /\
    forall e, e ∈ ends -> e ∈ endpoints s0 \/ exists t r, t ∈ l /\ range_of t = Some r /\ e = endpoint r.

Definition refused (e : salts_status) : Prop :=
  e = SALTS_EPROTO /\ (~ exists ranges, topology l ranges) \/ e = SALTS_ENOBUFS /\ crowded \/ e = SALTS_ENOMEM /\ out_of_memory copy_ok.

(** The state after some ranges. *)
Record progress (ranges : list slot_range) (s : redis_cluster_impl) : Prop := {
  pr_ok : cluster_ok s;
  pr_max : cl_max_nodes s = cl_max_nodes s0;
  pr_phase : cl_phase s = cl_phase s0;
  pr_ends : forall e, e ∈ endpoints s -> e ∈ endpoints s0 \/ exists r, r ∈ ranges /\ e = endpoint r;
  pr_owner : forall k e, 0 <= k < REDIS_CLUSTER_SLOT_COUNT -> owner s k = Some e <-> exists r, r ∈ ranges /\ covers r k /\ endpoint r = e;
}.

Lemma progress_agree ranges s r r' k :
  progress ranges s -> Forall (fun r => 0 <= ra_start r /\ ra_end r < REDIS_CLUSTER_SLOT_COUNT) ranges ->
  r ∈ ranges -> r' ∈ ranges -> covers r k -> covers r' k -> endpoint r = endpoint r'.
Proof.
  intros Hp Hb Hr Hr' Hk Hk'. rewrite list.Forall_forall in Hb. pose proof (Hb _ Hr) as Hb'.
  assert (owner s k = Some (endpoint r)) as E1 by (apply (pr_owner _ _ Hp); [unfold covers in *; lia|eauto]).
  assert (owner s k = Some (endpoint r')) as E2 by (apply (pr_owner _ _ Hp); [unfold covers in *; lia|eauto]). congruence.
Qed.

Lemma progress_snoc ranges s r s' t :
  range_of t = Some r -> progress ranges s -> cluster_ok s' -> cl_max_nodes s' = cl_max_nodes s -> cl_phase s' = cl_phase s ->
  endpoints s' = endpoints s \/ endpoints s' = endpoints s ++ [endpoint r] -> assigned r s s' -> progress (ranges ++ [r]) s'.
Proof.
  intros Hr [P1 P2 P3 P4 P5] Hok Hmax Hph He [A1 A2]. split; [done|congruence|congruence| |].
  - assert (forall e, e ∈ endpoints s' -> e ∈ endpoints s \/ e = endpoint r) as He'.
    { intros e. destruct He as [-> | ->]; [auto|]. rewrite elem_of_app, list_elem_of_singleton. done. }
    intros e [Hin| ->]%He'; [|right; exists r; rewrite elem_of_app, list_elem_of_singleton; auto].
    destruct (P4 e Hin) as [?|(r' & Hr' & ->)]; [auto|]. right. exists r'. rewrite elem_of_app. auto.
  - intros k e Hk. destruct (A1 k Hk) as [A3 A4]. split.
    + intros Ho. destruct (decide (ra_start r <= k <= ra_end r)) as [Hc|Hc].
      * exists r. rewrite elem_of_app, list_elem_of_singleton. rewrite A3 in Ho by done. split_and!; [auto|done|congruence].
      * rewrite A4 in Ho by done. apply P5 in Ho as (r' & Hin & ?); [|done]. exists r'. rewrite elem_of_app. auto.
    + intros (r' & Hin & Hc & <-). apply elem_of_app in Hin as [Hin| ->%list_elem_of_singleton]; [|by apply A3].
      assert (owner s k = Some (endpoint r')) as Ho by (apply P5; eauto).
      destruct (decide (ra_start r <= k <= ra_end r)) as [Hr'|Hr']; [|by rewrite A4].
      rewrite A3 by done. f_equal. symmetry. by apply (A2 k).
Qed.

Definition entries (l : list reply) (ranges : list slot_range) : Prop := Forall2 (fun t r => range_of t = Some r) l ranges.

Lemma assign_error a t b ranges r s e :
  l = a ++ t :: b -> entries a ranges -> range_of t = Some r -> progress ranges s ->
  e = SALTS_EPROTO /\ conflict r s \/
  e = SALTS_ENOBUFS /\ len (cl_nodes s) = cl_max_nodes s /\ endpoint r ∉ endpoints s \/ e = SALTS_ENOMEM /\ out_of_memory copy_ok ->
  refused e.
Proof.
  intros Hl Ha Hr [P1 P2 P3 P4 P5] Herr.
  assert (forall x, x ∈ a -> x ∈ l) as Hal by (intros x Hx; rewrite Hl; apply elem_of_app; auto).
  assert (t ∈ l) as Htl by (rewrite Hl; apply elem_of_app; right; apply elem_of_cons; auto).
  destruct Herr as [[-> (k & x & Hk & Hx & Hne)]|[(-> & Hn & Hin)|?]]; [left|right; left|by right; right]; (split; [done|]).
  - intros (all & Hall & Hagree & _). apply P5 in Hx as (r' & Hin' & Hk' & <-); [|by apply (covers_slot t r)].
    destruct (ranges_of _ _ _ Ha Hin') as (t' & Ht' & Hr'). apply Hne.
    apply (Hagree r' r k); [by apply (ranges_entry _ _ t' r' Hall); [apply Hal|]|by apply (ranges_entry _ _ t r Hall)|done|done].
  - exists (endpoints s ++ [endpoint r]). split_and!.
    + apply list.NoDup_app. split_and!; [apply P1| |apply NoDup_singleton]. intros y Hy ->%list_elem_of_singleton. done.
    + rewrite length_app. cbn [length]. unfold endpoints. rewrite length_fmap. lia.
    + intros e [He| ->%list_elem_of_singleton]%elem_of_app; [|right; by exists t, r].
      destruct (P4 e He) as [?|(r' & Hin' & ->)]; [auto|]. destruct (ranges_of _ _ _ Ha Hin') as (t' & Ht' & Hr'). right. exists t', r'. auto.
Qed.

Lemma parse_ranges_spec p b : forall a ranges s,
  l = a ++ b -> holds_reply pool p (RArray l) -> entries a ranges -> progress ranges s ->
  wp (parse_ranges copy_ok pool (length b) (length a) (node (RArray l) p))
    (fun _ s' => exists all, entries l all /\ progress all s') (fun e _ => refused e) s.
Proof.
  induction b as [|t b IH]; intros a ranges s Hl Hp Ha Hs; cbn [length parse_ranges].
  { wp_step. exists ranges. rewrite Hl, app_nil_r. done. }
  assert (l !! length a = Some t) as Ht by (rewrite Hl; by apply list_lookup_middle).
  destruct (lookup_lt_is_Some_2 (pointers (S p) l) (length a)) as [q Hq]; [rewrite pointers_length; by apply lookup_lt_Some in Ht|].
  wp_step. apply (wp_reads _ (Some q)); [by apply reads_element| |done]. intros ? [= <-].
  assert (exists q', q = Some q') as [q' ->].
  { rewrite Hl, pointers_app, lookup_app_r, pointers_length, Nat.sub_diag in Hq by (by rewrite pointers_length). injection Hq as <-. eauto. }
  wp_step. apply (wp_reads _ (range_of t)); [apply reads_range, (holds_child pool p l (length a) t q' Hp Ht Hq)| |].
  - intros r Hr. wp_step. pose proof (range_of_bounds t r Hr) as [B1 B2].
    eapply wp_mono; [apply (assign_range_spec copy_ok r s (pr_ok _ _ Hs) B1 B2)| |].
    + intros _ s' (H1 & H2 & H3 & H4 & H5). replace (S (length a)) with (length (a ++ [t])) by (rewrite length_app; cbn [length]; lia).
      apply (IH _ (ranges ++ [r])); [by rewrite <- app_assoc|done| |by eapply progress_snoc].
      apply Forall2_app; [done|by constructor].
    + intros e s' He. by eapply assign_error.
  - intros Hr. left. split; [done|]. intros (all & Hall & _). rewrite Hl in Hall.
    apply Forall2_app_inv_l in Hall as (r1 & r2 & _ & H2 & _). inversion H2; congruence.
Qed.

Lemma check_slots_spec n k s :
  (k + n <= length (cl_slots s))%nat ->
  wp (check_slots n k) (fun _ s' => s' = s /\ forall j, (k <= j < k + n)%nat -> exists p, cl_slots s !! j = Some (Some p))
    (fun e _ => e = SALTS_EPROTO /\ exists j, (k <= j < k + n)%nat /\ cl_slots s !! j = Some None) s.
Proof.
  revert k. induction n as [|n IH]; intros k Hn; cbn [check_slots]; [wp_step; split; [done|lia]|].
  destruct (lookup_lt_is_Some_2 (cl_slots s) k ltac:(lia)) as [held Hk].
  do 3 wp_step. apply wp_access; [by rewrite Hk|]. intros ? [= <-]%(eq_trans (eq_sym Hk)). wp_step. apply wp_fail_if; intros Hh.
  - destruct held; [done|]. split; [done|]. exists k. split; [lia|done].
  - destruct held as [p|]; [|done]. eapply wp_mono; [apply IH; lia| |].
    + intros _ s' [-> H]. split; [done|]. intros j Hj. destruct (decide (j = k)) as [->|]; [eauto|apply H; lia].
    + intros e s' (-> & j & Hj & Hn'). split; [done|]. exists j. split; [lia|done].
Qed.

End Topology.

(** *** The whole reply *)

Definition children (t : reply) : list reply := match t with RArray l => l | _ => [] end.

(** Every slot points to the node of each range that covers it. *)
Definition described (ranges : list slot_range) (s : redis_cluster_impl) : Prop :=
  cluster_ok s /\
  forall k, 0 <= k < REDIS_CLUSTER_SLOT_COUNT -> exists p n, cl_slots s !! Z.to_nat k = Some (Some p) /\ cl_nodes s !! p = Some n /\
    cn_slot_start n <= k <= cn_slot_end n /\ forall r, r ∈ ranges -> covers r k -> node_endpoint n = endpoint r.

Lemma no_topology_nil ranges : ~ topology [] ranges.
Proof.
  intros (H1 & _ & H3). destruct (H3 0) as (r & Hr & _); [unfold REDIS_CLUSTER_SLOT_COUNT; lia|].
  inversion H1; subst. by apply elem_of_nil in Hr.
Qed.

Lemma progress_full l s0 ranges s :
  entries l ranges -> progress s0 ranges s ->
  (forall j, (0 <= j < 0 + Z.to_nat REDIS_CLUSTER_SLOT_COUNT)%nat -> exists p, cl_slots s !! j = Some (Some p)) ->
  topology l ranges /\ described ranges s.
Proof.
  intros Hl Hs Hall.
  assert (forall k, 0 <= k < REDIS_CLUSTER_SLOT_COUNT -> exists p n, cl_slots s !! Z.to_nat k = Some (Some p) /\ cl_nodes s !! p = Some n /\
    cn_slot_start n <= k <= cn_slot_end n /\ owner s k = Some (node_endpoint n)) as Hk.
  { intros k Hk. destruct (Hall (Z.to_nat k)) as [p Hp]; [lia|]. destruct (ok_held _ (pr_ok _ _ _ Hs) _ _ Hp) as (n & Hn & Hb).
    exists p, n. split_and!; [done|done|lia|lia|]. unfold owner, endpoints. rewrite Hp. cbn. by rewrite list_lookup_fmap, Hn. }
  split; [split_and!; [done| |]|split; [apply Hs|]].
  - intros r r' k Hr Hr' Hc Hc'. apply (progress_agree s0 ranges s r r' k Hs); try done. apply list.Forall_forall. intros x Hx.
    destruct (ranges_of _ _ _ Hl Hx) as (t & _ & Ht). pose proof (range_of_bounds _ _ Ht). lia.
  - intros k Hkr. destruct (Hk k Hkr) as (p & n & _ & _ & _ & Ho). apply (pr_owner _ _ _ Hs) in Ho as (r & Hr & Hc & _); [by exists r|done].
  - intros k Hkr. destruct (Hk k Hkr) as (p & n & H1 & H2 & H3 & Ho). exists p, n. split_and!; [done..|lia|lia|].
    intros r Hr Hc. assert (owner s k = Some (endpoint r)) as Ho' by (apply (pr_owner _ _ _ Hs); eauto). congruence.
Qed.

Lemma parse_slots_spec copy_ok pool p t s :
  holds_reply pool p t -> NoDup (endpoints s) -> len (cl_nodes s) <= cl_max_nodes s ->
  wp (redis_cluster_parse_slots copy_ok pool (Some p))
    (fun _ s' => exists ranges, topology (children t) ranges /\ described ranges s' /\
       cl_max_nodes s' = cl_max_nodes s /\ cl_phase s' = cl_phase s)
    (fun e _ => refused copy_ok (children t) s e) s.
Proof.
  intros Hp Hd Hn. unfold redis_cluster_parse_slots. wp_step. apply (wp_reads _ (Some (node t p))); [by apply reads_deref| |done]. intros ? [= <-].
  assert (children t = [] -> refused copy_ok (children t) s SALTS_EPROTO) as Hnil.
  { intros ->. left. split; [done|]. intros [ranges H]. by apply (no_topology_nil ranges). }
  cbv beta. wp_step. apply wp_fail_if; intros Ha; bsimp; [by destruct t; auto|].
  destruct t as [| | | | |l]; try done. cbn [children node rp_element_count] in *.
  wp_step. apply wp_fail_if; intros Hz; bsimp; [destruct l; [auto|cbn [length] in *; lia]|].
  do 3 wp_step. set (s1 := set_slots _ s). rewrite Nat2Z.id.
  assert (progress s1 [] s1) as Hs1.
  { split; [|done|done|by auto|].
    - split; [done|done|apply length_replicate|]. cbn [s1 set_slots cl_slots]. intros k q [H _]%lookup_replicate. done.
    - intros k e Hk. split; [|intros (r & Hr & _); by apply elem_of_nil in Hr]. unfold owner. cbn [s1 set_slots cl_slots].
      rewrite lookup_replicate_2 by (unfold REDIS_CLUSTER_SLOT_COUNT in *; lia). done. }
  eapply wp_mono; [apply (parse_ranges_spec copy_ok pool l s1 p l [] [] s1); [done|done|constructor|done]| |done].
  intros _ s2 (ranges & Hr & Hs2). eapply wp_mono; [apply check_slots_spec; rewrite (ok_slots _ (pr_ok _ _ _ Hs2)); lia| |].
  - intros _ s3 [-> Hall]. exists ranges. destruct (progress_full l s1 ranges s2 Hr Hs2 Hall) as [H1 H2].
    split_and!; [done|done|apply Hs2|apply Hs2].
  - intros e s3 (-> & j & Hj & Hnone). left. split; [done|]. intros (all & Hall & _ & Hcover).
    destruct (Hcover (Z.of_nat j)) as (r & Hin & Hc); [lia|]. destruct (ranges_of _ _ _ Hall Hin) as (t & Ht & Hrt).
    assert (owner s2 (Z.of_nat j) = Some (endpoint r)) as Ho.
    { apply (pr_owner _ _ _ Hs2); [lia|]. exists r. split_and!; [by apply (ranges_entry _ _ t r Hr)|done|done]. }
    unfold owner in Ho. by rewrite Nat2Z.id, Hnone in Ho.
Qed.

(** C6. The reply to CLUSTER SLOTS is read exactly. For any reply a reader can
    build, the call has no undefined behaviour. It succeeds only if the entries
    of the reply are well formed, agree on the owner of every slot and leave no
    slot without one; then each of the 16384 slots points to a node of the
    array, the node has the host and port of every range that covers the slot,
    the slots of the node are within its bounds and no two nodes have the same
    address. It reports a protocol error only if the reply describes no such
    topology, a lack of room only if the addresses exceed the nodes, and a lack
    of memory only if a copy failed. *)
Theorem parse_slots_exact (copy_ok : nat -> bytes -> bool) (pool : list redis_reply_t) (p : nat) (t : reply) (s : redis_cluster_impl) :
  holds_reply pool p t -> NoDup (endpoints s) -> len (cl_nodes s) <= cl_max_nodes s ->
  wp (redis_cluster_parse_slots copy_ok pool (Some p))
    (fun _ s' => exists ranges, topology (children t) ranges /\ described ranges s' /\
       cl_max_nodes s' = cl_max_nodes s /\ cl_phase s' = cl_phase s)
    (fun e _ => refused copy_ok (children t) s e) s.
Proof. apply parse_slots_spec. Qed.

Definition set_phase (phase : redis_cluster_phase) (s : redis_cluster_impl) : redis_cluster_impl :=
  mk_cluster (cl_max_nodes s) (cl_nodes s) (cl_slots s) phase.

Lemma slot_range_ok l : 0 <= crc_xmodem l mod REDIS_CLUSTER_SLOT_COUNT < REDIS_CLUSTER_SLOT_COUNT.
Proof. by apply Z.mod_pos_bound. Qed.

(** C19. Commands are routed as the cluster says: once the topology of a reply is
    read and the cluster is ready, a command for a key is opened on the node
    whose address is that of the ranges of the reply which cover the slot of the
    hash tag of the key, and only there; so keys with one tag meet at one node. *)
Theorem cluster_routing_exact {A} (open : nat -> outcome salts_status A) (copy_ok : nat -> bytes -> bool)
    (t : reply) (s s' : redis_cluster_impl) (key tag more : bytes) :
  NoDup (endpoints s) -> len (cl_nodes s) <= cl_max_nodes s ->
  redis_cluster_parse_slots copy_ok (flatten 0 t) (Some 0%nat) s = (Ret tt, s') ->
  bytes_ok key -> key <> [] -> hash_tag key tag ->
  let ready := set_phase REDIS_CLUSTER_PHASE_READY s' in
  exists p n, redis_cluster_command_open open (Some ready) (Some (key ++ more)) (len key) = Some (open p) /\
    redis_cluster_node_for_slot (Some ready) (crc_xmodem tag mod REDIS_CLUSTER_SLOT_COUNT) = Some (Some n) /\
    cl_nodes ready !! p = Some n /\
    exists ranges, topology (children t) ranges /\
      forall r, r ∈ ranges -> covers r (crc_xmodem tag mod REDIS_CLUSTER_SLOT_COUNT) -> node_endpoint n = endpoint r.
Proof.
  intros Hd Hn Hp Hk Hne Ht ready.
  pose proof (parse_slots_spec copy_ok (flatten 0 t) 0 t s) as H. unfold wp in H. rewrite Hp in H.
  destruct H as (ranges & Htop & [_ Hslots] & _); [exists [], []; by rewrite app_nil_r|done|done|].
  set (k := crc_xmodem tag mod REDIS_CLUSTER_SLOT_COUNT). pose proof (slot_range_ok tag) as Hkr. fold k in Hkr.
  destruct (Hslots k Hkr) as (p & n & H1 & H2 & _ & H3). exists p, n. split_and!.
  - unfold redis_cluster_command_open. cbn [redis_cluster_ready ready set_phase cl_phase negb is_some orb].
    rewrite (proj2 (Z.eqb_neq _ _)) by (destruct key; [done|cbn [length]; lia]).
    rewrite (keyslot_spec key tag more Hk Ht). cbn [mbind option_bind]. fold k. cbn [ready set_phase cl_slots]. by rewrite H1.
  - unfold redis_cluster_node_for_slot. rewrite (proj2 (Z.leb_gt _ _)) by lia. cbn [ready set_phase cl_slots cl_nodes]. rewrite H1. cbn. by rewrite H2.
  - done.
  - exists ranges. done.
Qed.

(** Two nodes that share the slots: 0 to 8191 at a:7000, the others at b:7001. *)
Definition sample_topology : reply :=
  RArray [RArray [RInteger 0; RInteger 8191; RArray [RBulk [97]; RInteger 7000; RBulk [120]]];
          RArray [RInteger 8192; RInteger 16383; RArray [RBulk [98]; RInteger 7001; RNull]]].

Definition sample_cluster : redis_cluster_impl :=
  mk_cluster 2 [] (replicate (Z.to_nat REDIS_CLUSTER_SLOT_COUNT) None) REDIS_CLUSTER_PHASE_DISCOVERY.

Definition sample_ranges : list slot_range := [mk_range 0 8191 [97] 7000 (Some [120]); mk_range 8192 16383 [98] 7001 None].

Lemma sample_topology_ok : topology (children sample_topology) sample_ranges.
Proof.
  split_and!; [repeat constructor| |].
  - intros r r' k Hr Hr' Hk Hk'. unfold sample_ranges in *. rewrite !elem_of_cons, elem_of_nil in Hr, Hr'. unfold covers in *.
    destruct Hr as [->|[->|[]]], Hr' as [->|[->|[]]]; cbn in *; try done; lia.
  - intros k Hk. unfold REDIS_CLUSTER_SLOT_COUNT in Hk. unfold sample_ranges, covers. destruct (Z.leb_spec k 8191); eexists.
    + split; [apply elem_of_cons; left; reflexivity|cbn; lia].
    + split; [apply elem_of_cons; right; apply elem_of_cons; left; reflexivity|cbn; lia].
Qed.

(** Enough nodes and memory: the topology is read. *)
Lemma parse_slots_complete copy_ok t s ranges :
  NoDup (endpoints s) -> len (cl_nodes s) <= cl_max_nodes s -> topology (children t) ranges -> (forall n value, copy_ok n value = true) ->
  len (endpoints s ++ (endpoint <$> ranges)) <= cl_max_nodes s ->
  exists s', redis_cluster_parse_slots copy_ok (flatten 0 t) (Some 0%nat) s = (Ret tt, s').
Proof.
  intros Hd Hn Ht Hm Hl. pose proof (parse_slots_spec copy_ok (flatten 0 t) 0 t s) as H. unfold wp in H.
  destruct (redis_cluster_parse_slots _ _ _ s) as [[[]|e|] s']; [by exists s'| |].
  - exfalso. destruct H as [[_ H]|[[_ (ends & He & Hlen & Hin)]|[_ (n & v & H)]]]; [exists [], []; by rewrite app_nil_r|done|done|by apply H; exists ranges| |congruence].
    assert (ends ⊆+ endpoints s ++ (endpoint <$> ranges)) as Hs%submseteq_length; [|lia].
    apply NoDup_submseteq; [done|]. intros e' [He'|(t' & r & Ht' & Hr & ->)]%Hin; apply elem_of_app; [by left|right].
    apply list_elem_of_fmap_2. by apply (ranges_entry _ _ t' r (proj1 Ht)).
  - exfalso. apply H; [exists [], []; by rewrite app_nil_r|done|done].
Qed.

Lemma sample_held : holds_reply (flatten 0 sample_topology) 0 sample_topology.
Proof. exists [], []. by rewrite app_nil_r. Qed.

Lemma sample_room : len (cl_nodes sample_cluster) <= cl_max_nodes sample_cluster.
Proof. by vm_compute. Qed.

Lemma sample_complete :
  exists s', redis_cluster_parse_slots (fun _ _ => true) (flatten 0 sample_topology) (Some 0%nat) sample_cluster = (Ret tt, s').
Proof. apply (parse_slots_complete _ _ _ sample_ranges); [apply NoDup_nil_2|apply sample_room|apply sample_topology_ok|done|by vm_compute]. Qed.

Lemma parse_slots_exact_witness :
  exists s' ranges, redis_cluster_parse_slots (fun _ _ => true) (flatten 0 sample_topology) (Some 0%nat) sample_cluster = (Ret tt, s') /\
    topology (children sample_topology) ranges /\ described ranges s'.
Proof.
  destruct sample_complete as [s' Hs].
  destruct (wp_Ret _ _ _ _ _ _ (parse_slots_exact (fun _ _ => true) (flatten 0 sample_topology) 0 sample_topology sample_cluster
    sample_held NoDup_nil_2 sample_room) Hs) as (ranges & W1 & W2 & _).
  exists s', ranges. split; [exact Hs|split; [exact W1|exact W2]].
Defined.

Lemma cluster_routing_exact_witness :
  exists s' p, redis_cluster_parse_slots (fun _ _ => true) (flatten 0 sample_topology) (Some 0%nat) sample_cluster = (Ret tt, s') /\
    redis_cluster_command_open (fun p => Ret p) (Some (set_phase REDIS_CLUSTER_PHASE_READY s')) (Some ([107; 101; 121] ++ [0])) 3 = Some (Ret p).
Proof.
  destruct sample_complete as [s' Hs].
  destruct (cluster_routing_exact (fun p => Ret p) (fun _ _ => true) sample_topology sample_cluster s' [107; 101; 121] [107; 101; 121] [0])
    as (p & _ & W & _).
  - apply NoDup_nil_2.
  - exact sample_room.
  - exact Hs.
  - repeat constructor; lia.
  - done.
  - apply tag_none. repeat (apply not_elem_of_cons; split; [done|]). apply not_elem_of_nil.
  - exists s', p. split; [exact Hs|exact W].
Defined.
