(* ===== verification/Work.v ===== *)
(** * Names, fixed fields and work vectors of the SQL engine
    (tidessql/src/name.c, wire.h, schema.h, work.c)

    What the codecs of the catalog share: little endian fields, identifiers,
    borrowed table schemas, and raw vectors whose bytes are charged to the
    ledger. [transact] is the way these codecs end: an operation that fails
    destroys the object it was building before it returns. *)

From S2P Require Import Prelude Row Command Errors Budget Value IndexKey.

(** ** Little endian fields (wire.h) *)

Fixpoint wire_read_loop (n i : nat) (data : bytes) (offset value : Z) : option Z :=
  match n with
  | O => Some value
  | S n =>
      b ← ld data (offset + Z.of_nat i);
      wire_read_loop n (S i) data offset
        (Z.lor value (u64 (Z.shiftl b (Z.of_nat i * ORM_SQL_WIRE_BITS))))
  end.

(** [orm_sql_wire_read(data + offset, width)] *)
Definition orm_sql_wire_read (data : bytes) (offset : Z) (width : nat) : option Z :=
  wire_read_loop width 0 data offset 0.

Fixpoint wire_field (width : nat) (value : Z) : bytes :=
  match width with
  | O => []
  | S width => u8 value :: wire_field width (Z.shiftr value ORM_SQL_WIRE_BITS)
  end.

(** [orm_sql_wire_write(data + offset, width, value)] *)
Definition orm_sql_wire_write (data : bytes) (offset : Z) (width : nat) (value : Z) : option bytes :=
  stn data offset (wire_field width value).

(** ** Schemas (schema.h) *)

Definition ORM_SQL_SELECT_NAME_BYTES : Z := 63.

Record orm_sql_schema_column : Type := mk_column {
  sc_name : vstr;
  sc_type : orm_sql_type;
  sc_qualifier : vstr;
  sc_lexical_depth : Z;
  sc_capture_used : ptr bool;
  sc_qualified_only : bool;
  sc_star_order : Z
}.

Record orm_sql_column_default : Type := mk_default {
  cd_value : turbodb_value_t;
  cd_specified : bool
}.

Record orm_sql_table_schema : Type := mk_schema {
  ts_name : vstr;
  ts_columns : ptr (list orm_sql_schema_column);
  ts_count : Z;
  ts_defaults : ptr (list orm_sql_column_default)
}.

(** ** Names (name.c) *)

Definition name_start (c : Z) : bool :=
  ((97 <=? c) && (c <=? 122)) || ((65 <=? c) && (c <=? 90)) || (c =? 95).

Definition name_digit (c : Z) : bool := (48 <=? c) && (c <=? 57).

Definition name_rest (c : Z) : bool := name_start c || name_digit c.

(** [text.data[i]] *)
Definition vstr_at (text : vstr) (i : Z) : option Z :=
  data ← vs_data text;
  ld data i.

Section Names.
Context {S : Type}.

Fixpoint name_validate_loop (n : nat) (name : vstr) (i : Z) : M turbodb_failure S unit :=
  match n with
  | O => mret tt
  | Datatypes.S n =>
      c ← access (vstr_at name i);
      raise_if (negb (name_start c) && negb (name_digit c)) TURBODB_STATUS_UNSUPPORTED
        "expected an ASCII identifier";;
      name_validate_loop n name (i + 1)
  end.

Definition orm_sql_name_validate (name : vstr) : M turbodb_failure S unit :=
  raise_if (ORM_SQL_SELECT_NAME_BYTES <? vs_len name) TURBODB_STATUS_LIMIT_EXCEEDED
    "identifier exceeds name capacity";;
  raise_if (negb (is_some (vs_data name)) || (vs_len name =? 0)) TURBODB_STATUS_UNSUPPORTED
    "expected an ASCII identifier";;
  c ← access (vstr_at name 0);
  raise_if (negb (name_start c)) TURBODB_STATUS_UNSUPPORTED "expected an ASCII identifier";;
  name_validate_loop (Z.to_nat (vs_len name - 1)) name 1.
End Names.

(** The state of a scanner is [*text]; [++text->data; --text->len]. *)
Definition advance (n : Z) (text : vstr) : vstr :=
  mk_vstr (drop (Z.to_nat n) <$> vs_data text) (size_sub (vs_len text) n).

Definition name_blank (c : Z) : bool :=
  (c =? 32) || (c =? 9) || (c =? 10) || (c =? 13) || (c =? 12).

(** At most [text->len] rounds. *)
Fixpoint name_space_loop (fuel : nat) (text : vstr) : option vstr :=
  match fuel with
  | O => Some text
  | S fuel =>
      if vs_len text =? 0 then Some text
      else c ← vstr_at text 0;
        if name_blank c then name_space_loop fuel (advance 1 text) else Some text
  end.

Definition orm_sql_name_space (text : vstr) : option vstr := name_space_loop (Z.to_nat (vs_len text)) text.

(** The bytes of the name at the start of [text]; [None] inside when there are
    more than a name may have. *)
Fixpoint name_count (fuel : nat) (text : vstr) (count : Z) : option (option Z) :=
  match fuel with
  | O => Some (Some count)
  | S fuel =>
      if count <? vs_len text then
        c ← vstr_at text count;
        if name_rest c then
          if count =? ORM_SQL_SELECT_NAME_BYTES then Some None else name_count fuel text (count + 1)
        else Some (Some count)
      else Some (Some count)
  end.

(** The state is [*text] and [*out]. *)
Definition name_scan (f : vstr -> option vstr) : M turbodb_failure (vstr * vstr) unit :=
  text ← gets fst;
  text ← access (f text);
  modify (fun s => (text, s.2)).

(** [text->len && text->data[0] == '`'] *)
Definition name_quote (text : vstr) : option bool :=
  if vs_len text =? 0 then Some false else c ← vstr_at text 0; Some (c =? 96).

Definition orm_sql_name_part : M turbodb_failure (vstr * vstr) unit :=
  name_scan orm_sql_name_space;;
  text ← gets fst;
  quoted ← access (name_quote text);
  when quoted (modify (fun s => (advance 1 s.1, s.2)));;
  text ← gets fst;
  count ← access (name_count (Z.to_nat (ORM_SQL_SELECT_NAME_BYTES + 1)) text 0);
  match count with
  | None => raise TURBODB_STATUS_LIMIT_EXCEEDED "identifier exceeds name capacity"
  | Some count =>
      modify (fun s => (s.1, mk_vstr (vs_data text) count));;
      orm_sql_name_validate (mk_vstr (vs_data text) count);;
      modify (fun s => (advance count s.1, s.2));;
      when quoted (
        text ← gets fst;
        closed ← access (name_quote text);
        raise_if (negb closed) TURBODB_STATUS_UNSUPPORTED "unsupported quoted identifier";;
        modify (fun s => (advance 1 s.1, s.2)));;
      name_scan orm_sql_name_space
  end.

(** ** Operations that own an object

    The state is the ledger and the object. *)

Definition W (T : Type) : Type -> Type := M turbodb_failure (ptr orm_tidesdb_sql_budget * T).

Section Owning.
Context {T : Type}.

Definition on_ledger {A} (m : B A) : W T A := fun s =>
  let '(r, l) := m s.1 in (r, (l, s.2)).

Definition owned (f : T -> T) : W T unit := modify (fun s => (s.1, f s.2)).

(** An operation on a member of the object. *)
Definition on_member {U A} (get : T -> U) (put : U -> T -> T) (m : W U A) : W T A := fun s =>
  let '(r, (l, u)) := m (s.1, get s.2) in (r, (l, put u s.2)).

(** Whether a call returned OK. *)
Definition attempt {S A} (m : M turbodb_failure S A) : M turbodb_failure S bool := fun s =>
  match m s with
  | (Ret _, s) => (Ret true, s)
  | (Err _, s) => (Ret false, s)
  | (Fault, s) => (Fault, s)
  end.

(** [released = destroy(&object, NULL); return released == OK ? status : released;]
    after a failure of [body], whose message is the one that was written. *)
Definition transact {A} (object : T) (body : W T A) (destroy : T -> B unit) : B (A * T) := fun l =>
  match body (l, object) with
  | (Ret a, (l, t)) => (Ret (a, t), l)
  | (Err f, (l, t)) =>
      match destroy t l with
      | (Ret _, l) => (Err f, l)
      | (Err g, l) => (Err (mk_failure (f_status g) (f_reason f)), l)
      | (Fault, l) => (Fault, l)
      end
  | (Fault, (l, _)) => (Fault, l)
  end.
End Owning.

(** ** Work vectors (work.c) *)

Inductive stl_status : Type :=
| STL_OK
| STL_OUT_OF_MEMORY
| STL_CAPACITY_EXCEEDED
| STL_OTHER.

#[global] Instance stl_status_eq_dec : EqDecision stl_status.
Proof. solve_decision. Defined.

(** The vectors of the runtime, as far as the engine sees them: what the calls
    return for an element size, an alignment and a number of elements. *)
Class vec_library : Type := {
  vec_init_bytes : Z -> Z -> Z -> stl_status;
  vec_reserve : Z -> Z -> Z -> stl_status;
  vec_resize : Z -> Z -> Z -> stl_status
}.

Definition sizeof_pointer : Z := 8.

(** A vector, [None] before its initialization, and the bytes reserved for it:
    what the arguments [vector] and [reserved] point to, which are members of
    one object wherever the operations are called. *)
Record work (A : Type) : Type := mk_work { wk_vector : option (list A); wk_reserved : Z }.
Arguments mk_work {A} _ _.
Arguments wk_vector {A} _.
Arguments wk_reserved {A} _.

Definition work_status (s : stl_status) : turbodb_status_t :=
  match s with
  | STL_OUT_OF_MEMORY => TURBODB_STATUS_OUT_OF_MEMORY
  | STL_CAPACITY_EXCEEDED => TURBODB_STATUS_LIMIT_EXCEEDED
  | _ => TURBODB_STATUS_INTERNAL_ERROR
  end.

Section Vectors.
Context `{vec_library} {A : Type}.

Definition set_vector (v : list A) (w : work A) : work A := mk_work (Some v) (wk_reserved w).

(** [if (s != STL_OK) { ... return status; }] *)
Definition work_check (s : stl_status) (reason : string) : W (work A) unit :=
  raise_if (negb (bool_decide (s = STL_OK))) (work_status s) reason.

Definition orm_sql_work_allocate (count size align metadata : Z) : W (work A) unit :=
  w ← gets snd;
  budget ← gets (fun s => is_some s.1);
  raise_if (is_some (wk_vector w) || negb (wk_reserved w =? 0) || negb budget || (size =? 0) || (align =? 0) ||
      negb (Z.land align (size_sub align 1) =? 0) || negb (size mod align =? 0))
    TURBODB_STATUS_INVALID_ARGUMENT "invalid SQL work vector";;
  raise_if ((size_sub SIZE_MAX sizeof_pointer <? size_sub align 1) ||
      (size_sub SIZE_MAX (u64 (sizeof_pointer + size_sub align 1)) <? metadata))
    TURBODB_STATUS_LIMIT_EXCEEDED "SQL work metadata overflow";;
  bytes ← on_ledger (orm_tidesdb_sql_budget_reserve_capacity count size
    (u64 (metadata + sizeof_pointer + size_sub align 1)) true);
  owned (fun w => mk_work (wk_vector w) bytes);;
  work_check (vec_init_bytes size align count) "SQL work vector allocation failed";;
  owned (set_vector []);;
  work_check (vec_reserve size align count) "SQL work vector allocation failed".

Definition orm_sql_work_zero (zero : A) (count size align : Z) : W (work A) unit :=
  if count =? 0 then mret tt
  else
    orm_sql_work_allocate count size align 0;;
    work_check (vec_resize size align count) "SQL work vector resize failed";;
    owned (set_vector (replicate (Z.to_nat count) zero)).
End Vectors.

(** The vector is gone in every case. *)
Definition orm_sql_work_release (reserved : Z) : B unit :=
  when (negb (reserved =? 0)) (orm_tidesdb_sql_budget_release ORM_SQL_BUDGET_WORK_BYTES reserved).

(** How the encoders of the catalog get the vector they write to: the steps
    are charged, the bytes allocated, and a failure releases them. *)
Definition work_bytes `{vec_library} (size : Z) : B (unit * work Z) :=
  transact (mk_work None 0)
    (on_ledger (orm_tidesdb_sql_budget_reserve (Some (amount_of ORM_SQL_BUDGET_EXECUTION_STEPS size)));;
     orm_sql_work_zero 0 size 1 1)
    (fun w => orm_sql_work_release (wk_reserved w)).

(** ** Sorting (work.c)

    The size and the alignment of an element type. *)

Record cmeta_type_desc : Type := mk_desc { td_size : Z; td_align : Z }.

(** The comparisons of a merge sort are charged level by level. At most 64
    levels, since the width is halved. *)
Fixpoint sort_charge (fuel : nat) (width amount : Z) : B unit :=
  match fuel with
  | O => mret tt
  | S fuel =>
      if 1 <? width then
        orm_tidesdb_sql_budget_reserve (Some (amount_of ORM_SQL_BUDGET_EXECUTION_STEPS amount));;
        sort_charge fuel (u64 (width / 2 + width mod 2)) amount
      else mret tt
  end.

Section Sorting.
(** The sort of the runtime: its status and the elements it leaves. *)
Context {A : Type} (stable_sort : list A -> stl_status * list A).

(** The state is the ledger and the elements; [count] is their number. *)
Definition orm_sql_work_sort (type : ptr cmeta_type_desc) (comparison_steps : Z) : W (list A) unit :=
  match type with
  | None => raise TURBODB_STATUS_INVALID_ARGUMENT "invalid SQL ordering descriptor"
  | Some type =>
      raise_if ((td_size type =? 0) || (td_align type =? 0) ||
          negb (Z.land (td_align type) (size_sub (td_align type) 1) =? 0) || negb (td_size type mod td_align type =? 0) ||
          (comparison_steps =? 0)) TURBODB_STATUS_INVALID_ARGUMENT "invalid SQL ordering descriptor";;
      base ← gets snd;
      let count := len base in
      if count <? 2 then mret tt
      else
        raise_if ((UINT64_MAX / comparison_steps <? count) ||
            (size_sub SIZE_MAX sizeof_pointer <? size_sub (td_align type) 1))
          TURBODB_STATUS_LIMIT_EXCEEDED "SQL ordering capacity overflow";;
        on_ledger (sort_charge 64 count (u64 (count * comparison_steps)));;
        bytes ← on_ledger (orm_tidesdb_sql_budget_reserve_capacity count (td_size type)
          (u64 (sizeof_pointer + size_sub (td_align type) 1)) true);
        owned (fun _ => snd (stable_sort base));;
        let sorted := fst (stable_sort base) in
        if bool_decide (sorted = STL_OK)
        then on_ledger (orm_tidesdb_sql_budget_release ORM_SQL_BUDGET_WORK_BYTES bytes)
        else
          on_ledger (attempt (orm_tidesdb_sql_budget_release ORM_SQL_BUDGET_WORK_BYTES bytes));;
          raise (work_status sorted) "SQL ordering failed"
  end.

(** The descriptor of [uint64_t]. *)
Definition cmeta_type_uint64 : cmeta_type_desc := mk_desc 8 8.

Definition orm_sql_work_sort_u64 : W (list A) unit := orm_sql_work_sort (Some cmeta_type_uint64) 1.
End Sorting.

(** ** Fields *)

Lemma wire_field_le n v : wire_field n v = le_bytes n v.
Proof.
  revert v. induction n as [|n IH]; intros v; [done|]. unfold le_bytes; fold le_bytes. cbn [wire_field].
  rewrite IH. f_equal. f_equal. unfold ORM_SQL_WIRE_BITS. by rewrite Z.shiftr_div_pow2.
Qed.

Lemma wire_read_loop_spec n i data offset value x :
  (n + i <= 8)%nat -> bytes_ok data -> 0 <= value < 2 ^ (8 * Z.of_nat i) ->
  ldn data (offset + Z.of_nat i) (Z.of_nat n) = Some x ->
  wire_read_loop n i data offset value = Some (value + 2 ^ (8 * Z.of_nat i) * le_val x).
Proof.
  revert i value x. induction n as [|n IH]; intros i value x Hn Hd Hv Hx.
  - pose proof (ldn_length _ _ _ _ Hx). destruct x; [|done]. cbn. f_equal. lia.
  - cbn [wire_read_loop]. unfold ldn in Hx. destruct (_ && _) eqn:E; [|done]. injection Hx as <-. bsimp.
    destruct (ld_is_Some data (offset + Z.of_nat i)) as [b Hb]; [lia|]. pose proof (ld_byte _ _ _ Hd Hb) as Hbb.
    rewrite Hb. cbn [mbind option_bind]. unfold ld in Hb. destruct (_ <? 0); [done|].
    rewrite (drop_S _ b) by done. rewrite Nat2Z.id. cbn [firstn take le_val].
    assert (2 ^ (8 * Z.of_nat (S i)) = 256 * 2 ^ (8 * Z.of_nat i)) as Ep
      by (replace (8 * Z.of_nat (S i)) with (8 + 8 * Z.of_nat i) by lia; by rewrite Z.pow_add_r by lia).
    assert (0 < 2 ^ (8 * Z.of_nat i)) by lia.
    assert (2 ^ (8 * Z.of_nat (S i)) <= 2 ^ 64) by (apply Z.pow_le_mono_r; lia).
    replace (Z.of_nat i * ORM_SQL_WIRE_BITS) with (8 * Z.of_nat i) by (unfold ORM_SQL_WIRE_BITS; lia).
    rewrite u64_small by (rewrite Z.shiftl_mul_pow2 by lia; nia).
    rewrite lor_shiftl_add by lia.
    rewrite (IH _ _ (take n (drop (S (Z.to_nat (offset + Z.of_nat i))) data))); [|lia|done|nia|].
    + f_equal. rewrite Ep. lia.
    + rewrite ldn_Some, Nat2Z.id by lia.
      by replace (Z.to_nat (offset + Z.of_nat (S i))) with (S (Z.to_nat (offset + Z.of_nat i))) by lia.
Qed.

Lemma wire_read_spec data offset width x :
  (width <= 8)%nat -> bytes_ok data -> ldn data offset (Z.of_nat width) = Some x ->
  orm_sql_wire_read data offset width = Some (le_val x).
Proof.
  intros Hw Hd Hx. unfold orm_sql_wire_read.
  erewrite wire_read_loop_spec; [|lia|done|done|by rewrite Z.add_0_r]. f_equal. lia.
Qed.

Lemma wire_read_mid data pre x post n off :
  bytes_ok data -> data = pre ++ x ++ post -> off = len pre -> length x = n -> (n <= 8)%nat ->
  orm_sql_wire_read data off n = Some (le_val x).
Proof.
  intros Hd Ed -> Hx Hn. apply wire_read_spec; [done..|]. rewrite ldn_Some by (rewrite ?Ed, ?length_app; lia).
  by rewrite Ed, !Nat2Z.id, drop_app_length, <- Hx, take_app_length.
Qed.

Lemma cut_bytes n (l : bytes) : (n <= length l)%nat -> exists x y, l = x ++ y /\ length x = n.
Proof. intros. exists (take n l), (drop n l). rewrite take_drop, length_take. split; [done|lia]. Qed.

Lemma le_bytes_inj n x y : 0 <= x < 2 ^ (8 * Z.of_nat n) -> 0 <= y < 2 ^ (8 * Z.of_nat n) -> le_bytes n x = le_bytes n y -> x = y.
Proof. intros Hx Hy E%(f_equal le_val). rewrite !le_val_bytes, !Z.mod_small in E by done. done. Qed.

Lemma land_lnot_ones z n : 0 <= n -> 0 <= z -> Z.land z (Z.lnot (Z.ones n)) = 0 <-> z < 2 ^ n.
Proof.
  intros Hn Hz. rewrite <- Z.ldiff_land, Z.ldiff_ones_r, Z.shiftl_mul_pow2, Z.shiftr_div_pow2 by lia.
  assert (0 < 2 ^ n) by lia. split; intros E.
  - assert (z / 2 ^ n = 0) as Ez by nia. apply Z.div_small_iff in Ez; lia.
  - by rewrite Z.div_small by lia.
Qed.

(** ** Writing a buffer *)

(** A zeroed buffer whose first bytes are written. *)
Definition written (pre : bytes) (k : nat) : bytes := pre ++ replicate k 0.

Lemma written_stn pre k off l :
  off = len pre -> (length l <= k)%nat -> stn (written pre k) off l = Some (written (pre ++ l) (k - length l)).
Proof.
  intros -> Hk. unfold written. rewrite stn_Some by (rewrite ?length_app, ?length_replicate; lia).
  rewrite splice_after by (rewrite length_replicate; lia). by rewrite drop_replicate, <- app_assoc.
Qed.

Lemma stn_one d i c : stn d i [c] = st d i c.
Proof.
  unfold stn, st. cbn [length]. destruct (Z.leb_spec 0 i); cbn [andb]; [|done].
  destruct (Z.leb_spec (i + Z.of_nat 1) (len d)), (Z.ltb_spec i (len d)); try lia; [|done].
  f_equal. unfold splice. rewrite insert_take_drop by lia. cbn. by replace (Z.to_nat i + 1)%nat with (S (Z.to_nat i)) by lia.
Qed.

Lemma written_st pre k off c :
  off = len pre -> (1 <= k)%nat -> st (written pre k) off c = Some (written (pre ++ [c]) (k - 1)).
Proof. intros. rewrite <- stn_one. by apply written_stn. Qed.

Lemma written_wire pre k off n v :
  off = len pre -> (n <= k)%nat -> orm_sql_wire_write (written pre k) off n v = Some (written (pre ++ le_bytes n v) (k - n)).
Proof.
  intros. unfold orm_sql_wire_write. rewrite wire_field_le, written_stn by (rewrite ?length_le_bytes; done).
  by rewrite length_le_bytes.
Qed.

(** ** Identifiers *)

(** What the engine accepts as the name of a table, a column or an index. *)
Definition identifier (name : bytes) : bool :=
  (len name <=? ORM_SQL_SELECT_NAME_BYTES) &&
  match name with
  | [] => false
  | c :: name => name_start c && forallb name_rest name
  end.

Definition name_status (f : turbodb_failure) : Prop :=
  f_status f = TURBODB_STATUS_LIMIT_EXCEEDED \/ f_status f = TURBODB_STATUS_UNSUPPORTED.

Lemma name_validate_loop_spec {S} name l junk i (s : S) :
  0 <= i <= len l -> vs_data name = Some (l ++ junk) ->
  wp (name_validate_loop (Z.to_nat (len l - i)) name i)
    (fun _ s' => s' = s /\ forallb name_rest (drop (Z.to_nat i) l) = true)
    (fun f s' => s' = s /\ forallb name_rest (drop (Z.to_nat i) l) = false /\ name_status f) s.
Proof.
  intros Hi Hl. remember (Z.to_nat (len l - i)) as n eqn:En. revert i Hi En.
  induction n as [|n IH]; intros i Hi En.
  - cbn. by rewrite drop_ge by lia.
  - cbn [name_validate_loop]. tdb_step. unfold vstr_at. rewrite Hl. cbn [mbind option_bind].
    rewrite ld_app_l by lia. apply wp_access; [apply ld_is_Some; lia|]. intros c Hc.
    unfold ld in Hc. destruct (_ <? 0); [done|]. rewrite (drop_S _ c) by done. cbn [forallb].
    tdb_step. tdb_step; unfold name_rest; destruct (name_start c), (name_digit c); try done; cbn [orb andb];
      try (split_and!; [done..|by right]);
      (replace (Datatypes.S (Z.to_nat i)) with (Z.to_nat (i + 1)) by lia; apply IH; lia).
Qed.

(** The bytes after the name are not read. *)
Lemma name_validate_spec {S} l junk (s : S) :
  wp (orm_sql_name_validate (mk_vstr (Some (l ++ junk)) (len l)))
    (fun _ s' => s' = s /\ identifier l = true)
    (fun f s' => s' = s /\ identifier l = false /\ name_status f) s.
Proof.
  unfold orm_sql_name_validate, identifier. cbn [vs_data vs_len is_some negb orb].
  tdb_step. tdb_step; [split_and!; [done|apply andb_false_intro1, Z.leb_gt; blia|by left]|]. bsimp.
  tdb_step. tdb_step; [destruct l; [split_and!; [done|by rewrite andb_false_r|by right]|cbn [length] in *; blia]|].
  destruct l as [|c l]; [done|]. tdb_step. apply wp_access; [done|]. intros c' [= <-].
  rewrite (proj2 (Z.leb_le _ _)) by lia. cbn [andb].
  tdb_step. tdb_step; destruct (name_start c); try done; [split_and!; [done..|by right]|]. cbn [andb].
  apply (name_validate_loop_spec (mk_vstr (Some ((c :: l) ++ junk)) _) (c :: l) junk 1); [cbn [length]; lia|done].
Qed.

Lemma attempt_wp {S A} (m : M turbodb_failure S A) (Q : bool -> S -> Prop) R s :
  wp m (fun _ => Q true) (fun _ => Q false) s -> wp (attempt m) Q R s.
Proof. unfold wp, attempt. by destruct (m s) as [[] ?]. Qed.

Lemma name_attempt_app {S} l junk (Q : bool -> S -> Prop) R s :
  Q (identifier l) s -> wp (attempt (orm_sql_name_validate (mk_vstr (Some (l ++ junk)) (len l)))) Q R s.
Proof.
  intros HQ. apply attempt_wp. eapply wp_mono; [apply name_validate_spec| |]; [by intros ? ? [-> <-]|by intros ? ? (-> & <- & _)].
Qed.

Lemma name_attempt_spec {S} l (Q : bool -> S -> Prop) R s :
  Q (identifier l) s -> wp (attempt (orm_sql_name_validate (mk_vstr (Some l) (len l)))) Q R s.
Proof. rewrite <- (app_nil_r l) at 2. apply name_attempt_app. Qed.

Lemma identifier_size l : identifier l = true -> 0 < len l <= ORM_SQL_SELECT_NAME_BYTES.
Proof. unfold identifier. intros. bsimp. destruct l; [done|]. cbn [length] in *. lia. Qed.

Lemma identifier_bytes l : identifier l = true -> bytes_ok l.
Proof.
  unfold identifier. intros. bsimp. destruct l as [|c l]; [done|]. bsimp.
  assert (forall c, name_rest c = true -> 0 <= c < 256) as Hr.
  { clear. intros c. unfold name_rest, name_start, name_digit. intros.
    repeat (bsimp; match goal with H : _ \/ _ |- _ => destruct H end); bsimp; lia. }
  constructor; [apply Hr; unfold name_rest; by match goal with H : name_start _ = _ |- _ => rewrite H end|].
  apply Forall_forall. intros x Hx%list_elem_of_In. apply Hr.
  by eapply forallb_forall in Hx; [|done].
Qed.

(** ** Scanning a name

    A reference parser on the text: white space, an identifier that may stand
    in backquotes, white space. *)

Definition view (d : bytes) : vstr := mk_vstr (Some d) (len d).

Fixpoint skip_blanks (d : bytes) : bytes :=
  match d with
  | c :: d' => if name_blank c then skip_blanks d' else d
  | [] => []
  end.

Fixpoint span_name (d : bytes) : bytes * bytes :=
  match d with
  | c :: d' => if name_rest c then (c :: (span_name d').1, (span_name d').2) else ([], d)
  | [] => ([], [])
  end.

Definition name_end (quoted : bool) (rest : bytes) : option bytes :=
  if quoted then match rest with 96 :: rest => Some (skip_blanks rest) | _ => None end
  else Some (skip_blanks rest).

(** The identifier and the text after it. *)
Definition parse_name (d : bytes) : option (bytes * bytes) :=
  let d := skip_blanks d in
  let '(quoted, d) := match d with 96 :: d => (true, d) | _ => (false, d) end in
  let '(name, rest) := span_name d in
  if identifier name then rest ← name_end quoted rest; Some (name, rest) else None.

Lemma view_advance c d : word (len (c :: d)) -> advance 1 (view (c :: d)) = view d.
Proof.
  unfold word, advance, view. cbn [vs_data vs_len fmap option_fmap option_map length]. intros Hw.
  rewrite size_sub_small by lia. f_equal. lia.
Qed.

Lemma view_advance_app a d : word (len (a ++ d)) -> advance (len a) (view (a ++ d)) = view d.
Proof.
  unfold word, advance, view. rewrite length_app. cbn [vs_data vs_len fmap option_fmap option_map]. intros Hw.
  rewrite size_sub_small, Nat2Z.id, drop_app_length by lia. f_equal. lia.
Qed.

Lemma skip_blanks_length d : (length (skip_blanks d) <= length d)%nat.
Proof. induction d as [|c d IH]; cbn; [done|]. case_match; cbn; lia. Qed.

Lemma view_head c d : vstr_at (view (c :: d)) 0 = Some c.
Proof. done. Qed.

Lemma name_space_spec d : word (len d) -> orm_sql_name_space (view d) = Some (view (skip_blanks d)).
Proof.
  unfold orm_sql_name_space. change (vs_len (view d)) with (len d). rewrite Nat2Z.id.
  induction d as [|c d IH]; intros Hw; [done|]. cbn [name_space_loop length].
  change (vs_len (view (c :: d))) with (Z.of_nat (S (length d))).
  rewrite (proj2 (Z.eqb_neq _ 0)), view_head by lia. cbn [mbind option_bind skip_blanks].
  destruct (name_blank c); [|done]. rewrite view_advance by done. apply IH. unfold word in *. cbn [length] in Hw. lia.
Qed.

Lemma span_name_app d : (span_name d).1 ++ (span_name d).2 = d.
Proof. induction d as [|c d IH]; cbn; [done|]. case_match; cbn; by rewrite ?IH. Qed.

Lemma span_name_rest d : forallb name_rest (span_name d).1 = true.
Proof. induction d as [|c d IH]; cbn; [done|]. destruct (name_rest c) eqn:E; cbn; by rewrite ?E. Qed.

(** The loop over the bytes of a name stops at the end of the identifier or
    after the capacity of a name. *)
Lemma name_count_spec fuel a d :
  (length a + fuel = 64)%nat ->
  name_count fuel (view (a ++ d)) (len a) =
    Some (if len (a ++ (span_name d).1) <=? ORM_SQL_SELECT_NAME_BYTES then Some (len (a ++ (span_name d).1)) else None) \/ fuel = O.
Proof.
  revert a d. induction fuel as [|fuel IH]; intros a d Hf; [by right|]. left. cbn [name_count].
  unfold view at 1. cbn [vs_len]. rewrite length_app.
  destruct d as [|c d]; cbn [span_name fst].
  - rewrite app_nil_r, (proj2 (Z.ltb_ge _ _)) by (cbn [length]; lia).
    rewrite (proj2 (Z.leb_le _ _)) by (unfold ORM_SQL_SELECT_NAME_BYTES; lia). done.
  - rewrite (proj2 (Z.ltb_lt _ _)) by (cbn [length]; lia).
    assert (vstr_at (view (a ++ c :: d)) (len a) = Some c) as ->
      by (unfold vstr_at, ld; cbn; case_match; [blia|]; by rewrite Nat2Z.id, list_lookup_middle).
    cbn [mbind option_bind]. destruct (name_rest c); cbn [fst].
    2:{ rewrite app_nil_r, (proj2 (Z.leb_le _ _)) by (unfold ORM_SQL_SELECT_NAME_BYTES; lia). done. }
    destruct (Z.eqb_spec (len a) ORM_SQL_SELECT_NAME_BYTES) as [E|E].
    + rewrite (proj2 (Z.leb_gt _ _)); [done|]. rewrite length_app. cbn [length]. lia.
    + specialize (IH (a ++ [c]) d). rewrite <- !app_assoc in IH. cbn [app] in IH.
      destruct IH as [IH|IH]; [rewrite length_app; cbn [length]; lia| |].
      * rewrite <- IH. f_equal. rewrite length_app. cbn [length]. lia.
      * unfold ORM_SQL_SELECT_NAME_BYTES in E. lia.
Qed.

Lemma name_quote_spec d :
  name_quote (view d) = Some match d with c :: _ => c =? 96 | [] => false end.
Proof.
  unfold name_quote. destruct d as [|c d]; [done|]. unfold view at 1. cbn [vs_len length].
  by rewrite (proj2 (Z.eqb_neq _ 0)) by lia.
Qed.

Lemma name_close_spec (quoted : bool) rest out (Q : unit -> vstr * vstr -> Prop) R :
  word (len rest) -> (forall r, name_end quoted rest = Some r -> Q tt (view r, out)) ->
  (forall f, name_end quoted rest = None -> f_status f = TURBODB_STATUS_UNSUPPORTED -> R f (view rest, out)) ->
  wp (when quoted (
        text ← gets fst;
        closed ← access (name_quote text);
        raise_if (negb closed) TURBODB_STATUS_UNSUPPORTED "unsupported quoted identifier";;
        modify (fun s => (advance 1 s.1, s.2)));;
      name_scan orm_sql_name_space) Q R (view rest, out).
Proof.
  intros Hw HQ HR. assert (forall r, (length r <= length rest)%nat -> name_end quoted rest = Some (skip_blanks r) ->
    wp (name_scan orm_sql_name_space) Q R (view r, out)) as Hend.
  { intros r Hr He. unfold name_scan. do 3 tdb_step. cbn [fst]. rewrite name_space_spec by (unfold word in *; lia).
    apply wp_access; [done|]. intros ? [= <-]. tdb_step. by apply HQ. }
  tdb_step. unfold name_end in *. tdb_step; subst quoted; [|by apply Hend].
  do 3 tdb_step. cbn [fst]. rewrite name_quote_spec. apply wp_access; [done|]. intros ? [= <-].
  do 2 tdb_step; bsimp; destruct rest as [|c rest]; try done.
  - by apply HR.
  - apply HR; [|done]. by repeat case_match.
  - bsimp. subst c. tdb_step. cbn [fst snd]. rewrite view_advance by done. apply Hend; [cbn; lia|done].
Qed.

Lemma name_part_spec d out0 :
  word (len d) ->
  wp orm_sql_name_part
    (fun _ s => exists name rest, parse_name d = Some (name, rest) /\ s.1 = view rest /\
      exists junk, s.2 = mk_vstr (Some (name ++ junk)) (len name))
    (fun f _ => parse_name d = None /\ name_status f) (view d, out0).
Proof.
  intros Hw. unfold orm_sql_name_part. tdb_step. unfold name_scan at 1. do 3 tdb_step. cbn [fst].
  rewrite name_space_spec by done. apply wp_access; [done|]. intros ? [= <-]. tdb_step. do 3 tdb_step. cbn [fst snd].
  rewrite name_quote_spec. apply wp_access; [done|]. intros ? [= <-]. pose proof (skip_blanks_length d) as Hl.
  unfold parse_name. remember (skip_blanks d) as t eqn:Et. clear Et.
  set (quoted := match t with c :: _ => c =? 96 | [] => false end).
  set (body := if quoted then drop 1 t else t).
  replace (match t with 96 :: d => (true, d) | _ => (false, t) end) with (quoted, body)
    by (subst quoted body; destruct t as [|c t]; [done|]; destruct (Z.eqb_spec c 96) as [->|Hc]; [done|]; by repeat case_match).
  assert (word (len body)) as Hb by (unfold word, body in *; case_match; rewrite ?length_drop; lia).
  tdb_step. apply (wp_mono _ (fun _ s => s = (view body, out0)) _ (fun _ _ => False)); [|intros [] s ->|done].
  { tdb_step; subst body quoted; rewrite H; [|done]. destruct t as [|c t]; [done|]. tdb_step. cbn [fst snd].
    rewrite view_advance; [done|]. unfold word in *. lia. }
  destruct (name_count_spec 64 [] body eq_refl) as [Ec|Ec]; [|done]. cbn [app length] in Ec.
  do 3 tdb_step. cbn [fst]. change (Z.to_nat (ORM_SQL_SELECT_NAME_BYTES + 1)) with 64%nat.
  change (Z.of_nat 0) with 0 in Ec. rewrite Ec. clear Ec. apply wp_access; [done|]. intros ? [= <-].
  destruct (span_name body) as [name rest] eqn:Es. pose proof (span_name_app body) as Ea. rewrite Es in Ea. cbn [fst snd] in *.
  destruct (Z.leb_spec (len name) ORM_SQL_SELECT_NAME_BYTES) as [Hn|Hn].
  2:{ tdb_step. split; [|by left]. destruct (identifier name) eqn:Hi; [|done]. apply identifier_size in Hi. lia. }
  do 3 tdb_step. rewrite <- Ea. change (vs_data (view (name ++ rest))) with (Some (name ++ rest)).
  eapply wp_mono; [apply name_validate_spec| |].
  2:{ intros f s (-> & Hi & Hf). by rewrite Hi. }
  intros [] s [-> Hi]. rewrite Hi. do 2 tdb_step. cbn [fst snd]. rewrite view_advance_app by (by rewrite Ea).
  apply name_close_spec.
  - rewrite <- Ea, length_app in Hb. unfold word in *. lia.
  - intros r Hr. rewrite Hr. cbn. exists name, r. split_and!; [done..|by eexists].
  - intros f Hr Hf. rewrite Hr. split; [done|by right].
Qed.

(** ** What a statement owns

    The ledger [b] with [w] work bytes more in use; the counters that no
    operation gives back may have grown. *)

Definition settled (b : orm_tidesdb_sql_budget) (w : Z) (l : ptr orm_tidesdb_sql_budget) : Prop :=
  exists b', l = Some b' /\ ledger_ok b' /\ statement_active b' = true /\ limits b' = limits b /\
    retained_work_bytes b' = retained_work_bytes b /\ retained_work_bytes b <= amount_at (used b) ORM_SQL_BUDGET_WORK_BYTES /\
    amount_at (used b') ORM_SQL_BUDGET_WORK_BYTES = amount_at (used b) ORM_SQL_BUDGET_WORK_BYTES + w.

Lemma settled_start b : ledger_ok b -> statement_active b = true -> settled b 0 (Some b).
Proof. intros Hb Ha. exists b. pose proof (ok_retained b Hb). split_and!; try done; lia. Qed.

Lemma settled_some b w l : settled b w l -> is_some l = true.
Proof. by intros (? & -> & _). Qed.

Lemma settled_charged b w n l' b' b1 :
  settled b w (Some b1) -> charged b1 (amount_of ORM_SQL_BUDGET_WORK_BYTES n) b' -> ledger_ok b' ->
  l' = Some b' -> settled b (w + n) l'.
Proof.
  intros (? & [= <-] & Hb & Ha & El & Er & Hr & Ew) Hch Hok ->. exists b'.
  rewrite (ch_limits _ _ _ Hch), (ch_retained _ _ _ Hch), (ch_active _ _ _ Hch), (ch_used _ _ _ Hch), amount_of_at
    by apply work_lt.
  rewrite Nat.eqb_refl. split_and!; try done. lia.
Qed.

(** A charge of a resource that is not given back. *)
Lemma charge_settled b w l r n :
  settled b w l -> (r < COUNT)%nat -> r <> ORM_SQL_BUDGET_WORK_BYTES -> word n ->
  wp (orm_tidesdb_sql_budget_reserve (Some (amount_of r n))) (fun _ => settled b w)
    (fun f l' => settled b w l' /\ f_status f = TURBODB_STATUS_LIMIT_EXCEEDED) l.
Proof.
  intros (b1 & -> & Hb & Ha & El & Er & Hr & Ew) Hlt Hne Hn. assert (amount_ok (amount_of r n)) as Hc by by apply amount_of_ok.
  eapply wp_mono; [by apply reserve_wp| |].
  - intros _ l' [Hf ->]. pose proof (charge_ledger_charged b1 _ Hb Hc Hf) as Hch.
    eexists. split_and!; [done|by eapply charged_ok|by rewrite (ch_active _ _ _ Hch)|by rewrite (ch_limits _ _ _ Hch)
      |by rewrite (ch_retained _ _ _ Hch)|done|].
    rewrite (ch_used _ _ _ Hch), amount_of_at by (done || apply work_lt).
    rewrite (proj2 (Nat.eqb_neq _ _)) by congruence. lia.
  - intros f l' (_ & -> & Hs). split; [|done]. exists b1. by split_and!.
Qed.

Definition steps_used (l : ptr orm_tidesdb_sql_budget) : Z :=
  match l with Some b => amount_at (used b) ORM_SQL_BUDGET_EXECUTION_STEPS | None => 0 end.

Lemma capacity_steps b w l c e o :
  settled b w l -> word c -> word e -> word o -> e <> 0 ->
  wp (orm_tidesdb_sql_budget_reserve_capacity c e o true)
    (fun n l' => n = c * e + o /\ word n /\ settled b (w + n) l' /\ steps_used l' = steps_used l)
    (fun f l' => settled b w l' /\ f_status f = TURBODB_STATUS_LIMIT_EXCEEDED) l.
Proof.
  intros Hs Hc He Ho Hne. pose proof Hs as (b1 & -> & Hb & Ha & _).
  unfold orm_tidesdb_sql_budget_reserve_capacity. apply wp_bind, require_active_ok; [done|].
  cbn [negb orb]. tdb_step. tdb_step; [blia|]. tdb_step. tdb_step; [done|].
  destruct (capacity_exact c e o) as [-> Hw]; [done..|].
  assert (amount_ok (amount_of ORM_SQL_BUDGET_WORK_BYTES (c * e + o))) as Hok by (apply amount_of_ok; [apply work_lt|done]).
  tdb_step. eapply wp_mono; [by apply reserve_wp| |by intros f l' (_ & -> & ?)].
  intros _ l' [Hf ->]. tdb_step. pose proof (charge_ledger_charged b1 _ Hb Hok Hf) as Hch.
  split_and!; try done; try apply Hw.
  - eapply settled_charged; [done..| |done]. by eapply charged_ok.
  - cbn [steps_used]. rewrite (ch_used _ _ _ Hch), amount_of_at by (apply steps_lt || apply work_lt). cbn. lia.
Qed.

Lemma capacity_settled b w l c e o :
  settled b w l -> word c -> word e -> word o -> e <> 0 ->
  wp (orm_tidesdb_sql_budget_reserve_capacity c e o true)
    (fun n l' => n = c * e + o /\ word n /\ settled b (w + n) l')
    (fun f l' => settled b w l' /\ f_status f = TURBODB_STATUS_LIMIT_EXCEEDED) l.
Proof. intros. eapply wp_mono; [by apply capacity_steps| |done]. by intros n l' (? & ? & ? & _). Qed.

Lemma release_steps b w l n :
  settled b w l -> 0 <= n <= w ->
  wp (orm_tidesdb_sql_budget_release ORM_SQL_BUDGET_WORK_BYTES n)
    (fun _ l' => settled b (w - n) l' /\ steps_used l' = steps_used l) (fun _ _ => False) l.
Proof.
  intros (b1 & -> & Hb & Ha & El & Er & Hr & Ew) Hn. pose proof (ledger_used_range b1 ORM_SQL_BUDGET_WORK_BYTES Hb).
  unfold orm_tidesdb_sql_budget_release. apply wp_bind, require_active_ok; [done|].
  pose proof (ok_retained b1 Hb) as Hr1. rewrite size_sub_small by lia.
  tdb_step. tdb_step. { cbn [releasable negb orb] in *. unfold releasable in *. cbn in *. blia. }
  assert (length (used b1) = COUNT) as Hlen by apply Hb. pose proof work_lt as Hlt. rewrite <- Hlen in Hlt.
  apply wp_publish. split; [|cbn [steps_used used set_used]; by rewrite amount_at_insert].
  eexists. split; [done|]. split_and!; try done.
  - pose proof (lowered_ok b1 ORM_SQL_BUDGET_WORK_BYTES (amount_at (used b1) ORM_SQL_BUDGET_WORK_BYTES - n)
      (retained_work_bytes b1) Hb work_lt) as Hl.
    rewrite set_retained_same in Hl. apply Hl; [lia..|congruence].
  - cbn [used set_used]. rewrite amount_at_insert by done. cbn. lia.
Qed.

Lemma release_settled b w l n :
  settled b w l -> 0 <= n <= w ->
  wp (orm_tidesdb_sql_budget_release ORM_SQL_BUDGET_WORK_BYTES n) (fun _ => settled b (w - n)) (fun _ _ => False) l.
Proof. intros. eapply wp_mono; [by apply release_steps| |done]. by intros [] l' []. Qed.

Lemma work_release_settled b w l n :
  settled b w l -> 0 <= n <= w ->
  wp (orm_sql_work_release n) (fun _ => settled b (w - n)) (fun _ _ => False) l.
Proof.
  intros Hs Hn. unfold orm_sql_work_release. tdb_step; [by apply release_settled|].
  bsimp. subst. by rewrite Z.sub_0_r.
Qed.

(** ** Operations on an object *)

Lemma wp_on_ledger {T A} (m : B A) (t : T) (Q : A -> ptr orm_tidesdb_sql_budget * T -> Prop) R l :
  wp m (fun a l' => Q a (l', t)) (fun f l' => R f (l', t)) l -> wp (on_ledger m) Q R (l, t).
Proof. unfold wp, on_ledger. cbn [fst snd]. by destruct (m l) as [[] ?]. Qed.

Lemma wp_owned {T} (f : T -> T) (Q : unit -> ptr orm_tidesdb_sql_budget * T -> Prop) R l t :
  Q tt (l, f t) -> wp (owned f) Q R (l, t).
Proof. done. Qed.

Lemma wp_on_member {T U A} (get : T -> U) (put : U -> T -> T) (m : W U A)
    (Q : A -> ptr orm_tidesdb_sql_budget * T -> Prop) R l t :
  wp m (fun a s => Q a (s.1, put s.2 t)) (fun f s => R f (s.1, put s.2 t)) (l, get t) ->
  wp (on_member get put m) Q R (l, t).
Proof. unfold wp, on_member. cbn [fst snd]. by destruct (m (l, get t)) as [[] [? ?]]. Qed.

Ltac work_step :=
  match goal with
  | |- wp (on_ledger _) _ _ _ => apply wp_on_ledger
  | |- wp (owned _) _ _ _ => apply wp_owned
  | |- wp (on_member _ _ _) _ _ _ => apply wp_on_member
  | _ => tdb_step
  end.

(** A failure of the allocator or of the ledger. *)
Definition resource_status (s : turbodb_status_t) : bool :=
  bool_decide (s = TURBODB_STATUS_LIMIT_EXCEEDED) || bool_decide (s = TURBODB_STATUS_OUT_OF_MEMORY) ||
  bool_decide (s = TURBODB_STATUS_INTERNAL_ERROR).

(** An operation that destroys what it owns when it fails. *)
Lemma transact_wp {T A} (object : T) (body : W T A) (destroy : T -> B unit) b l
    (Q : A * T -> ptr orm_tidesdb_sql_budget -> Prop) (R : turbodb_failure -> Prop)
    (owns : T -> ptr orm_tidesdb_sql_budget -> Prop) :
  wp body (fun a s => Q (a, s.2) s.1) (fun f s => R f /\ owns s.2 s.1) (l, object) ->
  (forall t l, owns t l -> wp (destroy t) (fun _ => settled b 0) (fun _ _ => False) l) ->
  wp (transact object body destroy) Q (fun f l' => R f /\ settled b 0 l') l.
Proof.
  intros Hb Hd. unfold wp, transact in *. destruct (body (l, object)) as [[a|f|] [l' t]]; [done| |done].
  destruct Hb as [Hf Hs]. specialize (Hd t l' Hs). destruct (destroy t l') as [[] ?]; done.
Qed.

Definition power_of_two (align : Z) : bool := existsb (fun k => align =? 2 ^ k) [0; 1; 2; 3; 4].

Lemma power_of_two_align align :
  power_of_two align = true -> 0 < align <= 16 /\ Z.land align (align - 1) = 0.
Proof.
  unfold power_of_two. cbn [existsb]. intros Ha. repeat (bsimp; destruct Ha as [Ha|Ha]); try done; bsimp; by subst.
Qed.

Section WorkLemmas.
Context `{vec_library} {A : Type}.

(** The bytes of a vector of [count] elements: the elements, the receipt of
    the allocator and the slack of the alignment. *)
Definition work_size (count size align : Z) : Z := count * size + (sizeof_pointer + (align - 1)).

Lemma work_check_wp s reason (Q : unit -> ptr orm_tidesdb_sql_budget * work A -> Prop) R p :
  (s = STL_OK -> Q tt p) -> (forall f, resource_status (f_status f) = true -> R f p) ->
  wp (work_check s reason) Q R p.
Proof.
  intros HQ HR. unfold work_check. tdb_step; bsimp.
  - apply HR. by destruct s.
  - apply HQ. by apply bool_decide_eq_true in H0.
Qed.

Lemma work_zero_settled b w l (zero : A) count size align :
  settled b w l -> 0 < count < 2 ^ 64 -> 0 < size < 2 ^ 64 -> power_of_two align = true -> size mod align = 0 ->
  wp (orm_sql_work_zero zero count size align)
    (fun _ s => s.2 = mk_work (Some (replicate (Z.to_nat count) zero)) (work_size count size align) /\
      settled b (w + wk_reserved s.2) s.1)
    (fun f s => resource_status (f_status f) = true /\ settled b (w + wk_reserved s.2) s.1 /\ 0 <= wk_reserved s.2)
    (l, mk_work None 0).
Proof.
  intros Hs Hc Hz Ha Hm. unfold orm_sql_work_zero, orm_sql_work_allocate.
  destruct (power_of_two_align align Ha) as [Har Hal].
  rewrite (proj2 (Z.eqb_neq count 0)) by lia. rewrite !size_sub_small by (unfold SIZE_MAX, sizeof_pointer; lia).
  repeat work_step; cbn [fst snd wk_vector wk_reserved is_some] in *.
  { rewrite (settled_some _ _ _ Hs), Hal, Hm in *. blia. }
  { unfold sizeof_pointer, SIZE_MAX in *. rewrite u64_small, size_sub_small in * by lia. blia. }
  rewrite u64_small by (unfold sizeof_pointer; lia).
  eapply wp_mono; [apply capacity_settled; unfold word, sizeof_pointer; try done; lia| |].
  2:{ intros f l' [Hl Hf]. cbn. rewrite Hf, Z.add_0_r. by split_and!. }
  intros n l' (-> & Hn & Hs'). cbn [snd]. unfold word in Hn.
  assert (forall f v, resource_status (f_status f) = true ->
    resource_status (f_status f) = true /\ settled b (w + wk_reserved (@mk_work A v
      (count * size + (0 + sizeof_pointer + (align - 1))))) l' /\ 0 <= wk_reserved (@mk_work A v
      (count * size + (0 + sizeof_pointer + (align - 1))))) as HR by (intros; cbn [wk_reserved]; split_and!; [done..|lia]).
  repeat (work_step || (apply work_check_wp; [intros _|intros f Hf; exact (HR f _ Hf)])).
  split; [by unfold work_size; repeat f_equal|done].
Qed.
End WorkLemmas.

Lemma work_bytes_spec `{vec_library} b l size :
  settled b 0 l -> 0 < size < 2 ^ 64 ->
  wp (work_bytes size)
    (fun r l' => r.2 = mk_work (Some (replicate (Z.to_nat size) 0)) (work_size size 1 1) /\
      settled b (work_size size 1 1) l')
    (fun f l' => resource_status (f_status f) = true /\ settled b 0 l') l.
Proof.
  intros Hs Hz. unfold work_bytes. apply (transact_wp _ _ _ b l _ (fun f => resource_status (f_status f) = true)
    (fun w l => settled b (wk_reserved w) l /\ 0 <= wk_reserved w)).
  - do 2 work_step. eapply wp_mono; [apply charge_settled; try done; unfold word, COUNT, ORM_SQL_BUDGET_EXECUTION_STEPS; lia| |].
    + intros [] l' Hl. eapply wp_mono; [by apply work_zero_settled| |].
      * intros [] [l2 w] [E Hl2]. cbn [fst snd] in *. by subst.
      * intros f [l2 w] (? & ? & ?). done.
    + intros f l' [? Hf]. cbn. by rewrite Hf.
  - intros w l' [Hl Hw]. rewrite <- (Z.sub_diag (wk_reserved w)). apply work_release_settled; [done|lia].
Qed.


(** ** Sorting *)

Lemma log2_up_halve w : 1 < w -> Z.log2_up (w / 2 + w mod 2) = Z.log2_up w - 1.
Proof.
  intros Hw. set (c := w / 2 + w mod 2). assert (2 * c - 1 <= w <= 2 * c) as Hc.
  { unfold c. pose proof (Z.div_mod w 2 ltac:(lia)). pose proof (Z.mod_pos_bound w 2 ltac:(lia)). lia. }
  destruct (decide (c = 1)) as [->|Hc1]; [assert (w = 2) as -> by lia; reflexivity|].
  pose proof (Z.log2_up_spec c ltac:(lia)) as Hs. pose proof (Z.log2_up_pos c ltac:(lia)) as Hp.
  rewrite (Z.log2_up_unique w (Z.log2_up c + 1)); [lia|lia|]. rewrite Z.add_1_r, Z.pred_succ, Z.pow_succ_r by lia.
  replace (2 ^ Z.log2_up c) with (2 * 2 ^ Z.pred (Z.log2_up c)) at 1 by (rewrite <- Z.pow_succ_r by lia; f_equal; lia). lia.
Qed.

Lemma steps_charged b w l n :
  settled b w l -> word n ->
  wp (orm_tidesdb_sql_budget_reserve (Some (amount_of ORM_SQL_BUDGET_EXECUTION_STEPS n)))
    (fun _ l' => settled b w l' /\ steps_used l' = steps_used l + n)
    (fun f l' => settled b w l' /\ f_status f = TURBODB_STATUS_LIMIT_EXCEEDED) l.
Proof.
  intros Hs Hn. pose proof steps_lt as Hlt.
  pose proof (charge_settled b w l _ n Hs Hlt ltac:(done) Hn) as H1. destruct Hs as (b1 & -> & Hb & Ha & _).
  assert (amount_ok (amount_of ORM_SQL_BUDGET_EXECUTION_STEPS n)) as Hc by by apply amount_of_ok.
  pose proof (reserve_wp b1 _ Hb Ha Hc) as H2. unfold wp in *.
  destruct (orm_tidesdb_sql_budget_reserve _ _) as [[]]; [|done..]. split; [done|]. destruct H2 as [Hf ->].
  cbn [steps_used]. pose proof (charge_ledger_charged b1 _ Hb Hc Hf) as Hch.
  rewrite (ch_used _ _ _ Hch) by done. by rewrite amount_of_at.
Qed.

Lemma sort_charge_spec b w n fuel : forall width l,
  settled b w l -> word n -> 0 < width < 2 ^ 64 -> width <= 2 ^ Z.of_nat fuel ->
  wp (sort_charge fuel width n)
    (fun _ l' => settled b w l' /\ steps_used l' = steps_used l + n * Z.log2_up width)
    (fun f l' => settled b w l' /\ f_status f = TURBODB_STATUS_LIMIT_EXCEEDED) l.
Proof.
  induction fuel as [|fuel IH]; intros width l Hs Hn Hw Hf; cbn [sort_charge].
  - tdb_step. assert (width = 1) as -> by (change (2 ^ Z.of_nat 0) with 1 in Hf; lia). split; [done|]. cbn. lia.
  - tdb_step; bsimp. 2:{ tdb_step. assert (width = 1) as -> by lia. split; [done|]. cbn. lia. }
    tdb_step. eapply wp_mono; [by apply steps_charged| |done]. intros [] l1 [Hs1 E1].
    pose proof (Z.div_mod width 2 ltac:(lia)). pose proof (Z.mod_pos_bound width 2 ltac:(lia)).
    rewrite u64_small by lia. rewrite Nat2Z.inj_succ, Z.pow_succ_r in Hf by lia.
    eapply wp_mono; [apply IH; try done; lia| |done]. intros [] l2 [Hs2 E2]. split; [done|].
    rewrite E2, E1, log2_up_halve by lia. lia.
Qed.

Lemma work_sort_spec {A} (stable_sort : list A -> stl_status * list A) b l type cs base :
  settled b 0 l -> word (len base) -> 0 < td_size type < 2 ^ 64 -> power_of_two (td_align type) = true ->
  td_size type mod td_align type = 0 -> 0 < cs < 2 ^ 64 ->
  wp (orm_sql_work_sort stable_sort (Some type) cs)
    (fun _ s => settled b 0 s.1 /\ steps_used s.1 = steps_used l + len base * cs * Z.log2_up (len base) /\
      (len base < 2 /\ s.2 = base \/ 2 <= len base /\ stable_sort base = (STL_OK, s.2)))
    (fun f s => settled b 0 s.1 /\ resource_status (f_status f) = true) (l, base).
Proof.
  intros Hs Hl Hz Ha Hm Hc. unfold orm_sql_work_sort.
  destruct (power_of_two_align _ Ha) as [Har Hal].
  rewrite !size_sub_small by (unfold SIZE_MAX, sizeof_pointer; lia).
  tdb_step. tdb_step. { rewrite Hal, Hm in *. blia. }
  do 3 tdb_step; cbn [snd] in *; bsimp.
  { tdb_step. cbn [fst snd]. split; [done|]. rewrite Z.log2_up_eqn0 by lia. split; [lia|by left]. }
  tdb_step. tdb_step; [by split|]. bsimp. assert (len base * cs < 2 ^ 64) as Hcs.
  { pose proof (Z.mul_div_le UINT64_MAX cs ltac:(lia)). unfold UINT64_MAX in *. nia. }
  unfold word in Hl. rewrite !u64_small by (unfold sizeof_pointer; nia).
  do 2 work_step. eapply wp_mono; [apply sort_charge_spec; unfold word; try done; try nia|..].
  2:{ intros f l2 [? Hf]. by rewrite Hf. }
  intros [] l1 [Hs1 E1]. do 2 work_step. eapply wp_mono; [apply capacity_steps; unfold word, sizeof_pointer; try done; lia| |].
  2:{ intros f l2 [? Hf]. by rewrite Hf. }
  intros n l2 (-> & Hw & Hs2 & E2). do 2 work_step. unfold word in Hw.
  pose proof (release_steps b _ l2 _ Hs2 ltac:(split; [apply Hw|reflexivity])) as Hr.
  destruct (stable_sort base) as [st sorted] eqn:Es. cbn [fst snd]. destruct (bool_decide_reflect (st = STL_OK)) as [->|Hst].
  - work_step. eapply wp_mono; [exact Hr| |done]. intros [] l3 [Hs3 E3]. cbn [fst snd]. rewrite Z.sub_diag in Hs3.
    split_and!; [done|congruence|by right].
  - do 2 work_step. apply attempt_wp. eapply wp_mono; [exact Hr| |done]. intros [] l3 [Hs3 E3]. work_step. cbn [fst snd].
    rewrite Z.sub_diag in Hs3. split; [done|]. by destruct st.
Qed.

(** ** Properties *)

(** A name that is followed by something else is read back whole. *)
Lemma span_name_stop name rest :
  forallb name_rest name = true -> match rest with c :: _ => name_rest c = false | [] => True end ->
  span_name (name ++ rest) = (name, rest).
Proof.
  intros Hn Hr. induction name as [|c name IH]; cbn in *.
  - destruct rest as [|c rest]; [done|]. cbn. by rewrite Hr.
  - bsimp. rewrite H, IH by done. done.
Qed.

Lemma identifier_rest name : identifier name = true -> forallb name_rest name = true.
Proof.
  unfold identifier. intros H. bsimp. destruct name as [|c name]; [done|]. cbn. bsimp. unfold name_rest at 1.
  by match goal with H : name_start _ = true |- _ => rewrite H end.
Qed.

(** C32. The scanner of names walks a pointer over the text and agrees with the
    reference parser: it returns the identifier, quoted or not, and leaves the
    text after it and the white space, or fails without undefined behaviour
    where the parser fails. An identifier written in backquotes is read back
    whatever follows. *)
Theorem name_part_exact d out :
  word (len d) ->
  match orm_sql_name_part (view d, out) with
  | (Ret _, (text, out')) => exists name rest junk, parse_name d = Some (name, rest) /\ text = view rest /\
      out' = mk_vstr (Some (name ++ junk)) (len name)
  | (Err f, _) => parse_name d = None /\
      (f_status f = TURBODB_STATUS_LIMIT_EXCEEDED \/ f_status f = TURBODB_STATUS_UNSUPPORTED)
  | (Fault, _) => False
  end /\
  (forall name rest, identifier name = true -> d = 96 :: name ++ 96 :: rest -> parse_name d = Some (name, skip_blanks rest)).
Proof.
  intros Hw. split.
  - pose proof (name_part_spec d out Hw) as Hp. unfold wp in Hp.
    destruct (orm_sql_name_part (view d, out)) as [[[]|f|] [text out']]; [|done..].
    destruct Hp as (name & rest & Hp & Ht & junk & Ho). by exists name, rest, junk.
  - intros name rest Hi ->. unfold parse_name.
    replace (skip_blanks (96 :: name ++ 96 :: rest)) with (96 :: name ++ 96 :: rest) by done.
    rewrite (span_name_stop name (96 :: rest) (identifier_rest name Hi)) by done. by rewrite Hi.
Qed.

(** C33. A sort through the ledger charges exactly its elements times the cost of
    a comparison for each of the ceil(log2 n) levels of a merge sort, leaves the
    result of the runtime's sort in place, and gives its scratch space back,
    also when the sort or the ledger fails. *)
Theorem work_sort_exact {A} (stable_sort : list A -> stl_status * list A) b type cs (base : list A) :
  reachable b -> statement_active b = true -> word (len base) -> 0 < td_size type < 2 ^ 64 ->
  power_of_two (td_align type) = true -> td_size type mod td_align type = 0 -> 0 < cs < 2 ^ 64 ->
  match orm_sql_work_sort stable_sort (Some type) cs (Some b, base) with
  | (Ret _, (l, sorted)) => settled b 0 l /\
      steps_used l = steps_used (Some b) + len base * cs * Z.log2_up (len base) /\
      (len base < 2 /\ sorted = base \/ 2 <= len base /\ stable_sort base = (STL_OK, sorted))
  | (Err f, (l, _)) => settled b 0 l /\ resource_status (f_status f) = true
  | (Fault, _) => False
  end.
Proof.
  intros Hb%reachable_ledger_ok Ha Hw Hz Hal Hm Hc.
  pose proof (work_sort_spec stable_sort b (Some b) type cs base (settled_start b Hb Ha) Hw Hz Hal Hm Hc) as Hp.
  unfold wp in Hp. by destruct (orm_sql_work_sort _ _ _ _) as [[[]|f|] [l sorted]].
Qed.

(** ** Witnesses *)

(** " `id1` x" *)
Definition sample_text : bytes := [32; 96; 105; 100; 49; 96; 32; 120].

Lemma name_part_exact_witness :
  word (len sample_text) /\ exists name rest junk, parse_name sample_text = Some (name, rest) /\
    fst (snd (orm_sql_name_part (view sample_text, view []))) = view rest /\ name ++ junk = [105; 100; 49; 96; 32; 120].
Proof.
  assert (word (len sample_text)) as Hw by (vm_compute; split; congruence). split; [exact Hw|].
  pose proof (name_part_exact sample_text (view []) Hw) as [Hp _].
  assert (orm_sql_name_part (view sample_text, view []) =
    (Ret tt, (view [120], mk_vstr (Some [105; 100; 49; 96; 32; 120]) 3))) as E by (vm_compute; reflexivity).
  rewrite E in Hp |- *. destruct Hp as (name & rest & junk & E1 & E2 & E3). exists name, rest, junk.
  split; [exact E1|]. split; [exact E2|]. by injection E3.
Defined.

Lemma work_sort_exact_witness :
  let sort (l : list Z) := (STL_OK, rev l) in
  exists l, orm_sql_work_sort sort (Some (mk_desc 8 8)) 2 (Some (sample_after [Op_begin]), [3; 2; 1]) = (Ret tt, (l, [1; 2; 3])) /\
    settled (sample_after [Op_begin]) 0 l.
Proof.
  cbv zeta. pose proof (work_sort_exact (fun l : list Z => (STL_OK, rev l)) (sample_after [Op_begin]) (mk_desc 8 8) 2 [3; 2; 1]
    sample_begun eq_refl ltac:(vm_compute; split; congruence) ltac:(cbn; lia) eq_refl eq_refl ltac:(lia)) as Hp.
  assert (exists l, orm_sql_work_sort (fun l : list Z => (STL_OK, rev l)) (Some (mk_desc 8 8)) 2
    (Some (sample_after [Op_begin]), [3; 2; 1]) = (Ret tt, (l, [1; 2; 3]))) as [l E] by (vm_compute; eexists; reflexivity).
  rewrite E in Hp. exists l. split; [exact E|exact (proj1 Hp)].
Defined.
