(* ===== verification/IndexRecord.v ===== *)
(** * Catalog records of secondary indexes
    (tidessql/src/index_record.c, index_record.h, index_internal.h, index.c)

    The wire form of an index definition with its identity: encoding after a
    check against the table's schema, decoding of untrusted bytes into an owned
    record, and the release of what a record owns. *)

From S2P Require Import Prelude Row Command Errors Budget Value IndexKey Work.

(** ** Data *)

Record orm_sql_index_identity : Type := mk_identity {
  ii_table_id : Z;
  ii_table_generation : Z;
  ii_index_id : Z;
  ii_generation : Z
}.

Record orm_sql_index_record : Type := mk_record {
  ir_definition : orm_sql_index_definition;
  ir_identity : orm_sql_index_identity
}.

Definition INDEX_RECORD_VERSION : Z := 2.
Definition INDEX_RECORD_FLAGS : Z := 3.
Definition INDEX_RECORD_TABLE : Z := 4.
Definition INDEX_RECORD_TABLE_GENERATION : Z := 12.
Definition INDEX_RECORD_ID : Z := 20.
Definition INDEX_RECORD_GENERATION : Z := 28.
Definition INDEX_RECORD_COUNT : Z := 36.
Definition INDEX_RECORD_HEADER : Z := 40.
Definition INDEX_RECORD_PART : Z := 6.
Definition INDEX_RECORD_TYPE : Z := 4.
Definition INDEX_RECORD_PART_FLAGS : Z := 5.
Definition INDEX_RECORD_NAME_LENGTHS : Z := 2.
Definition INDEX_RECORD_I64 : Z := 1.
Definition INDEX_RECORD_U64 : Z := 2.
Definition INDEX_RECORD_F64 : Z := 3.
Definition INDEX_RECORD_WIRE_INTEGER : Z := 1.
Definition INDEX_RECORD_WIRE_REAL : Z := 2.
Definition INDEX_RECORD_UNIQUE : Z := 1.
Definition INDEX_RECORD_NULLABLE : Z := 1.
Definition INDEX_RECORD_DESC : Z := 2.

(** 'S', 'I', 1 *)
Definition index_record_magic : bytes := [83; 73; 1].

(** sizeof(orm_sql_index_part): a size_t, a type of eight bytes and a bool. *)
Definition sizeof_index_part : Z := 24.
Definition alignof_index_part : Z := 8.

Definition zero_part : orm_sql_index_part := mk_part 0 (mk_type 0 false) false.

(** The parts vector of a definition, empty when it is not initialized. *)
Definition definition_parts (d : orm_sql_index_definition) : list orm_sql_index_part := default [] (id_parts d).

(** ** Shared with the binder (index_internal.h) *)

Definition orm_sql_index_has_double (d : orm_sql_index_definition) : bool :=
  existsb (fun part => ty_kind (ip_type part) =? KIND_DOUBLE) (definition_parts d).

(** "PRIMARY" *)
Definition primary : bytes := [80; 82; 73; 77; 65; 82; 89].

Definition upper (c : Z) : Z := if (97 <=? c) && (c <=? 122) then c - 97 + 65 else c.

Fixpoint primary_loop (rest : bytes) (name : vstr) (i : Z) : option bool :=
  match rest with
  | [] => Some true
  | p :: rest =>
      c ← vstr_at name i;
      if upper c =? p then primary_loop rest name (i + 1) else Some false
  end.

Definition orm_sql_index_primary_name (name : vstr) : option bool :=
  if negb (vs_len name =? len primary) then Some false else primary_loop primary name 0.

(** ** Validation *)

Definition record_charge (resource : nat) (count : Z) : B unit :=
  orm_tidesdb_sql_budget_reserve (Some (amount_of resource count)).

(** The schema with its columns, when the guard of the entry points holds. *)
Definition record_schema (schema : ptr orm_sql_table_schema)
    : option (orm_sql_table_schema * list orm_sql_schema_column) :=
  match schema with
  | Some s =>
      match ts_columns s with
      | Some columns =>
          if is_some (vs_data (ts_name s)) && negb (vs_len (ts_name s) =? 0) && negb (ts_count s =? 0)
          then Some (s, columns) else None
      | None => None
      end
  | None => None
  end.

Section Validate.
Context (schema : orm_sql_table_schema) (columns : list orm_sql_schema_column) (invalid : turbodb_status_t).

(** The inner loop: [part] against the parts before it. *)
Fixpoint record_distinct (part : orm_sql_index_part) (others : list orm_sql_index_part) : B unit :=
  match others with
  | [] => mret tt
  | other :: others =>
      record_charge ORM_SQL_BUDGET_EXECUTION_STEPS 1;;
      raise_if (ip_column part =? ip_column other) invalid "SQL index record has duplicate key columns";;
      record_distinct part others
  end.

(** [part->column >= schema->count || ... || part->type.nullable != ...] *)
Definition record_part_bad (part : orm_sql_index_part) : option bool :=
  let kind := ty_kind (ip_type part) in
  if (ts_count schema <=? ip_column part) || (UINT32_MAX <? ip_column part) ||
      (negb (kind =? KIND_INT64) && negb (kind =? KIND_UINT64) && negb (kind =? KIND_DOUBLE)) then Some true
  else
    column ← columns !! Z.to_nat (ip_column part);
    Some (negb (kind =? ty_kind (sc_type column)) ||
      negb (Bool.eqb (ty_nullable (ip_type part)) (ty_nullable (sc_type column)))).

(** The outer loop, after the parts [before]. *)
Fixpoint record_validate_parts (before parts : list orm_sql_index_part) : B unit :=
  match parts with
  | [] => mret tt
  | part :: parts =>
      record_charge ORM_SQL_BUDGET_EXECUTION_STEPS 1;;
      bad ← access (record_part_bad part);
      raise_if bad invalid "SQL index record column type or ordinal does not match its Catalog schema";;
      record_distinct part before;;
      record_validate_parts (before ++ [part]) parts
  end.

(** [validate(name) || primary(name) || validate(table)], in this order. *)
Definition record_names_bad (name table : vstr) : B bool :=
  ok ← attempt (orm_sql_name_validate name);
  if negb ok then mret true
  else
    p ← access (orm_sql_index_primary_name name);
    if p : bool then mret true else ok ← attempt (orm_sql_name_validate table); mret (negb ok).

(** [table.len != schema->name.len || memcmp(...)] *)
Definition record_table_differs (table : bytes) : option bool :=
  if negb (len table =? vs_len (ts_name schema)) then Some true
  else
    data ← vs_data (ts_name schema);
    name ← ldn data 0 (len table);
    Some (negb (bool_decide (table = name))).

Definition record_validate (record : orm_sql_index_record) : B unit :=
  let definition := ir_definition record in
  let identity := ir_identity record in
  raise_if ((ii_table_id identity =? 0) || (ii_table_generation identity =? 0) || (ii_index_id identity =? 0) ||
      (ii_generation identity =? 0)) invalid "SQL index record requires nonzero identities and generations";;
  bad ← record_names_bad (mk_vstr (Some (id_name definition)) (len (id_name definition)))
    (mk_vstr (Some (id_table definition)) (len (id_table definition)));
  raise_if bad invalid "SQL index record has an invalid index or table name";;
  differs ← access (record_table_differs (id_table definition));
  raise_if differs invalid "SQL index record table does not match its Catalog schema";;
  let count := len (definition_parts definition) in
  raise_if ((count =? 0) || (ts_count schema <? count)) invalid "SQL index record has an invalid key part count";;
  record_validate_parts [] (definition_parts definition).
End Validate.

(** ** Encoding *)

Definition record_write_name (data : bytes) (offset : Z) (name : bytes) : option (bytes * Z) :=
  data ← st data offset (u8 (len name));
  data ← stn data (offset + 1) name;
  Some (data, offset + 1 + len name).

Definition wire_kind (kind : Z) : Z :=
  if kind =? KIND_INT64 then INDEX_RECORD_I64
  else if kind =? KIND_DOUBLE then INDEX_RECORD_F64 else INDEX_RECORD_U64.

Definition part_flags (part : orm_sql_index_part) : Z :=
  Z.lor (if ty_nullable (ip_type part) then INDEX_RECORD_NULLABLE else 0)
    (if ip_descending part then INDEX_RECORD_DESC else 0).

Fixpoint record_write_parts (data : bytes) (offset : Z) (parts : list orm_sql_index_part) : option bytes :=
  match parts with
  | [] => Some data
  | part :: parts =>
      data ← orm_sql_wire_write data offset ORM_SQL_WIRE_U32 (ip_column part);
      data ← st data (offset + INDEX_RECORD_TYPE) (wire_kind (ty_kind (ip_type part)));
      data ← st data (offset + INDEX_RECORD_PART_FLAGS) (part_flags part);
      record_write_parts data (offset + INDEX_RECORD_PART) parts
  end.

Definition record_write (record : orm_sql_index_record) (data : bytes) : option bytes :=
  let definition := ir_definition record in
  let identity := ir_identity record in
  data ← stn data 0 index_record_magic;
  data ← (if orm_sql_index_has_double definition then st data INDEX_RECORD_VERSION INDEX_RECORD_WIRE_REAL
    else Some data);
  data ← st data INDEX_RECORD_FLAGS (if id_unique definition then INDEX_RECORD_UNIQUE else 0);
  data ← orm_sql_wire_write data INDEX_RECORD_TABLE ORM_SQL_WIRE_U64 (ii_table_id identity);
  data ← orm_sql_wire_write data INDEX_RECORD_TABLE_GENERATION ORM_SQL_WIRE_U64 (ii_table_generation identity);
  data ← orm_sql_wire_write data INDEX_RECORD_ID ORM_SQL_WIRE_U64 (ii_index_id identity);
  data ← orm_sql_wire_write data INDEX_RECORD_GENERATION ORM_SQL_WIRE_U64 (ii_generation identity);
  data ← orm_sql_wire_write data INDEX_RECORD_COUNT ORM_SQL_WIRE_U32 (len (definition_parts definition));
  '(data, offset) ← record_write_name data INDEX_RECORD_HEADER (id_name definition);
  '(data, offset) ← record_write_name data offset (id_table definition);
  record_write_parts data offset (definition_parts definition).

Section Codec.
Context `{vec_library}.

(** [empty] says that the output pointers are not NULL and that what they
    point to is zero; the result is what is stored there. *)
Definition orm_tidesdb_sql_index_record_encode (record : ptr orm_sql_index_record)
    (schema : ptr orm_sql_table_schema) (max_bytes : Z) (empty : bool) : B (work Z) :=
  budget ← gets is_some;
  match record, record_schema schema with
  | Some record, Some (schema, columns) =>
      let definition := ir_definition record in
      raise_if (negb budget || negb (is_some (id_parts definition)) || (max_bytes =? 0) || negb empty)
        TURBODB_STATUS_INVALID_ARGUMENT "SQL index record encoding requires a definition, schema and empty output";;
      record_validate schema columns TURBODB_STATUS_INVALID_ARGUMENT record;;
      let header := INDEX_RECORD_HEADER + INDEX_RECORD_NAME_LENGTHS + len (id_name definition) +
        len (id_table definition) in
      let count := len (definition_parts definition) in
      raise_if ((max_bytes <? header) || (UINT32_MAX <? count) ||
          (size_sub max_bytes header / INDEX_RECORD_PART <? count))
        TURBODB_STATUS_LIMIT_EXCEEDED "SQL index record exceeds byte capacity";;
      let size := u64 (header + count * INDEX_RECORD_PART) in
      '(_, out) ← work_bytes size;
      data ← access (wk_vector out);
      data ← access (record_write record data);
      mret (mk_work (Some data) (wk_reserved out))
  | _, _ =>
      raise TURBODB_STATUS_INVALID_ARGUMENT
        "SQL index record encoding requires a definition, schema and empty output"
  end.

(** ** Destruction *)

(** The members the release reads; the definition is zero afterwards. The
    second release runs whether or not the first one failed. *)
Definition orm_tidesdb_sql_index_destroy (definition : ptr orm_sql_index_definition) : B unit := fun l =>
  match definition, l with
  | Some d, Some _ =>
      let '(status, l) := orm_sql_work_release (id_part_bytes d) l in
      let '(released, l) := when (negb (id_metadata_bytes d =? 0))
        (orm_tidesdb_sql_budget_release ORM_SQL_BUDGET_WORK_BYTES (id_metadata_bytes d)) l in
      (match status with Ret _ => released | _ => status end, l)
  | _, _ => (Ret tt, l)
  end.

Definition orm_tidesdb_sql_index_record_destroy (record : ptr orm_sql_index_record) : B unit :=
  match record with
  | None => mret tt
  | Some r => orm_tidesdb_sql_index_destroy (Some (ir_definition r))
  end.

(** ** Decoding *)

(** The state of the decoder is the record it fills. *)
Definition R : Type -> Type := W orm_sql_index_record.

Definition map_definition (f : orm_sql_index_definition -> orm_sql_index_definition) (r : orm_sql_index_record)
    : orm_sql_index_record := mk_record (f (ir_definition r)) (ir_identity r).

Definition set_metadata (n : Z) (d : orm_sql_index_definition) : orm_sql_index_definition :=
  mk_definition (id_parts d) (id_part_bytes d) n (id_source_offset d) (id_name d) (id_table d) (id_unique d)
    (id_generated_name d).
Definition set_name (name : bytes) (d : orm_sql_index_definition) : orm_sql_index_definition :=
  mk_definition (id_parts d) (id_part_bytes d) (id_metadata_bytes d) (id_source_offset d) name (id_table d)
    (id_unique d) (id_generated_name d).
Definition set_table (name : bytes) (d : orm_sql_index_definition) : orm_sql_index_definition :=
  mk_definition (id_parts d) (id_part_bytes d) (id_metadata_bytes d) (id_source_offset d) (id_name d) name
    (id_unique d) (id_generated_name d).

(** The vector of parts with its receipt. *)
Definition parts_work (r : orm_sql_index_record) : work orm_sql_index_part :=
  mk_work (id_parts (ir_definition r)) (id_part_bytes (ir_definition r)).
Definition put_parts (w : work orm_sql_index_part) : orm_sql_index_record -> orm_sql_index_record :=
  map_definition (fun d => mk_definition (wk_vector w) (wk_reserved w) (id_metadata_bytes d) (id_source_offset d)
    (id_name d) (id_table d) (id_unique d) (id_generated_name d)).
Definition set_part (i : nat) (part : orm_sql_index_part) (r : orm_sql_index_record) : orm_sql_index_record :=
  put_parts (mk_work (<[i := part]> <$> id_parts (ir_definition r)) (id_part_bytes (ir_definition r))) r.

(** The name at [offset] and the offset after it. *)
Definition record_read_name (data : bytes) (size offset : Z) : R (bytes * Z) :=
  raise_if (size <=? offset) TURBODB_STATUS_DATASTORE_ERROR "SQL index record has a truncated name";;
  count ← access (ld data offset);
  let offset := offset + 1 in
  raise_if ((count =? 0) || (ORM_SQL_SELECT_NAME_BYTES <? count) || (size_sub size offset <? count))
    TURBODB_STATUS_DATASTORE_ERROR "SQL index record has an invalid name length";;
  ok ← attempt (orm_sql_name_validate (mk_vstr (Some (drop (Z.to_nat offset) data)) count));
  raise_if (negb ok) TURBODB_STATUS_DATASTORE_ERROR "SQL index record has an invalid name";;
  name ← access (ldn data offset count);
  mret (name, offset + count).

Definition read_kind (kind : Z) : Z :=
  if kind =? INDEX_RECORD_I64 then KIND_INT64
  else if kind =? INDEX_RECORD_F64 then KIND_DOUBLE else KIND_UINT64.

(** The loop over the parts from part [i]. *)
Fixpoint record_read_loop (n i : nat) (data : bytes) (offset : Z) : R unit :=
  match n with
  | O => mret tt
  | S n =>
      kind ← access (ld data (offset + INDEX_RECORD_TYPE));
      flags ← access (ld data (offset + INDEX_RECORD_PART_FLAGS));
      version ← access (ld data INDEX_RECORD_VERSION);
      raise_if ((negb (kind =? INDEX_RECORD_I64) && negb (kind =? INDEX_RECORD_U64) &&
          negb ((kind =? INDEX_RECORD_F64) && (version =? INDEX_RECORD_WIRE_REAL))) ||
          negb (Z.land flags (Z.lnot (Z.lor INDEX_RECORD_NULLABLE INDEX_RECORD_DESC)) =? 0))
        TURBODB_STATUS_DATASTORE_ERROR "SQL index record has invalid key type or flags";;
      column ← access (orm_sql_wire_read data offset ORM_SQL_WIRE_U32);
      owned (set_part i (mk_part column
        (mk_type (read_kind kind) (negb (Z.land flags INDEX_RECORD_NULLABLE =? 0)))
        (negb (Z.land flags INDEX_RECORD_DESC =? 0))));;
      record_read_loop n (S i) data (offset + INDEX_RECORD_PART)
  end.

Definition record_read_parts (data : bytes) (size offset count : Z) : R unit :=
  raise_if ((size_sub size offset / INDEX_RECORD_PART <? count) ||
      negb (u64 (count * INDEX_RECORD_PART) =? size_sub size offset))
    TURBODB_STATUS_DATASTORE_ERROR "SQL index record has truncated or trailing key parts";;
  on_member parts_work put_parts (orm_sql_work_zero zero_part count sizeof_index_part alignof_index_part);;
  record_read_loop (Z.to_nat count) 0 data offset.

(** sizeof(orm_sql_index_record) includes a vector of the runtime. *)
Context (sizeof_record : Z).

(** What the decoder does between the creation of its record and its return. *)
Definition record_read (data : bytes) (size count : Z) (schema : orm_sql_table_schema)
    (columns : list orm_sql_schema_column) : R unit :=
  on_ledger (record_charge ORM_SQL_BUDGET_EXECUTION_STEPS size);;
  on_ledger (record_charge ORM_SQL_BUDGET_PLAN_NODES (count + 1));;
  metadata ← on_ledger (orm_tidesdb_sql_budget_reserve_capacity 1 sizeof_record 0 true);
  owned (map_definition (set_metadata metadata));;
  '(name, offset) ← record_read_name data size INDEX_RECORD_HEADER;
  owned (map_definition (set_name name));;
  '(table, offset) ← record_read_name data size offset;
  owned (map_definition (set_table table));;
  record_read_parts data size offset count;;
  version ← access (ld data INDEX_RECORD_VERSION);
  record ← gets snd;
  raise_if (negb (Bool.eqb (version =? INDEX_RECORD_WIRE_REAL) (orm_sql_index_has_double (ir_definition record))))
    TURBODB_STATUS_DATASTORE_ERROR "SQL index record version does not match key types";;
  on_ledger (record_validate schema columns TURBODB_STATUS_DATASTORE_ERROR record).

(** [empty] says that [out] is not NULL and holds no definition. *)
Definition orm_tidesdb_sql_index_record_decode (data : ptr bytes) (size : Z) (schema : ptr orm_sql_table_schema)
    (max_bytes : Z) (empty : bool) : B orm_sql_index_record :=
  budget ← gets is_some;
  match data, record_schema schema with
  | Some data, Some (schema, columns) =>
      raise_if ((max_bytes =? 0) || negb budget || negb empty) TURBODB_STATUS_INVALID_ARGUMENT
        "SQL index record decoding requires bytes, schema and empty output";;
      raise_if (max_bytes <? size) TURBODB_STATUS_LIMIT_EXCEEDED "SQL index record exceeds byte capacity";;
      raise_if (size <? INDEX_RECORD_HEADER + INDEX_RECORD_NAME_LENGTHS) TURBODB_STATUS_DATASTORE_ERROR
        "SQL index record has a truncated or invalid header";;
      magic ← access (ldn data 0 INDEX_RECORD_VERSION);
      raise_if (negb (bool_decide (magic = take (Z.to_nat INDEX_RECORD_VERSION) index_record_magic)))
        TURBODB_STATUS_DATASTORE_ERROR "SQL index record has a truncated or invalid header";;
      version ← access (ld data INDEX_RECORD_VERSION);
      raise_if (negb (version =? INDEX_RECORD_WIRE_INTEGER) && negb (version =? INDEX_RECORD_WIRE_REAL))
        TURBODB_STATUS_UNSUPPORTED "SQL index record has an unknown wire version";;
      count ← access (orm_sql_wire_read data INDEX_RECORD_COUNT ORM_SQL_WIRE_U32);
      flags ← access (ld data INDEX_RECORD_FLAGS);
      raise_if (negb (Z.land flags (Z.lnot INDEX_RECORD_UNIQUE) =? 0) || (count =? 0) || (ts_count schema <? count) ||
          (size_sub (size_sub size INDEX_RECORD_HEADER) INDEX_RECORD_NAME_LENGTHS / INDEX_RECORD_PART <? count))
        TURBODB_STATUS_DATASTORE_ERROR "SQL index record has invalid flags or key count";;
      table_id ← access (orm_sql_wire_read data INDEX_RECORD_TABLE ORM_SQL_WIRE_U64);
      table_generation ← access (orm_sql_wire_read data INDEX_RECORD_TABLE_GENERATION ORM_SQL_WIRE_U64);
      index_id ← access (orm_sql_wire_read data INDEX_RECORD_ID ORM_SQL_WIRE_U64);
      generation ← access (orm_sql_wire_read data INDEX_RECORD_GENERATION ORM_SQL_WIRE_U64);
      '(_, record) ← transact
        (mk_record (mk_definition None 0 0 0 [] [] (negb (Z.land flags INDEX_RECORD_UNIQUE =? 0)) false)
          (mk_identity table_id table_generation index_id generation))
        (record_read data size count schema columns)
        (fun r => orm_tidesdb_sql_index_record_destroy (Some r));
      mret record
  | _, _ =>
      raise TURBODB_STATUS_INVALID_ARGUMENT "SQL index record decoding requires bytes, schema and empty output"
  end.
End Codec.

(** ** What a record is on the wire *)

Definition part_bytes (part : orm_sql_index_part) : bytes :=
  le_bytes 4 (ip_column part) ++ [wire_kind (ty_kind (ip_type part)); part_flags part].

Definition name_bytes (name : bytes) : bytes := len name :: name.

Definition header_bytes (r : orm_sql_index_record) : bytes :=
  [83; 73; if orm_sql_index_has_double (ir_definition r) then 2 else 1; if id_unique (ir_definition r) then 1 else 0] ++
  le_bytes 8 (ii_table_id (ir_identity r)) ++ le_bytes 8 (ii_table_generation (ir_identity r)) ++
  le_bytes 8 (ii_index_id (ir_identity r)) ++ le_bytes 8 (ii_generation (ir_identity r)) ++
  le_bytes 4 (len (definition_parts (ir_definition r))).

Definition record_bytes (r : orm_sql_index_record) : bytes :=
  header_bytes r ++ name_bytes (id_name (ir_definition r)) ++ name_bytes (id_table (ir_definition r)) ++
  concat (map part_bytes (definition_parts (ir_definition r))).

(** ** Which records a table admits *)

Definition numeric (kind : Z) : Prop := kind = KIND_INT64 \/ kind = KIND_UINT64 \/ kind = KIND_DOUBLE.

(** The integers of a record have the width of their C types. *)
Record record_words (r : orm_sql_index_record) : Prop := {
  rw_table_id : word (ii_table_id (ir_identity r));
  rw_table_generation : word (ii_table_generation (ir_identity r));
  rw_index_id : word (ii_index_id (ir_identity r));
  rw_generation : word (ii_generation (ir_identity r));
  rw_parts : Forall (fun p => word (ip_column p)) (definition_parts (ir_definition r))
}.

Section Valid.
Context (table : bytes) (columns : list orm_sql_schema_column).

Definition part_ok (part : orm_sql_index_part) : Prop :=
  ip_column part <= UINT32_MAX /\ numeric (ty_kind (ip_type part)) /\
  exists column, columns !! Z.to_nat (ip_column part) = Some column /\ ip_type part = sc_type column.

Record record_valid (r : orm_sql_index_record) : Prop := {
  rv_table_id : ii_table_id (ir_identity r) <> 0;
  rv_table_generation : ii_table_generation (ir_identity r) <> 0;
  rv_index_id : ii_index_id (ir_identity r) <> 0;
  rv_generation : ii_generation (ir_identity r) <> 0;
  rv_name : identifier (id_name (ir_definition r)) = true;
  rv_secondary : map upper (id_name (ir_definition r)) <> primary;
  rv_identifier : identifier (id_table (ir_definition r)) = true;
  rv_table : id_table (ir_definition r) = table;
  rv_count : (0 < length (definition_parts (ir_definition r)) <= length columns)%nat;
  rv_parts : Forall part_ok (definition_parts (ir_definition r));
  rv_distinct : NoDup (map ip_column (definition_parts (ir_definition r)))
}.

(** A schema of the table. *)
Record schema_of (schema : orm_sql_table_schema) : Prop := {
  so_name : ts_name schema = mk_vstr (Some table) (len table);
  so_named : table <> [];
  so_columns : ts_columns schema = Some columns;
  so_count : ts_count schema = len columns;
  so_some : columns <> [];
  so_word : word (len columns)
}.
End Valid.

(** ** Validation *)

Lemma primary_loop_spec rest l i :
  0 <= i -> i + len rest = len l ->
  primary_loop rest (mk_vstr (Some l) (len l)) i = Some (bool_decide (map upper (drop (Z.to_nat i) l) = rest)).
Proof.
  revert i. induction rest as [|p rest IH]; intros i Hi Hl; cbn [length] in Hl.
  - rewrite drop_ge by lia. done.
  - cbn [primary_loop]. unfold vstr_at. cbn [vs_data mbind option_bind].
    destruct (ld_is_Some l i) as [c Hc]; [lia|]. rewrite Hc. cbn [mbind option_bind].
    unfold ld in Hc. destruct (_ <? 0); [done|]. rewrite (drop_S _ c) by done. cbn [map].
    destruct (Z.eqb_spec (upper c) p) as [->|Hne].
    + rewrite IH by lia. replace (S (Z.to_nat i)) with (Z.to_nat (i + 1)) by lia. f_equal.
      apply bool_decide_ext. split; [by intros ->|by intros [=]].
    + rewrite bool_decide_eq_false_2; [done|congruence].
Qed.

Lemma primary_name_spec l :
  orm_sql_index_primary_name (mk_vstr (Some l) (len l)) = Some (bool_decide (map upper l = primary)).
Proof.
  unfold orm_sql_index_primary_name. cbn [vs_len]. destruct (Z.eqb_spec (len l) (len primary)) as [E|E]; cbn [negb].
  - rewrite primary_loop_spec by lia. done.
  - rewrite bool_decide_eq_false_2; [done|]. intros Hu. apply E. by rewrite <- Hu, length_map.
Qed.

Lemma record_charge_settled b w l r n :
  settled b w l -> (r < COUNT)%nat -> r <> ORM_SQL_BUDGET_WORK_BYTES -> word n ->
  wp (record_charge r n) (fun _ => settled b w)
    (fun f l' => settled b w l' /\ f_status f = TURBODB_STATUS_LIMIT_EXCEEDED) l.
Proof. apply charge_settled. Qed.

Lemma names_bad_spec name table (Q : bool -> ptr orm_tidesdb_sql_budget -> Prop) R l :
  Q (negb (identifier name) || bool_decide (map upper name = primary) || negb (identifier table)) l ->
  wp (record_names_bad (mk_vstr (Some name) (len name)) (mk_vstr (Some table) (len table))) Q R l.
Proof.
  intros HQ. unfold record_names_bad. tdb_step. apply name_attempt_spec.
  destruct (identifier name); cbn [negb orb] in *; [|done]. rewrite primary_name_spec. tdb_step.
  apply wp_access; [done|]. intros p [= <-]. destruct (bool_decide _); cbn [orb] in *; [done|].
  tdb_step. apply name_attempt_spec. by tdb_step.
Qed.

Section ValidateLemmas.
Context (b : orm_tidesdb_sql_budget) (w : Z) (table : bytes) (columns : list orm_sql_schema_column)
  (schema : orm_sql_table_schema) (Hschema : schema_of table columns schema) (invalid : turbodb_status_t).

(** The errors of a check: the ledger is exhausted, or what was checked does
    not hold. *)
Definition check_error (P : Prop) (f : turbodb_failure) (l : ptr orm_tidesdb_sql_budget) : Prop :=
  settled b w l /\ (f_status f = TURBODB_STATUS_LIMIT_EXCEEDED \/ f_status f = invalid /\ ~ P).

Lemma step_charge (Q : unit -> ptr orm_tidesdb_sql_budget -> Prop) P l :
  settled b w l -> (forall l', settled b w l' -> Q tt l') ->
  wp (record_charge ORM_SQL_BUDGET_EXECUTION_STEPS 1) Q (check_error P) l.
Proof.
  intros Hs HQ. eapply wp_mono; [apply record_charge_settled; try done|by intros [] l'; apply HQ|].
  - unfold COUNT, ORM_SQL_BUDGET_EXECUTION_STEPS. lia.
  - intros f l' [? ?]. split; [done|by left].
Qed.

Lemma check_error_mono (P P' : Prop) f l : (P' -> P) -> check_error P f l -> check_error P' f l.
Proof. intros HP [Hs H]. split; [done|]. tauto. Qed.

Lemma record_distinct_spec part others l :
  settled b w l ->
  wp (record_distinct invalid part others) (fun _ l' => settled b w l' /\ ip_column part ∉ map ip_column others)
    (check_error (ip_column part ∉ map ip_column others)) l.
Proof.
  revert l. induction others as [|o others IH]; intros l Hs; cbn [record_distinct map].
  - tdb_step. split; [done|]. apply not_elem_of_nil.
  - tdb_step. apply step_charge; [done|]. intros l' Hs'. do 2 tdb_step; bsimp.
    + split; [done|]. right. split; [done|]. intros Hn. apply Hn. rewrite H. apply list_elem_of_here.
    + eapply wp_mono; [by apply IH| |].
      * intros _ l2 [? Hn]. split; [done|]. rewrite not_elem_of_cons. done.
      * intros f l2. apply check_error_mono. rewrite not_elem_of_cons. tauto.
Qed.

Lemma type_eqb (a c : orm_sql_type) :
  negb (ty_kind a =? ty_kind c) || negb (Bool.eqb (ty_nullable a) (ty_nullable c)) = false <-> a = c.
Proof.
  destruct a as [k n], c as [k' n']; cbn. split.
  - intros. bsimp. apply eqb_prop in H0. by subst.
  - intros [= -> ->]. by rewrite Z.eqb_refl, eqb_reflx.
Qed.

Lemma part_bad_spec part :
  word (ip_column part) ->
  exists bad, record_part_bad schema columns part = Some bad /\ (bad = false <-> part_ok columns part).
Proof.
  intros Hw. unfold record_part_bad, part_ok, numeric. rewrite (so_count _ _ _ Hschema).
  destruct (_ || _) eqn:E.
  - eexists. split; [done|]. split; [done|]. intros (Hc & Hn & c & Hl & _). apply lookup_lt_Some in Hl.
    unfold word in Hw. repeat (bsimp; match goal with H : _ \/ _ |- _ => destruct H end); bsimp; try lia; congruence.
  - bsimp. destruct (lookup_lt_is_Some_2 columns (Z.to_nat (ip_column part))) as [c Hc]; [unfold word in Hw; lia|].
    rewrite Hc. cbn [mbind option_bind]. eexists. split; [done|]. rewrite type_eqb. split.
    + intros Ht. split_and!; [lia| |by eexists].
      repeat (match goal with H : _ \/ _ |- _ => destruct H end; bsimp); tauto.
    + intros (_ & _ & c' & [= <-] & Ht). done.
Qed.

Lemma validate_parts_spec before parts l :
  settled b w l -> Forall (fun p => word (ip_column p)) parts ->
  wp (record_validate_parts schema columns invalid before parts)
    (fun _ l' => settled b w l' /\ Forall (part_ok columns) parts /\
      (NoDup (map ip_column before) -> NoDup (map ip_column (before ++ parts))))
    (check_error (Forall (part_ok columns) parts /\ NoDup (map ip_column (before ++ parts)))) l.
Proof.
  revert before l. induction parts as [|p parts IH]; intros before l Hs Hw; cbn [record_validate_parts].
  - tdb_step. rewrite app_nil_r. by split_and!.
  - apply list.Forall_cons in Hw as [Hp Hw]. tdb_step. apply step_charge; [done|]. intros l1 Hs1. tdb_step.
    destruct (part_bad_spec p Hp) as (bad & -> & Hbad). apply wp_access; [done|]. intros ? [= <-].
    tdb_step. tdb_step.
    { split; [done|]. right. split; [done|]. intros [[Hok _]%list.Forall_cons _]. apply Hbad in Hok. congruence. }
    tdb_step. replace (before ++ p :: parts) with ((before ++ [p]) ++ parts) by by rewrite <- app_assoc.
    eapply wp_mono; [by apply record_distinct_spec| |].
    + intros _ l2 [Hs2 Hn]. eapply wp_mono; [by apply IH| |].
      * intros _ l3 (Hs3 & Hf & Hd). split_and!; [done|constructor; [by apply Hbad|done]|].
        intros Hb. apply Hd. rewrite map_app. apply list.NoDup_app. split_and!; [done| |apply NoDup_singleton].
        cbn. intros x Hx ->%list_elem_of_singleton. done.
      * intros f l3. apply check_error_mono. rewrite list.Forall_cons. tauto.
    + intros f l2. apply check_error_mono. intros [_ Hd]. rewrite !map_app in Hd.
      apply list.NoDup_app in Hd as [Hd _]. apply list.NoDup_app in Hd as (_ & Hd & _).
      intros Hin. apply (Hd _ Hin). apply list_elem_of_here.
Qed.

Lemma table_differs_spec t :
  record_table_differs schema t = Some (negb (bool_decide (t = table))).
Proof.
  unfold record_table_differs. rewrite (so_name _ _ _ Hschema). cbn [vs_len vs_data].
  destruct (Z.eqb_spec (len t) (len table)) as [E|E]; cbn [negb].
  - cbn [mbind option_bind]. rewrite ldn_Some by lia. cbn [mbind option_bind].
    rewrite drop_0, E, Nat2Z.id, firstn_all. done.
  - rewrite bool_decide_eq_false_2; [done|congruence].
Qed.

Lemma record_validate_spec r l :
  settled b w l -> record_words r ->
  wp (record_validate schema columns invalid r) (fun _ l' => settled b w l' /\ record_valid table columns r)
    (check_error (record_valid table columns r)) l.
Proof.
  intros Hs Hw. unfold record_validate.
  tdb_step. tdb_step; bsimp. { split; [done|]. right. split; [done|]. intros []. repeat (destruct H; bsimp); congruence. }
  tdb_step. apply names_bad_spec. tdb_step. tdb_step.
  { split; [done|]. right. split; [done|]. intros []. rewrite rv_name0, rv_identifier0 in *.
    by rewrite bool_decide_eq_false_2 in * by done. }
  bsimp.
  tdb_step. rewrite table_differs_spec. apply wp_access; [done|]. intros d [= <-]. tdb_step. tdb_step.
  { split; [done|]. right. split; [done|]. intros []. rewrite bool_decide_eq_true_2 in * by done. done. }
  tdb_step. rewrite (so_count _ _ _ Hschema). tdb_step; bsimp.
  { split; [done|]. right. split; [done|]. intros []. destruct H; bsimp; lia. }
  eapply wp_mono; [apply validate_parts_spec; [done|apply Hw]| |].
  - intros _ l' (Hs' & Hp & Hd). split; [done|].
    repeat match goal with H : bool_decide _ = true |- _ => apply bool_decide_eq_true in H
      | H : bool_decide _ = false |- _ => apply bool_decide_eq_false in H end.
    split; try done; [lia|]. apply Hd. apply NoDup_nil_2.
  - intros f l'. apply check_error_mono. intros []. done.
Qed.
End ValidateLemmas.

(** ** Encoding *)

Lemma written_name pre k off name :
  off = len pre -> len name < 256 -> (length (name_bytes name) <= k)%nat ->
  record_write_name (written pre k) off name =
    Some (written (pre ++ name_bytes name) (k - length (name_bytes name)), off + len (name_bytes name)).
Proof.
  intros -> Hn Hk. unfold record_write_name, name_bytes in *. cbn [length] in *. rewrite u8_small by lia.
  rewrite written_st by lia. cbn [mbind option_bind].
  rewrite written_stn by (rewrite ?length_app; cbn [length]; lia). cbn [mbind option_bind].
  rewrite <- app_assoc. cbn [app]. do 2 f_equal; [f_equal; lia|lia].
Qed.

Lemma length_part_bytes p : length (part_bytes p) = 6%nat.
Proof. done. Qed.

Lemma length_parts parts : length (concat (map part_bytes parts)) = (6 * length parts)%nat.
Proof. induction parts as [|p parts IH]; [done|]. cbn [map concat]. rewrite length_app, IH, length_part_bytes. cbn. lia. Qed.

Lemma written_parts parts : forall pre k off,
  off = len pre -> k = length (concat (map part_bytes parts)) ->
  record_write_parts (written pre k) off parts = Some (pre ++ concat (map part_bytes parts)).
Proof.
  induction parts as [|p parts IH]; intros pre k off -> ->; cbn [record_write_parts map concat].
  - unfold written. cbn. by rewrite !app_nil_r.
  - rewrite length_app, length_part_bytes. change ORM_SQL_WIRE_U32 with 4%nat.
    rewrite written_wire by lia. cbn [mbind option_bind].
    do 2 (rewrite written_st; [|rewrite !length_app, length_le_bytes; cbn [length];
      unfold INDEX_RECORD_TYPE, INDEX_RECORD_PART_FLAGS; lia|lia]; cbn [mbind option_bind]).
    rewrite IH.
    + unfold part_bytes. by rewrite <- !app_assoc.
    + rewrite !length_app, length_le_bytes. cbn [length]. unfold INDEX_RECORD_PART. lia.
    + lia.
Qed.

Lemma length_header r : length (header_bytes r) = 40%nat.
Proof. unfold header_bytes. by rewrite !length_app, !length_le_bytes. Qed.

Lemma length_record r :
  length (record_bytes r) = (42 + length (id_name (ir_definition r)) + length (id_table (ir_definition r)) +
    6 * length (definition_parts (ir_definition r)))%nat.
Proof. unfold record_bytes, name_bytes. rewrite !length_app, length_header, length_parts. cbn [length]. lia. Qed.

Lemma identifier_name_bytes l : identifier l = true -> bytes_ok (name_bytes l).
Proof.
  intros Hi. constructor; [|by apply identifier_bytes]. pose proof (identifier_size l Hi).
  unfold ORM_SQL_SELECT_NAME_BYTES in *. lia.
Qed.

Lemma record_write_spec r :
  len (id_name (ir_definition r)) < 256 -> len (id_table (ir_definition r)) < 256 ->
  record_write r (replicate (length (record_bytes r)) 0) = Some (record_bytes r).
Proof.
  intros Hn Ht. unfold record_write. change (replicate _ 0) with (written [] (length (record_bytes r))).
  rewrite length_record. remember (6 * length _)%nat as q eqn:Eq.
  rewrite (written_stn []) by (done || cbn; lia). cbn [mbind option_bind app index_record_magic].
  assert (forall k, (if orm_sql_index_has_double (ir_definition r)
    then st (written [83; 73; 1] k) INDEX_RECORD_VERSION INDEX_RECORD_WIRE_REAL else Some (written [83; 73; 1] k)) =
    Some (written [83; 73; if orm_sql_index_has_double (ir_definition r) then 2 else 1] k)) as ->.
  { intros k. case_match; [|done]. unfold written. rewrite st_Some; [done|].
    rewrite length_app. cbn [length]. unfold INDEX_RECORD_VERSION. lia. }
  cbn [mbind option_bind]. change (length index_record_magic) with 3%nat.
  change ORM_SQL_WIRE_U64 with 8%nat. change ORM_SQL_WIRE_U32 with 4%nat.
  rewrite written_st by (done || lia). cbn [mbind option_bind app].
  do 5 (rewrite written_wire; [|rewrite ?length_app, ?length_le_bytes; done|lia]; cbn [mbind option_bind]).
  do 2 (rewrite written_name; [|rewrite !length_app, ?length_le_bytes; cbn [length]; unfold INDEX_RECORD_HEADER; lia|done
    |unfold name_bytes; cbn [length]; lia]; cbn [mbind option_bind]).
  rewrite written_parts.
  - unfold record_bytes, header_bytes, INDEX_RECORD_UNIQUE. by rewrite <- !app_assoc.
  - rewrite !length_app, !length_le_bytes. cbn [length]. unfold INDEX_RECORD_HEADER. lia.
  - rewrite length_parts. unfold name_bytes. cbn [length]. lia.
Qed.

Lemma record_schema_of table columns schema :
  schema_of table columns schema -> record_schema (Some schema) = Some (schema, columns).
Proof.
  intros []. unfold record_schema. rewrite so_columns0, so_name0, so_count0. cbn [vs_data vs_len is_some andb].
  destruct table; [done|]. destruct columns; [done|]. done.
Qed.

(** The errors of an operation on a record: nothing is owned, and either a
    resource was missing or [P] holds. *)
Definition record_error (b : orm_tidesdb_sql_budget) (P : turbodb_failure -> Prop) (f : turbodb_failure)
    (l : ptr orm_tidesdb_sql_budget) : Prop :=
  (resource_status (f_status f) = true \/ P f) /\ settled b 0 l.

Section Encode.
Context `{vec_library} (b : orm_tidesdb_sql_budget) (table : bytes) (columns : list orm_sql_schema_column)
  (schema : orm_sql_table_schema) (Hschema : schema_of table columns schema).

Lemma encode_spec r max_bytes :
  ledger_ok b -> statement_active b = true -> record_words r -> is_some (id_parts (ir_definition r)) = true ->
  0 < max_bytes < 2 ^ 64 ->
  wp (orm_tidesdb_sql_index_record_encode (Some r) (Some schema) max_bytes true)
    (fun out l => record_valid table columns r /\ len (record_bytes r) <= max_bytes /\
      len (definition_parts (ir_definition r)) <= UINT32_MAX /\
      out = mk_work (Some (record_bytes r)) (work_size (len (record_bytes r)) 1 1) /\ settled b (wk_reserved out) l)
    (record_error b (fun f => f_status f = TURBODB_STATUS_INVALID_ARGUMENT /\ ~ record_valid table columns r)) (Some b).
Proof.
  intros Hb Ha Hw Hp Hm. unfold orm_tidesdb_sql_index_record_encode. pose proof (settled_start b Hb Ha) as Hs.
  rewrite (record_schema_of _ _ _ Hschema). do 2 tdb_step. cbn [is_some negb orb]. rewrite Hp. rewrite (proj2 (Z.eqb_neq max_bytes 0)) by lia. tdb_step. tdb_step; [done|].
  tdb_step. eapply wp_mono; [by eapply record_validate_spec| |].
  2:{ intros f l [Hl Hf]. split; [|done]. destruct Hf as [->|]; auto. }
  intros _ l [Hl Hv]. pose proof (identifier_size _ (rv_name _ _ _ Hv)). pose proof (identifier_size _ (rv_identifier _ _ _ Hv)).
  unfold ORM_SQL_SELECT_NAME_BYTES in *. tdb_step. tdb_step.
  { split; [by left|done]. }
  bsimp. assert (INDEX_RECORD_HEADER + INDEX_RECORD_NAME_LENGTHS + len (id_name (ir_definition r)) +
    len (id_table (ir_definition r)) + len (definition_parts (ir_definition r)) * INDEX_RECORD_PART = len (record_bytes r)) as Ez.
  { rewrite length_record. unfold INDEX_RECORD_HEADER, INDEX_RECORD_NAME_LENGTHS, INDEX_RECORD_PART. lia. }
  rewrite Ez. rewrite size_sub_small in * by (unfold INDEX_RECORD_HEADER, INDEX_RECORD_NAME_LENGTHS in *; lia).
  assert (len (record_bytes r) <= max_bytes) as Hle.
  { rewrite <- Ez. unfold INDEX_RECORD_PART in *. match goal with H : _ <= _ / 6 |- _ => revert H end. intros Hd.
    pose proof (Z.mul_div_le (max_bytes - (INDEX_RECORD_HEADER + INDEX_RECORD_NAME_LENGTHS +
      len (id_name (ir_definition r)) + len (id_table (ir_definition r)))) 6). lia. }
  rewrite u64_small by lia. tdb_step.
  eapply wp_mono; [apply work_bytes_spec; [done|]| |by intros f l' [? ?]; split; [left|]].
  { rewrite length_record in *. lia. }
  intros [u out] l' [Hout Hl']. cbn [snd] in Hout. subst out. cbn [wk_vector wk_reserved] in *. rewrite Nat2Z.id.
  tdb_step. apply wp_access; [done|]. intros d [= <-]. tdb_step. rewrite record_write_spec by lia.
  apply wp_access; [done|]. intros d [= <-]. tdb_step. done.
Qed.
End Encode.

(** ** Decoding *)

(** A part the wire can hold, in the given version. *)
Definition part_wire (version : Z) (part : orm_sql_index_part) : Prop :=
  numeric (ty_kind (ip_type part)) /\ 0 <= ip_column part <= UINT32_MAX /\
  (ty_kind (ip_type part) = KIND_DOUBLE -> version = INDEX_RECORD_WIRE_REAL).

Lemma read_name_spec data pre rest (s : ptr orm_tidesdb_sql_budget * orm_sql_index_record) :
  data = pre ++ rest -> bytes_ok data -> word (len data) ->
  wp (record_read_name data (len data) (len pre))
    (fun r s' => s' = s /\ identifier r.1 = true /\ r.2 = len (pre ++ name_bytes r.1) /\
      exists rest', rest = name_bytes r.1 ++ rest')
    (fun f s' => s' = s /\ forall name rest', identifier name = true -> rest <> name_bytes name ++ rest') s.
Proof.
  intros Ed Hd Hw. unfold record_read_name. unfold word in Hw. pose proof Ed as El.
  apply (f_equal (fun l => len l)) in El. rewrite length_app in El.
  tdb_step. tdb_step; bsimp.
  { split; [done|]. intros name rest' _ ->. unfold name_bytes in *. cbn [length app] in *. lia. }
  destruct rest as [|c rest]; [cbn [length] in *; lia|]. cbn [length] in *.
  tdb_step. assert (ld data (len pre) = Some c) as ->.
  { rewrite Ed. unfold ld. case_match; [blia|]. by rewrite Nat2Z.id, list_lookup_middle. }
  apply wp_access; [done|]. intros ? [= <-]. rewrite size_sub_small by lia.
  assert (0 <= c < 256) as Hc by (rewrite Ed in Hd; apply Forall_app in Hd as [_ [? ?]%list.Forall_cons]; done).
  tdb_step. tdb_step; bsimp.
  { split; [done|]. intros name rest' Hn%identifier_size [= -> ->]. rewrite length_app in *.
    repeat (match goal with H : _ \/ _ |- _ => destruct H end; bsimp); lia. }
  assert (drop (Z.to_nat (len pre + 1)) data = rest) as ->.
  { rewrite Ed, drop_app_ge by lia. replace (_ - _)%nat with 1%nat by lia. done. }
  assert (len (take (Z.to_nat c) rest) = c) as Hlen by (rewrite length_take; lia).
  assert (mk_vstr (Some rest) c = mk_vstr (Some (take (Z.to_nat c) rest ++ drop (Z.to_nat c) rest))
    (len (take (Z.to_nat c) rest))) as -> by by rewrite take_drop, Hlen.
  tdb_step. apply name_attempt_app.
  tdb_step. tdb_step; bsimp.
  { split; [done|]. intros name rest' Hn [= Ec ->]. rewrite Ec, Nat2Z.id, take_app_length in *. congruence. }
  tdb_step. assert (ldn data (len pre + 1) c = Some (take (Z.to_nat c) rest)) as ->.
  { rewrite ldn_Some by lia. f_equal. rewrite Ed, drop_app_ge by lia. replace (_ - _)%nat with 1%nat by lia. done. }
  apply wp_access; [done|]. intros ? [= <-]. tdb_step. cbn [fst snd].
  split_and!; [done..|rewrite length_app; unfold name_bytes; cbn [length]; lia|].
  exists (drop (Z.to_nat c) rest). unfold name_bytes. by rewrite Hlen, <- app_comm_cons, take_drop.
Qed.

Definition part_of (column kind flags : Z) : orm_sql_index_part :=
  mk_part column (mk_type (read_kind kind) (negb (Z.land flags INDEX_RECORD_NULLABLE =? 0)))
    (negb (Z.land flags INDEX_RECORD_DESC =? 0)).

(** What the loop tests of a part. *)
Definition part_refused (version kind flags : Z) : bool :=
  (negb (kind =? INDEX_RECORD_I64) && negb (kind =? INDEX_RECORD_U64) &&
    negb ((kind =? INDEX_RECORD_F64) && (version =? INDEX_RECORD_WIRE_REAL))) ||
  negb (Z.land flags (Z.lnot (Z.lor INDEX_RECORD_NULLABLE INDEX_RECORD_DESC)) =? 0).

Lemma part_of_bytes version x kind flags :
  length x = 4%nat -> bytes_ok x -> 0 <= flags -> part_refused version kind flags = false ->
  part_wire version (part_of (le_val x) kind flags) /\ part_bytes (part_of (le_val x) kind flags) = x ++ [kind; flags].
Proof.
  intros Hx Hb Hf Hr. unfold part_refused in Hr. bsimp. pose proof (le_val_range x Hb) as Hl. rewrite Hx in Hl.
  change (Z.lnot _) with (Z.lnot (Z.ones 2)) in *. apply land_lnot_ones in H0; [|lia..].
  assert (flags = 0 \/ flags = 1 \/ flags = 2 \/ flags = 3) as Hc by lia.
  assert (kind = 1 \/ kind = 2 \/ kind = 3 /\ version = INDEX_RECORD_WIRE_REAL) as Hk.
  { unfold INDEX_RECORD_I64, INDEX_RECORD_U64, INDEX_RECORD_F64 in *.
    repeat (match goal with H : _ \/ _ |- _ => destruct H end; bsimp); auto. }
  clear H H0. unfold part_wire, part_bytes, part_of. cbn [ip_column ip_type ty_kind ty_nullable ip_descending].
  replace (le_bytes 4 (le_val x)) with x by (rewrite <- Hx at 1; by rewrite le_bytes_val). unfold numeric, UINT32_MAX.
  split_and!.
  - destruct Hk as [->|[->|[-> _]]]; auto.
  - lia.
  - lia.
  - destruct Hk as [->|[->|[-> ?]]]; done.
  - do 2 f_equal. { destruct Hk as [->|[->|[-> _]]]; done. } f_equal. by destruct Hc as [->|[->|[->| ->]]].
Qed.

Lemma part_of_part version p :
  part_wire version p -> part_refused version (wire_kind (ty_kind (ip_type p))) (part_flags p) = false /\
  part_of (ip_column p) (wire_kind (ty_kind (ip_type p))) (part_flags p) = p.
Proof.
  intros (Hn & _ & Hd). destruct p as [c [k n] d]. cbn in *. unfold part_flags. cbn [ip_type ty_nullable ip_descending].
  destruct Hn as [->|[->| ->]]; [| |rewrite (Hd eq_refl)]; by destruct n, d.
Qed.

Lemma parts_cut x y ps n :
  length x = 4%nat -> length ps = S n -> x ++ y = concat (map part_bytes ps) ->
  exists p ps', ps = p :: ps' /\ length ps' = n /\ x = le_bytes 4 (ip_column p) /\
    y = wire_kind (ty_kind (ip_type p)) :: part_flags p :: concat (map part_bytes ps').
Proof.
  intros Hx Hn E. destruct ps as [|p ps]; [done|]. injection Hn as Hn. exists p, ps. cbn [map concat] in E.
  unfold part_bytes at 1 in E. rewrite <- app_assoc in E. apply app_inj_1 in E as [-> ->]; [done|].
  by rewrite Hx, length_le_bytes.
Qed.

Lemma read_part_bytes data pre rest :
  data = pre ++ rest -> (6 <= length rest)%nat -> bytes_ok data ->
  exists x k f rest', rest = x ++ k :: f :: rest' /\ length x = 4%nat /\ bytes_ok x /\ 0 <= f /\
    ld data (len pre + INDEX_RECORD_TYPE) = Some k /\ ld data (len pre + INDEX_RECORD_PART_FLAGS) = Some f /\
    orm_sql_wire_read data (len pre) ORM_SQL_WIRE_U32 = Some (le_val x).
Proof.
  intros -> Hl Hb. do 6 (destruct rest as [|? rest]; [cbn in Hl; lia|]).
  exists [z; z0; z1; z2], z3, z4, rest. pose proof Hb as [_ Hr]%Forall_app.
  assert (forall i c, 0 <= i -> (z :: z0 :: z1 :: z2 :: z3 :: z4 :: rest) !! Z.to_nat i = Some c ->
    ld (pre ++ z :: z0 :: z1 :: z2 :: z3 :: z4 :: rest) (len pre + i) = Some c) as Hld.
  { intros i c Hi Hc. unfold ld. case_match; [blia|]. rewrite lookup_app_r by lia. rewrite <- Hc. f_equal. lia. }
  repeat (apply list.Forall_cons in Hr as [? Hr]).
  split_and!; try done; try lia.
  - repeat constructor; lia.
  - by apply Hld.
  - by apply Hld.
  - apply wire_read_spec; [unfold ORM_SQL_WIRE_U32; lia|done|]. unfold ORM_SQL_WIRE_U32.
    rewrite ldn_Some by (rewrite ?length_app; cbn [length]; lia). by rewrite !Nat2Z.id, drop_app_length.
Qed.

Lemma read_loop_spec data v l n : forall pre rest before t,
  data = pre ++ rest -> bytes_ok data -> length rest = (6 * n)%nat -> ld data INDEX_RECORD_VERSION = Some v ->
  id_parts (ir_definition t) = Some (before ++ replicate n zero_part) ->
  wp (record_read_loop n (length before) data (len pre))
    (fun _ s => exists ps, s = (l, put_parts (mk_work (Some (before ++ ps)) (id_part_bytes (ir_definition t))) t) /\
      length ps = n /\ Forall (part_wire v) ps /\ rest = concat (map part_bytes ps))
    (fun f s => s.1 = l /\ id_part_bytes (ir_definition s.2) = id_part_bytes (ir_definition t) /\
      id_metadata_bytes (ir_definition s.2) = id_metadata_bytes (ir_definition t) /\
      forall ps, length ps = n -> Forall (part_wire v) ps -> rest <> concat (map part_bytes ps)) (l, t).
Proof.
  induction n as [|n IH]; intros pre rest before t Ed Hd Hl Hv Hp; cbn [record_read_loop].
  - tdb_step. exists []. destruct rest; [|done]. split_and!; try done.
    unfold put_parts, map_definition. cbn [wk_vector wk_reserved]. cbn [replicate] in Hp. rewrite <- Hp. by destruct t as [[] ?].
  - destruct (read_part_bytes data pre rest) as (x & k & f & rest' & Er & Hx & Hxb & Hf & Hk & Hfl & Hc); [done|lia|done|].
    tdb_step. rewrite Hk. apply wp_access; [done|]. intros ? [= <-].
    tdb_step. rewrite Hfl. apply wp_access; [done|]. intros ? [= <-].
    tdb_step. rewrite Hv. apply wp_access; [done|]. intros ? [= <-].
    assert (forall ps, length ps = S n -> Forall (part_wire v) ps -> rest = concat (map part_bytes ps) ->
      part_refused v k f = false /\ exists ps', length ps' = n /\ Forall (part_wire v) ps' /\ rest' = concat (map part_bytes ps')) as Hcut.
    { intros ps Hn Hw E. rewrite Er in E. apply (parts_cut x _ ps n Hx Hn) in E as (p & ps' & -> & Hn' & -> & [= -> -> ->]).
      apply list.Forall_cons in Hw as [Hp' Hw]. split; [by apply part_of_part|eauto]. }
    tdb_step. tdb_step. { split_and!; try done. intros ps Hn Hw E. destruct (Hcut ps Hn Hw E) as [Hr _]. unfold part_refused in Hr. congruence. }
    tdb_step. rewrite Hc. apply wp_access; [done|]. intros ? [= <-]. work_step. work_step.
    destruct (part_of_bytes v x k f Hx Hxb Hf) as [Hw Hb]; [done|].
    assert (data = (pre ++ x ++ [k; f]) ++ rest') as Ed' by (rewrite Ed, Er, <- !app_assoc; done).
    replace (len pre + INDEX_RECORD_PART) with (len (pre ++ x ++ [k; f]))
      by (rewrite !length_app, Hx; cbn [length]; unfold INDEX_RECORD_PART; lia).
    replace (S (length before)) with (length (before ++ [part_of (le_val x) k f])) by (rewrite length_app; cbn; lia).
    eapply wp_mono; [apply (IH _ rest' (before ++ [part_of (le_val x) k f])); [done..| |done|]| |].
    + rewrite Er, length_app, Hx in Hl. cbn [length] in Hl. lia.
    + unfold set_part. cbn. rewrite Hp. cbn [fmap option_fmap option_map replicate].
      rewrite insert_app_r_alt, Nat.sub_diag, <- app_assoc by lia. done.
    + intros _ s (ps & -> & Hn & Hps & ->). exists (part_of (le_val x) k f :: ps). cbn [map concat length].
      rewrite Hb, Er, <- !app_assoc. split_and!; [by destruct t as [[] ?]|by rewrite Hn|by constructor|done].
    + intros e s (E1 & E2 & E3 & E4). split_and!; [done..|]. intros ps Hn Hps E.
      destruct (Hcut ps Hn Hps E) as [_ (ps' & ? & ? & ?)]. by apply (E4 ps').
Qed.

(** What the wire keeps of a record; the receipts and the position in the
    statement text are not stored. *)
Definition essence (r : orm_sql_index_record)
    : list orm_sql_index_part * bytes * bytes * bool * orm_sql_index_identity :=
  let d := ir_definition r in (definition_parts d, id_name d, id_table d, id_unique d, ir_identity r).

Lemma record_valid_essence table columns r r' :
  essence r = essence r' -> record_valid table columns r -> record_valid table columns r'.
Proof. intros [= E1 E2 E3 E4 E5] []. rewrite ?E1, ?E2, ?E3, ?E5 in *. by split. Qed.

Lemma has_double_essence r r' :
  essence r = essence r' -> orm_sql_index_has_double (ir_definition r) = orm_sql_index_has_double (ir_definition r').
Proof. intros [= E1 _ _ _ _]. unfold orm_sql_index_has_double. by rewrite E1. Qed.

Lemma record_bytes_essence r r' : essence r = essence r' -> record_bytes r = record_bytes r'.
Proof.
  intros E. unfold record_bytes, header_bytes. rewrite (has_double_essence r r' E).
  injection E as -> -> -> -> ->. done.
Qed.

Lemma part_bytes_inj v p q : part_wire v p -> part_wire v q -> part_bytes p = part_bytes q -> p = q.
Proof.
  intros Hp Hq E. unfold part_bytes in E. apply app_inj_1 in E as [Ec [= Ek Ef]]; [|done].
  destruct (part_of_part v p Hp) as [_ <-], (part_of_part v q Hq) as [_ <-]. rewrite Ek, Ef. f_equal.
  apply (f_equal le_val) in Ec. rewrite !le_val_bytes in Ec. destruct Hp as (_ & Hp & _), Hq as (_ & Hq & _).
  unfold UINT32_MAX in *. rewrite !Z.mod_small in Ec; lia.
Qed.

Lemma parts_inj v ps qs :
  Forall (part_wire v) ps -> Forall (part_wire v) qs -> length ps = length qs ->
  concat (map part_bytes ps) = concat (map part_bytes qs) -> ps = qs.
Proof.
  intros Hp. revert qs. induction Hp as [|p ps Hp _ IH]; intros [|q qs] Hq Hl E; try done.
  apply list.Forall_cons in Hq as [Hq Hqs]. cbn [map concat] in E. apply app_inj_1 in E as [E1 E2]; [|done].
  f_equal; [by apply (part_bytes_inj v)|]. apply IH; [done| |done]. by injection Hl.
Qed.

Lemma name_bytes_inj a b c d : name_bytes a ++ c = name_bytes b ++ d -> a = b /\ c = d.
Proof. unfold name_bytes. cbn. intros [= El E]. apply app_inj_1 in E; [done|lia]. Qed.

Lemma has_double_wire v r :
  (v =? INDEX_RECORD_WIRE_REAL) = orm_sql_index_has_double (ir_definition r) ->
  Forall (fun p => ty_kind (ip_type p) = KIND_DOUBLE -> v = INDEX_RECORD_WIRE_REAL) (definition_parts (ir_definition r)).
Proof.
  intros E. apply Forall_forall. intros p Hp Hk. apply Z.eqb_eq. rewrite E. apply existsb_exists.
  exists p. split; [by apply list_elem_of_In|]. by rewrite Hk.
Qed.

Lemma valid_wire table columns v r :
  record_valid table columns r -> record_words r ->
  (v =? INDEX_RECORD_WIRE_REAL) = orm_sql_index_has_double (ir_definition r) ->
  Forall (part_wire v) (definition_parts (ir_definition r)).
Proof.
  intros Hv Hw E%has_double_wire. pose proof (rv_parts _ _ _ Hv) as Hp. pose proof (rw_parts _ Hw) as Hc.
  rewrite Forall_forall in *. intros p Hin. destruct (Hp p Hin) as (? & ? & _). specialize (Hc p Hin). specialize (E p Hin).
  unfold part_wire, word in *. split_and!; try done; lia.
Qed.

(** What a record under construction holds of the ledger. *)
Definition owns (b : orm_tidesdb_sql_budget) (r : orm_sql_index_record) (l : ptr orm_tidesdb_sql_budget) : Prop :=
  settled b (id_metadata_bytes (ir_definition r) + id_part_bytes (ir_definition r)) l /\
  0 <= id_metadata_bytes (ir_definition r) /\ 0 <= id_part_bytes (ir_definition r).

Lemma record_destroy_spec b r l :
  owns b r l -> wp (orm_tidesdb_sql_index_record_destroy (Some r)) (fun _ => settled b 0) (fun _ _ => False) l.
Proof.
  intros (Hs & Hm & Hp). unfold orm_tidesdb_sql_index_record_destroy, orm_tidesdb_sql_index_destroy, wp.
  pose proof Hs as (b1 & -> & _).
  pose proof (work_release_settled b _ (Some b1) (id_part_bytes (ir_definition r)) Hs ltac:(lia)) as H1. unfold wp in H1.
  destruct (orm_sql_work_release _ (Some b1)) as [[[]|e|] l1]; try done.
  pose proof (work_release_settled b _ l1 (id_metadata_bytes (ir_definition r)) H1 ltac:(lia)) as H2.
  unfold wp, orm_sql_work_release in H2. destruct (when _ _ l1) as [[[]|e|] l2]; try done.
  by replace (_ - _ - _) with 0 in H2 by lia.
Qed.

Section Decode.
Context `{vec_library} (sizeof_record : Z) (Hsizeof : 0 < sizeof_record < 2 ^ 64) (b : orm_tidesdb_sql_budget)
  (table : bytes) (columns : list orm_sql_schema_column) (schema : orm_sql_table_schema)
  (Hschema : schema_of table columns schema) (data : bytes) (Hdata : bytes_ok data) (Hword : word (len data)).

Definition parts_size (count : Z) : Z := work_size count sizeof_index_part alignof_index_part.

(** The errors while a record is being built. *)
Definition build_error (P : Prop) (f : turbodb_failure) (s : ptr orm_tidesdb_sql_budget * orm_sql_index_record) : Prop :=
  (resource_status (f_status f) = true \/ ~ P) /\ owns b s.2 s.1.

Lemma read_parts_spec v pre rest count t l :
  data = pre ++ rest -> ld data INDEX_RECORD_VERSION = Some v -> 0 < count < 2 ^ 32 ->
  id_parts (ir_definition t) = None -> id_part_bytes (ir_definition t) = 0 -> owns b t l ->
  wp (record_read_parts data (len data) (len pre) count)
    (fun _ s => exists ps, s.2 = put_parts (mk_work (Some ps) (parts_size count)) t /\ len ps = count /\
      Forall (part_wire v) ps /\ rest = concat (map part_bytes ps) /\ owns b s.2 s.1)
    (build_error (exists ps, len ps = count /\ Forall (part_wire v) ps /\ rest = concat (map part_bytes ps))) (l, t).
Proof.
  intros Ed Hv Hc Hp Hb (Hs & Hm & _). unfold record_read_parts. rewrite Hb, Z.add_0_r in Hs. unfold word in Hword.
  assert (len data = len pre + len rest) as El by (rewrite Ed, length_app; lia). rewrite size_sub_small by lia.
  tdb_step. tdb_step.
  { split; [|unfold owns; cbn; rewrite Hb, Z.add_0_r; done]. right. intros (ps & Hn & _ & Er).
    apply (f_equal (fun l => len l)) in Er. rewrite length_parts in Er. unfold INDEX_RECORD_PART in *.
    rewrite u64_small in * by lia. replace (len data - len pre) with (count * 6) in * by lia.
    rewrite Z.div_mul, Z.eqb_refl, Z.ltb_irrefl in * by lia. done. }
  bsimp. unfold INDEX_RECORD_PART in *. rewrite u64_small in * by lia.
  work_step. work_step. unfold parts_work. rewrite Hp, Hb.
  eapply wp_mono; [eapply (work_zero_settled b _ l zero_part count); [done|lia|done..]| |].
  2:{ intros f s (Hf & Hl & Hr). split; [by left|]. unfold owns. cbn. done. }
  intros [] [l1 w] [Ew Hs1]. cbn [fst snd] in *. subst w.
  eapply wp_mono; [apply (read_loop_spec data v l1 (Z.to_nat count) pre rest []); try done; lia| |].
  - intros _ s (ps & -> & Hn & Hw & Er). exists ps. cbn [fst snd].
    assert (0 <= parts_size count) by (unfold parts_size, work_size, sizeof_pointer, sizeof_index_part, alignof_index_part; lia).
    split_and!; [done|lia|done..|]. unfold owns. cbn. done.
  - intros f s (E1 & E2 & E3 & E4). split.
    + right. intros (ps & Hn & Hw & Er). by apply (E4 ps); [lia|..].
    + unfold owns. rewrite E1, E2, E3. cbn.
      assert (0 <= parts_size count) by (unfold parts_size, work_size, sizeof_pointer, sizeof_index_part, alignof_index_part; lia).
      done.
Qed.

(** The record a decoder starts with. *)
Definition blank (unique : bool) (identity : orm_sql_index_identity) : orm_sql_index_record :=
  mk_record (mk_definition None 0 0 0 [] [] unique false) identity.

(** The record it returns. *)
Definition built (ps : list orm_sql_index_part) (name t : bytes) (unique : bool) (identity : orm_sql_index_identity)
    : orm_sql_index_record :=
  mk_record (mk_definition (Some ps) (parts_size (len ps)) sizeof_record 0 name t unique false) identity.

Definition tail_bytes (r : orm_sql_index_record) : bytes :=
  name_bytes (id_name (ir_definition r)) ++ name_bytes (id_table (ir_definition r)) ++
  concat (map part_bytes (definition_parts (ir_definition r))).

(** The records a header announces. *)
Record announced (v count : Z) (unique : bool) (identity : orm_sql_index_identity) (r : orm_sql_index_record) : Prop := {
  an_valid : record_valid table columns r;
  an_words : record_words r;
  an_version : (v =? INDEX_RECORD_WIRE_REAL) = orm_sql_index_has_double (ir_definition r);
  an_count : len (definition_parts (ir_definition r)) = count;
  an_unique : id_unique (ir_definition r) = unique;
  an_identity : ir_identity r = identity
}.

Lemma read_reserve_spec t count l (k : Z -> R unit) (Q : unit -> ptr orm_tidesdb_sql_budget * orm_sql_index_record -> Prop) P :
  settled b 0 l -> id_part_bytes (ir_definition t) = 0 -> id_metadata_bytes (ir_definition t) = 0 -> 0 < count < 2 ^ 32 ->
  (forall l', settled b sizeof_record l' -> wp (k sizeof_record) Q (build_error P) (l', t)) ->
  wp (on_ledger (record_charge ORM_SQL_BUDGET_EXECUTION_STEPS (len data));;
      on_ledger (record_charge ORM_SQL_BUDGET_PLAN_NODES (count + 1));;
      metadata ← on_ledger (orm_tidesdb_sql_budget_reserve_capacity 1 sizeof_record 0 true); k metadata)
    Q (build_error P) (l, t).
Proof.
  intros Hs Hp Hm Hc HQ.
  assert (forall f l', settled b 0 l' /\ f_status f = TURBODB_STATUS_LIMIT_EXCEEDED -> build_error P f (l', t)) as HE.
  { intros f l' [Hl Hf]. unfold build_error, owns. cbn [fst snd]. rewrite Hp, Hm, Hf. split; [by left|done]. }
  do 2 work_step. eapply wp_mono; [apply record_charge_settled; try done; unfold COUNT, ORM_SQL_BUDGET_EXECUTION_STEPS; lia| |apply HE].
  intros [] l1 H1. do 2 work_step.
  eapply wp_mono; [apply record_charge_settled; try done; unfold word, COUNT, ORM_SQL_BUDGET_PLAN_NODES; lia| |apply HE].
  intros [] l2 H2. do 2 work_step. eapply wp_mono; [apply capacity_settled; try done; unfold word; lia| |apply HE].
  intros n l3 (-> & _ & H3). replace (1 * sizeof_record + 0) with sizeof_record in * by lia. apply HQ. by rewrite Z.add_0_l in H3.
Qed.

(** The check at the end: the version against the key types, then the record
    against the schema. *)
Lemma read_check_spec v count unique identity name t ps l :
  word (ii_table_id identity) -> word (ii_table_generation identity) -> word (ii_index_id identity) ->
  word (ii_generation identity) -> ld data INDEX_RECORD_VERSION = Some v -> Forall (part_wire v) ps -> len ps = count ->
  owns b (built ps name t unique identity) l ->
  wp (version ← access (ld data INDEX_RECORD_VERSION);
      record ← gets snd;
      raise_if (negb (Bool.eqb (version =? INDEX_RECORD_WIRE_REAL) (orm_sql_index_has_double (ir_definition record))))
        TURBODB_STATUS_DATASTORE_ERROR "SQL index record version does not match key types";;
      on_ledger (record_validate schema columns TURBODB_STATUS_DATASTORE_ERROR record))
    (fun _ s => s.2 = built ps name t unique identity /\ announced v count unique identity s.2 /\ owns b s.2 s.1)
    (build_error (announced v count unique identity (built ps name t unique identity)))
    (l, built ps name t unique identity).
Proof.
  intros W1 W2 W3 W4 Hv Hps Hn Ho. assert (record_words (built ps name t unique identity)) as Hw.
  { split; try done. cbn. eapply Forall_impl; [done|]. intros p (_ & Hp & _). unfold word, UINT32_MAX in *. lia. }
  work_step. rewrite Hv. apply wp_access; [done|]. intros ? [= <-]. do 4 work_step; cbn [fst snd].
  { split; [|done]. right. intros Ha. rewrite (an_version _ _ _ _ _ Ha), eqb_reflx in *. done. }
  work_step. bsimp. match goal with H : Bool.eqb _ _ = true |- _ => apply eqb_prop in H end. destruct Ho as (Hs & Hm & Hp).
  eapply wp_mono; [eapply record_validate_spec; done| |].
  - intros _ l' [Hl Hval]. cbn [fst snd]. split_and!; [done|by split|by split].
  - intros f l' [Hl Hf]. split; [|by split]. destruct Hf as [->|[_ Hf]]; [by left|]. right. intros Ha. apply Hf, Ha.
Qed.

Lemma record_read_spec v count unique identity header rest l :
  word (ii_table_id identity) -> word (ii_table_generation identity) -> word (ii_index_id identity) ->
  word (ii_generation identity) -> data = header ++ rest -> length header = 40%nat ->
  ld data INDEX_RECORD_VERSION = Some v -> 0 < count < 2 ^ 32 -> settled b 0 l ->
  wp (record_read sizeof_record data (len data) count schema columns)
    (fun _ s => announced v count unique identity s.2 /\ rest = tail_bytes s.2 /\ owns b s.2 s.1 /\
      id_metadata_bytes (ir_definition s.2) = sizeof_record /\ id_part_bytes (ir_definition s.2) = parts_size count)
    (build_error (exists r, announced v count unique identity r /\ rest = tail_bytes r)) (l, blank unique identity).
Proof.
  intros W1 W2 W3 W4 Ed Hh Hv Hc Hs. unfold record_read. apply read_reserve_spec; try done.
  intros l1 Hs1. do 2 work_step.
  assert (forall name t, owns b (mk_record (mk_definition None 0 sizeof_record 0 name t unique false) identity) l1) as Ho
    by (intros; unfold owns; cbn; rewrite Z.add_0_r; split_and!; [done|lia|done]).
  work_step. replace INDEX_RECORD_HEADER with (len header) by (rewrite Hh; done).
  eapply wp_mono; [by apply read_name_spec| |].
  2:{ intros f s [-> Hf]. split; [|apply Ho]. right. intros (r & Ha & ->). eapply Hf; [|done]. apply Ha. }
  intros [name off] s (-> & Hn & Eo & rest1 & Er1). cbn [fst snd] in *. subst off. do 2 work_step.
  work_step. eapply wp_mono; [apply (read_name_spec data (header ++ name_bytes name) rest1); [by rewrite <- app_assoc, <- Er1|done..]| |].
  2:{ intros f s [-> Hf]. split; [|apply Ho]. right. intros (r & Ha & E). rewrite Er1 in E.
    apply name_bytes_inj in E as [_ ->]. eapply Hf; [|done]. apply Ha. }
  intros [t off] s (-> & Ht & Eo & rest2 & Er2). cbn [fst snd] in *. subst off. do 2 work_step. work_step.
  eapply wp_mono; [apply (read_parts_spec v _ rest2); try done|..].
  - rewrite <- !app_assoc, <- Er2, <- Er1. done.
  - apply Ho.
  - intros [] [l2 r] (ps & Er & Hl & Hps & Ec & Ho2). cbn [fst snd] in *. subst count.
    assert (r = built ps name t unique identity) as -> by done.
    eapply wp_mono; [eapply read_check_spec; done| |].
    + intros _ s (E1 & E2 & E3). split_and!; [done| |done|by rewrite E1..].
      rewrite E1, Er1, Er2, Ec. done.
    + intros f s [Hf Hs2]. split; [|done]. destruct Hf as [Hf|Hf]; [by left|]. right. intros (r & Ha & E). apply Hf.
      rewrite Er1, Er2, Ec in E. unfold tail_bytes in E. apply name_bytes_inj in E as [En [Et Eq]%name_bytes_inj].
      pose proof (parts_inj v ps _ Hps (valid_wire _ _ _ _ (an_valid _ _ _ _ _ Ha) (an_words _ _ _ _ _ Ha)
        (an_version _ _ _ _ _ Ha)) ltac:(pose proof (an_count _ _ _ _ _ Ha); lia) Eq) as Ep.
      assert (essence r = essence (built ps name t unique identity)) as Ee.
      { unfold essence. rewrite <- Ep, <- En, <- Et, (an_unique _ _ _ _ _ Ha), (an_identity _ _ _ _ _ Ha). done. }
      destruct Ha. split; try done; [by eapply record_valid_essence| |by rewrite <- (has_double_essence _ _ Ee)].
      split; try done. cbn. rewrite Ep. apply an_words0.
  - intros f s [Hf Hs2]. split; [|done]. destruct Hf as [Hf|Hf]; [by left|]. right. intros (r & Ha & E). apply Hf.
    rewrite Er1, Er2 in E. unfold tail_bytes in E. apply name_bytes_inj in E as [_ [_ Eq]%name_bytes_inj].
    eexists. split_and!; [apply (an_count _ _ _ _ _ Ha)| |exact Eq].
    by eapply valid_wire; [apply (an_valid _ _ _ _ _ Ha)|apply (an_words _ _ _ _ _ Ha)|apply (an_version _ _ _ _ _ Ha)].
Qed.

(** A record the wire can hold. *)
Definition storable (r : orm_sql_index_record) : Prop :=
  record_valid table columns r /\ record_words r /\ len (definition_parts (ir_definition r)) <= UINT32_MAX.

(** The fields of the header. *)
Record header_fields (m v f : Z) (m' : Z) (x1 x2 x3 x4 x5 rest : bytes) : Prop := {
  hf_data : data = (m :: m' :: v :: f :: x1 ++ x2 ++ x3 ++ x4 ++ x5) ++ rest;
  hf_size : length x1 = 8%nat /\ length x2 = 8%nat /\ length x3 = 8%nat /\ length x4 = 8%nat /\ length x5 = 4%nat;
  hf_bytes : bytes_ok x1 /\ bytes_ok x2 /\ bytes_ok x3 /\ bytes_ok x4 /\ bytes_ok x5 /\ 0 <= f < 256;
  hf_magic : ldn data 0 INDEX_RECORD_VERSION = Some [m; m'];
  hf_version : ld data INDEX_RECORD_VERSION = Some v;
  hf_flags : ld data INDEX_RECORD_FLAGS = Some f;
  hf_table : orm_sql_wire_read data INDEX_RECORD_TABLE ORM_SQL_WIRE_U64 = Some (le_val x1);
  hf_table_generation : orm_sql_wire_read data INDEX_RECORD_TABLE_GENERATION ORM_SQL_WIRE_U64 = Some (le_val x2);
  hf_id : orm_sql_wire_read data INDEX_RECORD_ID ORM_SQL_WIRE_U64 = Some (le_val x3);
  hf_generation : orm_sql_wire_read data INDEX_RECORD_GENERATION ORM_SQL_WIRE_U64 = Some (le_val x4);
  hf_count : orm_sql_wire_read data INDEX_RECORD_COUNT ORM_SQL_WIRE_U32 = Some (le_val x5)
}.

Lemma header_split :
  42 <= len data -> exists m m' v f x1 x2 x3 x4 x5 rest, header_fields m v f m' x1 x2 x3 x4 x5 rest.
Proof.
  intros Hl. assert (exists m m' v f d, data = m :: m' :: v :: f :: d) as (m & m' & v & f & d & Ed).
  { clear -Hl. destruct data as [|m [|m' [|v [|f d]]]]; try (cbn [length] in Hl; lia). by repeat eexists. }
  rewrite Ed in Hl. cbn [length] in Hl.
  destruct (cut_bytes 8 d) as (x1 & d1 & E1 & L1); [lia|]. rewrite E1, length_app in Hl.
  destruct (cut_bytes 8 d1) as (x2 & d2 & E2 & L2); [lia|]. rewrite E2, length_app in Hl.
  destruct (cut_bytes 8 d2) as (x3 & d3 & E3 & L3); [lia|]. rewrite E3, length_app in Hl.
  destruct (cut_bytes 8 d3) as (x4 & d4 & E4 & L4); [lia|]. rewrite E4, length_app in Hl.
  destruct (cut_bytes 4 d4) as (x5 & d5 & E5 & L5); [lia|].
  exists m, m', v, f, x1, x2, x3, x4, x5, d5. subst d d1 d2 d3 d4.
  pose proof Hdata as Hb. rewrite Ed in Hb. repeat (apply list.Forall_cons in Hb as [? Hb] || apply Forall_app in Hb as [? Hb]).
  split; try done; try (by rewrite Ed); try (by rewrite Ed; cbn [app]; rewrite <- !app_assoc).
  - rewrite ldn_Some; [by rewrite Ed|done..|rewrite Ed; cbn [length]; unfold INDEX_RECORD_VERSION; lia].
  - eapply (wire_read_mid data [m; m'; v; f]); [done|exact Ed|done..].
  - eapply (wire_read_mid data ([m; m'; v; f] ++ x1) x2); [done|by rewrite Ed, <- !app_assoc|by rewrite length_app, L1|done..].
  - eapply (wire_read_mid data ([m; m'; v; f] ++ x1 ++ x2) x3);
      [done|by rewrite Ed, <- !app_assoc|by rewrite !length_app, L1, L2|done..].
  - eapply (wire_read_mid data ([m; m'; v; f] ++ x1 ++ x2 ++ x3) x4);
      [done|by rewrite Ed, <- !app_assoc|by rewrite !length_app, L1, L2, L3|done..].
  - eapply (wire_read_mid data ([m; m'; v; f] ++ x1 ++ x2 ++ x3 ++ x4) x5);
      [done|by rewrite Ed, <- !app_assoc|by rewrite !length_app, L1, L2, L3, L4|done|unfold ORM_SQL_WIRE_U32; lia].
Qed.

Section Header.
Context (m v f m' : Z) (x1 x2 x3 x4 x5 rest : bytes) (Hf : header_fields m v f m' x1 x2 x3 x4 x5 rest).

Definition header_identity : orm_sql_index_identity := mk_identity (le_val x1) (le_val x2) (le_val x3) (le_val x4).
Definition header_unique : bool := negb (Z.land f INDEX_RECORD_UNIQUE =? 0).

Lemma header_sound out :
  m = 83 -> m' = 73 -> v = 1 \/ v = 2 -> Z.land f (Z.lnot INDEX_RECORD_UNIQUE) = 0 ->
  announced v (le_val x5) header_unique header_identity out -> rest = tail_bytes out -> record_bytes out = data.
Proof.
  intros -> -> Hv Hl [_ _ Av Ac Au Ai] Er. destruct Hf as [Ed (L1 & L2 & L3 & L4 & L5) (B1 & B2 & B3 & B4 & B5 & B6) _ _ _ _ _ _ _ _].
  rewrite Ed, Er. unfold record_bytes. f_equal. unfold header_bytes. rewrite Ai, Au, Ac, <- Av. cbn.
  change (Z.lnot INDEX_RECORD_UNIQUE) with (Z.lnot (Z.ones 1)) in Hl. apply land_lnot_ones in Hl; [|lia..].
  repeat match goal with |- context [le_bytes ?n (le_val ?x)] =>
    replace (le_bytes n (le_val x)) with x by (symmetry; rewrite <- (le_bytes_val x) at 2 by done; f_equal; congruence) end.
  do 2 f_equal. assert (f = 0 \/ f = 1) as Hc by lia. unfold header_unique.
  f_equal; [by destruct Hv as [->| ->]|]. f_equal. by destruct Hc as [->| ->].
Qed.

Lemma header_complete r :
  storable r -> record_bytes r = data ->
  m = 83 /\ m' = 73 /\ (v = 1 \/ v = 2) /\ Z.land f (Z.lnot INDEX_RECORD_UNIQUE) = 0 /\
  announced v (le_val x5) header_unique header_identity r /\ rest = tail_bytes r.
Proof.
  unfold header_identity, header_unique. intros (Hv & Hw & Hc) E. destruct Hf as [Ed (L1 & L2 & L3 & L4 & L5) _ _ _ _ _ _ _ _ _].
  rewrite Ed in E. unfold record_bytes in E. apply app_inj_1 in E as [E Er].
  2:{ rewrite length_header. cbn [length]. rewrite !length_app, L1, L2, L3, L4, L5. done. }
  unfold header_bytes in E.
  change (m :: m' :: v :: f :: x1 ++ x2 ++ x3 ++ x4 ++ x5) with ([m; m'; v; f] ++ x1 ++ x2 ++ x3 ++ x4 ++ x5) in E.
  apply app_inj_1 in E as [[= <- <- <- <-] E]; [|done].
  apply app_inj_1 in E as [<- E]; [|by rewrite L1]. apply app_inj_1 in E as [<- E]; [|by rewrite L2].
  apply app_inj_1 in E as [<- E]; [|by rewrite L3]. apply app_inj_1 in E as [<- <-]; [|by rewrite L4].
  rewrite !le_val_bytes. unfold UINT32_MAX in Hc.
  pose proof (rw_table_id _ Hw). pose proof (rw_table_generation _ Hw). pose proof (rw_index_id _ Hw).
  pose proof (rw_generation _ Hw). unfold word in *. rewrite !Z.mod_small by lia.
  do 2 (split; [done|]). split; [case_match; auto|].
  split; [by destruct (id_unique _)|]. split; [|done].
  split; try done; [by destruct (orm_sql_index_has_double _)|by destruct (id_unique _)|by destruct (ir_identity r)].
Qed.
End Header.

Lemma header_words m v f m' x1 x2 x3 x4 x5 rest :
  header_fields m v f m' x1 x2 x3 x4 x5 rest ->
  word (le_val x1) /\ word (le_val x2) /\ word (le_val x3) /\ word (le_val x4) /\ 0 <= le_val x5 < 2 ^ 32.
Proof.
  intros [_ (L1 & L2 & L3 & L4 & L5) (B1 & B2 & B3 & B4 & B5 & B6) _ _ _ _ _ _ _ _].
  pose proof (le_val_range x1 B1). pose proof (le_val_range x2 B2). pose proof (le_val_range x3 B3).
  pose proof (le_val_range x4 B4). pose proof (le_val_range x5 B5). rewrite L1, L2, L3, L4, L5 in *.
  change (8 * Z.of_nat 8) with 64 in *. change (8 * Z.of_nat 4) with 32 in *. done.
Qed.

Lemma decode_spec max_bytes :
  ledger_ok b -> statement_active b = true -> 0 < max_bytes < 2 ^ 64 ->
  wp (orm_tidesdb_sql_index_record_decode sizeof_record (Some data) (len data) (Some schema) max_bytes true)
    (fun out l => storable out /\ record_bytes out = data /\ len data <= max_bytes /\
      id_metadata_bytes (ir_definition out) = sizeof_record /\
      id_part_bytes (ir_definition out) = parts_size (len (definition_parts (ir_definition out))) /\ owns b out l)
    (record_error b (fun _ => forall r, storable r -> record_bytes r <> data)) (Some b).
Proof.
  intros Hb Ha Hm. pose proof (settled_start b Hb Ha) as Hs. unfold orm_tidesdb_sql_index_record_decode.
  do 2 tdb_step. rewrite (record_schema_of _ _ _ Hschema). cbn [is_some negb orb id].
  rewrite (proj2 (Z.eqb_neq max_bytes 0)) by lia. tdb_step. tdb_step; [done|]. tdb_step. tdb_step; [split; [by left|done]|].
  tdb_step. tdb_step; bsimp.
  { split; [right|done]. intros r _ E. rewrite <- E, length_record in *. unfold INDEX_RECORD_HEADER, INDEX_RECORD_NAME_LENGTHS in *. lia. }
  destruct header_split as (m & m' & v & f & x1 & x2 & x3 & x4 & x5 & rest & Hf);
    [unfold INDEX_RECORD_HEADER, INDEX_RECORD_NAME_LENGTHS in *; lia|].
  pose proof (header_complete _ _ _ _ _ _ _ _ _ _ Hf) as Hcomplete. pose proof (header_words _ _ _ _ _ _ _ _ _ _ Hf) as (W1 & W2 & W3 & W4 & W5).
  tdb_step. rewrite (hf_magic _ _ _ _ _ _ _ _ _ _ Hf). apply wp_access; [done|]. intros ? [= <-]. tdb_step. tdb_step; bsimp.
  { split; [right|done]. intros r Hr E. destruct (Hcomplete r Hr E) as (-> & -> & _). by rewrite bool_decide_eq_true_2 in *. }
  match goal with H : bool_decide _ = true |- _ => apply bool_decide_eq_true in H as [= -> ->] end.
  tdb_step. rewrite (hf_version _ _ _ _ _ _ _ _ _ _ Hf). apply wp_access; [done|]. intros ? [= <-]. tdb_step. tdb_step.
  { split; [right|done]. intros r Hr E. destruct (Hcomplete r Hr E) as (_ & _ & [-> | ->] & _); done. }
  tdb_step. rewrite (hf_count _ _ _ _ _ _ _ _ _ _ Hf). apply wp_access; [done|]. intros ? [= <-].
  tdb_step. rewrite (hf_flags _ _ _ _ _ _ _ _ _ _ Hf). apply wp_access; [done|]. intros ? [= <-].
  tdb_step. tdb_step.
  { split; [right|done]. intros r Hr E. destruct (Hcomplete r Hr E) as (_ & _ & _ & Ef & Hn & _).
    pose proof (an_count _ _ _ _ _ Hn) as En. pose proof (rv_count _ _ _ (an_valid _ _ _ _ _ Hn)).
    rewrite Ef, Z.eqb_refl, (so_count _ _ _ Hschema) in *. unfold INDEX_RECORD_HEADER, INDEX_RECORD_NAME_LENGTHS, INDEX_RECORD_PART, word in *.
    rewrite !size_sub_small in * by (rewrite ?size_sub_small; lia).
    assert (le_val x5 <= (len data - 40 - 2) / 6) by (rewrite <- E, length_record; apply Z.div_le_lower_bound; lia).
    repeat (bsimp; match goal with H : _ \/ _ |- _ => destruct H end); bsimp; try done; lia. }
  tdb_step. rewrite (hf_table _ _ _ _ _ _ _ _ _ _ Hf). apply wp_access; [done|]. intros ? [= <-].
  tdb_step. rewrite (hf_table_generation _ _ _ _ _ _ _ _ _ _ Hf). apply wp_access; [done|]. intros ? [= <-].
  tdb_step. rewrite (hf_id _ _ _ _ _ _ _ _ _ _ Hf). apply wp_access; [done|]. intros ? [= <-].
  tdb_step. rewrite (hf_generation _ _ _ _ _ _ _ _ _ _ Hf). apply wp_access; [done|]. intros ? [= <-].
  bsimp. tdb_step. eapply (wp_mono _ _ _ (fun f' l => (resource_status (f_status f') = true \/
    ~ exists r, announced v (le_val x5) (header_unique f) (header_identity x1 x2 x3 x4) r /\ rest = tail_bytes r) /\ settled b 0 l)).
  - apply (transact_wp _ _ _ b _ (fun r l => announced v (le_val x5) (header_unique f) (header_identity x1 x2 x3 x4) r.2 /\
      rest = tail_bytes r.2 /\ owns b r.2 l /\ id_metadata_bytes (ir_definition r.2) = sizeof_record /\
      id_part_bytes (ir_definition r.2) = parts_size (le_val x5)) _ (owns b)); [|intros; by apply record_destroy_spec].
    eapply (record_read_spec v (le_val x5) (header_unique f) (header_identity x1 x2 x3 x4)); try done; [apply Hf| |apply Hf|lia].
    destruct Hf as [_ (L1 & L2 & L3 & L4 & L5) _ _ _ _ _ _ _ _ _]. cbn [length]. by rewrite !length_app, L1, L2, L3, L4, L5.
  - intros [[] out] l (Ha1 & Er & Ho & Em & Ep). cbn [fst snd] in *. tdb_step. pose proof (an_count _ _ _ _ _ Ha1) as Ec.
    split_and!; try done; [| |by rewrite Ec].
    + split_and!; [apply Ha1|apply Ha1|rewrite Ec; unfold UINT32_MAX; lia].
    + eapply header_sound; try done. match goal with H : _ \/ _ |- _ => destruct H end; bsimp; auto.
  - intros f' l [He Hl]. split; [|done]. destruct He as [He|He]; [by left|]. right. intros r Hr E. apply He.
    destruct (Hcomplete r Hr E) as (_ & _ & _ & _ & ? & ?). eauto.
Qed.
End Decode.

(** ** Round trip *)

Lemma part_bytes_ok v p : part_wire v p -> bytes_ok (part_bytes p).
Proof.
  intros (Hn & _). apply Forall_app_2; [apply le_bytes_ok|]. repeat constructor; cbn.
  1-2: by destruct Hn as [->|[->| ->]].
  all: unfold part_flags; by destruct (ty_nullable _), (ip_descending p).
Qed.

Lemma record_bytes_ok table columns r : storable table columns r -> bytes_ok (record_bytes r).
Proof.
  intros (Hv & Hw & _). unfold record_bytes, header_bytes.
  apply Forall_app_2; [apply Forall_app_2|do 2 (apply Forall_app_2; [apply identifier_name_bytes, Hv|])].
  - repeat (apply Forall_cons_2; [try case_match; lia|]). apply Forall_nil_2.
  - repeat (apply Forall_app_2; [apply le_bytes_ok|]). apply le_bytes_ok.
  - apply Forall_concat, Forall_map, (Forall_impl (part_wire 2)); [|intros; by eapply part_bytes_ok].
    pose proof (rv_parts _ _ _ Hv) as Hp. pose proof (rw_parts _ Hw) as Hc. rewrite Forall_forall in *. intros p Hin.
    destruct (Hp p Hin) as (? & ? & _). specialize (Hc p Hin). unfold word in *. split_and!; [done|lia|done|done].
Qed.

Lemma record_bytes_inj table columns r r' :
  storable table columns r -> storable table columns r' -> record_bytes r = record_bytes r' -> essence r = essence r'.
Proof.
  intros (Hv & Hw & Hc) (Hv' & Hw' & Hc') E. unfold record_bytes in E. apply app_inj_1 in E as [Eh Et]; [|by rewrite !length_header].
  apply name_bytes_inj in Et as [En [Et Ep]%name_bytes_inj]. unfold header_bytes in Eh.
  apply app_inj_1 in Eh as [[= Ed Eu] Eh]; [|done].
  do 4 (let Ex := fresh "E" in apply app_inj_1 in Eh as [Ex Eh]; [|by rewrite !length_le_bytes];
    apply le_bytes_inj in Ex; [|apply Hw|apply Hw']).
  unfold UINT32_MAX in *. apply le_bytes_inj in Eh; [|cbn; lia..].
  assert (orm_sql_index_has_double (ir_definition r) = orm_sql_index_has_double (ir_definition r')) as Ehd by (by repeat case_match).
  set (v := if orm_sql_index_has_double (ir_definition r) then INDEX_RECORD_WIRE_REAL else INDEX_RECORD_WIRE_INTEGER).
  assert ((v =? INDEX_RECORD_WIRE_REAL) = orm_sql_index_has_double (ir_definition r)) as Hd by (unfold v; by destruct (orm_sql_index_has_double (ir_definition r))).
  pose proof (valid_wire _ _ _ _ Hv Hw Hd) as Hp. rewrite Ehd in Hd. pose proof (valid_wire _ _ _ _ Hv' Hw' Hd) as Hp'.
  unfold essence. rewrite En, Et, (parts_inj v _ _ Hp Hp') by (done || lia).
  destruct (ir_identity r), (ir_identity r'); cbn in *; subst. f_equal. f_equal. by destruct (id_unique _), (id_unique _).
Qed.

(** ** Properties *)

(** C30. Encoding an index record succeeds exactly for a record its table
    admits (nonzero identities, valid names other than PRIMARY, distinct key
    columns with the types of the schema), up to the capacity, the ledger and
    the allocator. It then returns the wire form of the record in a vector
    whose bytes are the only ones it leaves charged; a failure leaves no work
    bytes charged. *)
Theorem index_record_encode_exact `{vec_library} b r table columns schema max_bytes :
  reachable b -> statement_active b = true -> schema_of table columns schema -> record_words r ->
  is_some (id_parts (ir_definition r)) = true -> 0 < max_bytes < 2 ^ 64 ->
  match orm_tidesdb_sql_index_record_encode (Some r) (Some schema) max_bytes true (Some b) with
  | (Ret out, l) => storable table columns r /\ wk_vector out = Some (record_bytes r) /\ len (record_bytes r) <= max_bytes /\
      wk_reserved out = len (record_bytes r) + sizeof_pointer /\ settled b (wk_reserved out) l /\
      wp (orm_sql_work_release (wk_reserved out)) (fun _ => settled b 0) (fun _ _ => False) l
  | (Err f, l) => settled b 0 l /\ (resource_status (f_status f) = true \/
      f_status f = TURBODB_STATUS_INVALID_ARGUMENT /\ ~ record_valid table columns r)
  | (Fault, _) => False
  end.
Proof.
  intros Hb%reachable_ledger_ok Ha Hs Hw Hp Hm. pose proof (encode_spec b table columns schema Hs r max_bytes Hb Ha Hw Hp Hm) as He.
  unfold wp in He. destruct (orm_tidesdb_sql_index_record_encode _ _ _ _ _) as [[out|f|] l]; [|by destruct He|done].
  destruct He as (Hv & Hl & Hc & -> & Hst). cbn [wk_vector wk_reserved] in *. split_and!; try done.
  - unfold work_size. lia.
  - rewrite <- (Z.sub_diag (work_size (len (record_bytes r)) 1 1)). apply work_release_settled; [done|].
    unfold work_size, sizeof_pointer. lia.
Qed.

(** C9. Decoding untrusted bytes of an index record returns a record exactly
    when they are the wire form of a record that the table admits. The record
    is that one, it holds exactly its receipts of the ledger, and destroying it
    gives them back; a failure leaves no work bytes charged, and unless the
    capacity, the ledger or the allocator is to blame no admissible record has
    these bytes. *)
Theorem index_record_decode_exact `{vec_library} sizeof_record b table columns schema data max_bytes :
  0 < sizeof_record < 2 ^ 64 -> reachable b -> statement_active b = true -> schema_of table columns schema ->
  bytes_ok data -> word (len data) -> 0 < max_bytes < 2 ^ 64 ->
  match orm_tidesdb_sql_index_record_decode sizeof_record (Some data) (len data) (Some schema) max_bytes true (Some b) with
  | (Ret out, l) => storable table columns out /\ record_bytes out = data /\ len data <= max_bytes /\
      settled b (sizeof_record + parts_size (len (definition_parts (ir_definition out)))) l /\
      wp (orm_tidesdb_sql_index_record_destroy (Some out)) (fun _ => settled b 0) (fun _ _ => False) l
  | (Err f, l) => settled b 0 l /\ (resource_status (f_status f) = true \/
      forall r, storable table columns r -> record_bytes r <> data)
  | (Fault, _) => False
  end.
Proof.
  intros Hz Hb%reachable_ledger_ok Ha Hs Hd Hw Hm.
  pose proof (decode_spec sizeof_record Hz b table columns schema Hs data Hd Hw max_bytes Hb Ha Hm) as He. unfold wp in He.
  destruct (orm_tidesdb_sql_index_record_decode _ _ _ _ _ _ _) as [[out|f|] l]; [|by destruct He|done].
  destruct He as (Hv & Hl & Hc & Em & Ep & Ho). split_and!; try done; [|by apply record_destroy_spec].
  destruct Ho as [Ho _]. by rewrite Em, Ep in Ho.
Qed.

(** C28. A record read back is the record that was written: the bytes that
    encoding returned, decoded against the same schema in any statement, give
    the same key parts, names, uniqueness and identity, or the capacity, the
    ledger or the allocator of the reader fails. *)
Theorem index_record_roundtrip `{vec_library} sizeof_record b b' r table columns schema max_bytes max_bytes' out data l :
  reachable b -> statement_active b = true -> reachable b' -> statement_active b' = true -> 0 < sizeof_record < 2 ^ 64 ->
  schema_of table columns schema -> record_words r -> is_some (id_parts (ir_definition r)) = true ->
  0 < max_bytes < 2 ^ 64 -> 0 < max_bytes' < 2 ^ 64 ->
  orm_tidesdb_sql_index_record_encode (Some r) (Some schema) max_bytes true (Some b) = (Ret out, l) ->
  wk_vector out = Some data ->
  wp (orm_tidesdb_sql_index_record_decode sizeof_record (Some data) (len data) (Some schema) max_bytes' true)
    (fun r' _ => essence r' = essence r) (fun f _ => resource_status (f_status f) = true) (Some b').
Proof.
  intros Hb%reachable_ledger_ok Ha Hb'%reachable_ledger_ok Ha' Hz Hs Hw Hp Hm Hm' He Hout.
  pose proof (wp_Ret _ _ _ _ _ _ (encode_spec b table columns schema Hs r max_bytes Hb Ha Hw Hp Hm) He) as (Hv & Hl & Hc & -> & _).
  injection Hout as <-. assert (storable table columns r) as Hst by done.
  eapply wp_mono; [apply (decode_spec sizeof_record Hz b' table columns schema Hs); try done|..].
  - by eapply record_bytes_ok.
  - unfold word. lia.
  - intros r' l' (Hst' & E & _). by eapply record_bytes_inj.
  - intros f l' [[?|Hn] _]; [done|]. by destruct (Hn r Hst).
Qed.

(** ** Witnesses *)

#[local] Instance sample_vectors : vec_library := {|
  vec_init_bytes := fun _ _ _ => STL_OK;
  vec_reserve := fun _ _ _ => STL_OK;
  vec_resize := fun _ _ _ => STL_OK
|}.

Definition sample_column : orm_sql_schema_column :=
  mk_column (mk_vstr (Some [97]) 1) (mk_type KIND_DOUBLE true) (mk_vstr None 0) 0 None false 0.

Definition sample_schema : orm_sql_table_schema := mk_schema (mk_vstr (Some [116]) 1) (Some [sample_column]) 1 None.

(** A unique descending index "i" on column "a" of table "t". *)
Definition sample_record : orm_sql_index_record :=
  mk_record (mk_definition (Some [mk_part 0 (mk_type KIND_DOUBLE true) true]) 0 0 12 [105] [116] true false)
    (mk_identity 3 1 258 7).

Definition sample_wire : bytes := record_bytes sample_record.

Lemma sample_schema_of : schema_of [116] [sample_column] sample_schema.
Proof. by split. Qed.

Lemma sample_words : record_words sample_record.
Proof. split; cbn; unfold word; try lia. repeat constructor; cbn; lia. Qed.

Definition sample_encoded :=
  orm_tidesdb_sql_index_record_encode (Some sample_record) (Some sample_schema) 100 true (Some (sample_after [Op_begin])).
Definition sample_decoded :=
  orm_tidesdb_sql_index_record_decode 40 (Some sample_wire) 50 (Some sample_schema) 100 true (Some (sample_after [Op_begin])).

Lemma sample_encoded_eq : sample_encoded = (Ret (mk_work (Some sample_wire) 58), snd sample_encoded).
Proof. vm_compute. reflexivity. Qed.

Lemma index_record_encode_exact_witness :
  storable [116] [sample_column] sample_record /\ settled (sample_after [Op_begin]) 58 (snd sample_encoded).
Proof.
  pose proof (index_record_encode_exact (sample_after [Op_begin]) sample_record [116] [sample_column] sample_schema 100
    sample_begun eq_refl sample_schema_of sample_words eq_refl ltac:(lia)) as Hw.
  change (orm_tidesdb_sql_index_record_encode _ _ _ _ _) with sample_encoded in Hw. rewrite sample_encoded_eq in Hw.
  split; [exact (proj1 Hw)|exact (proj1 (proj2 (proj2 (proj2 (proj2 Hw)))))].
Defined.

Lemma sample_wire_ok : bytes_ok sample_wire.
Proof. apply bytes_okb_ok. vm_compute. reflexivity. Qed.

Lemma index_record_decode_exact_witness :
  exists out, fst sample_decoded = Ret out /\ record_bytes out = sample_wire /\
    settled (sample_after [Op_begin]) 79 (snd sample_decoded).
Proof.
  pose proof (index_record_decode_exact 40 (sample_after [Op_begin]) [116] [sample_column] sample_schema sample_wire 100
    ltac:(lia) sample_begun eq_refl sample_schema_of sample_wire_ok ltac:(vm_compute; split; congruence) ltac:(lia)) as Hw.
  change (len sample_wire) with 50 in Hw.
  change (orm_tidesdb_sql_index_record_decode _ _ _ _ _ _ _) with sample_decoded in Hw.
  assert (fst sample_decoded = Ret (mk_record (mk_definition (Some [mk_part 0 (mk_type KIND_DOUBLE true) true]) 39 40 0
    [105] [116] true false) (mk_identity 3 1 258 7))) as E by (vm_compute; reflexivity).
  destruct sample_decoded as [o l]. cbn [fst] in E. subst o. eexists. split; [reflexivity|].
  split; [exact (proj1 (proj2 Hw))|exact (proj1 (proj2 (proj2 (proj2 Hw))))].
Defined.

Lemma index_record_roundtrip_witness :
  wp (orm_tidesdb_sql_index_record_decode 40 (Some sample_wire) (len sample_wire) (Some sample_schema) 100 true)
    (fun r' _ => essence r' = essence sample_record) (fun f _ => resource_status (f_status f) = true)
    (Some (sample_after [Op_begin])).
Proof.
  exact (index_record_roundtrip 40 (sample_after [Op_begin]) (sample_after [Op_begin]) sample_record [116] [sample_column]
    sample_schema 100 100 _ sample_wire _ sample_begun eq_refl sample_begun eq_refl ltac:(lia) sample_schema_of sample_words
    eq_refl ltac:(lia) ltac:(lia) sample_encoded_eq eq_refl).
Defined.
