(* ===== verification/CatalogRecord.v ===== *)
(** * Stored table schemas (tidessql/src/catalog.c, catalog.h)

    The owned definition of a table, its borrowed schema view, the rename of a
    table or a column, and the two versions of the wire form in which the
    catalog stores a schema. Version 2 adds a default to every column. *)

From S2P Require Import Prelude Row Command Errors Budget Float Value IndexKey Work.

(** ** Data *)

(** The names own the bytes that the columns point to: [tb_names] holds the
    table name and then one name per column, and a column carries a copy of its
    own. A vector is [None] before its initialization. *)
Record orm_sql_table_definition : Type := mk_table {
  tb_names : option (list bytes);
  tb_columns : option (list orm_sql_schema_column);
  tb_defaults : option (list orm_sql_column_default);
  tb_name_bytes : Z;
  tb_column_bytes : Z;
  tb_default_bytes : Z;
  tb_metadata_bytes : Z;
  tb_primary_key : Z;
  tb_if_not_exists : bool
}.

(** sizeof and _Alignof of the elements of the three vectors: 64 bytes with a
    size; two views, a type, two words, a pointer and a flag; a value and a
    flag. *)
Definition sizeof_catalog_name : Z := 72.
Definition sizeof_schema_column : Z := 72.
Definition sizeof_column_default : Z := 32.
Definition alignof_catalog : Z := 8.

Definition zero_column : orm_sql_schema_column :=
  mk_column (mk_vstr None 0) (mk_type 0 false) (mk_vstr None 0) 0 None false 0.
Definition zero_default : orm_sql_column_default := mk_default turbodb_null false.

Definition CATALOG_WIRE_HEADER : Z := 12.
Definition CATALOG_WIRE_COUNT : Z := 4.
Definition CATALOG_WIRE_KEY : Z := 8.
Definition CATALOG_WIRE_VERSION : Z := 2.
Definition CATALOG_WIRE_FLAGS : Z := 3.
Definition CATALOG_WIRE_COLUMN : Z := 3.
Definition CATALOG_WIRE_DEFAULT : Z := 9.
Definition CATALOG_WIRE_CURRENT : Z := 2.
Definition CATALOG_WIRE_I64 : Z := 1.
Definition CATALOG_WIRE_U64 : Z := 2.
Definition CATALOG_WIRE_F64 : Z := 3.
Definition CATALOG_DEFAULT_NONE : Z := 0.
Definition CATALOG_DEFAULT_NULL : Z := 1.
Definition CATALOG_DEFAULT_VALUE : Z := 2.

(** 'S', 'C', 1, 0 *)
Definition catalog_wire_magic : bytes := [83; 67; 1; 0].

(** The failures of these operations are at offset zero of no statement. *)
Definition catalog_reason (reason : string) : string := "TidesDB SQL CREATE TABLE at byte 0: " +:+ reason.
Definition catalog_fail {S A} (status : turbodb_status_t) (reason : string) : M turbodb_failure S A :=
  raise status (catalog_reason reason).
Definition catalog_fail_if {S} (c : bool) (status : turbodb_status_t) (reason : string) : M turbodb_failure S unit :=
  raise_if c status (catalog_reason reason).

Definition catalog_charge (resource : nat) (count : Z) : B unit :=
  orm_tidesdb_sql_budget_reserve (Some (amount_of resource count)).

(** ** Views and names *)

Definition names_of (d : orm_sql_table_definition) : list bytes := default [] (tb_names d).
Definition columns_of (d : orm_sql_table_definition) : list orm_sql_schema_column := default [] (tb_columns d).
Definition defaults_of (d : orm_sql_table_definition) : list orm_sql_column_default := default [] (tb_defaults d).

(** [wants] says that the output pointer is not NULL. *)
Definition orm_tidesdb_sql_catalog_schema (definition : ptr orm_sql_table_definition) (wants : bool)
    : B orm_sql_table_schema :=
  budget ← gets is_some;
  match definition with
  | Some d =>
      catalog_fail_if (negb budget || negb wants) TURBODB_STATUS_INVALID_ARGUMENT "invalid schema view arguments";;
      name ← access (names_of d !! 0%nat);
      mret (mk_schema (view name) (Some (columns_of d)) (len (columns_of d)) (Some (defaults_of d)))
  | None => catalog_fail TURBODB_STATUS_INVALID_ARGUMENT "invalid schema view arguments"
  end.

(** [column->name.len == name.len && !memcmp(column->name.data, name.data, name.len)] *)
Definition column_named (column : orm_sql_schema_column) (name : bytes) : option bool :=
  if vs_len (sc_name column) =? len name then
    data ← vs_data (sc_name column);
    data ← ldn data 0 (len name);
    Some (bool_decide (data = name))
  else Some false.

Definition set_column_name (name : bytes) (c : orm_sql_schema_column) : orm_sql_schema_column :=
  mk_column (view name) (sc_type c) (sc_qualifier c) (sc_lexical_depth c) (sc_capture_used c) (sc_qualified_only c)
    (sc_star_order c).

(** The loop over the columns from column [i]. *)
Fixpoint rename_check (columns : list orm_sql_schema_column) (i slot : Z) (name : bytes)
    : M turbodb_failure (ptr orm_tidesdb_sql_budget * orm_sql_table_definition) unit :=
  match columns with
  | [] => mret tt
  | column :: columns =>
      taken ← (if i + 1 =? slot then mret false else access (column_named column name));
      catalog_fail_if taken TURBODB_STATUS_SQL_ERROR "rename destination column already exists";;
      rename_check columns (i + 1) slot name
  end.

Definition set_names (f : list bytes -> list bytes) (d : orm_sql_table_definition) : orm_sql_table_definition :=
  mk_table (f <$> tb_names d) (tb_columns d) (tb_defaults d) (tb_name_bytes d) (tb_column_bytes d) (tb_default_bytes d)
    (tb_metadata_bytes d) (tb_primary_key d) (tb_if_not_exists d).
Definition set_columns (f : list orm_sql_schema_column -> list orm_sql_schema_column) (d : orm_sql_table_definition)
    : orm_sql_table_definition :=
  mk_table (tb_names d) (f <$> tb_columns d) (tb_defaults d) (tb_name_bytes d) (tb_column_bytes d) (tb_default_bytes d)
    (tb_metadata_bytes d) (tb_primary_key d) (tb_if_not_exists d).
Definition set_defaults (f : list orm_sql_column_default -> list orm_sql_column_default) (d : orm_sql_table_definition)
    : orm_sql_table_definition :=
  mk_table (tb_names d) (tb_columns d) (f <$> tb_defaults d) (tb_name_bytes d) (tb_column_bytes d) (tb_default_bytes d)
    (tb_metadata_bytes d) (tb_primary_key d) (tb_if_not_exists d).

(** [status != OK] is passed on with the message of the catalog. A name is its
    bytes and their number; the zero byte after them is not part of it. *)
Definition orm_sql_catalog_rename (slot : Z) (name : vstr) : W orm_sql_table_definition unit :=
  budget ← gets (fun s => is_some s.1);
  d ← gets snd;
  catalog_fail_if (negb budget || (len (names_of d) <=? slot)) TURBODB_STATUS_INVALID_ARGUMENT
    "invalid rename definition or slot";;
  map_err (fun f => mk_failure (f_status f) (catalog_reason (f_reason f))) (orm_sql_name_validate name);;
  on_ledger (catalog_charge ORM_SQL_BUDGET_EXECUTION_STEPS (u64 (len (columns_of d) + vs_len name)));;
  bytes ← access (data ← vs_data name; ldn data 0 (vs_len name));
  (if slot =? 0 then mret tt else rename_check (columns_of d) 0 slot bytes);;
  owned (set_names (<[Z.to_nat slot := bytes]>));;
  when (negb (slot =? 0)) (
    access (columns_of d !! Z.to_nat (slot - 1));;
    owned (set_columns (alter (set_column_name bytes) (Z.to_nat (slot - 1))))).

(** ** Destruction *)

(** The loop over the three vectors and the release of the object itself: every
    release runs, the first failure is the result. *)
Fixpoint release_all (receipts : list Z) : B unit := fun l =>
  match receipts with
  | [] => (Ret tt, l)
  | n :: receipts =>
      let '(status, l) := orm_sql_work_release n l in
      let '(rest, l) := release_all receipts l in
      (match status with Ret _ => rest | _ => status end, l)
  end.

Definition orm_tidesdb_sql_catalog_destroy (definition : ptr orm_sql_table_definition) : B unit := fun l =>
  match definition, l with
  | Some d, Some _ =>
      release_all [tb_name_bytes d; tb_column_bytes d; tb_default_bytes d; tb_metadata_bytes d] l
  | _, _ => (Ret tt, l)
  end.

(** ** Encoding *)

(** What the first loop refuses of a column with its default. *)
Definition default_bad (column : orm_sql_schema_column) (d : orm_sql_column_default) : bool :=
  let value := cd_value d in
  negb (tv_reserved value =? 0) ||
  ((value_kind value =? KIND_NULL) && negb (ty_nullable (sc_type column))) ||
  (negb (value_kind value =? KIND_NULL) && negb (value_kind value =? ty_kind (sc_type column))) ||
  match tv_data value with TURBODB_VALUE_DOUBLE bits => negb (isfinite bits) | _ => false end.

(** Whether a default was specified. *)
Fixpoint encode_defaults (columns : list orm_sql_schema_column) (defaults : list orm_sql_column_default) (seen : bool)
    : B bool :=
  match columns with
  | [] => mret seen
  | column :: columns =>
      d ← access (head defaults);
      if negb (cd_specified d) then encode_defaults columns (tail defaults) seen
      else
        catalog_fail_if (default_bad column d) TURBODB_STATUS_TYPE_ERROR "invalid schema column default";;
        encode_defaults columns (tail defaults) true
  end.

(** The second loop: the size of the wire form. *)
Fixpoint encode_size (columns : list orm_sql_schema_column) (defaults : bool) (max_bytes size : Z) : B Z :=
  match columns with
  | [] => mret size
  | column :: columns =>
      let kind := ty_kind (sc_type column) in
      catalog_fail_if (negb (kind =? KIND_INT64) && negb (kind =? KIND_UINT64) && negb (kind =? KIND_DOUBLE))
        TURBODB_STATUS_UNSUPPORTED "column type has no schema wire representation";;
      let extra := u64 (CATALOG_WIRE_COLUMN + (if defaults then CATALOG_WIRE_DEFAULT else 0) + vs_len (sc_name column)) in
      catalog_fail_if (size_sub max_bytes size <? extra) TURBODB_STATUS_LIMIT_EXCEEDED "schema wire capacity exceeded";;
      encode_size columns defaults max_bytes (u64 (size + extra))
  end.

Definition catalog_kind (kind : Z) : Z :=
  if kind =? KIND_INT64 then CATALOG_WIRE_I64 else if kind =? KIND_UINT64 then CATALOG_WIRE_U64 else CATALOG_WIRE_F64.

(** The tag and the bits of a default; the bits of another kind are zero. *)
Definition default_tag (d : orm_sql_column_default) : Z :=
  if negb (cd_specified d) then CATALOG_DEFAULT_NONE
  else if value_kind (cd_value d) =? KIND_NULL then CATALOG_DEFAULT_NULL else CATALOG_DEFAULT_VALUE.
Definition default_bits (d : orm_sql_column_default) : Z :=
  if cd_specified d then
    match tv_data (cd_value d) with
    | TURBODB_VALUE_INT64 z => u64 z
    | TURBODB_VALUE_UINT64 z => z
    | TURBODB_VALUE_DOUBLE bits => bits
    | _ => 0
    end
  else 0.

(** [memcpy(data + offset, name.data, name.len)] *)
Definition write_view (data : bytes) (offset : Z) (name : vstr) : option bytes :=
  source ← vs_data name;
  source ← ldn source 0 (vs_len name);
  stn data offset source.

Fixpoint encode_columns (data : bytes) (offset : Z) (columns : list orm_sql_schema_column)
    (defaults : list orm_sql_column_default) (wide : bool) : option bytes :=
  match columns with
  | [] => Some data
  | column :: columns =>
      d ← head defaults;
      data ← st data offset (u8 (vs_len (sc_name column)));
      data ← st data (offset + 1) (catalog_kind (ty_kind (sc_type column)));
      data ← st data (offset + 2) (if ty_nullable (sc_type column) then 1 else 0);
      data ← write_view data (offset + 3) (sc_name column);
      let offset := offset + 3 + vs_len (sc_name column) in
      if wide then
        data ← st data offset (default_tag d);
        data ← orm_sql_wire_write data (offset + 1) ORM_SQL_WIRE_U64 (default_bits d);
        encode_columns data (offset + 1 + Z.of_nat ORM_SQL_WIRE_U64) columns (tail defaults) wide
      else encode_columns data offset columns (tail defaults) wide
  end.

Definition catalog_write (schema : orm_sql_table_schema) (columns : list orm_sql_schema_column)
    (defaults : list orm_sql_column_default) (wide : bool) (key : Z) (data : bytes) : option bytes :=
  data ← stn data 0 catalog_wire_magic;
  version ← (if wide then Some CATALOG_WIRE_CURRENT else ld catalog_wire_magic CATALOG_WIRE_VERSION);
  data ← st data CATALOG_WIRE_VERSION version;
  data ← orm_sql_wire_write data CATALOG_WIRE_COUNT ORM_SQL_WIRE_U32 (ts_count schema);
  data ← orm_sql_wire_write data CATALOG_WIRE_KEY ORM_SQL_WIRE_U32 key;
  data ← st data CATALOG_WIRE_HEADER (u8 (vs_len (ts_name schema)));
  data ← write_view data (CATALOG_WIRE_HEADER + 1) (ts_name schema);
  encode_columns data (CATALOG_WIRE_HEADER + 1 + vs_len (ts_name schema)) columns defaults wide.

Section Codec.
Context `{vec_library}.

(** [empty] says that the output pointers are not NULL and that what they
    point to is zero. *)
Definition orm_tidesdb_sql_catalog_encode (definition : ptr orm_sql_table_definition) (max_bytes : Z) (empty : bool)
    : B (work Z) :=
  budget ← gets is_some;
  match definition with
  | None => catalog_fail TURBODB_STATUS_INVALID_ARGUMENT "invalid schema encoding arguments"
  | Some d =>
      catalog_fail_if (negb budget || (max_bytes =? 0) || negb empty) TURBODB_STATUS_INVALID_ARGUMENT
        "invalid schema encoding arguments";;
      schema ← orm_tidesdb_sql_catalog_schema (Some d) true;
      columns ← access (ts_columns schema);
      defaults ← access (ts_defaults schema);
      let size := CATALOG_WIRE_HEADER + 1 + vs_len (ts_name schema) in
      catalog_fail_if ((UINT32_MAX <? ts_count schema) || (max_bytes <? size)) TURBODB_STATUS_LIMIT_EXCEEDED
        "schema wire capacity exceeded";;
      wide ← encode_defaults columns defaults false;
      size ← encode_size columns wide max_bytes size;
      '(_, out) ← work_bytes size;
      data ← access (wk_vector out);
      data ← access (catalog_write schema columns defaults wide (tb_primary_key d) data);
      mret (mk_work (Some data) (wk_reserved out))
  end.

(** ** Decoding *)

(** The state of the decoder is the definition it fills. *)
Definition D : Type -> Type := W orm_sql_table_definition.

Definition names_work (d : orm_sql_table_definition) : work bytes := mk_work (tb_names d) (tb_name_bytes d).
Definition put_names (w : work bytes) (d : orm_sql_table_definition) : orm_sql_table_definition :=
  mk_table (wk_vector w) (tb_columns d) (tb_defaults d) (wk_reserved w) (tb_column_bytes d) (tb_default_bytes d)
    (tb_metadata_bytes d) (tb_primary_key d) (tb_if_not_exists d).
Definition columns_work (d : orm_sql_table_definition) : work orm_sql_schema_column :=
  mk_work (tb_columns d) (tb_column_bytes d).
Definition put_columns (w : work orm_sql_schema_column) (d : orm_sql_table_definition) : orm_sql_table_definition :=
  mk_table (tb_names d) (wk_vector w) (tb_defaults d) (tb_name_bytes d) (wk_reserved w) (tb_default_bytes d)
    (tb_metadata_bytes d) (tb_primary_key d) (tb_if_not_exists d).
Definition defaults_work (d : orm_sql_table_definition) : work orm_sql_column_default :=
  mk_work (tb_defaults d) (tb_default_bytes d).
Definition put_defaults (w : work orm_sql_column_default) (d : orm_sql_table_definition) : orm_sql_table_definition :=
  mk_table (tb_names d) (tb_columns d) (wk_vector w) (tb_name_bytes d) (tb_column_bytes d) (wk_reserved w)
    (tb_metadata_bytes d) (tb_primary_key d) (tb_if_not_exists d).
Definition put_metadata (n : Z) (d : orm_sql_table_definition) : orm_sql_table_definition :=
  mk_table (tb_names d) (tb_columns d) (tb_defaults d) (tb_name_bytes d) (tb_column_bytes d) (tb_default_bytes d)
    n (tb_primary_key d) (tb_if_not_exists d).

(** The name at [offset] and the offset after it. *)
Definition catalog_wire_name (data : bytes) (size offset length : Z) : D (bytes * Z) :=
  catalog_fail_if (size_sub size offset <? length) TURBODB_STATUS_DATASTORE_ERROR "truncated schema name";;
  ok ← attempt (orm_sql_name_validate (mk_vstr (Some (drop (Z.to_nat offset) data)) length));
  catalog_fail_if (negb ok) TURBODB_STATUS_DATASTORE_ERROR "invalid persisted schema name";;
  name ← access (ldn data offset length);
  mret (name, offset + length).

Definition catalog_copy_name (slot : nat) (name : bytes) : D unit :=
  d ← gets snd;
  access (names_of d !! slot);;
  owned (set_names (<[slot := name]>)).

(** The loop over the columns before this one. *)
Fixpoint decode_distinct (others : list orm_sql_schema_column) (name : bytes) : D unit :=
  match others with
  | [] => mret tt
  | other :: others =>
      on_ledger (catalog_charge ORM_SQL_BUDGET_EXECUTION_STEPS 1);;
      taken ← access (column_named other name);
      catalog_fail_if taken TURBODB_STATUS_DATASTORE_ERROR "duplicate persisted column";;
      decode_distinct others name
  end.

Definition signed_of (bits : Z) : Z :=
  let sign := Z.shiftl 1 63 in
  if negb (Z.land bits sign =? 0) then - 2 ^ 63 + Z.lxor bits sign else bits.

Definition set_default_value (value : turbodb_value_t) (d : orm_sql_column_default) : orm_sql_column_default :=
  mk_default value (cd_specified d).
Definition set_specified (d : orm_sql_column_default) : orm_sql_column_default := mk_default (cd_value d) true.

(** The default of column [i] at [offset], and the offset after it. *)
Definition decode_default (data : bytes) (size offset : Z) (i : nat) (type : orm_sql_type) : D Z :=
  catalog_fail_if (size_sub size offset <? CATALOG_WIRE_DEFAULT) TURBODB_STATUS_DATASTORE_ERROR
    "truncated schema column default";;
  tag ← access (ld data offset);
  bits ← access (orm_sql_wire_read data (offset + 1) ORM_SQL_WIRE_U64);
  catalog_fail_if ((CATALOG_DEFAULT_VALUE <? tag) || (negb (tag =? CATALOG_DEFAULT_VALUE) && negb (bits =? 0)) ||
      ((tag =? CATALOG_DEFAULT_NULL) && negb (ty_nullable type)))
    TURBODB_STATUS_DATASTORE_ERROR "invalid persisted column default";;
  when (negb (tag =? CATALOG_DEFAULT_NONE)) (
    owned (set_defaults (alter set_specified i));;
    value ← (if tag =? CATALOG_DEFAULT_NULL then mret turbodb_null
      else if ty_kind type =? KIND_INT64 then mret (turbodb_i64 (signed_of bits))
      else if ty_kind type =? KIND_UINT64 then mret (turbodb_u64 bits)
      else
        catalog_fail_if (negb (isfinite bits)) TURBODB_STATUS_DATASTORE_ERROR "nonfinite persisted column default";;
        mret (turbodb_f64 bits));
    owned (set_defaults (alter (set_default_value value) i)));;
  mret (offset + 1 + Z.of_nat ORM_SQL_WIRE_U64).

Definition read_kind (kind : Z) : Z :=
  if kind =? CATALOG_WIRE_I64 then KIND_INT64 else if kind =? CATALOG_WIRE_U64 then KIND_UINT64 else KIND_DOUBLE.

Definition set_column (name : bytes) (type : orm_sql_type) (c : orm_sql_schema_column) : orm_sql_schema_column :=
  mk_column (view name) type (sc_qualifier c) (sc_lexical_depth c) (sc_capture_used c) (sc_qualified_only c)
    (sc_star_order c).

(** The body of the loop: column [i] at [offset], and the offset after it. *)
Definition decode_column (data : bytes) (size version key offset : Z) (i : nat) : D Z :=
  catalog_fail_if (size_sub size offset <? CATALOG_WIRE_COLUMN) TURBODB_STATUS_DATASTORE_ERROR "truncated schema column";;
  length ← access (ld data offset);
  kind ← access (ld data (offset + 1));
  nullable ← access (ld data (offset + 2));
  catalog_fail_if ((kind <? CATALOG_WIRE_I64) || (CATALOG_WIRE_F64 <? kind) || (1 <? nullable) ||
      ((Z.of_nat i =? key) && (negb (nullable =? 0) || (kind =? CATALOG_WIRE_F64))))
    TURBODB_STATUS_DATASTORE_ERROR "invalid persisted column type or primary key";;
  '(name, offset) ← catalog_wire_name data size (offset + 3) length;
  d ← gets snd;
  decode_distinct (take i (columns_of d)) name;;
  catalog_copy_name (i + 1) name;;
  let type := mk_type (read_kind kind) (negb (nullable =? 0)) in
  owned (set_columns (alter (set_column name type) i));;
  if version =? CATALOG_WIRE_CURRENT then decode_default data size offset i type else mret offset.

Fixpoint decode_columns (n i : nat) (data : bytes) (size version key offset : Z) : D Z :=
  match n with
  | O => mret offset
  | S n =>
      offset ← decode_column data size version key offset i;
      decode_columns n (S i) data size version key offset
  end.

(** sizeof(catalog_binder) includes three vectors of the runtime. *)
Context (sizeof_binder : Z).

Definition catalog_read (data : bytes) (size version count key : Z) : D unit :=
  on_ledger (catalog_charge ORM_SQL_BUDGET_EXECUTION_STEPS size);;
  on_ledger (catalog_charge ORM_SQL_BUDGET_PLAN_NODES (count + 1));;
  metadata ← on_ledger (orm_tidesdb_sql_budget_reserve_capacity 1 sizeof_binder 0 true);
  owned (put_metadata metadata);;
  on_member names_work put_names (orm_sql_work_zero [] (count + 1) sizeof_catalog_name alignof_catalog);;
  on_member columns_work put_columns (orm_sql_work_zero zero_column count sizeof_schema_column alignof_catalog);;
  on_member defaults_work put_defaults (orm_sql_work_zero zero_default count sizeof_column_default alignof_catalog);;
  length ← access (ld data CATALOG_WIRE_HEADER);
  '(name, offset) ← catalog_wire_name data size (CATALOG_WIRE_HEADER + 1) length;
  catalog_copy_name 0 name;;
  offset ← decode_columns (Z.to_nat count) 0 data size version key offset;
  catalog_fail_if (negb (offset =? size)) TURBODB_STATUS_DATASTORE_ERROR "trailing schema bytes".

Definition orm_tidesdb_sql_catalog_decode (data : ptr bytes) (size max_bytes : Z) (empty : bool)
    : B orm_sql_table_definition :=
  budget ← gets is_some;
  match data with
  | None => catalog_fail TURBODB_STATUS_INVALID_ARGUMENT "invalid schema decoding arguments"
  | Some data =>
      catalog_fail_if ((max_bytes =? 0) || negb budget || negb empty) TURBODB_STATUS_INVALID_ARGUMENT
        "invalid schema decoding arguments";;
      catalog_fail_if (max_bytes <? size) TURBODB_STATUS_LIMIT_EXCEEDED "schema wire capacity exceeded";;
      catalog_fail_if (size <=? CATALOG_WIRE_HEADER) TURBODB_STATUS_DATASTORE_ERROR "truncated or invalid schema header";;
      magic ← access (ldn data 0 CATALOG_WIRE_VERSION);
      catalog_fail_if (negb (bool_decide (magic = take (Z.to_nat CATALOG_WIRE_VERSION) catalog_wire_magic)))
        TURBODB_STATUS_DATASTORE_ERROR "truncated or invalid schema header";;
      version ← access (ld data CATALOG_WIRE_VERSION);
      first ← access (ld catalog_wire_magic CATALOG_WIRE_VERSION);
      catalog_fail_if (negb (version =? first) && negb (version =? CATALOG_WIRE_CURRENT)) TURBODB_STATUS_UNSUPPORTED
        "unknown schema wire version";;
      flags ← access (ld data CATALOG_WIRE_FLAGS);
      catalog_fail_if (negb (flags =? 0)) TURBODB_STATUS_DATASTORE_ERROR "invalid schema flags";;
      count ← access (orm_sql_wire_read data CATALOG_WIRE_COUNT ORM_SQL_WIRE_U32);
      key ← access (orm_sql_wire_read data CATALOG_WIRE_KEY ORM_SQL_WIRE_U32);
      let column_fixed := CATALOG_WIRE_COLUMN + (if version =? CATALOG_WIRE_CURRENT then CATALOG_WIRE_DEFAULT else 0) in
      catalog_fail_if ((count =? 0) || (count <=? key) ||
          (size_sub size CATALOG_WIRE_HEADER / (column_fixed + 1) <? count))
        TURBODB_STATUS_DATASTORE_ERROR "invalid schema column count or primary key";;
      '(_, definition) ← transact (mk_table None None None 0 0 0 0 key false)
        (catalog_read data size version count key)
        (fun d => orm_tidesdb_sql_catalog_destroy (Some d));
      mret definition
  end.
End Codec.

(** ** Tables as the catalog stores them *)

Record column_shape : Type := mk_column_shape {
  cs_name : bytes;
  cs_type : orm_sql_type;
  cs_default : option turbodb_value_data_t
}.

Record table_shape : Type := mk_table_shape {
  sh_name : bytes;
  sh_columns : list column_shape;
  sh_key : Z
}.

(** The nine bytes of a default. *)
Definition default_bytes (d : option turbodb_value_data_t) : bytes :=
  match d with
  | None => 0 :: le_bytes 8 0
  | Some TURBODB_VALUE_NULL => 1 :: le_bytes 8 0
  | Some (TURBODB_VALUE_INT64 z) => 2 :: le_bytes 8 (u64 z)
  | Some (TURBODB_VALUE_UINT64 z) => 2 :: le_bytes 8 z
  | Some (TURBODB_VALUE_DOUBLE bits) => 2 :: le_bytes 8 bits
  | Some _ => 2 :: le_bytes 8 0
  end.

Definition column_bytes (version : Z) (c : column_shape) : bytes :=
  [len (cs_name c); catalog_kind (ty_kind (cs_type c)); if ty_nullable (cs_type c) then 1 else 0] ++ cs_name c ++
  (if version =? CATALOG_WIRE_CURRENT then default_bytes (cs_default c) else []).

Definition shape_bytes (version : Z) (s : table_shape) : bytes :=
  [83; 67; version; 0] ++ le_bytes 4 (len (sh_columns s)) ++ le_bytes 4 (sh_key s) ++ (len (sh_name s) :: sh_name s) ++
  concat (map (column_bytes version) (sh_columns s)).

Definition numeric (kind : Z) : Prop := kind = KIND_INT64 \/ kind = KIND_UINT64 \/ kind = KIND_DOUBLE.

(** A default of a column: NULL where the column allows it, else a value of the
    column's type, finite for a DOUBLE. *)
Definition default_ok (type : orm_sql_type) (d : turbodb_value_data_t) : Prop :=
  match d with
  | TURBODB_VALUE_NULL => ty_nullable type = true
  | TURBODB_VALUE_INT64 z => ty_kind type = KIND_INT64 /\ - 2 ^ 63 <= z < 2 ^ 63
  | TURBODB_VALUE_UINT64 z => ty_kind type = KIND_UINT64 /\ word z
  | TURBODB_VALUE_DOUBLE bits => ty_kind type = KIND_DOUBLE /\ word bits /\ isfinite bits = true
  | _ => False
  end.

(** A column that a wire form of this version can hold. *)
Record column_ok (version : Z) (c : column_shape) : Prop := {
  co_name : identifier (cs_name c) = true;
  co_kind : numeric (ty_kind (cs_type c));
  co_default : match cs_default c with
    | Some d => version = CATALOG_WIRE_CURRENT /\ default_ok (cs_type c) d
    | None => True
    end
}.

(** The primary key is an integer that is never NULL. *)
Definition key_ok (type : orm_sql_type) : Prop := ty_nullable type = false /\ ty_kind type <> KIND_DOUBLE.

Record shape_ok (version : Z) (s : table_shape) : Prop := {
  sh_version : version = 1 \/ version = CATALOG_WIRE_CURRENT;
  sh_named : identifier (sh_name s) = true;
  sh_count : 0 < len (sh_columns s) <= UINT32_MAX;
  sh_all : Forall (column_ok version) (sh_columns s);
  sh_distinct : NoDup (map cs_name (sh_columns s));
  sh_keyed : 0 <= sh_key s /\ exists c, sh_columns s !! Z.to_nat (sh_key s) = Some c /\ key_ok (cs_type c)
}.

(** The definition in memory. *)
Definition column_of (c : column_shape) : orm_sql_schema_column :=
  mk_column (view (cs_name c)) (cs_type c) (mk_vstr None 0) 0 None false 0.
Definition default_of (c : column_shape) : orm_sql_column_default :=
  match cs_default c with
  | Some d => mk_default (mk_value d 0) true
  | None => zero_default
  end.

Record represents (d : orm_sql_table_definition) (s : table_shape) : Prop := {
  rp_names : tb_names d = Some (sh_name s :: map cs_name (sh_columns s));
  rp_columns : tb_columns d = Some (map column_of (sh_columns s));
  rp_defaults : tb_defaults d = Some (map default_of (sh_columns s));
  rp_key : tb_primary_key d = sh_key s
}.

(** The column at the place of [before]: what the decoder checks of it. *)
Definition placed (version key : Z) (before : list column_shape) (c : column_shape) : Prop :=
  column_ok version c /\ (len before = key -> key_ok (cs_type c)) /\ cs_name c ∉ map cs_name before.

Fixpoint placed_all (version key : Z) (before cs : list column_shape) : Prop :=
  match cs with
  | [] => True
  | c :: cs => placed version key before c /\ placed_all version key (before ++ [c]) cs
  end.

Lemma placed_all_spec version key cs before :
  NoDup (map cs_name before) ->
  placed_all version key before cs <->
  Forall (column_ok version) cs /\ NoDup (map cs_name (before ++ cs)) /\
  (forall i c, cs !! i = Some c -> len before + Z.of_nat i = key -> key_ok (cs_type c)).
Proof.
  revert before. induction cs as [|c cs IH]; intros before Hb; cbn [placed_all].
  - rewrite app_nil_r. split; [|done]. intros _. split_and!; [constructor|done|]. by intros [].
  - replace (before ++ c :: cs) with ((before ++ [c]) ++ cs) by by rewrite <- app_assoc. unfold placed. split.
    + intros ((Hc & Hk & Hn) & Hr). apply IH in Hr as (Hf & Hd & Hi).
      2:{ rewrite map_app. apply list.NoDup_app. split_and!; [done| |apply NoDup_singleton].
        intros x Hx ->%list_elem_of_singleton. done. }
      split_and!; [by constructor|done|]. intros [|i] c' Hl He; [injection Hl as <-; apply Hk; lia|].
      apply (Hi i c' Hl). rewrite length_app. cbn [length]. lia.
    + intros ([Hc Hf]%list.Forall_cons & Hd & Hi). pose proof Hd as Hd'. rewrite map_app in Hd'.
      apply list.NoDup_app in Hd' as [Hd' _]. split_and!; [done|intros; apply (Hi 0%nat c eq_refl); lia| |].
      * rewrite map_app in Hd'. apply list.NoDup_app in Hd' as (_ & Hx & _). intros Hin. apply (Hx _ Hin), list_elem_of_here.
      * apply IH; [done|]. split_and!; [done..|]. intros i c' Hl He. apply (Hi (S i) c' Hl).
        rewrite length_app in He. cbn [length] in He. lia.
Qed.

(** ** Encoding *)

Definition wide_version (wide : bool) : Z := if wide then CATALOG_WIRE_CURRENT else 1.

(** The version of the wire form that stores a table. *)
Definition shape_wide (s : table_shape) : bool := existsb (fun c => is_some (cs_default c)) (sh_columns s).

(** The integers of a default have the width of their C types. *)
Definition default_words (d : turbodb_value_data_t) : Prop :=
  match d with
  | TURBODB_VALUE_INT64 z => - 2 ^ 63 <= z < 2 ^ 63
  | TURBODB_VALUE_UINT64 z | TURBODB_VALUE_DOUBLE z => word z
  | TURBODB_VALUE_unknown kind => KIND_BLOB < kind
  | _ => True
  end.

(** The names fit their arrays and the integers their types. *)
Record shape_words (s : table_shape) : Prop := {
  sw_name : len (sh_name s) <= ORM_SQL_SELECT_NAME_BYTES;
  sw_columns : Forall (fun c => len (cs_name c) <= ORM_SQL_SELECT_NAME_BYTES /\
    match cs_default c with Some d => default_words d | None => True end) (sh_columns s);
  sw_count : word (len (sh_columns s))
}.

(** What the encoder checks of a column. *)
Definition encodable (c : column_shape) : Prop :=
  numeric (ty_kind (cs_type c)) /\ match cs_default c with Some d => default_ok (cs_type c) d | None => True end.

Lemma default_bad_sound c d :
  cs_default c = Some d -> default_ok (cs_type c) d -> default_bad (column_of c) (default_of c) = false.
Proof.
  intros E Hd. unfold default_bad, default_of. rewrite E. cbn [cd_value tv_reserved tv_data sc_type column_of].
  destruct d; cbn [default_ok value_kind] in *; try done.
  - by rewrite Hd.
  - destruct Hd as [-> _]. done.
  - destruct Hd as [-> _]. done.
  - destruct Hd as (-> & _ & ->). done.
Qed.

Lemma default_bad_complete c d :
  cs_default c = Some d -> default_words d -> numeric (ty_kind (cs_type c)) ->
  default_bad (column_of c) (default_of c) = false -> default_ok (cs_type c) d.
Proof.
  intros E Hw Hn. unfold default_bad, default_of. rewrite E. unfold column_of. cbn [cd_value tv_reserved sc_type].
  destruct (cs_type c) as [k n]. cbn [ty_kind ty_nullable] in *. intros Hb. apply orb_false_iff in Hb as [Hb Hf].
  destruct d; cbn [default_ok tv_data default_words value_kind] in *;
    try (destruct Hn as [->|[->| ->]]; destruct n; try done; cbn in Hb; by rewrite ?orb_true_r in Hb).
  - destruct Hn as [->|[->| ->]]; destruct n; try done. all: split_and!; [done|done|by destruct (isfinite bits)].
  - bsimp. unfold value_kind in *. cbn [tv_data] in *. unfold KIND_BLOB, KIND_NULL in *.
    destruct Hn as [->|[->| ->]]; repeat (match goal with H : _ \/ _ |- _ => destruct H end; bsimp); unfold KIND_INT64, KIND_UINT64, KIND_DOUBLE in *; lia.
Qed.

Ltac catalog_step :=
  match goal with
  | |- wp (catalog_fail_if _ _ _) _ _ _ => apply wp_raise_if; intros
  | |- wp (catalog_fail _ _) _ _ _ => apply wp_raise
  | _ => work_step
  end.

Lemma encode_defaults_spec cs seen (l : ptr orm_tidesdb_sql_budget) :
  wp (encode_defaults (map column_of cs) (map default_of cs) seen)
    (fun wide l' => l' = l /\ wide = seen || existsb (fun c => is_some (cs_default c)) cs /\
      Forall (fun c => is_some (cs_default c) = true -> default_bad (column_of c) (default_of c) = false) cs)
    (fun f l' => l' = l /\ f_status f = TURBODB_STATUS_TYPE_ERROR /\ ~ Forall encodable cs) l.
Proof.
  revert seen. induction cs as [|c cs IH]; intros seen; cbn [encode_defaults map].
  - catalog_step. split_and!; [done|by rewrite orb_false_r|constructor].
  - catalog_step. apply wp_access; [done|]. intros ? [= <-]. cbn [tail existsb].
    assert (cd_specified (default_of c) = is_some (cs_default c)) as -> by (unfold default_of; by case_match).
    destruct (cs_default c) as [d|] eqn:Ed; cbn [is_some negb orb].
    + catalog_step. catalog_step.
      { split_and!; [done..|]. intros [[_ Hc] _]%list.Forall_cons. rewrite Ed in Hc. pose proof (default_bad_sound c d Ed Hc). congruence. }
      eapply wp_mono; [apply IH| |].
      * intros wide l' (-> & -> & Hf). split_and!; [done|by rewrite orb_true_r|by constructor].
      * intros f l' (-> & Hf & Hn). split_and!; [done..|]. intros [_ Hc]%list.Forall_cons. done.
    + eapply wp_mono; [apply IH| |].
      * intros wide l' (-> & -> & Hf). split_and!; [done..|]. constructor; [by rewrite Ed|done].
      * intros f l' (-> & Hf & Hn). split_and!; [done..|]. intros [_ Hc]%list.Forall_cons. done.
Qed.

Lemma length_default d : length (default_bytes d) = 9%nat.
Proof. destruct d as [[]|]; done. Qed.

Lemma column_bytes_wide wide c :
  column_bytes (wide_version wide) c =
  [len (cs_name c); catalog_kind (ty_kind (cs_type c)); if ty_nullable (cs_type c) then 1 else 0] ++ cs_name c ++
  (if wide then default_bytes (cs_default c) else []).
Proof. by destruct wide. Qed.

Lemma length_column wide c :
  len (column_bytes (wide_version wide) c) = CATALOG_WIRE_COLUMN + (if wide then CATALOG_WIRE_DEFAULT else 0) + len (cs_name c).
Proof.
  unfold column_bytes, wide_version, CATALOG_WIRE_COLUMN, CATALOG_WIRE_DEFAULT. rewrite !length_app. cbn [length].
  destruct wide; cbn; rewrite ?length_default; lia.
Qed.

Lemma encode_size_spec wide max_bytes cs : forall size (l : ptr orm_tidesdb_sql_budget),
  0 <= size <= max_bytes -> max_bytes < 2 ^ 64 -> Forall (fun c => len (cs_name c) <= ORM_SQL_SELECT_NAME_BYTES) cs ->
  wp (encode_size (map column_of cs) wide max_bytes size)
    (fun n l' => l' = l /\ n = size + len (concat (map (column_bytes (wide_version wide)) cs)) /\ n <= max_bytes /\
      Forall (fun c => numeric (ty_kind (cs_type c))) cs)
    (fun f l' => l' = l /\ (f_status f = TURBODB_STATUS_LIMIT_EXCEEDED \/
      f_status f = TURBODB_STATUS_UNSUPPORTED /\ ~ Forall encodable cs)) l.
Proof.
  induction cs as [|c cs IH]; intros size l Hs Hm Hn; cbn [encode_size map].
  - catalog_step. cbn. split_and!; [done|lia..|constructor].
  - apply list.Forall_cons in Hn as [Hc Hn]. cbn [column_of sc_type sc_name view vs_len concat]. rewrite length_app.
    pose proof (length_column wide c) as El. unfold ORM_SQL_SELECT_NAME_BYTES in *.
    catalog_step. catalog_step.
    { split; [done|]. right. split; [done|]. intros [[Hk _] _]%list.Forall_cons. unfold numeric in Hk. bsimp.
      destruct Hk as [|[|]]; congruence. }
    assert (numeric (ty_kind (cs_type c))) as Hk.
    { unfold numeric. repeat (bsimp; match goal with H : _ \/ _ |- _ => destruct H end); bsimp; tauto. }
    rewrite <- El. assert (0 <= len (column_bytes (wide_version wide) c) < 2 ^ 64) as Hr.
    { rewrite El. unfold CATALOG_WIRE_COLUMN, CATALOG_WIRE_DEFAULT. case_match; lia. }
    rewrite (u64_small (len _)), size_sub_small by lia. catalog_step. catalog_step; [split; [done|by left]|]. bsimp.
    rewrite u64_small by lia. eapply wp_mono; [apply IH; [lia|done..]| |].
    + intros n l' (-> & -> & Hle & Hf). split_and!; [done|lia|lia|by constructor].
    + intros f l' (-> & Hf). split; [done|]. destruct Hf as [|[? Hf]]; [by left|]. right. split; [done|].
      intros [_ Hx]%list.Forall_cons. done.
Qed.

Lemma write_view_spec pre k off name :
  off = len pre -> (length name <= k)%nat ->
  write_view (written pre k) off (view name) = Some (written (pre ++ name) (k - length name)).
Proof.
  intros -> Hk. unfold write_view, view. cbn [vs_data vs_len mbind option_bind]. rewrite ldn_Some by lia.
  cbn [mbind option_bind]. rewrite drop_0, Nat2Z.id, firstn_all. by rewrite written_stn.
Qed.

Lemma default_of_bytes c :
  match cs_default c with Some d => default_ok (cs_type c) d | None => True end ->
  default_bytes (cs_default c) = default_tag (default_of c) :: le_bytes 8 (default_bits (default_of c)).
Proof.
  intros Hd. unfold default_of, default_tag, default_bits. destruct (cs_default c) as [d|]; [|done].
  cbn [cd_specified cd_value negb tv_data value_kind]. by destruct d.
Qed.

Lemma encode_columns_spec wide cs : forall pre k off,
  off = len pre -> k = length (concat (map (column_bytes (wide_version wide)) cs)) -> Forall encodable cs ->
  Forall (fun c => len (cs_name c) <= ORM_SQL_SELECT_NAME_BYTES) cs ->
  encode_columns (written pre k) off (map column_of cs) (map default_of cs) wide =
    Some (pre ++ concat (map (column_bytes (wide_version wide)) cs)).
Proof.
  induction cs as [|c cs IH]; intros pre k off -> -> He Hn; cbn [encode_columns map concat].
  - unfold written. cbn. by rewrite !app_nil_r.
  - apply list.Forall_cons in He as [[_ Hd] He]. apply list.Forall_cons in Hn as [Hc Hn]. unfold ORM_SQL_SELECT_NAME_BYTES in *.
    cbn [head tail mbind option_bind column_of sc_name sc_type]. change (vs_len (view (cs_name c))) with (len (cs_name c)).
    rewrite u8_small by lia. rewrite length_app.
    pose proof (length_column wide c) as El. unfold CATALOG_WIRE_COLUMN, CATALOG_WIRE_DEFAULT in El.
    assert (length (column_bytes (wide_version wide) c) = (3 + length (cs_name c) + (if wide then 9 else 0))%nat) as Eln by (case_match; lia).
    rewrite Eln. do 3 (rewrite written_st; [|rewrite ?length_app; cbn [length]; lia|lia]; cbn [mbind option_bind]).
    rewrite write_view_spec; [|rewrite !length_app; cbn [length]; lia|lia]. cbn [mbind option_bind].
    rewrite (column_bytes_wide wide c). destruct wide.
    + rewrite (default_of_bytes c Hd).
      rewrite written_st; [|rewrite !length_app; cbn [length]; lia|lia]. cbn [mbind option_bind].
      rewrite written_wire; [|rewrite !length_app; cbn [length]; lia|unfold ORM_SQL_WIRE_U64; lia]. cbn [mbind option_bind].
      rewrite IH; [by rewrite <- !app_assoc| |unfold ORM_SQL_WIRE_U64; lia|done..].
      rewrite !length_app, length_le_bytes. cbn [length]. lia.
    + rewrite app_nil_r. rewrite IH; [by rewrite <- !app_assoc| |lia|done..]. rewrite !length_app. cbn [length]. lia.
Qed.

Lemma length_shape v s :
  len (shape_bytes v s) = CATALOG_WIRE_HEADER + 1 + len (sh_name s) + len (concat (map (column_bytes v) (sh_columns s))).
Proof.
  unfold shape_bytes, CATALOG_WIRE_HEADER. rewrite !length_app, !length_le_bytes. cbn [length]. lia.
Qed.

Definition schema_view (s : table_shape) : orm_sql_table_schema :=
  mk_schema (view (sh_name s)) (Some (map column_of (sh_columns s))) (len (sh_columns s)) (Some (map default_of (sh_columns s))).

Lemma catalog_write_spec s wide :
  shape_words s -> Forall encodable (sh_columns s) ->
  catalog_write (schema_view s) (map column_of (sh_columns s)) (map default_of (sh_columns s)) wide (sh_key s)
    (replicate (length (shape_bytes (wide_version wide) s)) 0) = Some (shape_bytes (wide_version wide) s).
Proof.
  intros Hw He. pose proof (length_shape (wide_version wide) s) as El. unfold CATALOG_WIRE_HEADER in El.
  remember (length (concat (map (column_bytes (wide_version wide)) (sh_columns s)))) as q eqn:Eq.
  assert (length (shape_bytes (wide_version wide) s) = (13 + length (sh_name s) + q)%nat) as -> by lia.
  pose proof (sw_name _ Hw) as Hn. unfold ORM_SQL_SELECT_NAME_BYTES in Hn.
  change (replicate _ 0) with (written [] (13 + length (sh_name s) + q)). unfold catalog_write, catalog_wire_magic.
  rewrite (written_stn []) by (done || cbn [length]; lia). cbn [mbind option_bind app].
  replace (if wide then Some CATALOG_WIRE_CURRENT else ld [83; 67; 1; 0] CATALOG_WIRE_VERSION) with (Some (wide_version wide))
    by (by destruct wide). cbn [mbind option_bind].
  assert (forall k, st (written [83; 67; 1; 0] k) CATALOG_WIRE_VERSION (wide_version wide) =
    Some (written [83; 67; wide_version wide; 0] k)) as ->.
  { intros k. unfold written. rewrite st_Some; [done|]. rewrite length_app. cbn [length]. unfold CATALOG_WIRE_VERSION. lia. }
  cbn [mbind option_bind schema_view ts_count ts_name]. change (vs_len (view (sh_name s))) with (len (sh_name s)).
  change ORM_SQL_WIRE_U32 with 4%nat. change (length [83; 67; 1; 0]) with 4%nat.
  do 2 (rewrite written_wire; [|rewrite ?length_app, ?length_le_bytes; done|lia]; cbn [mbind option_bind]).
  rewrite u8_small by lia.
  rewrite written_st; [|rewrite !length_app, !length_le_bytes; done|lia]. cbn [mbind option_bind].
  rewrite write_view_spec; [|rewrite !length_app, !length_le_bytes; done|lia]. cbn [mbind option_bind].
  rewrite encode_columns_spec; [unfold shape_bytes; by rewrite <- !app_assoc| |rewrite <- Eq; lia|done|].
  - rewrite !length_app, !length_le_bytes. cbn [length]. unfold CATALOG_WIRE_HEADER. lia.
  - eapply Forall_impl; [apply Hw|]. by intros c [? _].
Qed.

Lemma catalog_schema_spec d s l (Q : orm_sql_table_schema -> ptr orm_tidesdb_sql_budget -> Prop) R :
  represents d s -> is_some l = true -> Q (schema_view s) l -> wp (orm_tidesdb_sql_catalog_schema (Some d) true) Q R l.
Proof.
  intros Hr Hl HQ. unfold orm_tidesdb_sql_catalog_schema. do 2 catalog_step. rewrite Hl. cbn [negb orb].
  catalog_step. catalog_step; [done|]. unfold names_of, columns_of, defaults_of. rewrite (rp_names _ _ Hr), (rp_columns _ _ Hr), (rp_defaults _ _ Hr).
  cbn [default from_option id]. catalog_step. apply wp_access; [done|]. intros ? [= <-]. catalog_step. rewrite length_map. done.
Qed.

(** The errors of an operation that owns nothing when it fails. *)
Definition catalog_error (b : orm_tidesdb_sql_budget) (P : turbodb_failure -> Prop) (f : turbodb_failure)
    (l : ptr orm_tidesdb_sql_budget) : Prop :=
  (resource_status (f_status f) = true \/ P f) /\ settled b 0 l.

Lemma catalog_encode_spec `{vec_library} b d s max_bytes :
  ledger_ok b -> statement_active b = true -> represents d s -> shape_words s -> 0 < max_bytes < 2 ^ 64 ->
  wp (orm_tidesdb_sql_catalog_encode (Some d) max_bytes true)
    (fun out l => Forall encodable (sh_columns s) /\ len (sh_columns s) <= UINT32_MAX /\
      len (shape_bytes (wide_version (shape_wide s)) s) <= max_bytes /\
      out = mk_work (Some (shape_bytes (wide_version (shape_wide s)) s))
        (work_size (len (shape_bytes (wide_version (shape_wide s)) s)) 1 1) /\ settled b (wk_reserved out) l)
    (catalog_error b (fun f => (f_status f = TURBODB_STATUS_TYPE_ERROR \/ f_status f = TURBODB_STATUS_UNSUPPORTED) /\
      ~ Forall encodable (sh_columns s))) (Some b).
Proof.
  intros Hb Ha Hr Hw Hm. pose proof (settled_start b Hb Ha) as Hs. unfold orm_tidesdb_sql_catalog_encode.
  do 2 catalog_step. cbn [is_some negb orb id]. rewrite (proj2 (Z.eqb_neq max_bytes 0)) by lia. catalog_step. catalog_step; [done|].
  catalog_step. eapply catalog_schema_spec; [done..|]. cbn [schema_view ts_columns ts_defaults ts_count ts_name].
  do 2 (catalog_step; apply wp_access; [done|]; intros ? [= <-]). change (vs_len (view (sh_name s))) with (len (sh_name s)).
  catalog_step. catalog_step; [split; [by left|done]|]. bsimp.
  catalog_step. eapply wp_mono; [apply encode_defaults_spec| |].
  2:{ intros f l (-> & Hf & Hn). split; [right; auto|done]. }
  intros wide l (-> & Ewide & Hd). cbn [orb] in Ewide. change (existsb _ _) with (shape_wide s) in Ewide. subst wide.
  pose proof (sw_name _ Hw). unfold ORM_SQL_SELECT_NAME_BYTES, CATALOG_WIRE_HEADER in *.
  catalog_step. eapply wp_mono; [apply encode_size_spec; [lia|lia|]| |].
  { eapply Forall_impl; [apply Hw|]. by intros c [? _]. }
  2:{ intros f l (-> & Hf). split; [|done]. destruct Hf as [->|[? ?]]; auto. }
  intros n l (-> & En & Hle & Hk). pose proof (length_shape (wide_version (shape_wide s)) s) as El. unfold CATALOG_WIRE_HEADER in El.
  rewrite <- El in En. subst n.
  assert (Forall encodable (sh_columns s)) as He.
  { rewrite Forall_forall in *. intros c Hc. split; [by apply Hk|]. specialize (Hd c Hc).
    pose proof (sw_columns _ Hw) as Hx. rewrite Forall_forall in Hx. specialize (Hx c Hc) as [_ Hx].
    destruct (cs_default c) as [v|] eqn:Ev; [|done]. apply default_bad_complete; auto. }
  catalog_step. eapply wp_mono; [apply work_bytes_spec; [done|lia]| |by intros f l' [? ?]; split; [left|]].
  intros [u out] l' [Hout Hl']. cbn [snd] in Hout. subst out. cbn [wk_vector wk_reserved]. rewrite Nat2Z.id.
  catalog_step. apply wp_access; [done|]. intros ? [= <-]. catalog_step.
  rewrite (rp_key _ _ Hr). rewrite catalog_write_spec by done. apply wp_access; [done|]. intros ? [= <-]. catalog_step.
  split_and!; [done|lia|done..].
Qed.

(** ** Decoding *)

Lemma signed_of_spec bits : word bits -> signed_of bits = if bits <? 2 ^ 63 then bits else bits - 2 ^ 64.
Proof.
  intros Hb. unfold signed_of. change (Z.shiftl 1 63) with WIRE_SIGN. rewrite sign_bit_land, lxor_sign by done.
  destruct (bits <? 2 ^ 63); cbn [negb]; lia.
Qed.

Lemma signed_of_u64 z : - 2 ^ 63 <= z < 2 ^ 63 -> signed_of (u64 z) = z.
Proof.
  intros Hz. rewrite signed_of_spec by apply u64_range. destruct (decide (0 <= z)).
  - rewrite u64_small by lia. by rewrite (proj2 (Z.ltb_lt _ _)) by lia.
  - replace (u64 z) with (z + 2 ^ 64) by (unfold u64; rewrite <- (Z.mod_unique z (2 ^ 64) (-1) (z + 2 ^ 64)); lia).
    rewrite (proj2 (Z.ltb_ge _ _)) by lia. lia.
Qed.

Lemma signed_of_word bits : word bits -> - 2 ^ 63 <= signed_of bits < 2 ^ 63 /\ u64 (signed_of bits) = bits.
Proof.
  intros Hb. pose proof Hb as Hw. rewrite signed_of_spec by done. unfold word in *. case_match; bsimp.
  - rewrite u64_small; lia.
  - split; [lia|]. unfold u64. rewrite <- (Z.mod_unique _ (2 ^ 64) (-1) bits); lia.
Qed.

(** The default that a tag and the bits after it stand for. *)
Definition parse_default (type : orm_sql_type) (tag bits : Z) : option (option turbodb_value_data_t) :=
  if (CATALOG_DEFAULT_VALUE <? tag) || (negb (tag =? CATALOG_DEFAULT_VALUE) && negb (bits =? 0)) ||
      ((tag =? CATALOG_DEFAULT_NULL) && negb (ty_nullable type)) then None
  else if tag =? CATALOG_DEFAULT_NONE then Some None
  else if tag =? CATALOG_DEFAULT_NULL then Some (Some TURBODB_VALUE_NULL)
  else if ty_kind type =? KIND_INT64 then Some (Some (TURBODB_VALUE_INT64 (signed_of bits)))
  else if ty_kind type =? KIND_UINT64 then Some (Some (TURBODB_VALUE_UINT64 bits))
  else if isfinite bits then Some (Some (TURBODB_VALUE_DOUBLE bits)) else None.

Definition default_fits (type : orm_sql_type) (d : option turbodb_value_data_t) : Prop :=
  match d with Some d => default_ok type d | None => True end.

Lemma parse_default_sound type tag x d :
  numeric (ty_kind type) -> 0 <= tag -> length x = 8%nat -> bytes_ok x -> parse_default type tag (le_val x) = Some d ->
  default_fits type d /\ default_bytes d = tag :: x.
Proof.
  intros Hn Ht Hx Hb. unfold parse_default, CATALOG_DEFAULT_VALUE, CATALOG_DEFAULT_NULL, CATALOG_DEFAULT_NONE.
  pose proof (le_val_range x Hb) as Hr. rewrite Hx in Hr. change (8 * Z.of_nat 8) with 64 in Hr.
  assert (le_bytes 8 (le_val x) = x) as El by (rewrite <- Hx at 1; by apply le_bytes_val).
  destruct (_ || _) eqn:Eg; [done|]. bsimp. assert (tag = 0 \/ tag = 1 \/ tag = 2) as Hc by lia.
  destruct Hc as [->|[->| ->]]; cbn [Z.eqb Pos.eqb negb andb] in *.
  - intros [= <-]. assert (le_val x = 0) as Hz by blia.
    split; [done|]. cbn. f_equal. by rewrite <- Hz, El.
  - intros [= <-]. assert (le_val x = 0) as Hz by blia.
    split; [cbn; destruct (ty_nullable type); [done|]; by destruct H0|]. cbn. f_equal. by rewrite <- Hz, El.
  - destruct (signed_of_word (le_val x) Hr) as [Hs1 Hs2].
    destruct Hn as [Hk|[Hk|Hk]]; rewrite Hk; cbn; [| |destruct (isfinite (le_val x)) eqn:Ef; [|done]]; intros [= <-]; cbn; by rewrite ?Hs2, El.
Qed.

Lemma parse_default_complete type tag x d :
  default_fits type d -> length x = 8%nat -> default_bytes d = tag :: x -> parse_default type tag (le_val x) = Some d.
Proof.
  intros Hd Hx E. unfold parse_default, CATALOG_DEFAULT_VALUE, CATALOG_DEFAULT_NULL, CATALOG_DEFAULT_NONE.
  destruct d as [d|]; [destruct d|]; cbn [default_fits default_ok default_bytes] in *; try done; injection E as <- <-;
    rewrite ?le_val_bytes; change (2 ^ (8 * Z.of_nat 8)) with (2 ^ 64).
  - change (0 mod 2 ^ 64) with 0. by rewrite Hd.
  - destruct Hd as [Hk Hz]. rewrite Hk. cbn. rewrite (Z.mod_small (u64 z)), signed_of_u64 by (done || apply u64_range). done.
  - destruct Hd as [Hk Hz]. rewrite Hk. cbn. by rewrite Z.mod_small.
  - destruct Hd as (Hk & Hz & Hf). rewrite Hk. cbn. by rewrite Z.mod_small, Hf.
  - done.
Qed.

Definition receipts (d : orm_sql_table_definition) : list Z :=
  [tb_name_bytes d; tb_column_bytes d; tb_default_bytes d; tb_metadata_bytes d].

(** The definition when the table name and the columns [before] are read and
    [n] columns are to come. *)
Definition building (d : orm_sql_table_definition) (name : bytes) (before : list column_shape) (n : nat)
    : orm_sql_table_definition :=
  mk_table (Some (name :: map cs_name before ++ replicate n []))
    (Some (map column_of before ++ replicate n zero_column)) (Some (map default_of before ++ replicate n zero_default))
    (tb_name_bytes d) (tb_column_bytes d) (tb_default_bytes d) (tb_metadata_bytes d) (tb_primary_key d) (tb_if_not_exists d).

Lemma default_bytes_inj type a c :
  default_fits type a -> default_fits type c -> default_bytes a = default_bytes c -> a = c.
Proof.
  intros Ha Hc E. destruct (default_bytes c) as [|tag x] eqn:Ec; [by destruct c as [[]|]|].
  assert (length x = 8%nat) as Hx by (pose proof (length_default c) as Hl; rewrite Ec in Hl; by injection Hl).
  pose proof (parse_default_complete type tag x a Ha Hx E) as H1. pose proof (parse_default_complete type tag x c Hc Hx Ec) as H2.
  congruence.
Qed.

Lemma column_fits v c : column_ok v c -> default_fits (cs_type c) (cs_default c).
Proof. intros [_ _ Hd]. destruct (cs_default c); [apply Hd|done]. Qed.

Lemma column_bytes_inj v c c' rest rest' :
  column_ok v c -> column_ok v c' -> column_bytes v c ++ rest = column_bytes v c' ++ rest' -> c = c' /\ rest = rest'.
Proof.
  intros Hc Hc' E. unfold column_bytes in E. rewrite <- !app_assoc in E. apply app_inj_1 in E as [[= En Ek Eu] E]; [|done].
  apply app_inj_1 in E as [Ename E]; [|lia].
  assert (cs_type c = cs_type c') as Et.
  { pose proof (co_kind _ _ Hc) as Hk. pose proof (co_kind _ _ Hc') as Hk'. destruct (cs_type c) as [k u], (cs_type c') as [k' u'].
    cbn [ty_kind ty_nullable] in *. f_equal; [|by destruct u, u'].
    destruct Hk as [->|[->| ->]], Hk' as [->|[->| ->]]; done. }
  destruct (Z.eqb_spec v CATALOG_WIRE_CURRENT) as [->|Hv].
  - apply app_inj_1 in E as [Ed ->]; [|by rewrite !length_default]. split; [|done].
    pose proof (column_fits _ _ Hc) as Hd. pose proof (column_fits _ _ Hc') as Hd'. rewrite <- Et in Hd'.
    pose proof (default_bytes_inj _ _ _ Hd Hd' Ed). destruct c, c'; cbn in *; congruence.
  - cbn [app] in E. split; [|done]. pose proof (co_default _ _ Hc) as Hd. pose proof (co_default _ _ Hc') as Hd'.
    destruct c as [? ? [|]], c' as [? ? [|]]; cbn in *; try (by destruct Hd); try (by destruct Hd'). congruence.
Qed.

Lemma columns_inj v cs cs' rest rest' :
  Forall (column_ok v) cs -> Forall (column_ok v) cs' -> length cs = length cs' ->
  concat (map (column_bytes v) cs) ++ rest = concat (map (column_bytes v) cs') ++ rest' -> cs = cs' /\ rest = rest'.
Proof.
  intros Hc. revert cs'. induction Hc as [|c cs Hc _ IH]; intros [|c' cs'] Hc' Hl E; try done.
  apply list.Forall_cons in Hc' as [Hc' Hcs']. cbn [map concat] in E. rewrite <- !app_assoc in E.
  apply (column_bytes_inj v) in E as [-> E]; [|done..]. apply IH in E as [-> ->]; [done|done|]. by injection Hl.
Qed.

Section Decode.
Context (b : orm_tidesdb_sql_budget) (data : bytes) (Hdata : bytes_ok data) (Hword : word (len data)).

(** The errors while a definition is being built. *)
Definition build_error (w : Z) (d : orm_sql_table_definition) (P : Prop) (f : turbodb_failure)
    (s : ptr orm_tidesdb_sql_budget * orm_sql_table_definition) : Prop :=
  receipts s.2 = receipts d /\ settled b w s.1 /\ (resource_status (f_status f) = true \/ ~ P).

Lemma build_error_mono w d d' (P P' : Prop) f s :
  receipts d = receipts d' -> (P' -> P) -> build_error w d P f s -> build_error w d' P' f s.
Proof. intros Hr HP (E & Hs & H). split_and!; [congruence|done|]. tauto. Qed.

Lemma wire_name_spec w pre rest n l t (Q : bytes * Z -> ptr orm_tidesdb_sql_budget * orm_sql_table_definition -> Prop)
    (P : Prop) :
  data = pre ++ rest -> 0 <= n < 256 -> settled b w l ->
  (P -> exists name rest', identifier name = true /\ len name = n /\ rest = name ++ rest') ->
  (forall name rest', identifier name = true -> len name = n -> rest = name ++ rest' -> Q (name, len (pre ++ name)) (l, t)) ->
  wp (catalog_wire_name data (len data) (len pre) n) Q (build_error w t P) (l, t).
Proof.
  intros Ed Hn Hs HP HQ. unfold catalog_wire_name. unfold word in Hword.
  assert (len data = len pre + len rest) as El by (rewrite Ed, length_app; lia). rewrite size_sub_small by lia.
  catalog_step. catalog_step; bsimp.
  { split_and!; [done..|]. right. intros (name & rest' & _ & Hl & ->)%HP. rewrite length_app in *. lia. }
  assert (drop (Z.to_nat (len pre)) data = rest) as -> by (by rewrite Ed, Nat2Z.id, drop_app_length).
  assert (len (take (Z.to_nat n) rest) = n) as Hlen by (rewrite length_take; lia).
  assert (mk_vstr (Some rest) n = mk_vstr (Some (take (Z.to_nat n) rest ++ drop (Z.to_nat n) rest))
    (len (take (Z.to_nat n) rest))) as -> by by rewrite take_drop, Hlen.
  catalog_step. apply name_attempt_app. catalog_step. catalog_step; bsimp.
  { split_and!; [done..|]. right. intros (name & rest' & Hi & Hl & ->)%HP.
    rewrite <- Hl, Nat2Z.id, take_app_length in *. congruence. }
  assert (ldn data (len pre) n = Some (take (Z.to_nat n) rest)) as ->.
  { rewrite ldn_Some by lia. f_equal. by rewrite Ed, Nat2Z.id, drop_app_length. }
  catalog_step. apply wp_access; [done|]. intros ? [= <-]. catalog_step.
  replace (len pre + n) with (len (pre ++ take (Z.to_nat n) rest)) by (rewrite length_app; lia).
  apply (HQ _ (drop (Z.to_nat n) rest)); [done..|]. by rewrite take_drop.
Qed.

Lemma column_named_spec c name : column_named (column_of c) name = Some (bool_decide (cs_name c = name)).
Proof.
  unfold column_named, column_of, view. cbn [sc_name vs_len vs_data mbind option_bind].
  destruct (Z.eqb_spec (len (cs_name c)) (len name)) as [E|E].
  - rewrite ldn_Some by lia. cbn [mbind option_bind]. by rewrite drop_0, <- E, Nat2Z.id, firstn_all.
  - rewrite bool_decide_eq_false_2; [done|congruence].
Qed.

Lemma decode_distinct_spec w t before name (Q : unit -> ptr orm_tidesdb_sql_budget * orm_sql_table_definition -> Prop)
    (P : Prop) : forall l,
  settled b w l -> (P -> name ∉ map cs_name before) ->
  (forall l', settled b w l' -> name ∉ map cs_name before -> Q tt (l', t)) ->
  wp (decode_distinct (map column_of before) name) Q (build_error w t P) (l, t).
Proof.
  induction before as [|c before IH]; intros l Hs HP HQ; cbn [decode_distinct map].
  - catalog_step. apply HQ; [done|]. apply not_elem_of_nil.
  - do 2 catalog_step. eapply wp_mono; [apply charge_settled; [done|apply steps_lt|done|done]| |].
    2:{ intros f l' [Hl Hf]. split_and!; [done..|]. left. by rewrite Hf. }
    intros [] l' Hs'. cbn [map] in *. setoid_rewrite not_elem_of_cons in HQ. setoid_rewrite not_elem_of_cons in HP.
    catalog_step. rewrite column_named_spec. apply wp_access; [done|]. intros ? [= <-]. catalog_step. catalog_step.
    + split_and!; [done..|]. right. intros [? _]%HP. apply bool_decide_eq_true in H. congruence.
    + apply bool_decide_eq_false in H. apply IH; [done|intros [? ?]%HP; done|]. intros l2 Hs2 Hn. apply HQ; [done|].
      split; [congruence|done].
Qed.

Definition default_value (d : option turbodb_value_data_t) : orm_sql_column_default :=
  match d with Some v => mk_default (mk_value v 0) true | None => zero_default end.

Lemma read_default_bytes pre rest :
  data = pre ++ rest -> (9 <= length rest)%nat ->
  exists tag x rest', rest = tag :: x ++ rest' /\ length x = 8%nat /\ bytes_ok x /\ 0 <= tag /\
    ld data (len pre) = Some tag /\ orm_sql_wire_read data (len pre + 1) ORM_SQL_WIRE_U64 = Some (le_val x).
Proof.
  intros Ed Hl. destruct rest as [|tag rest]; [cbn in Hl; lia|]. cbn [length] in Hl.
  destruct (cut_bytes 8 rest) as (x & rest' & -> & Hx); [lia|]. exists tag, x, rest'.
  pose proof Hdata as Hb. rewrite Ed in Hb. apply Forall_app in Hb as [_ [Ht [Hb _]%Forall_app]%list.Forall_cons].
  split_and!; [done..|lia| |].
  - rewrite Ed. unfold ld. case_match; [blia|]. by rewrite Nat2Z.id, list_lookup_middle.
  - eapply (wire_read_mid data (pre ++ [tag]) x); [done|by rewrite Ed, <- app_assoc|rewrite length_app; cbn; lia|done|].
    unfold ORM_SQL_WIRE_U64. lia.
Qed.

Lemma alter_middle {A} (f : A -> A) ds x rs : alter f (length ds) (ds ++ x :: rs) = ds ++ f x :: rs.
Proof. induction ds as [|d ds IH]; cbn; [done|]. f_equal. apply IH. Qed.

Lemma decode_default_spec w pre rest l t ds rs type (Q : Z -> ptr orm_tidesdb_sql_budget * orm_sql_table_definition -> Prop)
    (P : Prop) :
  data = pre ++ rest -> settled b w l -> numeric (ty_kind type) -> tb_defaults t = Some (ds ++ zero_default :: rs) ->
  (P -> exists d rest', default_fits type d /\ rest = default_bytes d ++ rest') ->
  (forall d rest', default_fits type d -> rest = default_bytes d ++ rest' ->
    Q (len (pre ++ default_bytes d)) (l, set_defaults (fun _ => ds ++ default_value d :: rs) t)) ->
  wp (decode_default data (len data) (len pre) (length ds) type) Q (build_error w t P) (l, t).
Proof.
  intros Ed Hs Hn Ht HP HQ. unfold decode_default. unfold word in Hword.
  assert (len data = len pre + len rest) as El by (rewrite Ed, length_app; lia). rewrite size_sub_small by lia.
  catalog_step. catalog_step; bsimp.
  { split_and!; [done..|]. right. intros (d & rest' & _ & ->)%HP. rewrite length_app, length_default in *.
    unfold CATALOG_WIRE_DEFAULT in *. lia. }
  destruct (read_default_bytes pre rest Ed) as (tag & x & rest' & Er & Hx & Hxb & Htag & Hld & Hwire);
    [unfold CATALOG_WIRE_DEFAULT in *; lia|].
  assert (forall d rest'', default_fits type d -> rest = default_bytes d ++ rest'' -> parse_default type tag (le_val x) = Some d) as Hcomp.
  { intros d rest'' Hd E. rewrite Er in E. change (tag :: x ++ rest') with ((tag :: x) ++ rest') in E.
    apply app_inj_1 in E as [E _]; [|by rewrite length_default; cbn; rewrite Hx]. by apply parse_default_complete. }
  assert (forall d, parse_default type tag (le_val x) = Some d ->
    Q (len pre + 1 + Z.of_nat ORM_SQL_WIRE_U64) (l, set_defaults (fun _ => ds ++ default_value d :: rs) t)) as HQ'.
  { intros d Hd. destruct (parse_default_sound type tag x d) as [Hf Hb]; [done..|].
    replace (len pre + 1 + Z.of_nat ORM_SQL_WIRE_U64) with (len (pre ++ default_bytes d))
      by (rewrite length_app, length_default; unfold ORM_SQL_WIRE_U64; lia).
    apply (HQ d rest' Hf). by rewrite Hb. }
  catalog_step. rewrite Hld. apply wp_access; [done|]. intros ? [= <-].
  catalog_step. rewrite Hwire. apply wp_access; [done|]. intros ? [= <-].
  unfold parse_default in Hcomp, HQ'. catalog_step. catalog_step.
  { rewrite H0 in Hcomp. split_and!; [done..|]. right. intros (d & rest'' & Hd & E)%HP. by discriminate (Hcomp d rest'' Hd E). }
  rewrite H0 in Hcomp, HQ'.
  assert (set_defaults (fun _ => ds ++ zero_default :: rs) t = t) as Eid.
  { unfold set_defaults. rewrite Ht. cbn. rewrite <- Ht. by destruct t. }
  catalog_step. catalog_step; bsimp.
  - rewrite (proj2 (Z.eqb_neq _ _)) in Hcomp, HQ' by done. do 3 catalog_step.
    assert (forall v, set_defaults (alter (set_default_value (mk_value v 0)) (length ds))
      (set_defaults (alter set_specified (length ds)) t) = set_defaults (fun _ => ds ++ default_value (Some v) :: rs) t) as Eset.
    { intros v. unfold set_defaults. rewrite Ht. cbn. by rewrite !alter_middle. }
    destruct (tag =? CATALOG_DEFAULT_NULL); [|destruct (ty_kind type =? KIND_INT64); [|destruct (ty_kind type =? KIND_UINT64)]].
    4: destruct (isfinite (le_val x)).
    1-4: repeat catalog_step; try done; unfold turbodb_null, turbodb_i64, turbodb_u64, turbodb_f64;
      rewrite Eset; by apply HQ'.
    repeat catalog_step; [|done]. split_and!; [done..|]. right. intros (d & rest'' & Hd & E)%HP. by discriminate (Hcomp d rest'' Hd E).
  - rewrite H1 in HQ'. cbn in HQ'. specialize (HQ' None eq_refl). cbn [default_value] in HQ'. rewrite Eid in HQ'. by catalog_step.
Qed.

Lemma building_name (name : bytes) before n c :
  <[(length before + 1)%nat := c]> (name :: map cs_name before ++ replicate (S n) []) =
  name :: (map cs_name before ++ [c]) ++ replicate n [].
Proof.
  rewrite Nat.add_1_r. transitivity (name :: <[length before := c]> (map cs_name before ++ replicate (S n) [])); [done|].
  f_equal. rewrite insert_app_r_alt by (rewrite length_map; lia).
  by rewrite length_map, Nat.sub_diag, <- app_assoc.
Qed.

Lemma kind_cases k nu key i :
  0 <= k -> 0 <= nu ->
  (k <? CATALOG_WIRE_I64) || (CATALOG_WIRE_F64 <? k) || (1 <? nu) ||
    ((i =? key) && (negb (nu =? 0) || (k =? CATALOG_WIRE_F64))) = false ->
  numeric (read_kind k) /\ catalog_kind (read_kind k) = k /\ (if negb (nu =? 0) then 1 else 0) = nu /\
  (i = key -> key_ok (mk_type (read_kind k) (negb (nu =? 0)))).
Proof.
  unfold CATALOG_WIRE_I64, CATALOG_WIRE_F64. intros Hk Hn Hg. bsimp.
  assert (k = 1 \/ k = 2 \/ k = 3) as Hc by lia. assert (nu = 0 \/ nu = 1) as Hu by lia.
  split; [unfold numeric; destruct Hc as [->|[->| ->]]; cbn; auto|].
  split; [by destruct Hc as [->|[->| ->]]|]. split; [by destruct Hu as [->| ->]|]. intros ->. unfold key_ok. cbn [ty_kind ty_nullable].
  repeat (match goal with H : _ \/ _ |- _ => destruct H end; bsimp; subst); try done; try lia.
Qed.

Lemma kind_complete v key before c :
  placed v key before c ->
  (catalog_kind (ty_kind (cs_type c)) <? CATALOG_WIRE_I64) || (CATALOG_WIRE_F64 <? catalog_kind (ty_kind (cs_type c))) ||
    (1 <? (if ty_nullable (cs_type c) then 1 else 0)) ||
    ((len before =? key) && (negb ((if ty_nullable (cs_type c) then 1 else 0) =? 0) ||
      (catalog_kind (ty_kind (cs_type c)) =? CATALOG_WIRE_F64))) = false /\
  mk_type (read_kind (catalog_kind (ty_kind (cs_type c)))) (negb ((if ty_nullable (cs_type c) then 1 else 0) =? 0)) = cs_type c.
Proof.
  intros ([_ Hn _] & Hk & _). destruct (cs_type c) as [k u]. cbn [ty_kind ty_nullable] in *.
  destruct (Z.eqb_spec (len before) key) as [E|E].
  - destruct (Hk E) as [Hu Hd]. cbn [ty_kind ty_nullable] in *. subst u. destruct Hn as [->|[->| ->]]; done.
  - destruct Hn as [->|[->| ->]]; by destruct u.
Qed.

Lemma column_cut v c a k u rest1 rest' :
  a :: k :: u :: rest1 = column_bytes v c ++ rest' ->
  a = len (cs_name c) /\ k = catalog_kind (ty_kind (cs_type c)) /\ u = (if ty_nullable (cs_type c) then 1 else 0) /\
  rest1 = cs_name c ++ (if v =? CATALOG_WIRE_CURRENT then default_bytes (cs_default c) else []) ++ rest'.
Proof. unfold column_bytes. cbn. intros [= -> -> -> ->]. by rewrite <- app_assoc. Qed.

(** The definition with the name and the type of a column stored. *)
Definition with_column (d : orm_sql_table_definition) (name : bytes) (before : list column_shape) (n : nat) (cname : bytes)
    (type : orm_sql_type) : orm_sql_table_definition :=
  mk_table (Some (name :: (map cs_name before ++ [cname]) ++ replicate n []))
    (Some ((map column_of before ++ [column_of (mk_column_shape cname type None)]) ++ replicate n zero_column))
    (Some (map default_of before ++ zero_default :: replicate n zero_default))
    (tb_name_bytes d) (tb_column_bytes d) (tb_default_bytes d) (tb_metadata_bytes d) (tb_primary_key d) (tb_if_not_exists d).

Lemma with_column_default d name before n cname type dv :
  set_defaults (fun _ => map default_of before ++ default_value dv :: replicate n zero_default)
    (with_column d name before n cname type) = building d name (before ++ [mk_column_shape cname type dv]) n.
Proof.
  unfold set_defaults, with_column, building. cbn [tb_names tb_columns tb_defaults fmap option_fmap option_map].
  rewrite !map_app. cbn [map]. by rewrite <- (app_assoc (map default_of before)).
Qed.

Lemma store_column_spec d name before n cname type l (k : D Z) Q R :
  wp k Q R (l, with_column d name before n cname type) ->
  wp (catalog_copy_name (length before + 1) cname;;
      owned (set_columns (alter (set_column cname type) (length before)));; k)
    Q R (l, building d name before (S n)).
Proof.
  intros HQ. catalog_step. unfold catalog_copy_name. do 3 catalog_step. cbn [snd].
  change (names_of (building d name before (S n))) with (name :: map cs_name before ++ replicate (S n) []).
  apply wp_access. { apply lookup_lt_is_Some. cbn [length]. rewrite length_app, length_map, length_replicate. lia. }
  intros _ _. do 3 catalog_step. unfold set_names, set_columns, building. cbn [tb_names tb_columns fmap option_fmap option_map].
  rewrite building_name. replace (length before) with (length (map column_of before)) by apply length_map.
  cbn [replicate]. rewrite alter_middle. unfold with_column in HQ. by rewrite <- (app_assoc (map column_of before)) in HQ.
Qed.

Lemma read_column_bytes pre rest :
  data = pre ++ rest -> (3 <= length rest)%nat ->
  exists a k u rest1, rest = a :: k :: u :: rest1 /\ 0 <= a < 256 /\ 0 <= k /\ 0 <= u /\ ld data (len pre) = Some a /\
    ld data (len pre + 1) = Some k /\ ld data (len pre + 2) = Some u.
Proof.
  intros Ed Hl. destruct rest as [|a [|k [|u rest1]]]; try (cbn in Hl; lia). exists a, k, u, rest1.
  pose proof Hdata as Hb. rewrite Ed in Hb. apply Forall_app in Hb as [_ Hb]. repeat (apply list.Forall_cons in Hb as [? Hb]).
  assert (forall i c, 0 <= i -> (a :: k :: u :: rest1) !! Z.to_nat i = Some c -> ld data (len pre + i) = Some c) as Hld.
  { intros i c Hi Hc. rewrite Ed. unfold ld. case_match; [blia|]. rewrite lookup_app_r by lia. rewrite <- Hc. f_equal. lia. }
  split_and!; try done; try lia; [|by apply Hld..]. rewrite <- (Z.add_0_r (len pre)). by apply Hld.
Qed.

Lemma decode_column_spec w v key d name before n pre rest l
    (Q : Z -> ptr orm_tidesdb_sql_budget * orm_sql_table_definition -> Prop) (P : Prop) :
  data = pre ++ rest -> settled b w l ->
  (P -> exists c rest', placed v key before c /\ rest = column_bytes v c ++ rest') ->
  (forall c rest' l', settled b w l' -> placed v key before c -> rest = column_bytes v c ++ rest' ->
    Q (len (pre ++ column_bytes v c)) (l', building d name (before ++ [c]) n)) ->
  wp (decode_column data (len data) v key (len pre) (length before)) Q (build_error w d P) (l, building d name before (S n)).
Proof.
  intros Ed Hs HP HQ. unfold decode_column. unfold word in Hword.
  assert (len data = len pre + len rest) as El by (rewrite Ed, length_app; lia). rewrite size_sub_small by lia.
  unfold CATALOG_WIRE_COLUMN. catalog_step. catalog_step; bsimp.
  { split_and!; [done..|]. right. intros (c & rest' & _ & ->)%HP. rewrite length_app in El. cbn [column_bytes length app] in El. lia. }
  destruct (read_column_bytes pre rest Ed) as (a & k & u & rest1 & Er & Ha & Hk & Hu & L1 & L2 & L3); [lia|].
  catalog_step. rewrite L1. apply wp_access; [done|]. intros ? [= <-].
  catalog_step. rewrite L2. apply wp_access; [done|]. intros ? [= <-].
  catalog_step. rewrite L3. apply wp_access; [done|]. intros ? [= <-].
  assert (P -> exists c rest', placed v key before c /\ a = len (cs_name c) /\ k = catalog_kind (ty_kind (cs_type c)) /\
    u = (if ty_nullable (cs_type c) then 1 else 0) /\
    rest1 = cs_name c ++ (if v =? CATALOG_WIRE_CURRENT then default_bytes (cs_default c) else []) ++ rest') as HP'.
  { intros (c & rest' & Hc & E)%HP. rewrite Er in E. apply column_cut in E as (? & ? & ? & ?). eauto 10. }
  catalog_step. catalog_step.
  { split_and!; [done..|]. right. intros (c & rest' & Hc & -> & -> & -> & _)%HP'.
    destruct (kind_complete v key before c Hc) as [Hg _]. congruence. }
  destruct (kind_cases k u key (len before)) as (Hn & Ek & Eu & Hkey); [done..|].
  replace (len pre + 3) with (len (pre ++ [a; k; u])) by (rewrite length_app; cbn [length]; lia).
  change (build_error w d P) with (build_error w (building d name before (S n)) P).
  catalog_step. apply (wire_name_spec w (pre ++ [a; k; u]) rest1); [by rewrite <- app_assoc, Ed, Er|lia|done| |].
  { intros (c & rest' & Hc & -> & _ & _ & ->)%HP'. eexists _, _. split_and!; [apply Hc|done..]. }
  intros cname rest2 Hi Hl ->. do 2 catalog_step. cbn [snd].
  assert (P -> exists c rest', placed v key before c /\ cs_name c = cname /\
    cs_type c = mk_type (read_kind k) (negb (u =? 0)) /\
    rest2 = (if v =? CATALOG_WIRE_CURRENT then default_bytes (cs_default c) else []) ++ rest') as HP2.
  { intros (c & rest' & Hc & E1 & -> & -> & E2)%HP'. apply app_inj_1 in E2 as [-> ->]; [|lia]. exists c, rest'.
    split_and!; try done. symmetry. by apply (kind_complete v key before c). }
  replace (take (length before) (columns_of (building d name before (S n)))) with (map column_of before)
    by (unfold columns_of, building; cbn [tb_columns default from_option id]; by rewrite take_app_length' by by rewrite length_map).
  catalog_step. apply (decode_distinct_spec w); [done|by intros (c & rest' & (_ & _ & Hc) & <- & _)%HP2|].
  intros l' Hs' Hfresh. apply store_column_spec.
  change (build_error w (building d name before (S n)) P) with
    (build_error w (with_column d name before n cname (mk_type (read_kind k) (negb (u =? 0)))) P).
  assert (forall dv rest', default_fits (mk_type (read_kind k) (negb (u =? 0))) dv ->
    (is_some dv = true -> v = CATALOG_WIRE_CURRENT) ->
    rest2 = (if v =? CATALOG_WIRE_CURRENT then default_bytes dv else []) ++ rest' ->
    Q (len ((pre ++ [a; k; u] ++ cname) ++ (if v =? CATALOG_WIRE_CURRENT then default_bytes dv else [])))
      (l', building d name (before ++ [mk_column_shape cname (mk_type (read_kind k) (negb (u =? 0))) dv]) n)) as HQ'.
  { intros dv rest' Hd Hv ->. rewrite <- !app_assoc.
    assert (column_bytes v (mk_column_shape cname (mk_type (read_kind k) (negb (u =? 0))) dv) =
      [a; k; u] ++ cname ++ (if v =? CATALOG_WIRE_CURRENT then default_bytes dv else [])) as Ec.
    { unfold column_bytes. cbn [cs_name cs_type cs_default ty_kind ty_nullable]. by rewrite Ek, Eu, Hl. }
    rewrite <- Ec. apply (HQ _ rest' l' Hs').
    - split_and!; [split; [done..|]|done|done]. cbn. destruct dv; [|done]. by split; [apply Hv|].
    - rewrite Er, Ec, <- !app_assoc. done. }
  rewrite <- (app_assoc pre) in *. destruct (Z.eqb_spec v CATALOG_WIRE_CURRENT) as [->|Hv].
  - replace (length before) with (length (map default_of before)) by apply length_map.
    apply (decode_default_spec w (pre ++ [a; k; u] ++ cname) rest2 l' _ _ (replicate n zero_default)); [|done..| |].
    + rewrite Ed, Er, <- !app_assoc. done.
    + intros (c & rest' & Hc & _ & Et & ->)%HP2. rewrite <- Et. exists (cs_default c), rest'. split; [|done].
      destruct Hc as [[_ _ Hd] _]. destruct (cs_default c); [apply Hd|done].
    + intros dv rest' Hd E. rewrite with_column_default. by apply (HQ' dv rest').
  - catalog_step. specialize (HQ' None rest2). rewrite app_nil_r in HQ'.
    rewrite <- with_column_default in HQ'. by apply HQ'.
Qed.

Lemma decode_columns_spec w v key d name (Q : Z -> ptr orm_tidesdb_sql_budget * orm_sql_table_definition -> Prop) (P : Prop) n :
  forall before pre rest l,
  data = pre ++ rest -> settled b w l ->
  (P -> exists cs rest', length cs = n /\ placed_all v key before cs /\ rest = concat (map (column_bytes v) cs) ++ rest') ->
  (forall cs rest' l', settled b w l' -> length cs = n -> placed_all v key before cs ->
    rest = concat (map (column_bytes v) cs) ++ rest' ->
    Q (len (pre ++ concat (map (column_bytes v) cs))) (l', building d name (before ++ cs) 0)) ->
  wp (decode_columns n (length before) data (len data) v key (len pre)) Q (build_error w d P) (l, building d name before n).
Proof.
  induction n as [|n IH]; intros before pre rest l Ed Hs HP HQ; cbn [decode_columns].
  - catalog_step. specialize (HQ [] rest l Hs eq_refl I eq_refl). cbn [map concat] in HQ. by rewrite !app_nil_r in HQ.
  - catalog_step. apply (decode_column_spec w v key d name before n pre rest l); [done..| |].
    + intros (cs & rest' & Hl & Hc & ->)%HP. destruct cs as [|c cs]; [done|]. destruct Hc as [Hc _].
      exists c, (concat (map (column_bytes v) cs) ++ rest'). split; [done|]. cbn [map concat]. by rewrite <- app_assoc.
    + intros c rest' l' Hs' Hc Er. replace (S (length before)) with (length (before ++ [c])) by (rewrite length_app; cbn; lia).
      apply (IH (before ++ [c]) (pre ++ column_bytes v c) rest'); [by rewrite <- app_assoc, <- Er|done| |].
      * intros (cs & rest2 & Hl & Hc2 & E)%HP. rewrite Er in E. destruct cs as [|c2 cs]; [done|]. destruct Hc2 as [Hc2 Hcs].
        cbn [map concat] in E. rewrite <- app_assoc in E. apply (column_bytes_inj v) in E as [-> ->]; [|apply Hc|apply Hc2].
        injection Hl as Hl. eauto.
      * intros cs rest2 l2 Hs2 Hl Hcs ->. specialize (HQ (c :: cs) rest2 l2 Hs2 ltac:(cbn; by rewrite Hl) (conj Hc Hcs)).
        cbn [map concat] in HQ. rewrite <- !app_assoc in *. by apply HQ.
Qed.
End Decode.

(** What a definition holds of the ledger. *)
Definition sum (ns : list Z) : Z := foldr Z.add 0 ns.

Definition table_owns (b : orm_tidesdb_sql_budget) (d : orm_sql_table_definition) (l : ptr orm_tidesdb_sql_budget) : Prop :=
  settled b (sum (receipts d)) l /\ Forall (Z.le 0) (receipts d).

Lemma release_all_spec b ns : forall w l,
  settled b (w + sum ns) l -> 0 <= w -> Forall (Z.le 0) ns ->
  wp (release_all ns) (fun _ => settled b w) (fun _ _ => False) l.
Proof.
  induction ns as [|n ns IH]; intros w l Hs Hw Hn; cbn [sum foldr] in Hs.
  - by rewrite Z.add_0_r in Hs.
  - apply list.Forall_cons in Hn as [Hn Hns].
    assert (0 <= sum ns) as Hsum by (clear -Hns; unfold sum; induction Hns; cbn; lia). change (foldr Z.add 0 ns) with (sum ns) in Hs.
    pose proof (work_release_settled b _ l n Hs ltac:(lia)) as H1. unfold wp in *. cbn [release_all].
    destruct (orm_sql_work_release n l) as [[[]|e|] l1]; try done.
    specialize (IH w l1 ltac:(by replace (w + sum ns) with (w + (n + sum ns) - n) by lia) Hw Hns).
    by destruct (release_all ns l1) as [[[]|e|] l2].
Qed.

Lemma catalog_destroy_spec b d l :
  table_owns b d l -> wp (orm_tidesdb_sql_catalog_destroy (Some d)) (fun _ => settled b 0) (fun _ _ => False) l.
Proof.
  intros [Hs Hn]. pose proof Hs as (b1 & -> & _). unfold wp, orm_tidesdb_sql_catalog_destroy.
  apply (release_all_spec b (receipts d) 0 (Some b1)); [by rewrite Z.add_0_l|done|done].
Qed.

Section Read.
Context `{vec_library} (sizeof_binder : Z) (Hsizeof : 0 < sizeof_binder < 2 ^ 64) (b : orm_tidesdb_sql_budget) (data : bytes)
  (Hdata : bytes_ok data) (Hword : word (len data)).

Definition blank (key : Z) : orm_sql_table_definition := mk_table None None None 0 0 0 0 key false.

(** The definition with its vectors allocated. *)
Definition allocated (count key : Z) : orm_sql_table_definition :=
  mk_table (Some (replicate (Z.to_nat (count + 1)) [])) (Some (replicate (Z.to_nat count) zero_column))
    (Some (replicate (Z.to_nat count) zero_default)) (work_size (count + 1) sizeof_catalog_name alignof_catalog)
    (work_size count sizeof_schema_column alignof_catalog) (work_size count sizeof_column_default alignof_catalog)
    sizeof_binder key false.

(** The errors of the decoder: a resource is missing or [P] does not hold. *)
Definition read_error (P : Prop) (f : turbodb_failure) (s : ptr orm_tidesdb_sql_budget * orm_sql_table_definition) : Prop :=
  (resource_status (f_status f) = true \/ ~ P) /\ table_owns b s.2 s.1.

Lemma catalog_allocate_spec count key l (k : D unit)
    (Q : unit -> ptr orm_tidesdb_sql_budget * orm_sql_table_definition -> Prop) P :
  settled b 0 l -> 0 < count < 2 ^ 32 ->
  (forall l', table_owns b (allocated count key) l' -> wp k Q (read_error P) (l', allocated count key)) ->
  wp (on_ledger (catalog_charge ORM_SQL_BUDGET_EXECUTION_STEPS (len data));;
      on_ledger (catalog_charge ORM_SQL_BUDGET_PLAN_NODES (count + 1));;
      metadata ← on_ledger (orm_tidesdb_sql_budget_reserve_capacity 1 sizeof_binder 0 true);
      owned (put_metadata metadata);;
      on_member names_work put_names (orm_sql_work_zero [] (count + 1) sizeof_catalog_name alignof_catalog);;
      on_member columns_work put_columns (orm_sql_work_zero zero_column count sizeof_schema_column alignof_catalog);;
      on_member defaults_work put_defaults (orm_sql_work_zero zero_default count sizeof_column_default alignof_catalog);;
      k) Q (read_error P) (l, blank key).
Proof.
  intros Hs Hc HQ.
  assert (forall f l', settled b 0 l' /\ f_status f = TURBODB_STATUS_LIMIT_EXCEEDED -> read_error P f (l', blank key)) as HE.
  { intros f l' [Hl Hf]. split; [left; by rewrite Hf|]. split; [done|]. by repeat constructor. }
  do 2 catalog_step. eapply wp_mono; [apply charge_settled; try done; apply steps_lt| |apply HE].
  intros [] l1 H1. do 2 catalog_step.
  eapply wp_mono; [apply charge_settled; try done; unfold word, COUNT, ORM_SQL_BUDGET_PLAN_NODES; lia| |apply HE].
  intros [] l2 H2. do 2 catalog_step. eapply wp_mono; [apply capacity_settled; try done; unfold word; lia| |apply HE].
  intros n l3 (-> & _ & H3). replace (0 + (1 * sizeof_binder + 0)) with sizeof_binder in H3 by lia.
  replace (1 * sizeof_binder + 0) with sizeof_binder by lia. do 2 catalog_step.
  set (N := work_size (count + 1) sizeof_catalog_name alignof_catalog). set (C := work_size count sizeof_schema_column alignof_catalog).
  assert (0 <= N /\ 0 <= C) as [HN HC].
  { unfold N, C, work_size, sizeof_pointer, sizeof_catalog_name, sizeof_schema_column, alignof_catalog. lia. }
  do 2 catalog_step. eapply wp_mono; [eapply work_zero_settled; [exact H3|lia|done..]| |].
  2:{ intros f s (Hf & Hl & Hr). split; [by left|]. split; [|repeat constructor; cbn; lia].
    cbn. replace (_ + (_ + _)) with (sizeof_binder + wk_reserved s.2) by lia. done. }
  intros [] [l4 w4] [E4 H4]. cbn [fst snd] in *. subst w4. cbn [wk_reserved] in H4. fold N in H4.
  do 2 catalog_step. eapply wp_mono; [eapply work_zero_settled; [exact H4|lia|done..]| |].
  2:{ intros f s (Hf & Hl & Hr). split; [by left|]. split; [|repeat constructor; cbn; lia].
    cbn. fold N. replace (_ + (_ + _)) with (sizeof_binder + N + wk_reserved s.2) by lia. done. }
  intros [] [l5 w5] [E5 H5]. cbn [fst snd] in *. subst w5. cbn [wk_reserved] in H5. fold C in H5.
  do 2 catalog_step. eapply wp_mono; [eapply work_zero_settled; [exact H5|lia|done..]| |].
  2:{ intros f s (Hf & Hl & Hr). split; [by left|]. split; [|repeat constructor; cbn; fold N; fold C; lia].
    cbn. fold N. fold C. replace (_ + (_ + _)) with (sizeof_binder + N + C + wk_reserved s.2) by lia. done. }
  intros [] [l6 w6] [E6 H6]. cbn [fst snd] in *. subst w6. cbn [wk_reserved] in H6. apply HQ. split.
  - cbn. fold N. fold C. by replace (_ + (_ + _)) with (sizeof_binder + N + C + work_size count sizeof_column_default alignof_catalog) by lia.
  - repeat constructor; cbn; fold N; fold C; try lia.
    unfold work_size, sizeof_pointer, sizeof_column_default, alignof_catalog. lia.
Qed.

Definition tail_bytes (v : Z) (s : table_shape) : bytes :=
  (len (sh_name s) :: sh_name s) ++ concat (map (column_bytes v) (sh_columns s)).

(** The tables a header announces. *)
Definition announced (v count key : Z) (s : table_shape) : Prop :=
  shape_ok v s /\ len (sh_columns s) = count /\ sh_key s = key.

Lemma announced_placed v count key s : announced v count key s -> placed_all v key [] (sh_columns s).
Proof.
  intros ([_ _ _ Ha Hd (Hk & c & Hc & Hok)] & _ & <-). apply placed_all_spec; [apply NoDup_nil_2|]. split_and!; [done..|].
  cbn [length]. intros i c' Hi Ei. replace (Z.to_nat (sh_key s)) with i in Hc by lia. congruence.
Qed.

Lemma placed_announced v count key name cs :
  v = 1 \/ v = CATALOG_WIRE_CURRENT -> identifier name = true -> 0 < count < 2 ^ 32 -> 0 <= key < count ->
  len cs = count -> placed_all v key [] cs -> announced v count key (mk_table_shape name cs key).
Proof.
  intros Hv Hn Hc Hk Hl Hp. apply placed_all_spec in Hp as (Ha & Hd & Hi); [|apply NoDup_nil_2].
  destruct (lookup_lt_is_Some_2 cs (Z.to_nat key)) as [c Hcol]; [lia|].
  split; [|done]. split; cbn; try done; [unfold UINT32_MAX; lia|]. split; [lia|]. exists c. split; [done|].
  apply (Hi _ _ Hcol). cbn. lia.
Qed.

Lemma first_name count key name :
  0 < count ->
  set_names (insert (M := list bytes) 0%nat name) (allocated count key) =
    building (allocated count key) name [] (Z.to_nat count).
Proof.
  intros Hc. unfold allocated, building, set_names. cbn [tb_names fmap option_fmap option_map map app].
  by replace (Z.to_nat (count + 1)) with (S (Z.to_nat count)) by lia.
Qed.

Lemma catalog_read_spec v count key header rest l :
  data = header ++ rest -> length header = 12%nat -> (0 < length rest)%nat -> v = 1 \/ v = CATALOG_WIRE_CURRENT ->
  0 < count < 2 ^ 32 -> 0 <= key < count -> settled b 0 l ->
  wp (catalog_read sizeof_binder data (len data) v count key)
    (fun _ s => exists sh, announced v count key sh /\ rest = tail_bytes v sh /\ represents s.2 sh /\
      receipts s.2 = receipts (allocated count key) /\ table_owns b s.2 s.1)
    (read_error (exists sh, announced v count key sh /\ rest = tail_bytes v sh)) (l, blank key).
Proof.
  intros Ed Hh Hrest Hv Hc Hk Hs. unfold catalog_read. apply catalog_allocate_spec; [done..|]. intros l1 [Hs1 Hpos].
  destruct rest as [|a rest]; [cbn in Hrest; lia|].
  assert (0 <= a < 256) as Ha by (rewrite Ed in Hdata; apply Forall_app in Hdata as [_ [? _]%list.Forall_cons]; done).
  assert (forall P f s, build_error b (sum (receipts (allocated count key))) (allocated count key) P f s -> read_error P f s) as HE.
  { intros P f s (Er & Hs2 & Hf). split; [done|]. unfold table_owns. rewrite Er. done. }
  eapply wp_mono; [|intros ? ? Hq; exact Hq|apply HE]. clear HE.
  catalog_step. assert (ld data CATALOG_WIRE_HEADER = Some a) as ->.
  { rewrite Ed. unfold ld, CATALOG_WIRE_HEADER. cbn. rewrite lookup_app_r by (rewrite Hh; cbv; lia). by rewrite Hh. }
  apply wp_access; [done|]. intros ? [= <-].
  replace (CATALOG_WIRE_HEADER + 1) with (len (header ++ [a])) by (rewrite length_app, Hh; done).
  catalog_step. eapply (wire_name_spec b data Hword _ (header ++ [a]) rest); [by rewrite <- app_assoc|done|done| |].
  { intros (sh & [Hok _] & [= -> ->]). exists (sh_name sh). eexists. split_and!; [apply Hok|done|done]. }
  intros name rest1 Hn Hl ->. catalog_step. unfold catalog_copy_name. do 3 catalog_step. cbn [snd].
  apply wp_access. { unfold allocated, names_of. cbn. apply lookup_lt_is_Some. rewrite length_replicate. lia. }
  intros _ _. catalog_step. catalog_step. rewrite first_name by lia.
  eapply (decode_columns_spec b data Hdata Hword _ v key (allocated count key) name _ _ (Z.to_nat count) [] _ rest1); [by rewrite Ed, <- !app_assoc|done| |].
  - intros (sh & Ha1 & E). pose proof (announced_placed _ _ _ _ Ha1) as Hp. destruct Ha1 as (Hok & El & _).
    injection E as Ea E. rewrite Ea in Hl. apply app_inj_1 in E as [_ ->]; [|lia].
    exists (sh_columns sh), []. rewrite app_nil_r. split_and!; [lia|done|done].
  - intros cs rest2 l2 Hs2 Hn2 Hp ->. assert (len cs = count) as Hlen by lia.
    pose proof (placed_announced v count key name cs Hv Hn Hc Hk Hlen Hp) as Ha2. rewrite <- (app_assoc header).
    catalog_step; bsimp.
    + split_and!; [done..|]. right. intros (sh & (Hok & El & _) & E). destruct Ha2 as (Hok2 & _).
      injection E as Ea E. rewrite Ea in Hl. apply app_inj_1 in E as [_ E]; [|lia]. rewrite <- (app_nil_r (concat (map _ (sh_columns sh)))) in E.
      apply (columns_inj v) in E as [_ ->]; [|apply Hok2|apply Hok|lia]. rewrite Ed, app_nil_r, <- (app_assoc header) in *. done.
    + assert (rest2 = []) as ->.
      { apply nil_length_inv. rewrite Ed, !length_app in *. cbn [length] in *. rewrite !length_app in *. lia. }
      exists (mk_table_shape name cs key). split; [done|]. rewrite app_nil_r.
      split; [unfold tail_bytes; cbn; by rewrite Hl|]. split; [|done].
      split; cbn; by rewrite ?app_nil_r.
Qed.

Definition column_fixed (v : Z) : Z :=
  CATALOG_WIRE_COLUMN + (if v =? CATALOG_WIRE_CURRENT then CATALOG_WIRE_DEFAULT else 0).

Lemma columns_length v cs :
  Forall (column_ok v) cs -> (column_fixed v + 1) * len cs <= len (concat (map (column_bytes v) cs)).
Proof.
  induction 1 as [|c cs Hc _ IH]; cbn [map concat length]; [lia|]. rewrite length_app.
  pose proof (identifier_size _ (co_name _ _ Hc)).
  assert (column_fixed v + 1 <= len (column_bytes v c)) as Hl.
  { unfold column_fixed, column_bytes, CATALOG_WIRE_COLUMN, CATALOG_WIRE_DEFAULT. rewrite !length_app. cbn [length].
    case_match; rewrite ?length_default; cbn [length]; lia. }
  lia.
Qed.

(** The fields of the header. *)
Record header_fields (m m' v f : Z) (x y rest : bytes) : Prop := {
  hf_data : data = (m :: m' :: v :: f :: x ++ y) ++ rest;
  hf_size : length x = 4%nat /\ length y = 4%nat /\ (0 < length rest)%nat;
  hf_range : 0 <= le_val x < 2 ^ 32 /\ 0 <= le_val y < 2 ^ 32 /\ bytes_ok x /\ bytes_ok y;
  hf_magic : ldn data 0 CATALOG_WIRE_VERSION = Some [m; m'];
  hf_version : ld data CATALOG_WIRE_VERSION = Some v;
  hf_flags : ld data CATALOG_WIRE_FLAGS = Some f;
  hf_count : orm_sql_wire_read data CATALOG_WIRE_COUNT ORM_SQL_WIRE_U32 = Some (le_val x);
  hf_key : orm_sql_wire_read data CATALOG_WIRE_KEY ORM_SQL_WIRE_U32 = Some (le_val y)
}.

Lemma catalog_header_split : 12 < len data -> exists m m' v f x y rest, header_fields m m' v f x y rest.
Proof.
  intros Hl. assert (exists m m' v f d, data = m :: m' :: v :: f :: d) as (m & m' & v & f & d & Ed).
  { clear -Hl. destruct data as [|m [|m' [|v [|f d]]]]; try (cbn [length] in Hl; lia). by repeat eexists. }
  rewrite Ed in Hl. cbn [length] in Hl.
  destruct (cut_bytes 4 d) as (x & d1 & E1 & L1); [lia|]. rewrite E1, length_app in Hl.
  destruct (cut_bytes 4 d1) as (y & d2 & E2 & L2); [lia|]. rewrite E2, length_app in Hl.
  exists m, m', v, f, x, y, d2. subst d d1.
  pose proof Hdata as Hb. rewrite Ed in Hb. repeat (apply list.Forall_cons in Hb as [? Hb] || apply Forall_app in Hb as [? Hb]).
  split; try (by rewrite Ed); try (by rewrite Ed; cbn [app]; rewrite <- !app_assoc).
  - split_and!; [done..|lia].
  - pose proof (le_val_range x ltac:(done)) as R1. pose proof (le_val_range y ltac:(done)) as R2. rewrite L1 in R1. rewrite L2 in R2. done.
  - rewrite ldn_Some; [by rewrite Ed|done..|rewrite Ed; cbn [length]; unfold CATALOG_WIRE_VERSION; lia].
  - eapply (wire_read_mid data [m; m'; v; f]); [done|exact Ed|done|done|unfold ORM_SQL_WIRE_U32; lia].
  - eapply (wire_read_mid data ([m; m'; v; f] ++ x) y); [done|by rewrite Ed, <- !app_assoc|by rewrite length_app, L1|done|].
    unfold ORM_SQL_WIRE_U32. lia.
Qed.

Lemma shape_bytes_tail v sh :
  shape_bytes v sh = (83 :: 67 :: v :: 0 :: le_bytes 4 (len (sh_columns sh)) ++ le_bytes 4 (sh_key sh)) ++ tail_bytes v sh.
Proof. unfold shape_bytes, tail_bytes. cbn [app]. by rewrite <- !app_assoc. Qed.

Lemma catalog_header_complete m m' v f x y rest v' sh :
  header_fields m m' v f x y rest -> shape_ok v' sh -> shape_bytes v' sh = data ->
  m = 83 /\ m' = 67 /\ v = v' /\ f = 0 /\ announced v (le_val x) (le_val y) sh /\ rest = tail_bytes v sh.
Proof.
  intros Hf Hok E. pose proof (hf_size _ _ _ _ _ _ _ Hf) as (L1 & L2 & _). rewrite (hf_data _ _ _ _ _ _ _ Hf), shape_bytes_tail in E.
  apply app_inj_1 in E as [E Er]; [|cbn [length]; by rewrite !length_app, !length_le_bytes, L1, L2].
  change (83 :: 67 :: v' :: 0 :: ?l) with ([83; 67; v'; 0] ++ l) in E. change (m :: m' :: v :: f :: x ++ y) with ([m; m'; v; f] ++ x ++ y) in E.
  apply app_inj_1 in E as [[= <- <- -> <-] E]; [|done]. apply app_inj_1 in E as [<- <-]; [|by rewrite length_le_bytes].
  destruct (sh_keyed _ _ Hok) as (Hk & c & Hc%lookup_lt_Some & _). pose proof (sh_count _ _ Hok). unfold UINT32_MAX in *.
  rewrite !le_val_bytes. change (2 ^ (8 * Z.of_nat 4)) with (2 ^ 32). rewrite !Z.mod_small by lia. split_and!; try done.
Qed.

Lemma catalog_header_sound m m' v f x y rest sh :
  header_fields m m' v f x y rest -> m = 83 -> m' = 67 -> f = 0 -> announced v (le_val x) (le_val y) sh ->
  rest = tail_bytes v sh -> shape_bytes v sh = data.
Proof.
  intros Hf -> -> -> (_ & En & Ek) ->. rewrite (hf_data _ _ _ _ _ _ _ Hf), shape_bytes_tail, En, Ek.
  destruct (hf_size _ _ _ _ _ _ _ Hf) as (L1 & L2 & _). destruct (hf_range _ _ _ _ _ _ _ Hf) as (_ & _ & B1 & B2).
  replace (le_bytes 4 (le_val x)) with x by (rewrite <- L1; by rewrite le_bytes_val).
  by replace (le_bytes 4 (le_val y)) with y by (rewrite <- L2; by rewrite le_bytes_val).
Qed.

(** The check of the number of columns and of the key. *)
Lemma catalog_count_complete v count key sh size :
  announced v count key sh -> size = len (shape_bytes v sh) -> word size -> 0 <= key ->
  (count =? 0) || (count <=? key) || (size_sub size CATALOG_WIRE_HEADER / (column_fixed v + 1) <? count) = false.
Proof.
  intros (Hok & En & Ek) -> Hw Hk. pose proof (columns_length v _ (sh_all _ _ Hok)) as Hc. rewrite En in Hc.
  pose proof (sh_count _ _ Hok) as Hn. rewrite En in Hn.
  destruct (sh_keyed _ _ Hok) as (_ & c & Hlt%lookup_lt_Some & _). unfold word in Hw.
  rewrite (length_shape v sh) in *. unfold CATALOG_WIRE_HEADER in *. rewrite size_sub_small by lia.
  assert (0 < column_fixed v + 1) by (unfold column_fixed, CATALOG_WIRE_COLUMN, CATALOG_WIRE_DEFAULT; case_match; lia).
  assert (count <= (12 + 1 + len (sh_name sh) + len (concat (map (column_bytes v) (sh_columns sh))) - 12) / (column_fixed v + 1)).
  { apply Z.div_le_lower_bound; lia. }
  apply orb_false_iff. split; [apply orb_false_iff; split|]; [apply Z.eqb_neq; lia|apply Z.leb_gt; lia|apply Z.ltb_ge; lia].
Qed.

Lemma catalog_decode_spec max_bytes :
  ledger_ok b -> statement_active b = true -> 0 < max_bytes < 2 ^ 64 ->
  wp (orm_tidesdb_sql_catalog_decode sizeof_binder (Some data) (len data) max_bytes true)
    (fun d l => (exists v sh, shape_ok v sh /\ shape_bytes v sh = data /\ represents d sh /\
        receipts d = receipts (allocated (len (sh_columns sh)) (sh_key sh))) /\ len data <= max_bytes /\ table_owns b d l)
    (catalog_error b (fun _ => forall v sh, shape_ok v sh -> shape_bytes v sh <> data)) (Some b).
Proof.
  intros Hb Ha Hm. pose proof (settled_start b Hb Ha) as Hs. unfold orm_tidesdb_sql_catalog_decode.
  do 2 catalog_step. cbn [is_some negb orb id]. rewrite (proj2 (Z.eqb_neq max_bytes 0)) by lia. catalog_step. catalog_step; [done|].
  catalog_step. catalog_step; [split; [by left|done]|]. catalog_step. catalog_step; bsimp.
  { split; [right|done]. intros v sh _ E. rewrite <- E, length_shape in *. unfold CATALOG_WIRE_HEADER in *. lia. }
  destruct catalog_header_split as (m & m' & v & f & x & y & rest & Hf); [unfold CATALOG_WIRE_HEADER in *; lia|].
  pose proof (fun v' sh => catalog_header_complete _ _ _ _ _ _ _ v' sh Hf) as Hcomp.
  destruct (hf_range _ _ _ _ _ _ _ Hf) as (Rx & Ry & _). destruct (hf_size _ _ _ _ _ _ _ Hf) as (L1 & L2 & L3).
  catalog_step. rewrite (hf_magic _ _ _ _ _ _ _ Hf). apply wp_access; [done|]. intros ? [= <-]. catalog_step. catalog_step; bsimp.
  { split; [right|done]. intros v' sh Hok E. destruct (Hcomp v' sh Hok E) as (-> & -> & _). by rewrite bool_decide_eq_true_2 in *. }
  match goal with H : bool_decide _ = true |- _ => apply bool_decide_eq_true in H as [= -> ->] end.
  catalog_step. rewrite (hf_version _ _ _ _ _ _ _ Hf). apply wp_access; [done|]. intros ? [= <-].
  catalog_step. apply wp_access; [done|]. intros ? [= <-]. catalog_step. catalog_step.
  { split; [right|done]. intros v' sh Hok E. destruct (Hcomp v' sh Hok E) as (_ & _ & -> & _). by destruct (sh_version _ _ Hok) as [->| ->]. }
  assert (v = 1 \/ v = CATALOG_WIRE_CURRENT) as Hv by (bsimp; match goal with H : _ \/ _ |- _ => destruct H end; bsimp; auto).
  catalog_step. rewrite (hf_flags _ _ _ _ _ _ _ Hf). apply wp_access; [done|]. intros ? [= <-]. catalog_step. catalog_step; bsimp.
  { split; [right|done]. intros v' sh Hok E. destruct (Hcomp v' sh Hok E) as (_ & _ & _ & ? & _). done. }
  catalog_step. rewrite (hf_count _ _ _ _ _ _ _ Hf). apply wp_access; [done|]. intros ? [= <-].
  catalog_step. rewrite (hf_key _ _ _ _ _ _ _ Hf). apply wp_access; [done|]. intros ? [= <-].
  fold (column_fixed v). catalog_step. catalog_step.
  { split; [right|done]. intros v' sh Hok E. destruct (Hcomp v' sh Hok E) as (_ & _ & <- & _ & Han & _).
    pose proof (catalog_count_complete _ _ _ _ (len data) Han ltac:(by rewrite E) Hword ltac:(lia)). congruence. }
  bsimp. catalog_step. eapply (wp_mono _ _ _ (fun f' l => (resource_status (f_status f') = true \/
    ~ exists sh, announced v (le_val x) (le_val y) sh /\ rest = tail_bytes v sh) /\ settled b 0 l)).
  - apply (transact_wp _ _ _ b _ (fun r l => exists sh, announced v (le_val x) (le_val y) sh /\ rest = tail_bytes v sh /\
      represents r.2 sh /\ receipts r.2 = receipts (allocated (le_val x) (le_val y)) /\ table_owns b r.2 l) _ (table_owns b));
      [|intros; by apply catalog_destroy_spec].
    eapply catalog_read_spec; [apply Hf| |done|done|lia|lia|done]. cbn [length]. by rewrite length_app, L1, L2.
  - intros [[] d] l (sh & Han & Er & Hr & Erc & Ho). cbn [fst snd] in *. catalog_step. split_and!; [|lia|done].
    exists v, sh. split_and!; [apply Han| |done|].
    + by eapply catalog_header_sound.
    + destruct Han as (_ & -> & ->). done.
  - intros f' l [He Hl]. split; [|done]. destruct He as [He|He]; [by left|]. right. intros v' sh Hok E. apply He.
    destruct (Hcomp v' sh Hok E) as (_ & _ & _ & _ & ? & ?). eauto.
Qed.
End Read.

(** ** Renaming *)

Definition rename_column (name : bytes) (c : column_shape) : column_shape := mk_column_shape name (cs_type c) (cs_default c).

(** Slot zero is the table, slot [i + 1] column [i]. *)
Definition renamed (slot : nat) (name : bytes) (sh : table_shape) : table_shape :=
  match slot with
  | O => mk_table_shape name (sh_columns sh) (sh_key sh)
  | S i => mk_table_shape (sh_name sh) (alter (rename_column name) i (sh_columns sh)) (sh_key sh)
  end.

(** No other column has the name. *)
Definition name_free (slot : nat) (name : bytes) (sh : table_shape) : Prop :=
  slot <> O -> forall j c, sh_columns sh !! j = Some c -> S j <> slot -> cs_name c <> name.

Lemma rename_check_spec cs slot name : forall i s (Q : unit -> ptr orm_tidesdb_sql_budget * orm_sql_table_definition -> Prop) R,
  ((forall j c, cs !! j = Some c -> (i + j + 1)%nat <> slot -> cs_name c <> name) -> Q tt s) ->
  (forall f, f_status f = TURBODB_STATUS_SQL_ERROR ->
    (exists j c, cs !! j = Some c /\ (i + j + 1)%nat <> slot /\ cs_name c = name) -> R f s) ->
  wp (rename_check (map column_of cs) (Z.of_nat i) (Z.of_nat slot) name) Q R s.
Proof.
  induction cs as [|c cs IH]; intros i s Q R HQ HR; cbn [rename_check map].
  - catalog_step. apply HQ. by intros [].
  - catalog_step. apply (wp_mono _ (fun taken s' => s' = s /\
      taken = (if Z.of_nat i + 1 =? Z.of_nat slot then false else bool_decide (cs_name c = name))) _ (fun _ _ => False)); [| |done].
    { case_match; [by catalog_step|]. rewrite column_named_spec. apply wp_access; [done|]. by intros ? [= <-]. }
    intros taken s' [-> ->]. catalog_step. catalog_step.
    + destruct (Z.eqb_spec (Z.of_nat i + 1) (Z.of_nat slot)); [done|]. apply bool_decide_eq_true in H.
      apply HR; [done|]. exists 0%nat, c. split_and!; [done|lia|done].
    + replace (Z.of_nat i + 1) with (Z.of_nat (S i)) by lia. apply IH.
      * intros Hfree. apply HQ. intros [|j] c' Hl Hne.
        -- injection Hl as <-. destruct (Z.eqb_spec (Z.of_nat i + 1) (Z.of_nat slot)); [lia|]. by apply bool_decide_eq_false in H.
        -- apply (Hfree j c' Hl). lia.
      * intros f Hf (j & c' & Hl & Hne & E). apply HR; [done|]. exists (S j), c'. split_and!; [done|lia|done].
Qed.

Lemma map_alter {A B} (f : A -> B) (g : A -> A) (h : B -> B) i (l : list A) :
  (forall x, f (g x) = h (f x)) -> map f (alter g i l) = alter h i (map f l).
Proof.
  intros Hf. revert i. induction l as [|x l IH]; intros [|i]; cbn; try done; f_equal; [apply Hf|apply IH].
Qed.

Lemma renamed_represents d sh slot name :
  represents d sh -> (slot <= length (sh_columns sh))%nat ->
  represents (if (slot =? 0)%nat then set_names (<[slot := name]>) d
    else set_columns (alter (set_column_name name) (slot - 1)%nat) (set_names (<[slot := name]>) d)) (renamed slot name sh).
Proof.
  intros [Hn Hc Hd Hk] Hs. destruct slot as [|i]; cbn [Nat.eqb renamed].
  - split; cbn; try done. by rewrite Hn.
  - replace (S i - 1)%nat with i by lia. split; cbn; try done.
    + rewrite Hn, (map_alter _ _ (fun _ => name)) by done. cbn [fmap option_fmap option_map].
      by rewrite <- (list_insert_alter (map cs_name (sh_columns sh))).
    + rewrite Hc. cbn. f_equal. by rewrite (map_alter _ _ (set_column_name name)).
    + rewrite Hd. f_equal. rewrite (map_alter _ _ id) by done. by rewrite list_alter_id.
Qed.

Lemma renamed_ok v slot name sh :
  shape_ok v sh -> identifier name = true -> name_free slot name sh -> shape_ok v (renamed slot name sh).
Proof.
  intros [Hv Hn Hc Ha Hd (Hk & c & Hkc & Hok)] Hi Hfree. destruct slot as [|i]; [by split; eauto|].
  split; cbn [renamed sh_name sh_columns sh_key]; rewrite ?length_alter; try done.
  - apply list.Forall_alter; [done|]. intros x Hx [_ H2 H3]. by split.
  - rewrite (map_alter _ _ (fun _ => name)), <- list_insert_alter by done. apply NoDup_alt. rewrite NoDup_alt in Hd.
    assert (forall j x, j <> i -> map cs_name (sh_columns sh) !! j = Some x -> x <> name) as Hf.
    { intros j x Hj. rewrite list_lookup_fmap. intros (c' & Hc' & ->)%fmap_Some. apply (Hfree ltac:(done) j c' Hc'). congruence. }
    intros j k x Hj Hk'. destruct (decide (j = i)) as [->|Hji], (decide (k = i)) as [->|Hki]; [done|..].
    + rewrite list_lookup_insert_ne in Hk' by done. apply list_lookup_insert_Some in Hj as [(_ & <- & _)|[? _]]; [|done].
      by destruct (Hf k _ Hki Hk').
    + rewrite list_lookup_insert_ne in Hj by done. apply list_lookup_insert_Some in Hk' as [(_ & <- & _)|[? _]]; [|done].
      by destruct (Hf j _ Hji Hj).
    + rewrite list_lookup_insert_ne in Hj, Hk' by done. by eapply Hd.
  - split; [done|]. destruct (decide (Z.to_nat (sh_key sh) = i)) as [E|E].
    + exists (rename_column name c). rewrite E in *. split; [by rewrite list_lookup_alter_eq, Hkc|done].
    + exists c. by rewrite list_lookup_alter_ne.
Qed.

Lemma renamed_wide slot name sh : shape_wide (renamed slot name sh) = shape_wide sh.
Proof.
  destruct slot as [|i]; [done|]. unfold shape_wide. cbn [renamed sh_columns]. generalize (sh_columns sh). intros cs.
  revert i. induction cs as [|c cs IH]; intros [|i]; cbn; try done. f_equal. apply IH.
Qed.

(** What a rename is allowed to do. *)
Definition rename_ok (slot : nat) (name : bytes) (sh : table_shape) : Prop :=
  (slot <= length (sh_columns sh))%nat /\ identifier name = true /\ name_free slot name sh.

Lemma catalog_rename_spec b w l d sh slot name :
  settled b w l -> represents d sh ->
  wp (orm_sql_catalog_rename (Z.of_nat slot) (view name))
    (fun _ s => represents s.2 (renamed slot name sh) /\ receipts s.2 = receipts d /\ rename_ok slot name sh /\ settled b w s.1)
    (fun f s => s.2 = d /\ settled b w s.1 /\ (resource_status (f_status f) = true \/ ~ rename_ok slot name sh)) (l, d).
Proof.
  intros Hs Hr. unfold orm_sql_catalog_rename. do 4 catalog_step. cbn [fst snd]. rewrite (settled_some _ _ _ Hs).
  unfold names_of, columns_of. rewrite (rp_names _ _ Hr), (rp_columns _ _ Hr). cbn [default from_option id negb orb].
  do 2 catalog_step; bsimp.
  { cbn [length] in *. rewrite length_map in *. split_and!; [done..|]. right. intros (? & _). lia. }
  cbn [length] in *. rewrite length_map in *. do 2 catalog_step.
  rewrite <- (app_nil_r name) at 1. unfold view. rewrite app_nil_r. rewrite <- (app_nil_r name) at 1.
  eapply wp_mono; [apply name_validate_spec| |].
  2:{ intros f s (-> & Hi & Hf). split_and!; [done..|]. right. intros (_ & ? & _). congruence. }
  intros [] s [-> Hi]. do 2 catalog_step. cbn [vs_len vs_data].
  eapply wp_mono; [apply charge_settled; [done|apply steps_lt|done|apply u64_range]| |].
  2:{ intros f l' [Hl Hf]. split_and!; [done..|]. left. by rewrite Hf. }
  intros [] l' Hs'. catalog_step. cbn [mbind option_bind]. rewrite ldn_Some, drop_0, Nat2Z.id, firstn_all by lia.
  apply wp_access; [done|]. intros ? [= <-]. catalog_step.
  apply (wp_mono _ (fun _ s => s = (l', d) /\ name_free slot name sh) _
    (fun f s => s = (l', d) /\ f_status f = TURBODB_STATUS_SQL_ERROR /\ ~ name_free slot name sh)).
  - destruct (Z.eqb_spec (Z.of_nat slot) 0); [catalog_step; split; [done|]; intros Hx; lia|].
    change 0 with (Z.of_nat 0). apply rename_check_spec.
    + intros Hf. split; [done|]. intros _ j c Hc Hj. apply (Hf j c Hc). lia.
    + intros f Hf (j & c & Hc & Hj & E). split_and!; [done..|]. intros Hn. apply (Hn ltac:(lia) j c Hc); [lia|done].
  - intros [] s [-> Hfree]. assert (slot <= length (sh_columns sh))%nat as Hle by lia.
    pose proof (renamed_represents d sh slot name Hr Hle) as Hrep. do 2 catalog_step. rewrite Nat2Z.id.
    destruct (Nat.eqb_spec slot 0) as [->|Hne]; [by catalog_step; [blia|]|].
    catalog_step; bsimp; [|lia]. catalog_step. apply wp_access.
    { apply lookup_lt_is_Some. rewrite length_map. lia. }
    intros _ _. catalog_step. by replace (Z.to_nat (Z.of_nat slot - 1)) with (slot - 1)%nat by lia.
  - intros f s (-> & Hf & Hn). split_and!; [done..|]. right. by intros (_ & _ & ?).
Qed.

(** ** Round trip *)

(** A table the encoder stores, in the version it selects. *)
Definition storable_table (sh : table_shape) : Prop := shape_ok (wide_version (shape_wide sh)) sh.

Lemma shape_bytes_inj v v' sh sh' :
  shape_ok v sh -> shape_ok v' sh' -> shape_bytes v sh = shape_bytes v' sh' -> v = v' /\ sh = sh'.
Proof.
  intros Hok Hok' E. rewrite !shape_bytes_tail in E. apply app_inj_1 in E as [E Et]; [|cbn [length]; by rewrite !length_app, !length_le_bytes].
  change (83 :: 67 :: ?x :: 0 :: ?l) with ([83; 67; x; 0] ++ l) in E.
  apply app_inj_1 in E as [[= ->] E]; [|done]. split; [done|].
  destruct (sh_keyed _ _ Hok) as (Hk & c & Hc%lookup_lt_Some & _). destruct (sh_keyed _ _ Hok') as (Hk' & c' & Hc'%lookup_lt_Some & _).
  pose proof (sh_count _ _ Hok). pose proof (sh_count _ _ Hok'). unfold UINT32_MAX in *.
  apply app_inj_1 in E as [E1%le_bytes_inj E2%le_bytes_inj]; cbn; try lia; [|by rewrite !length_le_bytes].
  injection Et as En Et. apply app_inj_1 in Et as [En' Et]; [|lia].
  rewrite <- (app_nil_r (concat (map (column_bytes v') (sh_columns sh)))), <- (app_nil_r (concat (map (column_bytes v') (sh_columns sh')))) in Et.
  apply (columns_inj v') in Et as [Ec _]; [|apply Hok|apply Hok'|lia]. destruct sh, sh'; cbn in *; congruence.
Qed.

Lemma storable_words sh : storable_table sh -> shape_words sh.
Proof.
  intros Hok. pose proof (identifier_size _ (sh_named _ _ Hok)). pose proof (sh_count _ _ Hok). unfold UINT32_MAX in *.
  split; [lia| |unfold word; lia]. eapply Forall_impl; [apply Hok|]. intros c [Hn _ Hd]. pose proof (identifier_size _ Hn).
  split; [lia|]. destruct (cs_default c) as [[]|]; cbn in *; try done; try apply Hd; by destruct Hd.
Qed.

Lemma column_bytes_ok v c : column_ok v c -> bytes_ok (column_bytes v c).
Proof.
  intros Hc. pose proof (identifier_size _ (co_name _ _ Hc)). unfold ORM_SQL_SELECT_NAME_BYTES in *.
  unfold column_bytes. apply Forall_app_2; [|apply Forall_app_2; [apply identifier_bytes, Hc|]].
  - repeat (apply Forall_cons_2 || apply Forall_nil_2); [lia|..].
    + by destruct (co_kind _ _ Hc) as [->|[->| ->]].
    + case_match; lia.
  - case_match; [|constructor]. destruct (cs_default c) as [[]|]; (apply Forall_cons_2; [lia|apply le_bytes_ok]).
Qed.

Lemma shape_bytes_ok v sh : shape_ok v sh -> bytes_ok (shape_bytes v sh).
Proof.
  intros Hok. pose proof (identifier_size _ (sh_named _ _ Hok)). unfold ORM_SQL_SELECT_NAME_BYTES, shape_bytes in *.
  assert (v = 1 \/ v = 2) as Hv by apply Hok.
  apply Forall_app_2; [repeat (apply Forall_cons_2 || apply Forall_nil_2); lia|].
  do 2 (apply Forall_app_2; [apply le_bytes_ok|]).
  apply Forall_app_2; [apply Forall_cons_2; [lia|apply identifier_bytes, Hok]|].
  apply Forall_concat, Forall_map. eapply Forall_impl; [apply Hok|]. intros c. apply column_bytes_ok.
Qed.

(** ** Properties *)

(** C29. Storing a table writes the wire form of its schema, in the version its
    defaults call for, exactly when every column has a numeric type and a
    default of that type; otherwise the error is a type error, an unsupported
    type, or a missing resource. Only the bytes of the result stay charged. *)
Theorem catalog_encode_exact `{vec_library} b d sh max_bytes :
  reachable b -> statement_active b = true -> represents d sh -> shape_words sh -> 0 < max_bytes < 2 ^ 64 ->
  match orm_tidesdb_sql_catalog_encode (Some d) max_bytes true (Some b) with
  | (Ret out, l) => Forall encodable (sh_columns sh) /\
      wk_vector out = Some (shape_bytes (wide_version (shape_wide sh)) sh) /\
      len (shape_bytes (wide_version (shape_wide sh)) sh) <= max_bytes /\ settled b (wk_reserved out) l /\
      wp (orm_sql_work_release (wk_reserved out)) (fun _ => settled b 0) (fun _ _ => False) l
  | (Err f, l) => settled b 0 l /\ (resource_status (f_status f) = true \/
      (f_status f = TURBODB_STATUS_TYPE_ERROR \/ f_status f = TURBODB_STATUS_UNSUPPORTED) /\
      ~ Forall encodable (sh_columns sh))
  | (Fault, _) => False
  end.
Proof.
  intros Hb%reachable_ledger_ok Ha Hr Hw Hm. pose proof (catalog_encode_spec b d sh max_bytes Hb Ha Hr Hw Hm) as He.
  unfold wp in He. destruct (orm_tidesdb_sql_catalog_encode _ _ _ _) as [[out|f|] l]; [|by destruct He|done].
  destruct He as (Hen & _ & Hl & -> & Hst). cbn [wk_vector wk_reserved] in *. split_and!; try done.
  set (z := work_size _ 1 1) in *. rewrite <- (Z.sub_diag z). apply work_release_settled; [done|].
  unfold z, work_size, sizeof_pointer. lia.
Qed.

(** C8. Reading stored bytes returns a table exactly when they are the wire
    form, in version 1 or 2, of a table with valid distinct names, numeric
    columns, well-typed finite defaults and an integer key that is never NULL.
    The definition represents that table and holds exactly its receipts, which
    its destruction gives back; a failure leaves no work bytes charged, and
    unless a resource is missing no such table has these bytes. *)
Theorem catalog_decode_exact `{vec_library} sizeof_binder b data max_bytes :
  0 < sizeof_binder < 2 ^ 64 -> reachable b -> statement_active b = true -> bytes_ok data -> word (len data) ->
  0 < max_bytes < 2 ^ 64 ->
  match orm_tidesdb_sql_catalog_decode sizeof_binder (Some data) (len data) max_bytes true (Some b) with
  | (Ret d, l) => (exists v sh, shape_ok v sh /\ shape_bytes v sh = data /\ represents d sh) /\
      settled b (sum (receipts d)) l /\
      wp (orm_tidesdb_sql_catalog_destroy (Some d)) (fun _ => settled b 0) (fun _ _ => False) l
  | (Err f, l) => settled b 0 l /\ (resource_status (f_status f) = true \/
      forall v sh, shape_ok v sh -> shape_bytes v sh <> data)
  | (Fault, _) => False
  end.
Proof.
  intros Hz Hb%reachable_ledger_ok Ha Hd Hw Hm.
  pose proof (catalog_decode_spec sizeof_binder Hz b data Hd Hw max_bytes Hb Ha Hm) as He. unfold wp in He.
  destruct (orm_tidesdb_sql_catalog_decode _ _ _ _ _ _) as [[d|f|] l]; [|by destruct He|done].
  destruct He as ((v & sh & Hok & E & Hr & _) & _ & Ho). split_and!; [eauto 10|apply Ho|by apply catalog_destroy_spec].
Qed.

(** C27. A table read back is the table that was stored, also after its table
    or one of its columns was renamed: the rename yields a table that can be
    stored, and decoding the bytes that encoding returns gives a definition of
    the renamed table, or a resource of the reader is missing. *)
Theorem catalog_rename_roundtrip `{vec_library} sizeof_binder b b1 b' l1 d d1 sh slot name max_bytes max_bytes' out data l :
  reachable b -> statement_active b = true -> represents d sh -> storable_table sh ->
  orm_sql_catalog_rename (Z.of_nat slot) (view name) (Some b, d) = (Ret tt, (l1, d1)) ->
  reachable b1 -> statement_active b1 = true -> 0 < max_bytes < 2 ^ 64 ->
  orm_tidesdb_sql_catalog_encode (Some d1) max_bytes true (Some b1) = (Ret out, l) -> wk_vector out = Some data ->
  reachable b' -> statement_active b' = true -> 0 < sizeof_binder < 2 ^ 64 -> 0 < max_bytes' < 2 ^ 64 ->
  storable_table (renamed slot name sh) /\ settled b 0 l1 /\ receipts d1 = receipts d /\
  wp (orm_tidesdb_sql_catalog_decode sizeof_binder (Some data) (len data) max_bytes' true)
    (fun d' _ => represents d' (renamed slot name sh)) (fun f _ => resource_status (f_status f) = true) (Some b').
Proof.
  intros Hb%reachable_ledger_ok Ha Hr Hst Hren Hb1%reachable_ledger_ok Ha1 Hm He Hout Hb'%reachable_ledger_ok Ha' Hz Hm'.
  pose proof (wp_Ret _ _ _ _ _ _ (catalog_rename_spec b 0 (Some b) d sh slot name (settled_start b Hb Ha) Hr) Hren)
    as (Hr1 & Erc & (Hle & Hi & Hfree) & Hs1). cbn [fst snd] in *.
  assert (storable_table (renamed slot name sh)) as Hst1.
  { unfold storable_table. replace (shape_wide (renamed slot name sh)) with (shape_wide sh) by (symmetry; apply renamed_wide).
    by apply renamed_ok. }
  split_and!; [done..|].
  pose proof (wp_Ret _ _ _ _ _ _ (catalog_encode_spec b1 d1 _ max_bytes Hb1 Ha1 Hr1 (storable_words _ Hst1) Hm) He)
    as (_ & _ & Hl & -> & _). injection Hout as <-.
  eapply wp_mono; [apply (catalog_decode_spec sizeof_binder Hz b'); try done; [by apply shape_bytes_ok|unfold word; lia]| |].
  - intros d' l' ((v' & sh' & Hok' & E & Hr' & _) & _). by apply (shape_bytes_inj _ _ _ _ Hok' Hst1) in E as [_ ->].
  - intros f l' [[?|Hn] _]; [done|]. by destruct (Hn _ _ Hst1).
Qed.

(** ** Witnesses *)

#[local] Instance sample_vectors : vec_library := {|
  vec_init_bytes := fun _ _ _ => STL_OK;
  vec_reserve := fun _ _ _ => STL_OK;
  vec_resize := fun _ _ _ => STL_OK
|}.

Definition roomy_limits : orm_sql_budget_limits := mk_limits (each (fun _ => 1000)) (mk_transaction_amount 1000 1000 1000).

Definition roomy (ops : list budget_op) : orm_tidesdb_sql_budget :=
  default sample_storage (snd (run_ops ops (snd (orm_tidesdb_sql_budget_init (Some roomy_limits) (Some sample_storage))))).

Lemma roomy_words : limits_words roomy_limits.
Proof.
  split; [split; [done|]|]; [|unfold transaction_ok; cbn; lia].
  intros i. cbn [statement roomy_limits]. rewrite amount_at_each. case_match; lia.
Qed.

Lemma roomy_begun : reachable (roomy [Op_begin]).
Proof.
  eapply (reach_step Op_begin).
  - apply (reach_init roomy_limits sample_storage); [apply roomy_words|vm_compute; reflexivity].
  - done.
  - vm_compute. reflexivity.
Qed.

(** A table "t" with an integer key "a" and a nullable column "b" whose default
    is one half. *)
Definition sample_shape : table_shape :=
  mk_table_shape [116] [mk_column_shape [97] (mk_type KIND_INT64 false) None;
    mk_column_shape [98] (mk_type KIND_DOUBLE true) (Some (TURBODB_VALUE_DOUBLE 0x3fe0000000000000))] 0.

Definition sample_table : orm_sql_table_definition :=
  mk_table (Some [[116]; [97]; [98]]) (Some (map column_of (sh_columns sample_shape)))
    (Some (map default_of (sh_columns sample_shape))) 0 0 0 0 0 false.

Lemma sample_represents : represents sample_table sample_shape.
Proof. by split. Qed.

Lemma sample_storable : storable_table sample_shape.
Proof.
  assert (word 0x3fe0000000000000) by (unfold word; lia).
  split; try done; cbn.
  - by right.
  - repeat apply Forall_cons_2; [..|apply Forall_nil_2]; (split; cbn; [done|unfold numeric; auto|done]).
  - by apply (bool_decide_unpack _).
  - split; [done|]. eexists. split; [reflexivity|]. by split.
Qed.

Definition sample_wire : bytes := shape_bytes 2 sample_shape.
Definition sample_encoded := orm_tidesdb_sql_catalog_encode (Some sample_table) 100 true (Some (roomy [Op_begin])).

Lemma catalog_encode_exact_witness :
  Forall encodable (sh_columns sample_shape) /\ settled (roomy [Op_begin]) 48 (snd sample_encoded).
Proof.
  pose proof (catalog_encode_exact (roomy [Op_begin]) sample_table sample_shape 100 roomy_begun eq_refl sample_represents
    (storable_words _ sample_storable) ltac:(lia)) as Hw.
  change (orm_tidesdb_sql_catalog_encode _ _ _ _) with sample_encoded in Hw.
  assert (fst sample_encoded = Ret (mk_work (Some sample_wire) 48)) as E by (vm_compute; reflexivity).
  destruct sample_encoded as [o l]. cbn [fst] in E. subst o.
  split; [exact (proj1 Hw)|exact (proj1 (proj2 (proj2 (proj2 Hw))))].
Defined.

Lemma sample_decodes :
  fst (orm_tidesdb_sql_catalog_decode 200 (Some sample_wire) (len sample_wire) 100 true (Some (roomy [Op_begin]))) =
  Ret (mk_table (tb_names sample_table) (tb_columns sample_table) (tb_defaults sample_table) 231 159 79 200 0 false).
Proof. vm_compute. reflexivity. Qed.

Lemma catalog_decode_exact_witness : exists d l,
  orm_tidesdb_sql_catalog_decode 200 (Some sample_wire) (len sample_wire) 100 true (Some (roomy [Op_begin])) = (Ret d, l) /\
  settled (roomy [Op_begin]) 669 l.
Proof.
  pose proof (catalog_decode_exact 200 (roomy [Op_begin]) sample_wire 100 ltac:(lia) roomy_begun eq_refl
    (shape_bytes_ok 2 _ sample_storable) ltac:(vm_compute; split; congruence) ltac:(lia)) as Hw.
  pose proof sample_decodes as E. destruct (orm_tidesdb_sql_catalog_decode _ _ _ _ _ _) as [o l]. cbn [fst] in E. subst o.
  do 2 eexists. split; [reflexivity|exact (proj1 (proj2 Hw))].
Defined.

(** Column "b" renamed to "c". *)
Definition sample_renamed := orm_sql_catalog_rename 2 (view [99]) (Some (roomy [Op_begin]), sample_table).
Definition sample_renamed_table : orm_sql_table_definition := snd (snd sample_renamed).
Definition sample_renamed_wire : bytes := shape_bytes 2 (renamed 2 [99] sample_shape).

Lemma catalog_rename_roundtrip_witness :
  storable_table (renamed 2 [99] sample_shape) /\
  wp (orm_tidesdb_sql_catalog_decode 200 (Some sample_renamed_wire) (len sample_renamed_wire) 100 true)
    (fun d' _ => represents d' (renamed 2 [99] sample_shape)) (fun f _ => resource_status (f_status f) = true)
    (Some (roomy [Op_begin])).
Proof.
  pose proof (catalog_rename_roundtrip 200 (roomy [Op_begin]) (roomy [Op_begin]) (roomy [Op_begin]) (fst (snd sample_renamed))
    sample_table sample_renamed_table sample_shape 2 [99] 100 100 (mk_work (Some sample_renamed_wire) 48) sample_renamed_wire
    (snd (orm_tidesdb_sql_catalog_encode (Some sample_renamed_table) 100 true (Some (roomy [Op_begin]))))
    roomy_begun eq_refl sample_represents sample_storable ltac:(vm_compute; reflexivity) roomy_begun eq_refl ltac:(lia)
    ltac:(vm_compute; reflexivity) eq_refl roomy_begun eq_refl ltac:(lia) ltac:(lia)) as Hw.
  split; [exact (proj1 Hw)|exact (proj2 (proj2 (proj2 Hw)))].
Defined.
