(* ===== verification/Session.v ===== *)
(** * Session variables (tidessql/src/session.c)

    The system variables of a connection: their names, types and values, and
    the resolution of [@@name], [@@SESSION.name] and [@@LOCAL.name] through the
    scanner of names. The tree of the parser is an argument: whether the node
    is a variable, and the text of its span. *)

From S2P Require Import Prelude Row Command Errors Budget Value Work.

(** ** Variables (session.h) *)

Definition ORM_SQL_SESSION_AUTOCOMMIT : Z := 0.
Definition ORM_SQL_SESSION_TRANSACTION_ISOLATION : Z := 1.
Definition ORM_SQL_SESSION_TRANSACTION_READ_ONLY : Z := 2.
Definition ORM_SQL_SESSION_WRITABLE_COUNT : Z := 3.
Definition ORM_SQL_SESSION_AUTO_INCREMENT_INCREMENT : Z := 3.
Definition ORM_SQL_SESSION_CHARACTER_SET_CLIENT : Z := 4.
Definition ORM_SQL_SESSION_CHARACTER_SET_CONNECTION : Z := 5.
Definition ORM_SQL_SESSION_CHARACTER_SET_RESULTS : Z := 6.
Definition ORM_SQL_SESSION_CHARACTER_SET_SERVER : Z := 7.
Definition ORM_SQL_SESSION_COLLATION_SERVER : Z := 8.
Definition ORM_SQL_SESSION_COLLATION_CONNECTION : Z := 9.
Definition ORM_SQL_SESSION_INIT_CONNECT : Z := 10.
Definition ORM_SQL_SESSION_INTERACTIVE_TIMEOUT : Z := 11.
Definition ORM_SQL_SESSION_LICENSE : Z := 12.
Definition ORM_SQL_SESSION_LOWER_CASE_TABLE_NAMES : Z := 13.
Definition ORM_SQL_SESSION_MAX_ALLOWED_PACKET : Z := 14.
Definition ORM_SQL_SESSION_NET_WRITE_TIMEOUT : Z := 15.
Definition ORM_SQL_SESSION_PERFORMANCE_SCHEMA : Z := 16.
Definition ORM_SQL_SESSION_QUERY_CACHE_SIZE : Z := 17.
Definition ORM_SQL_SESSION_QUERY_CACHE_TYPE : Z := 18.
Definition ORM_SQL_SESSION_SQL_MODE : Z := 19.
Definition ORM_SQL_SESSION_SYSTEM_TIME_ZONE : Z := 20.
Definition ORM_SQL_SESSION_TIME_ZONE : Z := 21.
Definition ORM_SQL_SESSION_WAIT_TIMEOUT : Z := 22.
Definition ORM_SQL_SESSION_VARIABLE_COUNT : Z := 23.

Record orm_sql_session_snapshot : Type := mk_session {
  se_valid : bool;
  se_autocommit : bool;
  se_read_only : bool;
  se_max_allowed_packet : Z
}.

(** The bytes of a string literal, without the terminator. *)
Definition chars (s : string) : bytes := (fun c => Z.of_N (Ascii.N_of_ascii c)) <$> String.list_ascii_of_string s.

Definition session_names : list bytes := chars <$>
  ["autocommit"; "transaction_isolation"; "transaction_read_only";
   "auto_increment_increment"; "character_set_client"; "character_set_connection";
   "character_set_results"; "character_set_server"; "collation_server";
   "collation_connection"; "init_connect"; "interactive_timeout"; "license";
   "lower_case_table_names"; "max_allowed_packet"; "net_write_timeout";
   "performance_schema"; "query_cache_size"; "query_cache_type"; "sql_mode";
   "system_time_zone"; "time_zone"; "wait_timeout"]%string.

Definition lower (c : Z) : Z := if (65 <=? c) && (c <=? 90) then c + 32 else c.

Fixpoint word_loop (text : vstr) (expected : bytes) (i : Z) : option bool :=
  match expected with
  | [] => Some true
  | e :: expected =>
      c ← vstr_at text i;
      if lower c =? e then word_loop text expected (i + 1) else Some false
  end.

Definition session_word (text : vstr) (expected : bytes) : option bool :=
  if negb (vs_len text =? len expected) then Some false else word_loop text expected 0.

Definition orm_sql_session_name (variable : Z) : vstr :=
  if (0 <=? variable) && (variable <? ORM_SQL_SESSION_VARIABLE_COUNT)
  then match session_names !! Z.to_nat variable with Some name => view name | None => mk_vstr None 0 end
  else mk_vstr None 0.

Definition orm_sql_session_type (variable : Z) : orm_sql_type :=
  let text := (variable =? ORM_SQL_SESSION_TRANSACTION_ISOLATION) ||
    ((ORM_SQL_SESSION_CHARACTER_SET_CLIENT <=? variable) && (variable <=? ORM_SQL_SESSION_INIT_CONNECT)) ||
    (variable =? ORM_SQL_SESSION_LICENSE) || (variable =? ORM_SQL_SESSION_QUERY_CACHE_TYPE) ||
    (variable =? ORM_SQL_SESSION_SQL_MODE) || (variable =? ORM_SQL_SESSION_SYSTEM_TIME_ZONE) ||
    (variable =? ORM_SQL_SESSION_TIME_ZONE) in
  mk_type (if text then KIND_TEXT
    else if variable <? ORM_SQL_SESSION_WRITABLE_COUNT then KIND_INT64 else KIND_UINT64) true.

(** The rounds of the search from variable [i] on; [names] are the names left. *)
Fixpoint find_loop (names : list bytes) (name : vstr) (i : Z) : option (option Z) :=
  match names with
  | [] => Some None
  | n :: names =>
      found ← session_word name n;
      if found : bool then Some (Some i) else find_loop names name (i + 1)
  end.

(** The variable, or [None] inside for the return of false. *)
Definition orm_sql_session_find (name : vstr) : option (option Z) :=
  if negb (is_some (vs_data name)) then Some None
  else
    old ← session_word name (chars "tx_isolation");
    if old : bool then Some (Some ORM_SQL_SESSION_TRANSACTION_ISOLATION) else find_loop session_names name 0.

Definition orm_sql_session_find_writable (name : vstr) : option (option Z) :=
  found ← orm_sql_session_find name;
  Some (match found with
        | Some variable => if ORM_SQL_SESSION_WRITABLE_COUNT <=? variable then None else Some variable
        | None => None
        end).

Definition SYSTEM_VARIABLE_PREFIX_BYTES : Z := 2.

(** [orm_sql_name_part] on the locals [text] and [name], whose failure is
    reported as it is. *)
Definition session_part (text name : vstr) : B (vstr * vstr) := fun l =>
  let '(r, s) := orm_sql_name_part (text, name) in
  (match r with Ret _ => Ret s | Err f => Err f | Fault => Fault end, l).

(** [text.len && text.data[0] == '.'] *)
Definition session_dot (text : vstr) : option bool :=
  if vs_len text =? 0 then Some false else c ← vstr_at text 0; Some (c =? 46).

Definition session_scope (name : vstr) : option bool :=
  session ← session_word name (chars "session");
  if session : bool then Some true else session_word name (chars "local").

(** [node]: the document, the node and the output are there, and the node is a
    variable; [text]: the span of the node in the document. *)
Definition orm_sql_session_resolve (node : bool) (text : vstr) : B Z :=
  budget ← gets is_some;
  raise_if (negb node || negb budget) TURBODB_STATUS_INVALID_ARGUMENT "invalid SQL session variable";;
  raise_if (negb (is_some (vs_data text))) TURBODB_STATUS_INVALID_ARGUMENT "invalid SQL variable span";;
  orm_tidesdb_sql_budget_reserve (Some (amount_of ORM_SQL_BUDGET_EXECUTION_STEPS (vs_len text)));;
  raise_if (vs_len text <=? SYSTEM_VARIABLE_PREFIX_BYTES) TURBODB_STATUS_UNSUPPORTED "SQL user variables are unsupported";;
  c0 ← access (vstr_at text 0);
  raise_if (negb (c0 =? 64)) TURBODB_STATUS_UNSUPPORTED "SQL user variables are unsupported";;
  c1 ← access (vstr_at text 1);
  raise_if (negb (c1 =? 64)) TURBODB_STATUS_UNSUPPORTED "SQL user variables are unsupported";;
  '(text, name) ← session_part (advance SYSTEM_VARIABLE_PREFIX_BYTES text) (mk_vstr None 0);
  dot ← access (session_dot text);
  '(text, name) ← (if dot : bool then
      scope ← access (session_scope name);
      raise_if (negb scope) TURBODB_STATUS_UNSUPPORTED "SQL variables require SESSION or LOCAL scope";;
      session_part (advance 1 text) name
    else mret (text, name));
  raise_if (negb (vs_len text =? 0)) TURBODB_STATUS_UNSUPPORTED "unsupported SQL variable identifier";;
  found ← access (orm_sql_session_find name);
  match found with
  | Some variable => mret variable
  | None => raise TURBODB_STATUS_UNSUPPORTED "unsupported SQL session variable name"
  end.

Definition turbodb_text (input : string) : turbodb_value_t := turbodb_text_v (view (chars input)).

(** The assignments of the [switch]; [None] is its default. *)
Definition session_switch (snapshot : orm_sql_session_snapshot) (variable : Z) (display : bool) : option turbodb_value_t :=
  let at_ v := variable =? v in
  if at_ ORM_SQL_SESSION_AUTOCOMMIT || at_ ORM_SQL_SESSION_TRANSACTION_READ_ONLY then
    let value := if at_ ORM_SQL_SESSION_AUTOCOMMIT then se_autocommit snapshot else se_read_only snapshot in
    Some (if display then turbodb_text (if value : bool then "ON" else "OFF") else turbodb_i64 (if value : bool then 1 else 0))
  else if at_ ORM_SQL_SESSION_TRANSACTION_ISOLATION then Some (turbodb_text "SERIALIZABLE")
  else if at_ ORM_SQL_SESSION_AUTO_INCREMENT_INCREMENT then Some (turbodb_u64 1)
  else if at_ ORM_SQL_SESSION_CHARACTER_SET_CLIENT || at_ ORM_SQL_SESSION_CHARACTER_SET_CONNECTION ||
    at_ ORM_SQL_SESSION_CHARACTER_SET_SERVER then Some (turbodb_text "utf8mb4")
  else if at_ ORM_SQL_SESSION_CHARACTER_SET_RESULTS || at_ ORM_SQL_SESSION_INTERACTIVE_TIMEOUT ||
    at_ ORM_SQL_SESSION_NET_WRITE_TIMEOUT || at_ ORM_SQL_SESSION_WAIT_TIMEOUT then Some turbodb_null
  else if at_ ORM_SQL_SESSION_COLLATION_SERVER || at_ ORM_SQL_SESSION_COLLATION_CONNECTION then Some (turbodb_text "utf8mb4_bin")
  else if at_ ORM_SQL_SESSION_INIT_CONNECT then Some (turbodb_text EmptyString)
  else if at_ ORM_SQL_SESSION_LICENSE then Some (turbodb_text "Apache-2.0")
  else if at_ ORM_SQL_SESSION_LOWER_CASE_TABLE_NAMES then Some (turbodb_u64 0)
  else if at_ ORM_SQL_SESSION_MAX_ALLOWED_PACKET then Some (turbodb_u64 (se_max_allowed_packet snapshot))
  else if at_ ORM_SQL_SESSION_PERFORMANCE_SCHEMA then Some (if display then turbodb_text "OFF" else turbodb_u64 0)
  else if at_ ORM_SQL_SESSION_QUERY_CACHE_SIZE then Some (turbodb_u64 0)
  else if at_ ORM_SQL_SESSION_QUERY_CACHE_TYPE then Some (turbodb_text "OFF")
  else if at_ ORM_SQL_SESSION_SQL_MODE then Some (turbodb_text "NO_BACKSLASH_ESCAPES,STRICT_TRANS_TABLES")
  else if at_ ORM_SQL_SESSION_SYSTEM_TIME_ZONE then Some (turbodb_text "UTC")
  else if at_ ORM_SQL_SESSION_TIME_ZONE then Some (turbodb_text "+00:00")
  else None.

(** [out]: the output is there. *)
Definition orm_sql_session_value {S} (snapshot : orm_sql_session_snapshot) (variable : Z) (display out : bool)
    : M turbodb_failure S turbodb_value_t :=
  raise_if (negb out || (variable <? 0) || (ORM_SQL_SESSION_VARIABLE_COUNT <=? variable)) TURBODB_STATUS_INVALID_ARGUMENT
    "invalid SQL session variable output";;
  raise_if (negb (se_valid snapshot)) TURBODB_STATUS_UNSUPPORTED "SQL session variable requires connection context";;
  match session_switch snapshot variable display with
  | Some value => mret value
  | None => raise TURBODB_STATUS_INVALID_ARGUMENT "invalid SQL session variable output"
  end.

(** ** Names in any case *)

(** The variable of a name: the old spelling of the isolation level, or the
    position of the name among the names. *)
Definition named (name : bytes) : option Z :=
  if bool_decide (lower <$> name = chars "tx_isolation") then Some ORM_SQL_SESSION_TRANSACTION_ISOLATION
  else Z.of_nat ∘ fst <$> list_find (eq (lower <$> name)) session_names.

Definition scope_name (name : bytes) : bool :=
  bool_decide (lower <$> name = chars "session") || bool_decide (lower <$> name = chars "local").

(** A name scanned from a text, with what follows it in memory. *)
Definition scanned (name junk : bytes) : vstr := mk_vstr (Some (name ++ junk)) (len name).

Lemma word_loop_spec pre name junk n expected :
  length name = length expected ->
  word_loop (mk_vstr (Some (pre ++ name ++ junk)) n) expected (len pre) = Some (bool_decide (lower <$> name = expected)).
Proof.
  revert pre expected. induction name as [|c name IH]; intros pre [|e expected] Hl; try done.
  cbn [word_loop]. unfold vstr_at. cbn [vs_data mbind option_bind app].
  rewrite (ld_middle pre). cbn [mbind option_bind fmap list_fmap]. cbn [length] in Hl.
  destruct (Z.eqb_spec (lower c) e) as [<-|Hne].
  - specialize (IH (pre ++ [c]) expected ltac:(lia)). rewrite <- app_assoc in IH. cbn [app] in IH.
    replace (len pre + 1) with (len (pre ++ [c])) by (rewrite length_app; cbn [length]; lia). rewrite IH.
    f_equal. apply bool_decide_ext. split; [by intros ->|by intros [=]].
  - rewrite bool_decide_eq_false_2; [done|]. by intros [= ? _].
Qed.

Lemma session_word_spec name junk expected :
  session_word (scanned name junk) expected = Some (bool_decide (lower <$> name = expected)).
Proof.
  unfold session_word, scanned. cbn [vs_len]. destruct (Z.eqb_spec (len name) (len expected)) as [E|E]; cbn [negb].
  - apply (word_loop_spec []). lia.
  - rewrite bool_decide_eq_false_2; [done|]. intros <-. apply E. by rewrite length_fmap.
Qed.

Lemma find_loop_spec names name junk i :
  find_loop names (scanned name junk) i =
    Some ((fun p => i + Z.of_nat p.1) <$> list_find (eq (lower <$> name)) names).
Proof.
  revert i. induction names as [|n names IH]; intros i; [done|]. cbn [find_loop list_find].
  rewrite session_word_spec. cbn [mbind option_bind]. destruct (decide (lower <$> name = n)) as [E|E].
  - rewrite bool_decide_eq_true_2 by done. cbn. do 2 f_equal. lia.
  - rewrite bool_decide_eq_false_2, IH by done. f_equal. destruct (list_find _ names) as [[j y]|]; [|done]. cbn. f_equal. lia.
Qed.

Lemma session_find_spec name junk : orm_sql_session_find (scanned name junk) = Some (named name).
Proof.
  unfold orm_sql_session_find, named. cbn [scanned vs_data is_some negb]. rewrite session_word_spec.
  cbn [mbind option_bind]. destruct (bool_decide _); [done|]. by rewrite find_loop_spec.
Qed.

Lemma session_scope_spec name junk : session_scope (scanned name junk) = Some (scope_name name).
Proof.
  unfold session_scope, scope_name. rewrite !session_word_spec. cbn [mbind option_bind]. by destruct (bool_decide _).
Qed.

Lemma named_range name v : named name = Some v -> 0 <= v < ORM_SQL_SESSION_VARIABLE_COUNT.
Proof.
  unfold named. destruct (bool_decide _); [by intros [= <-]|]. destruct (list_find _ _) as [[i y]|] eqn:E; [|done].
  intros [= <-]. apply list_find_Some in E as (E & _ & _). apply lookup_lt_Some in E.
  change (length session_names) with 23%nat in E. unfold ORM_SQL_SESSION_VARIABLE_COUNT. cbn [fst compose]. lia.
Qed.

(** ** Resolution

    A reference parser of the text of a variable. *)

Definition parse_variable (d : bytes) : option Z :=
  match d with
  | 64 :: 64 :: d =>
      '(name, rest) ← parse_name d;
      match rest with
      | [] => named name
      | 46 :: rest =>
          if scope_name name then
            '(name, rest) ← parse_name rest;
            match rest with [] => named name | _ => None end
          else None
      | _ => None
      end
  | _ => None
  end.

Lemma session_part_spec d name0 (Q : vstr * vstr -> ptr orm_tidesdb_sql_budget -> Prop) R l :
  word (len d) ->
  (forall name rest junk, parse_name d = Some (name, rest) -> Q (view rest, scanned name junk) l) ->
  (forall f, parse_name d = None -> name_status f -> R f l) ->
  wp (session_part (view d) name0) Q R l.
Proof.
  intros Hw HQ HR. pose proof (name_part_spec d name0 Hw) as Hp. unfold wp, session_part in *.
  destruct (orm_sql_name_part (view d, name0)) as [[[]|f|] [text name]]; [|by apply HR; apply Hp|done].
  cbn [fst snd] in Hp. destruct Hp as (n & rest & E & -> & junk & ->). by apply HQ.
Qed.

Lemma quote_length (t : bytes) : (length (match t with 96%Z :: d => (true, d) | _ => (false, t) end).2 <= length t)%nat.
Proof. destruct t; repeat case_match; cbn [snd length]; lia. Qed.

Lemma parse_name_length d name rest : parse_name d = Some (name, rest) -> (length rest <= length d)%nat.
Proof.
  unfold parse_name. intros E. pose proof (skip_blanks_length d) as Hd. remember (skip_blanks d) as t eqn:Et. clear Et.
  set (q := match t with 96 :: d => (true, d) | _ => (false, t) end) in E.
  pose proof (quote_length t) as Hq. fold q in Hq.
  destruct q as [quoted u]. cbn [snd] in Hq. pose proof (span_name_app u) as Hu. destruct (span_name u) as [n r].
  cbn [fst snd] in Hu. apply (f_equal length) in Hu. rewrite length_app in Hu.
  destruct (identifier n); [|done]. destruct (name_end quoted r) as [r'|] eqn:Er; [|done]. injection E as <- <-.
  assert (length r' <= length r)%nat; [|lia]. unfold name_end in Er. destruct quoted.
  - repeat case_match; try done. injection Er as <-. pose proof (skip_blanks_length l). cbn [length]. lia.
  - injection Er as <-. apply skip_blanks_length.
Qed.

Lemma session_dot_spec d : session_dot (view d) = Some (match d with c :: _ => c =? 46 | [] => false end).
Proof. destruct d as [|c d]; [done|]. unfold session_dot. rewrite view_head. by destruct (Z.eqb_spec (vs_len (view (c :: d))) 0). Qed.

(** The statuses of the texts that name no variable. *)
Definition refused (d : bytes) (f : turbodb_failure) : Prop := parse_variable d = None /\ name_status f.

(** The end of the resolution, after the last name. *)
Lemma session_end_spec d name rest junk (Q : Z -> ptr orm_tidesdb_sql_budget -> Prop) R l :
  parse_variable d = match rest with [] => named name | _ => None end ->
  (forall v, parse_variable d = Some v -> Q v l) -> (forall f, refused d f -> R f l) ->
  wp (raise_if (negb (vs_len (view rest) =? 0)) TURBODB_STATUS_UNSUPPORTED "unsupported SQL variable identifier";;
      found ← access (orm_sql_session_find (scanned name junk));
      match found with
      | Some variable => mret variable
      | None => raise TURBODB_STATUS_UNSUPPORTED "unsupported SQL session variable name"
      end) Q R l.
Proof.
  intros Ep HQ HR. tdb_step. tdb_step; bsimp; destruct rest as [|c rest]; try done.
  - apply HR. split; [done|by right].
  - tdb_step. rewrite session_find_spec. apply wp_access; [done|]. intros ? [= <-].
    destruct (named name) eqn:En; tdb_step; [by apply HQ|]. apply HR. split; [done|by right].
Qed.

Lemma prefix_spec {A} d (k : B A) (Q : A -> ptr orm_tidesdb_sql_budget -> Prop) R l :
  (forall d', d = 64 :: 64 :: d' -> wp k Q R l) -> (forall f, refused d f -> R f l) ->
  wp (raise_if (vs_len (view d) <=? SYSTEM_VARIABLE_PREFIX_BYTES) TURBODB_STATUS_UNSUPPORTED "SQL user variables are unsupported";;
      c0 ← access (vstr_at (view d) 0);
      raise_if (negb (c0 =? 64)) TURBODB_STATUS_UNSUPPORTED "SQL user variables are unsupported";;
      c1 ← access (vstr_at (view d) 1);
      raise_if (negb (c1 =? 64)) TURBODB_STATUS_UNSUPPORTED "SQL user variables are unsupported";;
      k) Q R l.
Proof.
  intros HQ HR. assert (forall r, parse_variable d = None -> R (mk_failure TURBODB_STATUS_UNSUPPORTED r) l) as HR'
    by (intros; apply HR; split; [done|by right]).
  tdb_step. tdb_step; bsimp.
  { apply HR'. destruct d as [|c0 [|c1 [|c2 d]]]; [done|..]; unfold SYSTEM_VARIABLE_PREFIX_BYTES in *; cbn [view vs_len length] in *; [| |lia]; cbn; by repeat case_match. }
  destruct d as [|c0 [|c1 d]]; [done..|]. do 2 (tdb_step; apply wp_access; [done|]; intros ? [= <-]; do 2 tdb_step; bsimp;
    [apply HR'; cbn; by repeat case_match|]).
  subst. by eapply HQ.
Qed.

(** The first charge of a statement, with the cause of its failure. *)
Lemma first_charge b n :
  ledger_ok b -> statement_active b = true -> word n ->
  wp (orm_tidesdb_sql_budget_reserve (Some (charge_amount n)))
    (fun _ l' => settled b 0 l' /\ steps_used l' = steps_used (Some b) + n)
    (fun f l' => l' = Some b /\ ~ fits b (charge_amount n) /\ f_status f = TURBODB_STATUS_LIMIT_EXCEEDED) (Some b).
Proof.
  intros Hb Ha Hn. pose proof (steps_charged b 0 (Some b) n (settled_start b Hb Ha) Hn) as H1.
  assert (amount_ok (charge_amount n)) as Hc by (apply amount_of_ok; [apply steps_lt|done]).
  pose proof (reserve_wp b _ Hb Ha Hc) as H2. unfold wp, charge_amount in *.
  destruct (orm_tidesdb_sql_budget_reserve _ _) as [[[]|f|] l1]; [done|by destruct H2 as (? & -> & ?)|done].
Qed.

Lemma resolve_spec b d :
  ledger_ok b -> statement_active b = true -> word (len d) ->
  wp (orm_sql_session_resolve true (view d))
    (fun v l' => parse_variable d = Some v /\ settled b 0 l' /\ steps_used l' = steps_used (Some b) + len d)
    (fun f l' => l' = Some b /\ ~ fits b (charge_amount (len d)) /\ f_status f = TURBODB_STATUS_LIMIT_EXCEEDED \/
      settled b 0 l' /\ steps_used l' = steps_used (Some b) + len d /\ refused d f) (Some b).
Proof.
  intros Hb Ha Hw. unfold orm_sql_session_resolve. tdb_step. tdb_step. cbn [is_some negb orb].
  do 2 tdb_step; [done|]. do 2 tdb_step; [done|]. tdb_step. eapply wp_mono; [by apply (first_charge b (len d))| |by left].
  intros [] l1 [Hs1 E1]. set (Q := fun v l' => parse_variable d = Some v /\ settled b 0 l' /\ steps_used l' = _).
  set (R := fun f l' => l' = Some b /\ _ \/ _).
  assert (forall v, parse_variable d = Some v -> Q v l1) as HQ by (intros; by split_and!).
  assert (forall f, refused d f -> R f l1) as HR by (intros; by right).
  clearbody Q R. apply prefix_spec; [|done]. intros t ->.
  change (advance SYSTEM_VARIABLE_PREFIX_BYTES _) with (advance (len [64; 64]) (view ([64; 64] ++ t))). rewrite view_advance_app by done.
  assert (word (len t)) as Ht by (unfold word in *; cbn [length] in *; lia).
  tdb_step. apply session_part_spec; [done| |].
  2:{ intros f Ep Hf. apply HR. split; [|done]. cbn. by rewrite Ep. }
  intros name rest junk Ep. assert (parse_variable (64 :: 64 :: t) = match rest with
    | [] => named name
    | 46 :: rest => if scope_name name then '(name, rest) ← parse_name rest; match rest with [] => named name | _ => None end else None
    | _ => None end) as Ev by (cbn; by rewrite Ep).
  pose proof (parse_name_length t name rest Ep) as Hl. clear Ep.
  tdb_step. rewrite session_dot_spec. apply wp_access; [done|]. intros ? [= <-].
  destruct rest as [|c rest]; [do 2 tdb_step; by apply (session_end_spec (64 :: 64 :: t))|].
  destruct (Z.eqb_spec c 46) as [->|Hc].
  2:{ do 2 tdb_step. apply (session_end_spec (64 :: 64 :: t)); [|done..]. rewrite Ev. by repeat case_match. }
  do 2 tdb_step. rewrite session_scope_spec. apply wp_access; [done|]. intros ? [= <-]. do 2 tdb_step; bsimp.
  { apply HR. split; [|by right]. by rewrite Ev, H1. }
  rewrite H1 in Ev. rewrite view_advance by (unfold word in *; lia). apply session_part_spec.
  - cbn [length] in Hl. unfold word in *. lia.
  - intros name' rest' junk' Ep. apply (session_end_spec (64 :: 64 :: t)); [|done..]. by rewrite Ev, Ep.
  - intros f Ep Hf. apply HR. split; [|done]. by rewrite Ev, Ep.
Qed.

(** ** Properties *)

Lemma lower_start c : name_start (lower c) = true -> name_start c = true.
Proof.
  unfold lower. destruct ((65 <=? c) && (c <=? 90)) eqn:E; [|done]. intros _. unfold name_start. rewrite E. by rewrite orb_true_r.
Qed.

Lemma lower_rest c : name_rest (lower c) = true -> name_rest c = true.
Proof.
  unfold name_rest. rewrite !orb_true_iff. intros [Hc|Hc]; [left; by apply lower_start|]. revert Hc. unfold lower.
  destruct ((65 <=? c) && (c <=? 90)) eqn:E; [|by right]. intros _. left. unfold name_start. rewrite E. by rewrite orb_true_r.
Qed.

Lemma parse_variable_range d v : parse_variable d = Some v -> 0 <= v < ORM_SQL_SESSION_VARIABLE_COUNT.
Proof.
  intros E. assert (exists name, named name = Some v) as [name Hn]; [|by eapply named_range].
  unfold parse_variable in E. repeat case_match; simplify_option_eq; [].
  repeat case_match; simplify_option_eq; [by eexists|]. repeat case_match; [by eexists|done].
Qed.

(** The letters of an identifier may be of either case. *)
Lemma lower_identifier name : identifier (lower <$> name) = true -> identifier name = true.
Proof.
  unfold identifier. rewrite length_fmap, !andb_true_iff. intros [Hl Hn]. split; [done|].
  destruct name as [|c name]; [done|]. cbn [fmap list_fmap] in Hn. bsimp. apply andb_true_iff. split; [by apply lower_start|].
  apply forallb_forall. intros x Hx. apply lower_rest. eapply forallb_forall; [done|]. by apply in_map.
Qed.

Lemma parse_name_plain name rest :
  identifier name = true -> match rest with c :: _ => name_rest c = false /\ name_blank c = false | [] => True end ->
  parse_name (name ++ rest) = Some (name, rest).
Proof.
  intros Hi Hr. destruct name as [|c name]; [done|]. pose proof (identifier_rest _ Hi) as Hn.
  assert (name_blank c = false /\ c <> 96) as [Hb Hq].
  { cbn [forallb] in Hn. apply andb_true_iff in Hn as [Hc _]. unfold name_rest, name_start, name_digit, name_blank in *.
    repeat (bsimp; match goal with H : _ \/ _ |- _ => destruct H end); bsimp; split; try lia; blia. }
  unfold parse_name. cbn [app skip_blanks]. rewrite Hb.
  replace (match c :: name ++ rest with 96 :: d => (true, d) | _ => (false, c :: name ++ rest) end)
    with (false, (c :: name) ++ rest) by (cbn; by repeat case_match).
  rewrite span_name_stop; [|done|by destruct rest; [|apply Hr]]. rewrite Hi. cbn. do 2 f_equal.
  destruct rest as [|x rest]; [done|]. cbn. by rewrite (proj2 Hr).
Qed.

Lemma session_names_named v name :
  session_names !! v = Some name -> identifier name = true /\ named name = Some (Z.of_nat v) /\ lower <$> name = name.
Proof.
  assert (Forall (fun p => identifier p.2 = true /\ named p.2 = Some (Z.of_nat p.1) /\ lower <$> p.2 = p.2)
    (imap pair session_names)) as Hall by (repeat constructor).
  intros Hv. rewrite Forall_forall in Hall. apply (Hall (v, name)), (list_elem_of_lookup_2 _ v).
  by rewrite list_lookup_imap, Hv.
Qed.

(** The name of a variable, in any case. *)
Definition spelled (name : bytes) (v : nat) : Prop := session_names !! v = Some (lower <$> name).

Lemma spelled_named name v : spelled name v -> identifier name = true /\ named name = Some (Z.of_nat v).
Proof.
  intros Hv. destruct (session_names_named _ _ Hv) as (Hi & Hn & Hl). split; [by apply lower_identifier|].
  unfold named in *. by rewrite Hl in Hn.
Qed.

(** C31. A session variable is resolved from the text of its node as the
    reference parser reads it: two at signs, a name, or SESSION or LOCAL, a dot
    and a name, with the name of a variable in any case; the steps charged are
    the bytes of the text. It fails only for a text that names no variable, with
    these steps charged, or because the ledger does not admit them, which leaves
    the ledger as it was. Each variable is found by its name,
    with or without a scope. *)
Theorem session_resolve_exact b d :
  reachable b -> statement_active b = true -> word (len d) ->
  match orm_sql_session_resolve true (view d) (Some b) with
  | (Ret v, l) => parse_variable d = Some v /\ 0 <= v < ORM_SQL_SESSION_VARIABLE_COUNT /\ settled b 0 l /\
      steps_used l = steps_used (Some b) + len d
  | (Err f, l) =>
      l = Some b /\ ~ fits b (charge_amount (len d)) /\ f_status f = TURBODB_STATUS_LIMIT_EXCEEDED \/
      settled b 0 l /\ steps_used l = steps_used (Some b) + len d /\ parse_variable d = None /\
        (f_status f = TURBODB_STATUS_LIMIT_EXCEEDED \/ f_status f = TURBODB_STATUS_UNSUPPORTED)
  | (Fault, _) => False
  end /\
  forall name scope v, spelled name v -> scope_name scope = true ->
    parse_variable (64 :: 64 :: name) = Some (Z.of_nat v) /\
    parse_variable (64 :: 64 :: scope ++ 46 :: name) = Some (Z.of_nat v).
Proof.
  intros Hb%reachable_ledger_ok Ha Hw. split.
  - pose proof (resolve_spec b d Hb Ha Hw) as Hp. unfold wp in Hp.
    destruct (orm_sql_session_resolve _ _ _) as [[v|f|] l]; [| |done].
    + destruct Hp as (Ep & Hs & E). pose proof (parse_variable_range d v Ep). split_and!; try done; lia.
    + destruct Hp as [Hp|(Hs & E & Hn & Hf)]; [by left|by right].
  - intros name scope v Hn Hs. destruct (spelled_named _ _ Hn) as [Hi Ev]. cbn [parse_variable].
    assert (parse_name name = Some (name, [])) as Ep by (rewrite <- (app_nil_r name) at 1; by apply parse_name_plain).
    assert (identifier scope = true) as Hsi.
    { apply lower_identifier. unfold scope_name in Hs.
      apply orb_true_iff in Hs as [Hs%bool_decide_eq_true|Hs%bool_decide_eq_true]; by rewrite Hs. }
    rewrite Ep, parse_name_plain by done. cbn [mbind option_bind]. by rewrite Hs, Ep.
Qed.

(** Every session variable has a value of the type that is announced for it,
    or NULL; only the display of SHOW turns a flag into text. *)
Theorem session_value_typed {S} snapshot v display (s : S) :
  se_valid snapshot = true -> 0 <= v < ORM_SQL_SESSION_VARIABLE_COUNT ->
  exists value, orm_sql_session_value snapshot v display true s = (Ret value, s) /\ tv_reserved value = 0 /\
    (value_kind value = ty_kind (orm_sql_session_type v) \/ value_kind value = KIND_NULL \/
      display = true /\ value_kind value = KIND_TEXT).
Proof.
  intros Hs Hv. assert (v ∈ seqZ 0 23) as Hin by (apply elem_of_seqZ; unfold ORM_SQL_SESSION_VARIABLE_COUNT in Hv; lia).
  unfold orm_sql_session_value. rewrite Hs. clear Hs Hv.
  let l := eval vm_compute in (seqZ 0 23) in change (seqZ 0 23) with l in Hin.
  repeat (apply elem_of_cons in Hin as [->|Hin]; [by destruct display; eexists; split_and!; eauto|]).
  by apply not_elem_of_nil in Hin.
Qed.

(** ** Witnesses *)

Lemma session_resolve_exact_witness :
  exists l, orm_sql_session_resolve true (view (chars "@@Session.SQL_mode")) (Some (sample_after [Op_begin])) =
    (Ret ORM_SQL_SESSION_SQL_MODE, l) /\ settled (sample_after [Op_begin]) 0 l /\
    parse_variable (chars "@@time_Zone") = Some ORM_SQL_SESSION_TIME_ZONE.
Proof.
  pose proof (session_resolve_exact (sample_after [Op_begin]) (chars "@@Session.SQL_mode") sample_begun
    eq_refl ltac:(vm_compute; split; congruence)) as [Hw Hn].
  assert (fst (orm_sql_session_resolve true (view (chars "@@Session.SQL_mode")) (Some (sample_after [Op_begin]))) =
    Ret ORM_SQL_SESSION_SQL_MODE) as E by (vm_compute; reflexivity).
  destruct (orm_sql_session_resolve _ _ _) as [o l]. cbn [fst] in E. subst o. exists l.
  split; [reflexivity|]. split; [apply Hw|]. exact (proj1 (Hn (chars "time_Zone") (chars "LOCAL") 21%nat eq_refl eq_refl)).
Defined.

